(* ===== verification/_CoqProject ===== *)
-Q . S2P
Prelude.v
Queue.v
QueueMore.v
Tree.v
TreeRep.v
TreeInsert.v
TreeFind.v
TreeRemove.v
TreeProps.v
Splay.v
SplayRep.v
SplayProps.v
Vmem.v
VmemInv.v
VmemAlloc.v
VmemFree.v
VmemInit.v
VmemRefine.v
VmemProps.v
Core.v
Dpc.v
Timer.v
Sched.v
Dispatch.v
SoftInt.v
KernelProps.v
Main.v
MainProps.v
Pm.v
Paging.v
MemProps.v
Str.v
Symbols.v
Log.v
LibProps.v
Irq.v
IrqProps.v
Slab.v
Kmem.v
Wired.v
HeapProps.v
Pci.v
PciProps.v
Boot.v
Direct.v
Smp.v
BootProps.v
Cpudata.v
Platform.v
Devices.v
PlatformProps.v
Glue.v
GlueProps.v
Npf.v
NpfText.v
NpfRef.v
Printk.v
NpfProps.v
Messages.v
Fireworks.v
ReportProps.v
