(* ===== verification/Prelude.v ===== *)
(** * The nyy kernel: a verification development

    The program is the C code under [src/kernel]: a small preemptive kernel for amd64,
    started by the limine boot protocol.  This library translates it into Gallina
    functions and proves what its parts promise to each other.

    ** The program and how its parts interact

    - [kmain] ([main.c]) asks the boot loader for the map of memory, gives the usable
      regions to the page frame allocator ([vm/pm.c]), builds the kernel's page tables
      ([platform/amd64/vm.c], [boot/map.c], [platform/limine-generic/entry.c]) and hands
      the kernel's range of addresses to an arena ([lib/vmem.c]).
    - Above these, [vm/kmem.c] wires pages to addresses, and [lib/slab.c] cuts pages into
      the blocks of [kmalloc].
    - Each CPU ([cpudata_t]) has an interrupt level, pending software interrupts
      ([irq/int.c], [irq/irql.c]) and a queue of deferred calls ([irq/dpc.c]).  The clock
      interrupt ([irq/irq.c], [platform/amd64/apic.c]) queues the call that expires timers
      ([lib/time.c]); timers wake waiting threads and preempt running ones
      ([sched/sched.c], [sched/dispatch.c], [lib/event.c], [lib/mutex.c], [obj/obj.c]).
    - [lib/log.c], [lib/symbols.c], [lib/string.c] serve all of them; [devkit] and
      [platform/amd64/pci.c] enumerate the devices of the PCI buses.

    ** How the code is modelled

    Routines are functions in the state and error monad [M S A = S -> outcome (A * S)] of
    this file: [Panic] stands for a failed assertion, a null or dangling pointer, an index
    out of range, or a spin lock its own holder waits for.  [wp m Q s] says that [m]
    returns from [s] and its result satisfies [Q], so every theorem stated with [wp]
    includes termination and the absence of all these.  Integers of a machine width are
    [Z] with the wrap-around written out ([wrap64] ... [wrap8]).  Objects in memory are
    named by an identity and live in finite maps, or, for page tables, string routines and
    descriptor tables, are words and bytes of a memory.

    ** Files

    - Prelude: the monad and its rules, words, alignment, sums.
    - Queue: the [LIST], [SLIST] and [TAILQ] macros of [sys/queue.h] that the kernel uses, on
      pointers, and that they implement lists.  The components use the list operations this
      justifies.  QueueMore: the other macros of that header, tail queues, singly-linked and
      circular ones as instances of one interface.
    - Tree, TreeRep, TreeInsert, TreeFind, TreeRemove, TreeProps: the red-black trees of
      [sys/tree.h].  Tree has the macros on a memory of entries with parent pointers; TreeRep
      says what it means that a memory holds a tree, seen from any place in it; TreeInsert,
      TreeFind and TreeRemove have the operations on it.  Splay, SplayRep, SplayProps: the
      splay trees of the same header, in the same order.
    - Vmem, VmemInv, VmemAlloc, VmemFree, VmemInit, VmemRefine, VmemProps: [lib/vmem.c].
      Vmem has the operations, VmemInv the invariant of an arena, VmemAlloc and VmemFree
      the two operations on it, VmemRefine the abstract allocator of intervals.
    - Core: [cpudata_t] and the kernel objects of one CPU; spin locks.  Dpc, Timer, Sched,
      Dispatch, SoftInt: the routines on them; SoftInt ties the recursion between lowering
      the level, running deferred calls and the scheduler.  KernelProps has their theorems.
    - Main, MainProps: the functions threads run, from the trampoline of a new thread on, and
      how [kmain] becomes the idle thread ([main.c], [platform/amd64/sched.S],
      [tests/mutextst.c]).
    - Pm, Paging, MemProps: page frames and the four-level page tables in physical memory.
    - Str, Symbols, Log, LibProps: string routines, the symbol table of a panic, the ring of
      log messages and its consoles.
    - Irq, IrqProps: vectors, their objects, dispatch of a hardware interrupt, the clock.
    - Slab, Kmem, Wired, HeapProps: caches, [kmalloc] over them, wired memory over Vmem, Pm
      and Paging and its release.
    - Pci, PciProps: access to configuration space, enumeration, the device tree.
    - Boot, Direct, Smp, BootProps: memory set-up in [kmain], the direct map of physical
      memory with its huge pages, starting the other cores.
    - Cpudata, Platform, Devices, PlatformProps: per-CPU data, descriptor tables, the
      registers of a core, serial port, local APIC and HPET.
    - Glue, GlueProps: what the kernel offers to uACPI ([devkit/acpi/glue.c]).
    - Npf, NpfText, NpfRef, Printk, NpfProps: the formatter [nanoprintf.h] as [lib/log.c]
      configures it, and [printk] on top of it.  Npf has the parser, the conversions and the
      output; NpfText reduces printing to the text of a format and says when there is one;
      NpfRef has the reference layout of integers, buffers and bounds on the length.
    - Messages: the reports of faults, panics, failed assertions, the undefined behaviour
      sanitizer, uACPI and the tests as the calls of [printk] they make.  Fireworks: the
      framebuffer demonstration [tests/fireworks.c].  ReportProps has their theorems.

    ** What the theorems show

    - Vmem: for every run of allocations and releases, an arena made by [vmem_init] behaves
      as a set of disjoint intervals from which aligned intervals are taken and to which
      they return; allocation and release restore the layout; what happens when nothing
      fits, and for sizes off the quantum.
    - One CPU: lowering the level runs every queued call in order and switches to the
      thread the calls put on standby; the clock interrupt does so from below dispatch
      level and otherwise leaves the call queued; timers expire in the order of deadlines
      and the clock is armed for the next; the scheduler picks the
      highest ready priority, preempts in round-robin order and arms its timer exactly when
      there is competition; events are flags, mutexes have one owner.  The deferred calls of
      these theorems are the kernel's own, the timer engine, preemption and the done queue,
      and calls of clients that leave the data of the scheduling core alone
      ([SoftInt.client_quiet]).  The call that ends a wait with a timeout, like any timer or
      event that somebody waits for, stops the kernel: where the code takes a lock twice,
      prints a name through a null pointer or forgets a thread, a theorem says so.
    - Memory: frames are handed out once each, first in first out; mapping a page changes
      the translation of that page only; wired memory is backed by frames of its own and
      releasing it undoes that, where page tables, wired frames and the pages of boundary
      tags all come off the one free list ([Kmem.on_v]);
      blocks of [kmalloc] never overlap; after boot every byte of every page-aligned entry of
      the memory map is found at its place in the direct map, whatever the sizes of the pages used, the
      kernel's sections are mapped where the loader put them, nothing else is mapped and no
      page is both writable and executable.
    - Threads: from [kmain] control comes to the first instruction of [kmain_threaded] in a
      thread of its own, at passive level, with interrupts on and no lock held; what stops
      the demonstration and the mutex test after that.
    - Containers: the queue macros refine lists; the red-black and the splay trees refine
      lists sorted by key for every sequence of operations, red-black trees stay balanced
      and their loops logarithmic.
    - The rest: the log is a bounded queue that reaches every console; the output of [nm]
      parses back; vectors are chosen as documented; enumeration ends and finds what a plain
      scan of the buses finds; all cores come up under every fair schedule; the page
      attribute table gives pages the memory type that was asked for, huge ones that were to
      be write-combining excepted; the clock is armed
      within a tick of the deadline; a window onto physical memory shows that memory.
    - Output: an accepted format specification is well formed; a format with arguments of
      the types it asks for prints without leaving a buffer, the count of characters wrapping
      around as the [int] it is; integers come out
      as a reference layout prescribes and addresses read back; [printk] of a format is
      [printk] of its text; the report of a fault is complete for every context from whose
      frame pointer a finite chain of frames can be read, and what happens for a broken or
      closed chain is said.  Filling
      the screen is plotting every pixel, and a particle leaves no trace.

    ** Parameters and interfaces

    Code outside the repository is an argument: the heap of timers ([heap.h], class
    [TimerHeap] with the laws of a priority queue, discharged by a list), what devices and
    the boot loader report, the ACPI tables, the table of sines of the demonstration.  The
    slab allocator gets pages through the class [VmPages], clients get memory through
    [KMalloc], the enumeration reaches configuration space through [PciPort]; the classes
    have instances from the modelled code or a concrete one.  A context switch calls the
    parameter [resume], which stands for what other threads do until this one runs again.

    ** Fuel

    A loop that is not structural takes fuel and fails with [OutOfFuel] when it runs out;
    the theorems say how much is enough, so none is vacuous.  Draining deferred calls needs
    more than their number; expiry more than the number of timers; nested [irql_lower] one
    level per nesting; [vm_port_map] two (a 1 GiB page is emulated by 2 MiB pages once);
    [kmalloc] two ([goto] after a new slab); the enumeration one per bus (256); loops over
    pages their number; polling the serial port as many readings as the device needs;
    printing one turn per character of the format, a number 64 digits; a particle one turn
    for every 16 milliseconds of its life; the direct map more than the pages of an entry;
    the stack walk of a panic more than the frames of the chain; a run of threads one for
    each new thread that is switched to; a red-black tree two more
    than twice the logarithm of the number of elements, a splay tree their number.

    ** Not modelled

    - Concurrency inside a routine: a model of one CPU runs a routine without another CPU or
      a hardware interrupt between its steps; only [port_start_cores] is interleaved.
    - The [RBT_] wrappers of [sys/tree.h], whose functions are not in the repository; uACPI
      itself and the callbacks that panic as stubs, flanterm's console, [ultra.c] (disabled)
      and the riscv64 stub; floating point and write-back of the formatter, which are
      compiled out; assembly files are represented by their effect where C code relies on it.
    - [vmem_dump], and what most routines print on the way; the names that [sched_unwait]
      prints are looked at, since reading them can stop the kernel.  A switch back to a thread that
      ran before is the parameter [others] of Main: what follows the first instructions of
      several threads is not composed into one run.
    - The theorems about [kmalloc] are about requests of at most 256 bytes, which caches of
      small objects serve; the operations of caches of large objects are modelled. *)

From Corelib Require Export ssreflect.
From stdpp Require Export base list gmap numbers strings.
From Stdlib Require Export ZArith Lia.

Declare Scope nyy_scope.
Delimit Scope nyy_scope with nyy.

#[global] Open Scope general_if_scope.
#[global] Open Scope Z_scope.

(** ** Ways a kernel routine can fail to return

    [assert] and [panic] end in [hcf]; a null or stale pointer is undefined
    behaviour; a spin lock taken twice by its own holder never returns (the
    source asserts after ten million tries); [OutOfFuel] is the model's own
    bound on a [while (true)] loop. *)
Inductive fault :=
| AssertFail (what : string)
| NullDeref (what : string)
| OutOfBounds (what : string)
| Deadlock (what : string)
| Undefined (what : string)
| OutOfFuel.

Inductive outcome (A : Type) :=
| Ok (a : A)
| Panic (f : fault).
Arguments Ok {A} a.
Arguments Panic {A} f.

(** ** The state and error monad of the kernel model *)
Definition M (S A : Type) : Type := S → outcome (A * S).

#[global] Instance M_ret {S} : MRet (M S) := λ A a s, Ok (a, s).
#[global] Instance M_bind {S} : MBind (M S) := λ A B f m s,
  match m s with
  | Ok (a, s') => f a s'
  | Panic e => Panic e
  end.

Definition get {S} : M S S := λ s, Ok (s, s).
Definition put {S} (s' : S) : M S unit := λ _, Ok (tt, s').
Definition modify {S} (f : S → S) : M S unit := λ s, Ok (tt, f s).
Definition gets {S A} (f : S → A) : M S A := λ s, Ok (f s, s).
Definition fail {S A} (e : fault) : M S A := λ _, Panic e.
Definition assertM {S} (b : bool) (what : string) : M S unit :=
  if b then mret tt else fail (AssertFail what).
Definition deref {S A} (what : string) (o : option A) : M S A :=
  match o with Some a => mret a | None => fail (NullDeref what) end.
Definition whenM {S} (b : bool) (m : M S unit) : M S unit :=
  if b then m else mret tt.

(** [for (x : l) f x] *)
Fixpoint forM {S A} (l : list A) (f : A → M S unit) : M S unit :=
  match l with
  | [] => mret tt
  | x :: l' => f x ;; forM l' f
  end.

(** ** Total-correctness weakest preconditions: [wp m Q s] says that [m] started
    in [s] returns (no assertion fires, no bad pointer is followed) and the
    result satisfies [Q]. *)
Definition wp {S A} (m : M S A) (Q : A → S → Prop) (s : S) : Prop :=
  match m s with Ok (a, s') => Q a s' | Panic _ => False end.

Section wp.
Context {S : Type}.

Lemma wp_ret {A} (a : A) Q (s : S) : wp (mret a) Q s ↔ Q a s.
Proof. done. Qed.
Lemma wp_bind {A B} (m : M S A) (f : A → M S B) Q s :
  wp (m ≫= f) Q s ↔ wp m (λ a s', wp (f a) Q s') s.
Proof. rewrite /wp /mbind /M_bind. by destruct (m s) as [[]|]. Qed.
Lemma wp_mono {A} (m : M S A) (Q Q' : A → S → Prop) s :
  wp m Q s → (∀ a s', Q a s' → Q' a s') → wp m Q' s.
Proof. rewrite /wp. destruct (m s) as [[]|]; naive_solver. Qed.
Lemma wp_ok {A} (m : M S A) Q s : wp m Q s ↔ ∃ a s', m s = Ok (a, s') ∧ Q a s'.
Proof. rewrite /wp. destruct (m s) as [[]|]; naive_solver. Qed.
Lemma wp_and {A} (m : M S A) (Q1 Q2 : A → S → Prop) s :
  wp m Q1 s → wp m Q2 s → wp m (λ a s', Q1 a s' ∧ Q2 a s') s.
Proof. rewrite /wp. destruct (m s) as [[]|]; naive_solver. Qed.
Lemma wp_get Q (s : S) : wp get Q s ↔ Q s s.
Proof. done. Qed.
Lemma wp_put s' Q (s : S) : wp (put s') Q s ↔ Q tt s'.
Proof. done. Qed.
Lemma wp_modify f Q (s : S) : wp (modify f) Q s ↔ Q tt (f s).
Proof. done. Qed.
Lemma wp_gets {A} (f : S → A) Q s : wp (gets f) Q s ↔ Q (f s) s.
Proof. done. Qed.
Lemma wp_assert b what Q (s : S) : wp (assertM b what) Q s ↔ b = true ∧ Q tt s.
Proof. rewrite /wp. destruct b; simpl; naive_solver. Qed.
Lemma wp_deref {A} what (o : option A) Q (s : S) :
  wp (deref what o) Q s ↔ ∃ a, o = Some a ∧ Q a s.
Proof. rewrite /wp. destruct o; simpl; naive_solver. Qed.
Lemma wp_when b m Q (s : S) :
  wp (whenM b m) Q s ↔ if b then wp m Q s else Q tt s.
Proof. by destruct b. Qed.
Lemma wp_fail {A} e (Q : A → S → Prop) s : wp (fail e) Q s ↔ False.
Proof. done. Qed.

Lemma wp_run_eq {A} (m m' : M S A) Q s s' : m s = m' s' → wp m' Q s' → wp m Q s.
Proof. rewrite /wp. by intros ->. Qed.

(** Running past a step that returns. *)
Lemma bind_ok {A B} (m : M S A) (f : A → M S B) s a s' :
  m s = Ok (a, s') → (m ≫= f) s = f a s'.
Proof. rewrite /mbind /M_bind. by intros ->. Qed.
Lemma bind_panic {A B} (m : M S A) (f : A → M S B) s e :
  m s = Panic e → (m ≫= f) s = Panic e.
Proof. rewrite /mbind /M_bind. by intros ->. Qed.
Lemma bind_wp {A B} (m : M S A) (f : A → M S B) Q s (r : outcome (B * S)) :
  wp m Q s → (∀ a s', Q a s' → f a s' = r) → (m ≫= f) s = r.
Proof. intros (a & s' & E & HQ)%wp_ok H. rewrite (bind_ok _ _ _ _ _ E). auto. Qed.

(** A step that returns, followed by something that stops with [e]. *)
Lemma bind_ends {A B} (m : M S A) (f : A → M S B) s e :
  wp m (λ a s', f a s' = Panic e) s → (m ≫= f) s = Panic e.
Proof. intros (a & s' & E & Hf)%wp_ok. by rewrite (bind_ok _ _ _ _ _ E). Qed.

(** The loop rule: an invariant indexed by the elements already visited. *)
Lemma wp_forM {A} (l : list A) (f : A → M S unit) (I : list A → S → Prop) s :
  I [] s →
  (∀ done x todo s', l = done ++ x :: todo → I done s' →
     wp (f x) (λ _ s'', I (done ++ [x]) s'') s') →
  wp (forM l f) (λ _ s', I l s') s.
Proof.
  intros H0 Hstep.
  enough (∀ todo done s', l = done ++ todo → I done s' →
            wp (forM todo f) (λ _ s'', I l s'') s') as H by by apply (H l []).
  induction todo as [|x todo IH]; intros done s' Hl HI; simpl.
  - rewrite app_nil_r in Hl. by subst.
  - apply wp_bind. eapply wp_mono; [by eapply Hstep|].
    intros [] s'' HI'. apply (IH (done ++ [x])); [|done].
    by rewrite -app_assoc.
Qed.
(** The same for a counting loop: the invariant holds of the next index. *)
Lemma wp_forM_seq s n (f : nat → M S unit) (I : nat → S → Prop) w :
  I s w → (∀ i w', (s ≤ i < s + n)%nat → I i w' → wp (f i) (λ _ w'', I (Datatypes.S i) w'') w') →
  wp (forM (seq s n) f) (λ _ w', I (s + n)%nat w') w.
Proof.
  revert s w. induction n as [|n IH]; intros s w H0 Hstep; simpl.
  - by rewrite Nat.add_0_r.
  - apply wp_bind. eapply wp_mono; [apply Hstep; [lia|done]|]. intros [] w' HI.
    rewrite Nat.add_succ_r. apply (IH (Datatypes.S s)); [done|]. intros i w'' Hi. apply Hstep. lia.
Qed.
End wp.

(** ** The state a routine ends in, for concrete runs *)
Definition state_of {S A} (m : M S A) (s : S) : S :=
  match m s with Ok (_, s') => s' | Panic _ => s end.
Lemma wp_state_of {S A} (m : M S A) Q s : wp m Q s → ∃ a, Q a (state_of m s).
Proof. rewrite /wp /state_of. destruct (m s) as [[a s']|]; [eauto|done]. Qed.

Lemma wp_state_eq {S A} (m : M S A) Q s a : fst <$> (match m s with Ok x => Some x | _ => None end) = Some a →
  wp m Q s → Q a (state_of m s).
Proof. rewrite /wp /state_of. destruct (m s) as [[a' s']|]; [|done]. by intros [= ->]. Qed.

(** ** A part of the state that a routine leaves alone, whatever it does *)
Definition preserves {S X A} (obs : S → X) (m : M S A) : Prop :=
  ∀ w, match m w with Ok (_, w') => obs w' = obs w | Panic _ => True end.
Create HintDb nyy_preserves.
Section preserves.
Context {S X : Type} (obs : S → X) {A B : Type}.
Lemma preserves_ret (a : A) : preserves obs (mret a).
Proof. done. Qed.
Lemma preserves_fail e : preserves obs (fail (A := A) e).
Proof. done. Qed.
Lemma preserves_get : preserves obs get.
Proof. done. Qed.
Lemma preserves_gets (f : S → A) : preserves obs (gets f).
Proof. done. Qed.
Lemma preserves_deref what (o : option A) : preserves obs (deref what o).
Proof. by destruct o. Qed.
Lemma preserves_when b m : preserves obs m → preserves obs (whenM b m).
Proof. by destruct b. Qed.
Lemma preserves_bind (m : M S A) (f : A → M S B) : preserves obs m → (∀ a, preserves obs (f a)) → preserves obs (m ≫= f).
Proof.
  intros Hm Hf w. specialize (Hm w). rewrite /mbind /M_bind. destruct (m w) as [[a w']|]; [|done].
  specialize (Hf a w'). destruct (f a w') as [[b w'']|]; congruence.
Qed.
Lemma wp_preserves (m : M S A) Q w : preserves obs m → wp m Q w → wp m (λ a w', obs w' = obs w ∧ Q a w') w.
Proof. intros Hk. specialize (Hk w). rewrite /wp. by destruct (m w) as [[a w']|]. Qed.
End preserves.
#[export] Hint Resolve preserves_ret preserves_fail preserves_get preserves_gets preserves_deref preserves_when : nyy_preserves.
(** Go through a routine with the facts known about the ones it calls. *)
Ltac preserves := repeat first
  [ progress intros | solve [auto 2 with nyy_preserves] | apply preserves_bind | apply preserves_when
  | match goal with |- preserves _ match ?x with _ => _ end => destruct x end ].

Create HintDb nyy_wp.
#[export] Hint Rewrite @wp_ret @wp_bind @wp_get @wp_put @wp_modify @wp_gets
  @wp_assert @wp_deref @wp_when @wp_fail : nyy_wp.

(** Run the monadic plumbing of a [wp] goal. *)
Ltac wp_run := repeat (rewrite_strat (outermost (hints nyy_wp))).
(** A decidable fact about closed terms, by running its decision procedure. *)
Ltac by_eval := apply (bool_decide_unpack _); vm_compute; exact I.

(** ** Machine words *)
Definition u64max : Z := 2 ^ 64.
Definition wrap64 (x : Z) : Z := x mod 2 ^ 64.
Definition wrap32 (x : Z) : Z := x mod 2 ^ 32.
Definition wrap16 (x : Z) : Z := x mod 2 ^ 16.
Definition wrap8 (x : Z) : Z := x mod 2 ^ 8.

(** The value of the low 32 bits read as a C [int]. *)
Definition sint32 (x : Z) : Z :=
  let y := wrap32 x in if decide (y < 2 ^ 31) then y else y - 2 ^ 32.

Lemma sint32_add a b : sint32 (sint32 a + b) = sint32 (a + b).
Proof.
  assert (wrap32 (sint32 a + b) = wrap32 (a + b)) as E; [|unfold sint32 at 1; by rewrite E].
  unfold sint32, wrap32. case_decide; [by rewrite Zplus_mod_idemp_l|].
  replace (a mod 2 ^ 32 - 2 ^ 32 + b) with (a mod 2 ^ 32 + b + (-1) * 2 ^ 32) by lia. by rewrite Z_mod_plus_full Zplus_mod_idemp_l.
Qed.
Lemma sint32_small x : 0 ≤ x < 2 ^ 31 → sint32 x = x.
Proof. intros Hx. unfold sint32, wrap32. rewrite Z.mod_small; [lia|]. rewrite decide_True //. lia. Qed.

Lemma wrap64_small x : 0 ≤ x < 2 ^ 64 → wrap64 x = x.
Proof. apply Z.mod_small. Qed.
Lemma wrap64_range x : 0 ≤ wrap64 x < 2 ^ 64.
Proof. apply Z.mod_pos_bound. lia. Qed.
Lemma wrap32_range x : 0 ≤ wrap32 x < 2 ^ 32.
Proof. apply Z.mod_pos_bound. lia. Qed.

(** Clearing the low bits with [& ~(2^k - 1)]. *)
Lemma land_lnot_ones x k : 0 ≤ k →
  Z.land x (Z.lnot (2 ^ k - 1)) = x - x mod 2 ^ k.
Proof.
  intros Hk. replace (2 ^ k - 1) with (Z.ones k) by (rewrite Z.ones_equiv; lia).
  rewrite -Z.ldiff_land Z.ldiff_ones_r // Z.shiftr_div_pow2 // Z.shiftl_mul_pow2 //.
  pose proof (Z.div_mod x (2 ^ k)). lia.
Qed.

(** ** [ALIGN_UP] and [ALIGN_DOWN] on mathematical integers *)
Definition align_up (x a : Z) : Z := Z.land (x + a - 1) (Z.lnot (a - 1)).
Definition align_down (x a : Z) : Z := Z.land x (Z.lnot (a - 1)).
Definition pow2 (a : Z) : Prop := ∃ k, 0 ≤ k ∧ a = 2 ^ k.

Section align.
Context (x a : Z) (Ha : pow2 a).

Lemma pow2_pos : 0 < a.
Proof. destruct Ha as (k & Hk & ->). lia. Qed.
Lemma align_down_eq : align_down x a = x - x mod a.
Proof. destruct Ha as (k & Hk & ->). by apply land_lnot_ones. Qed.
Lemma align_up_eq : align_up x a = (x + a - 1) - (x + a - 1) mod a.
Proof. destruct Ha as (k & Hk & ->). by apply land_lnot_ones. Qed.
Lemma align_down_spec :
  align_down x a mod a = 0 ∧ align_down x a ≤ x < align_down x a + a.
Proof.
  rewrite align_down_eq. pose proof pow2_pos. pose proof (Z.mod_pos_bound x a).
  split; [|lia]. rewrite Zminus_mod_idemp_r Z.sub_diag. by apply Z.mod_0_l; lia.
Qed.
Lemma align_up_spec :
  align_up x a mod a = 0 ∧ x ≤ align_up x a < x + a.
Proof.
  rewrite align_up_eq. pose proof pow2_pos.
  pose proof (Z.mod_pos_bound (x + a - 1) a).
  split; [|lia]. rewrite Zminus_mod_idemp_r Z.sub_diag. by apply Z.mod_0_l; lia.
Qed.
End align.

(** Two multiples of [a] within a distance less than [a] are equal. *)
Lemma multiples_close x y a : 0 < a → x mod a = 0 → y mod a = 0 →
  x - a < y < x + a → x = y.
Proof.
  intros Ha Hx Hy H. apply Z.mod_divide in Hx as [p ->]; [|lia].
  apply Z.mod_divide in Hy as [q ->]; [|lia].
  assert (p - 1 < q) by nia. assert (q < p + 1) by nia. f_equal; lia.
Qed.

Lemma align_up_id x a : pow2 a → x mod a = 0 → align_up x a = x.
Proof.
  intros Ha Hx. destruct (align_up_spec x a Ha) as [H1 H2].
  pose proof (pow2_pos a Ha). symmetry. apply (multiples_close _ _ a); try done. lia.
Qed.

(** ** Sums over a list *)
Fixpoint sumZ {A} (f : A → Z) (l : list A) : Z :=
  match l with
  | [] => 0
  | x :: l' => f x + sumZ f l'
  end.

Section sumZ.
Context {A : Type} (f : A → Z).
Lemma sumZ_app l1 l2 : sumZ f (l1 ++ l2) = sumZ f l1 + sumZ f l2.
Proof. induction l1 as [|x l1 IH]; simpl; [lia|]. rewrite IH. lia. Qed.
Lemma sumZ_nonneg l : (∀ x, x ∈ l → 0 ≤ f x) → 0 ≤ sumZ f l.
Proof.
  induction l as [|x l IH]; intros H; simpl; [lia|].
  pose proof (H x ltac:(left)). specialize (IH (λ y Hy, H y ltac:(by right))). lia.
Qed.
Lemma sumZ_elem l x : (∀ y, y ∈ l → 0 ≤ f y) → x ∈ l → f x ≤ sumZ f l.
Proof.
  intros H (l1 & l2 & ->)%list_elem_of_split. rewrite sumZ_app /=.
  pose proof (sumZ_nonneg l1 ltac:(set_solver)). pose proof (sumZ_nonneg l2 ltac:(set_solver)). lia.
Qed.
End sumZ.
