(* ===== verification/Queue.v ===== *)
(** * Intrusive queues of [kernel/include/sys/queue.h]

    Every list of the kernel (segments, pages, threads, wait blocks, deferred
    calls) is threaded through the elements with the BSD [LIST_*], [SLIST_*]
    and [TAILQ_*] macros.  This file models the macros on the pointers they
    really write, and shows that each of them implements the operation on
    mathematical lists that the component models use (Module [Abs]).

    A struct address is a [node]: the head [h] of a queue or the entry embedded
    in element [e].  Both have the same layout, a pointer to an element followed
    by a pointer to a pointer, which is what makes [TAILQ_PREV] work: it casts
    the address of the previous next-field to a head and reads its second field.
    The address of the first field of a struct is the address of the struct, so
    a pointer to a pointer is a [node] too. *)

From stdpp Require Import functions.
From S2P Require Import Prelude.

Inductive node := Head (h : nat) | Entry (e : nat).

#[global] Instance node_eq_dec : EqDecision node.
Proof. solve_decision. Defined.

(** [next]: [tqh_first], [lh_first], [slh_first], [tqe_next], [le_next],
    [sle_next].  [back]: [tqh_last], [tqe_prev], [le_prev]. *)
Record qmem := QMem { next : node → option nat; back : node → node }.

Definition set_next (n : node) (v : option nat) (m : qmem) : qmem :=
  QMem (<[n := v]> (next m)) (back m).
Definition set_back (n : node) (v : node) (m : qmem) : qmem :=
  QMem (next m) (<[n := v]> (back m)).

(** ** The operations on mathematical lists *)
Module Abs.
Definition remove (e : nat) (l : list nat) : list nat := filter (λ x, x ≠ e) l.

Fixpoint insert_after (p e : nat) (l : list nat) : list nat :=
  match l with
  | [] => []
  | x :: l' => if decide (x = p) then x :: e :: l' else x :: insert_after p e l'
  end.

Fixpoint insert_before (p e : nat) (l : list nat) : list nat :=
  match l with
  | [] => []
  | x :: l' => if decide (x = p) then e :: x :: l' else x :: insert_before p e l'
  end.

(** the element after, and the element before, [e] *)
Fixpoint next_of (e : nat) (l : list nat) : option nat :=
  match l with
  | [] => None
  | x :: l' => if decide (x = e) then head l' else next_of e l'
  end.

Fixpoint prev_of (e : nat) (l : list nat) : option nat :=
  match l with
  | [] => None
  | x :: l' => match l' with
               | [] => None
               | y :: _ => if decide (y = e) then Some x else prev_of e l'
               end
  end.

Lemma remove_notin e l : e ∉ l → remove e l = l.
Proof.
  intros He. unfold remove. induction l as [|x l IH]; [done|].
  apply not_elem_of_cons in He as [? He].
  rewrite filter_cons_True //. f_equal; auto.
Qed.
Lemma remove_split e l1 l2 : e ∉ l1 → e ∉ l2 → remove e (l1 ++ e :: l2) = l1 ++ l2.
Proof.
  intros H1 H2. pose proof (remove_notin e l1 H1) as E1.
  pose proof (remove_notin e l2 H2) as E2. unfold remove in *.
  rewrite filter_app filter_cons_False; [naive_solver|]. by rewrite E1 E2.
Qed.
Lemma elem_of_remove e x l : x ∈ remove e l ↔ x ≠ e ∧ x ∈ l.
Proof. by rewrite /remove list_elem_of_filter. Qed.
Lemma remove_NoDup e l : NoDup l → NoDup (remove e l).
Proof. apply NoDup_filter. Qed.
Lemma insert_after_split p e l1 l2 :
  p ∉ l1 → insert_after p e (l1 ++ p :: l2) = l1 ++ p :: e :: l2.
Proof.
  induction l1 as [|x l1 IH]; simpl; intros Hp; [by rewrite decide_True|].
  apply not_elem_of_cons in Hp as [? Hp]. rewrite decide_False //. by rewrite IH.
Qed.
Lemma insert_before_split p e l1 l2 :
  p ∉ l1 → insert_before p e (l1 ++ p :: l2) = l1 ++ e :: p :: l2.
Proof.
  induction l1 as [|x l1 IH]; simpl; intros Hp; [by rewrite decide_True|].
  apply not_elem_of_cons in Hp as [? Hp]. rewrite decide_False //. by rewrite IH.
Qed.
Lemma next_of_split e l1 l2 : e ∉ l1 → next_of e (l1 ++ e :: l2) = head l2.
Proof.
  induction l1 as [|x l1 IH]; simpl; intros He; [by rewrite decide_True|].
  apply not_elem_of_cons in He as [? He]. rewrite decide_False //. auto.
Qed.
Lemma prev_of_notin e l : e ∉ l → prev_of e l = None.
Proof.
  induction l as [|x [|y l] IH]; intros He; simpl; [done..|].
  rewrite decide_False; [set_solver|]. apply IH. set_solver.
Qed.
Lemma prev_of_split e l1 l2 :
  e ∉ l1 → e ∉ l2 → prev_of e (l1 ++ e :: l2) = last l1.
Proof.
  induction l1 as [|x [|y l1] IH]; intros H1 H2.
  - destruct l2 as [|y l2]; simpl; [done|].
    rewrite decide_False; [set_solver|]. by apply (prev_of_notin e (y :: l2)).
  - simpl. by rewrite decide_True.
  - change (prev_of e ((x :: y :: l1) ++ e :: l2)) with
      (if decide (y = e) then Some x else prev_of e ((y :: l1) ++ e :: l2)).
    rewrite decide_False; [set_solver|]. rewrite IH //. set_solver.
Qed.
Lemma elem_of_insert_after p e x l :
  p ∈ l → x ∈ insert_after p e l ↔ x = e ∨ x ∈ l.
Proof.
  intros (l1 & l2 & -> & Hp)%list_elem_of_split_l. rewrite insert_after_split //.
  set_solver.
Qed.
End Abs.

(** ** The macros *)
Section macros.
Implicit Types (m : qmem) (h e p : nat).

Definition LIST_INIT h m : qmem := set_next (Head h) None m.

Definition LIST_INSERT_HEAD h (elm : nat) m : qmem :=
  let m := set_next (Entry elm) (next m (Head h)) m in
  let m := match next m (Entry elm) with
           | Some n => set_back (Entry n) (Entry elm) m
           | None => m
           end in
  let m := set_next (Head h) (Some elm) m in
  set_back (Entry elm) (Head h) m.

Definition LIST_REMOVE (elm : nat) m : qmem :=
  let m := match next m (Entry elm) with
           | Some n => set_back (Entry n) (back m (Entry elm)) m
           | None => m
           end in
  set_next (back m (Entry elm)) (next m (Entry elm)) m.

Definition LIST_EMPTY h m : bool := bool_decide (next m (Head h) = None).
Definition LIST_FIRST h m : option nat := next m (Head h).
Definition LIST_NEXT e m : option nat := next m (Entry e).

Definition SLIST_INIT h m : qmem := set_next (Head h) None m.
Definition SLIST_INSERT_HEAD h (elm : nat) m : qmem :=
  let m := set_next (Entry elm) (next m (Head h)) m in
  set_next (Head h) (Some elm) m.
Definition SLIST_REMOVE_HEAD h m : qmem :=
  match next m (Head h) with
  | Some f => set_next (Head h) (next m (Entry f)) m
  | None => m
  end.

(** The walk of [SLIST_REMOVE]: advance until the successor is [elm].
    [None] when it runs off the end, where the C code follows a null pointer. *)
Fixpoint slist_find_pred (fuel : nat) (cur elm : nat) m : option nat :=
  match fuel with
  | O => None
  | S fuel =>
      match next m (Entry cur) with
      | None => None
      | Some n => if decide (n = elm) then Some cur else slist_find_pred fuel n elm m
      end
  end.
Definition SLIST_REMOVE (fuel : nat) h (elm : nat) m : option qmem :=
  if decide (next m (Head h) = Some elm) then Some (SLIST_REMOVE_HEAD h m)
  else match next m (Head h) with
       | None => None
       | Some f =>
           match slist_find_pred fuel f elm m with
           | None => None
           | Some cur =>
               Some (set_next (Entry cur) (next m (Entry elm)) m)
           end
       end.

Definition TAILQ_INIT h m : qmem :=
  set_back (Head h) (Head h) (set_next (Head h) None m).

Definition TAILQ_INSERT_TAIL h (elm : nat) m : qmem :=
  let m := set_next (Entry elm) None m in
  let m := set_back (Entry elm) (back m (Head h)) m in
  let m := set_next (back m (Head h)) (Some elm) m in
  set_back (Head h) (Entry elm) m.

Definition TAILQ_INSERT_AFTER h (listelm elm : nat) m : qmem :=
  let m := set_next (Entry elm) (next m (Entry listelm)) m in
  let m := match next m (Entry elm) with
           | Some n => set_back (Entry n) (Entry elm) m
           | None => set_back (Head h) (Entry elm) m
           end in
  let m := set_next (Entry listelm) (Some elm) m in
  set_back (Entry elm) (Entry listelm) m.

Definition TAILQ_REMOVE h (elm : nat) m : qmem :=
  let m := match next m (Entry elm) with
           | Some n => set_back (Entry n) (back m (Entry elm)) m
           | None => set_back (Head h) (back m (Entry elm)) m
           end in
  set_next (back m (Entry elm)) (next m (Entry elm)) m.

Definition TAILQ_EMPTY h m : bool := bool_decide (next m (Head h) = None).
Definition TAILQ_FIRST h m : option nat := next m (Head h).
Definition TAILQ_NEXT e m : option nat := next m (Entry e).
Definition TAILQ_LAST h m : option nat := next m (back m (back m (Head h))).
Definition TAILQ_PREV e m : option nat := next m (back m (back m (Entry e))).

(** The [FOREACH] macros: the elements the loop visits. *)
Fixpoint foreach (fuel : nat) (cur : option nat) m : list nat :=
  match fuel, cur with
  | S fuel, Some e => e :: foreach fuel (next m (Entry e)) m
  | _, _ => []
  end.
Definition TAILQ_FOREACH (fuel h : nat) m : list nat := foreach fuel (next m (Head h)) m.
Definition LIST_FOREACH (fuel h : nat) m : list nat := foreach fuel (next m (Head h)) m.

End macros.

(** ** Representation

    [lseg m p l q]: starting at the struct [p] the next pointers visit [l] and the
    struct of the last element (or [p]) is [q]; every visited entry points back at
    the struct whose next field points at it. *)
Fixpoint lseg (m : qmem) (p : node) (l : list nat) (q : node) : Prop :=
  match l with
  | [] => p = q
  | e :: l' => next m p = Some e ∧ back m (Entry e) = p ∧ lseg m (Entry e) l' q
  end.

Definition list_at (m : qmem) (h : nat) (l : list nat) : Prop :=
  NoDup l ∧ ∃ q, lseg m (Head h) l q ∧ next m q = None.
Definition tailq_at (m : qmem) (h : nat) (l : list nat) : Prop :=
  NoDup l ∧ ∃ q, lseg m (Head h) l q ∧ next m q = None ∧ back m (Head h) = q.

(** singly linked: no back pointers *)
Fixpoint sseg (m : qmem) (p : node) (l : list nat) : Prop :=
  match l with
  | [] => next m p = None
  | e :: l' => next m p = Some e ∧ sseg m (Entry e) l'
  end.
Definition slist_at (m : qmem) (h : nat) (l : list nat) : Prop :=
  NoDup l ∧ sseg m (Head h) l.

Definition last_node (p : node) (l : list nat) : node :=
  match last l with Some e => Entry e | None => p end.

Section lseg.
Implicit Types (m : qmem) (l : list nat) (p q : node).

Lemma last_node_cons p e l : last_node p (e :: l) = last_node (Entry e) l.
Proof. unfold last_node. rewrite last_cons. by destruct (last l). Qed.
Lemma lseg_last m p l q : lseg m p l q → q = last_node p l.
Proof.
  revert p. induction l as [|e l IH]; intros p; [done|].
  intros (_ & _ & H). rewrite last_node_cons. by apply IH.
Qed.
Lemma lseg_app m p l1 l2 q :
  lseg m p (l1 ++ l2) q ↔ lseg m p l1 (last_node p l1) ∧ lseg m (last_node p l1) l2 q.
Proof.
  revert p. induction l1 as [|e l1 IH]; intros p; [naive_solver|].
  cbn [app lseg]. rewrite IH last_node_cons. naive_solver.
Qed.
Lemma last_node_in p l : last_node p l = p ∨ ∃ e, e ∈ l ∧ last_node p l = Entry e.
Proof.
  unfold last_node. destruct (last l) eqn:E; [|by left].
  right. eauto using last_Some_elem_of.
Qed.
Lemma last_node_snoc p l e : last_node p (l ++ [e]) = Entry e.
Proof. unfold last_node. by rewrite last_snoc. Qed.

(** A segment only depends on the next field of its first struct and on the
    fields of the entries it visits. *)
Lemma lseg_frame m m' p l q :
  lseg m p l q →
  (∀ e, e ∈ l → back m' (Entry e) = back m (Entry e)) →
  (∀ n, n = p ∨ (∃ e, e ∈ l ∧ n = Entry e) → n ≠ q → next m' n = next m n) →
  NoDup l → p ∉ (Entry <$> l) →
  lseg m' p l q.
Proof.
  revert p. induction l as [|e l IH]; intros p; [done|]. cbn [lseg].
  intros (H1 & H2 & H3) Hb Hn [He Hd]%NoDup_cons Hp.
  assert (p ≠ q) as Hpq.
  { apply lseg_last in H3 as ->. intros ->.
    destruct (last_node_in (Entry e) l) as [E|(e' & ? & E)]; rewrite E in Hp; set_solver. }
  split_and!.
  - rewrite Hn //. by left.
  - rewrite Hb //. set_solver.
  - apply IH; [done|set_solver| |done|set_solver].
    intros n [->|(e' & ? & ->)] ?; apply Hn; set_solver.
Qed.
End lseg.

(** The structs of a queue, and two memories that agree off some structs. *)
Definition nodes (h : nat) (l : list nat) : list node := Head h :: (Entry <$> l).
Definition agree_off (ns : list node) (m m' : qmem) : Prop :=
  ∀ n, n ∉ ns → next m' n = next m n ∧ back m' n = back m n.

Lemma elem_of_nodes h l n :
  n ∈ nodes h l ↔ n = Head h ∨ ∃ e, n = Entry e ∧ e ∈ l.
Proof. unfold nodes. set_solver. Qed.

Lemma last_node_nodes h l : last_node (Head h) l ∈ nodes h l.
Proof.
  apply elem_of_nodes. destruct (last_node_in (Head h) l) as [->|(e & ? & ->)]; eauto.
Qed.
Lemma last_node_fresh h l e : e ∉ l → last_node (Head h) l ≠ Entry e.
Proof.
  intros He. destruct (last_node_in (Head h) l) as [->|(e' & ? & ->)]; [done|].
  intros [= ->]. done.
Qed.

Lemma fn_insert_if {A B} `{EqDecision A} (f : A → B) a b c :
  <[a := b]> f c = if decide (a = c) then b else f c.
Proof. done. Qed.

(** Evaluate the pointer updates of a macro, splitting on aliasing. *)
Ltac q_eval :=
  unfold set_next, set_back; cbn [next back]; rewrite ?fn_insert_if;
  repeat (case_decide; simplify_eq; cbn [next back]; rewrite ?fn_insert_if).

Lemma NoDup_snoc (l : list nat) e : NoDup l → e ∉ l → NoDup (l ++ [e]).
Proof.
  intros ??. apply NoDup_app. split_and!; [done|set_solver|apply NoDup_singleton].
Qed.

Lemma NoDup_mid (l1 l2 : list nat) e : NoDup (l1 ++ e :: l2) ↔
  NoDup l1 ∧ NoDup l2 ∧ e ∉ l1 ∧ e ∉ l2 ∧ (∀ x, x ∈ l1 → x ∉ l2).
Proof. rewrite NoDup_app NoDup_cons. set_solver. Qed.

Section specs.
Implicit Types (m : qmem) (l : list nat) (h e : nat).

Lemma tailq_agree ns m m' h l :
  tailq_at m h l → agree_off ns m m' → (∀ n, n ∈ nodes h l → n ∉ ns) →
  tailq_at m' h l.
Proof.
  intros (Hd & q & Hl & Hn & Hb) Ha Hns. split; [done|]. exists q.
  assert (q ∈ nodes h l) as Hq by (apply lseg_last in Hl as ->; apply last_node_nodes).
  split_and!.
  - eapply lseg_frame; [done| | |done|set_solver].
    + intros e He. apply Ha, Hns. apply elem_of_nodes. eauto.
    + intros n Hn' _. apply Ha, Hns. apply elem_of_nodes. naive_solver.
  - rewrite -Hn. by apply Ha, Hns.
  - rewrite -Hb. apply Ha, Hns. apply elem_of_nodes. eauto.
Qed.

Lemma list_agree ns m m' h l :
  list_at m h l → agree_off ns m m' → (∀ n, n ∈ nodes h l → n ∉ ns) →
  list_at m' h l.
Proof.
  intros (Hd & q & Hl & Hn) Ha Hns. split; [done|]. exists q.
  assert (q ∈ nodes h l) as Hq by (apply lseg_last in Hl as ->; apply last_node_nodes).
  split.
  - eapply lseg_frame; [done| | |done|set_solver].
    + intros e He. apply Ha, Hns. apply elem_of_nodes. eauto.
    + intros n Hn' _. apply Ha, Hns. apply elem_of_nodes. naive_solver.
  - rewrite -Hn. by apply Ha, Hns.
Qed.

Lemma TAILQ_INIT_spec m h : tailq_at (TAILQ_INIT h m) h [].
Proof.
  split; [apply NoDup_nil_2|]. exists (Head h). unfold TAILQ_INIT.
  cbn [lseg]. split_and!; [done|q_eval; done..].
Qed.

Lemma TAILQ_INSERT_TAIL_spec m h l e :
  tailq_at m h l → e ∉ l →
  tailq_at (TAILQ_INSERT_TAIL h e m) h (l ++ [e]) ∧
  agree_off (nodes h (e :: l)) m (TAILQ_INSERT_TAIL h e m).
Proof.
  intros (Hd & q & Hl & Hn & Hb) He. pose proof (lseg_last _ _ _ _ Hl) as Hq.
  pose proof (last_node_nodes h l) as Hqn. pose proof (last_node_fresh h l e He) as Hqe.
  rewrite -Hq in Hqn Hqe.
  split.
  - split; [by apply NoDup_snoc|]. exists (Entry e).
    rewrite lseg_app -Hq. split_and!.
    + eapply lseg_frame; [done| | |done|set_solver]; unfold TAILQ_INSERT_TAIL.
      * intros e' ?. q_eval; set_solver.
      * intros n ?. q_eval; set_solver.
    + unfold TAILQ_INSERT_TAIL. cbn [lseg]. split_and!; [|q_eval; done..]. q_eval; done.
    + unfold TAILQ_INSERT_TAIL. q_eval; done.
    + unfold TAILQ_INSERT_TAIL. q_eval; done.
  - intros n Hn'. unfold TAILQ_INSERT_TAIL. rewrite elem_of_nodes in Hn'.
    rewrite elem_of_nodes in Hqn. split; q_eval; set_solver.
Qed.

(** Writing the next field of the last struct of a segment, or any field of
    structs off the segment, keeps the segment. *)
Lemma lseg_keep m m' h l :
  lseg m (Head h) l (last_node (Head h) l) → NoDup l →
  (∀ n, n ∈ nodes h l → n ≠ last_node (Head h) l → next m' n = next m n) →
  (∀ e, e ∈ l → back m' (Entry e) = back m (Entry e)) →
  lseg m' (Head h) l (last_node (Head h) l).
Proof.
  intros Hl Hd Hn Hb. eapply lseg_frame; [done..| |done|set_solver].
  intros n Hn'. apply Hn, elem_of_nodes. naive_solver.
Qed.
Lemma lseg_keep_entry m m' e l q :
  lseg m (Entry e) l q → NoDup l → e ∉ l →
  (∀ x, x = e ∨ x ∈ l → next m' (Entry x) = next m (Entry x)) →
  (∀ x, x ∈ l → back m' (Entry x) = back m (Entry x)) →
  lseg m' (Entry e) l q.
Proof.
  intros Hl Hd He Hn Hb. eapply lseg_frame; [done..| |done|set_solver].
  intros n [->|(x & ? & ->)] _; apply Hn; auto.
Qed.

Lemma last_entry_nodes e l q m : lseg m (Entry e) l q → ∃ x, q = Entry x ∧ (x = e ∨ x ∈ l).
Proof.
  intros H. apply lseg_last in H as ->. destruct (last_node_in (Entry e) l) as [->|(x & ? & ->)]; eauto.
Qed.

(** Non-aliasing facts around an element [e] in the middle of a queue whose
    preceding struct is [p]. *)
Lemma mid_distinct h l1 e l2 (p := last_node (Head h) l1) :
  NoDup (l1 ++ e :: l2) →
  p ≠ Entry e ∧ (∀ x, x ∈ l2 → p ≠ Entry x ∧ x ≠ e) ∧
  (∀ x, x ∈ l1 → x ≠ e ∧ x ∉ l2) ∧ NoDup l1 ∧ NoDup l2 ∧ NoDup (l1 ++ l2).
Proof.
  intros (Hd1 & Hd2 & He1 & He2 & Hdis)%NoDup_mid. split_and!; try done.
  - by apply last_node_fresh.
  - intros x Hx. split; [|set_solver]. apply last_node_fresh. set_solver.
  - set_solver.
  - apply NoDup_app. set_solver.
Qed.

Lemma agree_off_next ns m n v :
  n ∈ ns → agree_off ns m (set_next n v m).
Proof. intros ? n' ?. split; q_eval; done. Qed.
Lemma agree_off_back ns m n v :
  n ∈ ns → agree_off ns m (set_back n v m).
Proof. intros ? n' ?. split; q_eval; done. Qed.
Lemma agree_off_trans ns m1 m2 m3 :
  agree_off ns m1 m2 → agree_off ns m2 m3 → agree_off ns m1 m3.
Proof. intros H1 H2 n Hn. destruct (H1 n Hn), (H2 n Hn). split; congruence. Qed.

Lemma TAILQ_REMOVE_spec m h l1 e l2 :
  tailq_at m h (l1 ++ e :: l2) →
  tailq_at (TAILQ_REMOVE h e m) h (l1 ++ l2) ∧
  agree_off (nodes h (l1 ++ e :: l2)) m (TAILQ_REMOVE h e m).
Proof.
  intros (Hd & q & [Hl1 (Hpe & Hep & Hl2)]%lseg_app & Hn & Hb).
  pose proof (last_node_nodes h l1) as Hp.
  apply mid_distinct with (h := h) in Hd as (Hpe' & Hpx & Hx1 & Hd1 & Hd2 & Hd).
  set (p := last_node (Head h) l1) in *.
  assert (p ∈ nodes h (l1 ++ e :: l2)) as Hp'.
  { rewrite elem_of_nodes in Hp. rewrite elem_of_nodes. set_solver. }
  unfold TAILQ_REMOVE. destruct l2 as [|n l2]; cbn [lseg] in *.
  - subst q. rewrite Hn. split.
    + split; [done|]. exists p. rewrite app_nil_r. split_and!; [|q_eval; congruence..].
      eapply lseg_keep; [done..| |]; intros; q_eval; congruence.
    + eapply agree_off_trans; [|apply agree_off_next; q_eval; by rewrite ?Hep].
      apply agree_off_back, elem_of_nodes. by left.
  - destruct Hl2 as (Hen & Hne & Hl2). rewrite Hen.
    apply NoDup_cons in Hd2 as [Hn2 Hd2]. destruct (Hpx n) as [Hpn Hen']; [left|].
    apply last_entry_nodes in Hl2 as Hq. destruct Hq as (y & -> & Hy).
    assert (y ∈ n :: l2) as Hy' by set_solver. destruct (Hpx y Hy') as [Hpy Hye].
    split.
    + split; [done|]. exists (Entry y). rewrite lseg_app -/p. cbn [lseg].
      split_and!; try (q_eval; congruence).
      * eapply lseg_keep; [done..| |].
        { intros; q_eval; congruence. }
        { intros x Hx. destruct (Hx1 x Hx). q_eval; set_solver. }
      * eapply lseg_keep_entry; [done..| |].
        { intros x Hx. destruct (Hpx x); [set_solver|]. q_eval; congruence. }
        { intros x Hx. q_eval; congruence. }
    + eapply agree_off_trans; [|apply agree_off_next; q_eval; by rewrite ?Hep].
      apply agree_off_back, elem_of_nodes. set_solver.
Qed.

Lemma TAILQ_INSERT_AFTER_spec m h l1 p l2 e :
  tailq_at m h (l1 ++ p :: l2) → e ∉ l1 ++ p :: l2 →
  tailq_at (TAILQ_INSERT_AFTER h p e m) h (l1 ++ p :: e :: l2) ∧
  agree_off (nodes h (e :: l1 ++ p :: l2)) m (TAILQ_INSERT_AFTER h p e m).
Proof.
  intros (Hd & q & Hl & Hn & Hb) He.
  assert (NoDup (l1 ++ p :: e :: l2)) as Hd'.
  { apply NoDup_mid in Hd as (?&?&?&?&?). apply NoDup_mid. rewrite NoDup_cons. set_solver. }
  replace (l1 ++ p :: l2) with ((l1 ++ [p]) ++ l2) in Hl by by rewrite -app_assoc.
  rewrite lseg_app last_node_snoc in Hl. destruct Hl as [Hl1 Hl2].
  apply NoDup_mid in Hd as (Hd1 & Hd2 & Hp1 & Hp2 & Hdis).
  assert (NoDup (l1 ++ [p])) as Hd1p by by apply NoDup_snoc.
  unfold TAILQ_INSERT_AFTER. replace (l1 ++ p :: e :: l2) with ((l1 ++ [p]) ++ e :: l2)
    by by rewrite -app_assoc.
  assert (p ≠ e) as Hpe by set_solver.
  assert (∀ n, n ∈ nodes h (l1 ++ [p]) → n ≠ Entry e) as Hne.
  { intros n. rewrite elem_of_nodes. set_solver. }
  assert (∀ x, x ∈ l2 → x ≠ p ∧ x ≠ e) as Hx2 by set_solver.
  assert (∀ x, x ∈ l1 ++ [p] → x ≠ e) as Hx1 by set_solver.
  rewrite -(last_node_snoc (Head h) l1 p) in Hl1.
  destruct l2 as [|n l2]; cbn [lseg] in Hl2.
  - subst q. assert (next (set_next (Entry e) (next m (Entry p)) m) (Entry e) = None) as ->
      by (q_eval; congruence).
    split; [split; [by rewrite -app_assoc|]|].
    + exists (Entry e). rewrite lseg_app last_node_snoc. cbn [lseg].
      split_and!; try (q_eval; congruence).
      rewrite -(last_node_snoc (Head h) l1 p). eapply lseg_keep; [done..| |].
      * intros n Hn1. specialize (Hne n Hn1). rewrite last_node_snoc. q_eval; congruence.
      * intros x Hx. specialize (Hx1 x Hx). q_eval; congruence.
    + repeat (eapply agree_off_trans; [|first [apply agree_off_next|apply agree_off_back];
        apply elem_of_nodes; set_solver]). done.
  - destruct Hl2 as (Hpn & Hnp & Hl2). destruct (Hx2 n) as [Hn1 Hn2]; [left|].
    assert (next (set_next (Entry e) (next m (Entry p)) m) (Entry e) = Some n) as ->
      by (q_eval; congruence).
    apply NoDup_cons in Hd2 as [Hnl2 Hd2].
    apply last_entry_nodes in Hl2 as Hq. destruct Hq as (y & -> & Hy).
    destruct (Hx2 y) as [Hyp Hye]; [set_solver|].
    split; [split; [by rewrite -app_assoc|]|].
    + exists (Entry y). rewrite lseg_app last_node_snoc. cbn [lseg].
      split_and!; try (q_eval; congruence).
      * rewrite -(last_node_snoc (Head h) l1 p). eapply lseg_keep; [done..| |].
        { intros z Hz1. specialize (Hne z Hz1). rewrite last_node_snoc. q_eval; congruence. }
        { intros x Hx. specialize (Hx1 x Hx). q_eval; set_solver. }
      * eapply lseg_keep_entry; [done..| |].
        { intros x Hx. destruct (Hx2 x); [set_solver|]. q_eval; congruence. }
        { intros x Hx. destruct (Hx2 x); [set_solver|]. q_eval; congruence. }
    + repeat (eapply agree_off_trans; [|first [apply agree_off_next|apply agree_off_back];
        apply elem_of_nodes; set_solver]). done.
Qed.

(** A [LIST] is a [TAILQ] that does not keep its last pointer. *)
Lemma list_at_tailq m h l :
  list_at m h l ↔ tailq_at (set_back (Head h) (last_node (Head h) l) m) h l.
Proof.
  split.
  - intros (Hd & q & Hl & Hn). split; [done|]. exists q.
    apply lseg_last in Hl as Hq. subst q. split_and!; [|done|q_eval; done].
    eapply lseg_frame; [done|intros; by q_eval|done|done|set_solver].
  - intros (Hd & q & Hl & Hn & _). split; [done|]. exists q. split; [|done].
    eapply lseg_frame; [done|intros; by q_eval|done|done|set_solver].
Qed.
Lemma list_at_ext m m' h l :
  list_at m h l → (∀ n, next m' n = next m n) →
  (∀ n, n ≠ Head h → back m' n = back m n) → list_at m' h l.
Proof.
  intros (Hd & q & Hl & Hn) Hnx Hbk. split; [done|]. exists q. rewrite Hnx.
  split; [|done]. eapply lseg_frame; [done|intros; by apply Hbk|auto|done|set_solver].
Qed.

Lemma LIST_REMOVE_spec m h l1 e l2 :
  list_at m h (l1 ++ e :: l2) →
  list_at (LIST_REMOVE e m) h (l1 ++ l2) ∧
  agree_off (nodes h (l1 ++ e :: l2)) m (LIST_REMOVE e m).
Proof.
  intros Hl%list_at_tailq. set (mt := set_back _ _ m) in Hl.
  destruct (TAILQ_REMOVE_spec mt h l1 e l2 Hl) as [Ht Ha].
  assert (∀ n, next (LIST_REMOVE e m) n = next (TAILQ_REMOVE h e mt) n) as Hnx.
  { intros n. unfold LIST_REMOVE, TAILQ_REMOVE, mt. cbn [next set_back].
    destruct (next m (Entry e)) eqn:E; q_eval; congruence. }
  assert (∀ n, n ≠ Head h → back (LIST_REMOVE e m) n = back (TAILQ_REMOVE h e mt) n) as Hbk.
  { intros n Hn. unfold LIST_REMOVE, TAILQ_REMOVE, mt. cbn [next set_back].
    destruct (next m (Entry e)) eqn:E; q_eval; congruence. }
  split.
  - destruct Ht as (Hd & q & Hs & Hn & _).
    eapply list_at_ext; [|done|done]. split; [done|]. by exists q.
  - intros n Hn. destruct (Ha n Hn) as [H1 H2].
    assert (n ≠ Head h) by (intros ->; apply Hn, elem_of_nodes; by left).
    rewrite Hnx Hbk // H1 H2. split; [done|]. unfold mt. by q_eval.
Qed.

Lemma LIST_INSERT_HEAD_spec m h l e :
  list_at m h l → e ∉ l →
  list_at (LIST_INSERT_HEAD h e m) h (e :: l) ∧
  agree_off (nodes h (e :: l)) m (LIST_INSERT_HEAD h e m).
Proof.
  intros (Hd & q & Hl & Hn) He. unfold LIST_INSERT_HEAD.
  assert (∀ x, x ∈ l → x ≠ e) as Hx by set_solver.
  destruct l as [|n l]; cbn [lseg] in Hl.
  - subst q. assert (next (set_next (Entry e) (next m (Head h)) m) (Entry e) = None) as ->
      by (q_eval; congruence).
    split; [split; [apply NoDup_singleton|]|].
    + exists (Entry e). cbn [lseg]. split_and!; q_eval; congruence.
    + repeat (eapply agree_off_trans; [|first [apply agree_off_next|apply agree_off_back];
        apply elem_of_nodes; set_solver]). done.
  - destruct Hl as (Hf & Hb & Hl). apply NoDup_cons in Hd as [Hnl Hd].
    assert (next (set_next (Entry e) (next m (Head h)) m) (Entry e) = Some n) as ->
      by (q_eval; congruence).
    assert (n ≠ e) by set_solver.
    apply last_entry_nodes in Hl as Hq. destruct Hq as (y & -> & Hy).
    assert (y ≠ e) by set_solver.
    split; [split; [rewrite !NoDup_cons; set_solver|]|].
    + exists (Entry y). cbn [lseg]. split_and!; try (q_eval; congruence).
      eapply lseg_keep_entry; [done..| |].
      * intros x Hx'. assert (x ≠ e) by set_solver. q_eval; congruence.
      * intros x Hx'. assert (x ≠ e) by set_solver. q_eval; congruence.
    + repeat (eapply agree_off_trans; [|first [apply agree_off_next|apply agree_off_back];
        apply elem_of_nodes; set_solver]). done.
Qed.

(** Accessors and traversals *)
Lemma tailq_first m h l : tailq_at m h l → TAILQ_FIRST h m = head l.
Proof. intros (_ & q & Hl & Hn & _). destruct l; cbn [lseg] in Hl; naive_solver. Qed.
Lemma tailq_next m h l1 e l2 :
  tailq_at m h (l1 ++ e :: l2) → TAILQ_NEXT e m = head l2.
Proof.
  intros (_ & q & [_ (_ & _ & Hl)]%lseg_app & Hn & _).
  destruct l2; cbn [lseg] in Hl; naive_solver.
Qed.
(** [TAILQ_PREV] of an element with a predecessor is that predecessor; of the
    first element it is the null pointer found in the last element's next field. *)
Lemma tailq_prev m h l1 e l2 :
  tailq_at m h (l1 ++ e :: l2) → TAILQ_PREV e m = last l1.
Proof.
  intros (_ & q & Hl & Hn & Hb). apply lseg_app in Hl as [Hl1 (Hpe & Hep & Hl2)].
  unfold TAILQ_PREV. rewrite Hep. destruct l1 as [|x l1 _] using rev_ind.
  - cbn. by rewrite Hb.
  - rewrite last_node_snoc last_snoc in Hl1 |- *.
    apply lseg_app in Hl1 as [_ (Hn1 & Hb1 & _)]. by rewrite Hb1.
Qed.

Lemma foreach_lseg m p l q fuel :
  lseg m p l q → next m q = None → (length l ≤ fuel)%nat →
  foreach fuel (next m p) m = l.
Proof.
  revert p fuel. induction l as [|e l IH]; intros p fuel; cbn [lseg].
  - intros -> ->. by destruct fuel.
  - intros (-> & _ & Hl) Hn Hf. destruct fuel as [|fuel]; simpl in Hf; [lia|].
    simpl. f_equal. apply IH; auto. lia.
Qed.
Lemma tailq_foreach m h l fuel :
  tailq_at m h l → (length l ≤ fuel)%nat → TAILQ_FOREACH fuel h m = l.
Proof. intros (_ & q & Hl & Hn & _) Hf. by eapply foreach_lseg. Qed.
Lemma list_foreach m h l fuel :
  list_at m h l → (length l ≤ fuel)%nat → LIST_FOREACH fuel h m = l.
Proof. intros (_ & q & Hl & Hn) Hf. by eapply foreach_lseg. Qed.
End specs.

(** ** Singly linked lists *)
Section slist.
Implicit Types (m : qmem) (l : list nat) (h e : nat).

Lemma sseg_frame m m' p l :
  sseg m p l → (∀ n, n = p ∨ (∃ e, e ∈ l ∧ n = Entry e) → next m' n = next m n) →
  sseg m' p l.
Proof.
  revert p. induction l as [|e l IH]; intros p; cbn [sseg].
  - intros H Hn. rewrite Hn; auto.
  - intros [H1 H2] Hn. split; [rewrite Hn; auto|].
    apply IH; [done|]. intros n [->|(x & ? & ->)]; apply Hn; set_solver.
Qed.
Lemma SLIST_INSERT_HEAD_spec m h l e :
  slist_at m h l → e ∉ l → slist_at (SLIST_INSERT_HEAD h e m) h (e :: l).
Proof.
  intros [Hd Hl] He. split; [by apply NoDup_cons|].
  unfold SLIST_INSERT_HEAD. cbn [sseg]. split; [q_eval; done|].
  destruct l as [|n l]; cbn [sseg] in *; [q_eval; congruence|].
  destruct Hl as [H1 H2]. split; [q_eval; congruence|].
  eapply sseg_frame; [done|]. intros x [->|(y & ? & ->)]; q_eval; set_solver.
Qed.
Lemma SLIST_REMOVE_HEAD_spec m h e l :
  slist_at m h (e :: l) → slist_at (SLIST_REMOVE_HEAD h m) h l.
Proof.
  intros [[He Hd]%NoDup_cons Hl]. split; [done|]. cbn [sseg] in Hl.
  destruct Hl as [H1 H2]. unfold SLIST_REMOVE_HEAD. rewrite H1.
  destruct l as [|n l]; cbn [sseg] in *; [q_eval; congruence|].
  destruct H2 as [H2 H3]. split; [q_eval; congruence|].
  eapply sseg_frame; [done|]. intros x [->|(y & ? & ->)]; q_eval; done.
Qed.

Lemma slist_find_pred_spec m l x e l2 cur fuel :
  sseg m (Entry cur) (l ++ x :: e :: l2) → NoDup (l ++ x :: e :: l2) →
  (length l + 2 ≤ fuel)%nat →
  slist_find_pred fuel cur e m = Some x.
Proof.
  revert cur fuel. induction l as [|y l IH]; intros cur [|fuel] Hs Hd Hf;
    simpl in Hf; try lia; cbn [app sseg slist_find_pred] in *.
  - destruct Hs as (-> & Hxe & _). apply NoDup_cons in Hd as [Hx _].
    rewrite decide_False; [set_solver|]. destruct fuel as [|fuel]; [lia|].
    cbn [slist_find_pred]. rewrite Hxe. by rewrite decide_True.
  - destruct Hs as (-> & Hs). apply NoDup_cons in Hd as [Hy Hd].
    rewrite decide_False; [set_solver|]. apply IH; [done..|lia].
Qed.
Lemma sseg_relink m p l x e l2 :
  sseg m p (l ++ x :: e :: l2) → NoDup (l ++ x :: e :: l2) →
  (∀ y, p = Entry y → y ∉ l ++ x :: e :: l2) →
  sseg (set_next (Entry x) (next m (Entry e)) m) p (l ++ x :: l2).
Proof.
  revert p. induction l as [|y l IH]; intros p; cbn [app sseg].
  - intros (H1 & H2 & H3) [Hx [He Hd]%NoDup_cons]%NoDup_cons Hp.
    split; [q_eval; set_solver|].
    destruct l2 as [|z l2]; cbn [sseg] in *; [q_eval; congruence|].
    destruct H3 as [H3 H4]. split; [q_eval; congruence|].
    eapply sseg_frame; [done|]. intros n [->|(y & ? & ->)]; q_eval; set_solver.
  - intros [H1 H2] [Hy Hd]%NoDup_cons Hp. split.
    + q_eval; set_solver.
    + apply IH; [done..|]. intros ? [= <-]. set_solver.
Qed.

Lemma SLIST_REMOVE_spec m h l1 e l2 fuel :
  slist_at m h (l1 ++ e :: l2) → (length l1 + 2 ≤ fuel)%nat →
  ∃ m', SLIST_REMOVE fuel h e m = Some m' ∧ slist_at m' h (l1 ++ l2).
Proof.
  intros Hs Hf. pose proof Hs as [Hd Hl]. unfold SLIST_REMOVE.
  destruct l1 as [|x l1 _] using rev_ind.
  - cbn [app sseg] in *. destruct Hl as [H1 _]. rewrite decide_True //.
    eexists. split; [done|]. by eapply SLIST_REMOVE_HEAD_spec.
  - rewrite -app_assoc in Hd, Hl, Hs |- *. cbn [app] in *.
    rewrite length_app /= in Hf.
    assert (next m (Head h) ≠ Some e) as Hne.
    { destruct l1; cbn [app sseg] in Hl, Hd; destruct Hl as [-> _]; intros [= ->];
        apply NoDup_cons in Hd as [Hd _]; set_solver. }
    rewrite decide_False //.
    assert (∃ f, next m (Head h) = Some f ∧ slist_find_pred fuel f e m = Some x) as (f & -> & ->).
    { destruct l1 as [|y l1]; cbn [app sseg] in *; destruct Hl as [Hf1 Hl].
      - exists x. split; [done|]. destruct Hl as [Hl _].
        destruct fuel; [lia|]. cbn. rewrite Hl. by rewrite decide_True.
      - exists y. split; [done|]. apply NoDup_cons in Hd as [_ Hd]. simpl in Hf.
        eapply slist_find_pred_spec; [done..|lia]. }
    eexists. split; [done|]. rewrite -app_assoc. split; [|by apply sseg_relink].
    apply NoDup_app in Hd as (?&?&Hd). rewrite !NoDup_cons in Hd.
    apply NoDup_app. cbn [app]. rewrite NoDup_cons. set_solver.
Qed.
End slist.

(** ** Refinement: a tail queue driven by any sequence of the macros the kernel
    uses behaves as a mathematical list *)
Inductive tq_op :=
| TqInsertTail (e : nat)
| TqInsertAfter (p e : nat)
| TqRemove (e : nat).

Definition tq_run (h : nat) (op : tq_op) (m : qmem) : qmem :=
  match op with
  | TqInsertTail e => TAILQ_INSERT_TAIL h e m
  | TqInsertAfter p e => TAILQ_INSERT_AFTER h p e m
  | TqRemove e => TAILQ_REMOVE h e m
  end.

Definition tq_abs (op : tq_op) (l : list nat) : list nat :=
  match op with
  | TqInsertTail e => l ++ [e]
  | TqInsertAfter p e => Abs.insert_after p e l
  | TqRemove e => Abs.remove e l
  end.

(** what the callers guarantee: insert only unlinked elements, remove and insert
    after only linked ones *)
Definition tq_pre (op : tq_op) (l : list nat) : Prop :=
  match op with
  | TqInsertTail e => e ∉ l
  | TqInsertAfter p e => p ∈ l ∧ e ∉ l
  | TqRemove e => e ∈ l
  end.

Fixpoint tq_pres (ops : list tq_op) (l : list nat) : Prop :=
  match ops with
  | [] => True
  | op :: ops' => tq_pre op l ∧ tq_pres ops' (tq_abs op l)
  end.

Lemma tq_step m h l op :
  tailq_at m h l → tq_pre op l → tailq_at (tq_run h op m) h (tq_abs op l).
Proof.
  intros Hl Hpre. destruct op as [e|p e|e]; simpl in *.
  - by apply TAILQ_INSERT_TAIL_spec.
  - destruct Hpre as [(l1 & l2 & -> & Hp)%list_elem_of_split_l He].
    rewrite Abs.insert_after_split //. by apply TAILQ_INSERT_AFTER_spec.
  - apply list_elem_of_split in Hpre as (l1 & l2 & ->).
    pose proof Hl as [(?&?&?&?&?)%NoDup_mid _].
    rewrite Abs.remove_split //. by apply TAILQ_REMOVE_spec.
Qed.

(** The [TAILQ_*] macros of [sys/queue.h], run on the pointers they write,
    refine mathematical lists: after initialisation and any sequence of tail
    insertions, insertions after a member and removals of members, a traversal
    visits exactly the list the abstract operations compute, and first, next
    and previous (the [TAILQ_PREV] cast) agree with it. *)
Theorem tailq_refines_list (m : qmem) (h : nat) (ops : list tq_op)
    (l := foldl (λ l op, tq_abs op l) [] ops)
    (m' := foldl (λ m op, tq_run h op m) (TAILQ_INIT h m) ops) :
  tq_pres ops [] →
  (∀ fuel, (length l ≤ fuel)%nat → TAILQ_FOREACH fuel h m' = l) ∧
  TAILQ_FIRST h m' = head l ∧
  (∀ e, e ∈ l → TAILQ_NEXT e m' = Abs.next_of e l ∧ TAILQ_PREV e m' = Abs.prev_of e l).
Proof.
  intros Hpre.
  assert (tailq_at m' h l) as Hl.
  { subst l m'. revert Hpre. generalize (TAILQ_INIT_spec m h).
    generalize (TAILQ_INIT h m), (@nil nat). induction ops as [|op ops IH]; intros m0 l0 H0.
    - done.
    - intros [H1 H2]. apply IH; [by apply tq_step|done]. }
  split_and!; [by eauto using tailq_foreach|by apply tailq_first|].
  intros e (l1 & l2 & E)%list_elem_of_split. rewrite E in Hl |- *.
  pose proof Hl as [(?&?&?&?&?)%NoDup_mid _].
  rewrite Abs.next_of_split // Abs.prev_of_split //.
  split; [by eapply tailq_next|by eapply tailq_prev].
Qed.

Definition qmem_null : qmem := QMem (λ _, None) (λ n, n).

Lemma tailq_refines_list_witness :
  TAILQ_FOREACH 5 7 (TAILQ_REMOVE 7 1 (TAILQ_INSERT_AFTER 7 1 3
    (TAILQ_INSERT_TAIL 7 2 (TAILQ_INSERT_TAIL 7 1 (TAILQ_INIT 7 qmem_null))))) = [3%nat; 2%nat].
Proof.
  refine (proj1 (tailq_refines_list qmem_null 7
    [TqInsertTail 1; TqInsertTail 2; TqInsertAfter 1 3; TqRemove 1] _) 5%nat _);
    [|vm_compute; lia].
  cbn. repeat split; set_solver.
Defined.

(** [LIST_INSERT_HEAD] and [LIST_REMOVE], which never see the head they
    unlink from, keep the list they work on well linked and leave every other
    list of the kernel that shares no element with it exactly as it was. *)
Theorem list_macros_frame (m : qmem) (h h' e : nat) (l l' : list nat) :
  list_at m h l → list_at m h' l' → h ≠ h' → (∀ x, x ∈ l' → x ∉ e :: l) →
  (e ∉ l → list_at (LIST_INSERT_HEAD h e m) h (e :: l) ∧
           list_at (LIST_INSERT_HEAD h e m) h' l') ∧
  (e ∈ l → list_at (LIST_REMOVE e m) h (Abs.remove e l) ∧
           list_at (LIST_REMOVE e m) h' l').
Proof.
  intros Hl Hl' Hh Hdis.
  assert (∀ k n, k ⊆ e :: l → n ∈ nodes h' l' → n ∉ nodes h k) as Hfr.
  { intros k n Hk. rewrite !elem_of_nodes. set_solver. }
  split; intros He.
  - destruct (LIST_INSERT_HEAD_spec m h l e Hl He) as [H1 H2].
    split; [done|]. eapply list_agree; [done..|]. intros n. by apply Hfr.
  - apply list_elem_of_split in He as (l1 & l2 & ->).
    pose proof Hl as [(?&?&?&?&?)%NoDup_mid _]. rewrite Abs.remove_split //.
    destruct (LIST_REMOVE_spec m h l1 e l2 Hl) as [H1' H2'].
    split; [done|]. eapply list_agree; [done..|]. intros n. apply Hfr. set_solver.
Qed.

Lemma list_macros_frame_witness :
  list_at (LIST_REMOVE 2 (LIST_INSERT_HEAD 0 2 qmem_null)) 0 [] ∧
  list_at (LIST_REMOVE 2 (LIST_INSERT_HEAD 0 2 qmem_null)) 1 [].
Proof.
  refine (proj2 (list_macros_frame (LIST_INSERT_HEAD 0 2 qmem_null) 0 1 2 [2%nat] [] _ _ _ _) _).
  - split; [apply NoDup_singleton|]. exists (Entry 2). vm_compute. repeat split.
  - split; [apply NoDup_nil_2|]. exists (Head 1). vm_compute. repeat split.
  - lia.
  - set_solver.
  - set_solver.
Defined.
