(* ===== verification/QueueMore.v ===== *)
(** * The remaining queues of [kernel/include/sys/queue.h]

    Singly-linked tail queues ([STAILQ_*]), simple queues ([SIMPLEQ_*], the same macros under
    another name), circular queues ([CIRCLEQ_*]) and the macros of tail queues and lists
    that the kernel does not use, on the pointers they write.  The interface [ListQueue]
    says what a queue promises; each kind of queue is an instance of it. *)

From stdpp Require Import functions.
From S2P Require Import Prelude Queue.

(** ** Tail queues and lists: the rest *)
Section macros.
Implicit Types (m : qmem) (h e : nat).

Definition TAILQ_INSERT_HEAD h (elm : nat) m : qmem :=
  let m := set_next (Entry elm) (next m (Head h)) m in
  let m := match next m (Entry elm) with
           | Some n => set_back (Entry n) (Entry elm) m
           | None => set_back (Head h) (Entry elm) m
           end in
  let m := set_next (Head h) (Some elm) m in
  set_back (Entry elm) (Head h) m.
Definition TAILQ_INSERT_BEFORE (listelm elm : nat) m : qmem :=
  let m := set_back (Entry elm) (back m (Entry listelm)) m in
  let m := set_next (Entry elm) (Some listelm) m in
  let m := set_next (back m (Entry listelm)) (Some elm) m in
  set_back (Entry listelm) (Entry elm) m.
Definition TAILQ_CONCAT h1 h2 m : qmem :=
  match next m (Head h2) with
  | None => m
  | Some f =>
      let m := set_next (back m (Head h1)) (Some f) m in
      let m := set_back (Entry f) (back m (Head h1)) m in
      let m := set_back (Head h1) (back m (Head h2)) m in
      TAILQ_INIT h2 m
  end.
(** The elements [TAILQ_FOREACH_REVERSE] visits. *)
Fixpoint foreach_back (fuel : nat) (cur : option nat) m : list nat :=
  match fuel, cur with
  | S fuel, Some e => e :: foreach_back fuel (TAILQ_PREV e m) m
  | _, _ => []
  end.
Definition TAILQ_FOREACH_REVERSE (fuel h : nat) m : list nat := foreach_back fuel (TAILQ_LAST h m) m.

Definition LIST_INSERT_AFTER (listelm elm : nat) m : qmem :=
  let m := set_next (Entry elm) (next m (Entry listelm)) m in
  let m := match next m (Entry elm) with
           | Some n => set_back (Entry n) (Entry elm) m
           | None => m
           end in
  let m := set_next (Entry listelm) (Some elm) m in
  set_back (Entry elm) (Entry listelm) m.
Definition LIST_INSERT_BEFORE (listelm elm : nat) m : qmem :=
  let m := set_back (Entry elm) (back m (Entry listelm)) m in
  let m := set_next (Entry elm) (Some listelm) m in
  let m := set_next (back m (Entry listelm)) (Some elm) m in
  set_back (Entry listelm) (Entry elm) m.
Definition SLIST_INSERT_AFTER (slistelm elm : nat) m : qmem :=
  let m := set_next (Entry elm) (next m (Entry slistelm)) m in
  set_next (Entry slistelm) (Some elm) m.
Definition SLIST_EMPTY h m : bool := bool_decide (next m (Head h) = None).
Definition SLIST_FIRST h m : option nat := next m (Head h).
Definition SLIST_NEXT e m : option nat := next m (Entry e).
Definition SLIST_FOREACH (fuel h : nat) m : list nat := foreach fuel (next m (Head h)) m.

(** ** Singly-linked tail queues *)
Definition STAILQ_INIT h m : qmem := set_back (Head h) (Head h) (set_next (Head h) None m).
Definition STAILQ_INSERT_HEAD h (elm : nat) m : qmem :=
  let m := set_next (Entry elm) (next m (Head h)) m in
  let m := if decide (next m (Entry elm) = None) then set_back (Head h) (Entry elm) m else m in
  set_next (Head h) (Some elm) m.
Definition STAILQ_INSERT_TAIL h (elm : nat) m : qmem :=
  let m := set_next (Entry elm) None m in
  let m := set_next (back m (Head h)) (Some elm) m in
  set_back (Head h) (Entry elm) m.
Definition STAILQ_INSERT_AFTER h (listelm elm : nat) m : qmem :=
  let m := set_next (Entry elm) (next m (Entry listelm)) m in
  let m := if decide (next m (Entry elm) = None) then set_back (Head h) (Entry elm) m else m in
  set_next (Entry listelm) (Some elm) m.
(** [None] where the C code follows a null pointer. *)
Definition STAILQ_REMOVE_HEAD h m : option qmem :=
  match next m (Head h) with
  | None => None
  | Some f =>
      let m := set_next (Head h) (next m (Entry f)) m in
      Some (if decide (next m (Head h) = None) then set_back (Head h) (Head h) m else m)
  end.
Definition STAILQ_REMOVE (fuel : nat) h (elm : nat) m : option qmem :=
  if decide (next m (Head h) = Some elm) then STAILQ_REMOVE_HEAD h m
  else match next m (Head h) with
       | None => None
       | Some f =>
           match slist_find_pred fuel f elm m with
           | None => None
           | Some curelm =>
               let m := set_next (Entry curelm) (next m (Entry elm)) m in
               Some (if decide (next m (Entry curelm) = None) then set_back (Head h) (Entry curelm) m else m)
           end
       end.
Definition STAILQ_CONCAT h1 h2 m : qmem :=
  if decide (next m (Head h2) = None) then m else
  let m := set_next (back m (Head h1)) (next m (Head h2)) m in
  let m := set_back (Head h1) (back m (Head h2)) m in
  STAILQ_INIT h2 m.
Definition STAILQ_EMPTY h m : bool := bool_decide (next m (Head h) = None).
Definition STAILQ_FIRST h m : option nat := next m (Head h).
Definition STAILQ_NEXT e m : option nat := next m (Entry e).
Definition STAILQ_FOREACH (fuel h : nat) m : list nat := foreach fuel (next m (Head h)) m.

(** [SIMPLEQ_*] is [STAILQ_*] with other names of the fields. *)
Definition SIMPLEQ_INIT := STAILQ_INIT.
Definition SIMPLEQ_INSERT_HEAD := STAILQ_INSERT_HEAD.
Definition SIMPLEQ_INSERT_TAIL := STAILQ_INSERT_TAIL.
Definition SIMPLEQ_INSERT_AFTER := STAILQ_INSERT_AFTER.
Definition SIMPLEQ_REMOVE_HEAD := STAILQ_REMOVE_HEAD.
Definition SIMPLEQ_REMOVE := STAILQ_REMOVE.
Definition SIMPLEQ_EMPTY := STAILQ_EMPTY.
Definition SIMPLEQ_FIRST := STAILQ_FIRST.
Definition SIMPLEQ_NEXT := STAILQ_NEXT.
Definition SIMPLEQ_FOREACH := STAILQ_FOREACH.
End macros.

(** ** Singly linked segments *)
Section single.
Implicit Types (m : qmem) (l : list nat) (h e : nat).
Fixpoint spath m (p : node) l : Prop :=
  match l with [] => True | e :: l => next m p = Some e ∧ spath m (Entry e) l end.
Lemma sseg_app m p l1 l2 : sseg m p (l1 ++ l2) ↔ spath m p l1 ∧ sseg m (last_node p l1) l2.
Proof. revert p. induction l1 as [|e l1 IH]; intros p; cbn; [tauto|]. rewrite IH last_node_cons. tauto. Qed.
(** What a path and a segment depend on. *)
Lemma spath_keep m m' h l : spath m (Head h) l → NoDup l → (∀ n, n ∈ nodes h l → n ≠ last_node (Head h) l → next m' n = next m n) → spath m' (Head h) l.
Proof.
  intros Hs Hd. assert (∀ k p, spath m p k → NoDup k → (∀ x, p = Entry x → x ∉ k) →
    (∀ n, n = p ∨ (∃ e, n = Entry e ∧ e ∈ k) → n ≠ last_node p k → next m' n = next m n) → spath m' p k) as H.
  { induction k as [|e k IH]; intros p; cbn [spath]; [done|]. intros [H1 H2] [He Hk]%NoDup_cons Hp Hn. rewrite last_node_cons in Hn. split.
    - rewrite Hn; [by left| |done]. destruct (last_node_in (Entry e) k) as [->|(x & Hx & ->)]; intros ->; [apply (Hp e); [done|left]|apply (Hp x); [done|by right]].
    - apply IH; [done|done|by intros x [= <-]|]. intros n Hn' Hq. apply Hn; [|done]. right. destruct Hn' as [->|(x & -> & Hx)]; eexists; (split; [done|]); [left|by right]. }
  intros Hn. apply H; [done|done|done|]. intros n Hn'. apply Hn. by apply elem_of_nodes.
Qed.
Lemma sseg_keep m m' p l : sseg m p l → next m' p = next m p → (∀ e, e ∈ l → next m' (Entry e) = next m (Entry e)) → sseg m' p l.
Proof. intros Hs Hp Hl. eapply sseg_frame; [done|]. intros n [->|(e & He & ->)]; [done|by apply Hl]. Qed.
Lemma sseg_next m p l : sseg m p l → next m p = head l.
Proof. destruct l; cbn; [done|by intros [-> _]]. Qed.

(** Insert after, and remove after, the last struct of [l1]. *)
Lemma sseg_insert m h l1 l2 e : sseg m (Head h) (l1 ++ l2) → NoDup (l1 ++ l2) → e ∉ l1 ++ l2 →
  sseg (set_next (last_node (Head h) l1) (Some e) (set_next (Entry e) (head l2) m)) (Head h) (l1 ++ e :: l2).
Proof.
  intros [H1 H2]%sseg_app (D1 & D12 & D2)%NoDup_app He. rewrite not_elem_of_app in He. destruct He as [He1 He2].
  pose proof (last_node_fresh h l1 e He1) as Hf. apply sseg_app. split.
  - eapply spath_keep; [exact H1|done|]. intros n Hn Hq. q_eval; try done. exfalso. apply elem_of_nodes in Hn as [?|(x & [= ->] & ?)]; done.
  - cbn [sseg]. split; [q_eval; done|]. assert (∀ x, x ∈ l2 → last_node (Head h) l1 ≠ Entry x) as Hx.
    { intros x Hx. destruct (last_node_in (Head h) l1) as [->|(y & Hy & ->)]; [done|]. intros [= ->]. by apply (D12 x). }
    destruct l2 as [|f l2]; cbn [sseg head] in *; [q_eval; done|]. destruct H2 as [H2 H3]. split; [q_eval; done|].
    eapply sseg_keep; [exact H3| |]; [|intros x Hx']; q_eval; try done; exfalso; [by apply (Hx f); [left|]|set_solver|by apply (Hx x); [right|]|set_solver].
Qed.
Lemma sseg_delete m h l1 e l2 : sseg m (Head h) (l1 ++ e :: l2) → NoDup (l1 ++ e :: l2) →
  sseg (set_next (last_node (Head h) l1) (head l2) m) (Head h) (l1 ++ l2).
Proof.
  intros [H1 [H2 H3]]%sseg_app (D1 & D2 & He1 & He2 & D12)%NoDup_mid. apply sseg_app. split.
  - eapply spath_keep; [exact H1|done|]. intros n Hn Hq. by q_eval.
  - assert (∀ x, x ∈ l2 → last_node (Head h) l1 ≠ Entry x) as Hx.
    { intros x Hx. destruct (last_node_in (Head h) l1) as [->|(y & Hy & ->)]; [done|]. intros [= ->]. by apply (D12 x). }
    destruct l2 as [|f l2]; cbn [sseg head] in *; [q_eval; done|]. destruct H3 as [_ H3]. split; [q_eval; done|].
    eapply sseg_keep; [exact H3| |]; [|intros x Hx']; q_eval; try done; exfalso; [by apply (Hx f); [left|]|by apply (Hx x); [right|]].
Qed.

Definition stailq_at m h l : Prop := NoDup l ∧ sseg m (Head h) l ∧ back m (Head h) = last_node (Head h) l.
Lemma stailq_intro m m' h l : NoDup l → sseg m' (Head h) l → (∀ n, next m n = next m' n) → back m (Head h) = last_node (Head h) l → stailq_at m h l.
Proof. intros Hd Hs Hn Hb. split_and!; [done| |done]. eapply sseg_keep; [exact Hs|done|done]. Qed.
Lemma last_node_mid p l1 e l2 : last_node p (l1 ++ e :: l2) = match l2 with [] => Entry e | _ => last_node p (l1 ++ l2) end.
Proof.
  destruct l2 as [|f l2]; [apply last_node_snoc|]. unfold last_node. rewrite !last_app !last_cons. by destruct (last l2).
Qed.
Lemma nodup_insert (l1 l2 : list nat) e : NoDup (l1 ++ l2) → e ∉ l1 ++ l2 → NoDup (l1 ++ e :: l2).
Proof. intros Hd He. rewrite -Permutation_middle. by constructor. Qed.
End single.

Section stailq.
Implicit Types (m : qmem) (l : list nat) (h e : nat).
Lemma STAILQ_INIT_spec m h : stailq_at (STAILQ_INIT h m) h [].
Proof. split_and!; [apply NoDup_nil_2|cbn [sseg]; unfold STAILQ_INIT; q_eval; done|unfold STAILQ_INIT; q_eval; done]. Qed.
(** The insertions agree with [sseg_insert], and move the last pointer where they must. *)
Lemma stailq_insert m m' h l1 l2 e : stailq_at m h (l1 ++ l2) → e ∉ l1 ++ l2 →
  (∀ n, next m' n = next (set_next (last_node (Head h) l1) (Some e) (set_next (Entry e) (head l2) m)) n) →
  back m' (Head h) = (match l2 with [] => Entry e | _ => back m (Head h) end) → stailq_at m' h (l1 ++ e :: l2).
Proof.
  intros (Hd & Hs & Hb) He Hn Hb'. eapply stailq_intro; [by apply nodup_insert|by apply sseg_insert|done|].
  rewrite last_node_mid Hb'. destruct l2; [done|exact Hb].
Qed.
Lemma stailq_delete m m' h l1 e l2 : stailq_at m h (l1 ++ e :: l2) →
  (∀ n, next m' n = next (set_next (last_node (Head h) l1) (head l2) m) n) →
  back m' (Head h) = (match l2 with [] => last_node (Head h) l1 | _ => back m (Head h) end) → stailq_at m' h (l1 ++ l2).
Proof.
  intros (Hd & Hs & Hb) Hn Hb'. eapply stailq_intro; [|by eapply sseg_delete|done|].
  - rewrite -Permutation_middle in Hd. by apply NoDup_cons in Hd as [_ ?].
  - rewrite last_node_mid in Hb. rewrite Hb'. destruct l2; [by rewrite app_nil_r|exact Hb].
Qed.
Lemma STAILQ_INSERT_HEAD_spec m h l e : stailq_at m h l → e ∉ l → stailq_at (STAILQ_INSERT_HEAD h e m) h (e :: l).
Proof.
  intros Hl He. pose proof Hl as (_ & Hs & Hb). apply (stailq_insert m _ h [] l e Hl He); unfold STAILQ_INSERT_HEAD; rewrite (sseg_next _ _ _ Hs).
  - intros n. destruct l; q_eval; done.
  - destruct l; q_eval; done.
Qed.
Lemma STAILQ_INSERT_TAIL_spec m h l e : stailq_at m h l → e ∉ l → stailq_at (STAILQ_INSERT_TAIL h e m) h (l ++ [e]).
Proof.
  intros Hl He. pose proof Hl as (_ & Hs & Hb). rewrite -{1}(app_nil_r l) in Hl. rewrite -(app_nil_r l) in He.
  apply (stailq_insert m _ h l [] e Hl He); unfold STAILQ_INSERT_TAIL; cbn [back set_next]; rewrite ?Hb; [done|]. q_eval; done.
Qed.
Lemma next_mid m h l1 p l2 : sseg m (Head h) (l1 ++ p :: l2) → next m (Entry p) = head l2.
Proof. intros [_ [_ H]]%sseg_app. by apply sseg_next in H. Qed.
Lemma STAILQ_INSERT_AFTER_spec m h l1 p l2 e : stailq_at m h (l1 ++ p :: l2) → e ∉ l1 ++ p :: l2 →
  stailq_at (STAILQ_INSERT_AFTER h p e m) h (l1 ++ p :: e :: l2).
Proof.
  intros Hl He. pose proof Hl as (_ & Hs & Hb). pose proof (next_mid _ _ _ _ _ Hs) as Hp. rewrite !(cons_middle p) app_assoc in Hl, He. rewrite (cons_middle p) app_assoc.
  apply (stailq_insert m _ h (l1 ++ [p]) l2 e Hl He); unfold STAILQ_INSERT_AFTER; rewrite Hp; [rewrite last_node_snoc; intros n|]; destruct l2; q_eval; done.
Qed.
Lemma STAILQ_REMOVE_HEAD_spec m h e l : stailq_at m h (e :: l) → ∃ m', STAILQ_REMOVE_HEAD h m = Some m' ∧ stailq_at m' h l.
Proof.
  intros Hl. pose proof Hl as (_ & Hs & Hb). unfold STAILQ_REMOVE_HEAD. rewrite (sseg_next _ _ _ Hs). cbn [head]. eexists. split; [done|].
  pose proof (next_mid m h [] e l Hs) as He. apply (stailq_delete m _ h [] e l Hl); rewrite He; [intros n|]; destruct l; q_eval; done.
Qed.
Lemma find_pred_first m h l1 x e l2 fuel : sseg m (Head h) (l1 ++ x :: e :: l2) → NoDup (l1 ++ x :: e :: l2) → (length l1 + 2 ≤ fuel)%nat →
  next m (Head h) ≠ Some e ∧ ∃ f, next m (Head h) = Some f ∧ slist_find_pred fuel f e m = Some x.
Proof.
  intros Hl Hd Hf. split.
  { destruct l1; cbn [app sseg] in Hl, Hd; destruct Hl as [-> _]; intros [= ->]; apply NoDup_cons in Hd as [Hd _]; set_solver. }
  destruct l1 as [|y l1]; cbn [app sseg] in *; destruct Hl as [Hf1 Hl].
  - exists x. split; [done|]. destruct Hl as [Hl _]. destruct fuel; [lia|]. cbn. rewrite Hl. by rewrite decide_True.
  - exists y. split; [done|]. apply NoDup_cons in Hd as [_ Hd]. simpl in Hf. eapply slist_find_pred_spec; [done..|lia].
Qed.
Lemma STAILQ_REMOVE_spec m h l1 e l2 fuel : stailq_at m h (l1 ++ e :: l2) → (length l1 + 1 ≤ fuel)%nat →
  ∃ m', STAILQ_REMOVE fuel h e m = Some m' ∧ stailq_at m' h (l1 ++ l2).
Proof.
  intros Hl Hf. pose proof Hl as (Hd & Hs & Hb). unfold STAILQ_REMOVE. destruct l1 as [|x l1 _] using rev_ind.
  - rewrite decide_True; [by rewrite (sseg_next _ _ _ Hs)|]. by eapply STAILQ_REMOVE_HEAD_spec.
  - rewrite length_app /= in Hf. pose proof (next_mid _ _ _ _ _ Hs) as He. rewrite -app_assoc in Hs, Hd. cbn [app] in Hs, Hd.
    destruct (find_pred_first m h l1 x e l2 fuel Hs Hd ltac:(lia)) as (Hne & f & Hf1 & Hf2). rewrite decide_False // Hf1 Hf2.
    eexists. split; [done|]. apply (stailq_delete m _ h (l1 ++ [x]) e l2 Hl); rewrite last_node_snoc He; [intros n|]; destruct l2; q_eval; done.
Qed.
Lemma stailq_foreach m h l fuel : stailq_at m h l → (length l ≤ fuel)%nat → STAILQ_FOREACH fuel h m = l.
Proof.
  intros (_ & Hs & _). unfold STAILQ_FOREACH. generalize (Head h) Hs. clear. revert fuel.
  induction l as [|e l IH]; intros fuel p; cbn [sseg]; [intros ->; by destruct fuel|]. intros [-> Hs] Hf. destruct fuel; cbn in Hf; [lia|]. cbn. f_equal. apply IH; [done|lia].
Qed.
Lemma STAILQ_CONCAT_spec m h1 h2 l1 l2 : stailq_at m h1 l1 → stailq_at m h2 l2 → h1 ≠ h2 → (∀ x, x ∈ l1 → x ∉ l2) →
  stailq_at (STAILQ_CONCAT h1 h2 m) h1 (l1 ++ l2) ∧ stailq_at (STAILQ_CONCAT h1 h2 m) h2 [].
Proof.
  intros (D1 & S1 & B1) (D2 & S2 & B2) Hh Hx. unfold STAILQ_CONCAT. pose proof (sseg_next _ _ _ S2) as Hf.
  case_decide as Hc; rewrite Hf in Hc; (destruct l2 as [|f l2]; [|]); try done.
  { rewrite app_nil_r. split; [by split_and!|]. by split_and!. }
  rewrite Hf. cbn [head]. split; [|apply STAILQ_INIT_spec]. pose proof (last_node_nodes h1 l1) as Hq. rewrite -B1 elem_of_nodes in Hq.
  assert (back m (Head h1) ≠ Head h2 ∧ ∀ x, x ∈ f :: l2 → back m (Head h1) ≠ Entry x) as [N1 N2].
  { split; [destruct Hq as [->|(x & -> & _)]; congruence|]. intros x Hx2 Eq. destruct Hq as [Eh|(y & Ey & Hy)]; [congruence|]. apply (Hx y Hy). congruence. }
  unfold STAILQ_INIT. cbn [back set_next]. split_and!.
  - apply NoDup_app. by split_and!.
  - apply sseg_app. destruct S2 as [_ S2]. rewrite -(app_nil_r l1) in S1. apply sseg_app in S1 as [S1 _]. split; [|split].
    + eapply spath_keep; [exact S1|done|]. intros n Hn Hne. rewrite elem_of_nodes in Hn. q_eval; try done. destruct Hn as [?|(x & ? & _)]; congruence.
    + rewrite -B1. q_eval; congruence.
    + eapply sseg_keep; [exact S2| |]; [specialize (N2 f ltac:(left))|intros x Hx'; specialize (N2 x ltac:(by right))]; q_eval; congruence.
  - q_eval; try congruence. rewrite B2. unfold last_node. rewrite last_app last_cons. by destruct (last l2).
Qed.
End stailq.

(** ** Tail queues and lists *)
Section tailq.
Implicit Types (m : qmem) (l : list nat) (h e : nat).
Lemma tailq_of_list ml mt h l : list_at ml h l → (∀ n, next mt n = next ml n) → (∀ n, n ≠ Head h → back mt n = back ml n) →
  back mt (Head h) = last_node (Head h) l → tailq_at mt h l.
Proof.
  intros Hl Hn Hb Hq. destruct (list_at_ext ml mt h l Hl Hn Hb) as (Hd & q & Hs & Hnq). split; [done|]. exists q. split_and!; [done|done|].
  by rewrite Hq (lseg_last _ _ _ _ Hs).
Qed.
Lemma tailq_list m h l : tailq_at m h l → list_at m h l ∧ back m (Head h) = last_node (Head h) l.
Proof. intros (Hd & q & Hs & Hn & Hb). split; [split; [done|by exists q]|]. by rewrite Hb (lseg_last _ _ _ _ Hs). Qed.
Lemma TAILQ_INSERT_HEAD_spec m h l e : tailq_at m h l → e ∉ l →
  tailq_at (TAILQ_INSERT_HEAD h e m) h (e :: l) ∧ agree_off (nodes h (e :: l)) m (TAILQ_INSERT_HEAD h e m).
Proof.
  intros Ht He. pose proof (tailq_first _ _ _ Ht) as Hf. unfold TAILQ_FIRST in Hf. destruct (tailq_list _ _ _ Ht) as [Hl Hb].
  destruct (LIST_INSERT_HEAD_spec m h l e Hl He) as [Hl' Ha].
  assert (∀ n, next (TAILQ_INSERT_HEAD h e m) n = next (LIST_INSERT_HEAD h e m) n) as Hnx.
  { intros n. unfold TAILQ_INSERT_HEAD, LIST_INSERT_HEAD. rewrite Hf. destruct l; cbn [head]; repeat (progress q_eval); congruence. }
  assert (∀ n, n ≠ Head h → back (TAILQ_INSERT_HEAD h e m) n = back (LIST_INSERT_HEAD h e m) n) as Hbk.
  { intros n Hn. unfold TAILQ_INSERT_HEAD, LIST_INSERT_HEAD. rewrite Hf. destruct l; cbn [head]; repeat (progress q_eval); congruence. }
  split.
  - eapply tailq_of_list; [exact Hl'|exact Hnx|exact Hbk|]. rewrite (last_node_mid _ [] e l). cbn [app]. unfold TAILQ_INSERT_HEAD. rewrite Hf. destruct l; cbn [head]; repeat (progress q_eval); congruence.
  - intros n Hn. rewrite Hnx Hbk; [intros ->; apply Hn, elem_of_nodes; by left|]. by apply Ha.
Qed.
Lemma TAILQ_INSERT_BEFORE_spec m h l1 x l2 e : tailq_at m h (l1 ++ x :: l2) → e ∉ l1 ++ x :: l2 →
  tailq_at (TAILQ_INSERT_BEFORE x e m) h (l1 ++ e :: x :: l2) ∧ agree_off (nodes h (e :: l1 ++ x :: l2)) m (TAILQ_INSERT_BEFORE x e m).
Proof.
  intros Ht He. assert (x ≠ e) as Hxe by set_solver. pose proof Ht as (Hd & q & [_ (Hn & Hb & _)]%lseg_app & _). pose proof (last_node_fresh h l1 e ltac:(set_solver)) as Hf.
  enough (∃ m2, tailq_at m2 h (l1 ++ e :: x :: l2) ∧ agree_off (nodes h (e :: l1 ++ x :: l2)) m m2 ∧ agree_off [] m2 (TAILQ_INSERT_BEFORE x e m)) as (m2 & H1 & H2 & H3).
  { split; [eapply tailq_agree; [exact H1|exact H3|set_solver]|]. intros n Hn'. destruct (H2 n Hn') as [<- <-]. by apply H3, not_elem_of_nil. }
  destruct l1 as [|p l1 _] using rev_ind.
  - exists (TAILQ_INSERT_HEAD h e m). destruct (TAILQ_INSERT_HEAD_spec m h (x :: l2) e Ht He) as [H1 H2]. split_and!; [done|done|].
    intros n _. cbn in Hn, Hb. unfold TAILQ_INSERT_BEFORE, TAILQ_INSERT_HEAD. rewrite Hn. split; repeat (progress q_eval); congruence.
  - exists (TAILQ_INSERT_AFTER h p e m). rewrite last_node_snoc in Hn, Hb, Hf. rewrite -!app_assoc in Ht, He |- *. cbn [app] in *.
    destruct (TAILQ_INSERT_AFTER_spec m h l1 p (x :: l2) e Ht He) as [H1 H2]. split_and!; [done|done|].
    intros n _. unfold TAILQ_INSERT_BEFORE, TAILQ_INSERT_AFTER. rewrite Hn. split; repeat (progress q_eval); congruence.
Qed.
Lemma TAILQ_CONCAT_spec m h1 h2 l1 l2 : tailq_at m h1 l1 → tailq_at m h2 l2 → h1 ≠ h2 → (∀ x, x ∈ l1 → x ∉ l2) →
  tailq_at (TAILQ_CONCAT h1 h2 m) h1 (l1 ++ l2) ∧ tailq_at (TAILQ_CONCAT h1 h2 m) h2 [].
Proof.
  intros H1 H2 Hh Hx. pose proof (tailq_first _ _ _ H2) as Hf. unfold TAILQ_FIRST in Hf. unfold TAILQ_CONCAT. rewrite Hf.
  destruct l2 as [|f l2]; cbn [head]; [by rewrite app_nil_r|]. split; [|apply TAILQ_INIT_spec].
  destruct H1 as (D1 & q1 & S1 & N1 & B1). destruct H2 as (D2 & q2 & (_ & _ & S2) & N2 & B2). pose proof (lseg_last _ _ _ _ S1) as ->.
  pose proof (last_node_nodes h1 l1) as Hq. rewrite elem_of_nodes in Hq. pose proof (last_entry_nodes _ _ _ _ S2) as (y & -> & Hy).
  assert (last_node (Head h1) l1 ≠ Head h2 ∧ ∀ x, x ∈ f :: l2 → last_node (Head h1) l1 ≠ Entry x) as [M1 M2].
  { split; [destruct Hq as [->|(x & -> & _)]; congruence|]. intros x Hx2 Eq. destruct Hq as [Eh|(z & Ez & Hz)]; [congruence|]. apply (Hx z Hz). congruence. }
  apply NoDup_cons in D2 as [Df D2]. unfold TAILQ_INIT. rewrite B1. split; [apply NoDup_app; split_and!; [done|done|by constructor]|]. exists (Entry y).
  rewrite lseg_app. cbn [lseg]. assert (last_node (Head h1) l1 ≠ Entry y) as M3 by (apply M2; set_solver). split_and!.
  - eapply lseg_keep; [done|done| |].
    + intros n Hn Hne. rewrite elem_of_nodes in Hn. q_eval; try done. destruct Hn as [?|(x & ? & _)]; congruence.
    + intros x Hx1. specialize (Hx x Hx1). assert (x ≠ f) by set_solver. q_eval; congruence.
  - q_eval; congruence.
  - q_eval; congruence.
  - eapply lseg_keep_entry; [exact S2|done|done| |].
    + intros x Hx1. assert (last_node (Head h1) l1 ≠ Entry x) by (apply M2; set_solver). q_eval; congruence.
    + intros x Hx1. assert (x ≠ f) by set_solver. q_eval; congruence.
  - q_eval; congruence.
  - q_eval; congruence.
Qed.
Lemma tailq_last m h l : tailq_at m h l → TAILQ_LAST h m = last l.
Proof.
  intros (Hd & q & Hs & Hn & Hb). unfold TAILQ_LAST. rewrite Hb. destruct l as [|x l _] using rev_ind; [cbn in Hs; subst q; by rewrite Hb|].
  pose proof Hs as Hq%lseg_last. rewrite last_node_snoc in Hq. subst q. apply lseg_app in Hs as [_ (H1 & H2 & _)]. by rewrite Hq H2 last_snoc.
Qed.
Lemma tailq_foreach_reverse m h l fuel : tailq_at m h l → (length l ≤ fuel)%nat → TAILQ_FOREACH_REVERSE fuel h m = reverse l.
Proof.
  intros Ht Hf. unfold TAILQ_FOREACH_REVERSE. rewrite (tailq_last _ _ _ Ht). clear -Ht Hf.
  enough (∀ l1 l2 fuel, l = l1 ++ l2 → (length l1 ≤ fuel)%nat → foreach_back fuel (last l1) m = reverse l1) as H by (apply (H l []); [by rewrite app_nil_r|done]).
  clear Hf fuel. induction l1 as [|x l1 IH] using rev_ind; intros l2 fuel El Hf; [by destruct fuel|]. rewrite last_snoc reverse_snoc length_app /= in Hf |- *.
  destruct fuel as [|fuel]; [lia|]. cbn [foreach_back]. f_equal. rewrite -app_assoc in El. rewrite El in Ht. rewrite (tailq_prev m h l1 x l2 Ht). eapply IH; [exact El|lia].
Qed.
Lemma LIST_INSERT_BEFORE_spec m h l1 x l2 e : list_at m h (l1 ++ x :: l2) → e ∉ l1 ++ x :: l2 → list_at (LIST_INSERT_BEFORE x e m) h (l1 ++ e :: x :: l2).
Proof.
  intros Hl%list_at_tailq He. destruct (TAILQ_INSERT_BEFORE_spec _ _ _ _ _ _ Hl He) as [Ht _]. destruct (tailq_list _ _ _ Ht) as [Hl' _].
  eapply list_at_ext; [exact Hl'| |]; intros n; intros; unfold LIST_INSERT_BEFORE, TAILQ_INSERT_BEFORE; q_eval; congruence.
Qed.
Lemma LIST_INSERT_AFTER_spec m h l1 x l2 e : list_at m h (l1 ++ x :: l2) → e ∉ l1 ++ x :: l2 → list_at (LIST_INSERT_AFTER x e m) h (l1 ++ x :: e :: l2).
Proof.
  intros Hl%list_at_tailq He. destruct (TAILQ_INSERT_AFTER_spec _ _ _ _ _ _ Hl He) as [Ht _]. destruct (tailq_list _ _ _ Ht) as [Hl' _].
  eapply list_at_ext; [exact Hl'| |]; intros n; intros; unfold LIST_INSERT_AFTER, TAILQ_INSERT_AFTER; cbn [next set_back]; destruct (next m (Entry x)); repeat (progress q_eval); congruence.
Qed.
Lemma SLIST_INSERT_AFTER_spec m h l1 x l2 e : slist_at m h (l1 ++ x :: l2) → e ∉ l1 ++ x :: l2 → slist_at (SLIST_INSERT_AFTER x e m) h (l1 ++ x :: e :: l2).
Proof.
  intros [Hd Hs] He. pose proof (next_mid _ _ _ _ _ Hs) as Hx. rewrite (cons_middle x) app_assoc in Hd, Hs, He. rewrite (cons_middle x) app_assoc.
  split; [by apply nodup_insert|]. pose proof (sseg_insert m h (l1 ++ [x]) l2 e Hs Hd He) as Hi. rewrite last_node_snoc in Hi. unfold SLIST_INSERT_AFTER. by rewrite Hx.
Qed.
End tailq.

(** ** Circular queues

    The ends of a circular queue point at its head, cast to an element: a pointer is a
    [node].  [cnext]: [cqh_first] and [cqe_next]; [cprev]: [cqh_last] and [cqe_prev]. *)
Record cqmem := CQMem { cnext : node → node; cprev : node → node }.
Definition set_cnext (n v : node) (m : cqmem) : cqmem := CQMem (<[n := v]> (cnext m)) (cprev m).
Definition set_cprev (n v : node) (m : cqmem) : cqmem := CQMem (cnext m) (<[n := v]> (cprev m)).
Section circleq.
Implicit Types (m : cqmem) (h e : nat) (l : list nat).
Definition CIRCLEQ_INIT h m : cqmem := set_cprev (Head h) (Head h) (set_cnext (Head h) (Head h) m).
Definition CIRCLEQ_INSERT_AFTER h (listelm elm : nat) m : cqmem :=
  let m := set_cnext (Entry elm) (cnext m (Entry listelm)) m in
  let m := set_cprev (Entry elm) (Entry listelm) m in
  let m := if decide (cnext m (Entry listelm) = Head h) then set_cprev (Head h) (Entry elm) m
           else set_cprev (cnext m (Entry listelm)) (Entry elm) m in
  set_cnext (Entry listelm) (Entry elm) m.
Definition CIRCLEQ_INSERT_BEFORE h (listelm elm : nat) m : cqmem :=
  let m := set_cnext (Entry elm) (Entry listelm) m in
  let m := set_cprev (Entry elm) (cprev m (Entry listelm)) m in
  let m := if decide (cprev m (Entry listelm) = Head h) then set_cnext (Head h) (Entry elm) m
           else set_cnext (cprev m (Entry listelm)) (Entry elm) m in
  set_cprev (Entry listelm) (Entry elm) m.
Definition CIRCLEQ_INSERT_HEAD h (elm : nat) m : cqmem :=
  let m := set_cnext (Entry elm) (cnext m (Head h)) m in
  let m := set_cprev (Entry elm) (Head h) m in
  let m := if decide (cprev m (Head h) = Head h) then set_cprev (Head h) (Entry elm) m
           else set_cprev (cnext m (Head h)) (Entry elm) m in
  set_cnext (Head h) (Entry elm) m.
Definition CIRCLEQ_INSERT_TAIL h (elm : nat) m : cqmem :=
  let m := set_cnext (Entry elm) (Head h) m in
  let m := set_cprev (Entry elm) (cprev m (Head h)) m in
  let m := if decide (cnext m (Head h) = Head h) then set_cnext (Head h) (Entry elm) m
           else set_cnext (cprev m (Head h)) (Entry elm) m in
  set_cprev (Head h) (Entry elm) m.
Definition CIRCLEQ_REMOVE h (elm : nat) m : cqmem :=
  let m := if decide (cnext m (Entry elm) = Head h) then set_cprev (Head h) (cprev m (Entry elm)) m
           else set_cprev (cnext m (Entry elm)) (cprev m (Entry elm)) m in
  if decide (cprev m (Entry elm) = Head h) then set_cnext (Head h) (cnext m (Entry elm)) m
  else set_cnext (cprev m (Entry elm)) (cnext m (Entry elm)) m.
Definition CIRCLEQ_EMPTY h m : bool := bool_decide (cnext m (Head h) = Head h).
Definition CIRCLEQ_FIRST h m : node := cnext m (Head h).
Definition CIRCLEQ_LAST h m : node := cprev m (Head h).
Definition CIRCLEQ_NEXT e m : node := cnext m (Entry e).
Definition CIRCLEQ_PREV e m : node := cprev m (Entry e).
Definition CIRCLEQ_LOOP_NEXT h e m : node := if decide (cnext m (Entry e) = Head h) then cnext m (Head h) else cnext m (Entry e).
Definition CIRCLEQ_LOOP_PREV h e m : node := if decide (cprev m (Entry e) = Head h) then cprev m (Head h) else cprev m (Entry e).
(** The elements the loops visit: until the head comes round again. *)
Fixpoint circle_walk (step : node → node) (fuel : nat) h (cur : node) : list nat :=
  match fuel with
  | O => []
  | S fuel =>
      if decide (cur = Head h) then []
      else match cur with Entry e => e :: circle_walk step fuel h (step (Entry e)) | Head _ => [] end
  end.
Definition CIRCLEQ_FOREACH (fuel h : nat) m : list nat := circle_walk (cnext m) fuel h (cnext m (Head h)).
Definition CIRCLEQ_FOREACH_REVERSE (fuel h : nat) m : list nat := circle_walk (cprev m) fuel h (cprev m (Head h)).
End circleq.

Section circle.
Implicit Types (m : cqmem) (h e : nat) (l : list nat) (a b n : node) (k : list node).
(** Neighbours point at each other. *)
Fixpoint links m k : Prop :=
  match k with
  | a :: (b :: _) as k' => cnext m a = b ∧ cprev m b = a ∧ links m k'
  | _ => True
  end.
Definition first_node h l : node := match l with [] => Head h | x :: _ => Entry x end.
Definition circle_at m h l : Prop := NoDup l ∧ links m (Head h :: (Entry <$> l) ++ [Head h]).
Lemma links_split m h p l1 l2 : links m (p :: (Entry <$> l1) ++ (Entry <$> l2) ++ [Head h]) ↔
  links m (p :: (Entry <$> l1)) ∧ cnext m (last_node p l1) = first_node h l2 ∧ cprev m (first_node h l2) = last_node p l1 ∧ links m ((Entry <$> l2) ++ [Head h]).
Proof.
  revert p. induction l1 as [|x l1 IH]; intros p.
  - destruct l2; cbn; tauto.
  - rewrite last_node_cons !fmap_cons. cbn [app]. specialize (IH (Entry x)). split.
    + intros (H1 & H2 & H3%IH). destruct H3 as (H3 & H4). exact (conj (conj H1 (conj H2 H3)) H4).
    + intros ((H1 & H2 & H3) & H4). refine (conj H1 (conj H2 _)). by apply IH.
Qed.
Lemma circle_split m h l1 l2 : circle_at m h (l1 ++ l2) ↔ NoDup (l1 ++ l2) ∧ links m (Head h :: (Entry <$> l1)) ∧
  cnext m (last_node (Head h) l1) = first_node h l2 ∧ cprev m (first_node h l2) = last_node (Head h) l1 ∧ links m ((Entry <$> l2) ++ [Head h]).
Proof. unfold circle_at. by rewrite fmap_app -app_assoc links_split. Qed.
Lemma links_before m m' p l : links m (p :: (Entry <$> l)) → NoDup l → (∀ x, p = Entry x → x ∉ l) →
  (∀ n, n = p ∨ (∃ x, n = Entry x ∧ x ∈ l) → n ≠ last_node p l → cnext m' n = cnext m n) →
  (∀ x, x ∈ l → cprev m' (Entry x) = cprev m (Entry x)) → links m' (p :: (Entry <$> l)).
Proof.
  revert p. induction l as [|x l IH]; intros p; [done|]. rewrite fmap_cons last_node_cons. intros (H1 & H2 & H3) [Hx Hd]%NoDup_cons Hp Hn Hb. split_and!.
  - rewrite Hn; [by left| |done]. destruct (last_node_in (Entry x) l) as [->|(y & Hy & ->)]; intros ->; [apply (Hp x); [done|left]|apply (Hp y); [done|by right]].
  - rewrite Hb; [left|done].
  - apply (IH (Entry x)); [done|done|by intros y [= <-]| |].
    + intros n Hn' Hq. apply Hn; [|done]. right. destruct Hn' as [->|(y & -> & Hy)]; eexists; (split; [done|]); [left|by right].
    + intros y Hy. apply Hb. by right.
Qed.
Lemma links_after m m' h l : links m ((Entry <$> l) ++ [Head h]) → NoDup l →
  (∀ x, x ∈ l → cnext m' (Entry x) = cnext m (Entry x)) →
  (∀ n, n = Head h ∨ (∃ x, n = Entry x ∧ x ∈ l) → n ≠ first_node h l → cprev m' n = cprev m n) → links m' ((Entry <$> l) ++ [Head h]).
Proof.
  induction l as [|x l IH]; [done|]. rewrite fmap_cons. intros Hl [Hx Hd]%NoDup_cons Hn Hb. cbn [app] in *.
  assert (∀ m0, links m0 (Entry x :: (Entry <$> l) ++ [Head h]) ↔ cnext m0 (Entry x) = first_node h l ∧ cprev m0 (first_node h l) = Entry x ∧ links m0 ((Entry <$> l) ++ [Head h])) as Hc by (intros m0; by destruct l).
  rewrite Hc in Hl. apply Hc. destruct Hl as (H1 & H2 & H3). split_and!.
  - rewrite Hn; [left|done].
  - rewrite Hb; [|by destruct l as [|y l]; [|intros [= ->]; apply Hx; left]|done]. destruct l as [|y l]; [by left|]. right. exists y. split; [done|]. right. left.
  - apply IH; [done|done|intros y Hy; apply Hn; by right|]. intros n Hn' Hne. apply Hb.
    + destruct Hn' as [->|(y & -> & Hy)]; [by left|]. right. exists y. split; [done|by right].
    + destruct Hn' as [->|(y & -> & Hy)]; [done|]. by intros [= ->].
Qed.
Lemma first_node_in h l : first_node h l = Head h ∨ ∃ x, first_node h l = Entry x ∧ x ∈ l.
Proof. destruct l as [|x l]; [by left|]. right. exists x. split; [done|left]. Qed.

(** Insert between the last struct of [l1] and the first of [l2]; remove from there. *)
Lemma circle_insert m m' h l1 l2 e (a := last_node (Head h) l1) (b := first_node h l2) : circle_at m h (l1 ++ l2) → e ∉ l1 ++ l2 →
  cnext m' (Entry e) = b → cprev m' (Entry e) = a → cnext m' a = Entry e → cprev m' b = Entry e →
  (∀ n, n ≠ a → n ≠ Entry e → cnext m' n = cnext m n) → (∀ n, n ≠ b → n ≠ Entry e → cprev m' n = cprev m n) → circle_at m' h (l1 ++ e :: l2).
Proof.
  intros (Hd & H1 & _ & _ & H2)%circle_split He E1 E2 E3 E4 Mn Mp. apply NoDup_app in Hd as (D1 & D12 & D2). apply not_elem_of_app in He as [He1 He2].
  assert (NoDup (l1 ++ e :: l2)) as Hd' by (apply nodup_insert; [apply NoDup_app; by split_and!|by apply not_elem_of_app]).
  assert (∀ x, x ∈ l1 → b ≠ Entry x) as Hb by (intros x Hx; unfold b; destruct (first_node_in h l2) as [->|(y & -> & Hy)]; [done|intros [= ->]; by apply (D12 x)]).
  assert (∀ x, x ∈ l2 → a ≠ Entry x) as Ha by (intros x Hx; unfold a; destruct (last_node_in (Head h) l1) as [->|(y & Hy & ->)]; [done|intros [= ->]; by apply (D12 x)]).
  apply circle_split. split_and!; [done| |done|done|].
  - eapply links_before; [exact H1|done|done| |].
    + intros n Hn Hne. apply Mn; [done|]. destruct Hn as [->|(x & -> & Hx)]; [done|]. by intros [= ->].
    + intros x Hx. apply Mp; [intros E; by apply (Hb x Hx)|]. by intros [= ->].
  - rewrite fmap_cons. cbn [app]. assert (∀ m0, links m0 (Entry e :: (Entry <$> l2) ++ [Head h]) ↔ cnext m0 (Entry e) = b ∧ cprev m0 b = Entry e ∧ links m0 ((Entry <$> l2) ++ [Head h])) as Hc by (intros m0; by destruct l2).
    apply Hc. split_and!; [done|done|]. eapply links_after; [exact H2|done| |].
    + intros x Hx. apply Mn; [intros E; by apply (Ha x Hx)|]. by intros [= ->].
    + intros n Hn Hne. apply Mp; [done|]. destruct Hn as [->|(x & -> & Hx)]; [done|]. by intros [= ->].
Qed.
Lemma circle_delete m m' h l1 e l2 (a := last_node (Head h) l1) (b := first_node h l2) : circle_at m h (l1 ++ e :: l2) →
  cnext m' a = b → cprev m' b = a → (∀ n, n ≠ a → cnext m' n = cnext m n) → (∀ n, n ≠ b → cprev m' n = cprev m n) → circle_at m' h (l1 ++ l2).
Proof.
  intros Hc E1 E2 Mn Mp. pose proof Hc as (Hd & H1 & _ & _ & _)%circle_split. rewrite (cons_middle e) app_assoc in Hc. apply circle_split in Hc as (_ & _ & _ & _ & H2).
  apply NoDup_mid in Hd as (D1 & D2 & He1 & He2 & D12).
  assert (∀ x, x ∈ l1 → b ≠ Entry x) as Hb by (intros x Hx; unfold b; destruct (first_node_in h l2) as [->|(y & -> & Hy)]; [done|intros [= ->]; by apply (D12 x)]).
  assert (∀ x, x ∈ l2 → a ≠ Entry x) as Ha by (intros x Hx; unfold a; destruct (last_node_in (Head h) l1) as [->|(y & Hy & ->)]; [done|intros [= ->]; by apply (D12 x)]).
  apply circle_split. split_and!; [apply NoDup_app; by split_and!| |done|done|].
  - eapply links_before; [exact H1|done|done|intros n Hn Hne; by apply Mn|]. intros x Hx. apply Mp. intros E. by apply (Hb x Hx).
  - eapply links_after; [exact H2|done| |intros n Hn Hne; by apply Mp]. intros x Hx. apply Mn. intros E. by apply (Ha x Hx).
Qed.
End circle.

Ltac c_eval :=
  unfold set_cnext, set_cprev; cbn [cnext cprev]; rewrite ?fn_insert_if;
  repeat (case_decide; simplify_eq; cbn [cnext cprev]; rewrite ?fn_insert_if).
Section circle_specs.
Implicit Types (m : cqmem) (h e : nat) (l : list nat).
Lemma last_entry_fresh h l e : e ∉ l → last_node (Head h) l ≠ Entry e ∧ first_node h l ≠ Entry e.
Proof. intros He. split; [by apply last_node_fresh|]. destruct l as [|x l]; [done|]. intros [= ->]. apply He. left. Qed.
Lemma CIRCLEQ_INIT_spec m h : circle_at (CIRCLEQ_INIT h m) h [].
Proof. split; [apply NoDup_nil_2|]. unfold CIRCLEQ_INIT. cbn [links fmap list_fmap app]. split_and!; [c_eval; done|c_eval; done|done]. Qed.
Lemma circle_ends m h l : circle_at m h l → cnext m (Head h) = first_node h l ∧ cprev m (Head h) = last_node (Head h) l.
Proof.
  intros Hc. split; [apply (circle_split m h [] l) in Hc; by destruct Hc as (_ & _ & ? & _)|]. rewrite -(app_nil_r l) in Hc. apply circle_split in Hc. by destruct Hc as (_ & _ & _ & ? & _).
Qed.
Lemma circle_mid m h l1 x l2 : circle_at m h (l1 ++ x :: l2) → cnext m (Entry x) = first_node h l2 ∧ cprev m (Entry x) = last_node (Head h) l1.
Proof.
  intros Hc. split; [|apply circle_split in Hc; by destruct Hc as (_ & _ & _ & ? & _)].
  rewrite (cons_middle x) app_assoc in Hc. apply circle_split in Hc as (_ & _ & Hn & _). by rewrite last_node_snoc in Hn.
Qed.
Lemma CIRCLEQ_INSERT_AFTER_spec m h l1 x l2 e : circle_at m h (l1 ++ x :: l2) → e ∉ l1 ++ x :: l2 → circle_at (CIRCLEQ_INSERT_AFTER h x e m) h (l1 ++ x :: e :: l2).
Proof.
  intros Hc He. destruct (circle_mid _ _ _ _ _ Hc) as [Hn _]. assert (x ≠ e) as Hx by set_solver. destruct (last_entry_fresh h l2 e ltac:(set_solver)) as [_ Hf].
  rewrite (cons_middle x) app_assoc in Hc, He. rewrite (cons_middle x) app_assoc. unfold CIRCLEQ_INSERT_AFTER.
  apply (circle_insert m _ h (l1 ++ [x]) l2 e Hc He); rewrite ?last_node_snoc; try (intros n; intros); c_eval; congruence.
Qed.
Lemma CIRCLEQ_INSERT_BEFORE_spec m h l1 x l2 e : circle_at m h (l1 ++ x :: l2) → e ∉ l1 ++ x :: l2 → circle_at (CIRCLEQ_INSERT_BEFORE h x e m) h (l1 ++ e :: x :: l2).
Proof.
  intros Hc He. destruct (circle_mid _ _ _ _ _ Hc) as [_ Hp]. assert (x ≠ e) as Hx by set_solver. destruct (last_entry_fresh h l1 e ltac:(set_solver)) as [Hf _].
  unfold CIRCLEQ_INSERT_BEFORE. apply (circle_insert m _ h l1 (x :: l2) e Hc He); cbn [first_node]; try (intros n; intros); c_eval; congruence.
Qed.
Lemma CIRCLEQ_INSERT_HEAD_spec m h l e : circle_at m h l → e ∉ l → circle_at (CIRCLEQ_INSERT_HEAD h e m) h (e :: l).
Proof.
  intros Hc He. destruct (circle_ends _ _ _ Hc) as [Hn Hp]. destruct (last_entry_fresh h l e He) as [Hl Hf].
  assert (last_node (Head h) l = Head h ↔ first_node h l = Head h) as Hend.
  { destruct l as [|y l]; [done|]. split; [|done]. destruct (last_node_in (Entry y) l) as [E|(z & _ & E)]; rewrite last_node_cons E; done. }
  unfold CIRCLEQ_INSERT_HEAD. apply (circle_insert m _ h [] l e Hc He); cbn [last_node last]; try (intros n; intros); c_eval; try congruence; destruct Hend as [X1 X2]; try specialize (X1 ltac:(congruence)); try specialize (X2 ltac:(congruence)); congruence.
Qed.
Lemma CIRCLEQ_INSERT_TAIL_spec m h l e : circle_at m h l → e ∉ l → circle_at (CIRCLEQ_INSERT_TAIL h e m) h (l ++ [e]).
Proof.
  intros Hc He. destruct (circle_ends _ _ _ Hc) as [Hn Hp]. destruct (last_entry_fresh h l e He) as [Hl Hf].
  assert (last_node (Head h) l = Head h ↔ first_node h l = Head h) as Hend.
  { destruct l as [|y l]; [done|]. split; [|done]. destruct (last_node_in (Entry y) l) as [E|(z & _ & E)]; rewrite last_node_cons E; done. }
  rewrite -(app_nil_r l) in Hc, He.
  unfold CIRCLEQ_INSERT_TAIL. apply (circle_insert m _ h l [] e Hc He); cbn [first_node]; try (intros n; intros); c_eval; try congruence; destruct Hend as [X1 X2]; try specialize (X1 ltac:(congruence)); try specialize (X2 ltac:(congruence)); congruence.
Qed.
Lemma CIRCLEQ_REMOVE_spec m h l1 e l2 : circle_at m h (l1 ++ e :: l2) → circle_at (CIRCLEQ_REMOVE h e m) h (l1 ++ l2).
Proof.
  intros Hc. destruct (circle_mid _ _ _ _ _ Hc) as [Hn Hp]. pose proof Hc as (Hd & _)%circle_split. apply NoDup_mid in Hd as (_ & _ & He1 & He2 & _).
  destruct (last_entry_fresh h l1 e He1) as [Hl _]. destruct (last_entry_fresh h l2 e He2) as [_ Hf].
  unfold CIRCLEQ_REMOVE. apply (circle_delete m _ h l1 e l2 Hc); try (intros n; intros); c_eval; try congruence; cbn [cnext cprev] in *; rewrite ->fn_insert_if in *; c_eval; congruence.
Qed.
Lemma circle_walk_up m h : ∀ l p fuel, links m (p :: (Entry <$> l) ++ [Head h]) → (length l ≤ fuel)%nat → circle_walk (cnext m) fuel h (cnext m p) = l.
Proof.
  induction l as [|x l IH]; intros p fuel.
  - intros (-> & _) _. destruct fuel; [done|]. cbn. by case_decide.
  - rewrite fmap_cons. intros (-> & _ & Hl) Hf. destruct fuel as [|fuel]; cbn in Hf; [lia|]. cbn [circle_walk]. case_decide as Hd; [done|]. f_equal. apply IH; [done|lia].
Qed.
Lemma circleq_foreach m h l fuel : circle_at m h l → (length l ≤ fuel)%nat → CIRCLEQ_FOREACH fuel h m = l.
Proof. intros [_ Hl]. by apply circle_walk_up. Qed.
Lemma circleq_foreach_reverse m h l fuel : circle_at m h l → (length l ≤ fuel)%nat → CIRCLEQ_FOREACH_REVERSE fuel h m = reverse l.
Proof.
  intros Hc Hf. unfold CIRCLEQ_FOREACH_REVERSE. rewrite (proj2 (circle_ends _ _ _ Hc)).
  enough (∀ l1 l2 fuel, l = l1 ++ l2 → (length l1 ≤ fuel)%nat → circle_walk (cprev m) fuel h (last_node (Head h) l1) = reverse l1) as H by (apply (H l []); [by rewrite app_nil_r|done]).
  clear Hf fuel. induction l1 as [|x l1 IH] using rev_ind; intros l2 fuel El Hf; [destruct fuel; [done|]; cbn; by case_decide|].
  rewrite last_node_snoc reverse_snoc. rewrite length_app /= in Hf. destruct fuel as [|fuel]; [lia|]. cbn [circle_walk]. case_decide as Hd; [done|]. f_equal.
  rewrite -app_assoc in El. rewrite El in Hc. destruct (circle_mid _ _ _ _ _ Hc) as [_ ->]. eapply IH; [exact El|lia].
Qed.
End circle_specs.

(** ** What every kind of queue promises *)
Inductive q_op := QInsertHead (e : nat) | QInsertTail (e : nat) | QInsertAfter (p e : nat) | QRemove (e : nat).
Definition q_abs (op : q_op) (l : list nat) : list nat :=
  match op with
  | QInsertHead e => e :: l
  | QInsertTail e => l ++ [e]
  | QInsertAfter p e => Abs.insert_after p e l
  | QRemove e => Abs.remove e l
  end.
(** The callers insert elements that are not in the queue, and name elements that are. *)
Definition q_pre (op : q_op) (l : list nat) : Prop :=
  match op with
  | QInsertHead e | QInsertTail e => e ∉ l
  | QInsertAfter p e => p ∈ l ∧ e ∉ l
  | QRemove e => e ∈ l
  end.
Fixpoint q_pres (ops : list q_op) (l : list nat) : Prop :=
  match ops with [] => True | op :: ops => q_pre op l ∧ q_pres ops (q_abs op l) end.

Inductive kind := Tailq | Stailq | Circleq.
Class ListQueue (k : kind) (Mem : Type) := {
  queue_at : Mem → nat → list nat → Prop;
  queue_init : nat → Mem → Mem;
  queue_run : nat → nat → q_op → Mem → option Mem;
  queue_init_ok h m : queue_at (queue_init h m) h [];
  queue_run_ok fuel h op m l : queue_at m h l → q_pre op l → (length l ≤ fuel)%nat →
    ∃ m', queue_run fuel h op m = Some m' ∧ queue_at m' h (q_abs op l);
}.

Section client.
Context {k : kind} {Mem : Type} `{!ListQueue k Mem}.
Fixpoint queue_run_all (fuel h : nat) (ops : list q_op) (m : Mem) : option Mem :=
  match ops with [] => Some m | op :: ops => m ← queue_run fuel h op m; queue_run_all fuel h ops m end.
Lemma q_abs_length op l : (length (q_abs op l) ≤ S (length l))%nat.
Proof.
  destruct op; cbn; [done|rewrite length_app /=; lia| |].
  - induction l as [|x l IH]; cbn; [lia|]. case_decide; cbn; lia.
  - unfold Abs.remove. pose proof (length_filter (λ x, x ≠ e) l). lia.
Qed.
Lemma queue_run_all_ok fuel h ops : ∀ m l, queue_at m h l → q_pres ops l → (length l + length ops ≤ fuel)%nat →
  ∃ m', queue_run_all fuel h ops m = Some m' ∧ queue_at m' h (foldl (λ l op, q_abs op l) l ops) ∧ (length (foldl (λ l op, q_abs op l) l ops) ≤ fuel)%nat.
Proof.
  induction ops as [|op ops IH]; intros m l Hl Hpre Hf; cbn in *; [exists m; split_and!; [done|done|lia]|]. destruct Hpre as [H1 H2].
  destruct (queue_run_ok fuel h op m l Hl H1 ltac:(lia)) as (m1 & -> & Hl1). cbn. apply IH; [done|done|]. pose proof (q_abs_length op l). lia.
Qed.
End client.

#[global, program] Instance tailq_queue : ListQueue Tailq qmem := {|
  queue_at := tailq_at; queue_init := TAILQ_INIT;
  queue_run _ h op m := Some match op with
    | QInsertHead e => TAILQ_INSERT_HEAD h e m | QInsertTail e => TAILQ_INSERT_TAIL h e m
    | QInsertAfter p e => TAILQ_INSERT_AFTER h p e m | QRemove e => TAILQ_REMOVE h e m
    end |}.
Next Obligation. intros h m. apply TAILQ_INIT_spec. Qed.
Next Obligation.
  intros fuel h [e|e|p e|e] m l Hl Hpre _; (eexists; split; [done|]); cbn in *.
  - by apply TAILQ_INSERT_HEAD_spec.
  - by apply TAILQ_INSERT_TAIL_spec.
  - destruct Hpre as [(l1 & l2 & -> & Hp)%list_elem_of_split_l He]. rewrite Abs.insert_after_split //. by apply TAILQ_INSERT_AFTER_spec.
  - apply list_elem_of_split in Hpre as (l1 & l2 & ->). pose proof Hl as [(?&?&?&?&?)%NoDup_mid _]. rewrite Abs.remove_split //. by apply TAILQ_REMOVE_spec.
Qed.
#[global, program] Instance stailq_queue : ListQueue Stailq qmem := {|
  queue_at := stailq_at; queue_init := STAILQ_INIT;
  queue_run fuel h op m := match op with
    | QInsertHead e => Some (STAILQ_INSERT_HEAD h e m) | QInsertTail e => Some (STAILQ_INSERT_TAIL h e m)
    | QInsertAfter p e => Some (STAILQ_INSERT_AFTER h p e m) | QRemove e => STAILQ_REMOVE fuel h e m
    end |}.
Next Obligation. intros h m. apply STAILQ_INIT_spec. Qed.
Next Obligation.
  intros fuel h [e|e|p e|e] m l Hl Hpre Hf; cbn in *.
  - eexists. split; [done|]. by apply STAILQ_INSERT_HEAD_spec.
  - eexists. split; [done|]. by apply STAILQ_INSERT_TAIL_spec.
  - eexists. split; [done|]. destruct Hpre as [(l1 & l2 & -> & Hp)%list_elem_of_split_l He]. rewrite Abs.insert_after_split //. by apply STAILQ_INSERT_AFTER_spec.
  - apply list_elem_of_split in Hpre as (l1 & l2 & ->). pose proof Hl as [(?&?&?&?&?)%NoDup_mid _]. rewrite Abs.remove_split //.
    apply STAILQ_REMOVE_spec; [done|]. rewrite length_app /= in Hf. lia.
Qed.
#[global, program] Instance circleq_queue : ListQueue Circleq cqmem := {|
  queue_at := circle_at; queue_init := CIRCLEQ_INIT;
  queue_run _ h op m := Some match op with
    | QInsertHead e => CIRCLEQ_INSERT_HEAD h e m | QInsertTail e => CIRCLEQ_INSERT_TAIL h e m
    | QInsertAfter p e => CIRCLEQ_INSERT_AFTER h p e m | QRemove e => CIRCLEQ_REMOVE h e m
    end |}.
Next Obligation. intros h m. apply CIRCLEQ_INIT_spec. Qed.
Next Obligation.
  intros fuel h [e|e|p e|e] m l Hl Hpre _; (eexists; split; [done|]); cbn in *.
  - by apply CIRCLEQ_INSERT_HEAD_spec.
  - by apply CIRCLEQ_INSERT_TAIL_spec.
  - destruct Hpre as [(l1 & l2 & -> & Hp)%list_elem_of_split_l He]. rewrite Abs.insert_after_split //. by apply CIRCLEQ_INSERT_AFTER_spec.
  - apply list_elem_of_split in Hpre as (l1 & l2 & ->). pose proof Hl as [(?&?&?&?&?)%NoDup_mid _]. rewrite Abs.remove_split //. by apply CIRCLEQ_REMOVE_spec.
Qed.

(** C40: the queue macros refine lists.  After initialisation and any sequence of insertions at the head, at the tail and after a member and removals of members, the traversals of a [TAILQ], of a [STAILQ] (and a [SIMPLEQ]) and of a [CIRCLEQ], run on the pointers their macros write, all visit exactly the list the sequence computes, and the reverse traversals its reversal; the walks of [STAILQ_REMOVE] find their element. *)
Theorem queues_refine_lists (m : qmem) (c : cqmem) (h fuel : nat) (ops : list q_op) (l := foldl (λ l op, q_abs op l) [] ops) :
  q_pres ops [] → (length ops ≤ fuel)%nat →
  (∃ m', queue_run_all (k := Tailq) fuel h ops (TAILQ_INIT h m) = Some m' ∧ TAILQ_FOREACH fuel h m' = l ∧ TAILQ_FOREACH_REVERSE fuel h m' = reverse l) ∧
  (∃ m', queue_run_all (k := Stailq) fuel h ops (STAILQ_INIT h m) = Some m' ∧ STAILQ_FOREACH fuel h m' = l) ∧
  (∃ c', queue_run_all (k := Circleq) fuel h ops (CIRCLEQ_INIT h c) = Some c' ∧ CIRCLEQ_FOREACH fuel h c' = l ∧ CIRCLEQ_FOREACH_REVERSE fuel h c' = reverse l).
Proof.
  intros Hpre Hf. split_and!.
  - destruct (queue_run_all_ok (k := Tailq) fuel h ops _ [] (queue_init_ok h m) Hpre Hf) as (m' & Hr & Hl & Hlen). exists m'.
    split_and!; [exact Hr|by apply tailq_foreach|by apply tailq_foreach_reverse].
  - destruct (queue_run_all_ok (k := Stailq) fuel h ops _ [] (queue_init_ok h m) Hpre Hf) as (m' & Hr & Hl & Hlen). exists m'. split; [exact Hr|by apply stailq_foreach].
  - destruct (queue_run_all_ok (k := Circleq) fuel h ops _ [] (queue_init_ok h c) Hpre Hf) as (m' & Hr & Hl & Hlen). exists m'.
    split_and!; [exact Hr|by apply circleq_foreach|by apply circleq_foreach_reverse].
Qed.
Definition demo_queue_ops : list q_op := [QInsertTail 1; QInsertHead 2; QInsertAfter 2 3; QInsertTail 4; QRemove 2; QRemove 4; QInsertAfter 1 5].
Lemma queues_refine_lists_witness : foldl (λ l op, q_abs op l) [] demo_queue_ops = [3; 1; 5]%nat ∧
  ∃ m', queue_run_all (k := Stailq) 7 9 demo_queue_ops (STAILQ_INIT 9 qmem_null) = Some m' ∧ STAILQ_FOREACH 7 9 m' = [3; 1; 5]%nat.
Proof.
  split; [reflexivity|]. refine (proj1 (proj2 (queues_refine_lists qmem_null (CQMem id id) 9 7 demo_queue_ops _ _))); [|cbn; lia].
  cbn. repeat split; set_solver.
Defined.
