(* ===== verification/Tree.v ===== *)
(** * Red-black trees: [kernel/include/sys/tree.h]

    The macros that generate intrusive red-black trees, on a memory of entries with
    pointers to parents.  Elements are named by their identity; a null pointer is [None].
    [cmp] is the comparison the macros are given.  The two halves of the macros are mirror
    images of each other: a [side] says which one runs. *)

From S2P Require Import Prelude.

Definition RB_BLACK : Z := 0.
Definition RB_RED : Z := 1.
Definition RB_NEGINF : Z := -1.
Definition RB_INF : Z := 1.

Record rb_entry := RbEntry { rbe_left : option nat; rbe_right : option nat; rbe_parent : option nat; rbe_color : Z }.
(** [rbh_root] of the head, and the entries of all elements. *)
Record rbw := RbW { rbh_root : option nat; rbm : gmap nat rb_entry }.

Inductive side := Lft | Rgt.
#[global] Instance side_eq_dec : EqDecision side.
Proof. solve_decision. Defined.
Definition flip (d : side) : side := match d with Lft => Rgt | Rgt => Lft end.

Definition ld_entry (e : nat) : M rbw rb_entry := w ← get; deref "elm" (rbm w !! e).
Definition upd_entry (e : nat) (f : rb_entry → rb_entry) : M rbw unit :=
  w ← get; x ← deref "elm" (rbm w !! e); put (RbW (rbh_root w) (<[e := f x]> (rbm w))).
Definition RB_ROOT : M rbw (option nat) := gets rbh_root.
Definition RB_LEFT (e : nat) : M rbw (option nat) := x ← ld_entry e; mret (rbe_left x).
Definition RB_RIGHT (e : nat) : M rbw (option nat) := x ← ld_entry e; mret (rbe_right x).
Definition RB_PARENT (e : nat) : M rbw (option nat) := x ← ld_entry e; mret (rbe_parent x).
Definition RB_COLOR (e : nat) : M rbw Z := x ← ld_entry e; mret (rbe_color x).
Definition RB_EMPTY : M rbw bool := r ← RB_ROOT; mret (bool_decide (r = None)).

Definition set_root (p : option nat) : M rbw unit := modify (λ w, RbW p (rbm w)).
Definition put_left (p : option nat) (x : rb_entry) := RbEntry p (rbe_right x) (rbe_parent x) (rbe_color x).
Definition put_right (p : option nat) (x : rb_entry) := RbEntry (rbe_left x) p (rbe_parent x) (rbe_color x).
Definition put_parent (p : option nat) (x : rb_entry) := RbEntry (rbe_left x) (rbe_right x) p (rbe_color x).
Definition put_color (c : Z) (x : rb_entry) := RbEntry (rbe_left x) (rbe_right x) (rbe_parent x) c.
Definition put_child (d : side) := match d with Lft => put_left | Rgt => put_right end.
(** The child on a side. *)
Definition rb_child (d : side) (e : nat) : M rbw (option nat) := match d with Lft => RB_LEFT e | Rgt => RB_RIGHT e end.

Definition RB_INIT : M rbw unit := set_root None.
Definition RB_SET (elm : nat) (parent : option nat) : M rbw unit :=
  upd_entry elm (put_parent parent);;
  upd_entry elm (put_right None);;
  upd_entry elm (put_left None);;
  upd_entry elm (put_color RB_RED).
Definition RB_SET_BLACKRED (black red : nat) : M rbw unit :=
  upd_entry black (put_color RB_BLACK);;
  upd_entry red (put_color RB_RED).

(** Where the parent, or the head, points to [old], let it point to [new]. *)
Definition rb_relink (parent : option nat) (old : nat) (new : option nat) : M rbw unit :=
  match parent with
  | Some p =>
      l ← RB_LEFT p;
      if decide (l = Some old) then upd_entry p (put_left new) else upd_entry p (put_right new)
  | None => set_root new
  end.
Definition set_parent_of (child : option nat) (parent : option nat) : M rbw unit :=
  match child with Some c => upd_entry c (put_parent parent) | None => mret tt end.

(** [RB_ROTATE Lft] is [RB_ROTATE_LEFT], [RB_ROTATE Rgt] is [RB_ROTATE_RIGHT]; the result
    is [tmp]. *)
Definition RB_ROTATE (d : side) (elm : nat) : M rbw nat :=
  tmp ← rb_child (flip d) elm;
  tmp ← deref "tmp" tmp;
  c ← rb_child d tmp;
  upd_entry elm (put_child (flip d) c);;
  set_parent_of c (Some elm);;
  p ← RB_PARENT elm;
  upd_entry tmp (put_parent p);;
  rb_relink p elm (Some tmp);;
  upd_entry tmp (put_child d (Some elm));;
  upd_entry elm (put_parent (Some tmp));;
  mret tmp.

(** A pointer that is null or to a black element. *)
Definition null_or_black (p : option nat) : M rbw bool :=
  match p with None => mret true | Some e => c ← RB_COLOR e; mret (bool_decide (c = RB_BLACK)) end.
Definition nonnull_and_red (p : option nat) : M rbw bool :=
  match p with None => mret false | Some e => c ← RB_COLOR e; mret (bool_decide (c = RB_RED)) end.

(** The body of the loop of [RB_INSERT_COLOR] when [parent] is on side [d] of [gparent];
    the result is the new [elm]. *)
Definition insert_color_step (d : side) (elm parent gparent : nat) : M rbw nat :=
  tmp ← rb_child (flip d) gparent;
  red ← nonnull_and_red tmp;
  if (red : bool) then
    tmp ← deref "tmp" tmp;
    upd_entry tmp (put_color RB_BLACK);;
    RB_SET_BLACKRED parent gparent;;
    mret gparent
  else
    inner ← rb_child (flip d) parent;
    '(elm, parent) ← (if decide (inner = Some elm) then RB_ROTATE d parent;; mret (parent, elm) else mret (elm, parent));
    RB_SET_BLACKRED parent gparent;;
    RB_ROTATE (flip d) gparent;;
    mret elm.
Fixpoint insert_color_loop (fuel : nat) (elm : nat) : M rbw unit :=
  match fuel with
  | O => fail OutOfFuel
  | S fuel =>
      p ← RB_PARENT elm;
      match p with
      | None => mret tt
      | Some parent =>
          c ← RB_COLOR parent;
          if decide (c = RB_RED) then
            g ← RB_PARENT parent;
            gparent ← deref "gparent" g;
            l ← RB_LEFT gparent;
            elm ← insert_color_step (if decide (l = Some parent) then Lft else Rgt) elm parent gparent;
            insert_color_loop fuel elm
          else mret tt
      end
  end.
Definition RB_INSERT_COLOR (fuel : nat) (elm : nat) : M rbw unit :=
  insert_color_loop fuel elm;;
  r ← RB_ROOT;
  r ← deref "head->rbh_root" r;
  upd_entry r (put_color RB_BLACK).

(** The body of the loop of [RB_REMOVE_COLOR] when [elm] is on side [d] of [parent], in
    parts.  First a red sibling is rotated away: the sibling the rest works with. *)
Definition remove_red_sibling (d : side) (parent tmp : nat) : M rbw nat :=
  RB_SET_BLACKRED tmp parent;;
  RB_ROTATE d parent;;
  t ← rb_child (flip d) parent; deref "tmp" t.
(** The far child of the sibling is black: its near one is rotated into its place. *)
Definition remove_near_red (d : side) (parent tmp : nat) : M rbw nat :=
  o ← rb_child d tmp;
  match o with Some o => upd_entry o (put_color RB_BLACK) | None => mret tt end;;
  upd_entry tmp (put_color RB_RED);;
  RB_ROTATE (flip d) tmp;;
  t ← rb_child (flip d) parent; deref "tmp" t.
(** The last rotation. *)
Definition remove_far_red (d : side) (parent tmp : nat) : M rbw unit :=
  c ← RB_COLOR parent;
  upd_entry tmp (put_color c);;
  upd_entry parent (put_color RB_BLACK);;
  far ← rb_child (flip d) tmp;
  match far with Some f => upd_entry f (put_color RB_BLACK) | None => mret tt end;;
  RB_ROTATE d parent;;
  mret tt.
Definition remove_color_rest (d : side) (parent tmp : nat) : M rbw (option (nat * option nat)) :=
  l ← RB_LEFT tmp;
  bl ← null_or_black l;
  r ← RB_RIGHT tmp;
  br ← null_or_black r;
  if (bl : bool) && br then
    upd_entry tmp (put_color RB_RED);;
    p ← RB_PARENT parent;
    mret (Some (parent, p))
  else
    far ← rb_child (flip d) tmp;
    bf ← null_or_black far;
    tmp ← (if (bf : bool) then remove_near_red d parent tmp else mret tmp);
    remove_far_red d parent tmp;;
    mret None.
(** The whole turn: the new [elm] and [parent], or nothing where the loop is left. *)
Definition remove_color_step (d : side) (parent : nat) : M rbw (option (nat * option nat)) :=
  tmp ← rb_child (flip d) parent;
  tmp ← deref "tmp" tmp;
  c ← RB_COLOR tmp;
  tmp ← (if decide (c = RB_RED) then remove_red_sibling d parent tmp else mret tmp);
  remove_color_rest d parent tmp.
Fixpoint remove_color_loop (fuel : nat) (parent elm : option nat) : M rbw (option nat) :=
  match fuel with
  | O => fail OutOfFuel
  | S fuel =>
      b ← null_or_black elm;
      r ← RB_ROOT;
      if (b : bool) && bool_decide (elm ≠ r) then
        p ← deref "parent" parent;
        l ← RB_LEFT p;
        next ← remove_color_step (if decide (l = elm) then Lft else Rgt) p;
        match next with
        | Some (elm, parent) => remove_color_loop fuel parent (Some elm)
        | None => RB_ROOT
        end
      else mret elm
  end.
Definition RB_REMOVE_COLOR (fuel : nat) (parent elm : option nat) : M rbw unit :=
  elm ← remove_color_loop fuel parent elm;
  match elm with Some e => upd_entry e (put_color RB_BLACK) | None => mret tt end.

(** [while ((left = RB_LEFT(elm))) elm = left], on either side. *)
Fixpoint rb_descend (d : side) (fuel : nat) (elm : nat) : M rbw nat :=
  match fuel with
  | O => fail OutOfFuel
  | S fuel => c ← rb_child d elm; match c with Some c => rb_descend d fuel c | None => mret elm end
  end.
(** Take an element with at most one child out; the result is its parent and colour. *)
Definition rb_splice (elm : nat) (child : option nat) : M rbw (option nat * Z) :=
  parent ← RB_PARENT elm;
  color ← RB_COLOR elm;
  set_parent_of child parent;;
  rb_relink parent elm child;;
  mret (parent, color).
(** [elm] takes the place of [old], which has two children. *)
Definition rb_replace (old elm : nat) : M rbw unit :=
  o ← ld_entry old;
  upd_entry elm (λ _, o);;
  rb_relink (rbe_parent o) old (Some elm);;
  o ← ld_entry old;
  lf ← deref "RB_LEFT(old)" (rbe_left o);
  upd_entry lf (put_parent (Some elm));;
  set_parent_of (rbe_right o) (Some elm).
(** Unlink [elm], or its successor where it has two children: the place where the tree
    may have lost a black element, and the colour of what was unlinked. *)
Definition rb_unlink (fuel : nat) (old : nat) : M rbw (option nat * option nat * Z) :=
  l ← RB_LEFT old;
  r ← RB_RIGHT old;
  match l, r with
  | Some _, Some rt =>
      elm ← rb_descend Lft fuel rt;
      child ← RB_RIGHT elm;
      '(parent, color) ← rb_splice elm child;
      p ← RB_PARENT elm;
      rb_replace old elm;;
      mret (if decide (p = Some old) then Some elm else parent, child, color)
  | None, _ => '(parent, color) ← rb_splice old r; mret (parent, r, color)
  | Some _, None => '(parent, color) ← rb_splice old l; mret (parent, l, color)
  end.
Definition RB_REMOVE (fuel : nat) (elm : nat) : M rbw nat :=
  '(parent, child, color) ← rb_unlink fuel elm;
  whenM (bool_decide (color = RB_BLACK)) (RB_REMOVE_COLOR fuel parent child);;
  mret elm.

Section search.
Context (cmp : nat → nat → Z).

(** The loop of [RB_INSERT]: an equal element, or the parent and the last comparison. *)
Fixpoint insert_search (fuel : nat) (elm : nat) (tmp parent : option nat) (comp : Z) : M rbw (option nat + option nat * Z) :=
  match tmp with
  | None => mret (inr (parent, comp))
  | Some t =>
      match fuel with
      | O => fail OutOfFuel
      | S fuel =>
          let comp := cmp elm t in
          if decide (comp < 0) then l ← RB_LEFT t; insert_search fuel elm l (Some t) comp
          else if decide (0 < comp) then r ← RB_RIGHT t; insert_search fuel elm r (Some t) comp
          else mret (inl (Some t))
      end
  end.
Definition RB_INSERT (fuel : nat) (elm : nat) : M rbw (option nat) :=
  r ← RB_ROOT;
  s ← insert_search fuel elm r None 0;
  match s with
  | inl t => mret t
  | inr (parent, comp) =>
      RB_SET elm parent;;
      match parent with
      | Some p => if decide (comp < 0) then upd_entry p (put_left (Some elm)) else upd_entry p (put_right (Some elm))
      | None => set_root (Some elm)
      end;;
      RB_INSERT_COLOR fuel elm;;
      mret None
  end.
Fixpoint rb_find (fuel : nat) (elm : nat) (tmp : option nat) : M rbw (option nat) :=
  match tmp with
  | None => mret None
  | Some t =>
      match fuel with
      | O => fail OutOfFuel
      | S fuel =>
          let comp := cmp elm t in
          if decide (comp < 0) then l ← RB_LEFT t; rb_find fuel elm l
          else if decide (0 < comp) then r ← RB_RIGHT t; rb_find fuel elm r
          else mret (Some t)
      end
  end.
Definition RB_FIND (fuel : nat) (elm : nat) : M rbw (option nat) := r ← RB_ROOT; rb_find fuel elm r.
Fixpoint rb_nfind (fuel : nat) (elm : nat) (tmp res : option nat) : M rbw (option nat) :=
  match tmp with
  | None => mret res
  | Some t =>
      match fuel with
      | O => fail OutOfFuel
      | S fuel =>
          let comp := cmp elm t in
          if decide (comp < 0) then l ← RB_LEFT t; rb_nfind fuel elm l (Some t)
          else if decide (0 < comp) then r ← RB_RIGHT t; rb_nfind fuel elm r res
          else mret (Some t)
      end
  end.
Definition RB_NFIND (fuel : nat) (elm : nat) : M rbw (option nat) := r ← RB_ROOT; rb_nfind fuel elm r None.
End search.

(** [while (RB_PARENT(elm) && elm == child(RB_PARENT(elm))) elm = RB_PARENT(elm)], then the
    parent. *)
Fixpoint rb_climb (d : side) (fuel : nat) (elm : nat) : M rbw (option nat) :=
  match fuel with
  | O => fail OutOfFuel
  | S fuel =>
      p ← RB_PARENT elm;
      match p with
      | None => mret None
      | Some q =>
          c ← rb_child d q;
          if decide (c = Some elm) then rb_climb d fuel q else mret (Some q)
      end
  end.
(** [rb_step Rgt] is [RB_NEXT], [rb_step Lft] is [RB_PREV]. *)
Definition rb_step (d : side) (fuel : nat) (elm : nat) : M rbw (option nat) :=
  c ← rb_child d elm;
  match c with
  | Some c => e ← rb_descend (flip d) fuel c; mret (Some e)
  | None =>
      p ← RB_PARENT elm;
      match p with
      | Some q =>
          c ← rb_child (flip d) q;
          if decide (c = Some elm) then mret (Some q) else rb_climb d fuel elm
      | None => rb_climb d fuel elm
      end
  end.
Definition RB_NEXT := rb_step Rgt.
Definition RB_PREV := rb_step Lft.

Fixpoint minmax_loop (fuel : nat) (val : Z) (tmp parent : option nat) : M rbw (option nat) :=
  match tmp with
  | None => mret parent
  | Some t =>
      match fuel with
      | O => fail OutOfFuel
      | S fuel => c ← (if decide (val < 0) then RB_LEFT t else RB_RIGHT t); minmax_loop fuel val c (Some t)
      end
  end.
Definition RB_MINMAX (fuel : nat) (val : Z) : M rbw (option nat) := r ← RB_ROOT; minmax_loop fuel val r None.
Definition RB_MIN (fuel : nat) := RB_MINMAX fuel RB_NEGINF.
Definition RB_MAX (fuel : nat) := RB_MINMAX fuel RB_INF.

(** [RB_FOREACH] and [RB_FOREACH_REVERSE]: the elements in the order the loop visits them;
    [fuel] for each search, [n] turns. *)
Fixpoint foreach_loop (d : side) (fuel n : nat) (x : option nat) : M rbw (list nat) :=
  match x with
  | None => mret []
  | Some x =>
      match n with
      | O => fail OutOfFuel
      | S n => y ← rb_step d fuel x; l ← foreach_loop d fuel n y; mret (x :: l)
      end
  end.
Definition RB_FOREACH (fuel n : nat) : M rbw (list nat) := x ← RB_MIN fuel; foreach_loop Rgt fuel n x.
Definition RB_FOREACH_REVERSE (fuel n : nat) : M rbw (list nat) := x ← RB_MAX fuel; foreach_loop Lft fuel n x.
(** [RB_FOREACH_SAFE] and [RB_FOREACH_REVERSE_SAFE] around a body that may remove the
    element it is given. *)
Fixpoint foreach_safe_loop (d : side) (fuel n : nat) (body : nat → M rbw unit) (x : option nat) : M rbw unit :=
  match x with
  | None => mret tt
  | Some x =>
      match n with
      | O => fail OutOfFuel
      | S n => y ← rb_step d fuel x; body x;; foreach_safe_loop d fuel n body y
      end
  end.
Definition RB_FOREACH_SAFE (fuel n : nat) (body : nat → M rbw unit) : M rbw unit :=
  x ← RB_MIN fuel; foreach_safe_loop Rgt fuel n body x.
Definition RB_FOREACH_REVERSE_SAFE (fuel n : nat) (body : nat → M rbw unit) : M rbw unit :=
  x ← RB_MAX fuel; foreach_safe_loop Lft fuel n body x.
