(* ===== verification/TreeRep.v ===== *)
(** * Red-black trees: the tree a memory holds

    Functional trees and contexts (the path from a subtree up to the root), what it means
    that a memory holds one, and the pointer manipulations as operations on them. *)

From S2P Require Import Prelude Tree.

Inductive tree := E | T (red : bool) (l : tree) (x : nat) (r : tree).
Definition col (red : bool) : Z := if red then RB_RED else RB_BLACK.
Definition root (t : tree) : option nat := match t with E => None | T _ _ x _ => Some x end.
Fixpoint ids (t : tree) : list nat := match t with E => [] | T _ l x r => ids l ++ x :: ids r end.
(** A node whose child on side [d] is [a]. *)
Definition mk (d : side) (red : bool) (a : tree) (x : nat) (b : tree) : tree :=
  match d with Lft => T red a x b | Rgt => T red b x a end.
Definition entry (d : side) (a b par : option nat) (c : Z) : rb_entry :=
  match d with Lft => RbEntry a b par c | Rgt => RbEntry b a par c end.

(** A frame: the hole is on side [d] of [x], the other child is [s]. *)
Inductive frame := Frame (d : side) (red : bool) (x : nat) (s : tree).
Fixpoint plug (k : list frame) (t : tree) : tree :=
  match k with [] => t | Frame d c x s :: k => plug k (mk d c t x s) end.
Definition top (k : list frame) : option nat := match k with [] => None | Frame _ _ x _ :: _ => Some x end.
Fixpoint before (k : list frame) : list nat :=
  match k with [] => [] | Frame Lft _ _ _ :: k => before k | Frame Rgt _ x s :: k => before k ++ ids s ++ [x] end.
Fixpoint after (k : list frame) : list nat :=
  match k with [] => [] | Frame Lft _ x s :: k => x :: ids s ++ after k | Frame Rgt _ _ _ :: k => after k end.
Definition kids (k : list frame) : list nat := before k ++ after k.

Lemma ids_plug k t : ids (plug k t) = before k ++ ids t ++ after k.
Proof.
  revert t. induction k as [|[[] c x s] k IH]; intros t; cbn; [by rewrite app_nil_r|..]; rewrite IH; cbn; rewrite -?app_assoc; cbn; done.
Qed.
Lemma root_mk d c a x b : root (mk d c a x b) = Some x.
Proof. by destruct d. Qed.

(** ** Memories *)
Fixpoint rep (m : gmap nat rb_entry) (par : option nat) (t : tree) : Prop :=
  match t with
  | E => True
  | T c l x r => m !! x = Some (RbEntry (root l) (root r) par (col c)) ∧ rep m (Some x) l ∧ rep m (Some x) r
  end.
Fixpoint rep_ctx (w : rbw) (k : list frame) (hole : option nat) : Prop :=
  match k with
  | [] => rbh_root w = hole
  | Frame d c x s :: k => rbm w !! x = Some (entry d hole (root s) (top k) (col c)) ∧ rep (rbm w) (Some x) s ∧ rep_ctx w k (Some x)
  end.
(** The memory holds the tree [plug k t]; we stand at [t]. *)
Record at_focus (w : rbw) (k : list frame) (t : tree) : Prop := {
  af_ctx : rep_ctx w k (root t);
  af_rep : rep (rbm w) (top k) t;
  af_nodup : NoDup (ids (plug k t));
}.
Definition holds (w : rbw) (t : tree) : Prop := at_focus w [] t.

Lemma rep_mk m par d c a x b : rep m par (mk d c a x b) ↔
  m !! x = Some (entry d (root a) (root b) par (col c)) ∧ rep m (Some x) a ∧ rep m (Some x) b.
Proof. destruct d; cbn; tauto. Qed.
Lemma focus_up w d c x s k t : at_focus w (Frame d c x s :: k) t ↔ at_focus w k (mk d c t x s).
Proof.
  split; intros [H1 H2 H3]; split; try exact H3; cbn in *; rewrite ?root_mk ?rep_mk in H1 H2 |- *; tauto.
Qed.
Lemma focus_plug w k t : at_focus w k t ↔ holds w (plug k t).
Proof. revert t. induction k as [|[d c x s] k IH]; intros t; [done|]. by rewrite focus_up IH. Qed.

Lemma rep_ext m m' par t : (∀ z, z ∈ ids t → m' !! z = m !! z) → rep m par t → rep m' par t.
Proof.
  revert par. induction t as [|c l IHl x r IHr]; intros par Hm; [done|]. cbn in *. intros (H1 & H2 & H3).
  split_and!; [rewrite Hm; [set_solver|done]|apply IHl; [set_solver|done]|apply IHr; [set_solver|done]].
Qed.
Lemma rep_ctx_ext w w' k hole : rbh_root w' = rbh_root w → (∀ z, z ∈ kids k → rbm w' !! z = rbm w !! z) →
  rep_ctx w k hole → rep_ctx w' k hole.
Proof.
  intros Hr. revert hole. induction k as [|[d c x s] k IH]; intros hole Hm; cbn; [by rewrite Hr|]. unfold kids in *. intros (H1 & H2 & H3).
  assert (∀ z, z = x ∨ z ∈ ids s ∨ z ∈ before k ++ after k → rbm w' !! z = rbm w !! z) as Hm'.
  { intros z Hz. apply Hm. destruct d; cbn; set_solver. }
  split_and!; [rewrite Hm'; [by left|done]|eapply rep_ext; [|done]; intros z Hz; apply Hm'; tauto|].
  apply IH; [|done]. intros z Hz. apply Hm'. tauto.
Qed.

(** Elements of the focus and of the context are different. *)
Lemma focus_apart w k t : at_focus w k t → NoDup (ids t) ∧ NoDup (kids k) ∧ ∀ z, z ∈ ids t → z ∉ kids k.
Proof.
  intros [_ _ H]. rewrite ids_plug in H. unfold kids. apply NoDup_app in H as (H1 & H2 & H3). apply NoDup_app in H3 as (H3 & H4 & H5).
  split_and!; [done| |set_solver]. apply NoDup_app. split_and!; [done|set_solver|done].
Qed.

(** ** Steps *)
Lemma wp_ld_entry e x (Q : rb_entry → rbw → Prop) w : rbm w !! e = Some x → Q x w → wp (ld_entry e) Q w.
Proof. intros Hx HQ. unfold ld_entry. apply wp_bind, wp_get, wp_deref. by exists x. Qed.
Lemma wp_upd_entry e f x (Q : unit → rbw → Prop) w : rbm w !! e = Some x → Q tt (RbW (rbh_root w) (<[e := f x]> (rbm w))) → wp (upd_entry e f) Q w.
Proof. intros Hx HQ. unfold upd_entry. apply wp_bind, wp_get, wp_bind, wp_deref. exists x. split; [done|]. by apply wp_put. Qed.
Lemma entry_flip d a b p c : entry (flip d) a b p c = entry d b a p c.
Proof. by destruct d. Qed.
Lemma entry_fields d a b p c : rbe_parent (entry d a b p c) = p ∧ rbe_color (entry d a b p c) = c.
Proof. by destruct d. Qed.
Lemma put_entry d a b p c : (∀ q, put_parent q (entry d a b p c) = entry d a b q c) ∧ (∀ c', put_color c' (entry d a b p c) = entry d a b p c') ∧
  (∀ a', put_child d a' (entry d a b p c) = entry d a' b p c) ∧ (∀ b', put_child (flip d) b' (entry d a b p c) = entry d a b' p c).
Proof. by destruct d. Qed.
Lemma wp_child d e a b p c (Q : option nat → rbw → Prop) w : rbm w !! e = Some (entry d a b p c) → Q a w → wp (rb_child d e) Q w.
Proof. intros Hx HQ. destruct d; apply wp_bind; (eapply wp_ld_entry; [exact Hx|]); by apply wp_ret. Qed.
Lemma wp_child_flip d e a b p c (Q : option nat → rbw → Prop) w : rbm w !! e = Some (entry d a b p c) → Q b w → wp (rb_child (flip d) e) Q w.
Proof. rewrite -entry_flip. apply wp_child. Qed.
Lemma wp_left e a b p c (Q : option nat → rbw → Prop) w : rbm w !! e = Some (RbEntry a b p c) → Q a w → wp (RB_LEFT e) Q w.
Proof. apply (wp_child Lft). Qed.
Lemma wp_right e a b p c (Q : option nat → rbw → Prop) w : rbm w !! e = Some (RbEntry a b p c) → Q b w → wp (RB_RIGHT e) Q w.
Proof. apply (wp_child_flip Lft). Qed.
Lemma wp_parent e d a b p c (Q : option nat → rbw → Prop) w : rbm w !! e = Some (entry d a b p c) → Q p w → wp (RB_PARENT e) Q w.
Proof. intros Hx HQ. apply wp_bind. eapply wp_ld_entry; [done|]. apply wp_ret. by rewrite (proj1 (entry_fields _ _ _ _ _)). Qed.
Lemma wp_color e d a b p c (Q : Z → rbw → Prop) w : rbm w !! e = Some (entry d a b p c) → Q c w → wp (RB_COLOR e) Q w.
Proof. intros Hx HQ. apply wp_bind. eapply wp_ld_entry; [done|]. apply wp_ret. by rewrite (proj2 (entry_fields _ _ _ _ _)). Qed.

(** A change inside the focus that leaves its root in place. *)
Lemma focus_local w w' k t t' : at_focus w k t → rbh_root w' = rbh_root w → (∀ z, z ∈ kids k → rbm w' !! z = rbm w !! z) →
  root t' = root t → ids t' = ids t → rep (rbm w') (top k) t' → at_focus w' k t'.
Proof.
  intros A Hr Hm Et Ei Hrep. split; [|done|].
  - rewrite Et. eapply rep_ctx_ext; [done|done|apply A].
  - rewrite ids_plug Ei -ids_plug. apply A.
Qed.

Lemma root_in t z : root t = Some z → z ∈ ids t.
Proof. destruct t; cbn; [done|]. intros [= ->]. set_solver. Qed.
(** Replace what the context points to. *)
Lemma frame_apart d c y s k : NoDup (kids (Frame d c y s :: k)) → y ∉ ids s ∧ y ∉ kids k.
Proof.
  unfold kids. destruct d; cbn; intros Hn; [rewrite -Permutation_middle in Hn; apply NoDup_cons in Hn as [Hn _]; set_solver|].
  rewrite -!app_assoc in Hn. cbn in Hn. rewrite (assoc_L (++)) -Permutation_middle in Hn. apply NoDup_cons in Hn as [Hn _]. set_solver.
Qed.
Lemma elem_of_kids z d c y s k : z ∈ kids (Frame d c y s :: k) ↔ z = y ∨ z ∈ ids s ∨ z ∈ kids k.
Proof. unfold kids. destruct d; cbn; set_solver. Qed.
Lemma put_hole w d c y s k hole new (Q : unit → rbw → Prop) : rep_ctx w (Frame d c y s :: k) hole → NoDup (kids (Frame d c y s :: k)) →
  (∀ w', rep_ctx w' (Frame d c y s :: k) new → (∀ z, z ≠ y → rbm w' !! z = rbm w !! z) → Q tt w') → wp (upd_entry y (put_child d new)) Q w.
Proof.
  intros (Hy & Hs & Hk) [Ny Nk]%frame_apart HQ. eapply wp_upd_entry; [exact Hy|]. apply HQ; cbn [rep_ctx rbm].
  - destruct (put_entry d hole (root s) (top k) (col c)) as (_ & _ & -> & _). split_and!; [by rewrite lookup_insert_eq|..].
    + eapply rep_ext; [|done]. intros z Hzs. apply lookup_insert_ne. set_solver.
    + eapply rep_ctx_ext; [| |exact Hk]; [done|]. intros z Hzk. cbn. apply lookup_insert_ne. set_solver.
  - intros z Hz. by apply lookup_insert_ne.
Qed.
Lemma relink_spec w k x new : rep_ctx w k (Some x) → x ∉ kids k → NoDup (kids k) →
  wp (rb_relink (top k) x new) (λ _ w', rep_ctx w' k new ∧ ∀ z, z ∉ kids k → rbm w' !! z = rbm w !! z) w.
Proof.
  destruct k as [|[d c y s] k]; intros Hk Hx Hn; cbn [top rb_relink].
  { apply wp_modify. split; [done|]. done. }
  assert (wp (upd_entry y (put_child d new)) (λ _ w', rep_ctx w' (Frame d c y s :: k) new ∧ ∀ z, z ∉ kids (Frame d c y s :: k) → rbm w' !! z = rbm w !! z) w) as Hup.
  { eapply put_hole; [exact Hk|done|]. intros w' C' M'. split; [done|]. intros z Hz. apply M'. rewrite elem_of_kids in Hz. tauto. }
  destruct Hk as (Hy & Hs & Hk). rewrite elem_of_kids in Hx.
  apply wp_bind. eapply (wp_child Lft _ (match d with Lft => Some x | Rgt => root s end) (match d with Lft => root s | Rgt => Some x end)); [destruct d; exact Hy|].
  case_decide as Ed; destruct d; [exact Hup| |done|exact Hup].
  apply root_in in Ed. tauto.
Qed.

Lemma set_parent_spec w q p t : rep (rbm w) p t → NoDup (ids t) →
  wp (set_parent_of (root t) q) (λ _ w', rbh_root w' = rbh_root w ∧ rep (rbm w') q t ∧ ∀ z, Some z ≠ root t → rbm w' !! z = rbm w !! z) w.
Proof.
  intros Hr Hn. destruct t as [|c l x r]; cbn [root set_parent_of]; [by apply wp_ret|]. destruct Hr as (Hx & Hl & Hr).
  cbn in Hn. rewrite -Permutation_middle in Hn. apply NoDup_cons in Hn as [Hn _].
  eapply wp_upd_entry; [exact Hx|]. cbn. split_and!; [done|by rewrite lookup_insert_eq|..].
  - eapply rep_ext; [|done]. intros z Hz. apply lookup_insert_ne. set_solver.
  - eapply rep_ext; [|done]. intros z Hz. apply lookup_insert_ne. set_solver.
  - intros z Hz. apply lookup_insert_ne. congruence.
Qed.

Lemma ids_rotate d c l x c' a y b : ids (mk d c' (mk d c l x a) y b) = ids (mk d c l x (mk d c' a y b)).
Proof. destruct d; cbn; by rewrite -?app_assoc /= -?app_assoc. Qed.
Lemma ids_mk_cong d c c' a a' x b b' : ids a = ids a' → ids b = ids b' → ids (mk d c a x b) = ids (mk d c' a' x b').
Proof. destruct d; cbn; by intros -> ->. Qed.
Lemma ids_mk_perm d c a x b : ids (mk d c a x b) ≡ₚ x :: ids a ++ ids b.
Proof. destruct d; cbn; [by rewrite -Permutation_middle|]. rewrite -Permutation_middle. by rewrite (Permutation_app_comm (ids b)). Qed.

(** The pieces of a tree that a rotation takes apart are different. *)
Record pieces (x y : nat) (l a b : list nat) (k : list nat) : Prop := {
  pc_xy : x ≠ y;
  pc_x : ∀ z, z ∈ l ∨ z ∈ a ∨ z ∈ b → z ≠ x ∧ z ≠ y ∧ z ∉ k;
  pc_k : x ∉ k ∧ y ∉ k;
  pc_a : ∀ z, z ∈ a → z ∉ l ∧ z ∉ b;
}.
Lemma pieces_of x y l a b k : NoDup (x :: l ++ y :: a ++ b) → (∀ z, z ∈ x :: l ++ y :: a ++ b → z ∉ k) → pieces x y l a b k.
Proof.
  intros [Nx Nt]%NoDup_cons Hk. apply NoDup_app in Nt as (_ & Nly & Ny). apply NoDup_cons in Ny as [Ny Nab]. apply NoDup_app in Nab as (_ & Nab & _).
  split; [set_solver| |set_solver|].
  - intros z Hz. split_and!; [set_solver|set_solver|]. apply Hk. set_solver.
  - intros z Hz. split; [|by apply Nab]. intros Hl. apply (Nly z Hl). set_solver.
Qed.

Lemma rotate_spec w k d c l x c' a y b : at_focus w k (mk d c l x (mk d c' a y b)) →
  wp (RB_ROTATE d x) (λ r w', r = y ∧ at_focus w' k (mk d c' (mk d c l x a) y b)) w.
Proof.
  intros A. destruct (focus_apart _ _ _ A) as (Nt & Nk & Nd). destruct A as [Hc Hr Hn].
  rewrite root_mk in Hc. apply rep_mk in Hr as (Hx & Hl & (Hy & Ha & Hb)%rep_mk). rewrite root_mk in Hx.
  assert (NoDup (ids a) ∧ pieces x y (ids l) (ids a) (ids b) (kids k)) as [Na [Nxy Px [Pk1 Pk2] Pa]].
  { rewrite ids_mk_perm in Nt. rewrite ids_mk_perm in Nt. split; [by apply NoDup_cons in Nt as [_ (_ & _ & [_ (? & _)%NoDup_app]%NoDup_cons)%NoDup_app]|].
    apply pieces_of; [done|]. intros z Hz. apply Nd. rewrite ids_mk_perm. by rewrite ids_mk_perm. }
  unfold RB_ROTATE. apply wp_bind. eapply wp_child_flip; [exact Hx|]. apply wp_bind, wp_deref. exists y. split; [done|].
  apply wp_bind. eapply wp_child; [exact Hy|]. apply wp_bind. eapply wp_upd_entry; [exact Hx|].
  destruct (put_entry d (root l) (Some y) (top k) (col c)) as (_ & _ & _ & ->). set (w1 := RbW _ _).
  apply wp_bind. eapply wp_mono; [apply (set_parent_spec w1 (Some x) (Some y) a); [|done]|].
  { eapply rep_ext; [|exact Ha]. intros z Hz. apply lookup_insert_ne. destruct (Px z); [tauto|congruence]. }
  intros [] w2 (R2 & Ha2 & M2). cbn in R2.
  assert (root a ≠ Some x ∧ root a ≠ Some y ∧ ∀ z, z ∈ kids k ∨ z ∈ ids l ∨ z ∈ ids b → root a ≠ Some z) as (Ra1 & Ra2 & Ra3).
  { split_and!.
    - intros Ha'%root_in. destruct (Px x); tauto.
    - intros Ha'%root_in. destruct (Px y); tauto.
    - intros z Hz Ha'%root_in. destruct (Px z); [tauto|]. destruct (Pa z Ha'). tauto. }
  assert (rbm w2 !! x = Some (entry d (root l) (root a) (top k) (col c))) as Hx2 by (rewrite M2; [done|]; apply lookup_insert_eq).
  assert (∀ z, z ≠ x → root a ≠ Some z → rbm w2 !! z = rbm w !! z) as M2' by (intros z Hz1 Hz2; rewrite M2; [done|]; by apply lookup_insert_ne).
  assert (rbm w2 !! y = Some (entry d (root a) (root b) (Some x) (col c'))) as Hy2 by (rewrite M2' //; congruence).
  apply wp_bind. eapply wp_parent; [exact Hx2|]. apply wp_bind. eapply wp_upd_entry; [exact Hy2|].
  destruct (put_entry d (root a) (root b) (Some x) (col c')) as (-> & _). set (w3 := RbW _ _).
  apply wp_bind. eapply wp_mono; [apply (relink_spec w3 k x (Some y)); [|done|done]|].
  { eapply rep_ctx_ext; [| |exact Hc]; [done|]. intros z Hz. cbn. rewrite lookup_insert_ne; [congruence|]. apply M2'; [congruence|]. apply Ra3. tauto. }
  intros [] w4 (C4 & M4). assert (∀ z, z ∉ kids k → z ≠ y → rbm w4 !! z = rbm w2 !! z) as M4' by (intros z Hz Hz'; rewrite M4 //; by apply lookup_insert_ne).
  apply wp_bind. eapply wp_upd_entry; [rewrite M4; [done|]; apply lookup_insert_eq|].
  destruct (put_entry d (root a) (root b) (top k) (col c')) as (_ & _ & -> & _).
  apply wp_bind. eapply wp_upd_entry; [cbn; rewrite lookup_insert_ne //; by rewrite M4'|].
  destruct (put_entry d (root l) (root a) (top k) (col c)) as (-> & _). apply wp_ret. split; [done|]. set (w5 := RbW _ _).
  assert (∀ z, z ≠ x → z ≠ y → rbm w5 !! z = rbm w4 !! z) as M5 by (intros z H1 H2; cbn; by rewrite !lookup_insert_ne).
  split.
  - rewrite root_mk. eapply rep_ctx_ext; [| |exact C4]; [done|]. intros z Hz. apply M5; congruence.
  - apply rep_mk. rewrite root_mk. split_and!; [cbn; rewrite lookup_insert_ne //; apply lookup_insert_eq| |].
    + apply rep_mk. split_and!; [apply lookup_insert_eq|..].
      * eapply rep_ext; [|exact Hl]. intros z Hz. destruct (Px z) as (Z1 & Z2 & Z3); [tauto|]. rewrite M5 // M4' //. apply M2'; [done|]. apply Ra3. tauto.
      * eapply rep_ext; [|exact Ha2]. intros z Hz. destruct (Px z) as (Z1 & Z2 & Z3); [tauto|]. rewrite M5 //. by apply M4'.
    + eapply rep_ext; [|exact Hb]. intros z Hz. destruct (Px z) as (Z1 & Z2 & Z3); [tauto|]. rewrite M5 // M4' //. apply M2'; [done|]. apply Ra3. tauto.
  - rewrite ids_plug ids_rotate -ids_plug. exact Hn.
Qed.
