(* ===== verification/TreeInsert.v ===== *)
(** * Red-black trees: insertion and lookup *)

From Stdlib Require Import Sorted.
From S2P Require Import Prelude Tree TreeRep.

(** ** Colours *)
Definition redr (t : tree) : bool := match t with T true _ _ _ => true | _ => false end.
Lemma redr_mk d c a x b : redr (mk d c a x b) = c.
Proof. by destruct d, c. Qed.
Lemma mk_flip d c a x b : mk (flip d) c a x b = mk d c b x a.
Proof. by destruct d. Qed.
Lemma tree_mk d t : t = E ∨ ∃ c a x b, t = mk d c a x b.
Proof. destruct t as [|c l x r]; [by left|right]. destruct d; [by exists c, l, x, r|by exists c, r, x, l]. Qed.
Lemma flip_flip d : flip (flip d) = d.
Proof. by destruct d. Qed.

Lemma wp_red w p t (Q : bool → rbw → Prop) : rep (rbm w) p t → Q (redr t) w → wp (nonnull_and_red (root t)) Q w.
Proof.
  intros Hr HQ. destruct t as [|c l x r]; cbn [root nonnull_and_red]; [by apply wp_ret|]. destruct Hr as (Hx & _).
  apply wp_bind. eapply (wp_color _ Lft); [exact Hx|]. apply wp_ret. by destruct c.
Qed.
Lemma wp_black w p t (Q : bool → rbw → Prop) : rep (rbm w) p t → Q (negb (redr t)) w → wp (null_or_black (root t)) Q w.
Proof.
  intros Hr HQ. destruct t as [|c l x r]; cbn [root null_or_black]; [by apply wp_ret|]. destruct Hr as (Hx & _).
  apply wp_bind. eapply (wp_color _ Lft); [exact Hx|]. apply wp_ret. by destruct c.
Qed.

(** Colouring the root of the focus, its parent or its sibling. *)
Lemma color_spec w k d c c' a x b (Q : unit → rbw → Prop) : at_focus w k (mk d c a x b) →
  (∀ w', at_focus w' k (mk d c' a x b) → Q tt w') → wp (upd_entry x (put_color (col c'))) Q w.
Proof.
  intros A HQ. destruct (focus_apart _ _ _ A) as (Nt & Nk & Nd). pose proof (af_rep _ _ _ A) as (Hx & Ha & Hb)%rep_mk.
  eapply wp_upd_entry; [exact Hx|]. destruct (put_entry d (root a) (root b) (top k) (col c)) as (_ & -> & _). apply HQ.
  assert (x ∉ ids a ++ ids b) as Nx by (rewrite ids_mk_perm in Nt; by apply NoDup_cons in Nt as [? _]).
  eapply focus_local; [exact A|done| |by rewrite !root_mk|by destruct d|].
  - intros z Hz. cbn. apply lookup_insert_ne. intros ->. eapply Nd; [|exact Hz]. rewrite ids_mk_perm. left.
  - apply rep_mk. cbn. split_and!; [apply lookup_insert_eq|..]; (eapply rep_ext; [|done]); intros z Hz; apply lookup_insert_ne; set_solver.
Qed.
Lemma color_parent w k d c c' x s t (Q : unit → rbw → Prop) : at_focus w (Frame d c x s :: k) t →
  (∀ w', at_focus w' (Frame d c' x s :: k) t → Q tt w') → wp (upd_entry x (put_color (col c'))) Q w.
Proof. rewrite focus_up. intros A HQ. eapply color_spec; [exact A|]. intros w' A'. apply HQ. by rewrite focus_up. Qed.
Lemma focus_sibling w k d c x s t : at_focus w (Frame d c x s :: k) t ↔ at_focus w (Frame (flip d) c x t :: k) s.
Proof. by rewrite !focus_up mk_flip. Qed.
Lemma color_sibling w k d c x d' cs a y b c' t (Q : unit → rbw → Prop) : at_focus w (Frame d c x (mk d' cs a y b) :: k) t →
  (∀ w', at_focus w' (Frame d c x (mk d' c' a y b) :: k) t → Q tt w') → wp (upd_entry y (put_color (col c'))) Q w.
Proof. rewrite focus_sibling. intros A HQ. eapply color_spec; [exact A|]. intros w' A'. apply HQ. by rewrite focus_sibling. Qed.

Lemma sibling_apart w k d c x s t p : at_focus w (Frame d c x s :: k) t → root t = Some p → root s ≠ Some p.
Proof.
  intros A Ht%root_in Hs%root_in. destruct (focus_apart _ _ _ A) as (_ & _ & Nd). apply (Nd p Ht). unfold kids. destruct d; cbn; set_solver.
Qed.
(** The test that finds the side of an element in its parent. *)
Lemma side_test (d : side) (a b : option nat) : a ≠ b →
  (if decide (match d with Lft => a | Rgt => b end = a) then Lft else Rgt) = d.
Proof. intros Hn. destruct d; [by rewrite decide_True|]. by rewrite decide_False. Qed.
Lemma wp_side d e a b p c (Q : option nat → rbw → Prop) w : rbm w !! e = Some (entry d a b p c) → Q (match d with Lft => a | Rgt => b end) w → wp (RB_LEFT e) Q w.
Proof. intros He HQ. destruct d; (eapply wp_left; [exact He|exact HQ]). Qed.

(** ** One turn of [RB_INSERT_COLOR] *)
Lemma insert_step_spec w dx p s d g u k t x : at_focus w (Frame dx true p s :: Frame d false g u :: k) t → root t = Some x → redr t = true →
  wp (insert_color_step d x p g) (λ r w', ∃ k' t', root t' = Some r ∧ at_focus w' k' t' ∧
    ((∃ ul y ur, u = T true ul y ur ∧ k' = k ∧ t' = mk d true (mk dx false t p s) g (T false ul y ur)) ∨
     (redr u = false ∧ dx = d ∧ k' = Frame d false p (mk d true s g u) :: k ∧ t' = t) ∨
     (redr u = false ∧ dx = flip d ∧ ∃ a b, t = mk d true a x b ∧ k' = Frame d false x (mk d true b g u) :: k ∧ t' = mk d true s p a))) w.
Proof.
  intros A Ex Et. unfold insert_color_step. pose proof (af_ctx _ _ _ A) as (Hp & Hs & Hg & Hu & Hk).
  apply wp_bind. eapply wp_child_flip; [exact Hg|]. apply wp_bind. eapply wp_red; [exact Hu|]. destruct (redr u) eqn:Eu.
  - destruct u as [|[] ul y ur]; [done| |done]. apply wp_bind, wp_deref. exists y. split; [done|].
    rewrite focus_up in A. apply wp_bind. eapply (color_sibling w k d false g Lft true ul y ur false); [exact A|]. intros w1 A1. apply wp_bind.
    unfold RB_SET_BLACKRED. apply wp_bind. eapply (color_spec w1 _ dx true false); [exact A1|]. intros w2 A2.
    eapply (color_parent w2 k d false true); [exact A2|]. intros w3 A3. apply wp_ret. rewrite focus_up in A3.
    eexists _, _. split_and!; [|exact A3|left; exists ul, y, ur; split_and!; done]. apply root_mk.
  - apply wp_bind. eapply (wp_child_flip d _ (match decide (dx = d) with left _ => Some x | right _ => root s end)
      (match decide (dx = d) with left _ => root s | right _ => Some x end) (Some g) RB_RED).
    { rewrite Hp Ex. by destruct dx, d. }
    destruct (decide (dx = d)) as [->|Hd].
    + rewrite decide_False.
      { by eapply sibling_apart. }
      apply wp_bind, wp_ret, wp_bind. unfold RB_SET_BLACKRED. apply wp_bind. rewrite focus_up in A. eapply (color_spec w _ d true false); [exact A|].
      intros w1 A1. eapply (color_parent w1 k d false true); [exact A1|]. intros w2 A2. apply wp_bind. rewrite focus_up in A2.
      rewrite -mk_flip -(mk_flip d false) in A2. eapply wp_mono; [apply (rotate_spec _ _ _ _ _ _ _ _ _ _ A2)|]. intros r w3 [_ A3]. apply wp_ret.
      rewrite mk_flip (mk_flip d true) -focus_up in A3. eexists _, t. split_and!; [done|exact A3|]. right; left. split_and!; done.
    + assert (dx = flip d) as -> by (by destruct dx, d). rewrite decide_True //. destruct (tree_mk d t) as [->|(c & a & x' & b & ->)]; [done|].
      rewrite root_mk in Ex. injection Ex as ->. rewrite redr_mk in Et. subst c.
      rewrite focus_up in A. rewrite mk_flip in A. do 2 apply wp_bind. eapply wp_mono; [apply (rotate_spec _ _ _ _ _ _ _ _ _ _ A)|]. intros r w1 [-> A1].
      apply wp_ret, wp_bind. unfold RB_SET_BLACKRED. apply wp_bind. eapply (color_spec w1 _ d true false); [exact A1|].
      intros w2 A2. eapply (color_parent w2 k d false true); [exact A2|]. intros w3 A3. apply wp_bind. rewrite focus_up in A3.
      rewrite -mk_flip -(mk_flip d false) in A3. eapply wp_mono; [apply (rotate_spec _ _ _ _ _ _ _ _ _ _ A3)|]. intros r w4 [_ A4]. apply wp_ret.
      rewrite mk_flip (mk_flip d true) -focus_up in A4. eexists _, _. split_and!; [|exact A4|]; [by rewrite root_mk|]. right; right. split_and!; [done|done|]. by exists a, b.
Qed.

(** ** The red-black invariant

    [rbt n c t]: every path of [t] has [n] black nodes, no red node has a red child, the
    root is red as [c] says. *)
Inductive rbt : nat → bool → tree → Prop :=
| rbt_E : rbt 0 false E
| rbt_red n l x r : rbt n false l → rbt n false r → rbt n true (T true l x r)
| rbt_black n cl cr l x r : rbt n cl l → rbt n cr r → rbt (S n) false (T false l x r).
(** A context for a tree of black height [n]; [c] says that only a black root fits. *)
Inductive rctx : nat → bool → list frame → Prop :=
| rctx_top n : rctx n true []
| rctx_red n d x s k : rbt n false s → rctx n false k → rctx n true (Frame d true x s :: k)
| rctx_black n d x s cs ck k : rbt n cs s → rctx (S n) ck k → rctx n false (Frame d false x s :: k).
Lemma rctx_false n k : rctx n false k → ∃ d x s cs ck k', k = Frame d false x s :: k' ∧ rbt n cs s ∧ rctx (S n) ck k'.
Proof. inversion 1; subst. eauto 10. Qed.
Lemma rbt_redr n c t : rbt n c t → redr t = c.
Proof. by destruct 1. Qed.
Lemma rbt_mk n d c a x b : rbt n c (mk d c a x b) ↔
  match c with true => rbt n false a ∧ rbt n false b | false => ∃ m ca cb, n = S m ∧ rbt m ca a ∧ rbt m cb b end.
Proof.
  split.
  - intros H. destruct d; cbn in H; inversion H; subst; eauto 10.
  - destruct c; [intros [? ?]; destruct d; by constructor|]. intros (m & ca & cb & -> & ? & ?). destruct d; by econstructor.
Qed.
Lemma rbt_plug k : ∀ n c ct t, rctx n c k → rbt n ct t → (c = true → ct = false) → ∃ n', rbt n' false (plug k t).
Proof.
  induction k as [|[d cf x s] k IH]; intros n c ct t Hk Ht Hc; inversion Hk; subst; cbn.
  - rewrite Hc // in Ht. by exists n.
  - rewrite Hc // in Ht. eapply (IH n false true); [done| |done]. by apply (rbt_mk n d true).
  - eapply (IH (S n) ck false); [done| |done]. apply (rbt_mk (S n) d false). by exists n, ct, cs.
Qed.
(** And a subtree of a red-black tree has a context that fits it. *)
Lemma rbt_unplug k : ∀ n t, rbt n false (plug k t) → ∃ m c ct, rctx m c k ∧ rbt m ct t ∧ (c = true → ct = false).
Proof.
  induction k as [|[d cf x s] k IH]; intros n t Ht; cbn in Ht.
  - exists n, true, false. split_and!; [constructor|done|done].
  - destruct (IH n _ Ht) as (m & c & ct & Hk & Hm & Hc). pose proof (rbt_redr _ _ _ Hm) as Er. rewrite redr_mk in Er. subst cf.
    apply rbt_mk in Hm. destruct ct.
    + destruct Hm as [H1 H2]. destruct c; [by specialize (Hc eq_refl)|]. exists m, true, false. split_and!; [by constructor|done|done].
    + destruct Hm as (m' & ca & cb & -> & H1 & H2). exists m', false, ca. split_and!; [by econstructor|done|done].
Qed.

Definition blacken (t : tree) : tree := match t with E => E | T _ l x r => T false l x r end.
Lemma rbt_blacken n t : rbt n true t → rbt (S n) false (blacken t).
Proof. inversion 1; subst. by econstructor. Qed.
Lemma ids_blacken t : ids (blacken t) = ids t.
Proof. by destruct t. Qed.

(** ** [RB_INSERT_COLOR] *)
(** The climb ends with a tree whose root may be red. *)
Lemma insert_loop_spec fuel : ∀ w k t x n c, at_focus w k t → root t = Some x → rbt n true t → rctx n c k → (length k < fuel)%nat →
  wp (insert_color_loop fuel x) (λ _ w', ∃ t', holds w' t' ∧ (∃ m ct, rbt m ct t') ∧ ids t' = ids (plug k t)) w.
Proof.
  induction fuel as [|fuel IH]; intros w k t x n c A Ex Ht Hk Hf; [lia|]. cbn [insert_color_loop].
  destruct t as [|ct l x' r]; [done|]. injection Ex as ->. assert (ct = true) as -> by (by inversion Ht). pose proof (af_rep _ _ _ A) as (Hx & _).
  apply wp_bind. eapply (wp_parent _ Lft); [exact Hx|]. destruct Hk as [n|n d p s k Hs Hk|n d p s cs ck k Hs Hk]; cbn [top].
  - apply wp_ret. eexists. split_and!; [exact A|eauto|done].
  - destruct (rctx_false _ _ Hk) as (dg & g & u & cu & ck & k' & -> & Hu & Hk'). pose proof (af_ctx _ _ _ A) as (Hp & _ & Hg & _).
    apply wp_bind. eapply wp_color; [exact Hp|]. destruct (decide (col true = RB_RED)) as [_|[]]; [|done]. apply wp_bind. eapply wp_parent; [exact Hp|].
    apply wp_bind, wp_deref. exists g. split; [done|]. apply wp_bind. eapply wp_side; [exact Hg|]. rewrite side_test.
    { pose proof A as A'. rewrite focus_up in A'. apply not_eq_sym. eapply sibling_apart; [exact A'|apply root_mk]. }
    apply wp_bind. eapply wp_mono; [eapply insert_step_spec; [exact A|done|done]|].
    intros e w' (k2 & t2 & E2 & A2 & [(ul & y & ur & -> & -> & ->)|[(Eu & -> & -> & ->)|(Eu & -> & a & b & Et & -> & ->)]]).
    + assert (rbt (S n) true (mk dg true (mk d false (T true l x r) p s) g (T false ul y ur))) as Hnew.
      { apply (rbt_mk (S n) dg true). split; [apply (rbt_mk (S n) d false); by exists n, true, false|]. inversion Hu; subst. by econstructor. }
      eapply wp_mono; [eapply (IH w' k' _ e (S n) ck A2 E2 Hnew Hk'); cbn in Hf; lia|]. intros [] w3 (t3 & A3 & R3 & I3). exists t3. split_and!; [done|done|].
      rewrite I3. cbn [plug]. rewrite !ids_plug. f_equal. f_equal. destruct dg, d; done.
    + assert (rctx n false (Frame dg false p (mk dg true s g u) :: k')) as Hnew.
      { rewrite (rbt_redr _ _ _ Hu) in Eu. subst cu. econstructor; [|exact Hk']. by apply (rbt_mk n dg true). }
      eapply wp_mono; [eapply (IH w' _ _ e n false A2 E2 Ht Hnew); cbn in Hf |- *; lia|]. intros [] w3 (t3 & A3 & R3 & I3). exists t3. split_and!; [done|done|].
      rewrite I3. cbn [plug]. rewrite !ids_plug. f_equal. f_equal. destruct dg; cbn; by rewrite -?app_assoc /= -?app_assoc.
    + rewrite (rbt_redr _ _ _ Hu) in Eu. subst cu. rewrite Et in Ht |- *. apply rbt_mk in Ht as [Ra Rb].
      assert (rctx n false (Frame dg false x (mk dg true b g u) :: k')) as Hnew by (econstructor; [by apply (rbt_mk n dg true)|exact Hk']).
      assert (rbt n true (mk dg true s p a)) as Hnt by by apply (rbt_mk n dg true).
      eapply wp_mono; [eapply (IH w' _ _ e n false A2 E2 Hnt Hnew); cbn in Hf |- *; lia|]. intros [] w3 (t3 & A3 & R3 & I3). exists t3. split_and!; [done|done|].
      rewrite I3. cbn [plug]. rewrite !ids_plug. f_equal. f_equal. destruct dg; cbn; by rewrite -?app_assoc /= -?app_assoc /= -?app_assoc.
  - pose proof (af_ctx _ _ _ A) as (Hp & _). apply wp_bind. eapply wp_color; [exact Hp|]. destruct (decide (col false = RB_RED)) as [|_]; [done|].
    apply wp_ret. destruct (rbt_plug (Frame d false p s :: k) n false true (T true l x r)) as [m Hm]; [by econstructor|done|done|].
    exists (plug (Frame d false p s :: k) (T true l x r)). split_and!; [by rewrite -focus_plug|eauto|done].
Qed.

Lemma insert_color_spec fuel w k t x n c : at_focus w k t → root t = Some x → rbt n true t → rctx n c k → (length k < fuel)%nat →
  wp (RB_INSERT_COLOR fuel x) (λ _ w', ∃ t' m, holds w' t' ∧ rbt m false t' ∧ ids t' = ids (plug k t)) w.
Proof.
  intros A Ex Ht Hk Hf. unfold RB_INSERT_COLOR. apply wp_bind. eapply wp_mono; [by eapply insert_loop_spec|].
  intros [] w1 (t1 & A1 & (m & ct & R1) & I1). pose proof (af_ctx _ _ _ A1) as Hr. cbn in Hr.
  destruct t1 as [|c1 l1 x1 r1].
  { exfalso. symmetry in I1. rewrite ids_plug in I1. apply app_eq_nil in I1 as [_ [I1 _]%app_eq_nil]. destruct t; [done|]. cbn in I1. by apply app_eq_nil in I1 as [_ ?]. }
  apply wp_bind, wp_gets. apply wp_bind, wp_deref. exists x1. split; [done|].
  change RB_BLACK with (col false). eapply (color_spec w1 [] Lft c1 false l1 x1 r1); [exact A1|]. intros w2 A2.
  exists (T false l1 x1 r1). destruct ct.
  - exists (S m). split_and!; [exact A2|apply (rbt_blacken _ _ R1)|by rewrite -I1].
  - assert (c1 = false) as -> by (by inversion R1). exists m. split_and!; [exact A2|exact R1|by rewrite -I1].
Qed.

(** ** Searching *)
Lemma list_filter_all {A} (P : A → Prop) `{!∀ x, Decision (P x)} (l : list A) : (∀ x, x ∈ l → P x) → filter P l = l.
Proof. induction l as [|x l IH]; intros Hl; [done|]. rewrite filter_cons_True; [apply Hl; left|]. f_equal. apply IH. intros y Hy. apply Hl. by right. Qed.
Lemma list_filter_none {A} (P : A → Prop) `{!∀ x, Decision (P x)} (l : list A) : (∀ x, x ∈ l → ¬ P x) → filter P l = [].
Proof. induction l as [|x l IH]; intros Hl; [done|]. rewrite filter_cons_False; [apply Hl; left|]. apply IH. intros y Hy. apply Hl. by right. Qed.
Fixpoint height (t : tree) : nat := match t with E => 0 | T _ l _ r => S (height l `max` height r) end.
Lemma height_plug k : ∀ t, (height t + length k ≤ height (plug k t))%nat.
Proof.
  induction k as [|[d c x s] k IH]; intros t; cbn; [lia|]. specialize (IH (mk d c t x s)).
  assert (S (height t) ≤ height (mk d c t x s))%nat by (destruct d; cbn; lia). lia.
Qed.

Section search.
Context (key : nat → Z).
Definition sorted (l : list nat) : Prop := StronglySorted (λ a b, key a < key b) l.

Lemma sorted_app l1 l2 : sorted (l1 ++ l2) ↔ sorted l1 ∧ sorted l2 ∧ ∀ a b, a ∈ l1 → b ∈ l2 → key a < key b.
Proof.
  unfold sorted. induction l1 as [|x l1 IH]; cbn.
  - split; [intros H; split_and!; [constructor|done|set_solver]|tauto].
  - split.
    + intros [H1 H2]%StronglySorted_inv. apply IH in H1 as (S1 & S2 & S3). apply Forall_app in H2 as [F1 F2]. rewrite Forall_forall in F2.
      split_and!; [by constructor|done|]. intros a b [->|Ha]%elem_of_cons Hb; [by apply F2|by apply S3].
    + intros ([S1 F1]%StronglySorted_inv & S2 & S3). constructor; [apply IH; split_and!; [done|done|set_solver]|].
      apply Forall_app. split; [done|]. apply Forall_forall. intros b Hb. apply S3; [left|done].
Qed.
Lemma sorted_nodup l : sorted l → NoDup l.
Proof.
  induction l as [|x l IH]; [constructor|]. intros [H1 H2]%StronglySorted_inv. constructor; [|by apply IH].
  intros Hx. rewrite Forall_forall in H2. specialize (H2 x Hx). lia.
Qed.

(** The place of [elm] in the whole tree is under the hole of [k]. *)
Record place (elm : nat) (k : list frame) : Prop := {
  pl_before : ∀ y, y ∈ before k → key y < key elm;
  pl_after : ∀ y, y ∈ after k → key elm < key y;
}.
Lemma place_top elm : place elm [].
Proof. split; intros y Hy; by apply not_elem_of_nil in Hy. Qed.
Lemma place_down elm d c x s k : place elm k → sorted (ids (mk d c E x s)) →
  match d with Lft => key elm < key x | Rgt => key x < key elm end → place elm (Frame d c x s :: k).
Proof.
  intros [Pb Pa] Hs Hx. destruct d; cbn in *.
  - apply StronglySorted_inv in Hs as [_ F]. rewrite Forall_forall in F. split; [done|]. intros y [->|[Hy|Hy]%elem_of_app]%elem_of_cons; [done| |by apply Pa].
    specialize (F y Hy). cbn in F. lia.
  - apply sorted_app in Hs as (_ & _ & F). split; [|done]. intros y [Hy|[Hy| ->%list_elem_of_singleton]%elem_of_app]%elem_of_app; [by apply Pb| |done].
    specialize (F y x Hy ltac:(left)). lia.
Qed.
Lemma sorted_focus k t : sorted (ids (plug k t)) → sorted (ids t).
Proof. rewrite ids_plug !sorted_app. tauto. Qed.
Lemma sorted_frame d c a x s : sorted (ids (mk d c a x s)) → sorted (ids (mk d c E x s)).
Proof.
  destruct d; cbn; rewrite !sorted_app; cbn; [tauto|]. intros (H1 & H2 & H3). split_and!; [done|repeat constructor|].
  intros p q Hp Hq. apply H3; [done|]. set_solver.
Qed.
(** The elements below, above and at the key of [e]. *)
Definition lower (e : nat) (l : list nat) : list nat := filter (λ y, key y < key e) l.
Definition upper (e : nat) (l : list nat) : list nat := filter (λ y, key e < key y) l.
Definition same (e : nat) (l : list nat) : list nat := filter (λ y, key y = key e) l.
Lemma apart_split e l1 l2 : (∀ y, y ∈ l1 → key y < key e) → (∀ y, y ∈ l2 → key e < key y) →
  lower e (l1 ++ l2) = l1 ∧ upper e (l1 ++ l2) = l2 ∧ same e (l1 ++ l2) = [].
Proof.
  intros Pb Pa. unfold lower, upper, same. rewrite !filter_app. split_and!.
  - rewrite list_filter_all; [done|]. rewrite list_filter_none; [intros y Hy%Pa; lia|]. by rewrite app_nil_r.
  - rewrite list_filter_none; [intros y Hy%Pb; lia|]. by rewrite list_filter_all.
  - rewrite list_filter_none; [intros y Hy%Pb; lia|]. rewrite list_filter_none; [intros y Hy%Pa; lia|]. done.
Qed.
Lemma place_split elm k : place elm k → lower elm (kids k) = before k ∧ upper elm (kids k) = after k ∧ same elm (kids k) = [].
Proof. intros [Pb Pa]. by apply apart_split. Qed.
Lemma same_elem e z l : sorted l → z ∈ l → key z = key e → same e l = [z].
Proof.
  intros Hs (l1 & l2 & ->)%list_elem_of_split Ke. apply sorted_app in Hs as (_ & [_ F]%StronglySorted_inv & H12). rewrite Forall_forall in F.
  unfold same. rewrite filter_app filter_cons_True //. rewrite list_filter_none; [intros y Hy; specialize (H12 y z Hy ltac:(left)); lia|].
  rewrite list_filter_none; [intros y Hy%F; lia|]. done.
Qed.

Context (cmp : nat → nat → Z).
(** [cmp] compares keys. *)
Definition compares : Prop := ∀ x y, (cmp x y < 0 ↔ key x < key y) ∧ (0 < cmp x y ↔ key y < key x).
Context (Hcmp : compares).
(** Which way to go. *)
Lemma go_left elm c l x r k : cmp elm x < 0 → place elm k → sorted (ids (plug k (T c l x r))) → place elm (Frame Lft c x r :: k).
Proof. intros H P S%sorted_focus. apply (place_down elm Lft c x r k P (sorted_frame Lft c l x r S)). by apply (proj1 (Hcmp elm x)). Qed.
Lemma go_right elm c l x r k : 0 < cmp elm x → place elm k → sorted (ids (plug k (T c l x r))) → place elm (Frame Rgt c x l :: k).
Proof. intros H P S%sorted_focus. apply (place_down elm Rgt c x l k P (sorted_frame Rgt c r x l S)). by apply (proj2 (Hcmp elm x)). Qed.
Lemma go_stay elm x : ¬ cmp elm x < 0 → ¬ 0 < cmp elm x → key elm = key x.
Proof. intros H1 H2. destruct (Hcmp elm x) as [C1 C2]. rewrite C1 in H1. rewrite C2 in H2. lia. Qed.

Lemma insert_search_spec fuel elm : ∀ w k t comp, at_focus w k t → sorted (ids (plug k t)) → place elm k → (height t ≤ fuel)%nat →
  match k with [] => True | Frame d _ _ _ :: _ => match d with Lft => comp < 0 | Rgt => 0 < comp end end →
  wp (insert_search cmp fuel elm (root t) (top k) comp) (λ r w', w' = w ∧ match r with
    | inl y => ∃ z, y = Some z ∧ z ∈ ids (plug k t) ∧ key z = key elm
    | inr (parent, comp') => ∃ k', at_focus w k' E ∧ plug k' E = plug k t ∧ parent = top k' ∧ place elm k' ∧
        match k' with [] => True | Frame d _ _ _ :: _ => match d with Lft => comp' < 0 | Rgt => 0 < comp' end end
    end) w.
Proof.
  induction fuel as [|fuel IH]; intros w k t comp A Hs P Hh Hd; destruct t as [|c l x r].
  1,3: cbn [insert_search root]; apply wp_ret; split; [done|]; exists k; exact (conj A (conj eq_refl (conj eq_refl (conj P Hd)))).
  { cbn in Hh. lia. }
  cbn [insert_search root]. pose proof (af_rep _ _ _ A) as (Hx & _). cbn in Hh. destruct (decide (cmp elm x < 0)) as [C1|C1].
  - apply wp_bind. eapply wp_left; [exact Hx|]. eapply wp_mono; [apply (IH w (Frame Lft c x r :: k) l (cmp elm x))|].
    + by rewrite focus_up.
    + done.
    + by eapply go_left.
    + lia.
    + done.
    + done.
  - destruct (decide (0 < cmp elm x)) as [C2|C2].
    + apply wp_bind. eapply wp_right; [exact Hx|]. eapply wp_mono; [apply (IH w (Frame Rgt c x l :: k) r (cmp elm x))|].
      * by rewrite focus_up.
      * done.
      * by eapply go_right.
      * lia.
      * done.
      * done.
    + apply wp_ret. split; [done|]. exists x. split_and!; [done|rewrite ids_plug; set_solver|]. symmetry. by apply go_stay.
Qed.

(** Put a red leaf at the hole. *)
Lemma link_spec w k elm comp : at_focus w k E → elm ∉ kids k → is_Some (rbm w !! elm) →
  match k with [] => True | Frame d _ _ _ :: _ => match d with Lft => comp < 0 | Rgt => 0 < comp end end →
  wp (RB_SET elm (top k);;
      match top k with
      | Some p => if decide (comp < 0) then upd_entry p (put_left (Some elm)) else upd_entry p (put_right (Some elm))
      | None => set_root (Some elm)
      end) (λ _ w', at_focus w' k (T true E elm E)) w.
Proof.
  intros A He [e Hin] Hd. destruct (focus_apart _ _ _ A) as (_ & Nk & _). apply wp_bind.
  assert (wp (RB_SET elm (top k)) (λ _ w', w' = RbW (rbh_root w) (<[elm := RbEntry None None (top k) RB_RED]> (rbm w))) w) as Hset.
  { unfold RB_SET. do 3 (apply wp_bind; eapply wp_upd_entry; [first [exact Hin|apply lookup_insert_eq]|]). eapply wp_upd_entry; [apply lookup_insert_eq|].
    cbn. by rewrite !insert_insert_eq. }
  eapply wp_mono; [exact Hset|]. intros [] w1 ->. set (w1 := RbW _ _).
  assert (rep_ctx w1 k None) as C1. { eapply rep_ctx_ext; [| |apply A]; [done|]. intros z Hz. cbn. apply lookup_insert_ne. set_solver. }
  assert (∀ w', rep_ctx w' k (Some elm) → rbm w' !! elm = rbm w1 !! elm → at_focus w' k (T true E elm E)) as Hend.
  { intros w' C' M'. split; [done|cbn; rewrite M'; split_and!; [apply lookup_insert_eq|done|done]|].
    rewrite ids_plug. cbn. rewrite -Permutation_middle. constructor; [exact He|exact Nk]. }
  destruct k as [|[d c y s] k]; cbn [top].
  { apply wp_modify. by apply Hend. }
  assert (elm ≠ y) as Ny by (rewrite elem_of_kids in He; tauto).
  assert (wp (upd_entry y (put_child d (Some elm))) (λ _ w', at_focus w' (Frame d c y s :: k) (T true E elm E)) w1) as Hput.
  { eapply put_hole; [exact C1|exact Nk|]. intros w2 C2 M2. apply Hend; [exact C2|by apply M2]. }
  destruct d; (case_decide; [try lia|try lia]); exact Hput.
Qed.

Lemma RB_INSERT_spec fuel elm w t n : holds w t → rbt n false t → sorted (ids t) → is_Some (rbm w !! elm) → (height t < fuel)%nat →
  wp (RB_INSERT cmp fuel elm) (λ r w', r = head (same elm (ids t)) ∧
    match r with
    | Some _ => w' = w
    | None => ∃ t' n', holds w' t' ∧ rbt n' false t' ∧ ids t' = lower elm (ids t) ++ elm :: upper elm (ids t)
    end) w.
Proof.
  intros A Ht Hs He Hf. unfold RB_INSERT. apply wp_bind, wp_gets. pose proof (af_ctx _ _ _ A) as Hroot. cbn in Hroot. rewrite Hroot. apply wp_bind.
  eapply wp_mono; [eapply (insert_search_spec fuel elm w [] t 0); [done|done|apply place_top|lia|done]|].
  intros s w1 [-> Hres]. destruct s as [y|[parent comp]].
  - destruct Hres as (z & -> & Hz & Kz). apply wp_ret. split; [|done]. by rewrite (same_elem elm z).
  - destruct Hres as (k & Ak & Ek & -> & Pk & Dk). cbn in Ek. subst t. rewrite ids_plug in Hs |- *. cbn in Hs |- *.
    fold (kids k) in Hs |- *. destruct (place_split _ _ Pk) as (-> & -> & ->).
    assert (elm ∉ kids k) as Nk. { intros [H|H]%elem_of_app; [apply Pk in H|apply Pk in H]; lia. }
    destruct (rbt_unplug _ _ _ Ht) as (m & c & ct & Hk & HE & _). inversion HE; subst.
    pose proof (link_spec w k elm comp Ak Nk He Dk) as Hl. rewrite wp_bind in Hl.
    apply wp_bind. eapply wp_mono; [exact Hl|]. intros [] w1 W1.
    apply wp_bind. eapply wp_mono; [exact W1|]. intros [] w2 A2. apply wp_bind. pose proof (height_plug k E) as Hh. cbn in Hh.
    eapply wp_mono; [eapply (insert_color_spec fuel w2 k _ elm 0 c A2); [done|by repeat constructor|done|lia]|].
    intros [] w3 (t' & n' & A3 & R3 & I3). apply wp_ret. split; [done|]. exists t', n'. split_and!; [done|done|]. rewrite I3 ids_plug. done.
Qed.
End search.
