(* ===== verification/TreeFind.v ===== *)
(** * Red-black trees: lookup and iteration

    The searches and walks of [sys/tree.h] against the in-order list of the elements.
    They leave the memory as it is. *)

From Stdlib Require Import Sorted.
From S2P Require Import Prelude Tree TreeRep TreeInsert.

(** ** Walking *)
(** The elements of a tree, and those beyond the hole of a context, in the direction [d]. *)
Definition inorder (d : side) (t : tree) : list nat := match d with Rgt => ids t | Lft => reverse (ids t) end.
Definition ahead (d : side) (k : list frame) : list nat := match d with Rgt => after k | Lft => reverse (before k) end.
Lemma inorder_mk d c a x b : inorder d (mk (flip d) c a x b) = inorder d a ++ x :: inorder d b.
Proof. destruct d; [|done]. cbn [inorder flip mk ids]. by rewrite reverse_app reverse_cons -app_assoc. Qed.
Lemma ahead_same d c x s k : ahead d (Frame d c x s :: k) = ahead d k.
Proof. by destruct d. Qed.
Lemma ahead_flip d c x s k : ahead d (Frame (flip d) c x s :: k) = x :: inorder d s ++ ahead d k.
Proof. destruct d; [|done]. cbn [inorder ahead flip before]. by rewrite !reverse_app reverse_singleton -app_assoc. Qed.

Lemma descend_spec d fuel : ∀ w p t x, rep (rbm w) p t → root t = Some x → (height t ≤ fuel)%nat →
  wp (rb_descend (flip d) fuel x) (λ r w', w' = w ∧ head (inorder d t) = Some r) w.
Proof.
  induction fuel as [|fuel IH]; intros w p t x Hr Ex Hh; destruct (tree_mk (flip d) t) as [->|(c & a & x' & b & ->)]; try done; rewrite root_mk in Ex; injection Ex as ->.
  { destruct d; cbn in Hh; lia. }
  cbn [rb_descend]. apply rep_mk in Hr as (Hx & Ha & Hb). apply wp_bind. eapply wp_child; [exact Hx|]. rewrite inorder_mk.
  destruct (root a) as [y|] eqn:Ey.
  - eapply wp_mono; [eapply (IH w (Some x) a); [done|done|destruct d; cbn in Hh; lia]|]. intros r w' [-> Hd]. split; [done|]. by destruct (inorder d a).
  - apply wp_ret. split; [done|]. destruct a; [|done]. by destruct d.
Qed.
Lemma climb_spec d fuel : ∀ w k t x, at_focus w k t → root t = Some x → (length k < fuel)%nat →
  wp (rb_climb d fuel x) (λ r w', w' = w ∧ r = head (ahead d k)) w.
Proof.
  induction fuel as [|fuel IH]; intros w k t x A Ex Hf; [lia|]. cbn [rb_climb].
  destruct t as [|c l x' r]; [done|]. injection Ex as ->. pose proof (af_rep _ _ _ A) as (Hx & _).
  apply wp_bind. eapply (wp_parent _ Lft); [exact Hx|]. destruct k as [|[df cf q s] k]; cbn [top].
  { apply wp_ret. by destruct d. }
  pose proof (af_ctx _ _ _ A) as (Hq & _). cbn [root] in Hq. apply wp_bind. destruct (decide (df = d)) as [->|Hd].
  - eapply wp_child; [exact Hq|]. destruct (decide (Some x = Some x)) as [_|[]]; [|done]. rewrite focus_up in A.
    eapply wp_mono; [eapply (IH w k _ q A); [apply root_mk|cbn in Hf; lia]|]. intros r0 w' [-> ->]. by rewrite ahead_same.
  - assert (df = flip d) as -> by (by destruct df, d). rewrite entry_flip in Hq. eapply wp_child; [exact Hq|]. destruct (decide (root s = Some x)) as [Es|_].
    { exfalso. eapply sibling_apart; [exact A|done|exact Es]. }
    apply wp_ret. by rewrite ahead_flip.
Qed.
Lemma rb_step_spec d fuel w k c a x b : at_focus w k (mk d c a x b) → (height (plug k (mk d c a x b)) < fuel)%nat →
  wp (rb_step d fuel x) (λ r w', w' = w ∧ r = head (inorder d a ++ ahead d k)) w.
Proof.
  intros A Hf. pose proof (height_plug k (mk d c a x b)) as Hh. pose proof (af_rep _ _ _ A) as (Hx & Ha & _)%rep_mk.
  assert (height a ≤ height (mk d c a x b))%nat as Hha by (destruct d; cbn; lia).
  unfold rb_step. apply wp_bind. eapply wp_child; [exact Hx|]. destruct (root a) as [y|] eqn:Ey.
  - apply wp_bind. eapply wp_mono; [eapply descend_spec; [exact Ha|done|lia]|]. intros r w' [-> Hd]. apply wp_ret. split; [done|]. by destruct (inorder d a).
  - destruct a; [|done]. assert (inorder d E = []) as -> by (by destruct d). cbn [app].
    assert (wp (rb_climb d fuel x) (λ r w', w' = w ∧ r = head (ahead d k)) w) as Hcl by (eapply climb_spec; [exact A|apply root_mk|lia]).
    apply wp_bind. eapply wp_parent; [exact Hx|]. destruct k as [|[df cf q s] k]; cbn [top]; [exact Hcl|].
    pose proof (af_ctx _ _ _ A) as (Hq & _). rewrite root_mk in Hq. apply wp_bind. destruct (decide (df = d)) as [->|Hd].
    + eapply wp_child_flip; [exact Hq|]. destruct (decide (root s = Some x)) as [Es|_]; [|exact Hcl].
      exfalso. eapply sibling_apart; [exact A|apply root_mk|exact Es].
    + assert (df = flip d) as -> by (by destruct df, d). eapply wp_child; [exact Hq|]. destruct (decide (Some x = Some x)) as [_|[]]; [|done].
      apply wp_ret. by rewrite ahead_flip.
Qed.

(** Every element of a tree can be stood at. *)
Lemma focus_elem t : ∀ x, x ∈ ids t → ∃ k c l r, t = plug k (T c l x r).
Proof.
  assert (∀ k0 x, x ∈ ids t → ∃ k c l r, plug k0 t = plug k (T c l x r)) as H; [|by apply (H [])].
  induction t as [|c l IHl y r IHr]; intros k0 x Hx; cbn in Hx; [by apply not_elem_of_nil in Hx|].
  apply elem_of_app in Hx as [Hx|[->|Hx]%elem_of_cons]; [apply (IHl (Frame Lft c y r :: k0) x Hx)|by exists k0, c, l, r|apply (IHr (Frame Rgt c y l :: k0) x Hx)].
Qed.
Lemma nodup_split (l1 l2 l1' l2' : list nat) x : NoDup (l1 ++ x :: l2) → l1 ++ x :: l2 = l1' ++ x :: l2' → l1 = l1' ∧ l2 = l2'.
Proof.
  revert l1'. induction l1 as [|y l1 IH]; intros [|y' l1'] Hn He; cbn in *.
  - by injection He.
  - injection He as <- ->. apply NoDup_cons in Hn as [Hn _]. set_solver.
  - injection He as -> <-. apply NoDup_cons in Hn as [Hn _]. set_solver.
  - injection He as -> He. apply NoDup_cons in Hn as [_ Hn]. by destruct (IH l1' Hn He) as [-> ->].
Qed.
(** The element after, or before, an element of the list. *)
Definition neighbour (d : side) (l1 l2 : list nat) : option nat := match d with Rgt => head l2 | Lft => last l1 end.
Lemma step_spec d fuel w t l1 x l2 : holds w t → ids t = l1 ++ x :: l2 → (height t < fuel)%nat →
  wp (rb_step d fuel x) (λ r w', w' = w ∧ r = neighbour d l1 l2) w.
Proof.
  intros A Hi Hf. destruct (focus_elem t x) as (k & c & l & r & ->); [rewrite Hi; set_solver|].
  pose proof (af_nodup _ _ _ A) as Hn. cbn [plug] in Hn. rewrite ids_plug /= in Hi, Hn. rewrite -!app_assoc /= (assoc_L (++)) in Hi, Hn.
  destruct (nodup_split _ _ _ _ _ Hn Hi) as [<- <-]. rewrite -focus_plug in A.
  destruct d; [change (T c l x r) with (mk Lft c l x r) in *|change (T c l x r) with (mk Rgt c r x l) in *]; (eapply wp_mono; [eapply rb_step_spec; [exact A|exact Hf]|]); intros o w' [-> ->]; (split; [done|]); cbn; [|done].
  rewrite -reverse_app. by rewrite -head_reverse.
Qed.

(** ** The ends *)
Lemma minmax_spec fuel val : ∀ w p t parent, rep (rbm w) p t → (height t ≤ fuel)%nat →
  wp (minmax_loop fuel val (root t) parent) (λ r w', w' = w ∧
    r = match (if decide (val < 0) then head (ids t) else last (ids t)) with Some x => Some x | None => parent end) w.
Proof.
  induction fuel as [|fuel IH]; intros w p t parent Hr Hh; (destruct t as [|c l x r]; [cbn; apply wp_ret; by case_decide|]); cbn in Hh; [lia|].
  cbn [minmax_loop root]. destruct Hr as (Hx & Hl & Hr). apply wp_bind. case_decide.
  - eapply wp_left; [exact Hx|]. eapply wp_mono; [eapply (IH w _ l); [done|lia]|]. intros o w' [-> ->]. split; [done|]. cbn. by destruct (ids l).
  - eapply wp_right; [exact Hx|]. eapply wp_mono; [eapply (IH w _ r); [done|lia]|]. intros o w' [-> ->]. split; [done|]. cbn.
    rewrite last_app last_cons. by destruct (last (ids r)).
Qed.
Lemma RB_MIN_spec fuel w t : holds w t → (height t ≤ fuel)%nat → wp (RB_MIN fuel) (λ r w', w' = w ∧ r = head (ids t)) w.
Proof.
  intros A Hh. unfold RB_MIN, RB_MINMAX. apply wp_bind, wp_gets. pose proof (af_ctx _ _ _ A) as Hr. cbn in Hr. rewrite Hr.
  eapply wp_mono; [eapply minmax_spec; [apply A|done]|]. intros r w' [-> ->]. split; [done|]. cbn. by destruct (head (ids t)).
Qed.
Lemma RB_MAX_spec fuel w t : holds w t → (height t ≤ fuel)%nat → wp (RB_MAX fuel) (λ r w', w' = w ∧ r = last (ids t)) w.
Proof.
  intros A Hh. unfold RB_MAX, RB_MINMAX. apply wp_bind, wp_gets. pose proof (af_ctx _ _ _ A) as Hr. cbn in Hr. rewrite Hr.
  eapply wp_mono; [eapply minmax_spec; [apply A|done]|]. intros r w' [-> ->]. split; [done|]. cbn. by destruct (last (ids t)).
Qed.

(** ** Loops over the elements *)
Lemma foreach_up fuel w t : holds w t → (height t < fuel)%nat → ∀ l2 n l1, ids t = l1 ++ l2 → (length l2 ≤ n)%nat →
  wp (foreach_loop Rgt fuel n (head l2)) (λ r w', w' = w ∧ r = l2) w.
Proof.
  intros A Hf. induction l2 as [|x l2 IH]; intros n l1 Hi Hn; [destruct n; by apply wp_ret|]. destruct n as [|n]; [cbn in Hn; lia|]. cbn [foreach_loop head].
  apply wp_bind. eapply wp_mono; [by eapply (step_spec Rgt)|]. intros y w' [-> ->]. apply wp_bind. cbn [neighbour].
  eapply wp_mono; [eapply (IH n (l1 ++ [x])); [by rewrite -app_assoc|cbn in Hn; lia]|]. intros r w' [-> ->]. by apply wp_ret.
Qed.
Lemma foreach_down fuel w t : holds w t → (height t < fuel)%nat → ∀ l1 n l2, ids t = reverse l1 ++ l2 → (length l1 ≤ n)%nat →
  wp (foreach_loop Lft fuel n (head l1)) (λ r w', w' = w ∧ r = l1) w.
Proof.
  intros A Hf. induction l1 as [|x l1 IH]; intros n l2 Hi Hn; [destruct n; by apply wp_ret|]. destruct n as [|n]; [cbn in Hn; lia|]. cbn [foreach_loop head].
  rewrite reverse_cons -app_assoc in Hi. apply wp_bind. eapply wp_mono; [by eapply (step_spec Lft)|]. intros y w' [-> ->]. apply wp_bind. cbn [neighbour].
  rewrite -head_reverse reverse_involutive. eapply wp_mono; [eapply (IH n (x :: l2)); [done|cbn in Hn; lia]|]. intros r w' [-> ->]. by apply wp_ret.
Qed.
Lemma RB_FOREACH_spec fuel n w t : holds w t → (height t < fuel)%nat → (length (ids t) ≤ n)%nat →
  wp (RB_FOREACH fuel n) (λ r w', w' = w ∧ r = ids t) w.
Proof.
  intros A Hf Hn. unfold RB_FOREACH. apply wp_bind. eapply wp_mono; [eapply RB_MIN_spec; [exact A|lia]|]. intros x w' [-> ->].
  by apply (foreach_up fuel w t A Hf (ids t) n []).
Qed.
Lemma RB_FOREACH_REVERSE_spec fuel n w t : holds w t → (height t < fuel)%nat → (length (ids t) ≤ n)%nat →
  wp (RB_FOREACH_REVERSE fuel n) (λ r w', w' = w ∧ r = reverse (ids t)) w.
Proof.
  intros A Hf Hn. unfold RB_FOREACH_REVERSE. apply wp_bind. eapply wp_mono; [eapply RB_MAX_spec; [exact A|lia]|]. intros x w' [-> ->].
  rewrite -head_reverse. apply (foreach_down fuel w t A Hf (reverse (ids t)) n []); [by rewrite reverse_involutive app_nil_r|by rewrite length_reverse].
Qed.

(** ** Searching by key *)
Section search.
Context (cmp : nat → nat → Z) (key : nat → Z) (Hcmp : compares key cmp).

(** The elements whose key is not below that of [e]. *)
Definition least (e : nat) (l : list nat) : list nat := filter (λ y, key e ≤ key y) l.
Lemma place_same elm k t : place key elm k → same key elm (ids (plug k t)) = same key elm (ids t).
Proof.
  intros [Pb Pa]. unfold same. rewrite ids_plug !filter_app. rewrite list_filter_none; [intros y Hy%Pb; lia|].
  rewrite (list_filter_none _ (after k)); [intros y Hy%Pa; lia|]. by rewrite app_nil_r.
Qed.
Lemma place_least elm k t : place key elm k → least elm (ids (plug k t)) = least elm (ids t) ++ after k.
Proof.
  intros [Pb Pa]. unfold least. rewrite ids_plug !filter_app. rewrite list_filter_none; [intros y Hy%Pb; lia|].
  rewrite (list_filter_all _ (after k)); [intros y Hy%Pa; lia|]. done.
Qed.
Lemma rb_find_spec fuel elm : ∀ w k t, at_focus w k t → sorted key (ids (plug k t)) → place key elm k → (height t ≤ fuel)%nat →
  wp (rb_find cmp fuel elm (root t)) (λ r w', w' = w ∧ r = head (same key elm (ids (plug k t)))) w.
Proof.
  induction fuel as [|fuel IH]; intros w k t A Hs P Hh; destruct t as [|c l x r].
  1,3: cbn [rb_find root]; apply wp_ret; split; [done|]; by rewrite place_same.
  { cbn in Hh. lia. }
  cbn [rb_find root]. pose proof (af_rep _ _ _ A) as (Hx & _). cbn in Hh. destruct (decide (cmp elm x < 0)) as [C1|C1].
  - apply wp_bind. eapply wp_left; [exact Hx|]. apply (IH w (Frame Lft c x r :: k) l); [by rewrite focus_up|done|by eapply go_left|lia].
  - destruct (decide (0 < cmp elm x)) as [C2|C2].
    + apply wp_bind. eapply wp_right; [exact Hx|]. apply (IH w (Frame Rgt c x l :: k) r); [by rewrite focus_up|done|by eapply go_right|lia].
    + apply wp_ret. split; [done|]. rewrite (same_elem key elm x _ Hs) //; [rewrite ids_plug; set_solver|]. symmetry. by eapply go_stay.
Qed.
Lemma RB_FIND_spec fuel elm w t : holds w t → sorted key (ids t) → (height t ≤ fuel)%nat →
  wp (RB_FIND cmp fuel elm) (λ r w', w' = w ∧ r = head (same key elm (ids t))) w.
Proof.
  intros A Hs Hf. unfold RB_FIND. apply wp_bind, wp_gets. pose proof (af_ctx _ _ _ A) as Hr. cbn in Hr. rewrite Hr.
  apply (rb_find_spec fuel elm w [] t); [done|done|apply place_top|done].
Qed.
Lemma rb_nfind_spec fuel elm : ∀ w k t, at_focus w k t → sorted key (ids (plug k t)) → place key elm k → (height t ≤ fuel)%nat →
  wp (rb_nfind cmp fuel elm (root t) (head (after k))) (λ r w', w' = w ∧ r = head (least elm (ids (plug k t)))) w.
Proof.
  induction fuel as [|fuel IH]; intros w k t A Hs P Hh; destruct t as [|c l x r].
  1,3: cbn [rb_nfind root]; apply wp_ret; split; [done|]; by rewrite place_least.
  { cbn in Hh. lia. }
  cbn [rb_nfind root]. pose proof (af_rep _ _ _ A) as (Hx & _). cbn in Hh. destruct (decide (cmp elm x < 0)) as [C1|C1].
  - apply wp_bind. eapply wp_left; [exact Hx|]. apply (IH w (Frame Lft c x r :: k) l); [by rewrite focus_up|done|by eapply go_left|lia].
  - destruct (decide (0 < cmp elm x)) as [C2|C2].
    + apply wp_bind. eapply wp_right; [exact Hx|]. apply (IH w (Frame Rgt c x l :: k) r); [by rewrite focus_up|done|by eapply go_right|lia].
    + apply wp_ret. split; [done|]. rewrite place_least //. assert (key elm = key x) as Ek by by eapply go_stay.
      apply sorted_focus in Hs. cbn [ids] in Hs |- *. apply sorted_app in Hs as (_ & _ & Hl). unfold least. rewrite filter_app.
      rewrite list_filter_none; [intros y Hy; specialize (Hl y x Hy ltac:(left)); lia|]. rewrite filter_cons_True; [lia|]. done.
Qed.
Lemma RB_NFIND_spec fuel elm w t : holds w t → sorted key (ids t) → (height t ≤ fuel)%nat →
  wp (RB_NFIND cmp fuel elm) (λ r w', w' = w ∧ r = head (least elm (ids t))) w.
Proof.
  intros A Hs Hf. unfold RB_NFIND. apply wp_bind, wp_gets. pose proof (af_ctx _ _ _ A) as Hr. cbn in Hr. rewrite Hr.
  apply (rb_nfind_spec fuel elm w [] t); [done|done|apply place_top|done].
Qed.
End search.

(** ** The height of a red-black tree *)
Lemma rbt_size n c t : rbt n c t → (2 ^ n ≤ S (length (ids t)))%nat.
Proof. induction 1; cbn -[Nat.pow]; rewrite ?length_app /= ?Nat.pow_succ_r'; simpl; lia. Qed.
Lemma rbt_height n c t : rbt n c t → (height t ≤ 2 * n + if c then 1 else 0)%nat.
Proof. induction 1; cbn; [lia|lia|]. destruct cl, cr; lia. Qed.
Lemma rbt_log n t : rbt n false t → (height t ≤ 2 * Nat.log2 (S (length (ids t))))%nat.
Proof.
  intros H. pose proof (rbt_height _ _ _ H) as Hh. cbn [Nat.add] in Hh. rewrite Nat.add_0_r in Hh. pose proof (rbt_size _ _ _ H) as Hs. apply Nat.log2_le_mono in Hs. rewrite Nat.log2_pow2 in Hs; [lia|lia].
Qed.
