(* ===== verification/TreeRemove.v ===== *)
(** * Red-black trees: removal *)

From S2P Require Import Prelude Tree TreeRep TreeInsert TreeFind.

(** ** Moving about *)
Lemma focus_far w k d c a x b : at_focus w (Frame (flip d) c x a :: k) b ↔ at_focus w k (mk d c a x b).
Proof. by rewrite focus_up mk_flip. Qed.
Lemma rbt_black_id n t : rbt n false t → blacken t = t.
Proof. inversion 1; done. Qed.
Lemma root_blacken t : root (blacken t) = root t.
Proof. by destruct t. Qed.
Lemma blacken_spec w k t (Q : unit → rbw → Prop) : at_focus w k t → (∀ w', at_focus w' k (blacken t) → Q tt w') →
  wp (match root t with Some e => upd_entry e (put_color RB_BLACK) | None => mret tt end) Q w.
Proof.
  intros A HQ. destruct t as [|c l x r]; cbn [root]; [apply wp_ret; by apply HQ|].
  apply (color_spec w k Lft c false l x r); [exact A|exact HQ].
Qed.

(** ** One turn of [RB_REMOVE_COLOR] *)
Lemma red_sibling_spec w k d t p a y b z : at_focus w k (mk d false t p (mk d true a y b)) → root a = Some z →
  wp (remove_red_sibling d p y) (λ r w', r = z ∧ at_focus w' (Frame d false y b :: k) (mk d true t p a)) w.
Proof.
  intros A Ea. unfold remove_red_sibling, RB_SET_BLACKRED. do 2 apply wp_bind. rewrite -focus_far in A.
  eapply (color_spec w _ d true false); [exact A|]. intros w1 A1. rewrite focus_far in A1.
  eapply (color_spec w1 k d false true); [exact A1|]. intros w2 A2. apply wp_bind.
  eapply wp_mono; [apply (rotate_spec _ _ _ _ _ _ _ _ _ _ A2)|]. intros r w3 [-> A3]. rewrite -focus_up in A3.
  pose proof (af_rep _ _ _ A3) as (Hp & _)%rep_mk. apply wp_bind. eapply wp_child_flip; [exact Hp|]. apply wp_deref. by exists z.
Qed.
Lemma near_red_spec w k d cf t p a1 z a2 y b : at_focus w k (mk d cf t p (mk d false (mk d true a1 z a2) y b)) →
  wp (remove_near_red d p y) (λ r w', r = z ∧ at_focus w' k (mk d cf t p (mk d false a1 z (mk d true a2 y b)))) w.
Proof.
  intros A. unfold remove_near_red. rewrite -focus_far in A. pose proof (af_rep _ _ _ A) as (Hy & _)%rep_mk. rewrite root_mk in Hy.
  apply wp_bind. eapply wp_child; [exact Hy|]. apply wp_bind. rewrite -focus_up in A.
  eapply (color_spec w _ d true false); [exact A|]. intros w1 A1. rewrite focus_up in A1. apply wp_bind.
  eapply (color_spec w1 _ d false true); [exact A1|]. intros w2 A2. apply wp_bind. rewrite -(mk_flip d true) -(mk_flip d false) in A2.
  eapply wp_mono; [apply (rotate_spec _ _ _ _ _ _ _ _ _ _ A2)|]. intros r w3 [-> A3]. rewrite !mk_flip focus_far in A3.
  pose proof (af_rep _ _ _ A3) as (Hp & _)%rep_mk. apply wp_bind. eapply wp_child_flip; [exact Hp|]. apply wp_deref. exists z. by rewrite root_mk.
Qed.
Lemma far_red_spec w k d cf t p a y b : at_focus w k (mk d cf t p (mk d false a y b)) →
  wp (remove_far_red d p y) (λ _ w', at_focus w' k (mk d cf (mk d false t p a) y (blacken b))) w.
Proof.
  intros A. unfold remove_far_red. pose proof (af_rep _ _ _ A) as (Hp & _)%rep_mk. apply wp_bind. eapply wp_color; [exact Hp|].
  apply wp_bind. rewrite -focus_far in A. eapply (color_spec w _ d false cf); [exact A|]. intros w1 A1. rewrite focus_far in A1.
  apply wp_bind. eapply (color_spec w1 k d cf false); [exact A1|]. intros w2 A2. rewrite -focus_far in A2.
  pose proof (af_rep _ _ _ A2) as (Hy & _)%rep_mk. apply wp_bind. eapply wp_child_flip; [exact Hy|]. apply wp_bind. rewrite -focus_far in A2.
  eapply blacken_spec; [exact A2|]. intros w3 A3. rewrite !focus_far in A3. apply wp_bind.
  eapply wp_mono; [apply (rotate_spec _ _ _ _ _ _ _ _ _ _ A3)|]. intros r w4 [-> A4]. by apply wp_ret.
Qed.

(** A subtree that lost a black element: it has black height [n] where [S n] is due, or its
    root is red and only has to be coloured. *)
Definition deficit (n : nat) (t : tree) : Prop := rbt n false t ∨ (redr t = true ∧ rbt (S n) false (blacken t)).
Lemma blacken_mk d c a x b : blacken (mk d c a x b) = mk d false a x b.
Proof. by destruct d. Qed.
Lemma wp_lr d e a b p c (Q : option nat → rbw → Prop) w : rbm w !! e = Some (entry d a b p c) →
  Q (match d with Lft => b | Rgt => a end) w → wp (RB_RIGHT e) Q w.
Proof. intros He HQ. destruct d; (eapply wp_right; [exact He|exact HQ]). Qed.

(** The two ways a turn ends: one level up, or for good. *)
Definition turn_ends (k : list frame) (p : nat) (whole : list nat) (red : bool) (r : option (nat * option nat)) (w' : rbw) : Prop :=
  match r with
  | Some (e, par) => e = p ∧ par = top k ∧ ∃ t' n' c', at_focus w' k t' ∧ root t' = Some p ∧ deficit n' t' ∧ rctx (S n') c' k ∧
      ids (plug k t') = whole ∧ (red = true → redr t' = true)
  | None => ∃ t' m, holds w' t' ∧ rbt m false t' ∧ ids t' = whole
  end.
Lemma rbt_rotated n t ca a y b d cf k c p s : rbt n false t → rbt n ca a → rbt n true b → rctx (S n) c (Frame d cf p s :: k) →
  ∃ m, rbt m false (plug k (mk d cf (mk d false t p a) y (blacken b))).
Proof.
  intros Ht Ha Hb%rbt_blacken Hk.
  assert (rbt (S n) false (mk d false t p a)) as H1 by (apply (rbt_mk (S n) d false); by exists n, false, ca).
  inversion Hk; subst.
  - eapply (rbt_plug k (S n) false true); [done|by apply (rbt_mk (S n) d true)|done].
  - eapply (rbt_plug k (S (S n)) ck false); [done|apply (rbt_mk (S (S n)) d false); by exists (S n), false, false|done].
Qed.
Lemma far_red_ends w k d cf t p a y b n ca c s : at_focus w k (mk d cf t p (mk d false a y b)) → rbt n false t → rbt n ca a → rbt n true b →
  rctx (S n) c (Frame d cf p s :: k) →
  wp (remove_far_red d p y) (λ _ w', turn_ends k p (ids (plug k (mk d cf t p (mk d false a y b)))) (cf) None w') w.
Proof.
  intros A Ht Ha Hb Hk. eapply wp_mono; [by apply far_red_spec|]. intros [] w' A'. cbn [turn_ends].
  destruct (rbt_rotated n t ca a y b d cf k c p s Ht Ha Hb Hk) as [m Hm].
  exists (plug k (mk d cf (mk d false t p a) y (blacken b))), m. split_and!; [by rewrite -focus_plug|done|].
  rewrite !ids_plug. f_equal. f_equal. rewrite -ids_rotate. apply ids_mk_cong; [by apply ids_mk_cong|apply ids_blacken].
Qed.
Lemma rest_spec w k d cf t p a y b n ca cb c s : at_focus w k (mk d cf t p (mk d false a y b)) → rbt n false t → rbt n ca a → rbt n cb b →
  rctx (S n) c (Frame d cf p s :: k) →
  wp (remove_color_rest d p y) (turn_ends k p (ids (plug k (mk d cf t p (mk d false a y b)))) cf) w.
Proof.
  intros A Ht Ha Hb Hk. unfold remove_color_rest. pose proof (af_rep _ _ _ A) as (Hp & _ & (Hy & RA & RB)%rep_mk)%rep_mk. rewrite root_mk in Hp.
  apply wp_bind. eapply wp_side; [exact Hy|]. apply wp_bind.
  assert (∀ Q : bool → rbw → Prop, Q (negb match d with Lft => ca | Rgt => cb end) w → wp (null_or_black match d with Lft => root a | Rgt => root b end) Q w) as HL.
  { intros Q HQ. destruct d; (eapply wp_black; [done|]); by erewrite rbt_redr. }
  assert (∀ Q : bool → rbw → Prop, Q (negb match d with Lft => cb | Rgt => ca end) w → wp (null_or_black match d with Lft => root b | Rgt => root a end) Q w) as HR.
  { intros Q HQ. destruct d; (eapply wp_black; [done|]); by erewrite rbt_redr. }
  apply HL. apply wp_bind. eapply wp_lr; [exact Hy|]. apply wp_bind. apply HR. clear HL HR.
  assert (negb match d with Lft => ca | Rgt => cb end && negb match d with Lft => cb | Rgt => ca end = negb (ca || cb)) as -> by (by destruct d, ca, cb).
  destruct (ca || cb) eqn:Ec; cbn [negb].
  - apply wp_bind. eapply wp_child_flip; [exact Hy|]. apply wp_bind. eapply wp_black; [exact RB|]. rewrite (rbt_redr _ _ _ Hb). apply wp_bind. destruct cb; cbn [negb].
    + apply wp_ret, wp_bind. eapply wp_mono; [by eapply far_red_ends|]. intros [] w' Hw. by apply wp_ret.
    + destruct ca; [|done]. destruct (tree_mk d a) as [->|(ca & a1 & z & a2 & ->)]; [by inversion Ha|].
      assert (ca = true) as -> by (pose proof (rbt_redr _ _ _ Ha) as E'; by rewrite redr_mk in E'). apply rbt_mk in Ha as [Ha1 Ha2].
      eapply wp_mono; [by apply near_red_spec|]. intros r w1 [-> A1]. apply wp_bind.
      eapply wp_mono; [eapply (far_red_ends w1 k d cf t p a1 z (mk d true a2 y b) n false); [done|done|done|by apply (rbt_mk n d true)|done]|].
      intros [] w' Hw. apply wp_ret. cbn [turn_ends] in Hw |- *. destruct Hw as (t' & m & ? & ? & Hi). exists t', m. split_and!; [done|done|]. rewrite Hi.
      rewrite !ids_plug. f_equal. f_equal. apply ids_mk_cong; [done|]. rewrite -ids_rotate. by apply ids_mk_cong; [apply ids_mk_cong|].
  - apply orb_false_iff in Ec as [-> ->]. apply wp_bind. rewrite -focus_far in A. eapply (color_spec w _ d false true); [exact A|]. intros w1 A1. rewrite focus_far in A1.
    pose proof (af_rep _ _ _ A1) as (Hp1 & _)%rep_mk. apply wp_bind. eapply wp_parent; [exact Hp1|]. apply wp_ret. split_and!; [done|done|].
    assert (rbt n true (mk d true a y b)) as Hs by by apply (rbt_mk n d true).
    assert (ids (plug k (mk d cf t p (mk d true a y b))) = ids (plug k (mk d cf t p (mk d false a y b)))) as Hi.
    { rewrite !ids_plug. f_equal. f_equal. apply ids_mk_cong; [done|by apply ids_mk_cong]. }
    exists (mk d cf t p (mk d true a y b)). inversion Hk; subst.
    + exists n, false. split_and!; [done|apply root_mk| |done|done|by rewrite redr_mk]. right. rewrite redr_mk blacken_mk. split; [done|].
      apply (rbt_mk (S n) d false). by exists n, false, true.
    + exists (S n), ck. split_and!; [done|apply root_mk| |done|done|done]. left. apply (rbt_mk (S n) d false). by exists n, false, true.
Qed.
Lemma remove_step_spec w k d cf t p s n c : at_focus w (Frame d cf p s :: k) t → rbt n false t → rctx (S n) c (Frame d cf p s :: k) →
  wp (remove_color_step d p) (λ r w', ∃ k' red, turn_ends k' p (ids (plug (Frame d cf p s :: k) t)) red r w' ∧ (k' = k ∨ red = true)) w.
Proof.
  intros A Ht Hk. assert (∃ cs, rbt (S n) cs s ∧ (cf = true → cs = false)) as (cs & Hs & Hc) by (inversion Hk; subst; (eexists; split; [eassumption|done])).
  rewrite focus_up in A. cbn [plug]. destruct (tree_mk d s) as [->|(cs' & a & y & b & ->)]; [by inversion Hs|].
  assert (cs' = cs) as -> by (pose proof (rbt_redr _ _ _ Hs) as E'; by rewrite redr_mk in E').
  pose proof (af_rep _ _ _ A) as (Hp & _ & (Hy & _)%rep_mk)%rep_mk. rewrite root_mk in Hp. unfold remove_color_step.
  apply wp_bind. eapply wp_child_flip; [exact Hp|]. apply wp_bind, wp_deref. exists y. split; [done|]. apply wp_bind. eapply wp_color; [exact Hy|].
  apply wp_bind. apply rbt_mk in Hs. destruct cs.
  - destruct Hs as [Ha Hb]. destruct cf; [by specialize (Hc eq_refl)|]. destruct (tree_mk d a) as [->|(ca & a1 & z & a2 & ->)]; [by inversion Ha|].
    assert (ca = false) as -> by (pose proof (rbt_redr _ _ _ Ha) as E'; by rewrite redr_mk in E').
    destruct (decide (col true = RB_RED)) as [_|[]]; [|done].
    eapply wp_mono; [eapply red_sibling_spec; [exact A|apply root_mk]|]. intros r w1 [-> A1].
    assert (rctx (S n) true (Frame d true p (mk d false a1 z a2) :: Frame d false y b :: k)) as Hk1.
    { constructor; [done|]. inversion Hk; subst. by econstructor. }
    pose proof Ha as (m & c1 & c2 & [= <-] & H1 & H2)%rbt_mk.
    eapply wp_mono; [by eapply (rest_spec w1 _ d true t p a1 z a2 n)|]. intros r w2 Hw. exists (Frame d false y b :: k), true. split; [|by right].
    cbn [plug] in Hw. replace (ids (plug k _)) with (ids (plug k (mk d false (mk d true t p (mk d false a1 z a2)) y b))); [done|].
    rewrite !ids_plug. f_equal. f_equal. rewrite ids_rotate. by apply ids_mk_cong; [|apply ids_mk_cong].
  - destruct Hs as (m & c1 & c2 & [= <-] & H1 & H2). destruct (decide (col false = RB_RED)) as [|_]; [done|]. apply wp_ret.
    eapply wp_mono; [by eapply rest_spec|]. intros r w2 Hw. exists k, cf. split; [done|by left].
Qed.

(** ** [RB_REMOVE_COLOR] *)
Lemma top_in w f k hole : rep_ctx w (f :: k) hole → ∃ z, rbh_root w = Some z ∧ z ∈ kids (f :: k).
Proof.
  revert f hole. induction k as [|f' k IH]; intros [d c x s] hole (_ & _ & Hk).
  - exists x. split; [done|]. apply elem_of_kids. by left.
  - destruct (IH f' (Some x) Hk) as (z & Hz & Hin). exists z. split; [done|]. apply elem_of_kids. by right; right.
Qed.
Lemma remove_loop_spec fuel : ∀ w k t n c, at_focus w k t → deficit n t → rctx (S n) c k → (0 < fuel ∧ (redr t = false → S (length k) < fuel))%nat →
  wp (remove_color_loop fuel (top k) (root t)) (λ e w', ∃ k' t' m, at_focus w' k' t' ∧ e = root t' ∧ rbt m false (plug k' (blacken t')) ∧
    ids (plug k' t') = ids (plug k t)) w.
Proof.
  induction fuel as [|fuel IH]; intros w k t n c A Hd Hk [Hf1 Hf2]; [lia|]. cbn [remove_color_loop].
  apply wp_bind. eapply wp_black; [apply A|]. apply wp_bind, wp_gets. destruct (redr t) eqn:Er; cbn [negb andb].
  { apply wp_ret. destruct Hd as [Hd|[_ Hd]]; [pose proof (rbt_redr _ _ _ Hd); congruence|].
    destruct (rbt_plug k (S n) c false _ Hk Hd) as [m Hm]; [done|]. by exists k, t, m. }
  destruct Hd as [Hd|[? _]]; [|congruence]. destruct k as [|[d cf p s] k].
  { rewrite (bool_decide_eq_false_2 (root t ≠ rbh_root w)); [intros []; symmetry; apply A|]. apply wp_ret. exists [], t, n. split_and!; [done|done| |done].
    cbn. by rewrite (rbt_black_id _ _ Hd). }
  assert (root t ≠ root s) as Ns.
  { destruct t as [|c0 l x r]; [|intros Es; symmetry in Es; by eapply sibling_apart]. destruct s; [|done]. inversion Hk; subst; match goal with H : rbt _ _ E |- _ => inversion H end. }
  rewrite bool_decide_eq_true_2.
  { destruct (top_in _ _ _ _ (af_ctx _ _ _ A)) as (z & -> & Hz). intros Et%root_in. by apply (focus_apart _ _ _ A) in Et. }
  pose proof (af_ctx _ _ _ A) as (Hp & _). apply wp_bind, wp_deref. exists p. split; [done|]. apply wp_bind. eapply wp_side; [exact Hp|].
  rewrite side_test //. apply wp_bind. eapply wp_mono; [by eapply remove_step_spec|].
  intros [[e par]|] w1 (k' & red & Hends & Hor); cbn [turn_ends] in Hends.
  - destruct Hends as (-> & -> & t' & n' & c' & A' & <- & Hd' & Hk' & Hi & Hred).
    rewrite -Hi. eapply (IH w1 k' t' n' c' A' Hd' Hk'). cbn in Hf2. specialize (Hf2 eq_refl).
    split; [lia|]. intros Hr. destruct Hor as [->|Hr']; [lia|]. specialize (Hred Hr'). congruence.
  - destruct Hends as (t' & m & A' & Hm & Hi). apply wp_gets. exists [], t', m. split_and!; [done|apply A'| |done].
    cbn. by rewrite (rbt_black_id _ _ Hm).
Qed.
Lemma ids_plug_blacken k t : ids (plug k (blacken t)) = ids (plug k t).
Proof. by rewrite !ids_plug ids_blacken. Qed.
Lemma remove_color_spec fuel w k t n c : at_focus w k t → deficit n t → rctx (S n) c k → (S (length k) < fuel)%nat →
  wp (RB_REMOVE_COLOR fuel (top k) (root t)) (λ _ w', ∃ t' m, holds w' t' ∧ rbt m false t' ∧ ids t' = ids (plug k t)) w.
Proof.
  intros A Hd Hk Hf. unfold RB_REMOVE_COLOR. apply wp_bind. eapply wp_mono; [eapply remove_loop_spec; [exact A|exact Hd|exact Hk|lia]|].
  intros e w1 (k' & t' & m & A' & -> & Hm & Hi). eapply blacken_spec; [exact A'|]. intros w2 A2.
  exists (plug k' (blacken t')), m. rewrite ids_plug_blacken. split_and!; [by rewrite -focus_plug|done|done].
Qed.

(** ** Unlinking *)
Lemma focus_ext w w' k t : at_focus w k t → rbh_root w' = rbh_root w → (∀ z, z ∈ ids (plug k t) → rbm w' !! z = rbm w !! z) → at_focus w' k t.
Proof.
  intros A Hr Hm. rewrite ids_plug in Hm. eapply focus_local; [exact A|done| |done|done|].
  - intros z [Hz|Hz]%elem_of_app; apply Hm; set_solver.
  - eapply rep_ext; [|apply A]. intros z Hz. apply Hm. set_solver.
Qed.
Lemma splice_spec w k d c a x : at_focus w k (mk d c a x E) →
  wp (rb_splice x (root a)) (λ r w', r = (top k, col c) ∧ at_focus w' k a ∧ rbm w' !! x = rbm w !! x) w.
Proof.
  intros A. destruct (focus_apart _ _ _ A) as (Nt & Nk & Nd). pose proof (af_rep _ _ _ A) as (Hx & Ha & _)%rep_mk.
  rewrite ids_mk_perm /= app_nil_r in Nt. apply NoDup_cons in Nt as [Nx Na].
  assert (∀ z, z = x ∨ z ∈ ids a → z ∉ kids k) as Nd'. { intros z Hz. apply Nd. rewrite ids_mk_perm. set_solver. }
  unfold rb_splice. apply wp_bind. eapply wp_parent; [exact Hx|]. apply wp_bind. eapply wp_color; [exact Hx|]. apply wp_bind.
  eapply wp_mono; [apply (set_parent_spec w (top k) (Some x) a); done|]. intros [] w1 (R1 & Ha1 & M1). apply wp_bind.
  assert (∀ z, z ∉ ids a → rbm w1 !! z = rbm w !! z) as M1' by (intros z Hz; apply M1; intros Ez; symmetry in Ez; by apply root_in in Ez).
  eapply wp_mono; [apply (relink_spec w1 k x (root a)); [|by apply Nd'; left|done]|].
  { eapply rep_ctx_ext; [exact R1| |]; [|pose proof (af_ctx _ _ _ A) as H; by rewrite root_mk in H]. intros z Hz. apply M1'. intros Hz'. by apply (Nd' z); [right|]. }
  intros [] w2 (C2 & M2). apply wp_ret. split_and!; [done|split; [done| |]|].
  - eapply rep_ext; [|exact Ha1]. intros z Hz. apply M2. apply Nd'. by right.
  - pose proof (af_nodup _ _ _ A) as Hn. rewrite ids_plug (ids_mk_perm d) app_nil_r in Hn.
    cbn in Hn. rewrite -Permutation_middle in Hn. rewrite ids_plug. by apply NoDup_cons in Hn as [_ ?].
  - rewrite M2; [by apply Nd'; left|]. by apply M1'.
Qed.
Lemma replace_spec w k c l x r y : at_focus w k (T c l x r) → l ≠ E → y ∉ ids (plug k (T c l x r)) → is_Some (rbm w !! y) →
  wp (rb_replace x y) (λ _ w', at_focus w' k (T c l y r)) w.
Proof.
  intros A Hl Ny [ey Hy]. destruct (focus_apart _ _ _ A) as (Nt & Nk & Nd). pose proof (af_rep _ _ _ A) as (Hx & Rl & Rr). cbn in Nt, Nd.
  apply NoDup_app in Nt as (Nl & Nlx & Nr). apply NoDup_cons in Nr as [Nxr Nr].
  rewrite ids_plug in Ny. cbn in Ny. assert (x ≠ y ∧ y ∉ ids l ∧ y ∉ ids r ∧ y ∉ kids k) as (Nxy & Nyl & Nyr & Nyk) by (unfold kids; set_solver).
  assert (∀ z, z ∈ ids l → z ∉ kids k ∧ z ≠ y ∧ z ∉ ids r) as Dl by (intros z Hz; split_and!; [apply Nd; set_solver|by intros ->|set_solver]).
  assert (∀ z, z ∈ ids r → z ∉ kids k ∧ z ≠ y ∧ z ∉ ids l) as Dr.
  { intros z Hz. split_and!; [apply Nd; set_solver|by intros ->|]. intros Hz'. apply (Nlx z Hz'). by right. }
  unfold rb_replace. apply wp_bind. eapply wp_ld_entry; [exact Hx|]. apply wp_bind. eapply wp_upd_entry; [exact Hy|]. set (w1 := RbW _ _). cbn [rbe_parent].
  assert (∀ z, z ≠ y → rbm w1 !! z = rbm w !! z) as M1 by (intros z Hz; by apply lookup_insert_ne). apply wp_bind.
  eapply wp_mono; [apply (relink_spec w1 k x (Some y)); [|apply Nd; set_solver|done]|].
  { eapply rep_ctx_ext; [| |apply A]; [done|]. intros z Hz. apply M1. by intros ->. }
  intros [] w2 (C2 & M2). apply wp_bind. eapply wp_ld_entry; [rewrite M2; [apply Nd; set_solver|]; rewrite M1 //|]. cbn [rbe_left rbe_right].
  destruct (root l) as [zl|] eqn:El; [|by destruct l]. apply wp_bind, wp_deref. exists zl. split; [done|]. apply wp_bind.
  change (upd_entry zl (put_parent (Some y))) with (set_parent_of (Some zl) (Some y)). rewrite -El.
  eapply wp_mono; [apply (set_parent_spec w2 (Some y) (Some x) l); [|done]|].
  { eapply rep_ext; [|exact Rl]. intros z Hz. destruct (Dl z Hz) as (? & ? & ?). rewrite M2 //. by apply M1. }
  intros [] w3 (R3 & Hl3 & M3). assert (∀ z, z ∉ ids l → rbm w3 !! z = rbm w2 !! z) as M3' by (intros z Hz; apply M3; intros Ez; symmetry in Ez; by apply root_in in Ez).
  eapply wp_mono; [apply (set_parent_spec w3 (Some y) (Some x) r); [|done]|].
  { eapply rep_ext; [|exact Rr]. intros z Hz. destruct (Dr z Hz) as (? & ? & ?). rewrite M3' // M2 //. by apply M1. }
  intros [] w4 (R4 & Hr4 & M4). assert (∀ z, z ∉ ids r → rbm w4 !! z = rbm w3 !! z) as M4' by (intros z Hz; apply M4; intros Ez; symmetry in Ez; by apply root_in in Ez).
  split.
  - eapply rep_ctx_ext; [| |exact C2]; [congruence|]. intros z Hz.
    rewrite M4'; [intros Hz'; by destruct (Dr z Hz')|]. rewrite M3'; [intros Hz'; by destruct (Dl z Hz')|done].
  - cbn. split_and!; [|eapply rep_ext; [|exact Hl3]; intros z Hz; apply M4'; apply (Dl z Hz)|done].
    rewrite M4' // M3' // M2 //. rewrite El. apply lookup_insert_eq.
  - pose proof (af_nodup _ _ _ A) as Hn. rewrite ids_plug in Hn. rewrite ids_plug. cbn in Hn |- *.
    rewrite -!app_assoc /= (assoc_L (++)) -Permutation_middle in Hn. rewrite -!app_assoc /= (assoc_L (++)) -Permutation_middle.
    apply NoDup_cons in Hn as [_ Hn]. apply NoDup_cons. split; [set_solver|done].
Qed.

(** What is left when an element with at most one child is taken out. *)
Definition taken_out (red : bool) (k : list frame) (a : tree) : Prop :=
  if red then ∃ m, rbt m false (plug k a) else ∃ n c, deficit n a ∧ rctx (S n) c k.
Lemma take_out m d c a x k ck ct : rctx m ck k → rbt m ct (mk d c a x E) → (ck = true → ct = false) → taken_out c k a.
Proof.
  intros Hk Ht Hc. assert (c = ct) as -> by (pose proof (rbt_redr _ _ _ Ht) as Er; by rewrite redr_mk in Er). apply rbt_mk in Ht. destruct ct; cbn.
  - destruct Ht as [Ha HE]. inversion HE; subst. by eapply (rbt_plug k 0 ck false).
  - destruct Ht as (m' & ca & cb & -> & Ha & HE). inversion HE; subst. exists 0%nat, ck. split; [|done]. destruct ca; [|by left].
    right. split; [by eapply rbt_redr|by apply rbt_blacken].
Qed.
Lemma rctx_rename k2 : ∀ n c d cf x y s k, rctx n c (k2 ++ Frame d cf x s :: k) → rctx n c (k2 ++ Frame d cf y s :: k).
Proof. induction k2 as [|f k2 IH]; intros n c d cf x y s k Hk; cbn in *; inversion Hk; subst; econstructor; eauto. Qed.
Lemma plug_app k1 k2 t : plug (k1 ++ k2) t = plug k2 (plug k1 t).
Proof. revert t. induction k1 as [|[d c x s] k1 IH]; intros t; cbn; [done|apply IH]. Qed.
Lemma top_in_plug k z t : top k = Some z → z ∈ ids (plug k t).
Proof. destruct k as [|[d c x s] k]; intros [= ->]. rewrite ids_plug. destruct d; cbn; set_solver. Qed.
(** The smallest element. *)
Lemma min_focus t : t ≠ E → ∃ k c y b, t = plug k (T c E y b) ∧ before k = [] ∧ head (ids t) = Some y.
Proof.
  induction t as [|c l IHl x r _]; intros Ht; [done|]. destruct l as [|cl ll lx lr] eqn:El; [by exists [], c, x, r|].
  rewrite -El in IHl |- *. destruct IHl as (k & c' & y & b & Hl & Hb & Hh); [by rewrite El|].
  exists (k ++ [Frame Lft c x r]), c', y, b. rewrite plug_app -Hl. split_and!; [done| |cbn; by destruct (ids l)].
  clear -Hb. induction k as [|[[] ? ? ?] k IH]; cbn in *; [done|by apply IH|]. by apply app_eq_nil in Hb as [_ [_ ?]%app_eq_nil].
Qed.

(** The state after unlinking: we stand where the unlinked element was. *)
Definition unlinked (t : tree) (l1 l2 : list nat) (r : option nat * option nat * Z) (w' : rbw) : Prop :=
  ∃ k a red, r = (top k, root a, col red) ∧ at_focus w' k a ∧ taken_out red k a ∧ ids (plug k a) = l1 ++ l2 ∧ (length k ≤ height t)%nat.
Lemma splice_unlinks w k d c a x n : at_focus w k (mk d c a x E) → rbt n false (plug k (mk d c a x E)) →
  wp ('(parent, color) ← rb_splice x (root a); mret (parent, root a, color)) (unlinked (plug k (mk d c a x E)) (before k ++ ids a) (after k)) w.
Proof.
  intros A Ht. destruct (rbt_unplug _ _ _ Ht) as (m & ck & ct & Hk & Hm & Hc). apply wp_bind. eapply wp_mono; [by eapply splice_spec|].
  intros r w' (-> & A' & _). apply wp_ret. exists k, a, c. split_and!; [done|done|by eapply take_out|by rewrite ids_plug app_assoc|].
  pose proof (height_plug k (mk d c a x E)). lia.
Qed.
(** With two children, the successor is taken out and put in the place of [x]. *)
Lemma successor_unlinks fuel w k c l x r n : at_focus w k (T c l x r) → rbt n false (plug k (T c l x r)) → l ≠ E → r ≠ E → (height (plug k (T c l x r)) ≤ fuel)%nat →
  wp (rt ← deref "elm" (root r);
      elm ← rb_descend Lft fuel rt;
      child ← RB_RIGHT elm;
      '(parent, color) ← rb_splice elm child;
      p ← RB_PARENT elm;
      rb_replace x elm;;
      mret (if decide (p = Some x) then Some elm else parent, child, color))
    (unlinked (plug k (T c l x r)) (before k ++ ids l) (ids r ++ after k)) w.
Proof.
  intros A Ht Hl Hr Hf. destruct (min_focus r Hr) as (k2 & cy & y & b & Er & Hb & Hy). destruct (root r) as [rt|] eqn:Ert; [|by destruct r].
  apply wp_bind, wp_deref. exists rt. split; [done|]. apply wp_bind. pose proof (af_rep _ _ _ A) as (_ & _ & Rr).
  pose proof (height_plug k (T c l x r)) as Hh. cbn in Hh. eapply wp_mono; [eapply (descend_spec Rgt); [exact Rr|done|lia]|].
  intros y' w' [-> Hy']. cbn in Hy'. assert (y' = y) as -> by congruence. set (K := k2 ++ Frame Rgt c x l :: k).
  assert (plug k (T c l x r) = plug K (mk Rgt cy b y E)) as EK by by rewrite /K plug_app /= -Er.
  assert (at_focus w K (mk Rgt cy b y E)) as AK by by rewrite focus_plug -EK -focus_plug.
  destruct (rbt_unplug K n (mk Rgt cy b y E)) as (m & ck & ct & Hk & Hm & Hc); [by rewrite -EK|].
  assert (ids r = y :: ids b ++ after k2) as Ir by by rewrite Er ids_plug Hb.
  assert (y ∉ ids (plug k (T c l x (plug k2 b)))) as Ny.
  { pose proof (af_nodup _ _ _ A) as Hn. rewrite ids_plug /= Ir -!app_assoc /= in Hn. rewrite ids_plug /= ids_plug Hb.
    rewrite (perm_swap y x) (assoc_L (++)) -Permutation_middle in Hn. apply NoDup_cons in Hn as [Hn _]. set_solver. }
  assert (k2 = [] ∨ top K ≠ Some x ∧ top K = top (k2 ++ Frame Rgt c y l :: k)) as Htop.
  { destruct k2 as [|f k2]; [by left|right]. split; [|by destruct f]. intros Ex. assert (x ∈ ids r) as Hx by (rewrite Er; by apply top_in_plug).
    destruct (focus_apart _ _ _ A) as (Nt & _ & _). cbn in Nt. by apply NoDup_app in Nt as (_ & _ & [Nx _]%NoDup_cons). }
  pose proof (af_rep _ _ _ AK) as (Hye & _)%rep_mk. apply wp_bind. eapply wp_right; [exact Hye|]. apply wp_bind. eapply wp_mono; [by eapply splice_spec|].
  intros res w1 (-> & A1 & M1). rewrite Hye in M1. apply wp_bind. eapply wp_parent; [exact M1|]. apply wp_bind.
  rewrite focus_plug plug_app -focus_plug focus_up in A1. cbn [mk] in A1.
  eapply wp_mono; [eapply replace_spec; [exact A1|done|done|by rewrite M1]|]. intros [] w2 A2. apply wp_ret.
  exists (k2 ++ Frame Rgt c y l :: k), b, cy. split_and!.
  - f_equal. f_equal. destruct Htop as [->|[Nx <-]]; [by destruct (decide (top K = Some x)) as [_|[]]|]. by destruct (decide (top K = Some x)).
  - by rewrite focus_plug plug_app -focus_plug focus_up.
  - eapply take_out; [by eapply rctx_rename|exact Hm|done].
  - rewrite plug_app ids_plug /= ids_plug Hb Ir /=. by rewrite -!app_assoc.
  - pose proof (height_plug K (mk Rgt cy b y E)) as HhK. rewrite -EK in HhK. unfold K in HhK. rewrite length_app in HhK. rewrite length_app. cbn in HhK |- *. lia.
Qed.
Lemma rb_unlink_spec fuel w k c l x r n : at_focus w k (T c l x r) → rbt n false (plug k (T c l x r)) → (height (plug k (T c l x r)) ≤ fuel)%nat →
  wp (rb_unlink fuel x) (unlinked (plug k (T c l x r)) (before k ++ ids l) (ids r ++ after k)) w.
Proof.
  intros A Ht Hf. unfold rb_unlink. pose proof (af_rep _ _ _ A) as (Hx & _). apply wp_bind. eapply wp_left; [exact Hx|]. apply wp_bind. eapply wp_right; [exact Hx|].
  destruct l as [|cl ll xl rl]; [|destruct r as [|cr lr xr rr]].
  - change (T c E x r) with (mk Rgt c r x E) in *. cbn [root]. eapply wp_mono; [by eapply splice_unlinks|].
    intros res w' (k' & a & red & ? & ? & ? & Hi & ?). exists k', a, red. split_and!; [done|done|done| |done]. cbn. by rewrite Hi app_nil_r -app_assoc.
  - set (l := T cl ll xl rl) in *. change (T c l x E) with (mk Lft c l x E) in *. change (Some xl) with (root l). eapply wp_mono; [by eapply splice_unlinks|].
    intros res w' (k' & a & red & ? & ? & ? & Hi & ?). exists k', a, red. split_and!; [done|done|done|done|done].
  - pose proof (successor_unlinks fuel w k c _ x _ n A Ht ltac:(done) ltac:(done) Hf) as Hs. rewrite wp_bind wp_deref in Hs. by destruct Hs as (rt & [= <-] & Hs).
Qed.
Lemma RB_REMOVE_spec fuel w t n l1 x l2 : holds w t → rbt n false t → ids t = l1 ++ x :: l2 → (S (height t) < fuel)%nat →
  wp (RB_REMOVE fuel x) (λ r w', r = x ∧ ∃ t' m, holds w' t' ∧ rbt m false t' ∧ ids t' = l1 ++ l2) w.
Proof.
  intros A Ht Hi Hf. destruct (focus_elem t x) as (k & c & l & r & ->); [rewrite Hi; set_solver|].
  pose proof (af_nodup _ _ _ A) as Hn. cbn [plug] in Hn. rewrite ids_plug /= in Hi, Hn. rewrite -!app_assoc /= (assoc_L (++)) in Hi, Hn.
  destruct (nodup_split _ _ _ _ _ Hn Hi) as [<- <-]. rewrite -focus_plug in A. unfold RB_REMOVE. apply wp_bind.
  eapply wp_mono; [eapply rb_unlink_spec; [exact A|exact Ht|lia]|]. intros res w1 (k' & a & red & -> & A' & Hout & Hi' & Hh). apply wp_bind. rewrite wp_when.
  destruct red; cbn in Hout.
  - destruct Hout as [m Hm]. rewrite bool_decide_eq_false_2 //. apply wp_ret. split; [done|]. exists (plug k' a), m. split_and!; [by rewrite -focus_plug|done|done].
  - destruct Hout as (m & ck & Hd & Hk). rewrite bool_decide_eq_true_2 //. eapply wp_mono; [eapply remove_color_spec; [done|done|done|lia]|].
    intros [] w2 (t' & m' & A2 & R2 & I2). apply wp_ret. split; [done|]. exists t', m'. split_and!; [done|done|congruence].
Qed.
