(* ===== verification/TreeProps.v ===== *)
(** * Red-black trees: what clients of [sys/tree.h] can rely on

    Sequences of operations on an initialised head against a list sorted by key. *)

From Stdlib Require Import Sorted.
From S2P Require Import Prelude Tree TreeRep TreeInsert TreeFind TreeRemove.

(** ** The memory of the elements is only written, never extended *)
Definition entries (w : rbw) : gset nat := dom (rbm w).
Lemma keeps_set_root p : preserves entries (set_root p).
Proof. done. Qed.
Lemma keeps_ld e : preserves entries (ld_entry e).
Proof. apply preserves_bind; [done|]. intros w. apply preserves_deref. Qed.
Lemma keeps_upd e f : preserves entries (upd_entry e f).
Proof. intros w. unfold upd_entry, mbind, M_bind, get, deref, put. destruct (rbm w !! e) eqn:He; [|done]. cbn. rewrite dom_insert_L. apply elem_of_dom_2 in He. set_solver. Qed.
#[export] Hint Resolve keeps_set_root keeps_ld keeps_upd : nyy_preserves.
Lemma keeps_child d e : preserves entries (rb_child d e).
Proof. destruct d; unfold rb_child, RB_LEFT, RB_RIGHT; preserves. Qed.
Lemma keeps_parent e : preserves entries (RB_PARENT e).
Proof. unfold RB_PARENT; preserves. Qed.
Lemma keeps_color e : preserves entries (RB_COLOR e).
Proof. unfold RB_COLOR; preserves. Qed.
Lemma keeps_left e : preserves entries (RB_LEFT e).
Proof. apply (keeps_child Lft). Qed.
Lemma keeps_right e : preserves entries (RB_RIGHT e).
Proof. apply (keeps_child Rgt). Qed.
#[export] Hint Resolve keeps_child keeps_parent keeps_color keeps_left keeps_right : nyy_preserves.
Lemma keeps_root : preserves entries RB_ROOT.
Proof. unfold RB_ROOT; preserves. Qed.
Lemma keeps_relink p o n : preserves entries (rb_relink p o n).
Proof. unfold rb_relink; preserves. Qed.
Lemma keeps_set_parent c p : preserves entries (set_parent_of c p).
Proof. unfold set_parent_of; preserves. Qed.
Lemma keeps_black p : preserves entries (null_or_black p).
Proof. unfold null_or_black; preserves. Qed.
Lemma keeps_red p : preserves entries (nonnull_and_red p).
Proof. unfold nonnull_and_red; preserves. Qed.
Lemma keeps_blackred b r : preserves entries (RB_SET_BLACKRED b r).
Proof. unfold RB_SET_BLACKRED; preserves. Qed.
#[export] Hint Resolve keeps_root keeps_relink keeps_set_parent keeps_black keeps_red keeps_blackred : nyy_preserves.
Lemma keeps_rotate d e : preserves entries (RB_ROTATE d e).
Proof. unfold RB_ROTATE; preserves. Qed.
#[export] Hint Resolve keeps_rotate : nyy_preserves.
Lemma keeps_insert_color fuel e : preserves entries (RB_INSERT_COLOR fuel e).
Proof.
  apply preserves_bind; [|preserves]. revert e. induction fuel as [|fuel IH]; intros e; cbn [insert_color_loop]; [preserves|].
  unfold insert_color_step. preserves.
Qed.
Lemma keeps_remove_step d p : preserves entries (remove_color_step d p).
Proof. unfold remove_color_step, remove_red_sibling, remove_color_rest, remove_near_red, remove_far_red. preserves. Qed.
#[export] Hint Resolve keeps_remove_step : nyy_preserves.
Lemma keeps_remove_color fuel p e : preserves entries (RB_REMOVE_COLOR fuel p e).
Proof.
  apply preserves_bind; [|preserves]. revert p e. induction fuel as [|fuel IH]; intros p e; cbn [remove_color_loop]; [preserves|].
  preserves.
Qed.
Lemma keeps_search cmp fuel e : ∀ t p c, preserves entries (insert_search cmp fuel e t p c).
Proof. induction fuel as [|fuel IH]; intros [t|] p c; cbn [insert_search]; preserves. Qed.
Lemma keeps_descend d fuel : ∀ e, preserves entries (rb_descend d fuel e).
Proof. induction fuel as [|fuel IH]; intros e; cbn [rb_descend]; preserves. Qed.
#[export] Hint Resolve keeps_insert_color keeps_remove_color keeps_search keeps_descend : nyy_preserves.
Lemma keeps_RB_INSERT cmp fuel e : preserves entries (RB_INSERT cmp fuel e).
Proof. unfold RB_INSERT, RB_SET. preserves. Qed.
Lemma keeps_RB_REMOVE fuel e : preserves entries (RB_REMOVE fuel e).
Proof. unfold RB_REMOVE, rb_unlink, rb_splice, rb_replace. preserves. Qed.

(** ** Operations, and what they do to a sorted list *)
Inductive rb_op :=
  OpInsert (e : nat) | OpRemove (e : nat) | OpFind (e : nat) | OpNfind (e : nat) | OpNext (e : nat) | OpPrev (e : nat) | OpMin | OpMax | OpEmpty
| OpForeach | OpForeachReverse
| OpClear (d : side) (* [RB_FOREACH_SAFE], or [RB_FOREACH_REVERSE_SAFE], with [RB_REMOVE] as its body *).
Inductive rb_res := Ptr (p : option nat) | Bool (b : bool) | Visited (l : list nat) | Done.

Section ops.
Context (key : nat → Z) (cmp : nat → nat → Z) (fuel turns : nat).
Definition rb_run (o : rb_op) : M rbw rb_res :=
  match o with
  | OpInsert e => r ← RB_INSERT cmp fuel e; mret (Ptr r)
  | OpRemove e => r ← RB_REMOVE fuel e; mret (Ptr (Some r))
  | OpFind e => r ← RB_FIND cmp fuel e; mret (Ptr r)
  | OpNfind e => r ← RB_NFIND cmp fuel e; mret (Ptr r)
  | OpNext e => r ← RB_NEXT fuel e; mret (Ptr r)
  | OpPrev e => r ← RB_PREV fuel e; mret (Ptr r)
  | OpMin => r ← RB_MIN fuel; mret (Ptr r)
  | OpMax => r ← RB_MAX fuel; mret (Ptr r)
  | OpEmpty => b ← RB_EMPTY; mret (Bool b)
  | OpForeach => l ← RB_FOREACH fuel turns; mret (Visited l)
  | OpForeachReverse => l ← RB_FOREACH_REVERSE fuel turns; mret (Visited l)
  | OpClear Rgt => RB_FOREACH_SAFE fuel turns (λ x, RB_REMOVE fuel x;; mret tt);; mret Done
  | OpClear Lft => RB_FOREACH_REVERSE_SAFE fuel turns (λ x, RB_REMOVE fuel x;; mret tt);; mret Done
  end.
Fixpoint rb_run_all (os : list rb_op) : M rbw (list rb_res) :=
  match os with [] => mret [] | o :: os => r ← rb_run o; rs ← rb_run_all os; mret (r :: rs) end.

(** The list is the elements of the tree in order; nothing where the caller breaks a rule of
    the interface: it inserts an element that has no entry, or removes or steps from one that is not in the tree. *)
Definition abs_run (pool : gset nat) (l : list nat) (o : rb_op) : option (rb_res * list nat) :=
  match o with
  | OpInsert e => if decide (e ∈ pool) then
      match same key e l with
      | z :: _ => Some (Ptr (Some z), l)
      | [] => Some (Ptr None, lower key e l ++ e :: upper key e l)
      end else None
  | OpRemove e => if decide (e ∈ l) then Some (Ptr (Some e), filter (λ y, y ≠ e) l) else None
  | OpFind e => Some (Ptr (head (same key e l)), l)
  | OpNfind e => Some (Ptr (head (least key e l)), l)
  | OpNext e => if decide (e ∈ l) then Some (Ptr (head (upper key e l)), l) else None
  | OpPrev e => if decide (e ∈ l) then Some (Ptr (last (lower key e l)), l) else None
  | OpMin => Some (Ptr (head l), l)
  | OpMax => Some (Ptr (last l), l)
  | OpEmpty => Some (Bool (bool_decide (l = [])), l)
  | OpForeach => Some (Visited l, l)
  | OpForeachReverse => Some (Visited (reverse l), l)
  | OpClear _ => Some (Done, [])
  end.
Fixpoint abs_run_all (pool : gset nat) (l : list nat) (os : list rb_op) : option (list rb_res * list nat) :=
  match os with
  | [] => Some ([], l)
  | o :: os => '(r, l) ← abs_run pool l o; '(rs, l) ← abs_run_all pool l os; Some (r :: rs, l)
  end.

(** ** Sorted lists *)
Lemma sorted_filter (P : nat → Prop) `{!∀ x, Decision (P x)} l : sorted key l → sorted key (filter P l).
Proof.
  induction l as [|x l IH]; [done|]. intros [H1 H2]%StronglySorted_inv. rewrite filter_cons. case_decide; [|by apply IH].
  constructor; [by apply IH|]. rewrite Forall_forall in H2. apply Forall_forall. intros y [_ Hy]%list_elem_of_filter. by apply H2.
Qed.
Lemma sorted_insert e l : sorted key l → sorted key (lower key e l ++ e :: upper key e l).
Proof.
  intros Hs. apply sorted_app. split_and!; [by apply sorted_filter| |].
  - constructor; [by apply sorted_filter|]. apply Forall_forall. intros y [Hy _]%list_elem_of_filter. done.
  - intros a b [Ha _]%list_elem_of_filter [->|[Hb _]%list_elem_of_filter]%elem_of_cons; cbn in *; lia.
Qed.
Lemma sorted_around l1 e l2 : sorted key (l1 ++ e :: l2) → lower key e (l1 ++ e :: l2) = l1 ∧ upper key e (l1 ++ e :: l2) = l2 ∧
  filter (λ y, y ≠ e) (l1 ++ e :: l2) = l1 ++ l2.
Proof.
  intros (_ & [_ F]%StronglySorted_inv & H12)%sorted_app. rewrite Forall_forall in F.
  assert (∀ y, y ∈ l1 → key y < key e) as F1 by (intros y Hy; apply H12; [done|left]).
  unfold lower, upper. rewrite !filter_app !filter_cons. destruct (decide (key e < key e)); [lia|]. destruct (decide (e ≠ e)) as [|_]; [done|]. split_and!.
  - rewrite list_filter_all; [done|]. rewrite list_filter_none; [intros y Hy%F; lia|]. by rewrite app_nil_r.
  - rewrite list_filter_none; [intros y Hy%F1; lia|]. by rewrite list_filter_all.
  - rewrite list_filter_all; [intros y Hy%F1 ->; lia|]. rewrite list_filter_all; [intros y Hy%F ->; lia|]. done.
Qed.

(** ** Every operation does what it does to the list *)
Context (pool : gset nat).
(** The memory holds a red-black tree of the elements of [l]. *)
Definition tree_of (w : rbw) (l : list nat) : Prop := ∃ t n, holds w t ∧ rbt n false t ∧ ids t = l.
Definition tree_inv (w : rbw) (l : list nat) : Prop := tree_of w l ∧ sorted key l ∧ dom (rbm w) = pool.

Lemma rep_dom m p t x : rep m p t → x ∈ ids t → x ∈ dom m.
Proof.
  revert p. induction t as [|c l IHl y r IHr]; intros p; cbn; [by intros _ ?%not_elem_of_nil|]. intros (Hy & Hl & Hr) [Hx|[->|Hx]%elem_of_cons]%elem_of_app.
  - by eapply IHl.
  - by eapply elem_of_dom_2.
  - by eapply IHr.
Qed.
Lemma tree_inv_length w l : tree_inv w l → (length l ≤ size pool)%nat.
Proof.
  intros ((t & n & A & _ & <-) & Hs & <-). rewrite -(size_list_to_set (C := gset nat)); [by eapply sorted_nodup|].
  apply subseteq_size. intros x Hx%elem_of_list_to_set. eapply rep_dom; [apply A|done].
Qed.
Context (Hcmp : compares key cmp) (Hfuel : (2 * Nat.log2 (S (size pool)) + 1 < fuel)%nat) (Hturns : (size pool ≤ turns)%nat).
Lemma tree_inv_height w l t n : tree_inv w l → rbt n false t → ids t = l → (S (height t) < fuel)%nat.
Proof.
  intros Hi Ht <-. apply tree_inv_length in Hi. apply rbt_log in Ht. pose proof (Nat.log2_le_mono (S (length (ids t))) (S (size pool)) ltac:(lia)). lia.
Qed.
Lemma remove_inv w l1 x l2 : tree_inv w (l1 ++ x :: l2) → wp (RB_REMOVE fuel x) (λ r w', r = x ∧ tree_inv w' (l1 ++ l2)) w.
Proof.
  intros Hi. pose proof Hi as ((t & n & A & Ht & Et) & Hs & Hp). eapply wp_mono; [eapply (wp_preserves entries); [apply keeps_RB_REMOVE|]|].
  { eapply RB_REMOVE_spec; [exact A|exact Ht|exact Et|]. by eapply tree_inv_height. }
  intros r w' (Hd & -> & t' & n' & A' & Ht' & Et'). unfold entries in Hd. unfold tree_inv. split_and!; [done|by exists t', n'| |congruence].
  destruct (sorted_around l1 x l2 Hs) as (_ & _ & <-). by apply sorted_filter.
Qed.
Lemma insert_inv w l e : tree_inv w l → e ∈ pool → wp (RB_INSERT cmp fuel e) (λ r w', r = head (same key e l) ∧
  tree_inv w' (match r with Some _ => l | None => lower key e l ++ e :: upper key e l end)) w.
Proof.
  intros Hi He. pose proof Hi as ((t & n & A & Ht & Et) & Hs & Hp). eapply wp_mono; [eapply (wp_preserves entries); [apply keeps_RB_INSERT|]|].
  { eapply RB_INSERT_spec; [exact Hcmp|exact A|exact Ht|by rewrite Et|rewrite -elem_of_dom; congruence|]. enough (S (height t) < fuel)%nat by lia. by eapply tree_inv_height. }
  intros r w' (Hd & -> & Hr). unfold entries in Hd. rewrite Et in Hr |- *. split; [done|]. destruct (head (same key e l)) as [z|]; [by subst w'|].
  destruct Hr as (t' & n' & A' & Ht' & Et'). unfold tree_inv. split_and!; [by exists t', n'|by apply sorted_insert|congruence].
Qed.
Lemma clear_turn d n w l1 x l2 (Q : unit → rbw → Prop) : tree_inv w (l1 ++ x :: l2) →
  (∀ w', tree_inv w' (l1 ++ l2) → wp (foreach_safe_loop d fuel n (λ x, RB_REMOVE fuel x;; mret tt) (neighbour d l1 l2)) Q w') →
  wp (foreach_safe_loop d fuel (S n) (λ x, RB_REMOVE fuel x;; mret tt) (Some x)) Q w.
Proof.
  intros Hi HQ. cbn [foreach_safe_loop]. pose proof Hi as ((t & m & A & Ht & Et) & _). assert (S (height t) < fuel)%nat as Hh by by eapply tree_inv_height. apply wp_bind.
  eapply wp_mono; [eapply (step_spec d); [exact A|exact Et|lia]|]. intros y w' [-> ->]. do 2 apply wp_bind.
  eapply wp_mono; [apply (remove_inv w l1 x l2 Hi)|]. intros _ w' [_ Hi']. apply wp_ret. by apply HQ.
Qed.
Lemma clear_up_inv : ∀ l w n, tree_inv w l → (length l ≤ n)%nat →
  wp (foreach_safe_loop Rgt fuel n (λ x, RB_REMOVE fuel x;; mret tt) (head l)) (λ _ w', tree_inv w' []) w.
Proof.
  induction l as [|x l IH]; intros w n Hi Hn; [destruct n; by apply wp_ret|]. destruct n as [|n]; [cbn in Hn; lia|]. cbn [head].
  apply (clear_turn Rgt n w [] x l); [exact Hi|]. intros w' Hi'. apply IH; [exact Hi'|cbn in Hn; lia].
Qed.
Lemma clear_down_inv : ∀ l w n, tree_inv w (reverse l) → (length l ≤ n)%nat →
  wp (foreach_safe_loop Lft fuel n (λ x, RB_REMOVE fuel x;; mret tt) (head l)) (λ _ w', tree_inv w' []) w.
Proof.
  induction l as [|x l IH]; intros w n Hi Hn; [destruct n; by apply wp_ret|]. destruct n as [|n]; [cbn in Hn; lia|]. cbn [head]. rewrite reverse_cons in Hi.
  apply (clear_turn Lft n w (reverse l) x []); [exact Hi|]. intros w' Hi'. rewrite app_nil_r in Hi'. cbn [neighbour]. rewrite -head_reverse reverse_involutive.
  apply IH; [exact Hi'|cbn in Hn; lia].
Qed.
Lemma rb_run_spec o w l r l' : tree_inv w l → abs_run pool l o = Some (r, l') → wp (rb_run o) (λ r' w', r' = r ∧ tree_inv w' l') w.
Proof.
  intros Hi Ho. pose proof Hi as ((t & n & A & Ht & Et) & Hs & Hp). assert (S (height t) < fuel)%nat as Hh by by eapply tree_inv_height.
  pose proof (tree_inv_length _ _ Hi) as Hl. destruct o; cbn [rb_run abs_run] in *.
  - case_decide; [|done]. apply wp_bind. eapply wp_mono; [by apply insert_inv|]. intros r' w' [-> Hi']. apply wp_ret.
    destruct (same key e l); injection Ho as <- <-; done.
  - case_decide as He; [|done]. injection Ho as <- <-. destruct (list_elem_of_split _ _ He) as (l1 & l2 & ->). apply wp_bind.
    eapply wp_mono; [by apply remove_inv|]. intros r' w' [-> Hi']. apply wp_ret. split; [done|]. by destruct (sorted_around l1 e l2 Hs) as (_ & _ & ->).
  - injection Ho as <- <-. apply wp_bind. eapply wp_mono; [eapply RB_FIND_spec; [exact Hcmp|exact A|by rewrite Et|lia]|]. intros r' w' [-> ->]. apply wp_ret. by rewrite Et.
  - injection Ho as <- <-. apply wp_bind. eapply wp_mono; [eapply RB_NFIND_spec; [exact Hcmp|exact A|by rewrite Et|lia]|]. intros r' w' [-> ->]. apply wp_ret. by rewrite Et.
  - case_decide as He; [|done]. injection Ho as <- <-. destruct (list_elem_of_split _ _ He) as (l1 & l2 & ->). destruct (sorted_around l1 e l2 Hs) as (_ & -> & _). apply wp_bind.
    eapply wp_mono; [eapply (step_spec Rgt); [exact A|exact Et|lia]|]. intros r' w' [-> ->]. by apply wp_ret.
  - case_decide as He; [|done]. injection Ho as <- <-. destruct (list_elem_of_split _ _ He) as (l1 & l2 & ->). destruct (sorted_around l1 e l2 Hs) as (-> & _ & _). apply wp_bind.
    eapply wp_mono; [eapply (step_spec Lft); [exact A|exact Et|lia]|]. intros r' w' [-> ->]. by apply wp_ret.
  - injection Ho as <- <-. apply wp_bind. eapply wp_mono; [eapply RB_MIN_spec; [exact A|lia]|]. intros r' w' [-> ->]. apply wp_ret. by rewrite Et.
  - injection Ho as <- <-. apply wp_bind. eapply wp_mono; [eapply RB_MAX_spec; [exact A|lia]|]. intros r' w' [-> ->]. apply wp_ret. by rewrite Et.
  - injection Ho as <- <-. do 2 apply wp_bind. apply wp_gets, wp_ret, wp_ret. split; [|done]. f_equal. apply bool_decide_ext.
    pose proof (af_ctx _ _ _ A) as Hr. cbn in Hr. rewrite Hr -Et. destruct t as [|c0 tl0 x0 tr0]; [done|]. cbn. split; [done|]. intros He. by apply app_eq_nil in He as [_ ?].
  - injection Ho as <- <-. apply wp_bind. eapply wp_mono; [eapply RB_FOREACH_spec; [exact A|lia|rewrite Et; lia]|]. intros r' w' [-> ->]. apply wp_ret. by rewrite Et.
  - injection Ho as <- <-. apply wp_bind. eapply wp_mono; [eapply RB_FOREACH_REVERSE_spec; [exact A|lia|rewrite Et; lia]|]. intros r' w' [-> ->]. apply wp_ret. by rewrite Et.
  - destruct d; injection Ho as <- <-; do 2 apply wp_bind.
    + eapply wp_mono; [eapply RB_MAX_spec; [exact A|lia]|]. intros r' w' [-> ->]. rewrite Et -head_reverse.
      eapply wp_mono; [apply clear_down_inv; [by rewrite reverse_involutive|rewrite length_reverse; lia]|]. intros [] w' Hi'. by apply wp_ret.
    + eapply wp_mono; [eapply RB_MIN_spec; [exact A|lia]|]. intros r' w' [-> ->]. rewrite Et.
      eapply wp_mono; [apply clear_up_inv; [exact Hi|lia]|]. intros [] w' Hi'. by apply wp_ret.
Qed.
Lemma rb_run_all_spec os : ∀ w l rs l', tree_inv w l → abs_run_all pool l os = Some (rs, l') → wp (rb_run_all os) (λ rs' w', rs' = rs ∧ tree_inv w' l') w.
Proof.
  induction os as [|o os IH]; intros w l rs l' Hi Ho; cbn [rb_run_all abs_run_all] in *; [injection Ho as <- <-; by apply wp_ret|].
  apply bind_Some in Ho as ([r l1] & H1 & Ho). apply bind_Some in Ho as ([rs1 l2] & H2 & Ho). injection Ho as <- <-.
  apply wp_bind. eapply wp_mono; [by eapply rb_run_spec|]. intros r' w1 [-> Hi1]. apply wp_bind.
  eapply wp_mono; [by eapply IH|]. intros rs' w2 [-> Hi2]. by apply wp_ret.
Qed.
Lemma rb_init_spec w : dom (rbm w) = pool → wp RB_INIT (λ _ w', tree_inv w' []) w.
Proof. intros Hd. apply wp_modify. unfold tree_inv. split_and!; [|constructor|done]. exists E, 0%nat. split_and!; [split; [done|done|constructor]|constructor|done]. Qed.
End ops.

(** C14: red-black trees refine sorted lists.  From a head that [RB_INIT] has set up, every sequence of insertions, removals, searches, steps and loops that keeps to the interface returns, with loops of at most [2 log2 (n + 1) + 2] turns for [n] elements in the system, what the same sequence returns on a list sorted by key: an insertion finds the element with the same key or adds the new one in its place, a removal takes exactly its element out, [RB_FIND], [RB_NFIND], [RB_NEXT], [RB_PREV], [RB_MIN] and [RB_MAX] answer from the list, the loops visit it forwards and backwards, and [RB_FOREACH_SAFE] and its reverse can remove everything they visit; afterwards the memory holds a tree of the elements of the list, with the parent pointers right. *)
Theorem rb_trees_refine_sorted_lists (key : nat → Z) (cmp : nat → nat → Z) (fuel turns : nat) (w : rbw) (os : list rb_op) (rs : list rb_res) (l : list nat)
  (Hcmp : compares key cmp) (Hfuel : (2 * Nat.log2 (S (size (dom (rbm w)))) + 1 < fuel)%nat) (Hturns : (size (dom (rbm w)) ≤ turns)%nat)
  (Hos : abs_run_all key (dom (rbm w)) [] os = Some (rs, l)) :
  wp (RB_INIT;; rb_run_all cmp fuel turns os) (λ rs' w', rs' = rs ∧ sorted key l ∧ ∃ t, holds w' t ∧ ids t = l) w.
Proof.
  apply wp_bind. eapply wp_mono; [by apply (rb_init_spec key (dom (rbm w)))|]. intros [] w1 Hi.
  eapply wp_mono; [by eapply rb_run_all_spec|]. intros rs' w2 (-> & (t & n & A & _ & <-) & Hs & _). split_and!; [done|done|]. by exists t.
Qed.

(** C15: red-black trees stay balanced.  Whatever sequence of operations ran, the tree in memory has a black root, no red element has a red child, every path from the root down has the same number of black elements, and so no element lies deeper than [2 log2 (n + 1)] for [n] elements in the tree. *)
Theorem rb_trees_stay_balanced (key : nat → Z) (cmp : nat → nat → Z) (fuel turns : nat) (w : rbw) (os : list rb_op) (rs : list rb_res) (l : list nat)
  (Hcmp : compares key cmp) (Hfuel : (2 * Nat.log2 (S (size (dom (rbm w)))) + 1 < fuel)%nat) (Hturns : (size (dom (rbm w)) ≤ turns)%nat)
  (Hos : abs_run_all key (dom (rbm w)) [] os = Some (rs, l)) :
  wp (RB_INIT;; rb_run_all cmp fuel turns os) (λ _ w', ∃ t n, holds w' t ∧ rbt n false t ∧ length (ids t) = length l ∧
    (height t ≤ 2 * Nat.log2 (S (length l)))%nat) w.
Proof.
  apply wp_bind. eapply wp_mono; [by apply (rb_init_spec key (dom (rbm w)))|]. intros [] w1 Hi.
  eapply wp_mono; [by eapply rb_run_all_spec|]. intros rs' w2 (-> & (t & n & A & Ht & <-) & Hs & _). exists t, n. split_and!; [done|done|done|by eapply rbt_log].
Qed.

(** ** A concrete run: sixteen elements, two of which have the same key *)
Definition demo_key (x : nat) : Z := Z.of_nat ((x * 7) mod 15).
Definition demo_cmp (x y : nat) : Z := demo_key x - demo_key y.
Definition demo_mem : rbw := RbW None (list_to_map ((λ x, (x, RbEntry None None None 0)) <$> seq 0 16)).
Definition demo_ops : list rb_op :=
  map OpInsert (seq 0 16) ++ [OpForeach; OpFind 15; OpRemove 4; OpNfind 4; OpRemove 7; OpRemove 0; OpNext 2; OpPrev 2] ++
  map OpRemove [9; 11; 1]%nat ++ [OpMin; OpMax; OpForeachReverse; OpInsert 4; OpClear Lft; OpEmpty; OpInsert 3; OpInsert 8].
Definition demo_results (os : list rb_op) : list rb_res := match abs_run_all demo_key (dom (rbm demo_mem)) [] os with Some (rs, _) => rs | None => [] end.
Lemma demo_compares : compares demo_key demo_cmp.
Proof. intros x y. unfold demo_cmp. lia. Qed.
Lemma rb_trees_refine_sorted_lists_witness : ∃ rs l, l = [3; 8]%nat ∧ take 18 (drop 15 rs) =
  [Ptr (Some 0); Visited [0; 13; 11; 9; 7; 5; 3; 1; 14; 12; 10; 8; 6; 4; 2]; Ptr (Some 0); Ptr (Some 4); Ptr (Some 2); Ptr (Some 7); Ptr (Some 0); Ptr None; Ptr (Some 6);
   Ptr (Some 9); Ptr (Some 11); Ptr (Some 1); Ptr (Some 13); Ptr (Some 2); Visited [2; 6; 8; 10; 12; 14; 3; 5; 13]; Ptr None; Done; Bool true]%nat ∧
  wp (RB_INIT;; rb_run_all demo_cmp 10 16 demo_ops) (λ rs' w', rs' = rs ∧ sorted demo_key l ∧ ∃ t, holds w' t ∧ ids t = l) demo_mem.
Proof.
  eexists _, _. split; [|split; [|eapply (rb_trees_refine_sorted_lists demo_key); [exact demo_compares| | |vm_compute; reflexivity]]];
    [vm_compute; reflexivity|vm_compute; reflexivity|vm_compute; lia|vm_compute; lia].
Defined.
Lemma rb_trees_stay_balanced_witness :
  wp (RB_INIT;; rb_run_all demo_cmp 10 16 (take 27 demo_ops)) (λ _ w', ∃ t n, holds w' t ∧ rbt n false t ∧ length (ids t) = 9%nat ∧ (height t ≤ 2 * Nat.log2 10)%nat) demo_mem.
Proof.
  refine (rb_trees_stay_balanced demo_key demo_cmp 10 16 demo_mem (take 27 demo_ops) (demo_results (take 27 demo_ops)) [13; 5; 3; 14; 12; 10; 8; 6; 2]%nat demo_compares _ _ _).
  - vm_compute. lia.
  - vm_compute. lia.
  - vm_compute. reflexivity.
Defined.
