(* ===== verification/Splay.v ===== *)
(** * Splay trees: [kernel/include/sys/tree.h]

    The macros that generate top-down splay trees.  Elements are named by their identity; a
    null pointer is [None].  [SPLAY] and [SPLAY_MINMAX] keep a local element, [__node], whose
    address they use: a pointer that may be to it is an [sptr].  The two halves of the
    macros are mirror images of each other: a [side] says which one runs. *)

From S2P Require Import Prelude Tree.

Definition SPLAY_NEGINF : Z := -1.
Definition SPLAY_INF : Z := 1.

Record sp_entry := SpEntry { spe_left : option nat; spe_right : option nat }.
Inductive sptr := NODE | Elm (e : nat).
(** [sph_root] of the head, the entries of all elements, and the local [__node]. *)
Record spw := SpW { sph_root : option nat; spm : gmap nat sp_entry; sp_node : sp_entry }.

Definition sp_load (p : sptr) : M spw sp_entry :=
  w ← get; match p with NODE => mret (sp_node w) | Elm e => deref "elm" (spm w !! e) end.
Definition sp_store (p : sptr) (f : sp_entry → sp_entry) : M spw unit :=
  w ← get;
  match p with
  | NODE => put (SpW (sph_root w) (spm w) (f (sp_node w)))
  | Elm e => x ← deref "elm" (spm w !! e); put (SpW (sph_root w) (<[e := f x]> (spm w)) (sp_node w))
  end.
Definition SPLAY_LEFT (p : sptr) : M spw (option nat) := x ← sp_load p; mret (spe_left x).
Definition SPLAY_RIGHT (p : sptr) : M spw (option nat) := x ← sp_load p; mret (spe_right x).
Definition sp_child (d : side) (p : sptr) : M spw (option nat) := match d with Lft => SPLAY_LEFT p | Rgt => SPLAY_RIGHT p end.
Definition sp_put (d : side) (c : option nat) (x : sp_entry) : sp_entry :=
  match d with Lft => SpEntry c (spe_right x) | Rgt => SpEntry (spe_left x) c end.
Definition set_child (d : side) (p : sptr) (c : option nat) : M spw unit := sp_store p (sp_put d c).
Definition SPLAY_ROOT : M spw (option nat) := gets sph_root.
Definition set_sph_root (c : option nat) : M spw unit := modify (λ w, SpW c (spm w) (sp_node w)).
(** The root where it is dereferenced. *)
Definition the_root : M spw nat := r ← SPLAY_ROOT; deref "(head)->sph_root" r.
Definition SPLAY_EMPTY : M spw bool := r ← SPLAY_ROOT; mret (bool_decide (r = None)).
Definition SPLAY_INIT : M spw unit := set_sph_root None.

(** [SPLAY_ROTATE Lft] is [SPLAY_ROTATE_LEFT], [SPLAY_ROTATE Rgt] is [SPLAY_ROTATE_RIGHT]. *)
Definition SPLAY_ROTATE (d : side) (tmp : nat) : M spw unit :=
  r ← the_root;
  c ← sp_child d (Elm tmp);
  set_child (flip d) (Elm r) c;;
  r ← SPLAY_ROOT;
  set_child d (Elm tmp) r;;
  set_sph_root (Some tmp).
(** [SPLAY_LINK Lft] is [SPLAY_LINKLEFT], [SPLAY_LINK Rgt] is [SPLAY_LINKRIGHT]; the result
    is the new [tmp]. *)
Definition SPLAY_LINK (d : side) (tmp : sptr) : M spw sptr :=
  r ← SPLAY_ROOT;
  set_child d tmp r;;
  r ← the_root;
  c ← sp_child d (Elm r);
  set_sph_root c;;
  mret (Elm r).
Definition SPLAY_ASSEMBLE (__left __right : sptr) : M spw unit :=
  r ← the_root;
  l ← SPLAY_LEFT (Elm r);
  set_child Rgt __left l;;
  rr ← SPLAY_RIGHT (Elm r);
  set_child Lft __right rr;;
  nr ← SPLAY_RIGHT NODE;
  set_child Lft (Elm r) nr;;
  nl ← SPLAY_LEFT NODE;
  set_child Rgt (Elm r) nl.

(** One turn of the loops of [SPLAY] and [SPLAY_MINMAX] on one side: [spine] is [__right]
    where [d] is left, [__left] where it is right; the result is its new value, or nothing
    where the loop is left.  [further] is the test whether to rotate. *)
Definition splay_turn (d : side) (further : nat → bool) (spine : sptr) : M spw (option sptr) :=
  r ← the_root;
  tmp ← sp_child d (Elm r);
  match tmp with
  | None => mret None
  | Some tmp =>
      stop ← (if further tmp then
                SPLAY_ROTATE (flip d) tmp;;
                r ← the_root;
                c ← sp_child d (Elm r);
                mret (bool_decide (c = None))
              else mret false);
      if (stop : bool) then mret None else p ← SPLAY_LINK d spine; mret (Some p)
  end.
Definition init_node : M spw unit := modify (λ w, SpW (sph_root w) (spm w) (SpEntry None None)).

(** [SPLAY_MINMAX]. *)
Fixpoint splay_minmax_loop (fuel : nat) (comp : Z) (__left __right : sptr) : M spw (sptr * sptr) :=
  match fuel with
  | O => fail OutOfFuel
  | S fuel =>
      if decide (comp < 0) then
        p ← splay_turn Lft (λ _, bool_decide (comp < 0)) __right;
        match p with Some __right => splay_minmax_loop fuel comp __left __right | None => mret (__left, __right) end
      else if decide (0 < comp) then
        p ← splay_turn Rgt (λ _, bool_decide (0 < comp)) __left;
        match p with Some __left => splay_minmax_loop fuel comp __left __right | None => mret (__left, __right) end
      else splay_minmax_loop fuel comp __left __right
  end.
Definition SPLAY_MINMAX (fuel : nat) (comp : Z) : M spw unit :=
  init_node;;
  '(__left, __right) ← splay_minmax_loop fuel comp NODE NODE;
  SPLAY_ASSEMBLE __left __right.
Definition SPLAY_MIN_MAX (fuel : nat) (val : Z) : M spw (option nat) := SPLAY_MINMAX fuel val;; SPLAY_ROOT.
Definition SPLAY_MIN (fuel : nat) : M spw (option nat) :=
  e ← SPLAY_EMPTY; if (e : bool) then mret None else SPLAY_MIN_MAX fuel SPLAY_NEGINF.
Definition SPLAY_MAX (fuel : nat) : M spw (option nat) :=
  e ← SPLAY_EMPTY; if (e : bool) then mret None else SPLAY_MIN_MAX fuel SPLAY_INF.

Section search.
Context (cmp : nat → nat → Z).
Fixpoint splay_loop (fuel : nat) (elm : nat) (__left __right : sptr) : M spw (sptr * sptr) :=
  match fuel with
  | O => fail OutOfFuel
  | S fuel =>
      r ← the_root;
      let comp := cmp elm r in
      if decide (comp < 0) then
        p ← splay_turn Lft (λ tmp, bool_decide (cmp elm tmp < 0)) __right;
        match p with Some __right => splay_loop fuel elm __left __right | None => mret (__left, __right) end
      else if decide (0 < comp) then
        p ← splay_turn Rgt (λ tmp, bool_decide (0 < cmp elm tmp)) __left;
        match p with Some __left => splay_loop fuel elm __left __right | None => mret (__left, __right) end
      else mret (__left, __right)
  end.
Definition SPLAY (fuel : nat) (elm : nat) : M spw unit :=
  init_node;;
  '(__left, __right) ← splay_loop fuel elm NODE NODE;
  SPLAY_ASSEMBLE __left __right.

Definition SPLAY_INSERT (fuel : nat) (elm : nat) : M spw (option nat) :=
  e ← SPLAY_EMPTY;
  found ←
    (if (e : bool) then set_child Rgt (Elm elm) None;; set_child Lft (Elm elm) None;; mret None
     else
       SPLAY fuel elm;;
       r ← the_root;
       let comp := cmp elm r in
       if decide (comp < 0) then
         l ← SPLAY_LEFT (Elm r);
         set_child Lft (Elm elm) l;;
         set_child Rgt (Elm elm) (Some r);;
         set_child Lft (Elm r) None;;
         mret None
       else if decide (0 < comp) then
         rr ← SPLAY_RIGHT (Elm r);
         set_child Rgt (Elm elm) rr;;
         set_child Lft (Elm elm) (Some r);;
         set_child Rgt (Elm r) None;;
         mret None
       else mret (Some r));
  match found with
  | Some r => mret (Some r)
  | None => set_sph_root (Some elm);; mret None
  end.
Definition SPLAY_REMOVE (fuel : nat) (elm : nat) : M spw (option nat) :=
  e ← SPLAY_EMPTY;
  if (e : bool) then mret None else
  SPLAY fuel elm;;
  r ← the_root;
  if decide (cmp elm r = 0) then
    l ← SPLAY_LEFT (Elm r);
    match l with
    | None => rr ← SPLAY_RIGHT (Elm r); set_sph_root rr
    | Some _ =>
        tmp ← SPLAY_RIGHT (Elm r);
        set_sph_root l;;
        SPLAY fuel elm;;
        r ← the_root;
        set_child Rgt (Elm r) tmp
    end;;
    mret (Some elm)
  else mret None.
Definition SPLAY_FIND (fuel : nat) (elm : nat) : M spw (option nat) :=
  e ← SPLAY_EMPTY;
  if (e : bool) then mret None else
  SPLAY fuel elm;;
  r ← the_root;
  mret (if decide (cmp elm r = 0) then Some r else None).
(** [while (SPLAY_LEFT(elm) != NULL) elm = SPLAY_LEFT(elm)]. *)
Fixpoint splay_leftmost (fuel : nat) (elm : nat) : M spw nat :=
  match fuel with
  | O => fail OutOfFuel
  | S fuel => c ← SPLAY_LEFT (Elm elm); match c with Some c => splay_leftmost fuel c | None => mret elm end
  end.
Definition SPLAY_NEXT (fuel : nat) (elm : nat) : M spw (option nat) :=
  SPLAY fuel elm;;
  r ← SPLAY_RIGHT (Elm elm);
  match r with Some r => e ← splay_leftmost fuel r; mret (Some e) | None => mret None end.
(** [SPLAY_FOREACH]: the elements in the order the loop visits them; [fuel] for each search,
    [n] turns. *)
Fixpoint splay_foreach_loop (fuel n : nat) (x : option nat) : M spw (list nat) :=
  match x with
  | None => mret []
  | Some x =>
      match n with
      | O => fail OutOfFuel
      | S n => y ← SPLAY_NEXT fuel x; l ← splay_foreach_loop fuel n y; mret (x :: l)
      end
  end.
Definition SPLAY_FOREACH (fuel n : nat) : M spw (list nat) := x ← SPLAY_MIN fuel; splay_foreach_loop fuel n x.
End search.
