(* ===== verification/SplayRep.v ===== *)
(** * Splay trees: the tree a memory holds, and splaying

    The functional trees are those of the red-black trees; their colours mean nothing here.
    While [SPLAY] runs, the tree is in three parts: what is known to be smaller hangs from
    [__left], what is known to be larger from [__right], the rest from the root. *)

From Stdlib Require Import Sorted.
From S2P Require Import Prelude Tree TreeRep TreeInsert TreeFind Splay.

(** ** Memories *)
Definition spentry (d : side) (a b : option nat) : sp_entry := match d with Lft => SpEntry a b | Rgt => SpEntry b a end.
Definition sp_field (d : side) (x : sp_entry) : option nat := match d with Lft => spe_left x | Rgt => spe_right x end.
Fixpoint srep (m : gmap nat sp_entry) (t : tree) : Prop :=
  match t with E => True | T _ l x r => m !! x = Some (SpEntry (root l) (root r)) ∧ srep m l ∧ srep m r end.
(** A spine: the elements of a side with their other subtrees, the hole first. *)
Fixpoint spine (d : side) (w : spw) (K : list (tree * nat)) (hole : option nat) : Prop :=
  match K with
  | [] => sp_field d (sp_node w) = hole
  | (s, x) :: K => spm w !! x = Some (spentry d hole (root s)) ∧ srep (spm w) s ∧ spine d w K (Some x)
  end.
Definition spine_ptr (K : list (tree * nat)) : sptr := match K with [] => NODE | (_, x) :: _ => Elm x end.
Fixpoint sids (K : list (tree * nat)) : list nat := match K with [] => [] | (s, x) :: K => x :: ids s ++ sids K end.
Definition frames (d : side) (K : list (tree * nat)) : list frame := map (λ '(s, x), Frame d false x s) K.
Definition sholds (w : spw) (t : tree) : Prop := sph_root w = root t ∧ srep (spm w) t ∧ NoDup (ids t).
(** In the middle of splaying: [K] has its hole on side [d], [K'] on the other.  The elements
    of other trees are as they were in [m0]. *)
Section splaying.
Context (m0 : gmap nat sp_entry).
Record splaying (d : side) (w : spw) (K : list (tree * nat)) (t : tree) (K' : list (tree * nat)) : Prop := {
  sy_root : sph_root w = root t;
  sy_rep : srep (spm w) t;
  sy_spine : ∃ h, spine d w K h;
  sy_other : ∃ h, spine (flip d) w K' h;
  sy_nodup : NoDup (ids t ++ sids K ++ sids K');
  sy_frame : ∀ z, z ∉ ids t ++ sids K ++ sids K' → spm w !! z = m0 !! z;
}.
(** All elements in order. *)
Definition whole (d : side) (K : list (tree * nat)) (t : tree) (K' : list (tree * nat)) : list nat :=
  ids (plug (frames d K) (plug (frames (flip d) K') t)).

Lemma spentry_flip d a b : spentry (flip d) a b = spentry d b a.
Proof. by destruct d. Qed.
Lemma sp_put_entry d a b c : sp_put d c (spentry d a b) = spentry d c b ∧ sp_put (flip d) c (spentry d a b) = spentry d a c.
Proof. by destruct d. Qed.
Lemma sp_put_field d c x : sp_field d (sp_put d c x) = c ∧ sp_field (flip d) (sp_put d c x) = sp_field (flip d) x.
Proof. by destruct d. Qed.
Lemma srep_mk m d c a x b : srep m (mk d c a x b) ↔ m !! x = Some (spentry d (root a) (root b)) ∧ srep m a ∧ srep m b.
Proof. destruct d; cbn; tauto. Qed.
Lemma srep_ext m m' t : (∀ z, z ∈ ids t → m' !! z = m !! z) → srep m t → srep m' t.
Proof.
  induction t as [|c l IHl x r IHr]; intros Hm; [done|]. cbn in *. intros (H1 & H2 & H3).
  split_and!; [rewrite Hm; [set_solver|done]|apply IHl; [set_solver|done]|apply IHr; [set_solver|done]].
Qed.
Lemma spine_ext d w w' K h : (∀ z, z ∈ sids K → spm w' !! z = spm w !! z) → sp_field d (sp_node w') = sp_field d (sp_node w) →
  spine d w K h → spine d w' K h.
Proof.
  revert h. induction K as [|[s x] K IH]; intros h Hm Hn; cbn in *; [by rewrite Hn|]. intros (H1 & H2 & H3).
  split_and!; [rewrite Hm; [set_solver|done]|eapply srep_ext; [|done]; intros z Hz; apply Hm; set_solver|apply IH; [set_solver|done|done]].
Qed.
(** A spine whose hole is filled is a tree. *)
Lemma spine_fill d w K t : spine d w K (root t) → srep (spm w) t →
  sp_field d (sp_node w) = root (plug (frames d K) t) ∧ srep (spm w) (plug (frames d K) t).
Proof.
  revert t. induction K as [|[s x] K IH]; intros t; cbn; [done|]. intros (H1 & H2 & H3) Ht. apply IH; [by rewrite root_mk|]. by apply srep_mk.
Qed.
Lemma ids_spine_perm d K t : ids (plug (frames d K) t) ≡ₚ sids K ++ ids t.
Proof.
  revert t. induction K as [|[s x] K IH]; intros t; cbn [frames map plug sids]; [done|]. fold (frames d K). rewrite IH ids_mk_perm.
  rewrite -Permutation_middle -app_comm_cons (Permutation_app_comm (ids t)). by rewrite !app_assoc (Permutation_app_comm (sids K)).
Qed.
Lemma splaying_flip d w K t K' : splaying d w K t K' → splaying (flip d) w K' t K.
Proof.
  intros [H1 H2 H3 H4 H5 H6]. split; [done|done|done|by rewrite flip_flip|by rewrite (Permutation_app_comm (sids K'))|].
  intros z. rewrite (Permutation_app_comm (sids K')). apply H6.
Qed.

(** ** Steps *)
Lemma wp_the_root x (Q : nat → spw → Prop) w : sph_root w = Some x → Q x w → wp the_root Q w.
Proof. intros Hx HQ. apply wp_bind, wp_gets, wp_deref. by exists x. Qed.
Lemma wp_sp_child d e a b (Q : option nat → spw → Prop) w : spm w !! e = Some (spentry d a b) → Q a w → wp (sp_child d (Elm e)) Q w.
Proof.
  intros He HQ. destruct d; unfold sp_child, SPLAY_LEFT, SPLAY_RIGHT, sp_load; (apply wp_bind, wp_bind, wp_get, wp_deref; eexists; split; [exact He|by apply wp_ret]).
Qed.
Lemma wp_set_child d e a b c (Q : unit → spw → Prop) w : spm w !! e = Some (spentry d a b) →
  Q tt (SpW (sph_root w) (<[e := spentry d c b]> (spm w)) (sp_node w)) → wp (set_child d (Elm e) c) Q w.
Proof.
  intros He HQ. unfold set_child, sp_store. apply wp_bind, wp_get, wp_bind, wp_deref. eexists. split; [exact He|]. apply wp_put. by destruct d.
Qed.
Lemma set_hole d w K h v (Q : unit → spw → Prop) : spine d w K h → NoDup (sids K) →
  (∀ w', spine d w' K v → sph_root w' = sph_root w → (∀ z, z ∉ sids K → spm w' !! z = spm w !! z) →
    sp_field (flip d) (sp_node w') = sp_field (flip d) (sp_node w) → Q tt w') →
  wp (set_child d (spine_ptr K) v) Q w.
Proof.
  intros HK Hn HQ. destruct K as [|[s x] K]; cbn [spine_ptr].
  - unfold set_child, sp_store. apply wp_bind, wp_get, wp_put. destruct (sp_put_field d v (sp_node w)). by apply HQ.
  - destruct HK as (Hx & Hs & HK). cbn in Hn. apply NoDup_cons in Hn as [Nx Hn]. eapply wp_set_child; [exact Hx|]. apply HQ; [|done| |done].
    + cbn. split_and!; [apply lookup_insert_eq| |].
      * eapply srep_ext; [|done]. intros z Hz. apply lookup_insert_ne. set_solver.
      * eapply spine_ext; [| |exact HK]; [|done]. intros z Hz. cbn. apply lookup_insert_ne. set_solver.
    + intros z Hz. cbn. apply lookup_insert_ne. cbn in Hz. set_solver.
Qed.

Lemma splay_rotate_spec d w K c c' a1 y a2 x b K' : splaying d w K (mk d c (mk d c' a1 y a2) x b) K' →
  wp (SPLAY_ROTATE (flip d) y) (λ _ w', splaying d w' K (mk d c' a1 y (mk d c a2 x b)) K') w.
Proof.
  intros [Hr Ht [h HK] [h' HK'] Hn Hm]. apply srep_mk in Ht as (Hx & (Hy & Ha1 & Ha2)%srep_mk & Hb). rewrite root_mk in Hr, Hx.
  rewrite !ids_mk_perm in Hn. cbn in Hn.
  assert (x ≠ y ∧ ∀ z, z ∈ ids a1 ++ ids a2 ++ ids b ++ sids K ++ sids K' → z ≠ x ∧ z ≠ y) as [Nxy Nz].
  { apply NoDup_cons in Hn as [Nx [Ny _]%NoDup_cons]. split; [set_solver|]. intros z Hz. split; intros ->; [apply Nx|apply Ny]; set_solver. }
  unfold SPLAY_ROTATE. apply wp_bind. eapply wp_the_root; [exact Hr|]. apply wp_bind. eapply wp_sp_child; [by rewrite spentry_flip|].
  rewrite flip_flip. apply wp_bind. eapply wp_set_child; [exact Hx|]. apply wp_bind, wp_gets. apply wp_bind.
  eapply wp_set_child; [cbn; rewrite lookup_insert_ne //; by rewrite spentry_flip|]. apply wp_modify. cbn. rewrite Hr spentry_flip. set (w' := SpW _ _ _).
  assert (∀ z, z ∈ ids a1 ++ ids a2 ++ ids b ++ sids K ++ sids K' → spm w' !! z = spm w !! z) as M'.
  { intros z Hz. destruct (Nz z Hz). cbn. by rewrite !lookup_insert_ne. }
  assert (∀ t, (∀ z, z ∈ ids t → z ∈ ids a1 ++ ids a2 ++ ids b) → srep (spm w) t → srep (spm w') t) as R'.
  { intros t Hz. apply srep_ext. intros z Hz'. apply M'. specialize (Hz z Hz'). set_solver. }
  split; [by rewrite root_mk| | | | |].
  - apply srep_mk. rewrite root_mk. split_and!; [apply lookup_insert_eq|apply R'; [set_solver|done]|]. apply srep_mk.
    split_and!; [cbn; rewrite lookup_insert_ne //; apply lookup_insert_eq|apply R'; [set_solver|done]|apply R'; [set_solver|done]].
  - exists h. eapply spine_ext; [| |exact HK]; [|done]. intros z Hz. apply M'. set_solver.
  - exists h'. eapply spine_ext; [| |exact HK']; [|done]. intros z Hz. apply M'. set_solver.
  - rewrite !ids_mk_perm -Permutation_middle -!app_comm_cons (perm_swap x y). rewrite -!app_assoc in Hn. by rewrite -!app_assoc.
  - intros z. rewrite !ids_mk_perm. intros Hz. cbn. rewrite !lookup_insert_ne; [set_solver|set_solver|]. apply Hm. rewrite !ids_mk_perm. set_solver.
Qed.

Lemma splay_link_spec d w K c a x b K' : splaying d w K (mk d c a x b) K' →
  wp (SPLAY_LINK d (spine_ptr K)) (λ p w', p = Elm x ∧ splaying d w' ((b, x) :: K) a K') w.
Proof.
  intros [Hr Ht [h HK] [h' HK'] Hn Hm]. apply srep_mk in Ht as (Hx & Ha & Hb). rewrite root_mk in Hr. rewrite ids_mk_perm in Hn.
  assert (NoDup (sids K) ∧ (∀ z, z ∈ x :: ids a ++ ids b ++ sids K' → z ∉ sids K)) as [NK Nz].
  { rewrite (Permutation_app_comm (sids K)) app_assoc in Hn. apply NoDup_app in Hn as (_ & Nd & NK). split; [done|]. intros z Hz. apply Nd. set_solver. }
  unfold SPLAY_LINK. apply wp_bind, wp_gets. rewrite Hr. apply wp_bind. eapply set_hole; [exact HK|done|]. intros w1 HK1 R1 M1 N1.
  apply wp_bind. eapply wp_the_root; [rewrite R1; exact Hr|]. apply wp_bind.
  assert (spm w1 !! x = Some (spentry d (root a) (root b))) as Hx1 by (rewrite M1; [apply Nz; set_solver|done]).
  eapply wp_sp_child; [exact Hx1|]. apply wp_bind, wp_modify, wp_ret. split; [done|]. split; [done| | | | |].
  - cbn. eapply srep_ext; [|exact Ha]. intros z Hz. apply M1, Nz. set_solver.
  - exists (root a). cbn. split_and!; [exact Hx1| |by eapply spine_ext; [| |exact HK1]].
    eapply srep_ext; [|exact Hb]. intros z Hz. apply M1, Nz. set_solver.
  - exists h'. eapply spine_ext; [| |exact HK']; [|exact N1]. intros z Hz. apply M1, Nz. set_solver.
  - cbn [sids]. rewrite -app_comm_cons -Permutation_middle. rewrite -app_comm_cons -!app_assoc in Hn. by rewrite -!app_assoc.
  - intros z Hz. cbn [spm]. cbn [sids] in Hz. rewrite M1; [set_solver|]. apply Hm. rewrite ids_mk_perm. set_solver.
Qed.
Lemma splay_assemble_spec w L c l x r R : splaying Lft w R (T c l x r) L →
  wp (SPLAY_ASSEMBLE (spine_ptr L) (spine_ptr R)) (λ _ w',
    let t := T false (plug (frames Rgt L) l) x (plug (frames Lft R) r) in sholds w' t ∧ ∀ z, z ∉ ids t → spm w' !! z = m0 !! z) w.
Proof.
  intros [Hr (Hx & Hl & Hrr) [hR HR] [hL HL] Hn Hm]. cbn [root flip] in *.
  assert (NoDup (sids L) ∧ NoDup (sids R) ∧ (∀ z, z ∈ sids L → z ∉ sids R ∧ z ≠ x ∧ z ∉ ids l ∧ z ∉ ids r) ∧ (∀ z, z ∈ sids R → z ≠ x ∧ z ∉ ids l ∧ z ∉ ids r) ∧ x ∉ ids l ++ ids r)
    as (NL & NR & DL & DR & Dx).
  { cbn in Hn. apply NoDup_app in Hn as (N1 & N2 & (N3 & N4 & N5)%NoDup_app). split_and!; [done|done| | |].
    - intros z Hz. split_and!; [intros Hz'; by apply (N4 z)|intros ->; apply (N2 x); set_solver|intros Hz'; apply (N2 z); set_solver|intros Hz'; apply (N2 z); set_solver].
    - intros z Hz. split_and!; [intros ->; apply (N2 x); set_solver|intros Hz'; apply (N2 z); set_solver|intros Hz'; apply (N2 z); set_solver].
    - rewrite -Permutation_middle in N1. by apply NoDup_cons in N1 as [? _]. }
  assert (NoDup (ids (T false (plug (frames Rgt L) l) x (plug (frames Lft R) r)))) as Nend.
  { assert (ids (plug (frames Rgt L) l) ≡ₚ sids L ++ ids l ∧ ids (plug (frames Lft R) r) ≡ₚ sids R ++ ids r) as [PL PR] by (split; apply ids_spine_perm).
    cbn [ids] in Hn |- *. rewrite PL PR. rewrite -Permutation_middle. rewrite -Permutation_middle in Hn. eapply NoDup_Permutation_proper; [|exact Hn]. solve_Permutation. }
  unfold SPLAY_ASSEMBLE. apply wp_bind. eapply wp_the_root; [exact Hr|]. apply wp_bind. eapply (wp_sp_child Lft); [exact Hx|]. apply wp_bind.
  eapply set_hole; [exact HL|done|]. intros w1 HL1 R1 M1 F1. cbn [flip] in F1.
  assert (spm w1 !! x = Some (SpEntry (root l) (root r))) as Hx1 by (rewrite M1 //; intros Hz; by destruct (DL x Hz) as (_ & ? & _)).
  apply wp_bind. eapply (wp_sp_child Rgt); [exact Hx1|]. apply wp_bind.
  eapply (set_hole Lft w1 R hR); [|done|]. { eapply spine_ext; [|exact F1|exact HR]. intros z Hz. apply M1. intros Hz'. by destruct (DL z Hz') as (? & _). }
  intros w2 HR2 R2 M2 F2. cbn [flip] in F2.
  assert (spine Rgt w2 L (root l)) as HL2. { eapply spine_ext; [|exact F2|exact HL1]. intros z Hz. apply M2. by apply DL. }
  assert (∀ z, z ∉ sids L → z ∉ sids R → spm w2 !! z = spm w !! z) as M12 by (intros z H1 H2; rewrite M2 //; by apply M1).
  destruct (spine_fill Rgt w2 L l HL2) as [FL SL].
  { eapply srep_ext; [|exact Hl]. intros z Hz. apply M12; intros Hz'; [by destruct (DL z Hz') as (_ & _ & ? & _)|by destruct (DR z Hz') as (_ & ? & _)]. }
  destruct (spine_fill Lft w2 R r HR2) as [FR SR].
  { eapply srep_ext; [|exact Hrr]. intros z Hz. apply M12; intros Hz'; [by destruct (DL z Hz') as (_ & _ & _ & ?)|by destruct (DR z Hz') as (_ & _ & ?)]. }
  assert (spm w2 !! x = Some (SpEntry (root l) (root r))) as Hx2 by (rewrite M2 //; intros Hz; by destruct (DR x Hz) as (? & _)).
  apply wp_bind. unfold SPLAY_RIGHT. apply wp_bind. unfold sp_load. apply wp_bind, wp_get, wp_ret, wp_ret. cbn in FL, FR. rewrite FL.
  apply wp_bind. eapply (wp_set_child Lft); [exact Hx2|]. apply wp_bind. unfold SPLAY_LEFT. apply wp_bind. unfold sp_load. apply wp_bind, wp_get, wp_ret, wp_ret. cbn. rewrite FR.
  eapply (wp_set_child Rgt); [apply lookup_insert_eq|]. cbn. rewrite insert_insert_eq.
  cbn in Nend. pose proof Nend as (_ & NxL & [NxR _]%NoDup_cons)%NoDup_app.
  cbn zeta. split; [split_and!; [cbn; congruence| |done]|].
  2: { intros z Hz. cbn [ids] in Hz. rewrite (ids_spine_perm Rgt) (ids_spine_perm Lft) in Hz. cbn. rewrite lookup_insert_ne; [set_solver|]. rewrite M12; [set_solver|set_solver|]. apply Hm. cbn. set_solver. }
  cbn. split_and!; [apply lookup_insert_eq|eapply srep_ext; [|exact SL]|eapply srep_ext; [|exact SR]]; intros z Hz; apply lookup_insert_ne; intros <-.
  - apply (NxL x Hz). left.
  - done.
Qed.

(** ** One turn *)
Lemma mk_some d c a x b K w K' (Q : option sptr → spw → Prop) : splaying d w K (mk d c a x b) K' → a ≠ E →
  (∀ w', splaying d w' ((b, x) :: K) a K' → Q (Some (Elm x)) w') → wp (p ← SPLAY_LINK d (spine_ptr K); mret (Some p)) Q w.
Proof. intros Hs Ha HQ. apply wp_bind. eapply wp_mono; [by eapply splay_link_spec|]. intros p w' [-> Hs']. apply wp_ret. by apply HQ. Qed.
(** The tree is left of [z] (on side [d]) as far as the search goes: the loop ends there, or
    goes on with a smaller tree. *)
Lemma splay_turn_spec d f w K c a x b K' : splaying d w K (mk d c a x b) K' →
  wp (splay_turn d f (spine_ptr K)) (λ r w', ∃ z s t, (z = x ∨ f z = true) ∧ ids (mk d false t z s) = ids (mk d c a x b) ∧
    match r with
    | None => t = E ∧ ∃ c', splaying d w' K (mk d c' E z s) K'
    | Some p => p = Elm z ∧ t ≠ E ∧ splaying d w' ((s, z) :: K) t K'
    end) w.
Proof.
  intros Hs. pose proof Hs as [Hr (Hx & _)%srep_mk _ _ _ _]. rewrite root_mk in Hr. unfold splay_turn.
  apply wp_bind. eapply wp_the_root; [exact Hr|]. apply wp_bind. eapply wp_sp_child; [exact Hx|].
  destruct (tree_mk d a) as [->|(ca & a1 & y & a2 & ->)].
  { apply wp_ret. exists x, b, E. split_and!; [by left|by destruct d|done|by exists c]. }
  rewrite root_mk. apply wp_bind. destruct (f y) eqn:Ef.
  - apply wp_bind. eapply wp_mono; [by eapply splay_rotate_spec|]. intros [] w1 Hs1.
    assert (ids (mk d false a1 y (mk d c a2 x b)) = ids (mk d c (mk d ca a1 y a2) x b)) as Hi.
    { destruct d; cbn; by rewrite -?app_assoc /= -?app_assoc. }
    pose proof Hs1 as [Hr1 (Hy1 & _)%srep_mk _ _ _ _]. rewrite root_mk in Hr1.
    apply wp_bind. eapply wp_the_root; [exact Hr1|]. apply wp_bind. eapply wp_sp_child; [exact Hy1|]. apply wp_ret.
    destruct a1 as [|c1 l1 x1 r1]; cbn [root].
    + rewrite bool_decide_eq_true_2 //. apply wp_ret. exists y, (mk d c a2 x b), E. split_and!; [by right|done|done|by exists ca].
    + rewrite bool_decide_eq_false_2 //. eapply mk_some; [exact Hs1|done|]. intros w2 Hs2. exists y, (mk d c a2 x b), (T c1 l1 x1 r1). split_and!; [by right|done|done|done|done].
  - apply wp_ret. eapply mk_some; [exact Hs|by destruct d|]. intros w2 Hs2. exists x, b, (mk d ca a1 y a2).
    split_and!; [by left|by apply ids_mk_cong|done|by destruct d|done].
Qed.
End splaying.
Lemma frames_side K : before (frames Lft K) = [] ∧ after (frames Rgt K) = [].
Proof. induction K as [|[s x] K [H1 H2]]; [done|]. split; [exact H1|exact H2]. Qed.
Lemma whole_link d K s z t K' : whole d ((s, z) :: K) t K' = whole d K (mk d false t z s) K'.
Proof.
  unfold whole. cbn [frames map plug]. fold (frames d K). rewrite !(ids_plug (frames d K)). f_equal. f_equal.
  destruct d; cbn; rewrite !ids_plug; cbn; [rewrite (proj2 (frames_side K'))|rewrite (proj1 (frames_side K'))]; rewrite ?app_nil_r -?app_assoc; done.
Qed.
Lemma whole_ids d K t t' K' : ids t = ids t' → whole d K t K' = whole d K t' K'.
Proof. intros Hi. unfold whole. by rewrite !ids_plug Hi. Qed.
Lemma whole_flip d K t K' : whole (flip d) K' t K = whole d K t K'.
Proof.
  unfold whole. rewrite flip_flip !ids_plug. 
  destruct d; cbn; rewrite (proj1 (frames_side _)) (proj2 (frames_side _)); cbn; by rewrite ?app_nil_r -?app_assoc.
Qed.
