(* ===== verification/SplayProps.v ===== *)
(** * Splay trees: what clients of [sys/tree.h] can rely on *)

From Stdlib Require Import Sorted.
From S2P Require Import Prelude Tree TreeRep TreeInsert TreeFind TreeProps Splay SplayRep.

(** ** Splaying *)
Section splay.
Context (key : nat → Z).
(** [e] belongs on side [d] of [y]. *)
Definition side_of (d : side) (e y : nat) : Prop := match d with Lft => key e < key y | Rgt => key y < key e end.
Lemma beyond d c t z s e : sorted key (ids (mk d c t z s)) → side_of d e z → ∀ y, y ∈ ids s → side_of d e y.
Proof.
  intros Hs Hz y Hy. destruct d; cbn in *.
  - apply sorted_app in Hs as (_ & [_ F]%StronglySorted_inv & _). rewrite Forall_forall in F. specialize (F y Hy). cbn in F. lia.
  - apply sorted_app in Hs as (_ & _ & H12). specialize (H12 y z Hy ltac:(left)). lia.
Qed.
Lemma sorted_part d K t K' : sorted key (whole d K t K') → sorted key (ids t).
Proof. intros H. by do 2 apply sorted_focus in H. Qed.
Context (cmp : nat → nat → Z) (Hcmp : compares key cmp).

(** Where the search for [elm] has ended. *)
Definition found_place (elm : nat) (L : list (tree * nat)) (l r : tree) (R : list (tree * nat)) : Prop :=
  (∀ y, y ∈ sids L ++ ids l → key y < key elm) ∧ (∀ y, y ∈ ids r ++ sids R → key elm < key y).
Lemma splay_loop_spec m0 fuel elm : ∀ w L t R, splaying m0 Lft w R t L → t ≠ E → sorted key (whole Lft R t L) →
  (∀ y, y ∈ sids L → key y < key elm) → (∀ y, y ∈ sids R → key elm < key y) → (length (ids t) < fuel)%nat →
  wp (splay_loop cmp fuel elm (spine_ptr L) (spine_ptr R)) (λ p w', ∃ L' R' c l x r, p = (spine_ptr L', spine_ptr R') ∧
    splaying m0 Lft w' R' (T c l x r) L' ∧ whole Lft R' (T c l x r) L' = whole Lft R t L ∧ found_place elm L' l r R') w.
Proof.
  induction fuel as [|fuel IH]; intros w L t R Hs Ht So HL HR Hf; [lia|]. destruct t as [|c l x r]; [done|]. cbn [splay_loop].
  apply wp_bind. eapply wp_the_root; [apply Hs|]. pose proof (sorted_part _ _ _ _ So) as Sx. destruct (Hcmp elm x) as [Cl Cr].
  destruct (decide (cmp elm x < 0)) as [C|C]; [|destruct (decide (0 < cmp elm x)) as [C2|C2]].
  - apply wp_bind. eapply wp_mono; [apply (splay_turn_spec m0 Lft _ w R c l x r L Hs)|]. intros p w1 (z & s & t & Hz & Hi & Hp).
    assert (key elm < key z) as Kz. { destruct Hz as [->|Hz%bool_decide_eq_true]; [by apply Cl|by apply (Hcmp elm z)]. }
    assert (∀ y, y ∈ ids s → key elm < key y) as Ks by (apply (beyond Lft false t z s elm); [by rewrite Hi|done]).
    destruct p as [p|].
    + destruct Hp as (-> & Nt & Hs1). eapply wp_mono; [eapply (IH w1 L t ((s, z) :: R) Hs1 Nt)|].
      * rewrite whole_link (whole_ids _ _ _ _ _ Hi). exact So.
      * done.
      * intros y Hy. cbn in Hy. apply elem_of_cons in Hy as [->|[Hy|Hy]%elem_of_app]; [done|by apply Ks|by apply HR].
      * apply (f_equal length) in Hi. cbn in Hi, Hf. rewrite !length_app /= in Hi, Hf. lia.
      * intros p w2 (L' & R' & c' & l' & x' & r' & -> & Hs2 & Hw & Hfp). exists L', R', c', l', x', r'. split_and!; [done|done| |exact Hfp].
        rewrite Hw whole_link. by apply whole_ids.
    + destruct Hp as (-> & c' & Hs1). apply wp_ret. exists L, R, c', E, z, s. unfold found_place. split_and!; [done|done|by apply whole_ids|rewrite app_nil_r; done|].
      intros y [Hy|Hy]%elem_of_app; [by apply Ks|by apply HR].
  - apply wp_bind. eapply wp_mono; [apply (splay_turn_spec m0 Rgt _ w L c r x l R (splaying_flip _ _ _ _ _ _ Hs))|]. intros p w1 (z & s & t & Hz & Hi & Hp).
    assert (key z < key elm) as Kz. { destruct Hz as [->|Hz%bool_decide_eq_true]; [by apply Cr|by apply (Hcmp elm z)]. }
    assert (∀ y, y ∈ ids s → key y < key elm) as Ks by (apply (beyond Rgt false t z s elm); [by rewrite Hi|done]).
    destruct p as [p|].
    + destruct Hp as (-> & Nt & Hs1). eapply wp_mono; [eapply (IH w1 ((s, z) :: L) t R (splaying_flip _ _ _ _ _ _ Hs1) Nt)|].
      * rewrite -(whole_flip Lft) whole_link (whole_ids _ _ _ _ _ Hi) (whole_flip Lft). exact So.
      * intros y Hy. cbn in Hy. apply elem_of_cons in Hy as [->|[Hy|Hy]%elem_of_app]; [done|by apply Ks|by apply HL].
      * done.
      * apply (f_equal length) in Hi. cbn in Hi, Hf. rewrite !length_app /= in Hi, Hf. lia.
      * intros p w2 (L' & R' & c' & l' & x' & r' & -> & Hs2 & Hw & Hfp). exists L', R', c', l', x', r'. split_and!; [done|done| |exact Hfp].
        rewrite Hw -(whole_flip Lft) whole_link -(whole_flip Lft). by apply whole_ids.
    + destruct Hp as (-> & c' & Hs1). apply wp_ret. exists L, R, c', s, z, E. unfold found_place. split_and!; [done|exact (splaying_flip _ _ _ _ _ _ Hs1)| | |done].
      * rewrite -(whole_flip Lft) -(whole_flip Lft R). by apply whole_ids.
      * intros y [Hy|Hy]%elem_of_app; [by apply HL|by apply Ks].
  - apply wp_ret. assert (key elm = key x) as Ke by by eapply go_stay. exists L, R, c, l, x, r. unfold found_place. split_and!; [done|done|done| |].
    + cbn in Sx. apply sorted_app in Sx as (_ & _ & H12). intros y [Hy|Hy]%elem_of_app; [by apply HL|]. specialize (H12 y x Hy ltac:(left)). lia.
    + cbn in Sx. apply sorted_app in Sx as (_ & [_ F]%StronglySorted_inv & _). rewrite Forall_forall in F. intros y [Hy|Hy]%elem_of_app; [|by apply HR].
      specialize (F y Hy). cbn in F. lia.
Qed.
Lemma splaying_start w t : sholds w t → splaying (spm w) Lft (SpW (sph_root w) (spm w) (SpEntry None None)) [] t [].
Proof. intros (Hr & Ht & Hn). split; [done|done|by exists None|by exists None|by rewrite !app_nil_r|done]. Qed.
Lemma SPLAY_spec fuel elm w t : sholds w t → t ≠ E → sorted key (ids t) → (length (ids t) < fuel)%nat →
  wp (SPLAY cmp fuel elm) (λ _ w', ∃ c l x r, sholds w' (T c l x r) ∧ ids t = ids l ++ x :: ids r ∧
    (∀ y, y ∈ ids l → key y < key elm) ∧ (∀ y, y ∈ ids r → key elm < key y) ∧ (∀ z, z ∉ ids t → spm w' !! z = spm w !! z)) w.
Proof.
  intros Hs Ht So Hf. unfold SPLAY. apply wp_bind. apply wp_modify. apply wp_bind.
  eapply wp_mono; [apply (splay_loop_spec (spm w) fuel elm _ [] t [] (splaying_start w t Hs) Ht); [done|by intros y ?%not_elem_of_nil|by intros y ?%not_elem_of_nil|done]|].
  intros p w1 (L & R & c & l & x & r & -> & Hs1 & Hw & Hl & Hr). eapply wp_mono; [by eapply splay_assemble_spec|]. intros [] w2 [Hs2 M2].
  assert (ids t = ids (plug (frames Rgt L) l) ++ x :: ids (plug (frames Lft R) r)) as Hi.
  { unfold whole in Hw. cbn in Hw. rewrite -Hw. clear. rewrite !ids_plug. cbn. destruct (frames_side R) as [-> _]. destruct (frames_side L) as [_ ->].
    cbn. by rewrite ?app_nil_r -?app_assoc. }
  eexists _, _, _, _. split_and!; [exact Hs2|exact Hi| | |by rewrite Hi].
  - intros y Hy. apply Hl. by rewrite -(ids_spine_perm Rgt).
  - intros y Hy. apply Hr. rewrite (Permutation_app_comm (ids r)). by rewrite -(ids_spine_perm Lft).
Qed.
End splay.

(** ** The ends *)
Lemma min_loop_spec m0 comp fuel : comp < 0 → ∀ w t R, splaying m0 Lft w R t [] → t ≠ E → (length (ids t) < fuel)%nat →
  wp (splay_minmax_loop fuel comp NODE (spine_ptr R)) (λ p w', ∃ R' c x r, p = (NODE, spine_ptr R') ∧
    splaying m0 Lft w' R' (T c E x r) [] ∧ whole Lft R' (T c E x r) [] = whole Lft R t []) w.
Proof.
  intros Hc. induction fuel as [|fuel IH]; intros w t R Hs Ht Hf; [lia|]. destruct t as [|c l x r]; [done|]. cbn [splay_minmax_loop].
  destruct (decide (comp < 0)) as [_|[]]; [|done]. apply wp_bind. eapply wp_mono; [apply (splay_turn_spec m0 Lft _ w R c l x r [] Hs)|].
  intros p w1 (z & s & t & _ & Hi & Hp). destruct p as [p|].
  - destruct Hp as (-> & Nt & Hs1). eapply wp_mono; [eapply (IH w1 t ((s, z) :: R) Hs1 Nt)|].
    + apply (f_equal length) in Hi. cbn in Hi, Hf. rewrite !length_app /= in Hi, Hf. lia.
    + intros p w2 (R' & c' & x' & r' & -> & Hs2 & Hw). exists R', c', x', r'. split_and!; [done|done|]. rewrite Hw whole_link. by apply whole_ids.
  - destruct Hp as (-> & c' & Hs1). apply wp_ret. exists R, c', z, s. split_and!; [done|done|by apply whole_ids].
Qed.
Lemma max_loop_spec m0 comp fuel : 0 < comp → ∀ w t L, splaying m0 Rgt w L t [] → t ≠ E → (length (ids t) < fuel)%nat →
  wp (splay_minmax_loop fuel comp (spine_ptr L) NODE) (λ p w', ∃ L' c l x, p = (spine_ptr L', NODE) ∧
    splaying m0 Rgt w' L' (T c l x E) [] ∧ whole Rgt L' (T c l x E) [] = whole Rgt L t []) w.
Proof.
  intros Hc. induction fuel as [|fuel IH]; intros w t L Hs Ht Hf; [lia|]. destruct t as [|c l x r]; [done|]. cbn [splay_minmax_loop].
  destruct (decide (comp < 0)) as [|_]; [lia|]. destruct (decide (0 < comp)) as [_|[]]; [|done].
  apply wp_bind. eapply wp_mono; [apply (splay_turn_spec m0 Rgt _ w L c r x l [] Hs)|].
  intros p w1 (z & s & t & _ & Hi & Hp). destruct p as [p|].
  - destruct Hp as (-> & Nt & Hs1). eapply wp_mono; [eapply (IH w1 t ((s, z) :: L) Hs1 Nt)|].
    + apply (f_equal length) in Hi. cbn in Hi, Hf. rewrite !length_app /= in Hi, Hf. lia.
    + intros p w2 (L' & c' & l' & x' & -> & Hs2 & Hw). exists L', c', l', x'. split_and!; [done|done|]. rewrite Hw whole_link. by apply whole_ids.
  - destruct Hp as (-> & c' & Hs1). apply wp_ret. exists L, c', s, z. split_and!; [done|done|by apply whole_ids].
Qed.
Lemma wp_is_empty w t (Q : bool → spw → Prop) : sholds w t → Q (match t with E => true | _ => false end) w → wp SPLAY_EMPTY Q w.
Proof. intros (Hr & _) HQ. apply wp_bind, wp_gets, wp_ret. rewrite Hr. by destruct t. Qed.
Lemma SPLAY_MIN_spec fuel w t : sholds w t → (length (ids t) < fuel)%nat →
  wp (SPLAY_MIN fuel) (λ r w', r = head (ids t) ∧ ∃ t', sholds w' t' ∧ ids t' = ids t) w.
Proof.
  intros Hs Hf. apply wp_bind. eapply wp_is_empty; [exact Hs|]. destruct t as [|c l x r]; [apply wp_ret; split; [done|by exists E]|].
  do 2 apply wp_bind. apply wp_modify. apply wp_bind. eapply wp_mono; [by apply (min_loop_spec (spm w) SPLAY_NEGINF fuel ltac:(done) _ _ [] (splaying_start w _ Hs))|].
  intros p w1 (R & c1 & x1 & r1 & -> & Hs1 & Hw). eapply wp_mono; [by apply (splay_assemble_spec (spm w) w1 [] c1 E x1 r1 R)|]. intros [] w2 [Hs2 _]. cbn in Hs2.
  apply wp_gets. destruct Hs2 as (Hr2 & Hrest). unfold whole in Hw. cbn in Hw, Hr2.
  assert (ids (T c l x r) = x1 :: ids (plug (frames Lft R) r1)) as Hi.
  { cbn. rewrite -Hw !ids_plug. cbn. by destruct (frames_side R) as [-> _]. }
  split; [by rewrite Hi Hr2|]. exists (T false E x1 (plug (frames Lft R) r1)). split; [split; [exact Hr2|exact Hrest]|]. by rewrite Hi.
Qed.
Lemma SPLAY_MAX_spec fuel w t : sholds w t → (length (ids t) < fuel)%nat →
  wp (SPLAY_MAX fuel) (λ r w', r = last (ids t) ∧ ∃ t', sholds w' t' ∧ ids t' = ids t) w.
Proof.
  intros Hs Hf. apply wp_bind. eapply wp_is_empty; [exact Hs|]. destruct t as [|c l x r]; [apply wp_ret; split; [done|by exists E]|].
  do 2 apply wp_bind. apply wp_modify. apply wp_bind.
  eapply wp_mono; [by apply (max_loop_spec (spm w) SPLAY_INF fuel ltac:(done) _ _ [] (splaying_flip _ _ _ _ _ _ (splaying_start w _ Hs)))|].
  intros p w1 (L & c1 & l1 & x1 & -> & Hs1 & Hw). eapply wp_mono; [by apply (splay_assemble_spec (spm w) w1 L c1 l1 x1 E []), (splaying_flip _ Rgt)|]. intros [] w2 [Hs2 _]. cbn in Hs2.
  apply wp_gets. destruct Hs2 as (Hr2 & Hrest). unfold whole in Hw. cbn in Hw, Hr2.
  assert (ids (T c l x r) = ids (plug (frames Rgt L) l1) ++ [x1]) as Hi.
  { cbn. rewrite -Hw !ids_plug. cbn. destruct (frames_side L) as [_ ->]. by rewrite !app_nil_r -app_assoc. }
  split; [by rewrite Hi Hr2 last_snoc|]. exists (T false (plug (frames Rgt L) l1) x1 E). split; [split; [exact Hr2|exact Hrest]|]. by rewrite Hi.
Qed.
Lemma leftmost_spec fuel : ∀ w t x, srep (spm w) t → root t = Some x → (height t ≤ fuel)%nat →
  wp (splay_leftmost fuel x) (λ r w', w' = w ∧ head (ids t) = Some r) w.
Proof.
  induction fuel as [|fuel IH]; intros w t x Hr Ex Hh; destruct t as [|c l y r]; try done; injection Ex as ->; cbn in Hh; [lia|].
  cbn [splay_leftmost]. destruct Hr as (Hx & Hl & _). apply wp_bind. eapply (wp_sp_child Lft); [exact Hx|]. cbn [ids].
  destruct (root l) as [z|] eqn:Ez.
  - eapply wp_mono; [eapply (IH w l); [done|done|lia]|]. intros r' w' [-> Hd]. split; [done|]. by destruct (ids l).
  - apply wp_ret. split; [done|]. by destruct l.
Qed.
Lemma height_length t : (height t ≤ length (ids t))%nat.
Proof. induction t; cbn; [lia|]. rewrite length_app /=. lia. Qed.

(** ** The memory of the elements is only written, never extended *)
Definition sp_entries (w : spw) : gset nat := dom (spm w).
Lemma sp_keeps_load p : preserves sp_entries (sp_load p).
Proof. unfold sp_load. preserves. Qed.
Lemma sp_keeps_store p f : preserves sp_entries (sp_store p f).
Proof.
  intros w. destruct p as [|e]; [done|]. unfold sp_store, mbind, M_bind, get, deref, put. destruct (spm w !! e) eqn:He; [|done].
  unfold sp_entries. cbn. rewrite dom_insert_L. apply elem_of_dom_2 in He. set_solver.
Qed.
Lemma sp_keeps_set_root c : preserves sp_entries (set_sph_root c).
Proof. done. Qed.
Lemma sp_keeps_init : preserves sp_entries init_node.
Proof. done. Qed.
#[export] Hint Resolve sp_keeps_load sp_keeps_store sp_keeps_set_root sp_keeps_init : nyy_preserves.
Lemma sp_keeps_left p : preserves sp_entries (SPLAY_LEFT p).
Proof. unfold SPLAY_LEFT. preserves. Qed.
Lemma sp_keeps_right p : preserves sp_entries (SPLAY_RIGHT p).
Proof. unfold SPLAY_RIGHT. preserves. Qed.
Lemma sp_keeps_child d p : preserves sp_entries (sp_child d p).
Proof. destruct d; [apply sp_keeps_left|apply sp_keeps_right]. Qed.
Lemma sp_keeps_set_child d p c : preserves sp_entries (set_child d p c).
Proof. unfold set_child. preserves. Qed.
Lemma sp_keeps_root : preserves sp_entries SPLAY_ROOT.
Proof. unfold SPLAY_ROOT. preserves. Qed.
#[export] Hint Resolve sp_keeps_left sp_keeps_right sp_keeps_child sp_keeps_set_child sp_keeps_root : nyy_preserves.
Lemma sp_keeps_the_root : preserves sp_entries the_root.
Proof. unfold the_root. preserves. Qed.
Lemma sp_keeps_empty : preserves sp_entries SPLAY_EMPTY.
Proof. unfold SPLAY_EMPTY. preserves. Qed.
#[export] Hint Resolve sp_keeps_the_root sp_keeps_empty : nyy_preserves.
Lemma sp_keeps_turn d f p : preserves sp_entries (splay_turn d f p).
Proof. unfold splay_turn, SPLAY_ROTATE, SPLAY_LINK. preserves. Qed.
Lemma sp_keeps_assemble l r : preserves sp_entries (SPLAY_ASSEMBLE l r).
Proof. unfold SPLAY_ASSEMBLE. preserves. Qed.
#[export] Hint Resolve sp_keeps_turn sp_keeps_assemble : nyy_preserves.
Lemma sp_keeps_splay cmp fuel e : preserves sp_entries (SPLAY cmp fuel e).
Proof.
  assert (∀ l r, preserves sp_entries (splay_loop cmp fuel e l r)) as H; [|unfold SPLAY; preserves].
  induction fuel as [|fuel IH]; intros l r; cbn [splay_loop]; preserves.
Qed.
Lemma sp_keeps_minmax fuel c : preserves sp_entries (SPLAY_MINMAX fuel c).
Proof.
  assert (∀ l r, preserves sp_entries (splay_minmax_loop fuel c l r)) as H; [|unfold SPLAY_MINMAX; preserves].
  induction fuel as [|fuel IH]; intros l r; cbn [splay_minmax_loop]; preserves.
Qed.
Lemma sp_keeps_leftmost fuel : ∀ e, preserves sp_entries (splay_leftmost fuel e).
Proof. induction fuel as [|fuel IH]; intros e; cbn [splay_leftmost]; preserves. Qed.
#[export] Hint Resolve sp_keeps_splay sp_keeps_minmax sp_keeps_leftmost : nyy_preserves.
Lemma sp_keeps_next cmp fuel e : preserves sp_entries (SPLAY_NEXT cmp fuel e).
Proof. unfold SPLAY_NEXT. preserves. Qed.
#[export] Hint Resolve sp_keeps_next : nyy_preserves.
Lemma sp_keeps_foreach cmp fuel n : ∀ x, preserves sp_entries (splay_foreach_loop cmp fuel n x).
Proof. induction n as [|n IH]; intros [x|]; cbn [splay_foreach_loop]; preserves. Qed.
#[export] Hint Resolve sp_keeps_foreach : nyy_preserves.

(** ** Operations *)
Lemma wp_sp_store e f x (Q : unit → spw → Prop) w : spm w !! e = Some x →
  Q tt (SpW (sph_root w) (<[e := f x]> (spm w)) (sp_node w)) → wp (sp_store (Elm e) f) Q w.
Proof. intros He HQ. unfold sp_store. apply wp_bind, wp_get, wp_bind, wp_deref. eexists. split; [exact He|]. by apply wp_put. Qed.
Section ops.
Context (key : nat → Z) (cmp : nat → nat → Z) (Hcmp : compares key cmp) (fuel : nat).

(** What the list is around [e], from where its place was found. *)
Lemma found_lists e l x r : (∀ y, y ∈ l → key y < key e) → (∀ y, y ∈ r → key e < key y) →
  (key e < key x → lower key e (l ++ x :: r) = l ∧ upper key e (l ++ x :: r) = x :: r ∧ same key e (l ++ x :: r) = []) ∧
  (key x < key e → lower key e (l ++ x :: r) = l ++ [x] ∧ upper key e (l ++ x :: r) = r ∧ same key e (l ++ x :: r) = []) ∧
  (key e = key x → lower key e (l ++ x :: r) = l ∧ upper key e (l ++ x :: r) = r ∧ same key e (l ++ x :: r) = [x]).
Proof.
  intros Hl Hr. split_and!; intros Hx.
  - apply apart_split; [done|]. intros y [->|Hy]%elem_of_cons; [done|by apply Hr].
  - rewrite (cons_middle x l r) app_assoc. apply apart_split; [|done]. intros y [Hy|Hy%list_elem_of_singleton]%elem_of_app; [by apply Hl|by subst].
  - destruct (apart_split key e l r Hl Hr) as (H1 & H2 & H3). unfold lower, upper, same in *. rewrite filter_app in H1. rewrite filter_app in H2. rewrite filter_app in H3.
    rewrite !filter_app !filter_cons. destruct (decide (key x < key e)); [lia|]. destruct (decide (key e < key x)); [lia|]. destruct (decide (key x = key e)); [|lia].
    apply app_eq_nil in H3 as [-> ->]. by split_and!.
Qed.
Lemma cmp_cases e x : (cmp e x < 0 ∧ key e < key x) ∨ (¬ cmp e x < 0 ∧ 0 < cmp e x ∧ key x < key e) ∨ (¬ cmp e x < 0 ∧ ¬ 0 < cmp e x ∧ cmp e x = 0 ∧ key e = key x).
Proof. destruct (Hcmp e x) as [H1 H2]. destruct (decide (cmp e x < 0)); [left; tauto|right]. destruct (decide (0 < cmp e x)); [left; tauto|right]. split_and!; [done|done|lia|]. by eapply go_stay. Qed.

Lemma SPLAY_FIND_spec e w t : sholds w t → sorted key (ids t) → (length (ids t) < fuel)%nat →
  wp (SPLAY_FIND cmp fuel e) (λ r w', r = head (same key e (ids t)) ∧ ∃ t', sholds w' t' ∧ ids t' = ids t) w.
Proof.
  intros Hs So Hf. apply wp_bind. eapply wp_is_empty; [exact Hs|]. destruct t as [|c0 l0 x0 r0]; [apply wp_ret; split; [done|by exists E]|].
  apply wp_bind. eapply wp_mono; [by apply (SPLAY_spec key cmp Hcmp fuel e w _ Hs)|]. intros [] w1 (c & l & x & r & Hs1 & Hi & Hl & Hr & _).
  apply wp_bind. eapply wp_the_root; [apply Hs1|]. apply wp_ret. destruct (found_lists e (ids l) x (ids r) Hl Hr) as (F1 & F2 & F3). rewrite Hi.
  split; [|by exists (T c l x r)]. destruct (cmp_cases e x) as [[C K]|[(C & C' & K)|(C & C' & C0 & K)]].
  - destruct (F1 K) as (_ & _ & ->). rewrite decide_False //. lia.
  - destruct (F2 K) as (_ & _ & ->). rewrite decide_False //. lia.
  - destruct (F3 K) as (_ & _ & ->). rewrite decide_True //.
Qed.
Lemma SPLAY_NEXT_spec l1 x l2 w t : sholds w t → sorted key (ids t) → (length (ids t) < fuel)%nat → ids t = l1 ++ x :: l2 →
  wp (SPLAY_NEXT cmp fuel x) (λ r w', r = head l2 ∧ ∃ t', sholds w' t' ∧ ids t' = ids t) w.
Proof.
  intros Hs So Hf Hi. apply wp_bind. assert (t ≠ E) as Ht by (intros ->; by destruct l1).
  eapply wp_mono; [by apply (SPLAY_spec key cmp Hcmp fuel x w _ Hs)|]. intros [] w1 (c & l & y & r & Hs1 & Hi1 & Hl & Hr & _).
  assert (y = x) as ->.
  { assert (x ∈ ids l ++ y :: ids r) as [Hx%Hl|[->|Hx%Hr]%elem_of_cons]%elem_of_app by (rewrite -Hi1 Hi; set_solver); [lia|done|lia]. }
  assert (l2 = ids r) as ->. { apply (nodup_split l1 l2 (ids l) (ids r) x); [rewrite -Hi; by eapply sorted_nodup|by rewrite -Hi]. }
  pose proof Hs1 as (_ & (Hx & _ & Hrr) & _). apply wp_bind. eapply (wp_sp_child Rgt); [exact Hx|]. destruct (root r) as [z|] eqn:Ez.
  - apply wp_bind. eapply wp_mono; [eapply (leftmost_spec fuel w1 r); [done|done|]|].
    { pose proof (height_length r). apply (f_equal length) in Hi1. rewrite length_app /= in Hi1. lia. }
    intros e w2 [-> He]. apply wp_ret. split; [done|]. by exists (T c l x r).
  - apply wp_ret. split; [by destruct r|]. by exists (T c l x r).
Qed.
Lemma splay_foreach_spec : ∀ l2 n l1 w t, sholds w t → sorted key (ids t) → (length (ids t) < fuel)%nat → ids t = l1 ++ l2 → (length l2 ≤ n)%nat →
  wp (splay_foreach_loop cmp fuel n (head l2)) (λ r w', r = l2 ∧ ∃ t', sholds w' t' ∧ ids t' = ids t) w.
Proof.
  induction l2 as [|x l2 IH]; intros n l1 w t Hs So Hf Hi Hn; [destruct n; apply wp_ret; (split; [done|by exists t])|]. destruct n as [|n]; [cbn in Hn; lia|].
  cbn [splay_foreach_loop head]. apply wp_bind. eapply wp_mono; [by eapply SPLAY_NEXT_spec|]. intros y w1 (-> & t1 & Hs1 & Hi1). apply wp_bind.
  eapply wp_mono; [apply (IH n (l1 ++ [x]) w1 t1); [done|by rewrite Hi1|by rewrite Hi1|by rewrite Hi1 Hi -app_assoc|cbn in Hn; lia]|].
  intros r w2 (-> & t2 & Hs2 & Hi2). apply wp_ret. split; [done|]. exists t2. split; [done|congruence].
Qed.
(** The two ways of putting a new root on top. *)
Lemma graft_spec d w c a x b e : srep (spm w) (mk d c a x b) → is_Some (spm w !! e) → NoDup (ids (mk d c a x b)) → e ∉ ids (mk d c a x b) →
  wp (v ← sp_child d (Elm x);
      set_child d (Elm e) v;;
      set_child (flip d) (Elm e) (Some x);;
      set_child d (Elm x) None;;
      mret (None : option nat)) (λ o w', o = None ∧ srep (spm w') (mk d c a e (mk d c E x b))) w.
Proof.
  intros (Hx & Ra & Rb)%srep_mk [ee He] Hn Ne. rewrite ids_mk_perm in Hn. rewrite ids_mk_perm in Ne. apply NoDup_cons in Hn as [Nx _].
  assert (e ≠ x) as Nex by set_solver.
  apply wp_bind. eapply wp_sp_child; [exact Hx|]. apply wp_bind. eapply wp_sp_store; [exact He|]. apply wp_bind. eapply wp_sp_store; [apply lookup_insert_eq|].
  apply wp_bind. eapply wp_set_child; [cbn; rewrite !lookup_insert_ne //|]. apply wp_ret. split; [done|]. cbn. rewrite insert_insert_eq.
  assert (∀ t, (∀ z, z ∈ ids t → z ∈ ids a ++ ids b) → srep (spm w) t → srep (<[x:=spentry d None (root b)]> (<[e:=sp_put (flip d) (Some x) (sp_put d (root a) ee)]> (spm w))) t) as R'.
  { intros t Hz. apply srep_ext. intros z Hz'. specialize (Hz z Hz'). rewrite !lookup_insert_ne //; intros ->; [apply Ne|apply Nx]; set_solver. }
  apply srep_mk. rewrite root_mk. split_and!; [rewrite lookup_insert_ne // lookup_insert_eq; by destruct d|apply R'; [set_solver|done]|].
  apply srep_mk. split_and!; [apply lookup_insert_eq|done|apply R'; [set_solver|done]].
Qed.
Lemma SPLAY_INSERT_spec e w t : sholds w t → sorted key (ids t) → is_Some (spm w !! e) → (length (ids t) < fuel)%nat →
  wp (SPLAY_INSERT cmp fuel e) (λ r w', r = head (same key e (ids t)) ∧
    ∃ t', sholds w' t' ∧ ids t' = match r with Some _ => ids t | None => lower key e (ids t) ++ e :: upper key e (ids t) end) w.
Proof.
  intros Hs So [ee He] Hf. apply wp_bind. eapply wp_is_empty; [exact Hs|]. destruct t as [|c0 l0 x0 r0].
  { do 2 apply wp_bind. eapply wp_sp_store; [exact He|]. apply wp_bind. eapply wp_sp_store; [apply lookup_insert_eq|]. apply wp_ret. apply wp_bind, wp_modify, wp_ret.
    split; [done|]. exists (T false E e E). split; [|done]. split_and!; [done| |apply NoDup_singleton]. cbn. rewrite insert_insert_eq. split; [apply lookup_insert_eq|done]. }
  do 2 apply wp_bind. eapply wp_mono; [apply (wp_preserves sp_entries); [apply sp_keeps_splay|by apply (SPLAY_spec key cmp Hcmp fuel e w _ Hs)]|].
  intros [] w1 (Hd & c & l & x & r & Hs1 & Hi & Hl & Hr & _). unfold sp_entries in Hd.
  apply wp_bind. eapply wp_the_root; [apply Hs1|]. destruct (found_lists e (ids l) x (ids r) Hl Hr) as (F1 & F2 & F3). rewrite Hi.
  assert (is_Some (spm w1 !! e)) as [e1 He1] by (apply elem_of_dom; rewrite Hd; by eapply elem_of_dom_2).
  pose proof Hs1 as (Hrt & (Hx & Rl & Rr) & Hn). cbn [ids] in Hn. cbv zeta. destruct (cmp_cases e x) as [[C K]|[(C & C' & K)|(C & C' & C0 & K)]].
  - destruct (F1 K) as (-> & -> & ->). destruct (decide (cmp e x < 0)) as [_|[]]; [|done]. assert (e ∉ ids l ++ x :: ids r) as Ne by (intros [H%Hl|[->|H%Hr]%elem_of_cons]%elem_of_app; lia).
    eapply wp_mono; [by apply (graft_spec Lft w1 c l x r e)|]. intros o w2 [-> R2]. apply wp_bind, wp_modify, wp_ret. split; [done|]. exists (T c l e (T c E x r)).
    split; [|done]. split_and!; [done|exact R2|]. cbn. rewrite -Permutation_middle. by constructor.
  - destruct (F2 K) as (-> & -> & ->). destruct (decide (cmp e x < 0)) as [|_]; [done|]. destruct (decide (0 < cmp e x)) as [_|[]]; [|done]. assert (e ∉ ids l ++ x :: ids r) as Ne by (intros [H%Hl|[->|H%Hr]%elem_of_cons]%elem_of_app; lia).
    eapply wp_mono; [by apply (graft_spec Rgt w1 c r x l e)|]. intros o w2 [-> R2]. apply wp_bind, wp_modify, wp_ret. split; [done|]. exists (T c (T c l x E) e r).
    split; [|done]. split_and!; [done|exact R2|]. cbn. rewrite -Permutation_middle -app_assoc /=. by constructor.
  - destruct (F3 K) as (-> & -> & ->). destruct (decide (cmp e x < 0)) as [|_]; [done|]. destruct (decide (0 < cmp e x)) as [|_]; [done|]. apply wp_ret, wp_ret. split; [done|]. exists (T c l x r). by rewrite -Hi.
Qed.
Lemma SPLAY_REMOVE_spec e w t : sholds w t → sorted key (ids t) → (length (ids t) < fuel)%nat →
  wp (SPLAY_REMOVE cmp fuel e) (λ r w', r = (match same key e (ids t) with [] => None | _ => Some e end) ∧
    ∃ t', sholds w' t' ∧ ids t' = match r with Some _ => lower key e (ids t) ++ upper key e (ids t) | None => ids t end) w.
Proof.
  intros Hs So Hf. apply wp_bind. eapply wp_is_empty; [exact Hs|]. destruct t as [|c0 l0 x0 r0]; [apply wp_ret; split; [done|by exists E]|].
  apply wp_bind. eapply wp_mono; [by apply (SPLAY_spec key cmp Hcmp fuel e w _ Hs)|]. intros [] w1 (c & l & x & r & Hs1 & Hi & Hl & Hr & _).
  apply wp_bind. eapply wp_the_root; [apply Hs1|]. destruct (found_lists e (ids l) x (ids r) Hl Hr) as (F1 & F2 & F3). rewrite Hi.
  destruct (cmp_cases e x) as [[C K]|[(C & C' & K)|(C & C' & C0 & K)]].
  - destruct (F1 K) as (_ & _ & ->). rewrite decide_False; [lia|]. apply wp_ret. split; [done|by exists (T c l x r)].
  - destruct (F2 K) as (_ & _ & ->). rewrite decide_False; [lia|]. apply wp_ret. split; [done|by exists (T c l x r)].
  - destruct (F3 K) as (-> & -> & ->). rewrite decide_True //. pose proof Hs1 as (Hrt & (Hx & Rl & Rr) & Hn). cbn [ids] in Hn.
    apply wp_bind. eapply (wp_sp_child Lft); [exact Hx|]. apply wp_bind. apply NoDup_app in Hn as (Nl & Nlr & [Nx Nr]%NoDup_cons).
    destruct (root l) as [z|] eqn:Ez.
    + apply wp_bind. eapply (wp_sp_child Rgt); [exact Hx|]. apply wp_bind, wp_modify. apply wp_bind.
      rewrite Hi in So, Hf. apply sorted_app in So as (Sl & _ & _). rewrite length_app in Hf.
      eapply wp_mono; [apply (SPLAY_spec key cmp Hcmp fuel e _ l); [by split_and!|by destruct l|done|lia]|].
      intros [] w2 (c2 & l2 & x2 & r2 & (Hrt2 & (Hx2 & Rl2 & _) & _) & Hi2 & _ & Hr2 & M2).
      assert (ids r2 = []) as Er2. { destruct (ids r2) as [|y ys]; [done|]. specialize (Hr2 y ltac:(left)). specialize (Hl y ltac:(rewrite Hi2; set_solver)). lia. }
      rewrite Er2 in Hi2. apply wp_bind. eapply wp_the_root; [exact Hrt2|]. eapply (wp_set_child Rgt); [exact Hx2|]. apply wp_ret. split; [done|].
      assert (x2 ∉ ids l2 ∧ NoDup (ids l2)) as [Nx2 Nl2] by (rewrite Hi2 in Nl; apply NoDup_app in Nl as (? & Nd & _); split; [intros Hin; apply (Nd x2 Hin); left|done]).
      assert (x2 ∈ ids l) as Hx2l by (rewrite Hi2; set_solver).
      exists (T c2 l2 x2 r). split; [split_and!; [exact Hrt2| |]|cbn; by rewrite Hi2 -app_assoc].
      * cbn. split_and!; [apply lookup_insert_eq|..].
        -- eapply srep_ext; [|exact Rl2]. intros y Hy. apply lookup_insert_ne. by intros <-.
        -- eapply srep_ext; [|exact Rr]. intros y Hy. assert (y ∉ ids l) as Ny by (intros Hy'; apply (Nlr y Hy'); by right).
           rewrite lookup_insert_ne; [intros <-; done|]. by apply M2.
      * cbn. rewrite Hi2 in Nl, Nlr. rewrite cons_middle app_assoc. apply NoDup_app. split_and!; [done| |done]. intros y Hy Hy'. apply (Nlr y Hy). by right.
    + destruct l; [|done]. apply wp_bind. eapply (wp_sp_child Rgt); [exact Hx|]. apply wp_modify, wp_ret. split; [done|]. by exists r.
Qed.
End ops.

(** ** Sequences of operations *)
Inductive sp_op := SpInsert (e : nat) | SpRemove (e : nat) | SpFind (e : nat) | SpNext (e : nat) | SpMin | SpMax | SpEmpty | SpForeach.
Section run.
Context (key : nat → Z) (cmp : nat → nat → Z) (fuel turns : nat).
Definition sp_run (o : sp_op) : M spw rb_res :=
  match o with
  | SpInsert e => r ← SPLAY_INSERT cmp fuel e; mret (Ptr r)
  | SpRemove e => r ← SPLAY_REMOVE cmp fuel e; mret (Ptr r)
  | SpFind e => r ← SPLAY_FIND cmp fuel e; mret (Ptr r)
  | SpNext e => r ← SPLAY_NEXT cmp fuel e; mret (Ptr r)
  | SpMin => r ← SPLAY_MIN fuel; mret (Ptr r)
  | SpMax => r ← SPLAY_MAX fuel; mret (Ptr r)
  | SpEmpty => b ← SPLAY_EMPTY; mret (Bool b)
  | SpForeach => l ← SPLAY_FOREACH cmp fuel turns; mret (Visited l)
  end.
Fixpoint sp_run_all (os : list sp_op) : M spw (list rb_res) :=
  match os with [] => mret [] | o :: os => r ← sp_run o; rs ← sp_run_all os; mret (r :: rs) end.
(** On a sorted list; nothing where the caller inserts an element that has no entry or steps
    from one that is not in the tree. *)
Definition sp_abs (pool : gset nat) (l : list nat) (o : sp_op) : option (rb_res * list nat) :=
  match o with
  | SpInsert e => if decide (e ∈ pool) then
      match same key e l with
      | z :: _ => Some (Ptr (Some z), l)
      | [] => Some (Ptr None, lower key e l ++ e :: upper key e l)
      end else None
  | SpRemove e => match same key e l with [] => Some (Ptr None, l) | _ => Some (Ptr (Some e), lower key e l ++ upper key e l) end
  | SpFind e => Some (Ptr (head (same key e l)), l)
  | SpNext e => if decide (e ∈ l) then Some (Ptr (head (upper key e l)), l) else None
  | SpMin => Some (Ptr (head l), l)
  | SpMax => Some (Ptr (last l), l)
  | SpEmpty => Some (Bool (bool_decide (l = [])), l)
  | SpForeach => Some (Visited l, l)
  end.
Fixpoint sp_abs_all (pool : gset nat) (l : list nat) (os : list sp_op) : option (list rb_res * list nat) :=
  match os with
  | [] => Some ([], l)
  | o :: os => '(r, l) ← sp_abs pool l o; '(rs, l) ← sp_abs_all pool l os; Some (r :: rs, l)
  end.
Context (pool : gset nat).
Definition sp_inv (w : spw) (l : list nat) : Prop := (∃ t, sholds w t ∧ ids t = l) ∧ sorted key l ∧ dom (spm w) = pool.
Lemma srep_dom m t x : srep m t → x ∈ ids t → x ∈ dom m.
Proof.
  induction t as [|c l IHl y r IHr]; cbn; [by intros _ ?%not_elem_of_nil|]. intros (Hy & Hl & Hr) [Hx|[->|Hx]%elem_of_cons]%elem_of_app; [by apply IHl|by eapply elem_of_dom_2|by apply IHr].
Qed.
Lemma sp_inv_length w l : sp_inv w l → (length l ≤ size pool)%nat.
Proof.
  intros ((t & (_ & A & _) & <-) & Hs & <-). rewrite -(size_list_to_set (C := gset nat)); [by eapply sorted_nodup|].
  apply subseteq_size. intros x Hx%elem_of_list_to_set. by eapply srep_dom.
Qed.
Context (Hcmp : compares key cmp) (Hfuel : (size pool < fuel)%nat) (Hturns : (size pool ≤ turns)%nat).
(** An operation that keeps the entries and ends with a sorted tree. *)
Lemma wp_inv {A} (m : M spw A) w l (Q : A → list nat → Prop) : sp_inv w l → preserves sp_entries m →
  wp m (λ r w', ∃ t, sholds w' t ∧ sorted key (ids t) ∧ Q r (ids t)) w → wp m (λ r w', ∃ l', Q r l' ∧ sp_inv w' l') w.
Proof.
  intros (_ & _ & Hp) Hk Hm. eapply wp_mono; [by apply (wp_preserves sp_entries)|]. intros r w' (Hd & t & Hs & So & HQ). unfold sp_entries in Hd.
  exists (ids t). split; [done|]. split_and!; [by exists t|done|congruence].
Qed.
Lemma sp_run_spec o w l r l' : sp_inv w l → sp_abs pool l o = Some (r, l') → wp (sp_run o) (λ r' w', r' = r ∧ sp_inv w' l') w.
Proof.
  intros Hi Ho. pose proof Hi as ((t & Hs & Et) & So & Hp). pose proof (sp_inv_length _ _ Hi) as Hl. rewrite -Et in Hl So.
  enough (wp (sp_run o) (λ r' w', ∃ l2, (r' = r ∧ l2 = l') ∧ sp_inv w' l2) w) as Hw.
  { eapply wp_mono; [exact Hw|]. by intros r' w' (l2 & [-> ->] & ?). }
  eapply wp_inv; [exact Hi| |].
  { destruct o; cbn [sp_run]; unfold SPLAY_INSERT, SPLAY_REMOVE, SPLAY_FIND, SPLAY_MIN, SPLAY_MAX, SPLAY_FOREACH, SPLAY_MIN, SPLAY_MIN_MAX; preserves. }
  destruct o; cbn [sp_run sp_abs] in *; rewrite -Et in Ho.
  - case_decide; [|done]. apply wp_bind. eapply wp_mono; [eapply SPLAY_INSERT_spec; [done|done|done|rewrite -elem_of_dom; congruence|lia]|].
    intros r' w' (-> & t' & Hs' & Hi'). apply wp_ret. exists t'. rewrite Hi'. destruct (same key e (ids t)); injection Ho as <- <-; (split_and!; [done| |done|done]); [by apply sorted_insert|done].
  - apply wp_bind. eapply wp_mono; [eapply SPLAY_REMOVE_spec; [done|done|done|lia]|].
    intros r' w' (-> & t' & Hs' & Hi'). apply wp_ret. exists t'. rewrite Hi'. destruct (same key e (ids t)); injection Ho as <- <-; (split_and!; [done| |done|done]); [done|].
    pose proof (sorted_insert key e (ids t) So) as Hins. apply sorted_app in Hins as (S1 & [S2 _]%StronglySorted_inv & S12). apply sorted_app. split_and!; [done|done|]. intros a b Ha Hb. apply S12; [done|]. by right.
  - injection Ho as <- <-. apply wp_bind. eapply wp_mono; [eapply SPLAY_FIND_spec; [done|done|done|lia]|]. intros r' w' (-> & t' & Hs' & Hi'). apply wp_ret. exists t'. by rewrite Hi'.
  - case_decide as He; [|done]. injection Ho as <- <-. destruct (list_elem_of_split _ _ He) as (l1 & l2 & El). rewrite El in So. destruct (sorted_around key l1 e l2 So) as (_ & Hu & _). rewrite -El in So.
    apply wp_bind. eapply wp_mono; [eapply (SPLAY_NEXT_spec key cmp Hcmp fuel l1 e l2); [done|done|lia|done]|]. intros r' w' (-> & t' & Hs' & Hi'). apply wp_ret. exists t'. rewrite Hi'. split_and!; [done|done| |done]. by rewrite El Hu.
  - injection Ho as <- <-. apply wp_bind. eapply wp_mono; [eapply SPLAY_MIN_spec; [done|lia]|]. intros r' w' (-> & t' & Hs' & Hi'). apply wp_ret. exists t'. by rewrite Hi'.
  - injection Ho as <- <-. apply wp_bind. eapply wp_mono; [eapply SPLAY_MAX_spec; [done|lia]|]. intros r' w' (-> & t' & Hs' & Hi'). apply wp_ret. exists t'. by rewrite Hi'.
  - injection Ho as <- <-. apply wp_bind. eapply wp_is_empty; [exact Hs|]. apply wp_ret. exists t. split_and!; [done|done| |done]. f_equal. destruct t; [done|]. symmetry. apply bool_decide_eq_false. intros He. by apply app_eq_nil in He as [_ ?].
  - injection Ho as <- <-. apply wp_bind. apply wp_bind. eapply wp_mono; [eapply SPLAY_MIN_spec; [done|lia]|]. intros r' w' (-> & t' & Hs' & Hi'). rewrite -Hi'.
    eapply wp_mono; [apply (splay_foreach_spec key cmp Hcmp fuel (ids t') turns [] w' t'); [done|by rewrite Hi'|rewrite Hi'; lia|done|rewrite Hi'; lia]|].
    intros r' w2 (-> & t2 & Hs2 & Hi2). apply wp_ret. exists t2. rewrite Hi2. split_and!; [done|by rewrite Hi'|done|done].
Qed.
Lemma sp_run_all_spec os : ∀ w l rs l', sp_inv w l → sp_abs_all pool l os = Some (rs, l') → wp (sp_run_all os) (λ rs' w', rs' = rs ∧ sp_inv w' l') w.
Proof.
  induction os as [|o os IH]; intros w l rs l' Hi Ho; cbn [sp_run_all sp_abs_all] in *; [injection Ho as <- <-; by apply wp_ret|].
  apply bind_Some in Ho as ([r l1] & H1 & Ho). apply bind_Some in Ho as ([rs1 l2] & H2 & Ho). injection Ho as <- <-.
  apply wp_bind. eapply wp_mono; [by eapply sp_run_spec|]. intros r' w1 [-> Hi1]. apply wp_bind.
  eapply wp_mono; [by eapply IH|]. intros rs' w2 [-> Hi2]. by apply wp_ret.
Qed.
End run.

(** C39: splay trees refine sorted lists.  From a head that [SPLAY_INIT] has set up, every sequence of insertions, removals by key, searches, steps and loops that keeps to the interface returns what the same sequence returns on a list sorted by key, although every one of these operations, lookups included, rebuilds the tree; each of its loops ends within as many turns as there are elements, and afterwards the memory holds a search tree of the elements of the list. *)
Theorem splay_trees_refine_sorted_lists (key : nat → Z) (cmp : nat → nat → Z) (fuel turns : nat) (w : spw) (os : list sp_op) (rs : list rb_res) (l : list nat)
  (Hcmp : compares key cmp) (Hfuel : (size (dom (spm w)) < fuel)%nat) (Hturns : (size (dom (spm w)) ≤ turns)%nat)
  (Hos : sp_abs_all key (dom (spm w)) [] os = Some (rs, l)) :
  wp (SPLAY_INIT;; sp_run_all cmp fuel turns os) (λ rs' w', rs' = rs ∧ sorted key l ∧ ∃ t, sholds w' t ∧ ids t = l) w.
Proof.
  apply wp_bind, wp_modify. eapply wp_mono; [eapply (sp_run_all_spec key cmp fuel turns (dom (spm w)) Hcmp Hfuel Hturns); [|exact Hos]|].
  - unfold sp_inv. split_and!; [exists E; split; [split_and!; [done|done|constructor]|done]|constructor|done].
  - intros rs' w2 (-> & Ht & Hs & _). by split_and!.
Qed.

(** ** A concrete run *)
Definition splay_mem : spw := SpW None (list_to_map ((λ x, (x, SpEntry None None)) <$> seq 0 16)) (SpEntry None None).
Definition splay_ops : list sp_op :=
  map SpInsert (seq 0 16) ++ [SpForeach; SpFind 15; SpRemove 4; SpFind 4; SpRemove 4; SpNext 2; SpNext 7; SpMin; SpMax] ++ map SpRemove (seq 0 12) ++ [SpForeach; SpEmpty].
Lemma splay_trees_refine_sorted_lists_witness : ∃ rs l, l = [13; 14; 12]%nat ∧
  take 10 (drop 15 rs) = [Ptr (Some 0); Visited [0; 13; 11; 9; 7; 5; 3; 1; 14; 12; 10; 8; 6; 4; 2]; Ptr (Some 0); Ptr (Some 4); Ptr None; Ptr None; Ptr None; Ptr (Some 5); Ptr (Some 0); Ptr (Some 2)]%nat ∧
  wp (SPLAY_INIT;; sp_run_all demo_cmp 17 16 splay_ops) (λ rs' w', rs' = rs ∧ sorted demo_key l ∧ ∃ t, sholds w' t ∧ ids t = l) splay_mem.
Proof.
  eexists _, _. split; [|split; [|eapply (splay_trees_refine_sorted_lists demo_key); [exact demo_compares| | |vm_compute; reflexivity]]];
    [vm_compute; reflexivity|vm_compute; reflexivity|vm_compute; lia|vm_compute; lia].
Defined.
