(* ===== verification/Vmem.v ===== *)
(** * The vmem resource allocator: [kernel/lib/vmem.c], [kernel/include/lib/vmem.h]

    An arena is a set of spans of integers, cut into segments.  Every segment
    is described by a boundary tag ([VmemSegment]) threaded on two intrusive
    lists: the address-ordered [segqueue] of its arena and, through [seglist],
    one of the power-of-two free lists, one bucket of the hash table of allocated
    segments, or the global pool of unused tags.  The tags live in one store
    shared by all arenas ([segs]); queues hold tag identities, as the pointers
    of the source do (the macros themselves are verified in Queue.v).

    Function pointers of an arena ([alloc], [free]) are code identifiers that the
    parameters [call_alloc] and [call_free] interpret, so that an arena can
    import from another one through any callback. *)

From S2P Require Import Prelude Queue.

(** ** Data *)
Inductive segtype := SEGMENT_ALLOCATED | SEGMENT_FREE | SEGMENT_SPAN.
#[global] Instance segtype_eq_dec : EqDecision segtype.
Proof. solve_decision. Defined.

Record VmemSegment := Seg {
  type : segtype;
  imported : bool;
  base : Z;
  size : Z;
}.

Record VmemStat := Stat {
  in_use : Z;
  st_import : Z;
  total : Z;
  st_alloc : Z;
  st_free : Z;
}.

Record Vmem := MkVmem {
  v_name : string;
  v_base : Z;
  v_size : Z;
  quantum : Z;
  v_alloc : option nat;    (* code pointer, None = NULL *)
  v_free : option nat;
  source : option nat;     (* arena pointer *)
  qcache_max : Z;
  vmflag : Z;
  lock : bool;
  segqueue : list nat;
  freelist : list (list nat);
  hashtable : list (list nat);
  spanlist : list nat;
  stat : VmemStat;
}.

Record vworld := VWorld {
  segs : gmap nat VmemSegment;
  free_segs : list nat;
  nfreesegs : Z;
  g_vmem_lock : bool;
  next_seg : nat;          (* where the next page of 64 tags is placed *)
  pm_pages : nat;          (* physical pages pm_allocate_n can still hand out; where the two meet
                              (Kmem.v), the length of its free list *)
  arenas : gmap nat Vmem;
}.

Definition VM_BESTFIT : Z := 1.
Definition VM_INSTANTFIT : Z := 2.
Definition VM_NEXTFIT : Z := 4.
Definition VM_SLEEP : Z := 8.
Definition VM_NOSLEEP : Z := 16.
Definition VM_BOOTSTRAP : Z := 32.
Definition VMEM_ERR_NO_MEM : Z := 1.
Definition FREELISTS_N : nat := 64.
Definition HASHTABLES_N : nat := 16.
Definition VMEM_ADDR_MIN : Z := 0.
Definition VMEM_ADDR_MAX : Z := 2 ^ 64 - 1.

(** ** Field updates *)
Definition set_type (t : segtype) (s : VmemSegment) := Seg t (imported s) (base s) (size s).
Definition set_base (b : Z) (s : VmemSegment) := Seg (type s) (imported s) b (size s).
Definition set_size (z : Z) (s : VmemSegment) := Seg (type s) (imported s) (base s) z.
Definition set_imported (i : bool) (s : VmemSegment) := Seg (type s) i (base s) (size s).

Definition set_lock (b : bool) (v : Vmem) : Vmem :=
  MkVmem (v_name v) (v_base v) (v_size v) (quantum v) (v_alloc v) (v_free v) (source v)
    (qcache_max v) (vmflag v) b (segqueue v) (freelist v) (hashtable v) (spanlist v) (stat v).
Definition set_segqueue (q : list nat) (v : Vmem) : Vmem :=
  MkVmem (v_name v) (v_base v) (v_size v) (quantum v) (v_alloc v) (v_free v) (source v)
    (qcache_max v) (vmflag v) (lock v) q (freelist v) (hashtable v) (spanlist v) (stat v).
Definition set_freelist (f : list (list nat)) (v : Vmem) : Vmem :=
  MkVmem (v_name v) (v_base v) (v_size v) (quantum v) (v_alloc v) (v_free v) (source v)
    (qcache_max v) (vmflag v) (lock v) (segqueue v) f (hashtable v) (spanlist v) (stat v).
Definition set_hashtable (h : list (list nat)) (v : Vmem) : Vmem :=
  MkVmem (v_name v) (v_base v) (v_size v) (quantum v) (v_alloc v) (v_free v) (source v)
    (qcache_max v) (vmflag v) (lock v) (segqueue v) (freelist v) h (spanlist v) (stat v).
Definition set_stat (st : VmemStat) (v : Vmem) : Vmem :=
  MkVmem (v_name v) (v_base v) (v_size v) (quantum v) (v_alloc v) (v_free v) (source v)
    (qcache_max v) (vmflag v) (lock v) (segqueue v) (freelist v) (hashtable v) (spanlist v) st.

Definition w_segs (m : gmap nat VmemSegment) (w : vworld) : vworld :=
  VWorld m (free_segs w) (nfreesegs w) (g_vmem_lock w) (next_seg w) (pm_pages w) (arenas w).
Definition w_pool (l : list nat) (n : Z) (w : vworld) : vworld :=
  VWorld (segs w) l n (g_vmem_lock w) (next_seg w) (pm_pages w) (arenas w).
Definition w_glock (b : bool) (w : vworld) : vworld :=
  VWorld (segs w) (free_segs w) (nfreesegs w) b (next_seg w) (pm_pages w) (arenas w).
Definition w_pages (n : nat) (p : nat) (w : vworld) : vworld :=
  VWorld (segs w) (free_segs w) (nfreesegs w) (g_vmem_lock w) n p (arenas w).
Definition w_arenas (a : gmap nat Vmem) (w : vworld) : vworld :=
  VWorld (segs w) (free_segs w) (nfreesegs w) (g_vmem_lock w) (next_seg w) (pm_pages w) a.

(** Reading and writing through a tag or arena pointer. *)
Definition ld_seg (s : nat) : M vworld VmemSegment :=
  w ← get; deref "seg" (segs w !! s).
Definition upd_seg (s : nat) (f : VmemSegment → VmemSegment) : M vworld unit :=
  w ← get; v ← deref "seg" (segs w !! s); put (w_segs (<[s := f v]> (segs w)) w).
Definition ld_arena (p : nat) : M vworld Vmem :=
  w ← get; deref "vmp" (arenas w !! p).
Definition upd_arena (p : nat) (f : Vmem → Vmem) : M vworld unit :=
  w ← get; v ← deref "vmp" (arenas w !! p); put (w_arenas (<[p := f v]> (arenas w)) w).

(** ** Locks.  [spinlock_acquire_raise] of a lock already held by this CPU spins
    forever; the interrupt level it also raises is modelled in Irql.v. *)
Definition vmem_lock : M vworld unit :=
  w ← get; if g_vmem_lock w then fail (Deadlock "g_vmem_lock") else put (w_glock true w).
Definition vmem_unlock : M vworld unit := modify (w_glock false).
Definition arena_lock (p : nat) : M vworld unit :=
  v ← ld_arena p; if lock v then fail (Deadlock "vmp->lock") else upd_arena p (set_lock true).
Definition arena_unlock (p : nat) : M vworld unit := upd_arena p (set_lock false).

(** ** The pool of boundary tags *)
Definition seg_alloc : M vworld nat :=
  vmem_lock;;
  w ← get;
  match free_segs w with
  | [] => fail (AssertFail "!LIST_EMPTY(&free_segs)")
  | vsp :: rest =>
      put (w_pool rest (nfreesegs w - 1) w);;
      vmem_unlock;;
      mret vsp
  end.

Definition seg_free (seg : nat) : M vworld unit :=
  vmem_lock;;
  modify (λ w, w_pool (seg :: free_segs w) (nfreesegs w + 1) w);;
  vmem_unlock.

(** The address of the [n] fresh pages, as the identity of the first tag a page
    holds; [pm_allocate_n] asserts that a page is left. *)
Definition seg_garbage : VmemSegment := Seg SEGMENT_ALLOCATED false 0 0.
Definition vmem_alloc_pages : M vworld nat :=
  w ← get;
  match pm_pages w with
  | O => fail (AssertFail "pg")
  | S p =>
      let block := seq (next_seg w) 64 in
      put (w_segs (list_to_map ((λ s, (s, seg_garbage)) <$> block) ∪ segs w)
             (w_pages (next_seg w + 64)%nat p w));;
      mret (next_seg w)
  end.

Definition repopulate_segments : M vworld Z :=
  w ← get;
  if decide (nfreesegs w >= 128) then mret 0
  else
    segblock ← vmem_alloc_pages;
    forM (seq segblock 64) seg_free;;
    mret 0.

(** ** Arithmetic helpers *)
Definition VMEM_ALIGNUP (addr align : Z) : Z :=
  Z.land (wrap64 (addr + align - 1)) (Z.lnot (align - 1)).
Definition clzl (x : Z) : Z := 63 - Z.log2 x.
Definition GET_LIST (sz : Z) : Z := wrap64 (64 - clzl sz - 1).

Definition seg_fit (segment : VmemSegment) (sz align phase nocross minaddr maxaddr : Z)
    : M vworld (option Z) :=
  assertM (bool_decide (sz > 0)) "size > 0";;
  assertM (bool_decide (size segment >= sz)) "segment->size >= size";;
  let start := Z.max (base segment) minaddr in
  let end_ := Z.min (wrap64 (base segment + size segment)) maxaddr in
  if decide (start > end_) then mret None
  else
    let start := wrap64 (VMEM_ALIGNUP (wrap64 (start - phase)) align + phase) in
    let start := if decide (start < base segment) then wrap64 (start + align) else start in
    assertM (bool_decide (nocross = 0)) "nocross == 0";;
    if decide (start ≤ end_ ∧ end_ - start >= sz) then mret (Some start) else mret None.

Definition murmur64 (h : Z) : Z :=
  let h := Z.lxor h (Z.shiftr h 33) in
  let h := wrap64 (h * 0xff51afd7ed558ccd) in
  let h := Z.lxor h (Z.shiftr h 33) in
  let h := wrap64 (h * 0xc4ceb9fe1a85ec53) in
  Z.lxor h (Z.shiftr h 33).

Definition hashtable_for_addr (addr : Z) : nat := Z.to_nat (murmur64 addr mod 16).

(** [&vmem->freelist[GET_LIST(size) - 1]]: an index outside the array is a pointer
    outside the arena, and [__builtin_clzl(0)] is undefined. *)
Definition freelist_for_size (sz : Z) : M vworld nat :=
  if decide (sz = 0) then fail (Undefined "clzl(0)")
  else
    let idx := wrap64 (GET_LIST sz - 1) in
    if decide (idx < 64) then mret (Z.to_nat idx) else fail (OutOfBounds "freelist").

(** ** List plumbing of one arena *)
Definition hashtab_insert (p seg : nat) : M vworld unit :=
  s ← ld_seg seg;
  upd_arena p (λ v, set_hashtable (alter (cons seg) (hashtable_for_addr (base s)) (hashtable v)) v).

Definition vmem_add_to_freelist (p seg : nat) : M vworld unit :=
  s ← ld_seg seg;
  i ← freelist_for_size (size s);
  upd_arena p (λ v, set_freelist (alter (cons seg) i (freelist v)) v).

Definition vmem_insert_segment (p seg prev : nat) : M vworld unit :=
  upd_arena p (λ v, set_segqueue (Abs.insert_after prev seg (segqueue v)) v).

(** [LIST_REMOVE(seg, seglist)]: unlink from whichever list of the arena holds it. *)
Definition seglist_remove (p seg : nat) : M vworld unit :=
  upd_arena p (λ v, set_freelist (Abs.remove seg <$> freelist v)
                      (set_hashtable (Abs.remove seg <$> hashtable v) v)).

Definition segqueue_remove (p seg : nat) : M vworld unit :=
  upd_arena p (λ v, set_segqueue (Abs.remove seg (segqueue v)) v).

(** ** Spans *)
Definition vmem_contains (p : nat) (address sz : Z) : M vworld bool :=
  w ← get;
  v ← ld_arena p;
  let start := address in
  let end_ := wrap64 (start + sz) in
  mret (existsb (λ s, match segs w !! s with
                      | Some seg => bool_decide (start >= base seg) &&
                                    bool_decide (end_ ≤ wrap64 (base seg + size seg))
                      | None => false
                      end) (segqueue v)).

Definition vmem_add_internal (p : nat) (b sz : Z) (import : bool) : M vworld nat :=
  newspan ← seg_alloc;
  upd_seg newspan (set_base b);;
  upd_seg newspan (set_size sz);;
  upd_seg newspan (set_type SEGMENT_SPAN);;
  upd_seg newspan (set_imported import);;
  newfree ← seg_alloc;
  upd_seg newfree (set_base b);;
  upd_seg newfree (set_size sz);;
  upd_seg newfree (set_type SEGMENT_FREE);;
  upd_arena p (λ v, set_segqueue (segqueue v ++ [newspan]) v);;
  vmem_insert_segment p newfree newspan;;
  vmem_add_to_freelist p newfree;;
  mret newfree.

Definition stat_add (free_d total_d inuse_d : Z) (v : Vmem) : Vmem :=
  let s := stat v in
  set_stat (Stat (wrap64 (in_use s + inuse_d)) (st_import s) (wrap64 (total s + total_d))
              (st_alloc s) (wrap64 (st_free s + free_d))) v.

Definition vmem_add (p : nat) (addr sz : Z) (flag : Z) : M vworld nat :=
  c ← vmem_contains p addr sz;
  assertM (negb c) "!vmem_contains(vmp, addr, size)";;
  upd_arena p (stat_add sz sz 0);;
  vmem_add_internal p addr sz false.

(** [strcpy] into the 64-byte name is modelled as keeping the string; the
    previous contents of the arena are only read for [stat.total += size]. *)
Definition vmem_init (ret : nat) (name : string) (b sz quant : Z) (afunc ffunc : option nat)
    (src : option nat) (qcache flag : Z) : M vworld Z :=
  upd_arena ret (λ old,
    MkVmem name b sz quant afunc ffunc src qcache flag false
      [] (replicate FREELISTS_N []) (replicate HASHTABLES_N []) []
      (Stat 0 0 (wrap64 (total (stat old) + sz)) (st_alloc (stat old)) sz));;
  whenM (bool_decide (src = None) && negb (bool_decide (sz = 0)))
    (vmem_add ret b sz flag;; mret tt);;
  mret 0.

Definition vmem_destroy (p : nat) : M vworld unit :=
  v ← ld_arena p;
  forM (hashtable v) (λ bucket, assertM (bool_decide (bucket = [])) "LIST_EMPTY(&vmp->hashtable[i])");;
  forM (segqueue v) seg_free.

Definition vmem_bootstrap : M vworld unit :=
  modify (w_glock false);;
  forM (seq 0 128) seg_free.

(** ** Allocation and release *)
Section ops.
Context (call_alloc : nat → option nat → Z → Z → M vworld Z).
Context (call_free : nat → option nat → Z → Z → M vworld unit).

Definition vmem_import (p : nat) (sz flag : Z) : M vworld Z :=
  v ← ld_arena p;
  match v_alloc v with
  | None => mret (- VMEM_ERR_NO_MEM)
  | Some f =>
      addr ← call_alloc f (source v) sz flag;
      if decide (addr = 0) then mret (- VMEM_ERR_NO_MEM)
      else vmem_add_internal p addr sz true;; mret 0
  end.

(** The segments of one free list, in order: the first that is large enough and fits. *)
Fixpoint bestfit_list (l : list nat) (sz align phase nocross minaddr maxaddr : Z)
    : M vworld (option (nat * Z)) :=
  match l with
  | [] => mret None
  | s :: l' =>
      seg ← ld_seg s;
      if decide (size seg >= sz) then
        r ← seg_fit seg sz align phase nocross minaddr maxaddr;
        match r with
        | Some start => mret (Some (s, start))
        | None => bestfit_list l' sz align phase nocross minaddr maxaddr
        end
      else bestfit_list l' sz align phase nocross minaddr maxaddr
  end.

Fixpoint bestfit (lists : list (list nat)) (sz align phase nocross minaddr maxaddr : Z)
    : M vworld (option (nat * Z)) :=
  match lists with
  | [] => mret None
  | l :: lists' =>
      r ← bestfit_list l sz align phase nocross minaddr maxaddr;
      match r with
      | Some x => mret (Some x)
      | None => bestfit lists' sz align phase nocross minaddr maxaddr
      end
  end.

(** The head of each list only. *)
Fixpoint instantfit (lists : list (list nat)) (sz align phase nocross minaddr maxaddr : Z)
    : M vworld (option (nat * Z)) :=
  match lists with
  | [] => mret None
  | l :: lists' =>
      r ← match l with
          | [] => mret None
          | s :: _ =>
              seg ← ld_seg s;
              r ← seg_fit seg sz align phase nocross minaddr maxaddr;
              mret (pair s <$> r)
          end;
      match r with
      | Some x => mret (Some x)
      | None => instantfit lists' sz align phase nocross minaddr maxaddr
      end
  end.

Definition has_flag (flag bit : Z) : bool := negb (bool_decide (Z.land flag bit = 0)).

(** The [while (true)] of [vmem_xalloc], up to the [found] label. *)
Fixpoint xalloc_search (fuel : nat) (p first_list : nat)
    (sz align phase nocross minaddr maxaddr flag : Z) : M vworld (nat * Z) :=
  match fuel with
  | O => fail OutOfFuel
  | S fuel =>
      let first_list := if has_flag flag VM_INSTANTFIT then
                          if decide (Z.land sz (sz - 1) ≠ 0) then S first_list else first_list
                        else first_list in
      v ← ld_arena p;
      r ← (if has_flag flag VM_INSTANTFIT then
             instantfit (drop first_list (freelist v)) sz align phase nocross minaddr maxaddr
           else if has_flag flag VM_BESTFIT then
             bestfit (drop first_list (freelist v)) sz align phase nocross minaddr maxaddr
           else if has_flag flag VM_NEXTFIT then
             fail (AssertFail "TODO: implement nextfit")
           else mret None);
      match r with
      | Some x => mret x
      | None =>
          rc ← vmem_import p sz flag;
          if decide (rc = 0) then
            xalloc_search fuel p first_list sz align phase nocross minaddr maxaddr flag
          else fail (AssertFail "Allocation failed")
      end
  end.

(** The tag of the free part before [start], when there is one. *)
Definition xalloc_split_left (p seg new_seg2 : nat) (start : Z) : M vworld bool :=
  s ← ld_seg seg;
  if decide (base s ≠ start) then
    upd_seg new_seg2 (set_type SEGMENT_FREE);;
    upd_seg new_seg2 (set_base (base s));;
    upd_seg new_seg2 (set_size (wrap64 (start - base s)));;
    upd_seg seg (set_base start);;
    n2 ← ld_seg new_seg2;
    upd_seg seg (λ s, set_size (wrap64 (size s - size n2)) s);;
    vmem_add_to_freelist p new_seg2;;
    v ← ld_arena p;
    prev ← deref "TAILQ_PREV" (Abs.prev_of seg (segqueue v));
    vmem_insert_segment p new_seg2 prev;;
    mret true
  else mret false.

(** Cut [sz] off the front of [seg], or hand out all of [seg] when what is left
    would be smaller than the quantum. *)
Definition xalloc_split_right (p seg new_seg : nat) (sz : Z) : M vworld nat :=
  s ← ld_seg seg;
  v ← ld_arena p;
  if decide (size s ≠ sz ∧ wrap64 (size s - sz) > wrap64 (quantum v - 1)) then
    upd_seg new_seg (set_type SEGMENT_ALLOCATED);;
    upd_seg new_seg (set_base (base s));;
    upd_seg new_seg (set_size sz);;
    upd_seg seg (λ s, set_base (wrap64 (base s + sz)) s);;
    upd_seg seg (λ s, set_size (wrap64 (size s - sz)) s);;
    vmem_add_to_freelist p seg;;
    v ← ld_arena p;
    prev ← deref "TAILQ_PREV" (Abs.prev_of seg (segqueue v));
    vmem_insert_segment p new_seg prev;;
    hashtab_insert p new_seg;;
    mret new_seg
  else
    upd_seg seg (set_type SEGMENT_ALLOCATED);;
    hashtab_insert p seg;;
    seg_free new_seg;;
    mret seg.

(** From the assertion that [seg] starts at [start] to the return value. *)
Definition xalloc_finish (p seg new_seg new_seg2 : nat) (used2 : bool) (start sz : Z) : M vworld Z :=
  s ← ld_seg seg;
  assertM (bool_decide (base s = start)) "seg->base == start";;
  new_seg ← xalloc_split_right p seg new_seg sz;
  whenM (negb used2) (seg_free new_seg2);;
  n ← ld_seg new_seg;
  assertM (bool_decide (size n >= sz)) "new_seg->size >= size";;
  upd_arena p (stat_add (- size n) 0 (size n));;
  upd_seg new_seg (set_type SEGMENT_ALLOCATED);;
  n ← ld_seg new_seg;
  mret (base n).

(** From the [found] label to the return value. *)
Definition xalloc_found (p seg new_seg new_seg2 : nat) (start sz : Z) : M vworld Z :=
  s ← ld_seg seg;
  assertM (bool_decide (type s = SEGMENT_FREE)) "seg->type == SEGMENT_FREE";;
  assertM (bool_decide (size s >= sz)) "seg->size >= size";;
  seglist_remove p seg;;
  used2 ← xalloc_split_left p seg new_seg2 start;
  xalloc_finish p seg new_seg new_seg2 used2 start sz.

Definition vmem_xalloc (fuel p : nat) (sz align phase nocross minaddr maxaddr flag : Z)
    : M vworld Z :=
  arena_lock p;;
  first_list ← freelist_for_size sz;
  assertM (bool_decide (nocross = 0)) "nocross == 0";;
  v ← ld_arena p;
  let align := if decide (align = 0) then quantum v else align in
  assertM (bool_decide (align mod quantum v = 0)) "align % quantum == 0";;
  let flag := Z.lor (Z.land flag (Z.lnot VM_INSTANTFIT)) VM_BESTFIT in
  whenM (negb (has_flag flag VM_BOOTSTRAP))
    (r ← repopulate_segments; assertM (bool_decide (r = 0)) "repopulate_segments() == 0");;
  new_seg ← seg_alloc;
  new_seg2 ← seg_alloc;
  '(seg, start) ← xalloc_search fuel p first_list sz align phase nocross minaddr maxaddr flag;
  ret ← xalloc_found p seg new_seg new_seg2 start sz;
  arena_unlock p;;
  mret ret.

Definition vmem_alloc (fuel p : nat) (sz flag : Z) : M vworld Z :=
  vmem_xalloc fuel p sz 0 0 0 VMEM_ADDR_MIN VMEM_ADDR_MAX flag.

(** Merge with the free segment after [seg]. *)
Definition xfree_coalesce_right (p seg : nat) : M vworld unit :=
  v ← ld_arena p;
  match Abs.next_of seg (segqueue v) with
  | None => mret tt
  | Some neighbor =>
      n ← ld_seg neighbor;
      if decide (type n = SEGMENT_FREE) then
        seglist_remove p neighbor;;
        segqueue_remove p neighbor;;
        upd_seg seg (λ s, set_size (wrap64 (size s + size n)) s);;
        seg_free neighbor
      else mret tt
  end.

(** Merge with the free segment before [seg]. *)
Definition xfree_coalesce_left (p seg : nat) : M vworld unit :=
  v ← ld_arena p;
  neighbor ← deref "TAILQ_PREV" (Abs.prev_of seg (segqueue v));
  n ← ld_seg neighbor;
  if decide (type n = SEGMENT_FREE) then
    seglist_remove p neighbor;;
    segqueue_remove p neighbor;;
    upd_seg seg (λ s, set_size (wrap64 (size s + size n)) s);;
    upd_seg seg (set_base (base n));;
    seg_free neighbor
  else mret tt.

(** [LIST_FOREACH] over the bucket, stopping at the segment based at [addr]. *)
Fixpoint bucket_find (l : list nat) (addr : Z) : M vworld (option nat) :=
  match l with
  | [] => mret None
  | s :: l' => seg ← ld_seg s;
               if decide (base seg = addr) then mret (Some s) else bucket_find l' addr
  end.

(** From the look at the segment before the merged one to the unlock: an imported
    span that is free again goes back to its source, anything else to a free list. *)
Definition xfree_finish (p seg : nat) (sz : Z) : M vworld unit :=
  v ← ld_arena p;
  neighbor ← deref "TAILQ_PREV" (Abs.prev_of seg (segqueue v));
  n ← ld_seg neighbor;
  assertM (bool_decide (type n = SEGMENT_SPAN) || bool_decide (type n = SEGMENT_ALLOCATED))
    "neighbor->type == SEGMENT_SPAN || neighbor->type == SEGMENT_ALLOCATED";;
  upd_seg seg (set_type SEGMENT_FREE);;
  s ← ld_seg seg;
  match v_free v with
  | Some f =>
      if decide (type n = SEGMENT_SPAN ∧ imported n = true ∧ size n = size s) then
        segqueue_remove p seg;;
        seg_free seg;;
        segqueue_remove p neighbor;;
        seg_free neighbor;;
        call_free f (source v) (base s) (size s)
      else vmem_add_to_freelist p seg
  | None => vmem_add_to_freelist p seg
  end;;
  upd_arena p (stat_add sz 0 (- sz));;
  arena_unlock p.

Definition vmem_xfree (p : nat) (addr sz : Z) : M vworld unit :=
  arena_lock p;;
  v ← ld_arena p;
  bucket ← deref "hashtable" (hashtable v !! hashtable_for_addr addr);
  found ← bucket_find bucket addr;
  seg ← deref "seg" found;
  s ← ld_seg seg;
  assertM (bool_decide (size s = sz)) "seg->size == size";;
  seglist_remove p seg;;
  xfree_coalesce_right p seg;;
  xfree_coalesce_left p seg;;
  xfree_finish p seg sz.

Definition vmem_free (p : nat) (addr sz : Z) : M vworld unit := vmem_xfree p addr sz.
End ops.

(** A quick run: one arena of 16 pages, allocate two, free the first. *)
Definition vworld0 : vworld :=
  VWorld (list_to_map ((λ s, (s, seg_garbage)) <$> seq 0 128)) [] 0 false 128 8
    {[ 0%nat := MkVmem "" 0 0 0 None None None 0 0 false [] [] [] [] (Stat 0 0 0 0 0) ]}.

Definition no_alloc : nat → option nat → Z → Z → M vworld Z := λ _ _ _ _, mret 0.
Definition no_free : nat → option nat → Z → Z → M vworld unit := λ _ _ _ _, mret tt.
