(* ===== verification/VmemInv.v ===== *)
(** * Invariants of the vmem allocator (model in Vmem.v)

    The invariant of an arena is stated on its layout, the list of boundary tags
    in queue order: every span marker is followed by segments that tile the span
    exactly ([tile]) and no two free segments are adjacent ([coalesced]); the
    free lists and hash buckets hold exactly the free and the allocated segments
    ([lists_ok]); unused tags are in the pool and nowhere else ([pool_ok]). *)

From S2P Require Import Prelude Queue Vmem.

(** ** Symbolic execution of the primitive steps *)
Section steps.
Implicit Types (w : vworld) (v : Vmem).

Lemma wp_ld_seg i s (Q : VmemSegment → vworld → Prop) w :
  segs w !! i = Some s → Q s w → wp (ld_seg i) Q w.
Proof. intros H HQ. unfold ld_seg. wp_run. eauto. Qed.
Lemma wp_upd_seg i s f (Q : unit → vworld → Prop) w :
  segs w !! i = Some s → Q tt (w_segs (<[i := f s]> (segs w)) w) → wp (upd_seg i f) Q w.
Proof. intros H HQ. unfold upd_seg. wp_run. eexists; split; [done|]. by wp_run. Qed.
Lemma wp_ld_arena p v (Q : Vmem → vworld → Prop) w :
  arenas w !! p = Some v → Q v w → wp (ld_arena p) Q w.
Proof. intros H HQ. unfold ld_arena. wp_run. eauto. Qed.
Lemma wp_upd_arena p v f (Q : unit → vworld → Prop) w :
  arenas w !! p = Some v → Q tt (w_arenas (<[p := f v]> (arenas w)) w) →
  wp (upd_arena p f) Q w.
Proof. intros H HQ. unfold upd_arena. wp_run. eexists; split; [done|]. by wp_run. Qed.
End steps.

Lemma wp_bind_intro {S A B} (m : M S A) (f : A → M S B) Q s :
  wp m (λ a s', wp (f a) Q s') s → wp (m ≫= f) Q s.
Proof. apply wp_bind. Qed.
Lemma wp_assert_intro {S} b what Q (s : S) : b = true → Q tt s → wp (assertM b what) Q s.
Proof. rewrite wp_assert. auto. Qed.
Lemma wp_deref_intro {S A} what (o : option A) a Q (s : S) :
  o = Some a → Q a s → wp (deref what o) Q s.
Proof. rewrite wp_deref. eauto. Qed.

Ltac v_simpl := cbn [segs free_segs nfreesegs g_vmem_lock next_seg pm_pages arenas
  w_segs w_pool w_glock w_pages w_arenas
  segqueue freelist hashtable stat quantum lock v_alloc v_free source
  set_segqueue set_freelist set_hashtable set_stat set_lock
  type imported base size set_type set_base set_size set_imported].
Tactic Notation "v_simpl" "in" hyp(H) := cbn [segs free_segs nfreesegs g_vmem_lock next_seg pm_pages arenas
  w_segs w_pool w_glock w_pages w_arenas
  segqueue freelist hashtable stat quantum lock v_alloc v_free source
  set_segqueue set_freelist set_hashtable set_stat set_lock
  type imported base size set_type set_base set_size set_imported] in H.

Ltac v_lookup := v_simpl; simplify_map_eq; first [done | reflexivity].

(** one monadic step of a vmem routine *)
Ltac v_step :=
  match goal with
  | |- wp (_ ≫= _) _ _ => apply wp_bind_intro
  | |- wp (ld_seg _) _ _ => eapply wp_ld_seg; [v_lookup|v_simpl]
  | |- wp (upd_seg _ _) _ _ => eapply wp_upd_seg; [v_lookup|v_simpl]
  | |- wp (ld_arena _) _ _ => eapply wp_ld_arena; [v_lookup|v_simpl]
  | |- wp (upd_arena _ _) _ _ => eapply wp_upd_arena; [v_lookup|v_simpl]
  | |- wp (mret _) _ _ => apply wp_ret; v_simpl
  end.

(** ** The pool *)
Lemma wp_seg_alloc s rest (Q : nat → vworld → Prop) w :
  g_vmem_lock w = false → free_segs w = s :: rest →
  Q s (w_pool rest (nfreesegs w - 1) w) → wp seg_alloc Q w.
Proof.
  intros Hl Hf HQ. unfold seg_alloc, vmem_lock, vmem_unlock. wp_run.
  rewrite Hl. wp_run. v_simpl. rewrite Hf. wp_run. v_simpl.
  destruct w; simpl in *; by subst.
Qed.
Lemma wp_seg_free s (Q : unit → vworld → Prop) w :
  g_vmem_lock w = false →
  Q tt (w_pool (s :: free_segs w) (nfreesegs w + 1) w) → wp (seg_free s) Q w.
Proof.
  intros Hl HQ. unfold seg_free, vmem_lock, vmem_unlock. wp_run.
  rewrite Hl. wp_run. v_simpl. destruct w; simpl in *; by subst.
Qed.

(** ** Free lists and hash buckets *)
Definition fl_index (sz : Z) : nat := Z.to_nat (Z.log2 sz - 1).
Definition seg_size_ok (sz : Z) : Prop := 2 ≤ sz < 2 ^ 64.

Lemma freelist_index sz : seg_size_ok sz →
  wrap64 (GET_LIST sz - 1) = Z.log2 sz - 1 ∧ 0 ≤ Z.log2 sz - 1 < 64.
Proof.
  intros [H1 H2]. unfold GET_LIST, clzl.
  assert (1 ≤ Z.log2 sz) by (apply (Z.log2_le_pow2 sz 1); lia).
  assert (Z.log2 sz < 64) by (apply Z.log2_lt_pow2; lia).
  rewrite !wrap64_small; lia.
Qed.
Lemma wp_freelist_for_size sz (Q : nat → vworld → Prop) w :
  seg_size_ok sz → Q (fl_index sz) w → wp (freelist_for_size sz) Q w.
Proof.
  intros Hsz HQ. destruct (freelist_index sz Hsz) as [E ?]. destruct Hsz.
  unfold freelist_for_size. rewrite decide_False; [lia|]. rewrite E decide_True; [lia|]. done.
Qed.
Lemma fl_index_lt sz : seg_size_ok sz → (fl_index sz < 64)%nat.
Proof. intros Hsz. destruct (freelist_index sz Hsz). unfold fl_index. lia. Qed.
Lemma hash_index_lt a : (hashtable_for_addr a < 16)%nat.
Proof. unfold hashtable_for_addr. pose proof (Z.mod_pos_bound (murmur64 a) 16). lia. Qed.

(** [bucketed n f tbl m L]: the table [tbl] of [n] lists files the identities of
    [L] whose tag [f] sends to a bucket, each once and in that bucket. *)
Definition bucketed (n : nat) (f : VmemSegment → option nat) (tbl : list (list nat))
    (m : gmap nat VmemSegment) (L : gset nat) : Prop :=
  length tbl = n ∧
  ∀ i l, tbl !! i = Some l →
    NoDup l ∧ ∀ id, id ∈ l ↔ id ∈ L ∧ ∃ s, m !! id = Some s ∧ f s = Some i.

Definition free_bucket (s : VmemSegment) : option nat :=
  if decide (type s = SEGMENT_FREE) then Some (fl_index (size s)) else None.
Definition hash_bucket (s : VmemSegment) : option nat :=
  if decide (type s = SEGMENT_ALLOCATED) then Some (hashtable_for_addr (base s)) else None.

Section bucketed.
Context (n : nat) (f : VmemSegment → option nat).
Implicit Types (tbl : list (list nat)) (m : gmap nat VmemSegment) (L : gset nat).

Lemma bucketed_remove tbl m L x :
  bucketed n f tbl m L → bucketed n f (Abs.remove x <$> tbl) m (L ∖ {[x]}).
Proof.
  intros [Hn H]. split; [by rewrite length_fmap|].
  intros i l (l0 & -> & Hl)%list_lookup_fmap_Some. destruct (H i l0 Hl) as [Hd Hin].
  split; [by apply Abs.remove_NoDup|]. intros id.
  rewrite Abs.elem_of_remove Hin elem_of_difference elem_of_singleton. tauto.
Qed.
Lemma bucketed_upd tbl m L x s :
  x ∉ L → bucketed n f tbl m L → bucketed n f tbl (<[x := s]> m) L.
Proof.
  intros Hx [Hn H]. split; [done|]. intros i l Hl. destruct (H i l Hl) as [Hd Hin].
  split; [done|]. intros id. rewrite Hin.
  split; intros [? Hs]; (split; [done|]); destruct (decide (x = id)) as [->|?]; simplify_map_eq; done.
Qed.
Lemma bucketed_insert tbl m L x s i :
  x ∉ L → m !! x = Some s → f s = Some i →
  bucketed n f tbl m L → bucketed n f (alter (cons x) i tbl) m ({[x]} ∪ L).
Proof.
  intros Hx Hs Hf [Hn H]. split; [by rewrite length_alter|]. intros j l Hl.
  destruct (decide (i = j)) as [<-|Hij].
  - rewrite list_lookup_alter_eq in Hl. apply fmap_Some in Hl as (l0 & Hl & ->).
    destruct (H i l0 Hl) as [Hd Hin]. split.
    + apply NoDup_cons. split; [|done]. rewrite Hin. naive_solver.
    + intros id. rewrite elem_of_cons Hin elem_of_union elem_of_singleton. naive_solver.
  - rewrite list_lookup_alter_ne // in Hl. destruct (H j l Hl) as [Hd Hin].
    split; [done|]. intros id. rewrite Hin elem_of_union elem_of_singleton.
    split; [naive_solver|]. intros [[->|?] (s' & Hs' & Hf')]; [|eauto].
    simplify_eq.
Qed.
Lemma bucketed_other tbl m L x s :
  m !! x = Some s → f s = None →
  bucketed n f tbl m L → bucketed n f tbl m ({[x]} ∪ L).
Proof.
  intros Hs Hf [Hn H]. split; [done|]. intros i l Hl. destruct (H i l Hl) as [Hd Hin].
  split; [done|]. intros id. rewrite Hin elem_of_union elem_of_singleton.
  split; [naive_solver|]. intros [[->|?] (s' & Hs' & Hf')]; [|eauto]. simplify_eq.
Qed.
Lemma bucketed_drop tbl m L x s :
  m !! x = Some s → f s = None →
  bucketed n f tbl m L → bucketed n f tbl m (L ∖ {[x]}).
Proof.
  intros Hs Hf [Hn H]. split; [done|]. intros i l Hl. destruct (H i l Hl) as [Hd Hin].
  split; [done|]. intros id. rewrite Hin elem_of_difference elem_of_singleton.
  split; [|naive_solver]. intros [? (s' & Hs' & Hf')]. split; [|eauto].
  split; [done|]. intros ->. simplify_eq.
Qed.
End bucketed.

Definition lists_ok (m : gmap nat VmemSegment) (v : Vmem) (L : gset nat) : Prop :=
  bucketed 64 free_bucket (freelist v) m L ∧ bucketed 16 hash_bucket (hashtable v) m L.

Section lists_ok.
Implicit Types (m : gmap nat VmemSegment) (v : Vmem) (L : gset nat).

Lemma lists_ok_remove m v L x v' :
  lists_ok m v L →
  freelist v' = Abs.remove x <$> freelist v → hashtable v' = Abs.remove x <$> hashtable v →
  lists_ok m v' (L ∖ {[x]}).
Proof. intros [??] E1 E2. split; rewrite ?E1 ?E2; by apply bucketed_remove. Qed.
Lemma lists_ok_upd m v L x s : x ∉ L → lists_ok m v L → lists_ok (<[x := s]> m) v L.
Proof. intros ? [??]. split; by apply bucketed_upd. Qed.
Lemma lists_ok_add_free m v L x s v' :
  x ∉ L → m !! x = Some s → type s = SEGMENT_FREE → lists_ok m v L →
  freelist v' = alter (cons x) (fl_index (size s)) (freelist v) → hashtable v' = hashtable v →
  lists_ok m v' ({[x]} ∪ L).
Proof.
  intros Hx Hs Ht [??] E1 E2. split; rewrite ?E1 ?E2.
  - eapply bucketed_insert; [done..| |done]. unfold free_bucket. by rewrite decide_True.
  - eapply bucketed_other; [done| |done]. unfold hash_bucket. by rewrite Ht.
Qed.
Lemma lists_ok_add_hash m v L x s v' :
  x ∉ L → m !! x = Some s → type s = SEGMENT_ALLOCATED → lists_ok m v L →
  hashtable v' = alter (cons x) (hashtable_for_addr (base s)) (hashtable v) →
  freelist v' = freelist v →
  lists_ok m v' ({[x]} ∪ L).
Proof.
  intros Hx Hs Ht [??] E1 E2. split; rewrite ?E1 ?E2.
  - eapply bucketed_other; [done| |done]. unfold free_bucket. by rewrite Ht.
  - eapply bucketed_insert; [done..| |done]. unfold hash_bucket. by rewrite decide_True.
Qed.
Lemma lists_ok_add_span m v L x s v' :
  m !! x = Some s → type s = SEGMENT_SPAN → lists_ok m v L →
  hashtable v' = hashtable v → freelist v' = freelist v →
  lists_ok m v' ({[x]} ∪ L).
Proof.
  intros Hs Ht [??] E1 E2. split; rewrite ?E1 ?E2; (eapply bucketed_other; [done| |done]).
  - unfold free_bucket. by rewrite Ht.
  - unfold hash_bucket. by rewrite Ht.
Qed.
Lemma lists_ok_eq m v L v' L' :
  lists_ok m v L → freelist v' = freelist v → hashtable v' = hashtable v → L = L' →
  lists_ok m v' L'.
Proof. intros [??] E1 E2 <-. split; by rewrite ?E1 ?E2. Qed.
End lists_ok.

(** ** Layouts *)
Lemma mod0_sub a b q : a mod q = 0 → b mod q = 0 → (a - b) mod q = 0.
Proof. intros Ha Hb. by rewrite Zminus_mod Ha Hb. Qed.
Lemma mod0_add a b q : a mod q = 0 → b mod q = 0 → (a + b) mod q = 0.
Proof. intros Ha Hb. by rewrite Zplus_mod Ha Hb. Qed.

Definition seg_ok (Q : Z) (s : VmemSegment) : Prop :=
  0 ≤ base s ∧ 0 < size s ∧ base s + size s < 2 ^ 64 ∧
  base s mod Q = 0 ∧ size s mod Q = 0.

Definition is_span (s : VmemSegment) : Prop := type s = SEGMENT_SPAN.
#[global] Instance is_span_dec s : Decision (is_span s).
Proof. unfold is_span. apply _. Defined.

(** Scanning a layout: where the next segment has to start and where the current
    span ends. *)
Definition adv (st : Z * Z) (s : VmemSegment) : Z * Z :=
  if decide (is_span s) then (base s, base s + size s) else (base s + size s, st.2).

Fixpoint tileP (Q : Z) (st : Z * Z) (l : list VmemSegment) : Prop :=
  match l with
  | [] => True
  | s :: l' =>
      seg_ok Q s ∧
      (if decide (is_span s) then st.1 = st.2 else base s = st.1 ∧ base s + size s ≤ st.2) ∧
      tileP Q (adv st s) l'
  end.
Definition tiled (Q : Z) (l : list VmemSegment) : Prop :=
  tileP Q (0, 0) l ∧ (foldl adv (0, 0) l).1 = (foldl adv (0, 0) l).2.

Lemma tileP_app Q st l1 l2 :
  tileP Q st (l1 ++ l2) ↔ tileP Q st l1 ∧ tileP Q (foldl adv st l1) l2.
Proof. revert st. induction l1 as [|s l1 IH]; intros st; simpl; [tauto|]. rewrite IH. tauto. Qed.

(** Replacing part of a layout by another cut of the same stretch. *)
Lemma tiled_replace Q pre mid mid' post :
  tiled Q (pre ++ mid ++ post) →
  (∀ st, tileP Q st mid → tileP Q st mid' ∧ foldl adv st mid' = foldl adv st mid) →
  tiled Q (pre ++ mid' ++ post).
Proof.
  unfold tiled. rewrite !tileP_app !foldl_app. intros [(H1 & H2 & H3) He] Hrep.
  destruct (Hrep _ H2) as [H2' Eq]. rewrite !Eq. tauto.
Qed.

(** Cutting a segment in two, joining two neighbours, and relabelling one. *)
Lemma tiled_cut Q pre s a b post :
  ¬ is_span s → ¬ is_span a → ¬ is_span b → seg_ok Q a → seg_ok Q b →
  base a = base s → base b = base a + size a → base b + size b = base s + size s →
  tiled Q (pre ++ s :: post) → tiled Q (pre ++ a :: b :: post).
Proof.
  intros Hs Ha Hb Hoa Hob E1 E2 E3 H. apply (tiled_replace Q pre [s] [a; b] post H).
  intros st. simpl. unfold adv. rewrite !decide_False //=. destruct Hoa, Hob.
  intros (_ & [? ?] & _). split_and!; try done; try lia. f_equal. lia.
Qed.
Lemma tiled_join Q pre a b s post :
  ¬ is_span s → ¬ is_span a → ¬ is_span b →
  base s = base a → size s = size a + size b →
  tiled Q (pre ++ a :: b :: post) → tiled Q (pre ++ s :: post).
Proof.
  intros Hs Ha Hb E1 E2 H. apply (tiled_replace Q pre [a; b] [s] post H).
  intros st. simpl. unfold adv. rewrite !decide_False //=.
  intros (Hoa & [? ?] & Hob & [? ?] & _). destruct Hoa as (?&?&?&?&?), Hob as (?&?&?&?&?).
  split_and!; try done; [|lia..|f_equal; lia].
  split_and!; try lia; rewrite ?E1 ?E2 //.
  by apply mod0_add.
Qed.
Lemma tiled_relabel Q pre s s' post :
  ¬ is_span s → ¬ is_span s' → base s' = base s → size s' = size s →
  tiled Q (pre ++ s :: post) → tiled Q (pre ++ s' :: post).
Proof.
  intros Hs Hs' E1 E2 H. apply (tiled_replace Q pre [s] [s'] post H).
  intros st. simpl. unfold adv, seg_ok. rewrite !decide_False //= E1 E2. tauto.
Qed.

Definition both_free (a b : VmemSegment) : Prop :=
  type a = SEGMENT_FREE ∧ type b = SEGMENT_FREE.
Fixpoint coalesced (l : list VmemSegment) : Prop :=
  match l with
  | a :: l' => (∀ b, head l' = Some b → ¬ both_free a b) ∧ coalesced l'
  | [] => True
  end.
Lemma coalesced_app l1 l2 :
  coalesced (l1 ++ l2) ↔
  coalesced l1 ∧ coalesced l2 ∧
  (∀ a b, last l1 = Some a → head l2 = Some b → ¬ both_free a b).
Proof.
  induction l1 as [|x l1 IH]; simpl; [naive_solver|].
  rewrite IH. destruct l1 as [|y l1]; [naive_solver|]. simpl. naive_solver.
Qed.

(** A segment that is not a span marker has something before it, and lies between
    the bounds the scan has reached. *)
Lemma tiled_nonspan_pred Q pre s post :
  tiled Q (pre ++ s :: post) → ¬ is_span s → pre ≠ [].
Proof.
  intros [H _] Hs ->. simpl in H. rewrite decide_False // in H.
  destruct H as ((?&?&?&?) & (?&?) & _). simpl in *. lia.
Qed.
Lemma tiled_seg_ok Q l s : tiled Q l → s ∈ l → seg_ok Q s.
Proof.
  intros [H _] (pre & post & ->)%list_elem_of_split. apply tileP_app in H as [_ H].
  by destruct H.
Qed.

(** ** The invariant of one arena; [R] are the tags other arenas own *)
Definition tags (m : gmap nat VmemSegment) (q : list nat) (ss : list VmemSegment) : Prop :=
  Forall2 (λ i s, m !! i = Some s) q ss.

Record pool_ok (w : vworld) (used : gset nat) : Prop := {
  pool_lock : g_vmem_lock w = false;
  pool_count : nfreesegs w = Z.of_nat (length (free_segs w));
  pool_nodup : NoDup (free_segs w);
  pool_tag : ∀ x, x ∈ free_segs w → is_Some (segs w !! x) ∧ x ∉ used ∧ (x < next_seg w)%nat;
  pool_used : ∀ x, x ∈ used → (x < next_seg w)%nat;
}.

Record arena_ok (m : gmap nat VmemSegment) (v : Vmem) (ss : list VmemSegment) : Prop := {
  ok_quantum : pow2 (quantum v) ∧ 2 ≤ quantum v < 2 ^ 64;
  ok_tags : tags m (segqueue v) ss;
  ok_nodup : NoDup (segqueue v);
  ok_lists : lists_ok m v (list_to_set (segqueue v));
  ok_tiled : tiled (quantum v) ss;
  ok_coal : coalesced ss;
}.

Definition frame (p : nat) (R : gset nat) (w w' : vworld) : Prop :=
  (∀ x, x ∈ R → segs w' !! x = segs w !! x) ∧
  (∀ p', p' ≠ p → arenas w' !! p' = arenas w !! p').

Lemma tags_split m q ss pre s post :
  tags m q ss → ss = pre ++ s :: post →
  ∃ qpre i qpost, q = qpre ++ i :: qpost ∧ tags m qpre pre ∧ m !! i = Some s ∧ tags m qpost post.
Proof.
  intros H ->. apply Forall2_app_inv_r in H as (q1 & q2 & H1 & H2 & ->).
  apply Forall2_cons_inv_r in H2 as (i & q3 & H2 & H3 & ->). eauto 10.
Qed.
Lemma tags_upd m q ss x s : x ∉ q → tags m q ss → tags (<[x := s]> m) q ss.
Proof.
  intros Hx H. unfold tags in *. induction H as [|i s' q ss Hi H IH]; [constructor|].
  apply not_elem_of_cons in Hx as [Hne Hx]. constructor; [|auto]. by simplify_map_eq.
Qed.
Lemma tags_app m q1 q2 ss1 ss2 : tags m q1 ss1 → tags m q2 ss2 → tags m (q1 ++ q2) (ss1 ++ ss2).
Proof. apply Forall2_app. Qed.
Lemma tags_elem m q ss i : tags m q ss → i ∈ q → ∃ s, m !! i = Some s ∧ s ∈ ss.
Proof.
  intros H Hi. induction H as [|j s q ss Hj H IH]; [set_solver|].
  apply elem_of_cons in Hi as [->|Hi]; [exists s; set_solver|].
  destruct (IH Hi) as (s' & ? & ?). exists s'. set_solver.
Qed.

(** ** Carving an allocation out of a free segment *)
Lemma wp_add_to_freelist p seg s v (Q : unit → vworld → Prop) w :
  segs w !! seg = Some s → arenas w !! p = Some v → seg_size_ok (size s) →
  Q tt (w_arenas (<[p := set_freelist (alter (cons seg) (fl_index (size s)) (freelist v)) v]>
                   (arenas w)) w) →
  wp (vmem_add_to_freelist p seg) Q w.
Proof.
  intros Hs Hv Hsz HQ. unfold vmem_add_to_freelist.
  v_step. v_step. v_step. apply wp_freelist_for_size; [done|]. by v_step.
Qed.
Lemma wp_hashtab_insert p seg s v (Q : unit → vworld → Prop) w :
  segs w !! seg = Some s → arenas w !! p = Some v →
  Q tt (w_arenas (<[p := set_hashtable (alter (cons seg) (hashtable_for_addr (base s))
                                          (hashtable v)) v]> (arenas w)) w) →
  wp (hashtab_insert p seg) Q w.
Proof. intros Hs Hv HQ. unfold hashtab_insert. v_step. v_step. by v_step. Qed.

Section carve.
Context (w : vworld) (p : nat) (v : Vmem) (seg : nat) (s : VmemSegment).
Context (Hv : arenas w !! p = Some v) (Hs : segs w !! seg = Some s).
Context (Hok : 0 ≤ base s ∧ 0 < size s ∧ base s + size s < 2 ^ 64).
Implicit Types Q : bool → vworld → Prop.

(** the world after the left split *)
Definition left_world (n2 pr : nat) (x2 : VmemSegment) (start : Z) : vworld :=
  w_segs (<[seg := Seg (type s) (imported s) start (size s - (start - base s))]>
           (<[n2 := Seg SEGMENT_FREE (imported x2) (base s) (start - base s)]> (segs w)))
    (w_arenas (<[p := set_segqueue (Abs.insert_after pr n2 (segqueue v))
                        (set_freelist (alter (cons n2) (fl_index (start - base s)) (freelist v)) v)]>
                (arenas w)) w).

Lemma wp_split_left_none n2 start Q :
  base s = start → Q false w → wp (xalloc_split_left p seg n2 start) Q w.
Proof.
  intros E HQ. unfold xalloc_split_left. v_step. v_step.
  rewrite decide_False; [naive_solver|]. by v_step.
Qed.
Lemma wp_split_left n2 x2 pr start Q :
  base s ≠ start → base s + 2 ≤ start < base s + size s →
  seg ≠ n2 → segs w !! n2 = Some x2 → Abs.prev_of seg (segqueue v) = Some pr →
  Q true (left_world n2 pr x2 start) →
  wp (xalloc_split_left p seg n2 start) Q w.
Proof.
  intros Hne Hst Hsn Hx Hpr HQ. unfold xalloc_split_left. v_step. v_step.
  rewrite decide_True //. rewrite !(wrap64_small (start - base s)); [lia|].
  repeat v_step. eapply wp_add_to_freelist; [v_lookup|v_lookup|split; cbn; lia|]. v_simpl.
  repeat v_step. eapply wp_deref_intro; [v_simpl; done|].
  repeat v_step. unfold vmem_insert_segment. repeat v_step.
  revert HQ. unfold left_world. rewrite wrap64_small; [lia|].
  by rewrite !insert_insert_eq.
Qed.

(** the world after cutting [sz] off the front of [seg] *)
Definition right_world (n1 pr : nat) (x1 : VmemSegment) (sz : Z) : vworld :=
  w_segs (<[seg := Seg (type s) (imported s) (base s + sz) (size s - sz)]>
           (<[n1 := Seg SEGMENT_ALLOCATED (imported x1) (base s) sz]> (segs w)))
    (w_arenas (<[p := set_hashtable (alter (cons n1) (hashtable_for_addr (base s)) (hashtable v))
                        (set_segqueue (Abs.insert_after pr n1 (segqueue v))
                        (set_freelist (alter (cons seg) (fl_index (size s - sz)) (freelist v)) v))]>
                (arenas w)) w).
(** the world after handing out all of [seg] *)
Definition whole_world (n1 : nat) : vworld :=
  w_pool (n1 :: free_segs w) (nfreesegs w + 1)
    (w_segs (<[seg := Seg SEGMENT_ALLOCATED (imported s) (base s) (size s)]> (segs w))
      (w_arenas (<[p := set_hashtable (alter (cons seg) (hashtable_for_addr (base s))
                                         (hashtable v)) v]> (arenas w)) w)).

Lemma wp_split_right n1 x1 pr sz (Q : nat → vworld → Prop) :
  2 ≤ quantum v < 2 ^ 64 → 0 < sz → sz + quantum v ≤ size s →
  seg ≠ n1 → segs w !! n1 = Some x1 → Abs.prev_of seg (segqueue v) = Some pr →
  Q n1 (right_world n1 pr x1 sz) →
  wp (xalloc_split_right p seg n1 sz) Q w.
Proof.
  intros Hq Hsz Hlt Hsn Hx Hpr HQ. unfold xalloc_split_right. repeat v_step.
  rewrite decide_True; [rewrite !wrap64_small; lia|].
  repeat v_step. eapply wp_add_to_freelist; [v_lookup|v_lookup|split; v_simpl|];
    [rewrite wrap64_small; lia..|]. v_simpl.
  repeat v_step. eapply wp_deref_intro; [v_simpl; done|].
  repeat v_step. unfold vmem_insert_segment. repeat v_step.
  eapply wp_hashtab_insert; [v_lookup|v_lookup|]. v_simpl. repeat v_step.
  revert HQ. unfold right_world. rewrite !wrap64_small; [lia..|].
  by rewrite !insert_insert_eq.
Qed.
Lemma wp_split_whole n1 sz (Q : nat → vworld → Prop) :
  size s = sz → g_vmem_lock w = false → Q seg (whole_world n1) →
  wp (xalloc_split_right p seg n1 sz) Q w.
Proof.
  intros Hsz Hl HQ. unfold xalloc_split_right. repeat v_step.
  rewrite decide_False; [naive_solver|]. repeat v_step.
  eapply wp_hashtab_insert; [v_lookup|v_lookup|]. repeat v_step.
  apply wp_seg_free; [done|]. by repeat v_step.
Qed.
End carve.

(** ** An arena with one segment detached from the free lists and hash table *)
Record detached (w : vworld) (p : nat) (v : Vmem) (qpre : list nat) (seg : nat) (qpost : list nat)
    (pre : list VmemSegment) (s : VmemSegment) (post : list VmemSegment) : Prop := {
  d_quantum : pow2 (quantum v) ∧ 2 ≤ quantum v < 2 ^ 64;
  d_arena : arenas w !! p = Some v;
  d_queue : segqueue v = qpre ++ seg :: qpost;
  d_nodup : NoDup (qpre ++ seg :: qpost);
  d_pre : tags (segs w) qpre pre;
  d_seg : segs w !! seg = Some s;
  d_post : tags (segs w) qpost post;
  d_lists : lists_ok (segs w) v (list_to_set (qpre ++ qpost));
  d_tiled : tiled (quantum v) (pre ++ s :: post);
  d_glock : g_vmem_lock w = false;
}.

Lemma wp_seglist_remove p v seg (Q : unit → vworld → Prop) w :
  arenas w !! p = Some v →
  Q tt (w_arenas (<[p := set_freelist (Abs.remove seg <$> freelist v)
                      (set_hashtable (Abs.remove seg <$> hashtable v) v)]> (arenas w)) w) →
  wp (seglist_remove p seg) Q w.
Proof. intros Hv HQ. unfold seglist_remove. by v_step. Qed.

Lemma list_to_set_mid (qpre qpost : list nat) seg :
  seg ∉ qpre → seg ∉ qpost →
  list_to_set (qpre ++ seg :: qpost) ∖ {[seg]} = (list_to_set (qpre ++ qpost) : gset nat).
Proof. intros H1 H2. apply set_eq. intros x. rewrite elem_of_difference !elem_of_list_to_set. set_solver. Qed.

Lemma wp_detach w p v seg s qpre qpost pre post (Q : unit → vworld → Prop) :
  arenas w !! p = Some v → arena_ok (segs w) v (pre ++ s :: post) →
  segqueue v = qpre ++ seg :: qpost → length qpre = length pre → g_vmem_lock w = false →
  (∀ w' v', detached w' p v' qpre seg qpost pre s post →
            segs w' = segs w → v' = set_freelist (freelist v') (set_hashtable (hashtable v') v) →
            w' = w_arenas (<[p := v']> (arenas w)) w → Q tt w') →
  wp (seglist_remove p seg) Q w.
Proof.
  intros Hv [Hq Htags Hd Hl Ht Hc] Hqueue Hlen Hg HQ. eapply wp_seglist_remove; [done|].
  rewrite Hqueue in Htags Hd Hl.
  apply Forall2_app_inv in Htags as [Hpre Hpost]; [|done].
  apply Forall2_cons in Hpost as [Hs Hpost].
  pose proof Hd as (?&?&?&?&?)%NoDup_mid.
  apply (HQ _ (set_freelist (Abs.remove seg <$> freelist v)
                 (set_hashtable (Abs.remove seg <$> hashtable v) v))); [split|done..];
    v_simpl; try done.
  - by rewrite lookup_insert_eq.
  - rewrite -(list_to_set_mid _ _ seg) //. eapply lists_ok_remove; [done|done|done].
Qed.

Section cut.
Context (w : vworld) (p : nat) (v : Vmem) (qpre : list nat) (seg : nat) (qpost : list nat).
Context (pre : list VmemSegment) (s : VmemSegment) (post : list VmemSegment).
Context (D : detached w p v qpre seg qpost pre s post).

Lemma detached_seg_ok : seg_ok (quantum v) s.
Proof. eapply tiled_seg_ok; [apply (d_tiled _ _ _ _ _ _ _ _ _ D)|set_solver]. Qed.

Lemma detached_pred : ¬ is_span s →
  ∃ qpre' pr, qpre = qpre' ++ [pr] ∧ Abs.prev_of seg (segqueue v) = Some pr.
Proof.
  intros Hs. destruct D. pose proof d_nodup0 as (?&?&?&?&?)%NoDup_mid.
  destruct qpre as [|pr q _] using rev_ind.
  - apply Forall2_nil_inv_l in d_pre0. subst pre.
    by apply (tiled_nonspan_pred _ _ _ _ d_tiled0) in Hs.
  - exists q, pr. split; [done|]. by rewrite d_queue0 Abs.prev_of_split // last_snoc.
Qed.

(** inserting [n] right after the predecessor puts it between [qpre] and [seg] *)
Lemma detached_insert qpre' pr n :
  qpre = qpre' ++ [pr] →
  Abs.insert_after pr n (segqueue v) = qpre ++ n :: seg :: qpost.
Proof.
  intros E. rewrite (d_queue _ _ _ _ _ _ _ _ _ D) E -!app_assoc. cbn [app].
  apply Abs.insert_after_split.
  pose proof (d_nodup _ _ _ _ _ _ _ _ _ D) as Hd.
  rewrite E -app_assoc in Hd. cbn [app] in Hd. by apply NoDup_mid in Hd as (?&?&?&?&?).
Qed.

Lemma detached_notin n : n ∉ qpre ++ seg :: qpost →
  NoDup ((qpre ++ [n]) ++ seg :: qpost) ∧ n ≠ seg ∧ n ∉ qpre ∧ n ∉ qpost.
Proof.
  intros Hn. pose proof (d_nodup _ _ _ _ _ _ _ _ _ D) as (?&?&?&?&?)%NoDup_mid.
  split; [|set_solver]. apply NoDup_mid. split_and!; [apply NoDup_snoc|..]; set_solver.
Qed.

Lemma left_detached n2 x2 pr qpre' start :
  type s = SEGMENT_FREE → base s < start < base s + size s → start mod quantum v = 0 →
  n2 ∉ qpre ++ seg :: qpost → qpre = qpre' ++ [pr] →
  detached (left_world w p v seg s n2 pr x2 start) p
    (set_segqueue (Abs.insert_after pr n2 (segqueue v))
      (set_freelist (alter (cons n2) (fl_index (start - base s)) (freelist v)) v))
    (qpre ++ [n2]) seg qpost
    (pre ++ [Seg SEGMENT_FREE (imported x2) (base s) (start - base s)])
    (Seg (type s) (imported s) start (size s - (start - base s))) post.
Proof.
  intros Ht Hst Hal Hn2 Epre. destruct (detached_notin n2 Hn2) as (Hd' & Hne & Hnpre & Hnpost).
  pose proof (detached_insert qpre' pr n2 Epre) as Hins. pose proof detached_seg_ok as Hsok.
  pose proof D as []. pose proof d_nodup0 as (?&?&?&?&?)%NoDup_mid.
  split; unfold left_world; v_simpl; try done.
  - by rewrite lookup_insert_eq.
  - by rewrite Hins -app_assoc.
  - apply tags_app; [|constructor; [by simplify_map_eq|constructor]].
    apply tags_upd; [done|]. by apply tags_upd.
  - by rewrite lookup_insert_eq.
  - apply tags_upd; [done|]. by apply tags_upd.
  - apply lists_ok_upd; [set_solver|]. eapply lists_ok_eq; [|done..|].
    + eapply (lists_ok_add_free _ v (list_to_set (qpre ++ qpost)) n2 _
        (set_freelist (alter (cons n2) (fl_index (start - base s)) (freelist v)) v));
        [set_solver|apply lookup_insert_eq|done| |done|done].
      by apply lists_ok_upd; [set_solver|].
    + apply set_eq. intros y. set_solver.
  - rewrite -app_assoc. cbn [app]. destruct Hsok as (?&?&?&?&?).
    assert ((start - base s) mod quantum v = 0) by by apply mod0_sub.
    eapply (tiled_cut _ _ s); [..|exact d_tiled0]; unfold is_span, seg_ok; v_simpl;
      try (rewrite ?Ht; congruence); try lia; split_and!; try done; try lia.
    by apply mod0_sub.
Qed.

Lemma right_arena n1 x1 pr qpre' sz
    (v' := set_hashtable (alter (cons n1) (hashtable_for_addr (base s)) (hashtable v))
             (set_segqueue (Abs.insert_after pr n1 (segqueue v))
             (set_freelist (alter (cons seg) (fl_index (size s - sz)) (freelist v)) v)))
    (ss' := pre ++ Seg SEGMENT_ALLOCATED (imported x1) (base s) sz ::
                   Seg (type s) (imported s) (base s + sz) (size s - sz) :: post) :
  type s = SEGMENT_FREE → 0 < sz < size s → sz mod quantum v = 0 →
  n1 ∉ qpre ++ seg :: qpost → qpre = qpre' ++ [pr] → coalesced ss' →
  arena_ok (segs (right_world w p v seg s n1 pr x1 sz)) v' ss' ∧
  segqueue v' = qpre ++ n1 :: seg :: qpost.
Proof.
  intros Ht Hsz Hal Hn1 Epre Hco. destruct (detached_notin n1 Hn1) as (Hd' & Hne & Hnpre & Hnpost).
  pose proof (detached_insert qpre' pr n1 Epre) as Hins. pose proof detached_seg_ok as Hsok.
  pose proof D as []. pose proof d_nodup0 as (?&?&?&?&?)%NoDup_mid.
  split; [|done]. subst v' ss'. split; unfold right_world; v_simpl; try done.
  - rewrite Hins. apply tags_app; [by do 2 (apply tags_upd; [done|])|].
    repeat constructor; [by simplify_map_eq..|]. by do 2 (apply tags_upd; [done|]).
  - rewrite Hins. by rewrite -app_assoc in Hd'.
  - set (vf := set_freelist (alter (cons seg) (fl_index (size s - sz)) (freelist v)) v).
    set (vh := set_hashtable (alter (cons n1) (hashtable_for_addr (base s)) (hashtable v)) vf).
    apply (lists_ok_eq _ vh ({[n1]} ∪ ({[seg]} ∪ list_to_set (qpre ++ qpost)))); [|done..|].
    + eapply (lists_ok_add_hash _ vf); [set_solver|by simplify_map_eq|done| |done|done].
      eapply (lists_ok_add_free _ v); [set_solver|apply lookup_insert_eq|done| |done|done].
      do 2 (apply lists_ok_upd; [set_solver|]). done.
    + rewrite Hins. apply set_eq. intros y. set_solver.
  - destruct Hsok as (?&?&?&?&?).
    assert ((size s - sz) mod quantum v = 0) by by apply mod0_sub.
    eapply (tiled_cut _ _ s); [..|exact d_tiled0]; unfold is_span, seg_ok; v_simpl;
      try (rewrite ?Ht; congruence); try lia; split_and!; try done; try lia.
    by apply mod0_add.
Qed.

Lemma whole_arena n1
    (v' := set_hashtable (alter (cons seg) (hashtable_for_addr (base s)) (hashtable v)) v)
    (ss' := pre ++ Seg SEGMENT_ALLOCATED (imported s) (base s) (size s) :: post) :
  type s = SEGMENT_FREE → coalesced ss' →
  arena_ok (segs (whole_world w p v seg s n1)) v' ss' ∧
  segqueue v' = qpre ++ seg :: qpost.
Proof.
  intros Ht Hco. pose proof D as []. pose proof d_nodup0 as (?&?&?&?&?)%NoDup_mid.
  split; [|done]. subst v' ss'. split; unfold whole_world; v_simpl; try done.
  - rewrite d_queue0. apply tags_app; [by apply tags_upd|].
    constructor; [apply lookup_insert_eq|by apply tags_upd].
  - by rewrite d_queue0.
  - set (vh := set_hashtable (alter (cons seg) (hashtable_for_addr (base s)) (hashtable v)) v).
    apply (lists_ok_eq _ vh ({[seg]} ∪ list_to_set (qpre ++ qpost))); [|done..|].
    + eapply (lists_ok_add_hash _ v); [set_solver|apply lookup_insert_eq|done| |done|done].
      by apply lists_ok_upd; [set_solver|].
    + rewrite d_queue0. apply set_eq. intros y. set_solver.
  - eapply (tiled_relabel _ _ s); [..|exact d_tiled0]; unfold is_span; v_simpl; congruence.
Qed.
End cut.

