(* ===== verification/VmemAlloc.v ===== *)
(** * Allocation from a vmem arena

    [vmem_xalloc] finds a free segment, carves the request out of it and files the
    pieces; this file shows that it returns, keeps the arena invariant, and cuts the
    layout exactly as the reference function [carve] says. *)

From S2P Require Import Prelude Queue Vmem VmemInv.

(** ** Pool bookkeeping *)
Lemma pool_ok_segs w m' used :
  pool_ok w used → (∀ x, is_Some (segs w !! x) → is_Some (m' !! x)) → pool_ok (w_segs m' w) used.
Proof. intros [????] Hm. split; v_simpl; try done. intros x Hx. naive_solver. Qed.
Lemma pool_ok_arenas w a used : pool_ok w used → pool_ok (w_arenas a w) used.
Proof. intros []. by split. Qed.
Lemma pool_ok_put w n used :
  pool_ok w ({[n]} ∪ used) → n ∉ used → is_Some (segs w !! n) →
  pool_ok (w_pool (n :: free_segs w) (nfreesegs w + 1) w) used.
Proof.
  intros [Hl Hc Hd Ht Hu] Hn Hs. split; v_simpl; try done.
  - rewrite Hc length_cons. lia.
  - apply NoDup_cons. split; [|done]. intros Hin%Ht. set_solver.
  - intros x [->|Hx]%elem_of_cons; [split_and!; [done..|apply Hu; set_solver]|].
    destruct (Ht x Hx) as (?&?&?). set_solver.
  - set_solver.
Qed.
Lemma pool_ok_take w n rest used :
  pool_ok w used → free_segs w = n :: rest →
  pool_ok (w_pool rest (nfreesegs w - 1) w) ({[n]} ∪ used) ∧ n ∉ used ∧ is_Some (segs w !! n).
Proof.
  intros [Hl Hc Hd Ht Hu] E. rewrite E in Hc Hd. apply NoDup_cons in Hd as [Hn Hd].
  destruct (Ht n) as (?&?&?); [rewrite E; left|]. split_and!; [|done..]. split; v_simpl; try done.
  - rewrite Hc length_cons. lia.
  - intros x Hx. destruct (Ht x) as (?&?&?); [rewrite E; by right|]. set_solver.
  - set_solver.
Qed.
Lemma pool_ok_used w used used' : pool_ok w used → used = used' → pool_ok w used'.
Proof. by intros ? <-. Qed.

(** What an allocation promises about the arena record and the rest of the world. *)
Definition sview (s : VmemSegment) : segtype * Z * Z := (type s, base s, size s).

(** The reference cut: the stretch [b, b + z) with [sz] allocated at [start]. *)
Definition carve (b z start sz : Z) : list (segtype * Z * Z) :=
  (if decide (b = start) then [] else [(SEGMENT_FREE, b, start - b)]) ++
  (SEGMENT_ALLOCATED, start, sz) ::
  (if decide (start + sz = b + z) then []
   else [(SEGMENT_FREE, start + sz, b + z - (start + sz))]).

Definition same_config (v v' : Vmem) : Prop :=
  quantum v' = quantum v ∧ v_alloc v' = v_alloc v ∧ v_free v' = v_free v ∧
  source v' = source v ∧ lock v' = lock v.

Record alloc_post (w w' : vworld) (p : nat) (v v' : Vmem) (ss' : list VmemSegment)
    (R : gset nat) (sz : Z) (extra : gset nat) : Prop := {
  ap_arenas : arenas w' = <[p := v']> (arenas w);
  ap_ok : arena_ok (segs w') v' ss';
  ap_config : same_config v v';
  ap_stat : stat v' = stat (stat_add (- sz) 0 sz v);
  ap_pool : pool_ok w' (list_to_set (segqueue v') ∪ R);
  ap_sub : list_to_set (segqueue v') ⊆ list_to_set (segqueue v) ∪ extra;
  ap_frame : ∀ x, x ∉ (list_to_set (segqueue v) : gset nat) → x ∉ extra →
                  segs w' !! x = segs w !! x;
  ap_next : next_seg w' = next_seg w ∧ pm_pages w' = pm_pages w;
}.

Lemma multiple_gap a b q : 0 < q → a mod q = 0 → b mod q = 0 → a < b → a + q ≤ b.
Proof.
  intros Hq Ha Hb Hlt. destruct (decide (a + q ≤ b)) as [|Hn]; [done|].
  pose proof (multiples_close a b q Hq Ha Hb). lia.
Qed.

Definition right_cut (b z sz : Z) : list (segtype * Z * Z) :=
  if decide (sz = z) then [] else [(SEGMENT_FREE, b + sz, z - sz)].

(** The segment handed out, given where it was put. *)
Lemma wp_finish_end w p v n ns sz (Q : Z → vworld → Prop) :
  segs w !! n = Some ns → type ns = SEGMENT_ALLOCATED → size ns = sz →
  arenas w !! p = Some v →
  Q (base ns) (w_arenas (<[p := stat_add (- sz) 0 sz v]> (arenas w)) w) →
  wp (n' ← ld_seg n;
      assertM (bool_decide (size n' >= sz)) "new_seg->size >= size";;
      upd_arena p (stat_add (- size n') 0 (size n'));;
      upd_seg n (set_type SEGMENT_ALLOCATED);;
      n'' ← ld_seg n;
      mret (base n'')) Q w.
Proof.
  intros Hn Ht Hsz Hv HQ. repeat v_step. apply wp_assert_intro; [apply bool_decide_eq_true; lia|].
  repeat v_step. rewrite Hsz in HQ |- *.
  assert (set_type SEGMENT_ALLOCATED ns = ns) as -> by (destruct ns; simpl in *; by subst).
  by rewrite insert_id.
Qed.

Lemma arena_ok_ext m v v' ss :
  arena_ok m v ss → quantum v' = quantum v → segqueue v' = segqueue v →
  freelist v' = freelist v → hashtable v' = hashtable v → arena_ok m v' ss.
Proof.
  intros [] E1 E2 E3 E4. split; rewrite ?E1 ?E2 //. by eapply lists_ok_eq.
Qed.

Section finish.
Context (w : vworld) (p : nat) (v : Vmem) (qpre : list nat) (seg : nat) (qpost : list nat).
Context (pre : list VmemSegment) (s : VmemSegment) (post : list VmemSegment).
Context (R : gset nat) (n1 n2 : nat) (start sz : Z).
Context (D : detached w p v qpre seg qpost pre s post).
Context (Ht : type s = SEGMENT_FREE) (Hst : base s = start).
Context (Hsz : 0 < sz ≤ size s) (Hmod : sz mod quantum v = 0).
Context (Hpre : coalesced pre) (Hpost : coalesced post).
Context (Hhd : ∀ b, head post = Some b → type b ≠ SEGMENT_FREE).

Lemma coalesced_alloc i b z : coalesced (pre ++ Seg SEGMENT_ALLOCATED i b z :: post).
Proof.
  apply coalesced_app. split_and!; [done|simpl; split; [|done]|]; unfold both_free; naive_solver.
Qed.
Lemma coalesced_alloc_free i b z i' b' z' :
  coalesced (pre ++ Seg SEGMENT_ALLOCATED i b z :: Seg SEGMENT_FREE i' b' z' :: post).
Proof.
  apply coalesced_app. simpl. split_and!; try done; unfold both_free; naive_solver.
Qed.

(** [used2]: whether [n2] already labels the free part on the left; otherwise it
    goes back to the pool. *)
Definition spare (used2 : bool) : gset nat := if used2 then ∅ else {[n2]}.

Lemma finish_release used2 w1 v1 ss1 n ns :
  arenas w1 = <[p := v1]> (arenas w) → arena_ok (segs w1) v1 ss1 →
  same_config v v1 → stat v1 = stat v →
  pool_ok w1 (spare used2 ∪ (list_to_set (segqueue v1) ∪ R)) →
  (used2 = false → n2 ∉ (list_to_set (segqueue v1) ∪ R : gset nat) ∧ is_Some (segs w1 !! n2)) →
  segs w1 !! n = Some ns → sview ns = (SEGMENT_ALLOCATED, start, sz) →
  (list_to_set (segqueue v1) : gset nat) ⊆ {[n1]} ∪ list_to_set (segqueue v) →
  (∀ x, x ∉ segqueue v → x ≠ n1 → segs w1 !! x = segs w !! x) →
  next_seg w1 = next_seg w ∧ pm_pages w1 = pm_pages w →
  wp (whenM (negb used2) (seg_free n2);;
      n' ← ld_seg n;
      assertM (bool_decide (size n' >= sz)) "new_seg->size >= size";;
      upd_arena p (stat_add (- size n') 0 (size n'));;
      upd_seg n (set_type SEGMENT_ALLOCATED);;
      n'' ← ld_seg n;
      mret (base n''))
    (λ r w', r = start ∧ ∃ v', alloc_post w w' p v v' ss1 R sz ({[n1]} ∪ spare used2)) w1.
Proof.
  intros Ha Hok Hcfg Hst1 Hpool Hn2 Hns [= E1 E2 E3] Hsub Hfr Hnx.
  assert (arenas w1 !! p = Some v1) as Hv1 by (rewrite Ha; apply lookup_insert_eq).
  assert (∀ w2, segs w2 = segs w1 → arenas w2 = arenas w1 →
    next_seg w2 = next_seg w1 ∧ pm_pages w2 = pm_pages w1 →
    pool_ok w2 (list_to_set (segqueue v1) ∪ R) →
    wp (n' ← ld_seg n;
        assertM (bool_decide (size n' >= sz)) "new_seg->size >= size";;
        upd_arena p (stat_add (- size n') 0 (size n'));;
        upd_seg n (set_type SEGMENT_ALLOCATED);;
        n'' ← ld_seg n;
        mret (base n''))
      (λ r w', r = start ∧ ∃ v', alloc_post w w' p v v' ss1 R sz ({[n1]} ∪ spare used2)) w2)
    as Hend.
  { intros w2 Es Ea En Hp2. eapply wp_finish_end; [by rewrite Es|done|done|by rewrite Ea|].
    split; [done|]. exists (stat_add (- sz) 0 sz v1). destruct Hcfg as (?&?&?&?&?).
    split; v_simpl; rewrite ?Ea ?Es ?Ha.
    - by rewrite insert_insert_eq.
    - by eapply arena_ok_ext.
    - by split_and!.
    - unfold stat_add. v_simpl. by rewrite Hst1.
    - by apply pool_ok_arenas.
    - clear -Hsub. set_solver.
    - intros x Hx1 Hx2. apply Hfr; set_solver.
    - destruct En as [-> ->]. done. }
  apply wp_bind_intro. destruct used2; simpl.
  - apply wp_ret. apply Hend; [done..|]. eapply pool_ok_used; [done|]. unfold spare. set_solver.
  - destruct Hn2 as [Hn2 Hs2]; [done|].
    apply wp_seg_free; [by destruct Hpool|]. apply Hend; [done..|].
    apply pool_ok_put; [|done..]. eapply pool_ok_used; [done|]. unfold spare. set_solver.
Qed.

Lemma finish_spec used2 :
  n1 ∉ (list_to_set (qpre ++ seg :: qpost) ∪ R : gset nat) → is_Some (segs w !! n1) →
  (used2 = false → n2 ∉ (list_to_set (qpre ++ seg :: qpost) ∪ R : gset nat) ∧
                   n1 ≠ n2 ∧ is_Some (segs w !! n2)) →
  pool_ok w ({[n1]} ∪ (spare used2 ∪ (list_to_set (qpre ++ seg :: qpost) ∪ R))) →
  wp (xalloc_finish p seg n1 n2 used2 start sz) (λ r w', r = start ∧
    ∃ v' ss', alloc_post w w' p v v' ss' R sz ({[n1]} ∪ spare used2) ∧
      sview <$> ss' = (sview <$> pre) ++ (SEGMENT_ALLOCATED, start, sz) ::
                        right_cut start (size s) sz ++ (sview <$> post)) w.
Proof.
  intros Hn1 [x1 Hx1] Hn2 Hpool.
  pose proof D as [Dq Da Dqueue Dnd Dpre Dseg Dpost Dlists Dt Dg].
  pose proof (detached_seg_ok _ _ _ _ _ _ _ _ _ D) as (?&?&?&?&?).
  assert (¬ is_span s) as Hns by (unfold is_span; congruence).
  destruct (detached_pred _ _ _ _ _ _ _ _ _ D Hns) as (qpre' & pr & Epre & Hprev).
  assert (n1 ∉ qpre ++ seg :: qpost) as Hn1q by (clear -Hn1; set_solver).
  assert (seg ≠ n1) as Hsn by (clear -Hn1; set_solver).
  unfold xalloc_finish. repeat v_step. apply wp_assert_intro; [by apply bool_decide_eq_true|].
  v_step. unfold right_cut. destruct (decide (sz = size s)) as [Esz|Nsz].
  - (* all of [seg] *)
    eapply wp_split_whole; [done..|].
    destruct (whole_arena _ _ _ _ _ _ _ _ _ D n1 Ht (coalesced_alloc _ _ _)) as [Hok Hq].
    eapply wp_mono; [eapply finish_release|].
    + done.
    + exact Hok.
    + done.
    + done.
    + unfold whole_world.
      apply (pool_ok_put (w_segs (<[seg := _]> (segs w)) (w_arenas (<[p := _]> (arenas w)) w)) n1).
      * apply pool_ok_segs; [apply pool_ok_arenas|].
        { eapply pool_ok_used; [done|]. rewrite Hq. clear. set_solver. }
        { intros x Hx. v_simpl. apply lookup_insert_is_Some. destruct (decide (seg = x)); auto. }
      * rewrite Hq. unfold spare. destruct used2; [set_solver|].
        destruct Hn2 as (?&?&?); [done|]. set_solver.
      * v_simpl. apply lookup_insert_is_Some. right. eauto.
    + intros E. destruct (Hn2 E) as (?&?&?). split; [by rewrite Hq|].
      unfold whole_world. v_simpl. rewrite lookup_insert_ne; [set_solver|done].
    + unfold whole_world. v_simpl. apply lookup_insert_eq.
    + unfold sview. v_simpl. by rewrite Hst Esz.
    + rewrite Hq Dqueue. set_solver.
    + intros x Hx ?. unfold whole_world. v_simpl. rewrite lookup_insert_ne //.
      rewrite Dqueue in Hx. set_solver.
    + done.
    + intros r w' (-> & v' & Hp). split; [done|]. eexists v', _. split; [done|].
      rewrite !fmap_app /=. unfold sview at 2. v_simpl. by rewrite Hst Esz.
  - (* the front of [seg] *)
    pose proof (multiple_gap sz (size s) (quantum v)) as Hgap.
    eapply wp_split_right; [done|done|lia|lia|lia|apply Hgap; [lia|done|done|lia]|done|done|done|].
    assert (coalesced (pre ++ Seg SEGMENT_ALLOCATED (imported x1) (base s) sz ::
      Seg (type s) (imported s) (base s + sz) (size s - sz) :: post)) as Hco
      by (rewrite Ht; apply coalesced_alloc_free).
    destruct (right_arena _ _ _ _ _ _ _ _ _ D n1 x1 pr qpre' sz Ht) as [Hok Hq];
      [lia|done..|].
    eapply wp_mono; [eapply finish_release|].
    + done.
    + exact Hok.
    + done.
    + done.
    + unfold right_world. apply pool_ok_segs; [apply pool_ok_arenas|].
      * eapply pool_ok_used; [done|]. rewrite Hq. clear. set_solver.
      * intros x Hx. v_simpl. rewrite !lookup_insert_is_Some'. auto.
    + intros E. destruct (Hn2 E) as (?&?&?). rewrite Hq. split; [set_solver|].
      unfold right_world. v_simpl. rewrite !lookup_insert_is_Some'. auto.
    + unfold right_world. v_simpl. rewrite lookup_insert_ne //. apply lookup_insert_eq.
    + unfold sview. v_simpl. by rewrite Hst.
    + rewrite Hq Dqueue. set_solver.
    + intros x Hx ?. unfold right_world. v_simpl. rewrite Dqueue in Hx.
      rewrite !lookup_insert_ne //. set_solver.
    + done.
    + intros r w' (-> & v' & Hp). split; [done|]. eexists v', _. split; [done|].
      rewrite !fmap_app /=. unfold sview at 2 3. v_simpl. by rewrite Hst Ht.
Qed.
End finish.

(** ** The whole path after a segment was found *)
Lemma coalesced_around pre s post :
  coalesced (pre ++ s :: post) → type s = SEGMENT_FREE →
  coalesced pre ∧ coalesced post ∧ (∀ a, last pre = Some a → type a ≠ SEGMENT_FREE) ∧
  (∀ b, head post = Some b → type b ≠ SEGMENT_FREE).
Proof.
  intros (Hp & Hs & Hj)%coalesced_app Ht. simpl in Hs. destruct Hs as [Hs Hq].
  unfold both_free in *. split_and!; naive_solver.
Qed.
Lemma coalesced_snoc_free pre i b z :
  coalesced pre → (∀ a, last pre = Some a → type a ≠ SEGMENT_FREE) →
  coalesced (pre ++ [Seg SEGMENT_FREE i b z]).
Proof.
  intros Hp Hl. apply coalesced_app. split_and!; [done|by split|].
  intros a ? Ha _ [??]. by apply (Hl a).
Qed.

Lemma tags_length m q ss : tags m q ss → length q = length ss.
Proof. apply Forall2_length. Qed.

Lemma alloc_post_trans w w1 w' p v v1 v' ss' R sz X1 X2 :
  arenas w1 = <[p := v1]> (arenas w) → same_config v v1 → stat v1 = stat v →
  (list_to_set (segqueue v1) : gset nat) ⊆ list_to_set (segqueue v) ∪ X1 →
  (∀ x, x ∉ (list_to_set (segqueue v) : gset nat) → x ∉ X1 → segs w1 !! x = segs w !! x) →
  next_seg w1 = next_seg w ∧ pm_pages w1 = pm_pages w →
  alloc_post w1 w' p v1 v' ss' R sz X2 → alloc_post w w' p v v' ss' R sz (X1 ∪ X2).
Proof.
  intros Ha Hc Hst Hsub Hfr Hn []. split; try done.
  - by rewrite ap_arenas0 Ha insert_insert_eq.
  - destruct Hc as (?&?&?&?&?), ap_config0 as (?&?&?&?&?). split_and!; congruence.
  - rewrite ap_stat0. unfold stat_add. v_simpl. by rewrite Hst.
  - clear -ap_sub0 Hsub. set_solver.
  - intros x H1 H2. rewrite ap_frame0; [| |apply Hfr]; clear -Hsub H1 H2; set_solver.
  - destruct Hn as [<- <-]. done.
Qed.

Section found.
Context (w : vworld) (p : nat) (v : Vmem) (R : gset nat).
Context (qpre : list nat) (seg : nat) (qpost : list nat).
Context (pre : list VmemSegment) (s : VmemSegment) (post : list VmemSegment).
Context (n1 n2 : nat) (start sz : Z).
Context (Hv : arenas w !! p = Some v) (Hok : arena_ok (segs w) v (pre ++ s :: post)).
Context (Hqueue : segqueue v = qpre ++ seg :: qpost) (Hlen : length qpre = length pre).
Context (Ht : type s = SEGMENT_FREE) (Hlo : base s ≤ start) (Hhi : start + sz ≤ base s + size s).
Context (Hsz : 0 < sz) (Hstart : start mod quantum v = 0) (Hmod : sz mod quantum v = 0).
Context (Hn12 : n1 ≠ n2).
Context (Hn1 : n1 ∉ (list_to_set (segqueue v) ∪ R : gset nat)).
Context (Hn2 : n2 ∉ (list_to_set (segqueue v) ∪ R : gset nat)).
Context (Hx1 : is_Some (segs w !! n1)) (Hx2 : is_Some (segs w !! n2)).
Context (Hpool : pool_ok w ({[n1]} ∪ ({[n2]} ∪ (list_to_set (segqueue v) ∪ R)))).

Lemma found_spec :
  wp (xalloc_found p seg n1 n2 start sz) (λ r w', r = start ∧
    ∃ v' ss', alloc_post w w' p v v' ss' R sz {[n1; n2]} ∧
      sview <$> ss' = (sview <$> pre) ++ carve (base s) (size s) start sz ++ (sview <$> post)) w.
Proof.
  pose proof Hok as [Oq Otags Ond Olists Ot Oc].
  destruct (coalesced_around _ _ _ Oc Ht) as (Cpre & Cpost & Clast & Chead).
  assert (segs w !! seg = Some s) as Hs.
  { rewrite Hqueue in Otags. apply Forall2_app_inv in Otags as [_ Otags]; [|done].
    by apply Forall2_cons in Otags as [? _]. }
  unfold xalloc_found. v_step. v_step. apply wp_bind_intro, wp_assert_intro;
    [by apply bool_decide_eq_true|].
  apply wp_bind_intro, wp_assert_intro; [apply bool_decide_eq_true; lia|].
  apply wp_bind_intro. eapply wp_detach; [done|exact Hok|done|done|by destruct Hpool|].
  intros w0 v0 D Esegs Ev0 Ew0.
  assert (pool_ok w0 ({[n1]} ∪ ({[n2]} ∪ (list_to_set (segqueue v) ∪ R)))) as Hpool0.
  { rewrite Ew0. by apply pool_ok_arenas. }
  assert (same_config v v0 ∧ stat v0 = stat v ∧ segqueue v0 = segqueue v) as (Hc0 & Hst0 & Hq0)
    by (rewrite Ev0; done).
  assert (quantum v0 = quantum v) as EQ by apply Hc0.
  assert (arenas w0 = <[p := v0]> (arenas w)) as Ha0 by by rewrite Ew0.
  assert (next_seg w0 = next_seg w ∧ pm_pages w0 = pm_pages w) as Hnx0 by by rewrite Ew0.
  pose proof (detached_seg_ok _ _ _ _ _ _ _ _ _ D) as (Sb&Ss&Sm&Sq&Sqs). rewrite EQ in Sq Sqs.
  pose proof D as [Dq Da Dqueue Dnd Dpre Dseg Dpost Dlists Dt Dg].
  apply wp_bind_intro. unfold carve. rewrite Hqueue in Hpool0.
  pose proof Hn1 as Kn1. pose proof Hn2 as Kn2. rewrite Hqueue in Kn1 Kn2.
  destruct (decide (base s = start)) as [Eb|Nb].
  - eapply wp_split_left_none; [done..|].
    eapply wp_mono; [eapply (finish_spec w0 p v0 qpre seg qpost pre s post R n1 n2 start sz D);
      try done; [lia|by rewrite EQ|by rewrite Esegs|by rewrite Esegs]|].
    intros r w' (-> & v' & ss' & Hap & Hview). split; [done|]. exists v', ss'. split.
    + replace ({[n1; n2]} : gset nat) with (∅ ∪ ({[n1]} ∪ spare n2 false)) by (unfold spare; set_solver).
      eapply alloc_post_trans; [done|done|done|by rewrite Hq0; set_solver| |done|exact Hap].
      intros. by rewrite Esegs.
    + rewrite Hview. cbn [app]. do 2 f_equal. unfold right_cut.
      destruct (decide (sz = size s)), (decide (start + sz = base s + size s)); try lia; [done|].
      cbn [app]. do 2 f_equal; lia.
  - destruct Hx2 as [x2 Hx2'].
    assert (¬ is_span s) as Hns by (unfold is_span; congruence).
    destruct (detached_pred _ _ _ _ _ _ _ _ _ D Hns) as (qpre' & pr & Epre & Hprev).
    assert (n2 ∉ qpre ++ seg :: qpost) as Hn2q by (clear -Kn2; set_solver).
    assert (seg ≠ n2) as Hsn2 by (clear -Kn2; set_solver).
    pose proof (multiple_gap (base s) start (quantum v)) as Hgap.
    assert (base s + quantum v ≤ start) by (apply Hgap; [lia|done|done|lia]).
    eapply (wp_split_left w0 p v0 seg s Da Dseg); [lia|done|lia|done|by rewrite Esegs|done|].
    pose proof (left_detached _ _ _ _ _ _ _ _ _ D n2 x2 pr qpre' start Ht) as D1.
    specialize (D1 ltac:(lia) ltac:(by rewrite EQ) Hn2q Epre).
    set (w1 := left_world w0 p v0 seg s n2 pr x2 start) in *.
    set (v1 := set_segqueue _ _) in D1.
    assert (segqueue v1 = (qpre ++ [n2]) ++ seg :: qpost) as Hq1 by apply (d_queue _ _ _ _ _ _ _ _ _ D1).
    assert (∀ x, is_Some (segs w0 !! x) → is_Some (segs w1 !! x)) as Hsome.
    { intros x Hx. subst w1. unfold left_world. v_simpl. rewrite !lookup_insert_is_Some'. auto. }
    eapply wp_mono; [eapply (finish_spec w1 p v1 _ seg qpost _ _ post R n1 n2 start sz D1);
      try done; v_simpl; [lia|by rewrite EQ|by apply coalesced_snoc_free|..]|].
    + clear -Kn1 Hn12. set_solver.
    + apply Hsome. by rewrite Esegs.
    + unfold spare. subst w1. apply pool_ok_segs; [apply pool_ok_arenas|done].
      eapply pool_ok_used; [exact Hpool0|]. clear. set_solver.
    + intros r w' (-> & v' & ss' & Hap & Hview). split; [done|]. exists v', ss'. split.
      * replace ({[n1; n2]} : gset nat) with ({[n2]} ∪ ({[n1]} ∪ spare n2 true))
          by (unfold spare; clear; set_solver).
        eapply (alloc_post_trans w w1); [| | | | | |exact Hap].
        { subst w1. unfold left_world. v_simpl. by rewrite Ha0 insert_insert_eq. }
        { done. }
        { done. }
        { rewrite Hq1 Hqueue. clear. set_solver. }
        { intros x Hx1' Hx2''. subst w1. unfold left_world. v_simpl. rewrite Esegs.
          rewrite !lookup_insert_ne //; clear -Hx1' Hx2'' Hqueue; rewrite ?Hqueue in Hx1'; set_solver. }
        { done. }
      * rewrite Hview fmap_app -!app_assoc. cbn [app fmap list_fmap]. do 3 f_equal. unfold right_cut.
        v_simpl. destruct (decide (sz = _)), (decide (start + sz = base s + size s)); try lia; [done|].
        cbn [app]. do 2 f_equal; lia.
Qed.
End found.

(** ** Finding a segment *)
Section fit.
Context (sz align phase minaddr maxaddr : Z).
Context (Hsz : 0 < sz) (Hal : pow2 align) (Hph : 0 ≤ phase < align).
Context (Hmin : 0 ≤ minaddr) (Hmax : maxaddr < 2 ^ 64).

(** [a] is an address at which segment [s] can satisfy the request. *)
Definition fits (s : VmemSegment) (a : Z) : Prop :=
  base s ≤ a ∧ minaddr ≤ a ∧ a + sz ≤ base s + size s ∧ a + sz ≤ maxaddr ∧
  a mod align = phase.
(** No address computation about [s] wraps. *)
Definition no_wrap (s : VmemSegment) : Prop :=
  0 ≤ base s ∧ 0 < size s ∧ base s + size s + align ≤ 2 ^ 64.

Lemma aligned_start x : - align < x → x + align ≤ 2 ^ 64 →
  VMEM_ALIGNUP (wrap64 x) align = align_up x align.
Proof.
  intros H1 H2. pose proof (pow2_pos align Hal). unfold VMEM_ALIGNUP, align_up.
  f_equal. unfold wrap64. rewrite -Z.add_sub_assoc Zplus_mod_idemp_l Z.add_sub_assoc.
  apply Z.mod_small. lia.
Qed.

Lemma seg_fit_spec s (w : vworld) :
  no_wrap s → sz ≤ size s →
  wp (seg_fit s sz align phase 0 minaddr maxaddr)
    (λ r w', w' = w ∧ match r with
                      | Some a => fits s a ∧ ∀ a', fits s a' → a ≤ a'
                      | None => ∀ a, ¬ fits s a
                      end) w.
Proof.
  intros (Hb & Hz & Hw) Hle. pose proof (pow2_pos align Hal). unfold seg_fit.
  apply wp_bind_intro, wp_assert_intro; [apply bool_decide_eq_true; lia|].
  apply wp_bind_intro, wp_assert_intro; [apply bool_decide_eq_true; lia|].
  rewrite wrap64_small; [lia|].
  set (S := Z.max _ _). set (E := Z.min _ _). unfold fits.
  case_decide as HSE; [apply wp_ret; split; [done|]; lia|].
  destruct (align_up_spec (S - phase) align Hal) as [Hm Hr].
  rewrite aligned_start; [lia..|].
  assert ((align_up (S - phase) align + phase) mod align = phase) as Hmod.
  { by rewrite Zplus_mod Hm Z.add_0_l Zmod_mod Z.mod_small. }
  set (A := align_up (S - phase) align + phase) in *.
  assert (S ≤ A < S + align) by (unfold A; lia).
  assert (base s ≤ S ∧ minaddr ≤ S ∧ (S = base s ∨ S = minaddr)) by lia.
  assert (E ≤ base s + size s ∧ E ≤ maxaddr ∧ (E = base s + size s ∨ E = maxaddr)) by lia.
  rewrite (wrap64_small A); [lia|]. rewrite (decide_False (P := A < base s)); [lia|].
  assert (∀ a', S ≤ a' → a' mod align = phase → A ≤ a') as Hleast.
  { intros a' Ha' Hm'. destruct (decide (A ≤ a')) as [|Hlt]; [done|].
    enough (A = a') by lia. assert (A - phase = a' - phase); [|lia].
    apply (multiples_close _ _ align); [lia|unfold A; by rewrite Z.add_simpl_r| |lia].
    by rewrite Zminus_mod Hm' (Z.mod_small phase) // Z.sub_diag Z.mod_0_l; lia. }
  apply wp_bind_intro, wp_assert_intro; [done|].
  case_decide as Hfit; apply wp_ret; (split; [done|]).
  - split; [lia|]. intros a' (?&?&?&?&?). apply Hleast; [lia|done].
  - intros a (?&?&?&?&?). apply Hfit. pose proof (Hleast a). lia.
Qed.

Lemma bestfit_list_spec (w : vworld) l :
  (∀ x, x ∈ l → ∃ s, segs w !! x = Some s ∧ no_wrap s) →
  wp (bestfit_list l sz align phase 0 minaddr maxaddr)
    (λ r w', w' = w ∧ match r with
                      | Some (x, a) => x ∈ l ∧ ∃ s, segs w !! x = Some s ∧ fits s a
                      | None => ∀ x s a, x ∈ l → segs w !! x = Some s → ¬ fits s a
                      end) w.
Proof.
  induction l as [|x l IH]; intros Hl; cbn [bestfit_list].
  - apply wp_ret. split; [done|]. set_solver.
  - destruct (Hl x) as (s & Hs & Hw); [left|]. v_step. v_step.
    assert ((∀ a, ¬ fits s a) →
      wp (bestfit_list l sz align phase 0 minaddr maxaddr)
        (λ r w', w' = w ∧ match r with
                          | Some (y, a) => y ∈ x :: l ∧ ∃ s, segs w !! y = Some s ∧ fits s a
                          | None => ∀ y s a, y ∈ x :: l → segs w !! y = Some s → ¬ fits s a
                          end) w) as Hskip.
    { intros Hno. eapply wp_mono; [apply IH; intros; apply Hl; by right|].
      intros [[y a]|] w' [-> Hr]; (split; [done|]); [destruct Hr; split; [by right|done]|].
      intros y s' a [->|Hy]%elem_of_cons; [|by apply Hr]. intros; simplify_eq; auto. }
    case_decide as Hge.
    + apply wp_bind_intro. eapply wp_mono; [apply seg_fit_spec; [done|lia]|].
      intros [a|] w' [-> Hr]; [|by apply Hskip]. apply wp_ret. split; [done|].
      split; [left|]. exists s. tauto.
    + apply Hskip. unfold fits. lia.
Qed.

Lemma bestfit_spec (w : vworld) ls :
  (∀ l x, l ∈ ls → x ∈ l → ∃ s, segs w !! x = Some s ∧ no_wrap s) →
  wp (bestfit ls sz align phase 0 minaddr maxaddr)
    (λ r w', w' = w ∧ match r with
       | Some (x, a) => (∃ l, l ∈ ls ∧ x ∈ l) ∧ ∃ s, segs w !! x = Some s ∧ fits s a
       | None => ∀ l x s a, l ∈ ls → x ∈ l → segs w !! x = Some s → ¬ fits s a
       end) w.
Proof.
  induction ls as [|l ls IH]; intros Hl; cbn [bestfit].
  - apply wp_ret. split; [done|]. set_solver.
  - apply wp_bind_intro. eapply wp_mono;
      [apply bestfit_list_spec; intros; eapply Hl; [left|done]|].
    intros [[x a]|] w' [-> Hr].
    + apply wp_ret. split; [done|]. destruct Hr. split; [exists l; split; [left|done]|done].
    + eapply wp_mono; [apply IH; intros; eapply Hl; [by right|done]|].
      intros [[x a]|] w' [-> Hr']; (split; [done|]).
      * destruct Hr' as [(l' & ? & ?) ?]. split; [exists l'; split; [by right|done]|done].
      * intros l' x s a [->|?]%elem_of_cons; [apply Hr|by apply Hr'].
Qed.
End fit.

(** Every free segment large enough for [sz] is on a list the search visits. *)
Lemma fl_index_mono a b : 2 ≤ a → a ≤ b → (fl_index a ≤ fl_index b)%nat.
Proof. intros Ha Hb. unfold fl_index. pose proof (Z.log2_le_mono a b). lia. Qed.

Lemma free_on_list m v ss s x :
  arena_ok m v ss → x ∈ segqueue v → m !! x = Some s → type s = SEGMENT_FREE →
  ∃ l, freelist v !! fl_index (size s) = Some l ∧ x ∈ l.
Proof.
  intros [[Qp Qr] Otags Ond [[Hlen Hfl] _] Ot Oc] Hx Hs Ht.
  destruct (tags_elem _ _ _ _ Otags Hx) as (s' & ? & Hin). simplify_eq.
  destruct (tiled_seg_ok _ _ _ Ot Hin) as (?&?&?&?&Hm).
  assert (0 + quantum v ≤ size s) by (apply multiple_gap; [lia|apply Z.mod_0_l; lia|done|lia]).
  destruct (lookup_lt_is_Some_2 (freelist v) (fl_index (size s))) as [l Hl].
  { rewrite Hlen. apply fl_index_lt. split; lia. }
  exists l. split; [done|]. apply (Hfl _ _ Hl). split; [by apply elem_of_list_to_set|].
  exists s. split; [done|]. unfold free_bucket. by rewrite decide_True.
Qed.
Lemma on_list_free m v ss l x i :
  arena_ok m v ss → freelist v !! i = Some l → x ∈ l →
  ∃ s, m !! x = Some s ∧ x ∈ segqueue v ∧ s ∈ ss ∧ type s = SEGMENT_FREE.
Proof.
  intros [_ Otags _ [[Hlen Hfl] _] _ _] Hl Hx.
  apply (Hfl _ _ Hl) in Hx as [Hx (s & Hs & Hf)].
  apply elem_of_list_to_set in Hx. destruct (tags_elem _ _ _ _ Otags Hx) as (s' & ? & Hin).
  simplify_eq. exists s. split_and!; try done.
  unfold free_bucket in Hf. by case_decide.
Qed.

Definition eff_flag (flag : Z) : Z := Z.lor (Z.land flag (Z.lnot VM_INSTANTFIT)) VM_BESTFIT.
Lemma eff_flag_bestfit flag :
  has_flag (eff_flag flag) VM_INSTANTFIT = false ∧ has_flag (eff_flag flag) VM_BESTFIT = true.
Proof.
  unfold has_flag, eff_flag. split.
  - rewrite bool_decide_true //. apply Z.bits_inj'. intros n Hn.
    rewrite Z.land_spec Z.lor_spec Z.land_spec Z.lnot_spec // Z.bits_0.
    destruct (decide (n = 1)) as [->|?]; [by rewrite andb_false_r|].
    assert (Z.testbit VM_INSTANTFIT n = false) as ->; [|by rewrite andb_false_r].
    change VM_INSTANTFIT with (2 ^ 1). apply Z.pow2_bits_false. lia.
  - rewrite bool_decide_false //. intros H.
    assert (Z.testbit (Z.land (Z.lor (Z.land flag (Z.lnot VM_INSTANTFIT)) VM_BESTFIT) VM_BESTFIT) 0
            = false) as E by by rewrite H.
    by rewrite Z.land_spec Z.lor_spec orb_true_r in E.
Qed.

Section search.
Context (ca : nat → option nat → Z → Z → M vworld Z).
Context (w : vworld) (p : nat) (v : Vmem) (ss : list VmemSegment).
Context (Hv : arenas w !! p = Some v) (Hok : arena_ok (segs w) v ss).
Context (sz align phase minaddr maxaddr flag : Z).
Context (Hsz : 2 ≤ sz) (Hal : pow2 align) (Hph : 0 ≤ phase < align).
Context (Hmin : 0 ≤ minaddr) (Hmax : maxaddr < 2 ^ 64).
Context (Hnw : ∀ s, s ∈ ss → type s = SEGMENT_FREE → no_wrap align s).

Lemma bestfit_arena :
  wp (bestfit (drop (fl_index sz) (freelist v)) sz align phase 0 minaddr maxaddr)
    (λ r w', w' = w ∧ match r with
       | Some (x, a) => ∃ s, x ∈ segqueue v ∧ segs w !! x = Some s ∧ s ∈ ss ∧
                             type s = SEGMENT_FREE ∧ fits sz align phase minaddr maxaddr s a
       | None => ∀ s a, s ∈ ss → type s = SEGMENT_FREE →
                        ¬ fits sz align phase minaddr maxaddr s a
       end) w.
Proof.
  eapply wp_mono; [apply bestfit_spec; try done; [lia|]|].
  - intros l x (i & Hl)%list_elem_of_lookup Hx. rewrite lookup_drop in Hl.
    destruct (on_list_free _ _ _ _ _ _ Hok Hl Hx) as (s & ? & ? & ? & ?). eauto.
  - intros [[x a]|] w' [-> Hr]; (split; [done|]).
    + destruct Hr as [(l & (i & Hl)%list_elem_of_lookup & Hx) (s & Hs & Hfit)].
      rewrite lookup_drop in Hl.
      destruct (on_list_free _ _ _ _ _ _ Hok Hl Hx) as (s' & ? & ? & ? & ?). simplify_eq. eauto 10.
    + intros s a Hs Ht Hfit. pose proof Hok as [_ Otags _ _ _ _].
      apply list_elem_of_lookup in Hs as [i Hi].
      destruct (Forall2_lookup_r _ _ _ _ _ Otags Hi) as (x & Hx & Hsx).
      apply list_elem_of_lookup_2 in Hx.
      destruct (free_on_list _ _ _ _ _ Hok Hx Hsx Ht) as (l & Hl & Hxl).
      eapply (Hr l x s a); [|done..|done]. apply list_elem_of_lookup.
      exists (fl_index (size s) - fl_index sz)%nat. rewrite lookup_drop.
      replace (fl_index sz + (fl_index (size s) - fl_index sz))%nat with (fl_index (size s)); [done|].
      pose proof (fl_index_mono sz (size s)). unfold fits in Hfit. lia.
Qed.

Lemma fit_decided :
  (∃ s a, s ∈ ss ∧ type s = SEGMENT_FREE ∧ fits sz align phase minaddr maxaddr s a) ∨
  (∀ s a, s ∈ ss → type s = SEGMENT_FREE → ¬ fits sz align phase minaddr maxaddr s a).
Proof.
  pose proof bestfit_arena as ([[x a]|] & w' & _ & _ & Hr)%wp_ok; [left|by right].
  destruct Hr as (s & _ & _ & ? & ? & ?). eauto.
Qed.

Lemma search_spec fuel :
  (0 < fuel)%nat →
  (∃ s a, s ∈ ss ∧ type s = SEGMENT_FREE ∧ fits sz align phase minaddr maxaddr s a) →
  wp (xalloc_search ca fuel p (fl_index sz) sz align phase 0 minaddr maxaddr (eff_flag flag))
    (λ r w', w' = w ∧ ∃ s, r.1 ∈ segqueue v ∧ segs w !! r.1 = Some s ∧ s ∈ ss ∧
       type s = SEGMENT_FREE ∧ fits sz align phase minaddr maxaddr s r.2) w.
Proof.
  intros Hf (s & a & Hs & Ht & Hfit). destruct fuel as [|fuel]; [lia|]. cbn [xalloc_search].
  destruct (eff_flag_bestfit flag) as [-> ->]. v_step. v_step.
  apply wp_bind_intro. eapply wp_mono; [apply bestfit_arena|].
  intros [[x b]|] w' [-> Hr]; [|by destruct (Hr s a)].
  apply wp_ret. split; [done|]. done.
Qed.

Lemma search_fails fuel :
  v_alloc v = None →
  (∀ s a, s ∈ ss → type s = SEGMENT_FREE → ¬ fits sz align phase minaddr maxaddr s a) →
  xalloc_search ca (S fuel) p (fl_index sz) sz align phase 0 minaddr maxaddr (eff_flag flag) w
  = Panic (AssertFail "Allocation failed").
Proof.
  intros Hna Hno. cbn [xalloc_search]. destruct (eff_flag_bestfit flag) as [-> ->].
  pose proof bestfit_arena as Hb. apply wp_ok in Hb as (r & w' & Hb & -> & Hr).
  assert (r = None) as ->.
  { destruct r as [[x b]|]; [|done]. destruct Hr as (s & ? & ? & ? & ? & ?). by destruct (Hno s b). }
  unfold mbind, M_bind, ld_arena. unfold mbind, M_bind, get, deref. rewrite Hv.
  cbn [mret M_ret]. rewrite Hb. unfold vmem_import, ld_arena. unfold mbind, M_bind, get, deref.
  rewrite Hv. cbn [mret M_ret]. rewrite Hna. done.
Qed.
End search.

(** ** Refilling the pool *)
Lemma seg_free_all l used w :
  pool_ok w (list_to_set l ∪ used) → NoDup l → (∀ x, x ∈ l → x ∉ used) →
  (∀ x, x ∈ l → is_Some (segs w !! x)) →
  wp (forM l seg_free) (λ _ w', pool_ok w' used ∧
    length (free_segs w') = (length l + length (free_segs w))%nat ∧
    w' = w_pool (free_segs w') (nfreesegs w') w) w.
Proof.
  revert w. induction l as [|x l IH]; intros w Hp Hd Hu Hs; cbn [forM].
  - apply wp_ret. split_and!; [|done|by destruct w]. eapply pool_ok_used; [done|]. set_solver.
  - apply NoDup_cons in Hd as [Hx Hd]. apply wp_bind_intro, wp_seg_free; [by destruct Hp|].
    set (w1 := w_pool _ _ w). assert (pool_ok w1 (list_to_set l ∪ used)) as Hp1.
    { apply pool_ok_put; [|set_solver|apply Hs; left].
      eapply pool_ok_used; [done|]. clear. set_solver. }
    eapply wp_mono; [apply IH; [done|done|set_solver|intros; apply Hs; by right]|].
    intros [] w' (H1 & H2 & H3). split_and!; [done| |].
    + rewrite H2. unfold w1. v_simpl. simpl. lia.
    + rewrite H3. by unfold w1.
Qed.

Record refilled (w w' : vworld) (used : gset nat) : Prop := {
  rf_pool : pool_ok w' used;
  rf_two : (2 ≤ length (free_segs w'))%nat;
  rf_used : ∀ x, x ∈ used → segs w' !! x = segs w !! x;
  rf_arenas : arenas w' = arenas w;
  rf_pages : (pm_pages w ≤ pm_pages w' + 1)%nat;
}.

Definition tags_available (w : vworld) : Prop :=
  (128 ≤ length (free_segs w))%nat ∨ (1 ≤ pm_pages w)%nat.

Lemma lookup_block (block : list nat) (m : gmap nat VmemSegment) x :
  (list_to_map ((λ s, (s, seg_garbage)) <$> block) ∪ m) !! x =
  if decide (x ∈ block) then Some seg_garbage else m !! x.
Proof.
  induction block as [|y block IH]; cbn [fmap list_fmap list_to_map foldr].
  - by rewrite left_id_L.
  - rewrite -insert_union_l /=. destruct (decide (y = x)) as [->|Hne].
    + rewrite lookup_insert_eq decide_True //. left.
    + rewrite lookup_insert_ne // IH. repeat case_decide; set_solver.
Qed.

Lemma repopulate_spec w used :
  pool_ok w used → tags_available w →
  wp repopulate_segments (λ r w', r = 0 ∧ refilled w w' used) w.
Proof.
  intros Hp Hav. pose proof Hp as [Pl Pc Pd Pt Pu]. unfold repopulate_segments.
  apply wp_bind_intro, wp_get. case_decide as H128.
  { apply wp_ret. split; [done|]. split; [done| |done..|]; lia. }
  unfold vmem_alloc_pages. destruct Hav as [?|Hpm]; [lia|].
  apply wp_bind_intro, wp_bind_intro, wp_get. destruct (pm_pages w) as [|n] eqn:En; [lia|].
  apply wp_bind_intro, wp_put, wp_ret, wp_bind_intro.
  set (w1 := w_segs _ _). assert (∀ x, x ∈ seq (next_seg w) 64 ↔ (next_seg w ≤ x < next_seg w + 64)%nat)
    as Hblock by (intros x; rewrite elem_of_seq; lia).
  assert (pool_ok w1 (list_to_set (seq (next_seg w) 64) ∪ used)) as Hp1.
  { split; try done.
    - intros x Hx. destruct (Pt x Hx) as (?&?&?). unfold w1. v_simpl. rewrite lookup_block.
      split_and!; [by case_decide; eauto| |lia].
      rewrite elem_of_union elem_of_list_to_set Hblock. intros [?|?]; [lia|done].
    - intros x. unfold w1. v_simpl. rewrite elem_of_union elem_of_list_to_set Hblock.
      intros [?|?%Pu]; lia. }
  eapply wp_mono; [apply (seg_free_all _ used); [done|apply NoDup_seq| |]|].
  - intros x Hx ?%Pu. apply Hblock in Hx. lia.
  - intros x Hx. unfold w1. v_simpl. rewrite lookup_block decide_True; eauto.
  - intros [] w' (H1 & H2 & H3). apply wp_ret. split; [done|]. split; [done| | | |].
    + rewrite length_seq in H2. lia.
    + intros x Hx%Pu. rewrite H3. unfold w1. v_simpl. rewrite lookup_block decide_False //.
      rewrite Hblock. lia.
    + by rewrite H3.
    + rewrite H3 En. unfold w1. v_simpl. lia.
Qed.

(** ** [vmem_xalloc] *)
Record arena_at (w : vworld) (p : nat) (v : Vmem) (ss : list VmemSegment) (R : gset nat) : Prop := {
  at_arena : arenas w !! p = Some v;
  at_unlocked : lock v = false;
  at_ok : arena_ok (segs w) v ss;
  at_pool : pool_ok w (list_to_set (segqueue v) ∪ R);
  at_disj : ∀ x, x ∈ R → x ∉ segqueue v;
}.

(** A request that is a multiple of the quantum, with a power-of-two alignment. *)
Record request_ok (v : Vmem) (sz align phase minaddr maxaddr : Z) : Prop := {
  rq_size : 0 < sz ∧ sz mod quantum v = 0;
  rq_align : pow2 align ∧ align mod quantum v = 0;
  rq_phase : 0 ≤ phase < align ∧ phase mod quantum v = 0;
  rq_range : 0 ≤ minaddr ∧ maxaddr < 2 ^ 64;
}.

Definition eff_align (v : Vmem) (align : Z) : Z := if decide (align = 0) then quantum v else align.
Lemma eff_align_0 v : eff_align v 0 = quantum v.
Proof. done. Qed.

Definition pool_ready (w : vworld) (flag : Z) : Prop :=
  if has_flag (eff_flag flag) VM_BOOTSTRAP then (2 ≤ length (free_segs w))%nat
  else tags_available w.

Lemma aligned_quantum a align phase q :
  0 < q → align mod q = 0 → phase mod q = 0 → a mod align = phase → a mod q = 0.
Proof.
  intros Hq Ha Hp Hm. rewrite (Z_div_mod_eq_full a align) Hm.
  apply mod0_add; [|done]. by rewrite Z.mul_comm Zmult_mod Ha Z.mul_0_r Z.mod_0_l; [lia|].
Qed.

Lemma wp_arena_lock p v (Q : unit → vworld → Prop) w :
  arenas w !! p = Some v → lock v = false →
  Q tt (w_arenas (<[p := set_lock true v]> (arenas w)) w) → wp (arena_lock p) Q w.
Proof. intros Hv Hl HQ. unfold arena_lock. v_step. v_step. rewrite Hl. by v_step. Qed.

Lemma arena_at_lock w p v ss R b :
  arenas w !! p = Some v → arena_ok (segs w) v ss → pool_ok w (list_to_set (segqueue v) ∪ R) →
  let w' := w_arenas (<[p := set_lock b v]> (arenas w)) w in
  arenas w' !! p = Some (set_lock b v) ∧ arena_ok (segs w') (set_lock b v) ss ∧
  pool_ok w' (list_to_set (segqueue (set_lock b v)) ∪ R).
Proof.
  intros Hv Hok Hp. simpl. split_and!; [apply lookup_insert_eq|by eapply arena_ok_ext|].
  by apply pool_ok_arenas.
Qed.

(** Taking the two spare tags, after the refill the flags ask for. *)
Definition refill (flag : Z) : M vworld unit :=
  whenM (negb (has_flag (eff_flag flag) VM_BOOTSTRAP))
    (r ← repopulate_segments; assertM (bool_decide (r = 0)) "repopulate_segments() == 0").
Definition take_two {A} (flag : Z) (k : nat → nat → M vworld A) : M vworld A :=
  refill flag;;
  new_seg ← seg_alloc; new_seg2 ← seg_alloc; k new_seg new_seg2.

Lemma take_two_run w flag used :
  pool_ok w used → pool_ready w flag →
  ∃ w' n1 n2, (∀ A (k : nat → nat → M vworld A), take_two flag k w = k n1 n2 w') ∧
    pool_ok w' ({[n1]} ∪ ({[n2]} ∪ used)) ∧ n1 ≠ n2 ∧ n1 ∉ used ∧ n2 ∉ used ∧
    is_Some (segs w' !! n1) ∧ is_Some (segs w' !! n2) ∧
    arenas w' = arenas w ∧ (∀ x, x ∈ used → segs w' !! x = segs w !! x) ∧ (pm_pages w ≤ pm_pages w' + 1)%nat.
Proof.
  intros Hp Hrdy.
  assert (wp (refill flag) (λ _ w', refilled w w' used) w) as Hrefill.
  { unfold refill, pool_ready in *. destruct (has_flag _ _); simpl.
    - apply wp_ret. split; [done..|lia].
    - apply wp_bind_intro. eapply wp_mono; [by apply repopulate_spec|].
      intros r w' [-> Hr]. by apply wp_assert_intro. }
  apply wp_ok in Hrefill as ([] & w' & E & [Rp Rt Ru Ra Rpg]).
  destruct (free_segs w') as [|n1 [|n2 rest]] eqn:Ef; simpl in Rt; [lia..|].
  destruct (pool_ok_take _ _ _ _ Rp Ef) as (P1 & Hn1 & Hs1).
  destruct (pool_ok_take _ n2 rest _ P1 eq_refl) as (P2 & Hn2 & Hs2).
  eexists _, n1, n2. split.
  { intros A k. unfold take_two. rewrite (bind_ok _ _ _ _ _ E).
    eapply bind_wp; [eapply (wp_seg_alloc n1 _ (λ n x, n = n1 ∧ x = w_pool (n2 :: rest) (nfreesegs w' - 1) w'));
      [by destruct Rp|done|done]|]. intros ? ? [-> ->].
    eapply bind_wp; [eapply (wp_seg_alloc n2 rest (λ n x, n = n2 ∧ x = w_pool rest _ _));
      [by destruct P1|done|done]|]. intros ? ? [-> ->]. reflexivity. }
  assert (n1 ≠ n2) by (clear -Hn2; set_solver).
  split_and!; try done; [|clear -Hn2; set_solver].
  eapply pool_ok_used; [exact P2|]. clear. set_solver.
Qed.

Lemma tags_ext m m' q ss :
  (∀ x, x ∈ q → m' !! x = m !! x) → tags m q ss → tags m' q ss.
Proof.
  intros He H. unfold tags in *. induction H as [|i s q ss Hi H IH]; constructor.
  - rewrite He //. left.
  - apply IH. intros x Hx. apply He. by right.
Qed.
Lemma bucketed_map n f tbl m m' L :
  (∀ x, x ∈ L → m' !! x = m !! x) → bucketed n f tbl m L → bucketed n f tbl m' L.
Proof.
  intros He [Hn H]. split; [done|]. intros i l Hl. destruct (H i l Hl) as [Hd Hin].
  split; [done|]. intros id. rewrite Hin. split; intros [? Hs]; (split; [done|]);
    by rewrite ?He // -?He in Hs |- *.
Qed.
Lemma arena_ok_map m m' v ss :
  (∀ x, x ∈ segqueue v → m' !! x = m !! x) → arena_ok m v ss → arena_ok m' v ss.
Proof.
  intros He [Oq Ot On [Ol1 Ol2] Oti Oc]. split; try done; [by eapply tags_ext|].
  split; (eapply bucketed_map; [|done]); intros x ?%elem_of_list_to_set; auto.
Qed.

Theorem vmem_xalloc_spec ca fuel w p v ss R sz align phase minaddr maxaddr flag :
  arena_at w p v ss R → pool_ready w flag → (0 < fuel)%nat →
  request_ok v sz (eff_align v align) phase minaddr maxaddr →
  (∀ s, s ∈ ss → type s = SEGMENT_FREE → no_wrap (eff_align v align) s) →
  (∃ s a, s ∈ ss ∧ type s = SEGMENT_FREE ∧
          fits sz (eff_align v align) phase minaddr maxaddr s a) →
  wp (vmem_xalloc ca fuel p sz align phase 0 minaddr maxaddr flag)
    (λ r w', ∃ pre s post v' ss',
       ss = pre ++ s :: post ∧ type s = SEGMENT_FREE ∧
       fits sz (eff_align v align) phase minaddr maxaddr s r ∧
       sview <$> ss' = (sview <$> pre) ++ carve (base s) (size s) r sz ++ (sview <$> post) ∧
       arena_at w' p v' ss' R ∧ same_config v v' ∧
       stat v' = stat (stat_add (- sz) 0 sz v) ∧ frame p R w w' ∧ (pm_pages w ≤ pm_pages w' + 1)%nat) w.
Proof.
  intros [Av Al Ao Ap Ad] Hrdy Hfuel [[Rs Rsq] [Ra Raq] [Rp Rpq] [Rmin Rmax]] Hnw Hfit.
  pose proof Ao as [[Qp Qr] _ _ _ _ _]. unfold vmem_xalloc.
  apply wp_bind_intro. eapply wp_arena_lock; [done..|].
  destruct (arena_at_lock _ _ _ _ _ true Av Ao Ap) as (Lv & Lo & Lp).
  set (w0 := w_arenas _ w) in *. set (v0 := set_lock true v) in *.
  assert (2 ≤ sz < 2 ^ 64) as Hsz.
  { assert (0 + quantum v ≤ sz) by (apply multiple_gap; [lia|apply Z.mod_0_l; lia|done|lia]).
    destruct Hfit as (s & a & Hs & Ht & (?&?&?&?&?)).
    destruct (Hnw s Hs Ht) as (?&?&?). lia. }
  apply wp_bind_intro, wp_freelist_for_size; [done|].
  apply wp_bind_intro, wp_assert_intro; [done|]. v_step. eapply wp_ld_arena; [exact Lv|].
  change (if decide (align = 0) then quantum v0 else align) with (eff_align v align).
  apply wp_bind_intro, wp_assert_intro; [by apply bool_decide_eq_true|].
  fold (eff_flag flag).
  destruct (take_two_run w0 flag (list_to_set (segqueue v0) ∪ R)) as
    (w1 & n1 & n2 & Erun & Hpool1 & Hn12 & Hn1 & Hn2 & Hs1 & Hs2 & Ea1 & Eu1 & Hpg); [done|done|].
  eapply wp_run_eq; [exact (Erun _ _)|].
  assert (arena_ok (segs w1) v0 ss) as Ho1.
  { eapply arena_ok_map; [|exact Lo]. intros x Hx. apply Eu1.
    apply elem_of_union_l, elem_of_list_to_set, Hx. }
  assert (arenas w1 !! p = Some v0) as Hv1 by by rewrite Ea1.
  apply wp_bind_intro. eapply wp_mono; [eapply (search_spec ca w1 p v0 ss); try done; lia|].
  intros [seg start] w1' (-> & s & Hq & Hs & Hin & Ht & Hf). cbn [fst snd] in *.
  pose proof Ho1 as [_ Otags Ond _ _ _].
  apply list_elem_of_split in Hq as (qpre & qpost & Eq). rewrite Eq in Otags Ond.
  apply Forall2_app_inv_l in Otags as (pre & rest & Tpre & Trest & Ess).
  apply Forall2_cons_inv_l in Trest as (s' & post & Hs' & Tpost & ->). simplify_eq.
  apply wp_bind_intro. pose proof Hf as (F1&F2&F3&F4&F5).
  eapply wp_mono; [eapply (found_spec w1 p v0 R qpre seg qpost pre s post n1 n2 start sz);
    try done; [by eapply tags_length|]|].
  { apply (aligned_quantum start (eff_align v align) phase); [cbn; lia|done..]. }
  intros r w2 (-> & v2 & ss2 & [Pa Pok Pc Pst Ppool Psub Pfr Pn] & Hview).
  assert (arenas w2 !! p = Some v2) as Hv2 by (rewrite Pa; apply lookup_insert_eq).
  unfold arena_unlock. v_step. eapply wp_upd_arena; [done|]. apply wp_ret.
  destruct (arena_at_lock _ _ _ _ _ false Hv2 Pok Ppool) as (Lv2 & Lo2 & Lp2).
  exists pre, s, post, (set_lock false v2), ss2. split_and!; try done.
  - split; [done..|]. intros x Hx Hxq. v_simpl. cbn in Hxq.
    apply (Ad x Hx). apply (elem_of_list_to_set (C := gset nat)) in Hxq. apply Psub in Hxq.
    rewrite elem_of_union elem_of_list_to_set in Hxq. cbn in Hn1, Hn2. set_solver.
  - destruct Pc as (?&?&?&?&?). split_and!; v_simpl; try done.
  - split.
    + intros x Hx. v_simpl. rewrite Pfr; [|cbn in Hn1, Hn2; set_solver|].
      * rewrite elem_of_list_to_set. by apply Ad.
      * rewrite Eu1; [set_solver|done].
    + intros p' Hp'. v_simpl. rewrite lookup_insert_ne // Pa lookup_insert_ne // Ea1.
      unfold w0. v_simpl. by rewrite lookup_insert_ne.
  - v_simpl. destruct Pn as [_ ->]. done.
Qed.

(** ** When nothing fits *)
Lemma xalloc_exhausted ca fuel w p v ss R sz align phase minaddr maxaddr flag :
  arena_at w p v ss R → pool_ready w flag → v_alloc v = None →
  request_ok v sz (eff_align v align) phase minaddr maxaddr → sz < 2 ^ 64 →
  (∀ s, s ∈ ss → type s = SEGMENT_FREE → no_wrap (eff_align v align) s) →
  (∀ s a, s ∈ ss → type s = SEGMENT_FREE →
          ¬ fits sz (eff_align v align) phase minaddr maxaddr s a) →
  vmem_xalloc ca (S fuel) p sz align phase 0 minaddr maxaddr flag w
  = Panic (AssertFail "Allocation failed").
Proof.
  intros [Av Al Ao Ap Ad] Hrdy Hna [[Rs Rsq] [Ra Raq] [Rp Rpq] [Rmin Rmax]] Hlt Hnw Hno.
  pose proof Ao as [[Qp Qr] _ _ _ _ _]. unfold vmem_xalloc.
  eapply bind_wp; [eapply wp_arena_lock; [done..|]; exact (eq_refl : (λ _ x, x = _) tt _)|].
  intros _ ? ->. destruct (arena_at_lock _ _ _ _ _ true Av Ao Ap) as (Lv & Lo & Lp).
  set (w0 := w_arenas _ w) in *. set (v0 := set_lock true v) in *.
  assert (0 + quantum v ≤ sz) by (apply multiple_gap; [lia|apply Z.mod_0_l; lia|done|lia]).
  eapply bind_wp; [apply (wp_freelist_for_size sz (λ i x, i = fl_index sz ∧ x = w0)); [split; lia|done]|].
  intros ? ? [-> ->]. rewrite (bind_ok _ _ _ tt w0) //.
  eapply bind_wp; [apply (wp_ld_arena p v0 (λ a x, a = v0 ∧ x = w0)); done|]. intros ? ? [-> ->].
  change (if decide (align = 0) then quantum v0 else align) with (eff_align v align).
  assert (bool_decide (eff_align v align mod quantum v0 = 0) = true) as -> by by apply bool_decide_eq_true.
  rewrite (bind_ok _ _ _ tt w0) //. fold (eff_flag flag).
  destruct (take_two_run w0 flag (list_to_set (segqueue v0) ∪ R)) as
    (w1 & n1 & n2 & Erun & Hpool1 & Hn12 & Hn1 & Hn2 & Hs1 & Hs2 & Ea1 & Eu1 & _); [done|done|].
  etrans; [exact (Erun _ _)|]. apply bind_panic.
  eapply (search_fails ca w1 p v0 ss); try done; [by rewrite Ea1| |lia].
  eapply arena_ok_map; [|exact Lo]. intros x Hx. apply Eu1.
  apply elem_of_union_l, elem_of_list_to_set, Hx.
Qed.
