(* ===== verification/VmemFree.v ===== *)
(** * Releasing a segment of a vmem arena

    [vmem_xfree] looks the segment up in the hash table, merges it with its free
    neighbours and files the result on a free list; this file shows that it
    returns, keeps the arena invariant, and changes the layout exactly as the
    reference function [release] says, which undoes [carve]. *)

From S2P Require Import Prelude Queue Vmem VmemInv VmemAlloc.

(** ** The reference *)
Definition release (pre : list (segtype * Z * Z)) (b z : Z) (post : list (segtype * Z * Z))
    : list (segtype * Z * Z) :=
  let '(z1, post') := match post with
                      | (SEGMENT_FREE, _, z') :: post' => (z + z', post')
                      | _ => (z, post)
                      end in
  match last pre with
  | Some (SEGMENT_FREE, b', z') => take (length pre - 1) pre ++ (SEGMENT_FREE, b', z1 + z') :: post'
  | _ => pre ++ (SEGMENT_FREE, b, z1) :: post'
  end.

(** ** Merging the detached segment with a free neighbour *)
Definition merge_world (w : vworld) (p : nat) (v : Vmem) (seg nb : nat) (s' : VmemSegment) : vworld :=
  w_pool (nb :: free_segs w) (nfreesegs w + 1)
    (w_segs (<[seg := s']> (segs w))
      (w_arenas (<[p := set_segqueue (Abs.remove nb (segqueue v))
                          (set_freelist (Abs.remove nb <$> freelist v)
                             (set_hashtable (Abs.remove nb <$> hashtable v) v))]> (arenas w)) w)).

(** what releasing has changed so far *)
Record merged (w w' : vworld) (p : nat) (v v' : Vmem) (seg : nat) : Prop := {
  mg_arenas : arenas w' = <[p := v']> (arenas w);
  mg_config : same_config v v';
  mg_stat : stat v' = stat v;
  mg_segs : ∀ x, x ≠ seg → segs w' !! x = segs w !! x;
  mg_sub : ∀ x, x ∈ segqueue v' → x ∈ segqueue v;
  mg_pages : pm_pages w' = pm_pages w;
}.
Lemma merged_refl w p v seg : arenas w !! p = Some v → merged w w p v v seg.
Proof. intros H. split; try done. by rewrite insert_id. Qed.
Lemma merged_trans w w1 w2 p v v1 v2 seg :
  merged w w1 p v v1 seg → merged w1 w2 p v1 v2 seg → merged w w2 p v v2 seg.
Proof.
  intros [A1 C1 S1 M1 Q1 P1] [A2 C2 S2 M2 Q2 P2]. split.
  - by rewrite A2 A1 insert_insert_eq.
  - destruct C1 as (?&?&?&?&?), C2 as (?&?&?&?&?). split_and!; congruence.
  - congruence.
  - intros x Hx. rewrite M2 // M1 //.
  - auto.
  - by rewrite P2.
Qed.

Lemma merge_world_ok w p v q0 seg q1 s0 n q2 R nb qpre qpost pre post s' :
  detached w p v q0 seg q1 s0 n q2 →
  nb ≠ seg → nb ∈ segqueue v →
  Abs.remove nb (segqueue v) = qpre ++ seg :: qpost →
  (∀ x, x ∈ qpre ++ qpost ↔ x ∈ q0 ++ q1 ∧ x ≠ nb) →
  tags (segs w) qpre pre → tags (segs w) qpost post →
  tiled (quantum v) (pre ++ s' :: post) →
  pool_ok w (list_to_set (segqueue v) ∪ R) → (∀ x, x ∈ R → x ∉ segqueue v) →
  is_Some (segs w !! nb) →
  let w' := merge_world w p v seg nb s' in
  ∃ v', detached w' p v' qpre seg qpost pre s' post ∧
        pool_ok w' (list_to_set (segqueue v') ∪ R) ∧ merged w w' p v v' seg.
Proof.
  intros [Dq Da Dqueue Dnd Dpre Dseg Dpost Dlists Dt Dg] Hnb Hnbq Hrem Hset Tpre Tpost Ht Hp HR Hnbs w'.
  assert (NoDup (qpre ++ seg :: qpost)) as Hnd.
  { rewrite -Hrem. apply Abs.remove_NoDup. by rewrite Dqueue. }
  pose proof Hnd as (?&?&?&?&?)%NoDup_mid.
  set (v1 := set_segqueue (Abs.remove nb (segqueue v))
               (set_freelist (Abs.remove nb <$> freelist v)
                  (set_hashtable (Abs.remove nb <$> hashtable v) v))).
  exists v1. split_and!.
  - subst w'. split; unfold merge_world; v_simpl; try done.
    + by rewrite lookup_insert_eq.
    + by apply tags_upd.
    + by rewrite lookup_insert_eq.
    + by apply tags_upd.
    + apply lists_ok_upd; [set_solver|].
      apply (lists_ok_eq _ v1 (list_to_set (q0 ++ q1) ∖ {[nb]})); [|done..|].
      * by eapply lists_ok_remove.
      * apply set_eq. intros x. rewrite elem_of_difference !elem_of_list_to_set elem_of_singleton Hset. tauto.
  - subst w'. unfold merge_world.
    apply (pool_ok_put (w_segs (<[seg := _]> (segs w)) (w_arenas (<[p := _]> (arenas w)) w)) nb).
    + apply pool_ok_segs; [apply pool_ok_arenas|].
      * eapply pool_ok_used; [exact Hp|]. unfold v1. v_simpl. apply set_eq. intros x.
        rewrite !elem_of_union !elem_of_list_to_set Abs.elem_of_remove elem_of_singleton.
        destruct (decide (x = nb)) as [->|]; naive_solver.
      * intros x Hx. v_simpl. rewrite lookup_insert_is_Some'. auto.
    + unfold v1. v_simpl. rewrite elem_of_union elem_of_list_to_set Abs.elem_of_remove. naive_solver.
    + v_simpl. rewrite lookup_insert_is_Some'. auto.
  - subst w'. unfold merge_world. split; v_simpl; try done.
    + intros x Hx. by rewrite lookup_insert_ne.
    + intros x. unfold v1. v_simpl. rewrite Abs.elem_of_remove. naive_solver.
Qed.

Section coalesce.
Context (w : vworld) (p : nat) (v : Vmem) (R : gset nat) (seg : nat) (s : VmemSegment).
Context (Hs : ¬ is_span s).
Context (HR : ∀ x, x ∈ R → x ∉ segqueue v).
Context (Hp : pool_ok w (list_to_set (segqueue v) ∪ R)).

(** the state the two merges hand on *)
Definition merge_post (qpre qpost : list nat) (pre : list VmemSegment) (s' : VmemSegment)
    (post : list VmemSegment) (w' : vworld) : Prop :=
  ∃ v', detached w' p v' qpre seg qpost pre s' post ∧
        pool_ok w' (list_to_set (segqueue v') ∪ R) ∧ merged w w' p v v' seg.

Lemma free_not_span n : type n = SEGMENT_FREE → ¬ is_span n.
Proof. unfold is_span. congruence. Qed.

Lemma wp_right_merge qpre nb qpost pre n post :
  detached w p v qpre seg (nb :: qpost) pre s (n :: post) → type n = SEGMENT_FREE →
  wp (xfree_coalesce_right p seg)
    (λ _ w', merge_post qpre qpost pre (set_size (size s + size n) s) post w') w.
Proof.
  intros D Ht. pose proof D as [Dq Da Dqueue Dnd Dpre Dseg Dpost Dlists Dt Dg].
  apply Forall2_cons in Dpost as [Hn Dpost].
  pose proof Dnd as (N1&N2&N3&N4&N5)%NoDup_mid. apply NoDup_cons in N2 as [N2 N6].
  assert (nb ∉ qpre) as N7 by (clear -N5; set_solver).
  assert (nb ≠ seg) as N8 by (clear -N4; set_solver).
  assert (seg_ok (quantum v) n) as (?&?&?&?&?) by (eapply tiled_seg_ok; [done|set_solver]).
  assert (seg_ok (quantum v) s) as (?&?&?&?&?) by (eapply tiled_seg_ok; [done|set_solver]).
  assert (tiled (quantum v) (pre ++ set_size (size s + size n) s :: post)) as Ht'.
  { eapply tiled_join; [..|exact Dt]; try done. by apply free_not_span. }
  assert (seg_ok (quantum v) (set_size (size s + size n) s)) as (?&?&Hbound&?&?)
    by (eapply tiled_seg_ok; [exact Ht'|set_solver]). v_simpl in Hbound.
  unfold xfree_coalesce_right. v_step. v_step.
  rewrite Dqueue Abs.next_of_split //. cbn [head]. v_step. v_step. rewrite decide_True //.
  v_step. eapply wp_seglist_remove; [done|]. unfold segqueue_remove. repeat v_step.
  apply wp_seg_free; [done|]. v_simpl. rewrite wrap64_small; [lia|].
  rewrite insert_insert_eq.
  eapply (merge_world_ok w p v _ seg _ _ s _ R nb qpre qpost pre post); try done.
  - rewrite Dqueue. set_solver.
  - rewrite Dqueue. change (qpre ++ seg :: nb :: qpost) with (qpre ++ [seg] ++ nb :: qpost).
    rewrite app_assoc Abs.remove_split; [|done|by rewrite -app_assoc]. clear -N7 N8. set_solver.
  - clear -N2 N7. intros x. rewrite !elem_of_app elem_of_cons. set_solver.
Qed.

Lemma wp_right_keep qpre qpost pre post :
  detached w p v qpre seg qpost pre s post →
  (∀ n, head post = Some n → type n ≠ SEGMENT_FREE) →
  wp (xfree_coalesce_right p seg) (λ _ w', merge_post qpre qpost pre s post w') w.
Proof.
  intros D Ht. pose proof D as [Dq Da Dqueue Dnd Dpre Dseg Dpost Dlists Dt Dg].
  pose proof Dnd as (N1&N2&N3&N4&N5)%NoDup_mid.
  assert (merge_post qpre qpost pre s post w) as Hpost.
  { exists v. split_and!; [done..|by apply merged_refl]. }
  unfold xfree_coalesce_right. v_step. v_step. rewrite Dqueue Abs.next_of_split //.
  destruct Dpost as [|nb n qpost post Hn Dpost]; cbn [head]; [by v_step|].
  repeat v_step. rewrite decide_False; [by apply Ht|]. by v_step.
Qed.

Lemma wp_left_merge qpre nb qpost pre n post :
  detached w p v (qpre ++ [nb]) seg qpost (pre ++ [n]) s post → type n = SEGMENT_FREE →
  wp (xfree_coalesce_left p seg)
    (λ _ w', merge_post qpre qpost pre (set_base (base n) (set_size (size s + size n) s)) post w') w.
Proof.
  intros D Ht. pose proof D as [Dq Da Dqueue Dnd Dpre Dseg Dpost Dlists Dt Dg].
  apply Forall2_app_inv in Dpre as [Dpre Hn];
    [|by apply Forall2_length in Dpre; rewrite !length_app /= in Dpre; lia].
  apply Forall2_cons in Hn as [Hn _].
  pose proof Dnd as (N1&N2&N3&N4&N5)%NoDup_mid.
  apply NoDup_app in N1 as (N1 & N6 & _).
  assert (nb ∉ qpre) as N7 by (clear -N6; set_solver).
  assert (nb ≠ seg) as N8 by (clear -N3; set_solver).
  assert (nb ∉ qpost) as N9 by (clear -N5; set_solver).
  assert (seg_ok (quantum v) n) as (?&?&?&?&?) by (eapply tiled_seg_ok; [done|set_solver]).
  assert (seg_ok (quantum v) s) as (?&?&?&?&?) by (eapply tiled_seg_ok; [done|set_solver]).
  rewrite -app_assoc in Dt. cbn [app] in Dt.
  set (s' := set_base (base n) (set_size (size s + size n) s)).
  assert (tiled (quantum v) (pre ++ s' :: post)) as Ht'.
  { eapply tiled_join; [..|exact Dt]; try done; [by apply free_not_span|]. cbn. lia. }
  assert (seg_ok (quantum v) s') as (?&?&Hbound&?&?)
    by (eapply tiled_seg_ok; [exact Ht'|set_solver]). unfold s' in Hbound. v_simpl in Hbound.
  unfold xfree_coalesce_left. v_step. v_step. rewrite Dqueue Abs.prev_of_split // last_snoc.
  v_step. eapply wp_deref_intro; [done|]. v_step. v_step. rewrite decide_True //.
  v_step. eapply wp_seglist_remove; [done|]. unfold segqueue_remove. repeat v_step.
  apply wp_seg_free; [done|]. v_simpl. rewrite wrap64_small; [lia|].
  rewrite !insert_insert_eq.
  eapply (merge_world_ok w p v _ seg _ _ s _ R nb qpre qpost pre post); try done.
  - rewrite Dqueue. clear. set_solver.
  - rewrite Dqueue -app_assoc. cbn [app]. rewrite Abs.remove_split //. clear -N8 N9. set_solver.
  - clear -N7 N9. intros x. rewrite !elem_of_app. set_solver.
Qed.

Lemma wp_left_keep qpre qpost pre post :
  detached w p v qpre seg qpost pre s post →
  (∀ n, last pre = Some n → type n ≠ SEGMENT_FREE) →
  wp (xfree_coalesce_left p seg) (λ _ w', merge_post qpre qpost pre s post w') w.
Proof.
  intros D Ht. pose proof D as [Dq Da Dqueue Dnd Dpre Dseg Dpost Dlists Dt Dg].
  destruct (detached_pred _ _ _ _ _ _ _ _ _ D Hs) as (qpre' & pr & -> & Hprev).
  apply Forall2_app_inv_l in Dpre as (pre' & l & Dpre & Hl & ->).
  apply Forall2_cons_inv_l in Hl as (n & l' & Hn & ->%Forall2_nil_inv_l & ->).
  assert (merge_post (qpre' ++ [pr]) qpost (pre' ++ [n]) s post w) as Hpost.
  { exists v. split_and!; [done..|by apply merged_refl]. }
  unfold xfree_coalesce_left. v_step. v_step. v_step. eapply wp_deref_intro; [done|].
  v_step. v_step. rewrite decide_False; [apply Ht; by rewrite last_snoc|]. by v_step.
Qed.
End coalesce.

(** ** Both merges, whatever the neighbours are *)
Definition merge_right (s : VmemSegment) (post : list VmemSegment) : VmemSegment * list VmemSegment :=
  match post with
  | n :: post' => if decide (type n = SEGMENT_FREE) then (set_size (size s + size n) s, post')
                  else (s, post)
  | [] => (s, [])
  end.
Definition merge_left (pre : list VmemSegment) (s : VmemSegment) : list VmemSegment * VmemSegment :=
  match last pre with
  | Some n => if decide (type n = SEGMENT_FREE)
              then (take (length pre - 1) pre, set_base (base n) (set_size (size s + size n) s))
              else (pre, s)
  | None => (pre, s)
  end.

Lemma merge_left_snoc pre n s :
  merge_left (pre ++ [n]) s =
  if decide (type n = SEGMENT_FREE) then (pre, set_base (base n) (set_size (size s + size n) s))
  else (pre ++ [n], s).
Proof.
  unfold merge_left. rewrite last_snoc. case_decide; [|done]. do 2 f_equal.
  rewrite take_app_le; [rewrite length_app /=; lia|].
  rewrite take_ge; [rewrite length_app /=; lia|done].
Qed.

Section both.
Context (w : vworld) (p : nat) (v : Vmem) (R : gset nat) (seg : nat) (s : VmemSegment).
Context (Hs : ¬ is_span s).
Context (HR : ∀ x, x ∈ R → x ∉ segqueue v).
Context (Hp : pool_ok w (list_to_set (segqueue v) ∪ R)).
Context (qpre qpost : list nat) (pre post : list VmemSegment).
Context (D : detached w p v qpre seg qpost pre s post).

Lemma wp_coalesce_right :
  wp (xfree_coalesce_right p seg)
    (λ _ w', ∃ qpost', merge_post w p v R seg qpre qpost' pre
                         (merge_right s post).1 (merge_right s post).2 w') w.
Proof.
  pose proof D as D'. pose proof (d_post _ _ _ _ _ _ _ _ _ D) as Dp.
  destruct post as [|n post']; cbn [merge_right].
  - eapply wp_mono; [eapply wp_right_keep; done|]. intros ? ? Hm; eexists; exact Hm.
  - case_decide as Hn.
    + apply Forall2_cons_inv_r in Dp as (nb & qpost' & _ & _ & E). rewrite E in D'.
      eapply wp_mono; [eapply wp_right_merge; done|]. intros ? ? Hm; eexists; exact Hm.
    + eapply wp_mono; [eapply wp_right_keep; try done; by intros ? [= <-]|]. intros ? ? Hm; eexists; exact Hm.
Qed.
Lemma wp_coalesce_left :
  wp (xfree_coalesce_left p seg)
    (λ _ w', ∃ qpre', merge_post w p v R seg qpre' qpost
                        (merge_left pre s).1 (merge_left pre s).2 post w') w.
Proof.
  pose proof D as D'. pose proof (d_pre _ _ _ _ _ _ _ _ _ D) as Dp.
  destruct pre as [|n pre' _] using rev_ind.
  - eapply wp_mono; [eapply wp_left_keep; done|]. intros ? ? Hm; eexists; exact Hm.
  - rewrite merge_left_snoc. case_decide as Hn.
    + apply Forall2_app_inv_r in Dp as (q1 & q2 & _ & H2 & E).
      apply Forall2_cons_inv_r in H2 as (nb & q3 & _ & ->%Forall2_nil_inv_r & ->). rewrite E in D'.
      eapply wp_mono; [eapply wp_left_merge; done|]. intros ? ? Hm; eexists; exact Hm.
    + eapply wp_mono; [eapply wp_left_keep; try done|]; [|intros ? ? Hm; eexists; exact Hm].
      rewrite last_snoc. by intros ? [= <-].
Qed.
End both.

(** The merged layout is the reference's, and no two free segments meet. *)
Lemma merge_release pre s post i :
  let s1 := (merge_right s post).1 in
  sview <$> ((merge_left pre s1).1 ++ Seg SEGMENT_FREE i (base (merge_left pre s1).2)
               (size (merge_left pre s1).2) :: (merge_right s post).2) =
  release (sview <$> pre) (base s) (size s) (sview <$> post).
Proof.
  unfold release.
  assert (∀ s1 post1,
    sview <$> (merge_left pre s1).1 ++ Seg SEGMENT_FREE i (base (merge_left pre s1).2)
                                         (size (merge_left pre s1).2) :: post1 =
    match last (sview <$> pre) with
    | Some (SEGMENT_FREE, b', z') =>
        take (length (sview <$> pre) - 1) (sview <$> pre) ++
          (SEGMENT_FREE, b', size s1 + z') :: (sview <$> post1)
    | _ => (sview <$> pre) ++ (SEGMENT_FREE, base s1, size s1) :: (sview <$> post1)
    end) as HL.
  { intros s1 post1. unfold merge_left. rewrite fmap_last.
    destruct (last pre) as [[[] ? b' z']|]; cbn; rewrite fmap_app //=.
    by rewrite fmap_take length_fmap. }
  cbv zeta. rewrite HL. by destruct post as [|[[] ? b' z'] post].
Qed.

Lemma merge_coalesced pre s post i :
  coalesced (pre ++ s :: post) → type s = SEGMENT_ALLOCATED →
  let s1 := (merge_right s post).1 in
  (∀ a, last (merge_left pre s1).1 = Some a → type a ≠ SEGMENT_FREE) ∧
  coalesced ((merge_left pre s1).1 ++ Seg SEGMENT_FREE i (base (merge_left pre s1).2)
               (size (merge_left pre s1).2) :: (merge_right s post).2).
Proof.
  intros (Cpre & [_ Cpost] & _)%coalesced_app Ht. cbv zeta.
  assert (coalesced (merge_right s post).2 ∧
          ∀ b, head (merge_right s post).2 = Some b → type b ≠ SEGMENT_FREE) as [C1 H1].
  { destruct post as [|n post]; cbn [merge_right]; [done|].
    destruct Cpost as [Hn Cpost]. unfold both_free in Hn.
    case_decide; (split; [done|]); naive_solver. }
  assert (∀ s1, coalesced (merge_left pre s1).1 ∧
          ∀ a, last (merge_left pre s1).1 = Some a → type a ≠ SEGMENT_FREE) as HL.
  { intros s1. destruct pre as [|n pre _] using rev_ind; [done|]. rewrite merge_left_snoc.
    apply coalesced_app in Cpre as (C & _ & Hj). unfold both_free in Hj. case_decide; cbn [fst].
    - split; [done|]. naive_solver.
    - split; [apply coalesced_app; split_and!; [done|by split|naive_solver]|].
      rewrite last_snoc. by intros ? [= <-]. }
  destruct (HL (merge_right s post).1) as [C2 H2]. split; [done|].
  apply coalesced_app. split_and!; [done|split; [|done]|]; unfold both_free; naive_solver.
Qed.
Lemma merge_not_span s post pre :
  type s = SEGMENT_ALLOCATED →
  ¬ is_span (merge_right s post).1 ∧ ¬ is_span (merge_left pre (merge_right s post).1).2.
Proof.
  intros Ht. assert (¬ is_span (merge_right s post).1) as H.
  { destruct post as [|n post]; cbn; [|case_decide; cbn]; unfold is_span; cbn; congruence. }
  split; [done|]. unfold merge_left. destruct (last pre); [|done]. by case_decide.
Qed.

(** ** Looking the segment up *)
Lemma bucket_find_spec (w : vworld) l seg addr :
  seg ∈ l → (∀ x, x ∈ l → ∃ s, segs w !! x = Some s ∧ (base s = addr ↔ x = seg)) →
  wp (bucket_find l addr) (λ r w', r = Some seg ∧ w' = w) w.
Proof.
  induction l as [|x l IH]; intros Hin Hl; [by apply elem_of_nil in Hin|].
  destruct (Hl x) as (s & Hs & E); [left|]. cbn [bucket_find]. v_step.
  eapply wp_ld_seg; [done|]. case_decide as Hb.
  - apply wp_ret. apply E in Hb. by subst.
  - apply IH; [|intros y Hy; apply Hl; by right].
    apply elem_of_cons in Hin as [->|?]; [|done]. by destruct Hb; apply E.
Qed.

Lemma allocated_on_bucket w p v qpre seg qpost pre s post R :
  arena_at w p v (pre ++ s :: post) R → segqueue v = qpre ++ seg :: qpost →
  tags (segs w) qpre pre → segs w !! seg = Some s → tags (segs w) qpost post →
  type s = SEGMENT_ALLOCATED →
  (∀ s', s' ∈ pre ++ post → type s' = SEGMENT_ALLOCATED → base s' ≠ base s) →
  ∃ l, hashtable v !! hashtable_for_addr (base s) = Some l ∧ seg ∈ l ∧
       ∀ x, x ∈ l → ∃ s', segs w !! x = Some s' ∧ (base s' = base s ↔ x = seg).
Proof.
  intros [_ _ [_ _ _ [_ [Hlen Hb]] _ _] _ _] Eq Tpre Hs Tpost Ht Hu.
  destruct (lookup_lt_is_Some_2 (hashtable v) (hashtable_for_addr (base s))) as [l Hl].
  { rewrite Hlen. apply hash_index_lt. }
  destruct (Hb _ _ Hl) as [_ Hin]. exists l. split_and!; [done| |].
  - apply Hin. split; [rewrite Eq; apply elem_of_list_to_set; set_solver|].
    exists s. split; [done|]. unfold hash_bucket. by rewrite decide_True.
  - intros x [Hx (s' & Hs' & Hf)]%Hin. exists s'. split; [done|].
    unfold hash_bucket in Hf. case_decide as Ht'; [|done].
    split; [|intros ->; congruence]. intros Eb.
    destruct (decide (x = seg)) as [|Hne]; [done|]. exfalso.
    rewrite Eq in Hx. apply elem_of_list_to_set in Hx.
    assert (x ∈ qpre ++ qpost) as Hx' by (clear -Hx Hne; set_solver).
    destruct (tags_elem _ _ _ _ (tags_app _ _ _ _ _ Tpre Tpost) Hx') as (s'' & ? & ?).
    simplify_eq. by apply (Hu s').
Qed.

(** ** Filing the merged segment *)
Section finish.
Context (cf : nat → option nat → Z → Z → M vworld unit).
Context (w : vworld) (p : nat) (v : Vmem) (R : gset nat) (seg : nat) (s : VmemSegment).
Context (qpre qpost : list nat) (pre post : list VmemSegment) (sz : Z).
Context (D : detached w p v qpre seg qpost pre s post) (Hs : ¬ is_span s).
Context (HR : ∀ x, x ∈ R → x ∉ segqueue v).
Context (Hp : pool_ok w (list_to_set (segqueue v) ∪ R)).
Context (Hlast : ∀ a, last pre = Some a → type a ≠ SEGMENT_FREE).
Context (Hco : coalesced (pre ++ Seg SEGMENT_FREE (imported s) (base s) (size s) :: post)).

Definition filed_world : vworld :=
  w_segs (<[seg := set_type SEGMENT_FREE s]> (segs w))
    (w_arenas (<[p := set_lock false (stat_add sz 0 (- sz)
       (set_freelist (alter (cons seg) (fl_index (size s)) (freelist v)) v))]> (arenas w)) w).

Lemma finish_neighbor : ∃ qpre' pr pre' n,
  qpre = qpre' ++ [pr] ∧ pre = pre' ++ [n] ∧ segs w !! pr = Some n ∧ pr ≠ seg ∧
  Abs.prev_of seg (segqueue v) = Some pr ∧
  (type n = SEGMENT_SPAN ∨ type n = SEGMENT_ALLOCATED).
Proof.
  destruct (detached_pred _ _ _ _ _ _ _ _ _ D Hs) as (qpre' & pr & E & Hprev).
  pose proof (d_pre _ _ _ _ _ _ _ _ _ D) as Dpre. pose proof (d_nodup _ _ _ _ _ _ _ _ _ D) as Dnd.
  rewrite E in Dpre Dnd. apply Forall2_app_inv_l in Dpre as (pre' & l & Dpre & Hl & E').
  apply Forall2_cons_inv_l in Hl as (n & l' & Hn & ->%Forall2_nil_inv_l & ->).
  exists qpre', pr, pre', n. split_and!; try done.
  - apply NoDup_mid in Dnd as (_&_&H&_). clear -H. set_solver.
  - destruct (type n) eqn:Et; [by right| |by left]. destruct (Hlast n); [|done]. by rewrite E' last_snoc.
Qed.

Lemma filed_arena : arena_at filed_world p
    (set_lock false (stat_add sz 0 (- sz)
       (set_freelist (alter (cons seg) (fl_index (size s)) (freelist v)) v)))
    (pre ++ Seg SEGMENT_FREE (imported s) (base s) (size s) :: post) R.
Proof.
  pose proof D as [Dq Da Dqueue Dnd Dpre Dseg Dpost Dlists Dt Dg].
  pose proof Dnd as (N1&N2&N3&N4&N5)%NoDup_mid.
  split; unfold filed_world, stat_add; v_simpl; try done.
  - apply lookup_insert_eq.
  - split; v_simpl; try done.
    + rewrite Dqueue. apply tags_app; [by apply tags_upd|].
      constructor; [apply lookup_insert_eq|by apply tags_upd].
    + by rewrite Dqueue.
    + set (vf := set_freelist (alter (cons seg) (fl_index (size s)) (freelist v)) v).
      apply (lists_ok_eq _ vf ({[seg]} ∪ list_to_set (qpre ++ qpost))); [|done..|].
      * eapply (lists_ok_add_free _ v _ seg (set_type SEGMENT_FREE s));
          [clear -N3 N4; set_solver|apply lookup_insert_eq|done| |done|done].
        apply lists_ok_upd; [clear -N3 N4; set_solver|done].
      * rewrite Dqueue. clear. apply set_eq. intros y. set_solver.
    + eapply (tiled_relabel _ _ s); [..|exact Dt]; done.
  - apply pool_ok_segs; [by apply pool_ok_arenas|].
    intros x Hx. v_simpl. rewrite lookup_insert_is_Some'. auto.
Qed.

Lemma finish_file (Q : unit → vworld → Prop) :
  (v_free v = None ∨ ∀ n, last pre = Some n → is_span n → imported n = false ∨ size n ≠ size s) →
  Q tt filed_world → wp (xfree_finish cf p seg sz) Q w.
Proof.
  intros Hkeep HQ. pose proof D as [Dq Da Dqueue Dnd Dpre Dseg Dpost Dlists Dt Dg].
  destruct finish_neighbor as (qpre' & pr & pre' & n & -> & -> & Hn & Hne & Hprev & Hty).
  assert (seg_size_ok (size s)) as Hsz.
  { destruct (tiled_seg_ok _ _ s Dt) as (?&?&?&?&?); [clear; set_solver|].
    destruct Dq as [_ Dq]. split; [|lia]. trans (0 + quantum v); [lia|].
    apply multiple_gap; [lia|by apply Z.mod_0_l; lia|done|lia]. }
  assert (wp (vmem_add_to_freelist p seg) (λ _ w', wp (upd_arena p (stat_add sz 0 (- sz));;
     arena_unlock p) Q w') (w_segs (<[seg := set_type SEGMENT_FREE s]> (segs w)) w)) as Hadd.
  { eapply wp_add_to_freelist; [v_lookup|v_lookup|done|]. unfold arena_unlock. repeat v_step.
    revert HQ. unfold filed_world. v_simpl. by rewrite !insert_insert_eq. }
  unfold xfree_finish. v_step. v_step. v_step. eapply wp_deref_intro; [done|]. repeat v_step.
  apply wp_assert_intro; [by rewrite orb_true_iff !bool_decide_eq_true|]. repeat v_step.
  destruct Hkeep as [->|Hk]; [done|]. destruct (v_free v); [|done].
  rewrite decide_False; [|done]. intros (Ht & Hi & Hz).
  destruct (Hk n) as [?|?]; [by rewrite last_snoc|done|congruence|congruence].
Qed.
End finish.

(** ** [vmem_xfree] *)
Theorem vmem_xfree_spec cf w p v R pre s post addr sz :
  arena_at w p v (pre ++ s :: post) R →
  type s = SEGMENT_ALLOCATED → base s = addr → size s = sz →
  (∀ s', s' ∈ pre ++ post → type s' = SEGMENT_ALLOCATED → base s' ≠ addr) →
  (v_free v = None ∨ ∀ s', s' ∈ pre → is_span s' → imported s' = false) →
  wp (vmem_xfree cf p addr sz)
    (λ _ w', ∃ v' ss',
       sview <$> ss' = release (sview <$> pre) addr sz (sview <$> post) ∧
       arena_at w' p v' ss' R ∧ same_config v v' ∧
       stat v' = stat (stat_add sz 0 (- sz) v) ∧ frame p R w w' ∧ pm_pages w' = pm_pages w) w.
Proof.
  intros A Ht <- <- Hu Hkeep. pose proof A as [Av Al Ao Ap Ad].
  assert (¬ is_span s) as Hns by (unfold is_span; congruence).
  destruct (tags_split _ _ _ _ _ _ (ok_tags _ _ _ Ao) eq_refl) as (qpre & seg & qpost & Eq & Tpre & Hs & Tpost).
  destruct (allocated_on_bucket _ _ _ _ _ _ _ _ _ _ A Eq Tpre Hs Tpost Ht Hu) as (l & Hl & Hseg & Hbk).
  unfold vmem_xfree. apply wp_bind_intro. eapply wp_arena_lock; [done..|].
  destruct (arena_at_lock _ _ _ _ _ true Av Ao Ap) as (Lv & Lo & Lp).
  set (w0 := w_arenas _ w) in *. set (v0 := set_lock true v) in *.
  v_step. eapply wp_ld_arena; [exact Lv|]. v_step. eapply wp_deref_intro; [exact Hl|]. v_step.
  eapply wp_mono; [apply (bucket_find_spec w0 l seg); done|]. intros ? ? [-> ->].
  v_step. eapply wp_deref_intro; [done|]. v_step. eapply wp_ld_seg; [exact Hs|].
  v_step. apply wp_assert_intro; [by apply bool_decide_eq_true|]. v_step.
  eapply (wp_detach w0 p v0 seg s qpre qpost pre post); [done..|by eapply tags_length|by destruct Ap|].
  intros w1 v1 D1 E1 Ev1 Ew1.
  assert (∀ x, x ∈ R → x ∉ segqueue v1) as Hd1 by by rewrite Ev1.
  assert (pool_ok w1 (list_to_set (segqueue v1) ∪ R)) as Hp1 by (rewrite Ew1 Ev1; by apply pool_ok_arenas).
  v_step. eapply wp_mono; [eapply (wp_coalesce_right w1 p v1 R seg s); done|].
  intros [] w2 (qpost2 & v2 & D2 & Hp2 & M2). v_step.
  destruct (merge_not_span s post pre Ht) as [N1 N2].
  destruct (merge_coalesced pre s post (imported (merge_left pre (merge_right s post).1).2)
              (ok_coal _ _ _ Ao) Ht) as [Hlast Hco].
  assert (∀ x, x ∈ R → x ∉ segqueue v2) as Hd2 by (intros x ? ?; eapply Hd1, mg_sub; done).
  eapply wp_mono; [eapply (wp_coalesce_left w2 p v2 R seg _ N1); done|].
  intros [] w3 (qpre3 & v3 & D3 & Hp3 & M3). pose proof (merged_trans _ _ _ _ _ _ _ _ M2 M3) as M13.
  destruct M13 as [Ma (Mc1&Mc2&Mc3&Mc4&Mc5) Mst Msegs Msub Mpg].
  assert (∀ x, x ∈ R → x ∉ segqueue v3) as Hd3 by (intros x ? ?%Msub; by eapply Hd1).
  eapply (finish_file cf w3 p v3 seg); [exact D3|done..| |].
  { rewrite Mc3 Ev1. destruct Hkeep as [?|Hk]; [by left|]. right. intros n Hn Hsp. left. apply Hk; [|done].
    revert Hn. unfold merge_left. destruct (last pre) as [m|] eqn:El.
    - case_decide; cbn [fst]; intros Hn%last_Some_elem_of; [|done].
      apply elem_of_take in Hn as (i & Hi & _). by eapply list_elem_of_lookup_2.
    - by rewrite El. }
  eexists _, _. split_and!; [apply merge_release|by eapply filed_arena|..].
  - rewrite Ev1 in Mc1, Mc2, Mc3, Mc4. by split_and!.
  - unfold stat_add. v_simpl. by rewrite Mst Ev1.
  - split; unfold filed_world; v_simpl.
    + intros x Hx. assert (x ≠ seg).
      { intros ->. apply (Ad _ Hx). rewrite Eq. clear. set_solver. }
      rewrite lookup_insert_ne // Msegs // E1 //.
    + intros p' Hp'. rewrite lookup_insert_ne // Ma lookup_insert_ne // Ew1. unfold w0. v_simpl.
      by rewrite !lookup_insert_ne.
  - unfold filed_world. v_simpl. by rewrite Mpg Ew1.
Qed.

(** ** Allocating and releasing *)
Lemma release_carve pre s post a sz :
  (∀ x, last pre = Some x → x.1.1 ≠ SEGMENT_FREE) → (∀ x, head post = Some x → x.1.1 ≠ SEGMENT_FREE) →
  release (pre ++ (if decide (base s = a) then [] else [(SEGMENT_FREE, base s, a - base s)])) a sz
    ((if decide (a + sz = base s + size s) then []
      else [(SEGMENT_FREE, a + sz, base s + size s - (a + sz))]) ++ post)
  = pre ++ (SEGMENT_FREE, base s, size s) :: post.
Proof.
  intros Hpre Hpost. unfold release.
  assert (∀ z, match last (pre ++ (if decide (base s = a) then [] else [(SEGMENT_FREE, base s, a - base s)])) with
    | Some (SEGMENT_FREE, b', z') =>
       take (length (pre ++ (if decide (base s = a) then [] else [(SEGMENT_FREE, base s, a - base s)])) - 1)
         (pre ++ (if decide (base s = a) then [] else [(SEGMENT_FREE, base s, a - base s)])) ++
         (SEGMENT_FREE, b', z + z') :: post
    | _ => (pre ++ (if decide (base s = a) then [] else [(SEGMENT_FREE, base s, a - base s)])) ++
             (SEGMENT_FREE, a, z) :: post
    end = pre ++ (SEGMENT_FREE, base s, z + (a - base s)) :: post) as HL.
  { intros z. case_decide as E.
    - rewrite app_nil_r. replace (z + (a - base s)) with z by lia. rewrite -E.
      destruct (last pre) as [[[[] b'] z']|]; try done. by destruct (Hpre _ eq_refl).
    - rewrite last_snoc length_app Nat.add_sub take_app_length. done. }
  destruct (decide (a + sz = base s + size s)) as [E|E]; cbn [app].
  - replace (size s) with (sz + (a - base s)) by lia.
    destruct post as [|[[[] b'] z'] post']; try by rewrite HL. by destruct (Hpost _ eq_refl).
  - rewrite HL. do 3 f_equal. lia.
Qed.

(** How many segments of a layout cover the address [a], and how much of it is
    allocated. *)
Definition covers (a : Z) (x : segtype * Z * Z) : Z :=
  let '(t, b, z) := x in
  if decide (t = SEGMENT_SPAN) then 0 else if decide (b ≤ a < b + z) then 1 else 0.
Definition cover (l : list (segtype * Z * Z)) (a : Z) : Z := sumZ (covers a) l.
Definition live (x : segtype * Z * Z) : Z :=
  let '(t, b, z) := x in if decide (t = SEGMENT_ALLOCATED) then z else 0.
Definition allocated (l : list (segtype * Z * Z)) : Z := sumZ live l.

(** Distinct segments of the layout do not overlap (the spans are disjoint). *)
Definition disjoint_layout (ss : list VmemSegment) : Prop :=
  ∀ a, cover (sview <$> ss) a ≤ 1.

Lemma covers_nonneg a x : 0 ≤ covers a x.
Proof. destruct x as [[t b] z]. simpl. repeat case_decide; lia. Qed.
Lemma covers_one a s : ¬ is_span s → base s ≤ a < base s + size s → covers a (sview s) = 1.
Proof. intros Hs Ha. simpl. rewrite decide_False // decide_True //. Qed.

Lemma disjoint_other pre s post s' :
  disjoint_layout (pre ++ s :: post) → s' ∈ pre ++ post → ¬ is_span s → ¬ is_span s' →
  0 < size s → 0 < size s' →
  base s + size s ≤ base s' ∨ base s' + size s' ≤ base s.
Proof.
  intros Hd Hin Hs Hs' Hz Hz'. destruct (decide (base s + size s ≤ base s')) as [|H1]; [by left|].
  destruct (decide (base s' + size s' ≤ base s)) as [|H2]; [by right|]. exfalso.
  set (a := Z.max (base s) (base s')). specialize (Hd a). unfold cover in Hd.
  assert (1 ≤ sumZ (covers a) (sview <$> pre ++ post)) as H.
  { rewrite -(covers_one a s'); [done|lia|]. apply sumZ_elem; [|by apply list_elem_of_fmap_2].
    intros; apply covers_nonneg. }
  rewrite fmap_app sumZ_app in H. rewrite fmap_app fmap_cons sumZ_app in Hd. cbn [sumZ] in Hd.
  rewrite (covers_one a s) in Hd; [done|lia|]. lia.
Qed.

Lemma cover_carve b z start sz a :
  b ≤ start → start + sz ≤ b + z → 0 < sz → sumZ (covers a) (carve b z start sz) = covers a (SEGMENT_FREE, b, z).
Proof.
  intros. unfold carve. rewrite sumZ_app. simpl.
  repeat case_decide; simpl; repeat case_decide; simplify_eq; lia.
Qed.
Lemma live_carve b z start sz : sumZ live (carve b z start sz) = sz.
Proof. unfold carve. rewrite sumZ_app. simpl. do 2 case_decide; simpl; lia. Qed.

(** Merging keeps what is covered and only releases [z]. *)
Record adjacent (pre : list (segtype * Z * Z)) (b z : Z) (post : list (segtype * Z * Z)) : Prop := {
  adj_pos : 0 < z;
  adj_post : ∀ b' z', head post = Some (SEGMENT_FREE, b', z') → b' = b + z ∧ 0 < z';
  adj_pre : ∀ b' z', last pre = Some (SEGMENT_FREE, b', z') → b' + z' = b ∧ 0 < z';
}.

Lemma sum_release (f : segtype * Z * Z → Z) pre b z post :
  adjacent pre b z post →
  (∀ b1 z1 z2, 0 < z1 → 0 < z2 →
     f (SEGMENT_FREE, b1, z1 + z2) = f (SEGMENT_FREE, b1, z1) + f (SEGMENT_FREE, b1 + z1, z2)) →
  sumZ f (release pre b z post) = sumZ f pre + f (SEGMENT_FREE, b, z) + sumZ f post.
Proof.
  intros [Hz Hpost Hpre] Hf. unfold release.
  assert (∀ z1 post1, 0 < z1 →
    sumZ f (match last pre with
            | Some (SEGMENT_FREE, b', z') => take (length pre - 1) pre ++ (SEGMENT_FREE, b', z1 + z') :: post1
            | _ => pre ++ (SEGMENT_FREE, b, z1) :: post1
            end) = sumZ f pre + f (SEGMENT_FREE, b, z1) + sumZ f post1) as HL.
  { intros z1 post1 Hz1. destruct pre as [|x pre _] using rev_ind; [simpl; lia|].
    rewrite last_snoc in Hpre |- *. destruct x as [[[] b'] z']; rewrite !sumZ_app /=; try lia.
    destruct (Hpre b' z') as [Hb ?]; [done|].
    rewrite length_app Nat.add_sub take_app_length (Z.add_comm z1 z') Hf // Hb. lia. }
  destruct post as [|[[[] b'] z'] post]; try (rewrite HL //=; lia).
  destruct (Hpost b' z') as [Hb ?]; [done|]. rewrite HL; [lia|]. rewrite Hf // -Hb /=. lia.
Qed.
Lemma cover_release pre b z post a : adjacent pre b z post →
  cover (release pre b z post) a = cover (pre ++ (SEGMENT_ALLOCATED, b, z) :: post) a.
Proof.
  intros Ha. unfold cover. rewrite (sum_release _ _ _ _ _ Ha).
  - intros b1 z1 z2 ??. simpl. repeat case_decide; lia.
  - rewrite sumZ_app /=. lia.
Qed.
Lemma allocated_release pre b z post : adjacent pre b z post →
  allocated (release pre b z post) = allocated (pre ++ (SEGMENT_ALLOCATED, b, z) :: post) - z.
Proof. intros Ha. unfold allocated. rewrite (sum_release _ _ _ _ _ Ha) // sumZ_app /=. lia. Qed.

Lemma tiled_adjacent Q pre x y post :
  tiled Q (pre ++ x :: y :: post) → ¬ is_span x → ¬ is_span y → base y = base x + size x.
Proof.
  intros [H _] Hx Hy. apply tileP_app in H as [_ H]. simpl in H. unfold adv in H.
  rewrite !(decide_False _ _ Hx) !(decide_False _ _ Hy) in H. naive_solver.
Qed.
Lemma tiled_adjacent_views Q pre s post :
  tiled Q (pre ++ s :: post) → ¬ is_span s → adjacent (sview <$> pre) (base s) (size s) (sview <$> post).
Proof.
  intros H Hs. split.
  - destruct (tiled_seg_ok _ _ s H) as (?&?&?); [set_solver|lia].
  - intros b' z'. destruct post as [|n post]; [done|]. intros [= Ht <- <-].
    destruct (tiled_seg_ok _ _ n H) as (?&?&?); [set_solver|]. split; [|done].
    eapply tiled_adjacent; [exact H|done|unfold is_span; congruence].
  - intros b' z'. rewrite fmap_last. destruct pre as [|n pre _] using rev_ind; [done|].
    rewrite last_snoc. intros [= Ht <- <-]. rewrite -app_assoc in H.
    destruct (tiled_seg_ok _ _ n H) as (?&?&?); [set_solver|]. split; [|done].
    symmetry. eapply tiled_adjacent; [exact H|unfold is_span; congruence|done].
Qed.

Definition alloc_then_free ca cf (fuel p : nat) (sz align phase minaddr maxaddr flag : Z) : M vworld unit :=
  r ← vmem_xalloc ca fuel p sz align phase 0 minaddr maxaddr flag;
  vmem_xfree cf p r sz.

(** Releasing what was cut out of a free segment puts the segment back. *)
Lemma xfree_carved cf w1 p v v1 R Q pre s post ss1 sz align phase minaddr maxaddr r :
  tiled Q (pre ++ s :: post) → coalesced (pre ++ s :: post) → type s = SEGMENT_FREE → disjoint_layout (pre ++ s :: post) →
  0 < sz → fits sz align phase minaddr maxaddr s r → same_config v v1 → v_free v = None →
  sview <$> ss1 = (sview <$> pre) ++ carve (base s) (size s) r sz ++ (sview <$> post) → arena_at w1 p v1 ss1 R →
  wp (vmem_xfree cf p r sz) (λ _ w', ∃ v' ss', arena_at w' p v' ss' R ∧ sview <$> ss' = sview <$> (pre ++ s :: post) ∧
    frame p R w1 w' ∧ pm_pages w' = pm_pages w1) w1.
Proof.
  intros Ti Co Ht Hd Rs Hfits (?&?&Hc&?&?) Hvf Hview A1.
  destruct (coalesced_around pre s post Co Ht) as (_ & _ & Hl & Hh).
  unfold carve in Hview. rewrite -app_assoc app_assoc in Hview. cbn [app] in Hview.
  apply fmap_app_inv in Hview as (pre1 & l & Epre & El & ->).
  symmetry in El. apply fmap_cons_inv in El as (s1 & post1 & Es & Epost & ->). injection Es as Et Eb Ez.
  destruct Hfits as (F1&F2&F3&F4&F5).
  assert (¬ is_span s) as Hns by (unfold is_span; congruence).
  eapply wp_mono; [eapply (vmem_xfree_spec cf w1 p v1 R pre1 s1 post1 r sz); try done|].
  - intros s' Hin Hty E.
    assert (sview s' ∈ (sview <$> pre1) ++ (sview <$> post1)) as Hin'
      by (rewrite -fmap_app; by apply list_elem_of_fmap_2).
    assert (sview s' ∈ (sview <$> pre ++ post)) as (s0 & E0 & Hin0)%list_elem_of_fmap.
    { rewrite -Epre -Epost in Hin'. rewrite fmap_app. unfold sview in Hin' at 1. rewrite Hty in Hin'.
      repeat case_decide; clear -Hin' Hty; unfold sview at 1; rewrite Hty; set_solver. }
    injection E0 as Et0 Eb0 Ez0.
    destruct (tiled_seg_ok _ _ s0 Ti) as (?&?&?); [clear -Hin0; set_solver|].
    destruct (tiled_seg_ok _ _ s Ti) as (?&?&?); [clear; set_solver|].
    destruct (disjoint_other pre s post s0) as [?|?]; [done..|unfold is_span; congruence|done|done|lia|lia].
  - left. congruence.
  - intros [] w2 (v2 & ss2 & Hview2 & A2 & _ & _ & Hf & Hpg). exists v2, ss2. split_and!; [done| |done|done].
    rewrite Hview2 -Epre -Epost. etrans; [apply release_carve|].
    + intros x. rewrite fmap_last. destruct (last pre) as [y|]; [|done]. intros [= <-]. by apply Hl.
    + intros x. destruct post; [done|]. intros [= <-]. by apply Hh.
    + rewrite fmap_app fmap_cons /=. by rewrite /sview Ht.
Qed.

(** [xalloc] then [xfree]: *)
Theorem alloc_free_roundtrip ca cf fuel w p v ss R sz align phase minaddr maxaddr flag :
  arena_at w p v ss R → pool_ready w flag → (0 < fuel)%nat → v_free v = None →
  request_ok v sz (eff_align v align) phase minaddr maxaddr →
  disjoint_layout ss → (∀ s, s ∈ ss → type s = SEGMENT_FREE → no_wrap (eff_align v align) s) →
  (∃ s a, s ∈ ss ∧ type s = SEGMENT_FREE ∧
          fits sz (eff_align v align) phase minaddr maxaddr s a) →
  wp (alloc_then_free ca cf fuel p sz align phase minaddr maxaddr flag)
    (λ _ w', ∃ v' ss', arena_at w' p v' ss' R ∧ sview <$> ss' = sview <$> ss ∧ frame p R w w') w.
Proof.
  intros A Hr Hf Hvf Hreq Hd Hnw Hfit. unfold alloc_then_free. apply wp_bind_intro.
  eapply wp_mono; [by eapply vmem_xalloc_spec|].
  intros r w1 (pre & s & post & v1 & ss1 & -> & Ht & Hfits & Hview & A1 & Hc & _ & Fr1 & _).
  pose proof (at_ok _ _ _ _ _ A) as Ao. destruct Hreq as [[Rs _] _ _ _].
  eapply wp_mono; [eapply (xfree_carved cf w1 p v v1 R _ pre s post ss1); try done; [exact (ok_tiled _ _ _ Ao)|exact (ok_coal _ _ _ Ao)]|].
  intros [] w2 (v2 & ss2 & A2 & Hv2 & [Fa Fb] & _). exists v2, ss2. split_and!; [done..|].
  destruct Fr1 as [Fc Fd]. split; intros; [by rewrite Fa // Fc|by rewrite Fb // Fd].
Qed.
