(* ===== verification/VmemInit.v ===== *)
(** * Creating a vmem arena, and the arena's life from boot

    [vmem_bootstrap] fills the pool of boundary tags, [vmem_init] and [vmem_add]
    build the first span.  The file proves that this establishes the arena
    invariant, and states the end-to-end results about an arena created this way. *)

From S2P Require Import Prelude Queue Vmem VmemInv VmemAlloc VmemFree.

Lemma empty_lists_ok m v :
  freelist v = replicate FREELISTS_N [] → hashtable v = replicate HASHTABLES_N [] →
  lists_ok m v ∅.
Proof.
  intros E1 E2. unfold lists_ok. rewrite E1 E2.
  split; (split; [by rewrite length_replicate|]); intros i l [-> _]%lookup_replicate_1;
    (split; [constructor|]); set_solver.
Qed.

(** The arena [vmem_init] writes before it adds the span. *)
Definition blank_arena (name : string) (b sz quant : Z) (afunc ffunc src : option nat)
    (qcache flag : Z) (st : VmemStat) : Vmem :=
  MkVmem name b sz quant afunc ffunc src qcache flag false
    [] (replicate FREELISTS_N []) (replicate HASHTABLES_N []) [] st.

Record span_ok (b sz quant : Z) : Prop := {
  so_quantum : pow2 quant ∧ 2 ≤ quant < 2 ^ 64;
  so_base : 0 ≤ b ∧ b mod quant = 0;
  so_size : 0 < sz ∧ sz mod quant = 0;
  so_end : b + sz < 2 ^ 64;
}.

Lemma pool_ok_like w w' used :
  pool_ok w used → g_vmem_lock w' = g_vmem_lock w → nfreesegs w' = nfreesegs w →
  free_segs w' = free_segs w → next_seg w' = next_seg w →
  (∀ x, is_Some (segs w !! x) → is_Some (segs w' !! x)) → pool_ok w' used.
Proof. intros [] E1 E2 E3 E4 Hs. split; rewrite ?E1 ?E2 ?E3 ?E4 //. naive_solver. Qed.

Section add.
Context (w : vworld) (p : nat) (v : Vmem) (R : gset nat) (b sz : Z).
Context (Hv : arenas w !! p = Some v) (Hq : segqueue v = []).
Context (Hl : lists_ok (segs w) v ∅) (Hso : span_ok b sz (quantum v)).
Context (Hp : pool_ok w R) (H2 : (2 ≤ length (free_segs w))%nat).

(** Adding the first span. *)
Lemma add_internal_first import :
  wp (vmem_add_internal p b sz import)
    (λ _ w', ∃ v' i, arenas w' = <[p := v']> (arenas w) ∧
       arena_ok (segs w') v' [Seg SEGMENT_SPAN import b sz; Seg SEGMENT_FREE i b sz] ∧
       pool_ok w' (list_to_set (segqueue v') ∪ R) ∧ (∀ x, x ∈ R → x ∉ segqueue v') ∧
       (∀ x, x ∈ R → segs w' !! x = segs w !! x) ∧
       v' = set_segqueue (segqueue v') (set_freelist (freelist v') v)) w.
Proof.
  destruct (free_segs w) as [|n1 [|n2 rest]] eqn:Ef; simpl in H2; [lia..|].
  destruct (pool_ok_take _ _ _ _ Hp Ef) as (P1 & Hn1 & [x1 Hs1]).
  destruct (pool_ok_take _ n2 rest _ P1 eq_refl) as (P2 & Hn2 & [x2 Hs2]). v_simpl in Hs2.
  destruct Hso as [[Qp Qr] [? ?] [? ?] ?].
  assert (n1 ≠ n2) as Hne by (clear -Hn2; set_solver).
  assert (n2 ∉ R) as Hn2' by (clear -Hn2; set_solver).
  assert (seg_size_ok sz) as Hsz.
  { split; [|lia]. trans (0 + quantum v); [lia|].
    apply multiple_gap; [lia|by apply Z.mod_0_l; lia|done|lia]. }
  pose proof Hp as [Pl _ _ _ _].
  unfold vmem_add_internal. v_step. eapply wp_seg_alloc; [done..|]. v_simpl. repeat v_step.
  eapply (wp_seg_alloc n2 rest); [done..|]. v_simpl. rewrite !insert_insert_eq. repeat v_step.
  rewrite !insert_insert_eq Hq. unfold vmem_insert_segment. repeat v_step. v_simpl.
  rewrite insert_insert_eq. eapply wp_add_to_freelist; [v_lookup|v_lookup|done|]. v_step. v_simpl.
  rewrite (Abs.insert_after_split n1 n2 [] []); [apply not_elem_of_nil|]. rewrite !insert_insert_eq.
  cbn [app]. eexists _, (imported x2). split_and!; [done|..]; v_simpl.
  - split; v_simpl; try done.
    + repeat constructor; by simplify_map_eq.
    + apply NoDup_cons. split; [set_solver|apply NoDup_singleton].
    + set (m := <[n2 := _]> _). set (vf := set_freelist (alter (cons n2) (fl_index sz) (freelist v)) v).
      apply (lists_ok_eq m vf ({[n1]} ∪ ({[n2]} ∪ ∅))); [|done..|clear; set_solver].
      eapply (lists_ok_add_span m vf _ n1); [by unfold m; simplify_map_eq|done| |done|done].
      eapply (lists_ok_add_free m v _ n2); [clear; set_solver|apply lookup_insert_eq|done| |done|done].
      unfold m. by do 2 (apply lists_ok_upd; [clear; set_solver|]).
    + unfold coalesced, both_free; simpl. split_and!; naive_solver.
  - eapply pool_ok_like; [eapply pool_ok_used; [exact P2|clear; set_solver]|done..|].
    intros x Hx. v_simpl. rewrite !lookup_insert_is_Some'. auto.
  - clear -Hn1 Hn2'. set_solver.
  - intros x Hx. rewrite !lookup_insert_ne //; clear -Hx Hn1 Hn2'; set_solver.
  - done.
Qed.
End add.

(** ** [vmem_init] *)
Definition fresh_layout (b sz : Z) : list (segtype * Z * Z) :=
  [(SEGMENT_SPAN, b, sz); (SEGMENT_FREE, b, sz)].

Lemma vmem_init_spec w p old R name b sz quant afunc ffunc qcache flag :
  arenas w !! p = Some old → pool_ok w R → (2 ≤ length (free_segs w))%nat → span_ok b sz quant →
  wp (vmem_init p name b sz quant afunc ffunc None qcache flag)
    (λ r w', r = 0 ∧ ∃ v' ss',
       arena_at w' p v' ss' R ∧ sview <$> ss' = fresh_layout b sz ∧
       quantum v' = quant ∧ v_alloc v' = afunc ∧ v_free v' = ffunc ∧
       stat v' = Stat 0 0 (wrap64 (wrap64 (total (stat old) + sz) + sz))
                   (st_alloc (stat old)) (wrap64 (sz + sz)) ∧
       frame p R w w') w.
Proof.
  intros Hold Hp H2 Hso. pose proof Hso as [[Qp Qr] [? ?] [? ?] ?].
  unfold vmem_init. v_step. v_step. v_step. v_simpl.
  set (v0 := MkVmem _ _ _ _ _ _ _ _ _ _ _ _ _ _ _).
  rewrite (bool_decide_true (None = None)) // (bool_decide_false (sz = 0)); [lia|]. cbn [andb negb whenM].
  unfold vmem_add, vmem_contains. repeat v_step. apply wp_get. repeat v_step.
  unfold v0 at 1. cbn [segqueue existsb negb]. apply wp_assert_intro; [done|]. repeat v_step.
  rewrite insert_insert_eq. set (v1 := stat_add sz sz 0 v0).
  eapply wp_mono; [apply (add_internal_first _ p v1 R b sz); try done|].
  - v_simpl. apply lookup_insert_eq.
  - by apply empty_lists_ok.
  - by eapply pool_ok_like.
  - intros _ w' (v' & i & Ea & Ho & Hp' & Hd & Hfr & Ev). repeat v_step. split; [done|].
    exists v', [Seg SEGMENT_SPAN false b sz; Seg SEGMENT_FREE i b sz].
    split_and!; [|done|rewrite Ev; done..| |].
    + split; [rewrite Ea; apply lookup_insert_eq|by rewrite Ev|done..].
    + by rewrite Ev.
    + split; [done|]. intros p' Hp''. rewrite Ea. v_simpl. by rewrite !lookup_insert_ne.
Qed.
