(* ===== verification/VmemRefine.v ===== *)
(** * A vmem arena refines an abstract interval allocator

    The abstract state is the bag of live allocations; allocating adds an interval
    disjoint from all of them, releasing removes one.  Any sequence of
    [vmem_xalloc] and [vmem_xfree] calls that return on an arena without an import
    source is a run of that allocator. *)

From S2P Require Import Prelude Queue Vmem VmemInv VmemAlloc VmemFree VmemInit.

(** ** The abstract allocator *)
Inductive event :=
| EvAlloc (sz r : Z)
| EvFree (addr sz : Z).

Definition interval_disjoint (x y : Z * Z) : Prop := x.1 + x.2 ≤ y.1 ∨ y.1 + y.2 ≤ x.1.

Inductive spec_step : list (Z * Z) → event → list (Z * Z) → Prop :=
| spec_alloc l l' sz r :
    Forall (interval_disjoint (r, sz)) l → l' ≡ₚ (r, sz) :: l → spec_step l (EvAlloc sz r) l'
| spec_free l l' addr sz :
    l ≡ₚ (addr, sz) :: l' → spec_step l (EvFree addr sz) l'.

Inductive spec_run : list (Z * Z) → list event → list (Z * Z) → Prop :=
| spec_nil l : spec_run l [] l
| spec_cons l1 e l2 es l3 : spec_step l1 e l2 → spec_run l2 es l3 → spec_run l1 (e :: es) l3.

(** What the spec guarantees of every run: live allocations are pairwise disjoint. *)
Fixpoint pairwise_disjoint (l : list (Z * Z)) : Prop :=
  match l with [] => True | x :: l' => Forall (interval_disjoint x) l' ∧ pairwise_disjoint l' end.
Lemma pairwise_disjoint_perm l l' : l ≡ₚ l' → pairwise_disjoint l → pairwise_disjoint l'.
Proof.
  assert (∀ x y, interval_disjoint x y → interval_disjoint y x) by (unfold interval_disjoint; naive_solver).
  induction 1 as [|x l l' Hp IH|x y l|]; simpl; auto.
  - intros [Hx Hl]. split; [by rewrite -Hp|auto].
  - rewrite !Forall_cons. naive_solver.
Qed.
#[global] Instance pairwise_disjoint_proper : Proper ((≡ₚ) ==> iff) pairwise_disjoint.
Proof. intros l l' Hp. split; by apply pairwise_disjoint_perm. Qed.
Lemma spec_run_disjoint l es l' : spec_run l es l' → pairwise_disjoint l → pairwise_disjoint l'.
Proof.
  induction 1 as [|l1 e l2 es l3 Hs Hr IH]; [done|]. intros Hd. apply IH. destruct Hs as [l l' sz r Hf Hp|l l' addr sz Hp].
  - rewrite Hp. by split.
  - rewrite Hp in Hd. by destruct Hd.
Qed.

(** ** The abstraction of a layout *)
Definition live_of (x : segtype * Z * Z) : option (Z * Z) :=
  let '(t, b, z) := x in if decide (t = SEGMENT_ALLOCATED) then Some (b, z) else None.
Definition allocs (l : list (segtype * Z * Z)) : list (Z * Z) := omap live_of l.

Lemma allocs_app l1 l2 : allocs (l1 ++ l2) = allocs l1 ++ allocs l2.
Proof. apply omap_app. Qed.
Lemma allocs_carve b z start sz : allocs (carve b z start sz) = [(start, sz)].
Proof. unfold carve, allocs. rewrite omap_app /=. by do 2 case_decide. Qed.
Lemma allocs_release pre b z post : allocs (release pre b z post) = allocs pre ++ allocs post.
Proof.
  unfold release.
  assert (∀ z1 post1,
    allocs (match last pre with
            | Some (SEGMENT_FREE, b', z') => take (length pre - 1) pre ++ (SEGMENT_FREE, b', z1 + z') :: post1
            | _ => pre ++ (SEGMENT_FREE, b, z1) :: post1
            end) = allocs pre ++ allocs post1) as HL.
  { intros z1 post1. destruct pre as [|x pre _] using rev_ind; [done|]. rewrite last_snoc.
    destruct x as [[[] b'] z']; rewrite !allocs_app //.
    by rewrite length_app Nat.add_sub take_app_length app_nil_r. }
  by destruct post as [|[[[] b'] z'] post]; rewrite HL.
Qed.
Lemma allocated_sum l : allocated l = sumZ snd (allocs l).
Proof.
  induction l as [|[[t b] z] l IH]; [done|]. unfold allocated in *.
  replace (allocs ((t, b, z) :: l)) with
    (if decide (t = SEGMENT_ALLOCATED) then (b, z) :: allocs l else allocs l) by by destruct t.
  cbn [sumZ live]. rewrite IH. by destruct (decide (t = SEGMENT_ALLOCATED)).
Qed.
Lemma elem_of_allocs b z ss :
  (b, z) ∈ allocs (sview <$> ss) ↔ ∃ s, s ∈ ss ∧ type s = SEGMENT_ALLOCATED ∧ base s = b ∧ size s = z.
Proof.
  unfold allocs. rewrite list_elem_of_omap. split.
  - intros (x & (s & -> & Hs)%list_elem_of_fmap & Hl). unfold sview, live_of in Hl.
    case_decide; naive_solver.
  - intros (s & Hs & Ht & <- & <-). exists (sview s). split; [by apply list_elem_of_fmap_2|].
    by rewrite /sview /live_of decide_True.
Qed.

(** Carving inside a layout. *)
Section carved.
Context (pre post : list (segtype * Z * Z)) (b z r sz : Z).
Lemma allocs_carved :
  allocs (pre ++ carve b z r sz ++ post) = allocs pre ++ (r, sz) :: allocs post.
Proof. by rewrite allocs_app (allocs_app (carve _ _ _ _)) allocs_carve. Qed.
Lemma cover_carved a : b ≤ r → r + sz ≤ b + z → 0 < sz →
  cover (pre ++ carve b z r sz ++ post) a = cover (pre ++ (SEGMENT_FREE, b, z) :: post) a.
Proof.
  intros. unfold cover. rewrite sumZ_app (sumZ_app _ (carve _ _ _ _)) cover_carve //.
  by rewrite sumZ_app.
Qed.
Lemma allocated_carved :
  allocated (pre ++ carve b z r sz ++ post) = allocated pre + sz + allocated post.
Proof. unfold allocated. rewrite sumZ_app (sumZ_app _ (carve _ _ _ _)) live_carve. lia. Qed.
End carved.

(** ** The simulation *)
Section refine.
Context (ca : nat → option nat → Z → Z → M vworld Z).
Context (cf : nat → option nat → Z → Z → M vworld unit).
Context (p : nat) (R : gset nat) (lo limit : Z).

(** The relation between a world and the abstract state: the arena invariant, an
    arena without callbacks, disjoint segments between [lo] and [limit], and the
    statistics agreeing with the layout. *)
Record simulates (w : vworld) (l : list (Z * Z)) (v : Vmem) (ss : list VmemSegment) : Prop := {
  sim_at : arena_at w p v ss R;
  sim_alloc : v_alloc v = None;
  sim_free : v_free v = None;
  sim_disj : disjoint_layout ss;
  sim_limit : ∀ a, a < lo ∨ limit ≤ a → cover (sview <$> ss) a = 0;
  sim_use : in_use (stat v) = wrap64 (allocated (sview <$> ss));
  sim_live : l = allocs (sview <$> ss);
}.

Inductive op :=
| OpAlloc (fuel : nat) (sz align phase minaddr maxaddr flag : Z)
| OpFree (addr sz : Z).

(** A call the arena's clients may make in world [w]. *)
Definition op_ok (w : vworld) (v : Vmem) (l : list (Z * Z)) (o : op) : Prop :=
  match o with
  | OpAlloc fuel sz align phase minaddr maxaddr flag =>
      request_ok v sz (eff_align v align) phase minaddr maxaddr ∧ sz < 2 ^ 64 ∧
      (0 < fuel)%nat ∧ pool_ready w flag ∧ limit + eff_align v align ≤ 2 ^ 64
  | OpFree addr sz => (addr, sz) ∈ l
  end.
Definition run_op (o : op) : M vworld event :=
  match o with
  | OpAlloc fuel sz align phase minaddr maxaddr flag =>
      r ← vmem_xalloc ca fuel p sz align phase 0 minaddr maxaddr flag; mret (EvAlloc sz r)
  | OpFree addr sz => vmem_xfree cf p addr sz;; mret (EvFree addr sz)
  end.

Lemma uncovered ss s a :
  s ∈ ss → ¬ is_span s → cover (sview <$> ss) a = 0 → ¬ (base s ≤ a < base s + size s).
Proof.
  intros Hs Hns H0 Ha. pose proof (sumZ_elem (covers a) (sview <$> ss) (sview s)) as Hc.
  rewrite covers_one // in Hc. unfold cover in H0. rewrite H0 in Hc.
  enough (1 ≤ 0) by lia. apply Hc; [intros; apply covers_nonneg|by apply list_elem_of_fmap_2].
Qed.
Lemma sim_seg_bounds w l v ss s :
  simulates w l v ss → s ∈ ss → ¬ is_span s → lo ≤ base s ∧ base s + size s ≤ limit.
Proof.
  intros [A _ _ _ Hlim _ _] Hs Hns.
  destruct (tiled_seg_ok _ _ s (ok_tiled _ _ _ (at_ok _ _ _ _ _ A)) Hs) as (?&?&?&_). split.
  - destruct (decide (lo ≤ base s)) as [|Hl]; [done|exfalso].
    apply (uncovered ss s (base s)); [done..|apply Hlim; lia|lia].
  - destruct (decide (base s + size s ≤ limit)) as [|Hl]; [done|exfalso].
    apply (uncovered ss s (base s + size s - 1)); [done..|apply Hlim; lia|lia].
Qed.
Lemma sim_no_wrap w l v ss align s :
  simulates w l v ss → limit + align ≤ 2 ^ 64 → s ∈ ss → type s = SEGMENT_FREE → no_wrap align s.
Proof.
  intros Hsim Hal Hs Ht. assert (¬ is_span s) as Hns by (unfold is_span; congruence).
  pose proof (sim_seg_bounds _ _ _ _ _ Hsim Hs Hns).
  destruct (tiled_seg_ok _ _ s (ok_tiled _ _ _ (at_ok _ _ _ _ _ (sim_at _ _ _ _ Hsim))) Hs) as (?&?&?&_).
  split_and!; [done..|lia].
Qed.

Lemma alloc_fresh w l v pre s post r sz :
  simulates w l v (pre ++ s :: post) → type s = SEGMENT_FREE →
  base s ≤ r → r + sz ≤ base s + size s → 0 < sz → Forall (interval_disjoint (r, sz)) l.
Proof.
  intros [A _ _ Hd _ _ ->] Ht H1 H2 Hsz. apply Forall_forall. intros [b z] Hin.
  apply elem_of_allocs in Hin as (s' & Hs' & Ht' & <- & <-).
  pose proof (ok_tiled _ _ _ (at_ok _ _ _ _ _ A)) as Ti.
  destruct (tiled_seg_ok _ _ s Ti) as (?&?&?); [set_solver|].
  destruct (tiled_seg_ok _ _ s' Ti) as (?&?&?); [done|].
  assert (s' ∈ pre ++ post) by (assert (s' ≠ s) by congruence; set_solver).
  unfold interval_disjoint. simpl.
  destruct (disjoint_other pre s post s'); try done; unfold is_span; try congruence; lia.
Qed.

Lemma alloc_step w l v ss fuel sz align phase minaddr maxaddr flag e w' :
  simulates w l v ss → op_ok w v l (OpAlloc fuel sz align phase minaddr maxaddr flag) →
  run_op (OpAlloc fuel sz align phase minaddr maxaddr flag) w = Ok (e, w') →
  ∃ l' v' ss', spec_step l e l' ∧ simulates w' l' v' ss'.
Proof.
  intros Hsim (Hreq & Hlt & Hfuel & Hrdy & Hlim) Hrun. pose proof Hsim as [A Sa Sf Sd Sl Su ->].
  pose proof (λ s, sim_no_wrap _ _ _ _ (eff_align v align) s Hsim Hlim) as Hnw.
  assert (wp (run_op (OpAlloc fuel sz align phase minaddr maxaddr flag)) (λ e w', ∃ l' v' ss',
     spec_step (allocs (sview <$> ss)) e l' ∧ simulates w' l' v' ss') w) as H;
    [|by unfold wp in H; rewrite Hrun in H].
  pose proof Hreq as [[Rs Rsq] [Ra Raq] [Rp Rpq] [Rmin Rmax]].
  assert (2 ≤ sz) as Hsz.
  { pose proof (ok_quantum _ _ _ (at_ok _ _ _ _ _ A)) as [_ [? _]]. trans (0 + quantum v); [lia|].
    apply multiple_gap; [lia|by apply Z.mod_0_l; lia|done|lia]. }
  destruct (fit_decided w v ss (at_ok _ _ _ _ _ A) sz (eff_align v align) phase
    minaddr maxaddr) as [Hfit|Hno]; [done..|by eauto| |].
  2:{ unfold run_op in Hrun. destruct fuel as [|fuel]; [lia|].
      by rewrite (bind_panic _ _ _ _ (xalloc_exhausted _ _ _ _ _ _ _ _ _ _ _ _ _ A Hrdy Sa Hreq Hlt
                   Hnw Hno)) in Hrun. }
  cbn [run_op]. apply wp_bind_intro.
  eapply wp_mono; [eapply vmem_xalloc_spec; try done; by eauto|].
  intros r w1 (pre & s & post & v1 & ss1 & -> & Ht & (F1&F2&F3&F4&F5) & Hview & A1 & (?&?&?&?&?) & Hst & _).
  apply wp_ret.
  assert (sview <$> pre ++ s :: post =
          (sview <$> pre) ++ (SEGMENT_FREE, base s, size s) :: (sview <$> post)) as Es.
  { by rewrite fmap_app fmap_cons {2}/sview Ht. }
  exists (allocs (sview <$> ss1)), v1, ss1. split.
  - constructor; [by eapply alloc_fresh|]. rewrite Hview allocs_carved Es allocs_app.
    by rewrite -Permutation_middle.
  - assert (∀ a, cover (sview <$> ss1) a = cover (sview <$> pre ++ s :: post) a) as Hcov.
    { intros a. by rewrite Hview cover_carved // Es. }
    split; [done|congruence|congruence|..|done].
    + intros a. rewrite Hcov. exact (Sd a).
    + intros a ?. rewrite Hcov. by apply Sl.
    + rewrite Hst. unfold stat_add. cbn. rewrite Su. unfold wrap64. rewrite Zplus_mod_idemp_l.
      rewrite Hview allocated_carved Es /allocated sumZ_app /=. f_equal. lia.
Qed.

Lemma free_step w l v ss addr sz :
  simulates w l v ss → op_ok w v l (OpFree addr sz) →
  wp (run_op (OpFree addr sz)) (λ e w', e = EvFree addr sz ∧
    ∃ l' v' ss', spec_step l e l' ∧ simulates w' l' v' ss') w.
Proof.
  intros [A Sa Sf Sd Sl Su ->] Hop. cbn [op_ok] in Hop.
  apply elem_of_allocs in Hop as (s & Hs & Ht & <- & <-).
  apply list_elem_of_split in Hs as (pre & post & ->).
  pose proof (ok_tiled _ _ _ (at_ok _ _ _ _ _ A)) as Ti.
  assert (¬ is_span s) as Hns by (unfold is_span; congruence).
  pose proof (tiled_adjacent_views _ _ _ _ Ti Hns) as Hadj.
  cbn [run_op]. apply wp_bind_intro. eapply wp_mono; [eapply vmem_xfree_spec; try done; [|by left]|].
  { intros s' Hin Ht' E. destruct (tiled_seg_ok _ _ s Ti) as (?&?&?); [clear; set_solver|].
    destruct (tiled_seg_ok _ _ s' Ti) as (?&?&?); [clear -Hin; set_solver|].
    destruct (disjoint_other pre s post s'); try done; [unfold is_span; congruence|lia..]. }
  intros _ w' (v' & ss' & Hview & A' & (?&?&?&?&?) & Hst & _). apply wp_ret. split; [done|].
  assert (sview <$> pre ++ s :: post =
          (sview <$> pre) ++ (SEGMENT_ALLOCATED, base s, size s) :: (sview <$> post)) as Es.
  { by rewrite fmap_app fmap_cons {2}/sview Ht. }
  exists (allocs (sview <$> ss')), v', ss'. split.
  - constructor. rewrite Hview Es allocs_release allocs_app.
    by rewrite -Permutation_middle.
  - assert (∀ a, cover (sview <$> ss') a = cover (sview <$> pre ++ s :: post) a) as Hcov.
    { intros a. by rewrite Hview cover_release // Es. }
    split; [done|congruence|congruence|..|done].
    + intros a. rewrite Hcov. exact (Sd a).
    + intros a ?. rewrite Hcov. by apply Sl.
    + rewrite Hst. unfold stat_add. cbn. rewrite Su Hview allocated_release // Es.
      unfold wrap64. by rewrite Zplus_mod_idemp_l.
Qed.

(** What the client holds after an event. *)
Fixpoint remove1 (x : Z * Z) (l : list (Z * Z)) : list (Z * Z) :=
  match l with
  | [] => []
  | y :: l' => if decide (x = y) then l' else y :: remove1 x l'
  end.
Definition holds_after (l : list (Z * Z)) (e : event) : list (Z * Z) :=
  match e with
  | EvAlloc sz r => (r, sz) :: l
  | EvFree addr sz => remove1 (addr, sz) l
  end.
Lemma remove1_perm x l : x ∈ l → l ≡ₚ x :: remove1 x l.
Proof.
  induction l as [|y l IH]; intros Hx; [set_solver|]. simpl. case_decide as E; [by subst|].
  apply elem_of_cons in Hx as [?|Hx]; [done|]. rewrite {1}(IH Hx). apply Permutation_swap.
Qed.

(** A client that calls the arena, one operation after another, and releases only
    what it holds. *)
Inductive client_run : vworld → list (Z * Z) → list event → vworld → list (Z * Z) → Prop :=
| run_nil w l : client_run w l [] w l
| run_cons w l v o e w1 es w2 l2 :
    arenas w !! p = Some v → op_ok w v l o → run_op o w = Ok (e, w1) →
    client_run w1 (holds_after l e) es w2 l2 → client_run w l (e :: es) w2 l2.

Lemma spec_step_perm l l0 e l1 : l0 ≡ₚ l → spec_step l0 e l1 → spec_step l e l1.
Proof. intros Hp Hs. inversion Hs; subst; constructor; by rewrite -?Hp. Qed.
Lemma spec_step_after l e l1 : spec_step l e l1 → l1 ≡ₚ holds_after l e.
Proof.
  intros [l2 l3 sz r Hf Hq|l2 l3 a sz Hq]; [done|]. simpl.
  apply (Permutation_cons_inv (a := (a, sz))). rewrite -Hq. apply remove1_perm. rewrite Hq. left.
Qed.
Lemma spec_step_perm_r l e l1 l2 : l1 ≡ₚ l2 → spec_step l e l1 → spec_step l e l2.
Proof. intros Hp Hs. inversion Hs; subst; constructor; try done; by rewrite -Hp. Qed.

Lemma client_step w l l0 v ss o e w1 :
  simulates w l0 v ss → l0 ≡ₚ l → op_ok w v l o → run_op o w = Ok (e, w1) →
  spec_step l e (holds_after l e) ∧
  ∃ l1 v1 ss1, simulates w1 l1 v1 ss1 ∧ l1 ≡ₚ holds_after l e.
Proof.
  intros Hsim Hp Hop Hrun.
  assert (op_ok w v l0 o) as Hop0 by (destruct o; [done|]; simpl in *; by rewrite Hp).
  assert (∃ l1 v1 ss1, spec_step l0 e l1 ∧ simulates w1 l1 v1 ss1) as (l1 & v1 & ss1 & Hs & Hsim1).
  { destruct o as [fuel sz align phase minaddr maxaddr flag|addr sz]; [by eapply alloc_step|].
    pose proof (free_step _ _ _ _ _ _ Hsim Hop0) as H. unfold wp in H. rewrite Hrun in H. naive_solver. }
  apply (spec_step_perm l) in Hs; [|done]. pose proof (spec_step_after _ _ _ Hs) as Hp1.
  split; [by eapply spec_step_perm_r|eauto 10].
Qed.

(** Any run of a client is a run of the abstract allocator, and the arena
    still simulates it at the end. *)
Theorem client_run_refines w l es w' l' l0 v ss :
  simulates w l0 v ss → l0 ≡ₚ l → client_run w l es w' l' →
  spec_run l es l' ∧ ∃ l1 v' ss', simulates w' l1 v' ss' ∧ l1 ≡ₚ l'.
Proof.
  intros Hsim Hp Hrun. revert l0 v ss Hsim Hp.
  induction Hrun as [w l|w l v o e w1 es w2 l2 Hv Hop Hstep Hrun IH]; intros l0 v0 ss Hsim Hp.
  - split; [constructor|]. eauto.
  - pose proof Hsim as [[Hv0 _ _ _ _] _ _ _ _ _ _]. simplify_eq.
    destruct (client_step _ _ _ _ _ _ _ _ Hsim Hp Hop Hstep) as (Hs & l1 & v1 & ss1 & Hsim1 & Hp1).
    destruct (IH _ _ _ Hsim1 Hp1) as [Hr Hfin]. split; [by econstructor|done].
Qed.

Lemma sim_client_view w l l1 v ss :
  simulates w l1 v ss → l1 ≡ₚ l →
  (∀ b z, (b, z) ∈ l → lo ≤ b ∧ b + z ≤ limit) ∧ in_use (stat v) = wrap64 (sumZ snd l).
Proof.
  intros Hsim Hp. pose proof Hsim as [A _ _ _ _ Su ->]. split.
  - intros b z Hin. rewrite -Hp in Hin. apply elem_of_allocs in Hin as (s & Hs & Ht & <- & <-).
    eapply sim_seg_bounds; [done..|]. unfold is_span. congruence.
  - rewrite Su. f_equal. trans (sumZ snd (allocs (sview <$> ss))).
    + apply allocated_sum.
    + clear -Hp. induction Hp; simpl; lia.
Qed.
End refine.

(** ** From boot *)
Record boot_state (w : vworld) (p : nat) : Prop := {
  bs_pool : free_segs w = [] ∧ nfreesegs w = 0;
  bs_static : ∀ i, (i < 128)%nat → is_Some (segs w !! i);
  bs_next : (128 ≤ next_seg w)%nat;
  bs_arena : is_Some (arenas w !! p);
}.

Lemma vmem_bootstrap_spec w p : boot_state w p →
  wp vmem_bootstrap (λ _ w', pool_ok w' ∅ ∧ length (free_segs w') = 128%nat ∧ arenas w' = arenas w) w.
Proof.
  intros [[Bf Bn] Bs Bx Ba]. unfold vmem_bootstrap. apply wp_bind_intro, wp_modify.
  set (w1 := w_glock false w).
  eapply wp_mono; [apply (seg_free_all (seq 0 128) ∅ w1)|].
  - split; unfold w1; v_simpl; rewrite ?Bf ?Bn; [done|done|constructor|by intros x ?%elem_of_nil|].
    intros x. rewrite elem_of_union elem_of_list_to_set elem_of_seq elem_of_empty. lia.
  - apply NoDup_seq.
  - set_solver.
  - intros x Hx%elem_of_seq. apply Bs. lia.
  - intros _ w' (H1 & H2 & H3). split_and!; [done| |by rewrite H3].
    rewrite H2. unfold w1. v_simpl. by rewrite Bf.
Qed.

Definition vmem_boot (p : nat) (name : string) (b sz quant qcache flag : Z) : M vworld Z :=
  vmem_bootstrap;; vmem_init p name b sz quant None None None qcache flag.

Theorem vmem_boot_refines ca cf w p name b sz quant qcache flag :
  boot_state w p → span_ok b sz quant →
  wp (vmem_boot p name b sz quant qcache flag)
    (λ r w1, r = 0 ∧ ∀ es w2 l,
       client_run ca cf p (b + sz) w1 [] es w2 l →
       spec_run [] es l ∧ pairwise_disjoint l ∧
       (∀ b' z', (b', z') ∈ l → b ≤ b' ∧ b' + z' ≤ b + sz) ∧
       ∃ v2, arenas w2 !! p = Some v2 ∧ in_use (stat v2) = wrap64 (sumZ snd l)) w.
Proof.
  intros Hb Hso. pose proof Hb as [_ _ _ [old Hold]]. unfold vmem_boot. apply wp_bind_intro.
  eapply wp_mono; [by eapply vmem_bootstrap_spec|]. intros _ w0 (Hp & Hlen & Ea).
  eapply wp_mono; [eapply (vmem_init_spec w0 p old ∅); [by rewrite Ea|done|lia|done]|].
  intros r w1 (-> & v & ss & A & Hview & Hq & Hna & Hnf & Hst & _). split; [done|]. intros es w2 l Hrun.
  assert (simulates p ∅ b (b + sz) w1 [] v ss) as Hsim.
  { split; rewrite ?Hview ?Hst //.
    - intros a. rewrite Hview. unfold cover. simpl. repeat case_decide; lia.
    - intros a Ha. unfold cover. simpl. repeat case_decide; lia. }
  destruct (client_run_refines _ _ _ _ _ _ _ _ _ _ _ _ _ _ Hsim (reflexivity _) Hrun)
    as (Hspec & l1 & v2 & ss2 & Hsim2 & Hp2).
  destruct (sim_client_view _ _ _ _ _ _ _ _ _ Hsim2 Hp2) as [Hbnd Huse].
  split_and!; [done|by eapply spec_run_disjoint|done|]. exists v2. split; [|done].
  by destruct Hsim2 as [[? _ _ _ _] _ _ _ _ _ _].
Qed.
