(* ===== verification/VmemProps.v ===== *)
(** * What the vmem allocator guarantees

    The results about [kernel/lib/vmem.c], each with a run on a concrete arena:
    one 64 KiB span at 0x10000 with a quantum of 4 KiB, created by
    [vmem_bootstrap] and [vmem_init] from the state of the tables at boot. *)

From S2P Require Import Prelude Queue Vmem VmemInv VmemAlloc VmemFree VmemInit VmemRefine.

(** ** The concrete arena *)

Definition demo_boot : M vworld Z := vmem_boot 0 "kernel" 0x10000 0x10000 0x1000 0 0.
Definition demo_world : vworld := state_of demo_boot vworld0.

Lemma vworld0_boot : boot_state vworld0 0.
Proof.
  split; [done| |vm_compute; lia|by eexists].
  intros i Hi. assert (Forall (λ i, is_Some (segs vworld0 !! i)) (seq 0 128)) as H
    by (apply (bool_decide_unpack _); by vm_compute).
  rewrite Forall_forall in H. apply H, elem_of_seq. lia.
Qed.
Lemma demo_span : span_ok 0x10000 0x10000 0x1000.
Proof. split; [split; [by exists 12|lia]|done|done|done]. Qed.

Definition demo_frame : VmemStat := Stat 0 0 0x20000 0 0x20000.
Lemma demo_ready : ∃ v ss, arena_at demo_world 0 v ss ∅ ∧
  sview <$> ss = fresh_layout 0x10000 0x10000 ∧ quantum v = 0x1000 ∧ v_alloc v = None ∧
  v_free v = None ∧ stat v = demo_frame.
Proof.
  assert (wp demo_boot (λ _ w', ∃ v ss, arena_at w' 0 v ss ∅ ∧
    sview <$> ss = fresh_layout 0x10000 0x10000 ∧ quantum v = 0x1000 ∧ v_alloc v = None ∧
    v_free v = None ∧ stat v = demo_frame) vworld0) as [_ H]%wp_state_of; [|done].
  unfold demo_boot, vmem_boot. apply wp_bind_intro.
  eapply wp_mono; [by eapply vmem_bootstrap_spec, vworld0_boot|]. intros _ w0 (Hp & Hlen & Ea).
  eapply wp_mono; [eapply (vmem_init_spec w0 0 _ ∅); [by rewrite Ea|done|lia|apply demo_span]|].
  intros r w1 (-> & v & ss & A & Hview & Hq & Hna & Hnf & Hst & _). by exists v, ss.
Qed.
Lemma demo_pool flag : has_flag (eff_flag flag) VM_BOOTSTRAP = false → pool_ready demo_world flag.
Proof. intros H. unfold pool_ready. rewrite H. right. vm_compute. lia. Qed.


(** A request for [sz] aligned bytes somewhere in the arena. *)
Lemma demo_request v : quantum v = 0x1000 →
  request_ok v 0x3000 (eff_align v 0) 0 VMEM_ADDR_MIN VMEM_ADDR_MAX.
Proof.
  intros E. rewrite eff_align_0 E. split; rewrite ?E; try done.
  split; [by exists 12|done].
Qed.
Lemma demo_layout v ss : quantum v = 0x1000 → sview <$> ss = fresh_layout 0x10000 0x10000 →
  disjoint_layout ss ∧
  (∀ s, s ∈ ss → type s = SEGMENT_FREE → no_wrap (eff_align v 0) s) ∧
  ∃ s a, s ∈ ss ∧ type s = SEGMENT_FREE ∧
         fits 0x3000 (eff_align v 0) 0 VMEM_ADDR_MIN VMEM_ADDR_MAX s a.
Proof.
  intros E Hv. rewrite eff_align_0 E.
  destruct ss as [|[t0 i0 b0 z0] [|[t1 i1 b1 z1] [|]]]; try done. injection Hv as -> -> -> -> -> ->.
  split_and!.
  - intros a. unfold cover. simpl. repeat case_decide; lia.
  - intros s [->|[->|?%elem_of_nil]%elem_of_cons]%elem_of_cons; done.
  - exists (Seg SEGMENT_FREE i1 0x10000 0x10000), 0x10000. split_and!; [set_solver|done|].
    unfold fits, VMEM_ADDR_MIN, VMEM_ADDR_MAX. cbn [base size]. split_and!; try lia; done.
Qed.

(** ** The properties *)

(** C1: An arena created at boot by [vmem_bootstrap] and [vmem_init] implements an
    abstract interval allocator: for every sequence of [vmem_xalloc] and
    [vmem_xfree] calls of clients that release only what they hold, the trace of
    results is a trace of the abstract allocator, so live allocations are pairwise
    disjoint and inside the arena's span, and [stat.in_use] is their total size. *)
Theorem vmem_refines_interval_allocator ca cf w p name b sz quant qcache flag :
  boot_state w p → span_ok b sz quant →
  wp (vmem_boot p name b sz quant qcache flag)
    (λ r w1, r = 0 ∧ ∀ es w2 l,
       client_run ca cf p (b + sz) w1 [] es w2 l →
       spec_run [] es l ∧ pairwise_disjoint l ∧
       (∀ b' z', (b', z') ∈ l → b ≤ b' ∧ b' + z' ≤ b + sz) ∧
       ∃ v2, arenas w2 !! p = Some v2 ∧ in_use (stat v2) = wrap64 (sumZ snd l)) w.
Proof. apply vmem_boot_refines. Qed.

Lemma vmem_refines_interval_allocator_witness :
  wp demo_boot (λ r w1, r = 0 ∧ ∀ es w2 l,
       client_run no_alloc no_free 0 0x20000 w1 [] es w2 l → spec_run [] es l) vworld0.
Proof.
  eapply wp_mono; [apply (vmem_refines_interval_allocator no_alloc no_free vworld0 0 "kernel"
    0x10000 0x10000 0x1000 0 0 vworld0_boot demo_span)|].
  intros r w1 [-> H]. split; [done|]. intros es w2 l Hr. apply (H es w2 l Hr).
Defined.

(** C4: [vmem_xalloc] on an arena that satisfies the invariant returns whenever some
    free segment can hold the request: the result is an aligned address inside one
    free segment and the requested bounds, the layout changes exactly by cutting the
    allocation out of that segment, the statistics move by the size, the invariant
    holds again (tiling, free lists, hash table, tag pool) and neither the tags nor
    the arenas of others are touched. *)
Theorem vmem_xalloc_correct ca fuel w p v ss R sz align phase minaddr maxaddr flag :
  arena_at w p v ss R → pool_ready w flag → (0 < fuel)%nat →
  request_ok v sz (eff_align v align) phase minaddr maxaddr →
  (∀ s, s ∈ ss → type s = SEGMENT_FREE → no_wrap (eff_align v align) s) →
  (∃ s a, s ∈ ss ∧ type s = SEGMENT_FREE ∧
          fits sz (eff_align v align) phase minaddr maxaddr s a) →
  wp (vmem_xalloc ca fuel p sz align phase 0 minaddr maxaddr flag)
    (λ r w', ∃ pre s post v' ss',
       ss = pre ++ s :: post ∧ type s = SEGMENT_FREE ∧
       fits sz (eff_align v align) phase minaddr maxaddr s r ∧
       sview <$> ss' = (sview <$> pre) ++ carve (base s) (size s) r sz ++ (sview <$> post) ∧
       arena_at w' p v' ss' R ∧ same_config v v' ∧
       stat v' = stat (stat_add (- sz) 0 sz v) ∧ frame p R w w') w.
Proof.
  intros A Hr Hf Hreq Hnw Hfit. eapply wp_mono; [by eapply vmem_xalloc_spec|].
  intros r w' (pre & s & post & v' & ss' & H1 & H2 & H3 & H4 & H5 & H6 & H7 & H8 & _). by exists pre, s, post, v', ss'.
Qed.

Lemma vmem_xalloc_correct_witness :
  wp (vmem_xalloc no_alloc 1 0 0x3000 0 0 0 VMEM_ADDR_MIN VMEM_ADDR_MAX 0)
    (λ r w', r mod 0x1000 = 0 ∧ ∃ v' ss', arena_at w' 0 v' ss' ∅) demo_world.
Proof.
  destruct demo_ready as (v & ss & A & Hv & Eq & _ & _ & _).
  destruct (demo_layout v ss Eq Hv) as (_ & Hnw & Hfit).
  eapply wp_mono; [apply (vmem_xalloc_correct no_alloc 1 demo_world 0 v ss ∅ 0x3000 0 0
    VMEM_ADDR_MIN VMEM_ADDR_MAX 0 A (demo_pool 0 eq_refl) Nat.lt_0_1 (demo_request v Eq) Hnw Hfit)|].
  intros r w' (pre & s & post & v' & ss' & _ & _ & (_&_&_&_&Hm) & _ & A' & _). split; [|by exists v', ss'].
  by rewrite eff_align_0 Eq in Hm.
Defined.

(** C30: When no free segment of an arena without an import function can hold the
    request, [vmem_xalloc] does not return NULL as its header comment says: it stops
    the kernel with the assertion "Allocation failed". *)
Theorem vmem_xalloc_exhausted ca fuel w p v ss R sz align phase minaddr maxaddr flag :
  arena_at w p v ss R → pool_ready w flag → v_alloc v = None →
  request_ok v sz (eff_align v align) phase minaddr maxaddr → sz < 2 ^ 64 →
  (∀ s, s ∈ ss → type s = SEGMENT_FREE → no_wrap (eff_align v align) s) →
  (∀ s a, s ∈ ss → type s = SEGMENT_FREE →
          ¬ fits sz (eff_align v align) phase minaddr maxaddr s a) →
  vmem_xalloc ca (S fuel) p sz align phase 0 minaddr maxaddr flag w
  = Panic (AssertFail "Allocation failed").
Proof. apply xalloc_exhausted. Qed.

Lemma vmem_xalloc_exhausted_witness :
  vmem_xalloc no_alloc 1 0 0x20000 0 0 0 VMEM_ADDR_MIN VMEM_ADDR_MAX 0 demo_world
  = Panic (AssertFail "Allocation failed").
Proof.
  destruct demo_ready as (v & ss & A & Hv & Eq & Hna & _ & _).
  destruct (demo_layout v ss Eq Hv) as (_ & Hnw & _).
  apply (vmem_xalloc_exhausted no_alloc 0 demo_world 0 v ss ∅ 0x20000 0 0 VMEM_ADDR_MIN VMEM_ADDR_MAX 0
    A (demo_pool 0 eq_refl) Hna); [|done|done|].
  - rewrite eff_align_0 Eq. split; rewrite ?Eq; try done. split; [by exists 12|done].
  - destruct ss as [|[t0 i0 b0 z0] [|[t1 i1 b1 z1] [|]]]; try done. injection Hv as -> -> -> -> -> ->.
    intros s a Hs _ (?&?&?&_). apply elem_of_cons in Hs as [->|[->|?%elem_of_nil]%elem_of_cons];
      [cbn [base size] in *; lia..|done].
Defined.

(** C6: Releasing a live allocation with its size always returns: the segment is
    found through the hash table, merged with whichever neighbours are free (the
    layout becomes the reference [release] of the old one, in which no two free
    segments touch), the statistics move back and the invariant holds again. *)
Theorem vmem_xfree_correct cf w p v R pre s post addr sz :
  arena_at w p v (pre ++ s :: post) R →
  type s = SEGMENT_ALLOCATED → base s = addr → size s = sz →
  (∀ s', s' ∈ pre ++ post → type s' = SEGMENT_ALLOCATED → base s' ≠ addr) →
  (v_free v = None ∨ ∀ s', s' ∈ pre → is_span s' → imported s' = false) →
  wp (vmem_xfree cf p addr sz)
    (λ _ w', ∃ v' ss',
       sview <$> ss' = release (sview <$> pre) addr sz (sview <$> post) ∧
       arena_at w' p v' ss' R ∧ same_config v v' ∧
       stat v' = stat (stat_add sz 0 (- sz) v) ∧ frame p R w w') w.
Proof.
  intros A Ht Hb Hz Hu Hk. eapply wp_mono; [by eapply vmem_xfree_spec|].
  intros r w' (v' & ss' & H1 & H2 & H3 & H4 & H5 & _). by exists v', ss'.
Qed.

(** The arena after one allocation of 0x3000 at 0x10000. *)
Definition demo_world1 : vworld :=
  state_of (vmem_xalloc no_alloc 1 0 0x3000 0 0 0 VMEM_ADDR_MIN VMEM_ADDR_MAX 0) demo_world.
Lemma demo_allocated : ∃ v ss, arena_at demo_world1 0 v ss ∅ ∧ v_free v = None ∧
  sview <$> ss = [(SEGMENT_SPAN, 0x10000, 0x10000); (SEGMENT_ALLOCATED, 0x10000, 0x3000);
                  (SEGMENT_FREE, 0x13000, 0xd000)].
Proof.
  destruct demo_ready as (v & ss & A & Hv & Eq & _ & Hf & _).
  destruct (demo_layout v ss Eq Hv) as (_ & Hnw & Hfit).
  pose proof (vmem_xalloc_spec no_alloc 1 demo_world 0 v ss ∅ 0x3000 0 0
    VMEM_ADDR_MIN VMEM_ADDR_MAX 0 A (demo_pool 0 eq_refl) Nat.lt_0_1 (demo_request v Eq) Hnw Hfit) as H.
  apply (wp_state_eq _ _ _ 0x10000) in H; [|by vm_compute].
  destruct H as (pre & s & post & v' & ss' & -> & Ht & _ & Hv' & A' & (_&_&Hc&_&_) & _ & _).
  exists v', ss'. split_and!; [done|congruence|]. rewrite Hv'.
  rewrite fmap_app in Hv. unfold fresh_layout in Hv. destruct pre as [|x [|y pre]].
  - injection Hv as Hs _. congruence.
  - injection Hv as Hx1 Hx2 Hx3 Hs Hb Hz Hp. apply fmap_nil_inv in Hp as ->.
    cbn [fmap list_fmap]. by rewrite {1}/sview Hx1 Hx2 Hx3 Hb Hz.
  - injection Hv as _ _ _ _ _ _ Hp. by destruct pre.
Qed.

Lemma view3 ss a b c : sview <$> ss = [a; b; c] →
  ∃ x y z, ss = [x; y; z] ∧ sview x = a ∧ sview y = b ∧ sview z = c.
Proof. destruct ss as [|x [|y [|z [|]]]]; try done. intros [= <- <- <-]. by exists x, y, z. Qed.

Lemma vmem_xfree_correct_witness :
  wp (vmem_xfree no_free 0 0x10000 0x3000)
    (λ _ w', ∃ v' ss', arena_at w' 0 v' ss' ∅ ∧ sview <$> ss' = fresh_layout 0x10000 0x10000)
    demo_world1.
Proof.
  destruct demo_allocated as (v & ss & A & Hf & Hv).
  apply view3 in Hv as (s0 & s1 & s2 & -> & H0 & H1 & H2). injection H1 as Ht Hb Hz.
  eapply wp_mono; [apply (vmem_xfree_correct no_free demo_world1 0 v ∅ [s0] s1 [s2] 0x10000 0x3000
    A Ht Hb Hz)|].
  - injection H0 as H0 _ _. injection H2 as H2 _ _. clear A.
    intros s [->|[->|?%elem_of_nil]%elem_of_cons]%elem_of_cons Hty; congruence.
  - by left.
  - intros _ w' (v' & ss' & Hv' & A' & _). exists v', ss'. split; [done|]. rewrite Hv' /= H0 H2. done.
Defined.

(** C29: Allocating and at once releasing what was allocated restores the layout of the
    arena segment for segment, whatever the neighbours were: [release] undoes
    [carve]. *)
Theorem vmem_alloc_free_restores ca cf fuel w p v ss R sz align phase minaddr maxaddr flag :
  arena_at w p v ss R → pool_ready w flag → (0 < fuel)%nat → v_free v = None →
  request_ok v sz (eff_align v align) phase minaddr maxaddr →
  disjoint_layout ss → (∀ s, s ∈ ss → type s = SEGMENT_FREE → no_wrap (eff_align v align) s) →
  (∃ s a, s ∈ ss ∧ type s = SEGMENT_FREE ∧
          fits sz (eff_align v align) phase minaddr maxaddr s a) →
  wp (alloc_then_free ca cf fuel p sz align phase minaddr maxaddr flag)
    (λ _ w', ∃ v' ss', arena_at w' p v' ss' R ∧ sview <$> ss' = sview <$> ss ∧ frame p R w w') w.
Proof. apply alloc_free_roundtrip. Qed.

Lemma vmem_alloc_free_restores_witness :
  wp (alloc_then_free no_alloc no_free 1 0 0x3000 0 0 VMEM_ADDR_MIN VMEM_ADDR_MAX 0)
    (λ _ w', ∃ v' ss', arena_at w' 0 v' ss' ∅ ∧ sview <$> ss' = fresh_layout 0x10000 0x10000) demo_world.
Proof.
  destruct demo_ready as (v & ss & A & Hv & Eq & _ & Hf & _).
  destruct (demo_layout v ss Eq Hv) as (Hd & Hnw & Hfit).
  eapply wp_mono; [apply (vmem_alloc_free_restores no_alloc no_free 1 demo_world 0 v ss ∅ 0x3000 0 0
    VMEM_ADDR_MIN VMEM_ADDR_MAX 0 A (demo_pool 0 eq_refl) Nat.lt_0_1 Hf (demo_request v Eq) Hd Hnw Hfit)|].
  intros _ w' (v' & ss' & A' & Hv' & _). exists v', ss'. by rewrite Hv'.
Defined.

(** [vmem_init] of a self-contained arena returns 0 and establishes the invariant
    with one span that is one free segment; its statistics count the span twice,
    once in [vmem_init] and once in [vmem_add], and [stat.total] starts from
    whatever the caller's memory held. *)
Theorem vmem_init_correct w p old R name b sz quant afunc ffunc qcache flag :
  arenas w !! p = Some old → pool_ok w R → (2 ≤ length (free_segs w))%nat → span_ok b sz quant →
  wp (vmem_init p name b sz quant afunc ffunc None qcache flag)
    (λ r w', r = 0 ∧ ∃ v' ss',
       arena_at w' p v' ss' R ∧ sview <$> ss' = fresh_layout b sz ∧
       quantum v' = quant ∧ v_alloc v' = afunc ∧ v_free v' = ffunc ∧
       stat v' = Stat 0 0 (wrap64 (wrap64 (total (stat old) + sz) + sz))
                   (st_alloc (stat old)) (wrap64 (sz + sz)) ∧
       frame p R w w') w.
Proof. apply vmem_init_spec. Qed.

Lemma vmem_init_correct_witness :
  wp demo_boot (λ r w', r = 0 ∧ ∃ v', arenas w' !! 0%nat = Some v' ∧ st_free (stat v') = 0x20000 ∧
    size <$> filter (λ s, type s = SEGMENT_FREE) (omap (λ i, segs w' !! i) (segqueue v')) = [0x10000]) vworld0.
Proof.
  unfold demo_boot, vmem_boot. apply wp_bind_intro.
  eapply wp_mono; [by eapply vmem_bootstrap_spec, vworld0_boot|]. intros _ w0 (Hp & Hlen & Ea).
  eapply wp_mono; [eapply (vmem_init_correct w0 0 _ ∅); [by rewrite Ea|done|lia|apply demo_span]|].
  intros r w1 (-> & v & ss & A & Hview & Hq & Hna & Hnf & Hst & _). split; [done|].
  exists v. destruct A as [Av _ [_ At _ _ _ _] _ _]. split_and!; [done|by rewrite Hst|].
  assert (omap (λ i, segs w1 !! i) (segqueue v) = ss) as ->.
  { clear -At. induction At as [|i s q ss Hi _ IH]; [done|]. cbn [omap list_omap]. rewrite Hi. f_equal. exact IH. }
  destruct ss as [|[t0 i0 b0 z0] [|[t1 i1 b1 z1] [|]]]; try done. by injection Hview as -> -> -> -> -> ->.
Defined.

(** A request that is not a multiple of the quantum can be given a segment larger
    than it asked for, and releasing it with the size that was requested then trips
    the size assertion of [vmem_xfree]: 0xf800 bytes of the 64 KiB arena leave less
    than a quantum, so the whole span is handed out. *)
Theorem vmem_unrounded_release_asserts :
  alloc_then_free no_alloc no_free 1 0 0xf800 0 0 VMEM_ADDR_MIN VMEM_ADDR_MAX 0 demo_world
  = Panic (AssertFail "seg->size == size").
Proof. by vm_compute. Qed.

(** With a quantum of 1, a request that leaves a single byte before it files that
    byte on free list -1: [freelist_for_size(1)] computes the index
    [GET_LIST(1) - 1], which is outside the array. *)
Theorem vmem_one_byte_fragment_out_of_bounds :
  (vmem_boot 0 "ids" 0x10000 0x10000 1 0 0;;
   vmem_xalloc no_alloc 1 0 0x2 0 0 0 0x10001 VMEM_ADDR_MAX 0) vworld0
  = Panic (OutOfBounds "freelist").
Proof. by vm_compute. Qed.
