(* ===== verification/Core.v ===== *)
(** * The state of one CPU and the kernel objects it works on

    The data shared by [kernel/irq], [kernel/sched], [kernel/obj], [kernel/lib]
    (events, mutexes, timers): [cpudata_t], [scheduler_t], [thread_t], [dpc_t],
    [obj_header_t], [wait_block_t], [timer_t] and [mutex_t], kept in one store per
    type and named by the identity of the C object.  An [event_t] or [timer_t]
    starts with its [obj_header_t], so both share one identity.  The flags of all
    spin locks are the set of locks that are held.

    The model is of one CPU: between two steps of a routine no other CPU and no
    hardware interrupt runs. *)

From S2P Require Import Prelude.

(** ** Interrupt levels and constants *)
Definition IRQL_PASSIVE : Z := 0.
Definition IRQL_APC : Z := 1.
Definition IRQL_DISPATCH : Z := 2.
Definition IRQL_DEVICE : Z := 3.
Definition IRQL_CLOCK : Z := 13.
Definition IRQL_IPI : Z := 14.
Definition IRQL_HIGH : Z := 15.

Definition PRIORITY_COUNT : nat := 16.

Definition STATUS_OK : Z := 0.
Definition STATUS_TIMEOUT : Z := 1.
Definition STATUS_WAITING : Z := 2.
Definition STATUS_RANGE_WAIT : Z := 0x1000.

Definition kObjTypeAnon : Z := 0.
Definition kObjTypeEvent : Z := 1.
Definition kObjTypeEventNotif : Z := 2.
Definition kObjTypeTimer : Z := 3.
Definition kObjTypeMutex : Z := 4.

Definition kWaitblockDequeued : Z := 1.
Definition kWaitblockUnwaited : Z := 2.

Definition UINT64_MAX : Z := 2 ^ 64 - 1.
Definition US2NS (x : Z) : Z := x * 1000.
Definition MS2NS (x : Z) : Z := US2NS (x * 1000).

(** Records of the model have eta as a conversion, so that writing back what was read
    is the identity. *)
#[local] Set Primitive Projections.

(** ** Kernel objects *)
Inductive thread_state :=
| kThreadStateNull | kThreadStateReady | kThreadStateRunning
| kThreadStateWaiting | kThreadStateDone | kThreadStateStandby.
#[global] Instance thread_state_eq_dec : EqDecision thread_state.
Proof. solve_decision. Defined.

(** The functions a DPC can hold: the kernel's own, and those of its clients. *)
Inductive dpc_fn :=
| time_engine_progress_fn
| preemption_dpc_fn
| done_queue_dpc_fn
| wait_timer_exp_fn
| client_fn (n : nat).

Record dpc := Dpc {
  d_function : option dpc_fn;
  context1 : option nat;
  context2 : option nat;
  enqueued : bool;
}.

Record obj_header := ObjHeader {
  refcnt : Z;
  ops : option nat;
  o_type : Z;
  signalcount : Z;
  waitercount : Z;
  waitblock_list : list nat;
}.

Record wait_block := WaitBlock {
  wb_flags : Z;
  wb_object : nat;
  wb_thread : nat;
}.

(** The functions a thread can start with. *)
Inductive start_fn :=
| kickstart_kmain_fn
| idle_thread_fn_fn
| kmain_threaded_fn
| printsmth_fn
| t_mutex_fn
| T_Particle_fn
| T_Explodeable_fn
| client_start_fn (n : nat).

(** [start] is what [port_initialize_context] leaves in [r12], [r13] and [r14] of the
    thread's context. *)
Record thread := Thread {
  wait_timer : nat;
  wait_count : Z;
  wait_status : Z;
  wait_block_array : option nat;
  last_processor : Z;
  timeslice : Z;
  state : thread_state;
  priority : nat;
  start : option (start_fn * option nat * option nat);
  thread_name : option string;   (* [name], NULL until somebody sets it *)
}.

Inductive timer_state_t := kTimerUnused | kTimerFired | kTimerQueued | kTimerCanceled.
#[global] Instance timer_state_eq_dec : EqDecision timer_state_t.
Proof. solve_decision. Defined.

Record timer := Timer {
  t_dpc : option nat;
  deadline : Z;
  timer_state : timer_state_t;
  engine : bool;             (* points at this CPU's timer engine, or NULL *)
}.

Record mutex := Mutex {
  m_event : nat;
  owner : option nat;
}.

(** ** Spin locks *)
Inductive klock :=
| sched_lock | dpc_lock | done_lock | engine_lock | irq_lock
| thread_lock (t : nat) | object_lock (o : nat).
#[global] Instance klock_eq_dec : EqDecision klock.
Proof. solve_decision. Defined.
#[global] Instance klock_countable : Countable klock.
Proof.
  refine (inj_countable'
    (λ l, match l with
          | sched_lock => (0, 0)%nat | dpc_lock => (1, 0)%nat | done_lock => (2, 0)%nat
          | engine_lock => (3, 0)%nat | thread_lock t => (4, t)%nat | object_lock o => (5, o)%nat
          | irq_lock => (6, 0)%nat
          end)
    (λ p, match p with
          | (0, _)%nat => sched_lock | (1, _)%nat => dpc_lock | (2, _)%nat => done_lock
          | (3, _)%nat => engine_lock | (4, t)%nat => thread_lock t | (5, o)%nat => object_lock o
          | _ => irq_lock
          end) _).
  by intros [].
Defined.

(** ** The world *)
Record cpudata := Cpu {
  irql : Z;
  ints : bool;
  softint_pending : Z;
  dpcq : list nat;
  dpc_count : Z;
  thread_current : option nat;
  thread_next : option nat;
  idle_thread : nat;
  cpu_id : Z;
  timer_update : nat;
  next_deadline : Z;
}.

Record scheduler := Sched {
  run_queues : list (list nat);
  run_mask : Z;
  preemption_dpc : nat;
  preemption_timer : nat;
}.

(** [H] is the type of the timer heap; [armed] are the deadlines given to the
    engine's [arm] function, newest first; [reads] counts the readings of the
    clock; [switches] are the context switches, newest first. *)
Record kworld (H : Type) := KWorld {
  kcpu : cpudata;
  ksched : scheduler;
  locks : gset klock;
  dpcs : gmap nat dpc;
  objs : gmap nat obj_header;
  threads : gmap nat thread;
  wblocks : gmap nat wait_block;
  timers : gmap nat timer;
  mutexes : gmap nat mutex;
  timerlist : H;
  armed : list Z;
  reads : nat;
  done_queue : list nat;
  switches : list (nat * nat);
}.
Arguments KWorld {H} _ _ _ _ _ _ _ _ _ _ _ _ _ _.
Arguments kcpu {H} _.
Arguments ksched {H} _.
Arguments locks {H} _.
Arguments dpcs {H} _.
Arguments objs {H} _.
Arguments threads {H} _.
Arguments wblocks {H} _.
Arguments timers {H} _.
Arguments mutexes {H} _.
Arguments timerlist {H} _.
Arguments armed {H} _.
Arguments reads {H} _.
Arguments done_queue {H} _.
Arguments switches {H} _.

(** ** Field updates *)
Definition set_irql (x : Z) (c : cpudata) := Cpu x (ints c) (softint_pending c) (dpcq c) (dpc_count c)
  (thread_current c) (thread_next c) (idle_thread c) (cpu_id c) (timer_update c) (next_deadline c).
Definition set_ints (x : bool) (c : cpudata) := Cpu (irql c) x (softint_pending c) (dpcq c) (dpc_count c)
  (thread_current c) (thread_next c) (idle_thread c) (cpu_id c) (timer_update c) (next_deadline c).
Definition set_pending (x : Z) (c : cpudata) := Cpu (irql c) (ints c) x (dpcq c) (dpc_count c)
  (thread_current c) (thread_next c) (idle_thread c) (cpu_id c) (timer_update c) (next_deadline c).
Definition set_dpcq (q : list nat) (n : Z) (c : cpudata) := Cpu (irql c) (ints c) (softint_pending c) q n
  (thread_current c) (thread_next c) (idle_thread c) (cpu_id c) (timer_update c) (next_deadline c).
Definition set_current (t : option nat) (c : cpudata) := Cpu (irql c) (ints c) (softint_pending c) (dpcq c)
  (dpc_count c) t (thread_next c) (idle_thread c) (cpu_id c) (timer_update c) (next_deadline c).
Definition set_next (t : option nat) (c : cpudata) := Cpu (irql c) (ints c) (softint_pending c) (dpcq c)
  (dpc_count c) (thread_current c) t (idle_thread c) (cpu_id c) (timer_update c) (next_deadline c).
Definition set_next_deadline (d : Z) (c : cpudata) := Cpu (irql c) (ints c) (softint_pending c) (dpcq c)
  (dpc_count c) (thread_current c) (thread_next c) (idle_thread c) (cpu_id c) (timer_update c) d.

Definition set_queues (q : list (list nat)) (m : Z) (s : scheduler) :=
  Sched q m (preemption_dpc s) (preemption_timer s).

Definition set_enqueued (b : bool) (d : dpc) := Dpc (d_function d) (context1 d) (context2 d) b.
Definition set_contexts (a b : option nat) (d : dpc) := Dpc (d_function d) a b (enqueued d).

Definition set_signal (n : Z) (o : obj_header) :=
  ObjHeader (refcnt o) (ops o) (o_type o) n (waitercount o) (waitblock_list o).
Definition set_refcnt (n : Z) (o : obj_header) :=
  ObjHeader n (ops o) (o_type o) (signalcount o) (waitercount o) (waitblock_list o).
Definition set_waiters (n : Z) (l : list nat) (o : obj_header) :=
  ObjHeader (refcnt o) (ops o) (o_type o) (signalcount o) n l.

Definition set_wb_flags (f : Z) (b : wait_block) := WaitBlock f (wb_object b) (wb_thread b).

Definition set_state (s : thread_state) (t : thread) := Thread (wait_timer t) (wait_count t)
  (wait_status t) (wait_block_array t) (last_processor t) (timeslice t) s (priority t) (start t) (thread_name t).
Definition set_wait (n st : Z) (wb : option nat) (t : thread) := Thread (wait_timer t) n st wb
  (last_processor t) (timeslice t) (state t) (priority t) (start t) (thread_name t).
Definition set_wait_status (st : Z) (t : thread) := Thread (wait_timer t) (wait_count t) st
  (wait_block_array t) (last_processor t) (timeslice t) (state t) (priority t) (start t) (thread_name t).
Definition set_last_processor (c : Z) (t : thread) := Thread (wait_timer t) (wait_count t)
  (wait_status t) (wait_block_array t) c (timeslice t) (state t) (priority t) (start t) (thread_name t).

Definition set_name (n : option string) (t : thread) := Thread (wait_timer t) (wait_count t)
  (wait_status t) (wait_block_array t) (last_processor t) (timeslice t) (state t) (priority t) (start t) n.

Definition set_timer (d : option nat) (dl : Z) (t : timer) := Timer d dl (timer_state t) (engine t).
Definition set_timer_state (s : timer_state_t) (t : timer) := Timer (t_dpc t) (deadline t) s (engine t).
Definition set_engine (b : bool) (t : timer) := Timer (t_dpc t) (deadline t) (timer_state t) b.

Definition set_owner (o : option nat) (m : mutex) := Mutex (m_event m) o.

Section world.
Context {H : Type}.
Implicit Types w : kworld H.

Definition k_cpu (c : cpudata) w : kworld H := KWorld c (ksched w) (locks w) (dpcs w) (objs w) (threads w)
  (wblocks w) (timers w) (mutexes w) (timerlist w) (armed w) (reads w) (done_queue w) (switches w).
Definition k_sched (s : scheduler) w : kworld H := KWorld (kcpu w) s (locks w) (dpcs w) (objs w) (threads w)
  (wblocks w) (timers w) (mutexes w) (timerlist w) (armed w) (reads w) (done_queue w) (switches w).
Definition k_locks (l : gset klock) w : kworld H := KWorld (kcpu w) (ksched w) l (dpcs w) (objs w) (threads w)
  (wblocks w) (timers w) (mutexes w) (timerlist w) (armed w) (reads w) (done_queue w) (switches w).
Definition k_dpcs (m : gmap nat dpc) w : kworld H := KWorld (kcpu w) (ksched w) (locks w) m (objs w) (threads w)
  (wblocks w) (timers w) (mutexes w) (timerlist w) (armed w) (reads w) (done_queue w) (switches w).
Definition k_objs (m : gmap nat obj_header) w : kworld H := KWorld (kcpu w) (ksched w) (locks w) (dpcs w) m
  (threads w) (wblocks w) (timers w) (mutexes w) (timerlist w) (armed w) (reads w) (done_queue w) (switches w).
Definition k_threads (m : gmap nat thread) w : kworld H := KWorld (kcpu w) (ksched w) (locks w) (dpcs w) (objs w)
  m (wblocks w) (timers w) (mutexes w) (timerlist w) (armed w) (reads w) (done_queue w) (switches w).
Definition k_wblocks (m : gmap nat wait_block) w : kworld H := KWorld (kcpu w) (ksched w) (locks w) (dpcs w)
  (objs w) (threads w) m (timers w) (mutexes w) (timerlist w) (armed w) (reads w) (done_queue w) (switches w).
Definition k_timers (m : gmap nat timer) w : kworld H := KWorld (kcpu w) (ksched w) (locks w) (dpcs w) (objs w)
  (threads w) (wblocks w) m (mutexes w) (timerlist w) (armed w) (reads w) (done_queue w) (switches w).
Definition k_mutexes (m : gmap nat mutex) w : kworld H := KWorld (kcpu w) (ksched w) (locks w) (dpcs w) (objs w)
  (threads w) (wblocks w) (timers w) m (timerlist w) (armed w) (reads w) (done_queue w) (switches w).
Definition k_heap (h : H) w : kworld H := KWorld (kcpu w) (ksched w) (locks w) (dpcs w) (objs w)
  (threads w) (wblocks w) (timers w) (mutexes w) h (armed w) (reads w) (done_queue w) (switches w).
Definition k_armed (l : list Z) w : kworld H := KWorld (kcpu w) (ksched w) (locks w) (dpcs w) (objs w)
  (threads w) (wblocks w) (timers w) (mutexes w) (timerlist w) l (reads w) (done_queue w) (switches w).
Definition k_reads (n : nat) w : kworld H := KWorld (kcpu w) (ksched w) (locks w) (dpcs w) (objs w)
  (threads w) (wblocks w) (timers w) (mutexes w) (timerlist w) (armed w) n (done_queue w) (switches w).
Definition k_done (l : list nat) w : kworld H := KWorld (kcpu w) (ksched w) (locks w) (dpcs w) (objs w)
  (threads w) (wblocks w) (timers w) (mutexes w) (timerlist w) (armed w) (reads w) l (switches w).
Definition k_switches (l : list (nat * nat)) w : kworld H := KWorld (kcpu w) (ksched w) (locks w) (dpcs w)
  (objs w) (threads w) (wblocks w) (timers w) (mutexes w) (timerlist w) (armed w) (reads w) (done_queue w) l.

Definition upd_cpu (f : cpudata → cpudata) : M (kworld H) unit := modify (λ w, k_cpu (f (kcpu w)) w).
Definition upd_sched (f : scheduler → scheduler) : M (kworld H) unit := modify (λ w, k_sched (f (ksched w)) w).

(** ** Typed stores *)
Record store (A : Type) := Store {
  s_name : string;
  s_get : kworld H → gmap nat A;
  s_put : gmap nat A → kworld H → kworld H;
}.
Arguments Store {A} _ _ _.
Arguments s_name {A} _.
Arguments s_get {A} _ _.
Arguments s_put {A} _ _ _.

Definition Dpcs := Store "dpc" dpcs k_dpcs.
Definition Objs := Store "object" objs k_objs.
Definition Threads := Store "thread" threads k_threads.
Definition Wblocks := Store "wait_block" wblocks k_wblocks.
Definition Timers := Store "timer" timers k_timers.
Definition Mutexes := Store "mutex" mutexes k_mutexes.

Definition ld {A} (s : store A) (i : nat) : M (kworld H) A :=
  w ← get; deref (s_name s) (s_get s w !! i).
Definition upd {A} (s : store A) (i : nat) (f : A → A) : M (kworld H) unit :=
  w ← get; x ← deref (s_name s) (s_get s w !! i); put (s_put s (<[i := f x]> (s_get s w)) w).
(** Writing a whole object, as its initialisers do. *)
Definition st {A} (s : store A) (i : nat) (x : A) : M (kworld H) unit :=
  w ← get; put (s_put s (<[i := x]> (s_get s w)) w).

Lemma wp_ld {A} (s : store A) i x (Q : A → kworld H → Prop) w :
  s_get s w !! i = Some x → Q x w → wp (ld s i) Q w.
Proof. intros Hx HQ. unfold ld. wp_run. eauto. Qed.
Lemma wp_upd {A} (s : store A) i x f (Q : unit → kworld H → Prop) w :
  s_get s w !! i = Some x → Q tt (s_put s (<[i := f x]> (s_get s w)) w) → wp (upd s i f) Q w.
Proof. intros Hx HQ. unfold upd. wp_run. eexists; split; [done|]. by wp_run. Qed.
Lemma wp_st {A} (s : store A) i x (Q : unit → kworld H → Prop) w :
  Q tt (s_put s (<[i := x]> (s_get s w)) w) → wp (st s i x) Q w.
Proof. intros HQ. unfold st. by wp_run. Qed.

(** ** Interrupt state and levels (the port's [cr8] and [rflags]) *)
Definition irql_current : M (kworld H) Z := gets (λ w, irql (kcpu w)).
Definition irql_set (level : Z) : M (kworld H) unit := upd_cpu (set_irql level).
Definition port_set_ints (b : bool) : M (kworld H) bool :=
  old ← gets (λ w, ints (kcpu w)); upd_cpu (set_ints b);; mret old.
Definition port_enable_ints : M (kworld H) unit := upd_cpu (set_ints true).
Definition port_disable_ints : M (kworld H) unit := upd_cpu (set_ints false).

Definition irql_raise (level : Z) : M (kworld H) Z :=
  old ← irql_current;
  assertM (bool_decide (level >= old)) "level >= old";;
  irql_set level;;
  mret old.

(** ** Spin locks: [spinlock_acquire] of a lock that is held gives up with the
    assertion ["deadlock?"] after ten million tries, since nobody else runs. *)
Definition spinlock_held (l : klock) : M (kworld H) bool := gets (λ w, bool_decide (l ∈ locks w)).
Definition spinlock_release (l : klock) : M (kworld H) unit := modify (λ w, k_locks (locks w ∖ {[l]}) w).
Definition SPINLOCK_INIT (l : klock) : M (kworld H) unit := modify (λ w, k_locks (locks w ∖ {[l]}) w).
Definition spinlock_acquire (l : klock) : M (kworld H) unit :=
  w ← get;
  if decide (l ∈ locks w) then fail (Deadlock "deadlock?")
  else put (k_locks ({[l]} ∪ locks w) w).
Definition spinlock_try_lock (l : klock) : M (kworld H) bool :=
  w ← get;
  if decide (l ∈ locks w) then mret false else put (k_locks ({[l]} ∪ locks w) w);; mret true.
Definition spinlock_acquire_raise (l : klock) : M (kworld H) Z :=
  old ← irql_raise IRQL_DISPATCH;
  spinlock_acquire l;;
  mret old.
Definition spinlock_acquire_intr (l : klock) : M (kworld H) bool :=
  old ← port_set_ints false;
  spinlock_acquire l;;
  mret old.
Definition spinlock_release_intr (l : klock) (old : bool) : M (kworld H) unit :=
  spinlock_release l;;
  port_set_ints old;;
  mret tt.
(** [-1] stands for failure, as in the source; the old state is the flag's value. *)
Definition spinlock_try_lock_intr (l : klock) : M (kworld H) (option bool) :=
  old ← port_set_ints false;
  res ← spinlock_try_lock l;
  if (res : bool) then mret (Some old) else port_set_ints old;; mret None.

(** ** Software interrupts *)
Definition PENDING (level : Z) : Z := Z.shiftl 1 (level - 1).
Definition softint_issue (level : Z) : M (kworld H) unit :=
  upd_cpu (λ c, set_pending (Z.lor (softint_pending c) (PENDING level)) c).
Definition softint_ack (level : Z) : M (kworld H) unit :=
  upd_cpu (λ c, set_pending (Z.land (softint_pending c) (Z.lnot (PENDING level))) c).

Definition curthread : M (kworld H) (option nat) := gets (λ w, thread_current (kcpu w)).
End world.

(** [store]'s section variable becomes an argument. *)
Arguments Store {H A} _ _ _.
Arguments s_name {H A} _.
Arguments s_get {H A} _ _.
Arguments s_put {H A} _ _ _.
