(* ===== verification/Dpc.v ===== *)
(** * Deferred procedure calls: [kernel/irq/dpc.c]

    The per-CPU queue of DPCs, the routine that empties it, and the order in which
    the queued functions run. *)

From S2P Require Import Prelude Queue Core.

(** ** Symbolic execution of the kernel model *)
Ltac k_simpl := cbn [kcpu ksched locks dpcs objs threads wblocks timers mutexes timerlist armed reads
  done_queue switches k_cpu k_sched k_locks k_dpcs k_objs k_threads k_wblocks k_timers k_mutexes k_heap
  k_armed k_reads k_done k_switches irql ints softint_pending dpcq dpc_count thread_current thread_next
  idle_thread cpu_id timer_update next_deadline set_irql set_ints set_pending set_dpcq set_current set_next
  set_next_deadline run_queues run_mask preemption_dpc preemption_timer set_queues
  s_name s_get s_put Dpcs Objs Threads Wblocks Timers Mutexes fst snd].
Tactic Notation "k_simpl" "in" hyp(E) := cbn [kcpu ksched locks dpcs objs threads wblocks timers mutexes
  timerlist armed reads
  done_queue switches k_cpu k_sched k_locks k_dpcs k_objs k_threads k_wblocks k_timers k_mutexes k_heap
  k_armed k_reads k_done k_switches irql ints softint_pending dpcq dpc_count thread_current thread_next
  idle_thread cpu_id timer_update next_deadline set_irql set_ints set_pending set_dpcq set_current set_next
  set_next_deadline run_queues run_mask preemption_dpc preemption_timer set_queues
  s_name s_get s_put Dpcs Objs Threads Wblocks Timers Mutexes fst snd] in E.

Lemma wp_bind_i {S A B} (m : M S A) (f : A → M S B) Q s :
  wp m (λ a s', wp (f a) Q s') s → wp (m ≫= f) Q s.
Proof. apply wp_bind. Qed.
Lemma wp_assert_i {S} b what Q (s : S) : b = true → Q tt s → wp (assertM b what) Q s.
Proof. rewrite wp_assert. auto. Qed.
Lemma wp_deref_i {S A} what (o : option A) a Q (s : S) : o = Some a → Q a s → wp (deref what o) Q s.
Proof. rewrite wp_deref. eauto. Qed.
Lemma wp_acquire {H} l (Q : unit → kworld H → Prop) w :
  l ∉ locks w → Q tt (k_locks ({[l]} ∪ locks w) w) → wp (spinlock_acquire l) Q w.
Proof. intros Hl HQ. unfold spinlock_acquire. wp_run. rewrite decide_False //. Qed.

Ltac k_lookup := k_simpl; simplify_map_eq; first [done | reflexivity].
Ltac k_fresh := k_simpl; first [assumption | done | set_solver].

(** One step of a kernel routine. *)
Ltac k_step :=
  match goal with
  | |- wp (_ ≫= _) _ _ => apply wp_bind_i
  | |- wp (mret _) _ _ => apply wp_ret; k_simpl
  | |- wp get _ _ => apply wp_get; k_simpl
  | |- wp (gets _) _ _ => apply wp_gets; k_simpl
  | |- wp (put _) _ _ => apply wp_put; k_simpl
  | |- wp (modify _) _ _ => apply wp_modify; k_simpl
  | |- wp (upd_cpu _) _ _ => unfold upd_cpu; apply wp_modify; k_simpl
  | |- wp (upd_sched _) _ _ => unfold upd_sched; apply wp_modify; k_simpl
  | |- wp (ld _ _) _ _ => eapply wp_ld; [k_lookup|k_simpl]
  | |- wp (upd _ _ _) _ _ => eapply wp_upd; [k_lookup|k_simpl]
  | |- wp (st _ _ _) _ _ => apply wp_st; k_simpl
  | |- wp (spinlock_acquire _) _ _ => apply wp_acquire; [k_fresh|k_simpl]
  | |- wp (spinlock_release _) _ _ => unfold spinlock_release; apply wp_modify; k_simpl
  | |- wp irql_current _ _ => unfold irql_current; apply wp_gets; k_simpl
  | |- wp (irql_set _) _ _ => unfold irql_set, upd_cpu; apply wp_modify; k_simpl
  | |- wp curthread _ _ => unfold curthread; apply wp_gets; k_simpl
  | |- wp (port_set_ints _) _ _ => unfold port_set_ints
  | |- wp (softint_issue _) _ _ => unfold softint_issue
  | |- wp (softint_ack _) _ _ => unfold softint_ack
  | |- wp (spinlock_held _) _ _ => unfold spinlock_held
  end.

Lemma release_acquired (l : klock) (L : gset klock) : l ∉ L → ({[l]} ∪ L) ∖ {[l]} = L.
Proof. set_solver. Qed.

(** ** The queue *)
Section dpc.
Context {H : Type}.
Notation K := (kworld H).

Definition acquire_dpc_lock : M K bool :=
  oldstate ← port_set_ints false;
  spinlock_acquire dpc_lock;;
  mret oldstate.
Definition release_dpc_lock (old : bool) : M K unit :=
  spinlock_release dpc_lock;;
  port_set_ints old;;
  mret tt.

Definition dpc_init (d : nat) (function : dpc_fn) : M K unit :=
  st Dpcs d (Dpc (Some function) None None false).

Definition dpc_enqueue (d : nat) (ctx1 ctx2 : option nat) : M K unit :=
  oldstate ← acquire_dpc_lock;
  x ← ld Dpcs d;
  if enqueued x then release_dpc_lock oldstate
  else
    upd Dpcs d (set_contexts ctx1 ctx2);;
    upd_cpu (λ c, set_dpcq (dpcq c) (wrap64 (dpc_count c + 1)) c);;
    upd_cpu (λ c, set_dpcq (dpcq c ++ [d]) (dpc_count c) c);;
    upd Dpcs d (set_enqueued true);;
    softint_issue IRQL_DISPATCH;;
    release_dpc_lock oldstate.

Definition dpc_dequeue (d : nat) : M K unit :=
  oldstate ← acquire_dpc_lock;
  upd_cpu (λ c, set_dpcq (Abs.remove d (dpcq c)) (dpc_count c) c);;
  release_dpc_lock oldstate.

(** One turn of the loop of [dpc_run_queue], up to the call: the DPC that was taken
    off the queue, its function and its contexts. *)
Definition dpc_take : M K (option (nat * dpc_fn * option nat * option nat)) :=
  oldstate ← acquire_dpc_lock;
  w ← get;
  match dpcq (kcpu w) with
  | [] => release_dpc_lock oldstate;; mret None
  | d :: _ =>
      x ← ld Dpcs d;
      f ← deref "dpc->function" (d_function x);
      upd_cpu (λ c, set_dpcq (Abs.remove d (dpcq c)) (dpc_count c) c);;
      upd_cpu (λ c, set_dpcq (dpcq c) (wrap64 (dpc_count c - 1)) c);;
      upd Dpcs d (set_enqueued false);;
      release_dpc_lock oldstate;;
      mret (Some (d, f, context1 x, context2 x))
  end.

Section run.
Context (dpc_call : dpc_fn → nat → option nat → option nat → M K unit).

Fixpoint dpc_run_queue (fuel : nat) : M K unit :=
  match fuel with
  | O => fail OutOfFuel
  | S fuel =>
      r ← dpc_take;
      match r with
      | None => mret tt
      | Some (d, f, c1, c2) => dpc_call f d c1 c2;; dpc_run_queue fuel
      end
  end.
End run.

(** ** Specification *)

(** The queue holds distinct DPCs, exactly the enqueued ones of the store, and
    [dpc_count] counts them. *)
Record dpcq_ok (w : K) : Prop := {
  dq_nodup : NoDup (dpcq (kcpu w));
  dq_enq : ∀ d x, dpcs w !! d = Some x → enqueued x = true ↔ d ∈ dpcq (kcpu w);
  dq_fn : ∀ d, d ∈ dpcq (kcpu w) → ∃ x f, dpcs w !! d = Some x ∧ d_function x = Some f;
  dq_count : dpc_count (kcpu w) = wrap64 (Z.of_nat (length (dpcq (kcpu w))));
}.

Lemma dpcq_ok_ext (w w' : K) : dpcq_ok w → dpcq (kcpu w') = dpcq (kcpu w) →
  dpc_count (kcpu w') = dpc_count (kcpu w) → dpcs w' = dpcs w → dpcq_ok w'.
Proof. intros [] E1 E2 E3. split; by rewrite ?E1 ?E2 ?E3. Qed.

(** [softint_issue] of the dispatch level. *)
Definition dispatch_pending (p : Z) : Prop := Z.testbit p 1 = true.

(** The world after a DPC was queued. *)
Definition enqueued_world (d : nat) (x : dpc) (c1 c2 : option nat) (w : K) : K :=
  k_cpu (set_pending (Z.lor (softint_pending (kcpu w)) 2)
           (set_dpcq (dpcq (kcpu w) ++ [d]) (wrap64 (dpc_count (kcpu w) + 1)) (kcpu w)))
    (k_dpcs (<[d := Dpc (d_function x) c1 c2 true]> (dpcs w)) w).

Lemma wp_dpc_enqueue_skip d x c1 c2 (Q : unit → K → Prop) w :
  dpcs w !! d = Some x → enqueued x = true → dpc_lock ∉ locks w → Q tt w →
  wp (dpc_enqueue d c1 c2) Q w.
Proof.
  intros Hx He Hl HQ. unfold dpc_enqueue, acquire_dpc_lock, release_dpc_lock. repeat k_step.
  rewrite He. repeat k_step. by rewrite release_acquired.
Qed.
Lemma wp_dpc_enqueue d x c1 c2 (Q : unit → K → Prop) w :
  dpcs w !! d = Some x → enqueued x = false → dpc_lock ∉ locks w →
  Q tt (enqueued_world d x c1 c2 w) → wp (dpc_enqueue d c1 c2) Q w.
Proof.
  intros Hx He Hl HQ. unfold dpc_enqueue, acquire_dpc_lock, release_dpc_lock. repeat k_step.
  rewrite He. repeat k_step. by rewrite release_acquired // insert_insert_eq.
Qed.

Lemma enqueued_world_ok d x f c1 c2 w :
  dpcq_ok w → dpcs w !! d = Some x → d_function x = Some f → enqueued x = false → dpcq_ok (enqueued_world d x c1 c2 w).
Proof.
  intros Hok Hx Hf He. pose proof Hok as [Nd En Fn Ct].
  assert (d ∉ dpcq (kcpu w)) as Hd by (rewrite -(En d x Hx); congruence).
  split; unfold enqueued_world; k_simpl.
  - by apply NoDup_snoc.
  - intros d' x' Hd'. destruct (decide (d = d')) as [<-|Hne]; simplify_map_eq; [set_solver|].
    rewrite (En d' x' Hd'). set_solver.
  - intros d' [Hd'| ->%list_elem_of_singleton]%elem_of_app; [|by eexists _, f; simplify_map_eq].
    destruct (Fn d' Hd') as (x' & f' & ? & ?).
    destruct (decide (d = d')) as [<-|Hne]; simplify_map_eq; eauto.
  - rewrite Ct length_app /= /wrap64 Zplus_mod_idemp_l. f_equal. lia.
Qed.

Lemma dpc_enqueue_ok d x f c1 c2 w :
  dpcq_ok w → dpcs w !! d = Some x → d_function x = Some f → dpc_lock ∉ locks w →
  wp (dpc_enqueue d c1 c2) (λ _ w', dpcq_ok w' ∧
    dpcq (kcpu w') = (if decide (d ∈ dpcq (kcpu w)) then dpcq (kcpu w) else dpcq (kcpu w) ++ [d]) ∧
    (d ∉ dpcq (kcpu w) → dispatch_pending (softint_pending (kcpu w')) ∧
       dpcs w' !! d = Some (Dpc (Some f) c1 c2 true)) ∧
    locks w' = locks w ∧ irql (kcpu w') = irql (kcpu w) ∧ ints (kcpu w') = ints (kcpu w)) w.
Proof.
  intros Hok Hx Hf Hl. pose proof Hok as [Nd En Fn Ct].
  destruct (enqueued x) eqn:He.
  - eapply wp_dpc_enqueue_skip; [done..|]. apply (En d x Hx) in He. rewrite decide_True //.
  - assert (d ∉ dpcq (kcpu w)) as Hd by (rewrite -(En d x Hx); congruence).
    eapply wp_dpc_enqueue; [done..|]. split; [by eapply enqueued_world_ok|].
    unfold enqueued_world. k_simpl. rewrite decide_False // Hf. split_and!; try done.
    intros _. split; [|by simplify_map_eq]. unfold dispatch_pending. rewrite Z.lor_spec orb_true_iff. by right.
Qed.

(** The world after the head of the queue was taken. *)
Definition taken_world (d : nat) (x : dpc) (w : K) : K :=
  k_cpu (set_dpcq (Abs.remove d (dpcq (kcpu w))) (wrap64 (dpc_count (kcpu w) - 1)) (kcpu w))
    (k_dpcs (<[d := set_enqueued false x]> (dpcs w)) w).

Lemma wp_dpc_take_none (Q : option (nat * dpc_fn * option nat * option nat) → K → Prop) w :
  dpcq (kcpu w) = [] → dpc_lock ∉ locks w → Q None w → wp dpc_take Q w.
Proof.
  intros Hq Hl HQ. unfold dpc_take, acquire_dpc_lock, release_dpc_lock. repeat k_step. rewrite Hq.
  repeat k_step. by rewrite release_acquired.
Qed.
Lemma wp_dpc_take d q x f (Q : option (nat * dpc_fn * option nat * option nat) → K → Prop) w :
  dpcq (kcpu w) = d :: q → dpcs w !! d = Some x → d_function x = Some f → dpc_lock ∉ locks w →
  Q (Some (d, f, context1 x, context2 x)) (taken_world d x w) → wp dpc_take Q w.
Proof.
  intros Hq Hx Hf Hl HQ. unfold dpc_take, acquire_dpc_lock, release_dpc_lock. repeat k_step. rewrite Hq.
  repeat k_step. eapply wp_deref_i; [done|]. repeat k_step. by rewrite release_acquired.
Qed.

Lemma taken_ok d q x f w :
  dpcq_ok w → dpcq (kcpu w) = d :: q → dpcs w !! d = Some x → d_function x = Some f →
  dpcq_ok (taken_world d x w) ∧ dpcq (kcpu (taken_world d x w)) = q.
Proof.
  intros [Nd En Fn Ct] Hq Hx Hf. rewrite Hq in Nd Fn Ct. apply NoDup_cons in Nd as [Hd Nd].
  assert (Abs.remove d (d :: q) = q) as Er.
  { apply (Abs.remove_split d [] q); set_solver. }
  split; [|unfold taken_world; k_simpl; by rewrite Hq Er].
  split; unfold taken_world; k_simpl; rewrite Hq Er; [done| | |].
  - intros d' x' Hd'. destruct (decide (d = d')) as [<-|Hne]; simplify_map_eq; [done|].
    rewrite (En d' x' Hd') Hq. set_solver.
  - intros d' Hd'. destruct (Fn d') as (x' & f' & ? & ?); [by right|].
    destruct (decide (d = d')) as [<-|Hne]; simplify_map_eq; eauto.
  - rewrite Ct /= /wrap64 Zminus_mod_idemp_l. f_equal. lia.
Qed.

Section delivery.
Context (call : dpc_fn → nat → option nat → option nat → M K unit).

(** [served q w w']: the DPCs of [q] are called one after another, each once and
    with the contexts it was queued with. *)
Inductive served : list nat → K → K → Prop :=
| served_nil w : served [] w w
| served_cons d q x f w w1 w2 :
    dpcs w !! d = Some x → d_function x = Some f →
    call f d (context1 x) (context2 x) (taken_world d x w) = Ok (tt, w1) →
    served q w1 w2 → served (d :: q) w w2.

(** What a function run from the queue changes of the CPU's data: at most the standby
    thread and the time of the next deadline.  The DPCs and the locks are as before. *)
Definition dpc_frame (w w' : K) : Prop :=
  (∃ n dl, kcpu w' = set_next n (set_next_deadline dl (kcpu w))) ∧ dpcs w' = dpcs w ∧ locks w' = locks w.

(** The functions in [F] return, stay within the frame and keep the invariant [I], which
    taking a DPC off the queue keeps too. *)
Context (F : dpc_fn → Prop) (I : K → Prop).
Definition well_behaved : Prop := ∀ f d c1 c2 w, F f → I w → wp (call f d c1 c2) (λ _ w', I w' ∧ dpc_frame w w') w.
Definition take_stable : Prop := ∀ d x w, dpcs w !! d = Some x → I w → I (taken_world d x w).
Definition queue_fns (w : K) : Prop :=
  ∀ d x f, d ∈ dpcq (kcpu w) → dpcs w !! d = Some x → d_function x = Some f → F f.

Lemma dpc_run_queue_spec fuel w :
  well_behaved → take_stable → I w → dpcq_ok w → queue_fns w → dpc_lock ∉ locks w → (length (dpcq (kcpu w)) < fuel)%nat →
  wp (dpc_run_queue call fuel) (λ _ w', served (dpcq (kcpu w)) w w' ∧ I w' ∧
    (∃ n dl, kcpu w' = set_next n (set_next_deadline dl (set_dpcq [] 0 (kcpu w)))) ∧
    dpcq_ok w' ∧ locks w' = locks w) w.
Proof.
  intros Hcall Hst. revert w. induction fuel as [|fuel IH]; intros w Hi Hok Hfn Hl Hlen; [lia|].
  cbn [dpc_run_queue]. k_step. pose proof Hok as [_ _ Fn Ct]. destruct (dpcq (kcpu w)) as [|d q] eqn:Hq.
  - apply wp_dpc_take_none; [done..|]. k_step. split; [constructor|]. split; [exact Hi|]. split; [|by split].
    exists (thread_next (kcpu w)), (next_deadline (kcpu w)).
    change (wrap64 (Z.of_nat (length []))) with 0 in Ct. rewrite -{1}Hq -Ct. done.
  - destruct (Fn d) as (x & f & Hx & Hf); [left|].
    eapply wp_dpc_take; [done..|]. destruct (taken_ok d q x f w) as [Hok1 Hq1]; [done..|].
    assert (F f) as HF by (eapply (Hfn d x f); [rewrite Hq; left|done|done]).
    k_step. pose proof (Hcall f d (context1 x) (context2 x) (taken_world d x w) HF (Hst d x w Hx Hi)) as Hc.
    apply wp_ok in Hc as ([] & w1 & Ec & Hi1 & (n1 & dl1 & Ek) & Ed & El).
    apply wp_ok. eexists tt, w1. split; [exact Ec|].
    assert (dpcq_ok w1) as Hok2 by (destruct Hok1; split; by rewrite ?Ek ?Ed).
    eapply wp_mono; [apply IH; [done|done| | |]|].
    + intros d' x' f' Hin Hx' Hf'. rewrite Ek in Hin. k_simpl in Hin. rewrite Hq1 in Hin. rewrite Ed in Hx'. unfold taken_world in Hx'.
      k_simpl in Hx'. assert (d' ∈ dpcq (kcpu w)) as Hin' by (rewrite Hq; by right).
      destruct (decide (d = d')) as [<-|]; [|rewrite lookup_insert_ne // in Hx'; by eapply Hfn].
      rewrite lookup_insert_eq in Hx'. injection Hx' as <-. by eapply Hfn.
    + rewrite El. done.
    + rewrite Ek Hq1. simpl in Hlen. lia.
    + intros [] w2 (Hs & Hi2 & (n2 & dl2 & H0) & Hok3 & Hl3). rewrite Ek in Hs. k_simpl in Hs. rewrite Hq1 in Hs.
      rewrite El in Hl3. split; [by econstructor|]. split; [exact Hi2|]. split; [|by split].
      exists n2, dl2. rewrite H0 Ek. reflexivity.
Qed.
End delivery.

(** [dpc_dequeue] leaves [enqueued] set: the DPC is off the queue, and the next
    [dpc_enqueue] of it does nothing. *)
Lemma dpc_dequeue_then_enqueue d x c1 c2 w :
  dpcq_ok w → dpcs w !! d = Some x → d ∈ dpcq (kcpu w) → dpc_lock ∉ locks w →
  wp (dpc_dequeue d;; dpc_enqueue d c1 c2) (λ _ w', d ∉ dpcq (kcpu w') ∧ dpcs w' = dpcs w ∧
    dpc_count (kcpu w') = dpc_count (kcpu w)) w.
Proof.
  intros [Nd En Fn Ct] Hx Hd Hl. unfold dpc_dequeue, acquire_dpc_lock, release_dpc_lock. repeat k_step.
  eapply wp_dpc_enqueue_skip; k_simpl; [done|by eapply En|set_solver|].
  split_and!; [|done|done]. rewrite Abs.elem_of_remove. by intros [? _].
Qed.
End dpc.
