(* ===== verification/Timer.v ===== *)
(** * Timers: [kernel/lib/time.c], [kernel/include/ndk/time.h]

    The timer queue of a CPU is a pairing heap from a separate project, used
    through the class [TimerHeap]; its laws say what the heap promises: the bag of
    its members changes as the operation says and the root has the least key.
    [lower] is [irql_lower], which can run queued DPCs and hence comes back into
    this code; SoftInt.v ties that knot.  [hw_clock n] is the n-th reading of the
    clock source. *)

From Stdlib Require Import Sorted.
From S2P Require Import Prelude Queue Core Dpc.

(** ** The heap *)
Class TimerHeap (H : Type) := {
  heap_init : H;
  heap_insert : nat → Z → H → H;
  heap_peek : H → option nat;
  heap_pop : H → option (nat * H);
  heap_remove : nat → H → H;
  heap_elems : H → list (nat * Z);
}.

Class TimerHeapLaws (H : Type) `{TimerHeap H} := {
  heap_init_elems : heap_elems heap_init = [];
  heap_insert_elems t d h : heap_elems (heap_insert t d h) ≡ₚ (t, d) :: heap_elems h;
  heap_peek_none h : heap_peek h = None ↔ heap_elems h = [];
  heap_pop_peek h : fst <$> heap_pop h = heap_peek h;
  heap_pop_elems h t h' : heap_pop h = Some (t, h') →
    ∃ d, heap_elems h ≡ₚ (t, d) :: heap_elems h' ∧ ∀ t' d', (t', d') ∈ heap_elems h → d ≤ d';
  heap_remove_elems t d h : NoDup (heap_elems h).*1 → (t, d) ∈ heap_elems h →
    heap_elems h ≡ₚ (t, d) :: heap_elems (heap_remove t h);
}.

(** A list searched for its least key meets the laws. *)
Fixpoint min_of (l : list (nat * Z)) : option (nat * Z) :=
  match l with
  | [] => None
  | x :: l' => match min_of l' with
               | None => Some x
               | Some y => if decide (x.2 ≤ y.2) then Some x else Some y
               end
  end.
Fixpoint remove_if (P : nat * Z → bool) (l : list (nat * Z)) : list (nat * Z) :=
  match l with
  | [] => []
  | x :: l' => if P x then l' else x :: remove_if P l'
  end.

Lemma min_of_spec l x : min_of l = Some x → x ∈ l ∧ ∀ y, y ∈ l → x.2 ≤ y.2.
Proof.
  revert x. induction l as [|a l IH]; intros x; simpl; [done|].
  destruct (min_of l) as [b|] eqn:E.
  - destruct (IH b eq_refl) as [Hb Hmin]. case_decide as Hle; intros [= <-].
    + split; [left|]. intros y [->|Hy]%elem_of_cons; [done|]. specialize (Hmin y Hy). lia.
    + split; [by right|]. intros y [->|Hy]%elem_of_cons; [lia|by apply Hmin].
  - intros [= <-]. destruct l as [|b l]; [set_solver|]. simpl in E. by destruct (min_of l); [case_decide|].
Qed.
Lemma remove_if_perm P l x : x ∈ l → P x = true → (∀ y, y ∈ l → P y = true → y = x) →
  l ≡ₚ x :: remove_if P l.
Proof.
  induction l as [|a l IH]; intros Hx Hp Hu; [by apply elem_of_nil in Hx|]. simpl.
  destruct (P a) eqn:E; [by rewrite (Hu a (list_elem_of_here _ _) E)|].
  apply elem_of_cons in Hx as [->|Hx]; [congruence|].
  rewrite {1}(IH Hx Hp) ; [|apply Permutation_swap]. intros y Hy. apply Hu. by right.
Qed.

#[global] Instance list_heap : TimerHeap (list (nat * Z)) := {
  heap_init := [];
  heap_insert t d h := (t, d) :: h;
  heap_peek h := fst <$> min_of h;
  heap_pop h := (λ x, (x.1, remove_if (λ y, bool_decide (y = x)) h)) <$> min_of h;
  heap_remove t h := remove_if (λ y, bool_decide (y.1 = t)) h;
  heap_elems h := h;
}.
#[global] Instance list_heap_laws : TimerHeapLaws (list (nat * Z)).
Proof.
  split; simpl; try done.
  - intros h. destruct h as [|x h]; [done|]. simpl. by destruct (min_of h); [case_decide|].
  - intros h. by destruct (min_of h).
  - intros h t h'. destruct (min_of h) as [[t0 d]|] eqn:E; [|done]. intros [= -> <-].
    apply min_of_spec in E as [Hin Hmin]. exists d. split; [|intros t' d' Hx; by apply (Hmin (t', d'))].
    apply remove_if_perm; [done|by apply bool_decide_eq_true|]. by intros y _ ->%bool_decide_eq_true.
  - intros t d h Hnd Hin. apply remove_if_perm; [done|by apply bool_decide_eq_true|].
    intros [t' d'] Hy Et%bool_decide_eq_true. simpl in Et. subst t'. f_equal.
    apply list_elem_of_lookup in Hin as [i Hi]. apply list_elem_of_lookup in Hy as [j Hj].
    assert (i = j) as ->; [|congruence].
    eapply (NoDup_lookup _ _ _ t Hnd); by rewrite list_lookup_fmap ?Hi ?Hj.
Qed.

(** ** Clock sources: the one of highest priority becomes the system's *)
Record clocksource := Clocksource {
  cs_name : string;
  cs_priority : Z;
}.
Definition register_clocksource (csp : clocksource) (system : option clocksource) : option clocksource :=
  match system with
  | None => Some csp
  | Some cs => if decide (cs_priority cs < cs_priority csp) then Some csp else system
  end.

(** The registered source has the highest priority, the first one among equals. *)
Lemma register_clocksource_best l cs :
  foldl (λ s c, register_clocksource c s) None l = Some cs →
  ∃ l1 l2, l = l1 ++ cs :: l2 ∧ Forall (λ c, cs_priority c < cs_priority cs) l1 ∧
    Forall (λ c, cs_priority c ≤ cs_priority cs) l2.
Proof.
  revert cs. induction l as [|c l IH] using rev_ind; intros cs; [done|]. rewrite foldl_app. simpl.
  destruct (foldl _ None l) as [b|] eqn:E; simpl.
  - destruct (IH b eq_refl) as (l1 & l2 & -> & H1 & H2). case_decide as Hp; intros [= <-].
    + exists (l1 ++ b :: l2), []. split_and!; [done| |done]. apply Forall_app. split; [|apply Forall_cons; split].
      * eapply Forall_impl; [exact H1|]. simpl. lia.
      * done.
      * eapply Forall_impl; [exact H2|]. simpl. lia.
    + exists l1, (l2 ++ [c]). split_and!; [by rewrite -app_assoc|done|]. apply Forall_app. split; [done|].
      repeat constructor. lia.
  - intros [= <-]. exists l, []. split_and!; [done| |done]. destruct l as [|a l]; [done|exfalso].
    assert (∀ s, is_Some s → is_Some (foldl (λ s c, register_clocksource c s) s l)) as Hs.
    { clear. induction l as [|a l IH]; intros s [x ->]; simpl; [done|]. apply IH. case_decide; done. }
    simpl in E. destruct (Hs (Some a)) as [? Hx]; [done|]. rewrite E in Hx. done.
Qed.

Section timer.
Context {H : Type} `{TimerHeap H}.
Notation K := (kworld H).
Context (hw_clock : nat → Z).
Context (lower : Z → M K unit).

Definition current_nanos : M K Z :=
  n ← gets reads; modify (k_reads (S n));; mret (hw_clock n).

Definition spinlock_release_lower (l : klock) (old : Z) : M K unit :=
  spinlock_release l;;
  lower old.

Definition obj_init (o : nat) (ty : Z) : M K unit :=
  SPINLOCK_INIT (object_lock o);;
  st Objs o (ObjHeader 1 None ty 0 0 []).

(** [dpc] is left as it was, unless the memory is fresh. *)
Definition timer_init (tp : nat) : M K unit :=
  obj_init tp kObjTypeTimer;;
  w ← get;
  st Timers tp (Timer (timers w !! tp ≫= t_dpc) UINT64_MAX kTimerUnused false).

Definition timer_uninstall (tp : nat) : M K unit :=
  t ← ld Timers tp;
  if engine t then
    level ← spinlock_acquire_raise engine_lock;
    spinlock_acquire (object_lock tp);;
    modify (λ w, k_heap (heap_remove tp (timerlist w)) w);;
    upd Timers tp (set_engine false);;
    upd Timers tp (set_timer_state kTimerCanceled);;
    w ← get;
    dpc_enqueue (timer_update (kcpu w)) None None;;
    spinlock_release (object_lock tp);;
    spinlock_release_lower engine_lock level
  else
    level ← spinlock_acquire_raise (object_lock tp);
    upd Timers tp (set_timer_state kTimerCanceled);;
    spinlock_release_lower (object_lock tp) level.

Definition timer_set (tp : nat) (dl : Z) (d : option nat) : M K unit :=
  level ← spinlock_acquire_raise (object_lock tp);
  t ← ld Timers tp;
  whenM (bool_decide (timer_state t = kTimerQueued)) (timer_uninstall tp);;
  upd Timers tp (set_timer d dl);;
  spinlock_release_lower (object_lock tp) level.

Definition timer_set_in (tp : nat) (in_ns : Z) (d : option nat) : M K unit :=
  now ← current_nanos;
  timer_set tp (wrap64 (now + in_ns)) d.

Definition timer_install (tp : nat) (ctx1 ctx2 : option nat) : M K unit :=
  t ← ld Timers tp;
  assertM (bool_decide (timer_state t ≠ kTimerQueued)) "tp->timer_state != kTimerQueued";;
  level ← spinlock_acquire_raise engine_lock;
  spinlock_acquire (object_lock tp);;
  t ← ld Timers tp;
  if engine t then
    spinlock_release (object_lock tp);;
    spinlock_release_lower engine_lock level
  else
    upd Timers tp (set_engine true);;
    upd Timers tp (set_timer_state kTimerQueued);;
    match t_dpc t with
    | Some d => upd Dpcs d (set_contexts ctx1 ctx2)
    | None => mret tt
    end;;
    upd Objs tp (set_signal 0);;
    modify (λ w, k_heap (heap_insert tp (deadline t) (timerlist w)) w);;
    w ← get;
    dpc_enqueue (timer_update (kcpu w)) None None;;
    spinlock_release (object_lock tp);;
    spinlock_release_lower engine_lock level.

(** [time_engine_init] and [timer_free]; the clock source and the function that
    programs the hardware are the parameters of the model. *)
Definition time_engine_init : M K unit :=
  SPINLOCK_INIT engine_lock;;
  modify (k_heap heap_init).

(** The slab allocator calls are the arguments of the routines that make them. *)
Definition time_init (kmem_cache_create : M K unit) : M K unit :=
  kmem_cache_create;;
  w ← get;
  dpc_init (timer_update (kcpu w)) time_engine_progress_fn.

(** The timer is given back to its cache before its [engine] is read again. *)
Definition timer_free (kmem_cache_free : nat → M K unit) (tp : nat) : M K unit :=
  t ← ld Timers tp;
  level ← (if engine t then spinlock_acquire_raise engine_lock else mret 0);
  t' ← ld Timers tp;
  assertM (bool_decide (timer_state t' = kTimerUnused) || bool_decide (timer_state t' = kTimerFired))
    "tp->timer_state == kTimerUnused || tp->timer_state == kTimerFired";;
  kmem_cache_free tp;;
  t'' ← ld Timers tp;
  whenM (engine t'') (spinlock_release_lower engine_lock level);;
  upd Timers tp (set_engine false).

(** Busy waiting; each turn of the loop reads the clock once. *)
Fixpoint time_delay_loop (fuel : nat) (deadline : Z) : M K unit :=
  match fuel with
  | O => fail OutOfFuel
  | S fuel =>
      now ← current_nanos;
      if decide (now < deadline) then time_delay_loop fuel deadline else mret tt
  end.
Definition time_delay (fuel : nat) (ns : Z) : M K unit :=
  now ← current_nanos;
  time_delay_loop fuel (wrap64 (now + ns)).

(** ** Expiry *)
Section progress.
Context (obj_satisfy : nat → bool → Z → M K unit).
Context (dpc_call : dpc_fn → nat → option nat → option nat → M K unit).

Definition arm (d : Z) : M K unit := modify (λ w, k_armed (d :: armed w) w).

(** The part of the loop body that fires the timer at the root. *)
Definition fire_root : M K unit :=
  w ← get;
  '(root, h') ← deref "HEAP_POP" (heap_pop (timerlist w));
  modify (k_heap h');;
  spinlock_acquire (object_lock root);;
  upd Timers root (set_engine false);;
  spinlock_release engine_lock;;
  upd Timers root (set_timer_state kTimerFired);;
  o ← ld Objs root;
  whenM (bool_decide (waitercount o > 0))
    (obj_satisfy root true 0;;
     upd Objs root (set_signal 1));;
  t ← ld Timers root;
  call ← match t_dpc t with
         | Some d => x ← ld Dpcs d; mret (Some (d, x))
         | None => mret None
         end;
  spinlock_release (object_lock root);;
  match call with
  | Some (d, x) => f ← deref "timerdpc->function" (d_function x);
                   dpc_call f d (context1 x) (context2 x)
  | None => mret tt
  end.

Fixpoint time_engine_progress (fuel : nat) : M K unit :=
  match fuel with
  | O => fail OutOfFuel
  | S fuel =>
      now ← current_nanos;
      level ← irql_current;
      assertM (bool_decide (level = IRQL_DISPATCH)) "irql_current() == IRQL_DISPATCH";;
      spinlock_acquire engine_lock;;
      w ← get;
      match heap_peek (timerlist w) with
      | None =>
          upd_cpu (set_next_deadline UINT64_MAX);;
          arm 0;;
          spinlock_release engine_lock
      | Some root =>
          r ← ld Timers root;
          if decide (deadline r > now) then
            upd_cpu (set_next_deadline (deadline r));;
            arm (deadline r);;
            spinlock_release engine_lock
          else
            fire_root;;
            time_engine_progress fuel
      end
  end.
End progress.
End timer.

Section specs.
Context {H : Type} `{TimerHeap H}.
Notation K := (kworld H).
Context (lower : Z → M K unit).

(** ** Specifications

    Each routine is described by the world in which it calls [irql_lower] last. *)

(** [dpc_enqueue] of the timer DPC. *)
Definition kick (w : K) : K :=
  match dpcs w !! timer_update (kcpu w) with
  | Some x => if enqueued x then w else enqueued_world (timer_update (kcpu w)) x None None w
  | None => w
  end.
Ltac k_kick x E := destruct (enqueued x) eqn:E;
  [eapply wp_dpc_enqueue_skip; [k_lookup|done|k_simpl; set_solver|]
  |eapply wp_dpc_enqueue; [k_lookup|done|k_simpl; set_solver|]; unfold enqueued_world; k_simpl].
Lemma release2 (a b : klock) (L : gset klock) :
  a ∉ L → b ∉ L → a ≠ b → ({[a]} ∪ ({[b]} ∪ L)) ∖ {[a]} ∖ {[b]} = L.
Proof. set_solver. Qed.

Lemma wp_acquire_raise l (Q : Z → K → Prop) w :
  irql (kcpu w) ≤ IRQL_DISPATCH → l ∉ locks w →
  Q (irql (kcpu w)) (k_locks ({[l]} ∪ locks w) (k_cpu (set_irql IRQL_DISPATCH (kcpu w)) w)) →
  wp (spinlock_acquire_raise l) Q w.
Proof.
  intros Hi Hl HQ. unfold spinlock_acquire_raise, irql_raise. repeat k_step.
  apply wp_assert_i; [apply bool_decide_eq_true; lia|]. by repeat k_step.
Qed.

Definition raised (w : K) : K := k_cpu (set_irql IRQL_DISPATCH (kcpu w)) w.

Definition uninstalled_world (tp : nat) (t : timer) (w : K) : K :=
  if engine t then
    kick (k_timers (<[tp := Timer (t_dpc t) (deadline t) kTimerCanceled false]> (timers w))
            (k_heap (heap_remove tp (timerlist w)) (raised w)))
  else k_timers (<[tp := set_timer_state kTimerCanceled t]> (timers w)) (raised w).

Record timer_env (w : K) : Prop := {
  te_level : irql (kcpu w) ≤ IRQL_DISPATCH;
  te_dpc_lock : dpc_lock ∉ locks w;
  te_engine_lock : engine_lock ∉ locks w;
  te_update : is_Some (dpcs w !! timer_update (kcpu w));
}.

Lemma wp_timer_uninstall tp t (Q : unit → K → Prop) w :
  timer_env w → timers w !! tp = Some t → object_lock tp ∉ locks w →
  wp (lower (irql (kcpu w))) Q (uninstalled_world tp t w) →
  wp (timer_uninstall lower tp) Q w.
Proof.
  intros [Hi Hd He [x Hx]] Ht Ho HQ. unfold timer_uninstall, spinlock_release_lower, uninstalled_world in *.
  repeat k_step. destruct (engine t).
  - k_step. apply wp_acquire_raise; [done..|]. repeat k_step. rewrite insert_insert_eq.
    unfold kick in HQ. k_simpl in HQ. rewrite Hx in HQ.
    k_kick x E; repeat k_step; rewrite release2 //.
  - k_step. apply wp_acquire_raise; [done..|]. repeat k_step. by rewrite release_acquired.
Qed.

Lemma wp_timer_set tp t dl d (Q : unit → K → Prop) w :
  irql (kcpu w) ≤ IRQL_DISPATCH → timers w !! tp = Some t → timer_state t ≠ kTimerQueued →
  object_lock tp ∉ locks w →
  wp (lower (irql (kcpu w))) Q (k_timers (<[tp := set_timer d dl t]> (timers w)) (raised w)) →
  wp (timer_set lower tp dl d) Q w.
Proof.
  intros Hi Ht Hs Ho HQ. unfold timer_set, spinlock_release_lower.
  k_step. apply wp_acquire_raise; [done..|]. repeat k_step. rewrite bool_decide_false //. cbn [whenM].
  repeat k_step. by rewrite release_acquired.
Qed.

(** The contexts the installer hands to the timer's DPC. *)
Definition dpc_contexts (t : timer) (c1 c2 : option nat) (m : gmap nat dpc) : gmap nat dpc :=
  match t_dpc t with
  | Some d => alter (set_contexts c1 c2) d m
  | None => m
  end.
Definition installed_world (tp : nat) (t : timer) (o : obj_header) (c1 c2 : option nat) (w : K) : K :=
  kick (k_heap (heap_insert tp (deadline t) (timerlist w))
         (k_objs (<[tp := set_signal 0 o]> (objs w))
           (k_dpcs (dpc_contexts t c1 c2 (dpcs w))
             (k_timers (<[tp := set_timer_state kTimerQueued (set_engine true t)]> (timers w)) (raised w))))).

Lemma wp_timer_install tp t o c1 c2 (Q : unit → K → Prop) w :
  timer_env w → timers w !! tp = Some t → objs w !! tp = Some o → object_lock tp ∉ locks w →
  timer_state t ≠ kTimerQueued → engine t = false →
  (∀ d, t_dpc t = Some d → is_Some (dpcs w !! d)) →
  wp (lower (irql (kcpu w))) Q (installed_world tp t o c1 c2 w) →
  wp (timer_install lower tp c1 c2) Q w.
Proof.
  intros [Hi Hd He [x Hx]] Ht Hob Ho Hs Hen Hdpc HQ.
  unfold timer_install, spinlock_release_lower, installed_world, kick, dpc_contexts in *. k_simpl in HQ.
  repeat k_step. apply wp_assert_i; [by apply bool_decide_eq_true|].
  k_step. apply wp_acquire_raise; [done..|]. repeat k_step. rewrite Hen. repeat k_step.
  rewrite insert_insert_eq. destruct (t_dpc t) as [d|] eqn:Ed.
  - destruct (Hdpc d eq_refl) as [y Hy]. repeat k_step.
    assert (alter (set_contexts c1 c2) d (dpcs w) = <[d := set_contexts c1 c2 y]> (dpcs w)) as Ea.
    { apply map_eq. intros i. destruct (decide (d = i)) as [->|]; by simplify_map_eq. }
    rewrite Ea in HQ. destruct (decide (d = timer_update (kcpu w))) as [->|Hne].
    + rewrite lookup_insert_eq in HQ. simplify_eq.
      k_kick (set_contexts c1 c2 x) E; repeat k_step; by rewrite release2.
    + rewrite lookup_insert_ne // Hx in HQ.
      k_kick x E; repeat k_step; by rewrite release2.
  - repeat k_step. rewrite Hx in HQ. k_kick x E; repeat k_step; by rewrite release2.
Qed.

(** Re-arming a timer that is still queued stops: [timer_set] holds the timer's lock
    when [timer_uninstall] takes it again. *)
Lemma timer_set_queued_stops tp t dl d w :
  timer_env w → timers w !! tp = Some t → timer_state t = kTimerQueued → engine t = true →
  object_lock tp ∉ locks w →
  timer_set lower tp dl d w = Panic (Deadlock "deadlock?").
Proof.
  intros [Hi Hd He _] Ht Hs Hen Ho. unfold timer_set.
  eapply bind_wp; [apply (wp_acquire_raise _ (λ a w', w' = k_locks ({[object_lock tp]} ∪ locks w) (raised w))); done|].
  intros lv w1 ->. erewrite bind_ok; [|unfold ld, mbind, M_bind, get, deref; k_simpl; rewrite Ht; reflexivity].
  rewrite bool_decide_true //. cbn [whenM]. apply bind_panic. unfold timer_uninstall.
  erewrite bind_ok; [|unfold ld, mbind, M_bind, get, deref; k_simpl; rewrite Ht; reflexivity]. rewrite Hen.
  eapply bind_wp; [apply (wp_acquire_raise _ (λ a w', object_lock tp ∈ locks w'));
    unfold raised; k_simpl; [lia|set_solver|set_solver]|].
  intros a w' Hin. apply bind_panic. unfold spinlock_acquire, mbind, M_bind, get. rewrite decide_True //.
Qed.
End specs.

(** ** Expiry: which timers fire, and in which order *)
Section expiry.
Context {H : Type} `{TimerHeap H}.
Notation K := (kworld H).
Context `{!TimerHeapLaws H}.
Context (hw_clock : nat → Z).
Context (obj_satisfy : nat → bool → Z → M K unit).
Context (dpc_call : dpc_fn → nat → option nat → option nat → M K unit).

(** The functions in [F] that timers can call, with the locks [L] held: they leave timers,
    objects, DPCs, locks and level alone and keep the invariant [J], which what the engine
    itself does keeps too. *)
Context (F : dpc_fn → Prop) (J : K → Prop) (L : gset klock).
Definition timer_quiet : Prop := ∀ f d c1 c2 w, F f → J w → locks w = L →
  wp (dpc_call f d c1 c2) (λ _ w', timers w' = timers w ∧ timerlist w' = timerlist w ∧
    objs w' = objs w ∧ dpcs w' = dpcs w ∧ locks w' = locks w ∧
    irql (kcpu w') = irql (kcpu w) ∧ (reads w ≤ reads w')%nat ∧ J w') w.
Definition engine_stable : Prop := ∀ (w w' : K) n, J w → kcpu w' = set_next_deadline n (kcpu w) → ksched w' = ksched w →
  threads w' = threads w → objs w' = objs w → dpcs w' = dpcs w →
  (∀ i, is_Some (timers w !! i) → is_Some (timers w' !! i)) → J w'.

(** A queued timer: in the store with its key, nobody waiting on it or holding it,
    and a DPC that can be called. *)
Definition queued_ok (w : K) (x : nat * Z) : Prop :=
  ∃ t o, timers w !! x.1 = Some t ∧ deadline t = x.2 ∧ objs w !! x.1 = Some o ∧
    waitercount o ≤ 0 ∧ object_lock x.1 ∉ locks w ∧
    ∀ k, t_dpc t = Some k → ∃ y f, dpcs w !! k = Some y ∧ d_function y = Some f ∧ F f.
Record expiry_ok (w : K) : Prop := {
  ex_level : irql (kcpu w) = IRQL_DISPATCH;
  ex_locks : locks w = L;
  ex_nodup : NoDup (heap_elems (timerlist w)).*1;
  ex_queued : Forall (queued_ok w) (heap_elems (timerlist w));
}.

Definition fired_timer (t : timer) : timer := set_timer_state kTimerFired (set_engine false t).

Lemma fire_root_spec w root h' t :
  timer_quiet → engine_stable → J w → engine_lock ∉ L → heap_pop (timerlist w) = Some (root, h') →
  locks w = {[engine_lock]} ∪ L → timers w !! root = Some t → queued_ok w (root, deadline t) →
  wp (fire_root obj_satisfy dpc_call) (λ _ w', timerlist w' = h' ∧
    timers w' = <[root := fired_timer t]> (timers w) ∧ objs w' = objs w ∧ dpcs w' = dpcs w ∧
    locks w' = L ∧ irql (kcpu w') = irql (kcpu w) ∧ (reads w ≤ reads w')%nat ∧ J w') w.
Proof.
  intros Hq Hst Hj Hel Hpop HL Ht (t' & o & Ht' & _ & Ho & Hwc & Hol & Hdpc). cbn [fst snd] in *. simplify_eq.
  assert (({[object_lock root]} ∪ locks w) ∖ {[engine_lock]} ∖ {[object_lock root]} = L) as El.
  { rewrite HL in Hol |- *. clear -Hol Hel. set_solver. }
  assert (∀ w', kcpu w' = kcpu w → ksched w' = ksched w → threads w' = threads w → objs w' = objs w → dpcs w' = dpcs w →
    timers w' = <[root := fired_timer t]> (timers w) → J w') as HJ.
  { intros w' E1 E2 E3 E4 E5 E6. apply (Hst w w' (next_deadline (kcpu w)) Hj); [by rewrite E1|done..|].
    intros i Hi. rewrite E6 lookup_insert_is_Some'. by right. }
  unfold fire_root. repeat k_step. rewrite Hpop. eapply wp_deref_i; [done|]. k_simpl. repeat k_step.
  rewrite bool_decide_false; [lia|]. cbn [whenM]. repeat k_step. rewrite insert_insert_eq.
  destruct (t_dpc t) as [k|] eqn:Ek.
  - destruct (Hdpc k eq_refl) as (y & f & Hy & Hf & HF).
    replace (t_dpc (set_timer_state kTimerFired (set_engine false t))) with (Some k) by done.
    repeat k_step. eapply wp_deref_i; [done|]. rewrite El.
    eapply wp_mono; [apply Hq; [done|by apply HJ|done]|]. k_simpl.
    intros [] w' (E1 & E2 & E3 & E4 & E5 & E6 & E7 & E8). by split_and!.
  - replace (t_dpc (set_timer_state kTimerFired (set_engine false t))) with (None : option nat) by done.
    repeat k_step. rewrite El. split_and!; try done. by apply HJ.
Qed.

(** What a run of the engine has done: [fired] are the timers it popped, in order. *)
Record progressed (w w' : K) (fired : list (nat * Z)) : Prop := {
  pg_elems : heap_elems (timerlist w) ≡ₚ fired ++ heap_elems (timerlist w');
  pg_fired : ∀ t x, t ∈ fired.*1 → timers w !! t = Some x → timers w' !! t = Some (fired_timer x);
  pg_other : ∀ t, t ∉ fired.*1 → timers w' !! t = timers w !! t;
  pg_sorted : StronglySorted (λ x y, x.2 ≤ y.2) fired;
  pg_now : ∃ n, (reads w ≤ n < reads w')%nat ∧
    (∀ x, x ∈ fired → x.2 ≤ hw_clock n) ∧ (∀ x, x ∈ heap_elems (timerlist w') → hw_clock n < x.2);
  pg_next : match heap_peek (timerlist w') with
            | None => next_deadline (kcpu w') = UINT64_MAX ∧ head (armed w') = Some 0
            | Some t => ∃ x, timers w' !! t = Some x ∧ next_deadline (kcpu w') = deadline x ∧
                             head (armed w') = Some (deadline x)
            end;
  pg_locks : locks w' = locks w;
}.

Definition clock_monotone : Prop := ∀ m n, (m ≤ n)%nat → hw_clock m ≤ hw_clock n.

Lemma expiry_elem w root h' :
  expiry_ok w → heap_pop (timerlist w) = Some (root, h') →
  ∃ t, timers w !! root = Some t ∧ queued_ok w (root, deadline t) ∧
    heap_elems (timerlist w) ≡ₚ (root, deadline t) :: heap_elems h' ∧
    ∀ x, x ∈ heap_elems h' → deadline t ≤ x.2.
Proof.
  intros [_ _ Nd Qd] Hpop. destruct (heap_pop_elems _ _ _ Hpop) as (d & Hp & Hmin).
  rewrite Hp in Qd. apply Forall_cons in Qd as [Hq _]. pose proof Hq as (t & o & Ht & Hd & _).
  cbn [fst snd] in *. subst d. exists t. split_and!; try done.
  intros [t' d'] Hx. apply (Hmin t'). rewrite Hp. by right.
Qed.

Lemma expiry_ok_fired w w' root h' t :
  expiry_ok w → heap_elems (timerlist w) ≡ₚ (root, deadline t) :: heap_elems h' →
  timers w !! root = Some t → timerlist w' = h' → timers w' = <[root := fired_timer t]> (timers w) →
  objs w' = objs w → dpcs w' = dpcs w → locks w' = locks w → irql (kcpu w') = irql (kcpu w) →
  expiry_ok w'.
Proof.
  intros [Lv Lk Nd Qd] Hp Ht E1 E2 E3 E4 E5 E6. rewrite Hp in Nd, Qd.
  rewrite fmap_cons in Nd. apply NoDup_cons in Nd as [Hnew Nd]. apply Forall_cons in Qd as [_ Qd].
  split; rewrite ?E5 ?E6 ?E1 //. apply Forall_forall. intros x Hx. rewrite Forall_forall in Qd.
  destruct (Qd x Hx) as (t' & o & ? & ? & ? & ? & ? & ?). exists t', o.
  rewrite E2 E3 E4 E5 lookup_insert_ne; [|by split_and!].
  intros ->. apply Hnew. by apply (list_elem_of_fmap_2 fst (heap_elems h') x).
Qed.

Lemma progressed_step w w1 w2 root t fired h' n0 :
  expiry_ok w → clock_monotone →
  timers w !! root = Some t →
  heap_elems (timerlist w) ≡ₚ (root, deadline t) :: heap_elems h' →
  (∀ x, x ∈ heap_elems h' → deadline t ≤ x.2) →
  timerlist w1 = h' → timers w1 = <[root := fired_timer t]> (timers w) → locks w1 = locks w →
  (n0 = reads w ∧ reads w < reads w1)%nat → deadline t ≤ hw_clock n0 →
  progressed w1 w2 fired → progressed w w2 ((root, deadline t) :: fired).
Proof.
  intros [_ _ Nd _] Hm Ht Hp Hmin E1 E2 E3 [-> Hr] Hdue [Pe Pf Po Ps (n & Hn & Pn1 & Pn2) Px Pl].
  rewrite Hp fmap_cons in Nd. apply NoDup_cons in Nd as [Hnew Nd]. rewrite E1 in Pe.
  assert (root ∉ fired.*1) as Hroot.
  { intros Hin. apply Hnew. rewrite Pe fmap_app. set_solver. }
  split; try done.
  - rewrite Hp Pe. done.
  - intros t0 x [->|Hin]%elem_of_cons Hx.
    + rewrite Po // E2. simplify_eq. by simplify_map_eq.
    + apply Pf; [done|]. rewrite E2 lookup_insert_ne //. set_solver.
  - intros t0 [Hne Hin]%not_elem_of_cons. rewrite Po // E2 lookup_insert_ne //.
  - constructor; [done|]. apply Forall_forall. intros x Hx. apply Hmin. rewrite Pe. set_solver.
  - exists n. split; [lia|]. split; [|done]. intros x [->|Hx]%elem_of_cons; [|by apply Pn1].
    cbn [snd]. etrans; [exact Hdue|]. apply Hm. lia.
  - congruence.
Qed.

Lemma time_engine_progress_spec fuel w :
  timer_quiet → engine_stable → clock_monotone → engine_lock ∉ L → J w → expiry_ok w →
  (length (heap_elems (timerlist w)) < fuel)%nat →
  wp (time_engine_progress hw_clock obj_satisfy dpc_call fuel) (λ _ w', (∃ fired, progressed w w' fired) ∧
    expiry_ok w' ∧ J w' ∧ objs w' = objs w ∧ dpcs w' = dpcs w) w.
Proof.
  intros Hq Hst Hm HL. revert w. induction fuel as [|fuel IH]; intros w Hj Hok Hlen; [lia|].
  pose proof Hok as [Lv Lk Nd Qd]. assert (engine_lock ∉ locks w) as Hel by by rewrite Lk. cbn [time_engine_progress]. unfold current_nanos, arm.
  repeat k_step. apply wp_assert_i; [by apply bool_decide_eq_true|]. repeat k_step.
  set (w1 := k_locks _ (k_reads _ w)).
  destruct (heap_peek (timerlist w)) as [root|] eqn:Hpk.
  - pose proof (heap_pop_peek (timerlist w)) as Hpop. rewrite Hpk in Hpop.
    destruct (heap_pop (timerlist w)) as [[r h']|] eqn:Ep; [|done]. injection Hpop as ->.
    destruct (expiry_elem _ _ _ Hok Ep) as (t & Ht & Hqo & Hp & Hmin).
    unfold w1. k_step. k_step. case_decide as Hd.
    + repeat k_step. rewrite release_acquired //. split_and!; try done; [|by apply (Hst w _ (deadline t))].
      exists []. split; k_simpl; rewrite ?Hpk; try done; [by intros ?? ?%elem_of_nil|constructor|..].
      * exists (reads w). split; [lia|]. split; [set_solver|]. intros x. rewrite Hp.
        intros [->|Hx]%elem_of_cons; cbn [snd]; [lia|]. specialize (Hmin x Hx). lia.
      * by exists t.
    + apply wp_bind_i. eapply wp_mono.
      { apply (fire_root_spec _ root h' t); k_simpl; [done|done| |done|done|by rewrite Lk|done|].
        { by apply (Hst w _ (next_deadline (kcpu w))). }
        destruct Hqo as (t' & o & ? & ? & ? & ? & Hl & ?). exists t', o. split_and!; try done.
        k_simpl. set_solver. }
      k_simpl. intros [] w2 (F1 & F2 & F3 & F4 & F5 & F6 & F7 & F8). rewrite -Lk in F5.
      assert (expiry_ok w2) as Hok2 by (eapply expiry_ok_fired; done).
      eapply wp_mono; [apply IH; [done|done|]|].
      * rewrite F1. assert (length (heap_elems (timerlist w)) = S (length (heap_elems h'))) by by rewrite Hp. lia.
      * intros [] w3 ([fired Hf] & Hok3 & Hj3 & Eo & Ed). split_and!; [|done|done|by rewrite Eo|by rewrite Ed].
        exists ((root, deadline t) :: fired).
        eapply (progressed_step w w2 w3 root t fired h' (reads w)); done || lia.
  - unfold w1. repeat k_step. rewrite release_acquired //. pose proof Hpk as Hnil%heap_peek_none.
    split_and!; try done; [|by apply (Hst w _ UINT64_MAX)].
    exists []. split; k_simpl; rewrite ?Hpk ?Hnil; try done; [by intros ?? ?%elem_of_nil|constructor|..].
    exists (reads w). split; [lia|]. split; set_solver.
Qed.
End expiry.

(** ** The heap and the timers agree *)
Section agree.
Context {H : Type} `{TimerHeap H}.
Notation K := (kworld H).

Record timers_ok (w : K) : Prop := {
  tk_nodup : NoDup (heap_elems (timerlist w)).*1;
  tk_elem : ∀ t d, (t, d) ∈ heap_elems (timerlist w) ↔
    ∃ x, timers w !! t = Some x ∧ engine x = true ∧ deadline x = d;
  tk_state : ∀ t x, timers w !! t = Some x → engine x = true ↔ timer_state x = kTimerQueued;
}.

Lemma kick_eq (w : K) : timers (kick w) = timers w ∧ timerlist (kick w) = timerlist w ∧
  ksched (kick w) = ksched w ∧ threads (kick w) = threads w ∧ locks (kick w) = locks w ∧
  irql (kcpu (kick w)) = irql (kcpu w) ∧ thread_next (kcpu (kick w)) = thread_next (kcpu w) ∧
  thread_current (kcpu (kick w)) = thread_current (kcpu w) ∧ objs (kick w) = objs w ∧
  timer_update (kcpu (kick w)) = timer_update (kcpu w) ∧ cpu_id (kcpu (kick w)) = cpu_id (kcpu w) ∧
  idle_thread (kcpu (kick w)) = idle_thread (kcpu w).
Proof.
  unfold kick. destruct (dpcs w !! timer_update (kcpu w)) as [x|]; [destruct (enqueued x)|]; by split_and!.
Qed.

Context `{!TimerHeapLaws H}.

Lemma timers_ok_key w t d : timers_ok w → (t, d) ∈ heap_elems (timerlist w) →
  t ∈ (heap_elems (timerlist w)).*1.
Proof. intros _ Hin. by apply (list_elem_of_fmap_2 fst _ (t, d)). Qed.

Lemma installed_ok tp t o c1 c2 w :
  timers_ok w → timers w !! tp = Some t → engine t = false → timers_ok (installed_world tp t o c1 c2 w).
Proof.
  intros [Nd Te Ts] Ht He. unfold installed_world.
  destruct (kick_eq (k_heap (heap_insert tp (deadline t) (timerlist w))
    (k_objs (<[tp:=set_signal 0 o]> (objs w)) (k_dpcs (dpc_contexts t c1 c2 (dpcs w))
      (k_timers (<[tp:=set_timer_state kTimerQueued (set_engine true t)]> (timers w)) (raised w))))))
    as (Et & Eh & _). k_simpl in Et. k_simpl in Eh.
  assert (∀ d, (tp, d) ∉ heap_elems (timerlist w)) as Hnew.
  { intros d (x & Hx & Hxe & _)%Te. congruence. }
  split; rewrite ?Et ?Eh.
  - rewrite (heap_insert_elems tp) fmap_cons. apply NoDup_cons. split; [|done].
    intros ([t' d] & E & Hin)%list_elem_of_fmap. cbn in E. subst. by eapply Hnew.
  - intros t' d. rewrite (heap_insert_elems tp) elem_of_cons Te.
    destruct (decide (tp = t')) as [<-|Hne].
    + rewrite lookup_insert_eq. split.
      * intros [[= ->]|(x & Hx & Hxe & _)]; [eauto|congruence].
      * intros (x & [= <-] & _ & <-). by left.
    + rewrite lookup_insert_ne //. split; [intros [[=]|]; done|by right].
  - intros t' x. destruct (decide (tp = t')) as [<-|Hne].
    + rewrite lookup_insert_eq. by intros [= <-].
    + rewrite lookup_insert_ne //. apply Ts.
Qed.

Lemma uninstalled_ok tp t w :
  timers_ok w → timers w !! tp = Some t → timers_ok (uninstalled_world tp t w).
Proof.
  intros [Nd Te Ts] Ht. unfold uninstalled_world. destruct (engine t) eqn:He.
  - destruct (kick_eq (k_timers (<[tp:=Timer (t_dpc t) (deadline t) kTimerCanceled false]> (timers w))
      (k_heap (heap_remove tp (timerlist w)) (raised w)))) as (Et & Eh & _).
    k_simpl in Et. k_simpl in Eh.
    assert ((tp, deadline t) ∈ heap_elems (timerlist w)) as Hin by (apply Te; eauto).
    pose proof (heap_remove_elems _ _ _ Nd Hin) as Hp.
    rewrite Hp fmap_cons in Nd. apply NoDup_cons in Nd as [Hnew Nd].
    split; rewrite ?Et ?Eh; [done| |].
    + intros t' d. destruct (decide (tp = t')) as [<-|Hne].
      * rewrite lookup_insert_eq. split; [|by intros (x & [= <-] & ? & _)].
        intros Hx. destruct Hnew. by apply (list_elem_of_fmap_2 fst _ (tp, d)).
      * rewrite lookup_insert_ne // -Te Hp elem_of_cons. naive_solver.
    + intros t' x. destruct (decide (tp = t')) as [<-|Hne].
      * rewrite lookup_insert_eq. by intros [= <-].
      * rewrite lookup_insert_ne //. apply Ts.
  - split; k_simpl; [done| |].
    + intros t' d. rewrite Te. unfold raised. k_simpl. destruct (decide (tp = t')) as [<-|Hne].
      * rewrite lookup_insert_eq. split; intros (x & Hx & Hxe & _); simplify_eq; cbn in Hxe; congruence.
      * by rewrite lookup_insert_ne.
    + intros t' x. destruct (decide (tp = t')) as [<-|Hne].
      * rewrite lookup_insert_eq. intros [= <-]. cbn. by rewrite He.
      * rewrite lookup_insert_ne //. apply Ts.
Qed.

(** A run of the engine keeps the agreement. *)
Lemma progressed_ok hw_clock w w' fired : timers_ok w → progressed hw_clock w w' fired → timers_ok w'.
Proof.
  intros [Nd Te Ts] [Pe Pf Po _ _ _ _]. rewrite Pe fmap_app in Nd. apply NoDup_app in Nd as (_ & Hdisj & Nd).
  assert (∀ t d, (t, d) ∈ heap_elems (timerlist w') → t ∉ fired.*1) as Hleft.
  { intros t d Hin Hf. apply (Hdisj t Hf). by apply (list_elem_of_fmap_2 fst _ (t, d)). }
  assert (∀ t x, timers w' !! t = Some x → engine x = true → t ∉ fired.*1) as Hq.
  { intros t x Hx He Hf. pose proof Hf as ([t0 d] & E & Hin)%list_elem_of_fmap. cbn in E. subst t0.
    destruct (proj1 (Te t d)) as (y & Hy & _); [rewrite Pe; set_solver|]. rewrite (Pf t y Hf Hy) in Hx. by injection Hx as <-. }
  split; [done| |].
  - intros t d. split.
    + intros Hin. rewrite (Po t (Hleft t d Hin)). apply Te. rewrite Pe. set_solver.
    + intros (x & Hx & He & Hd). pose proof (Hq t x Hx He) as Hf. rewrite (Po t Hf) in Hx.
      assert ((t, d) ∈ heap_elems (timerlist w)) as Hin by (apply Te; eauto). rewrite Pe in Hin.
      apply elem_of_app in Hin as [Hin|]; [|done]. destruct Hf. by apply (list_elem_of_fmap_2 fst _ (t, d)).
  - intros t x Hx. destruct (decide (t ∈ fired.*1)) as [Hf|Hf].
    + pose proof Hf as ([t0 d] & E & Hin)%list_elem_of_fmap. cbn in E. subst t0.
      destruct (proj1 (Te t d)) as (y & Hy & _); [rewrite Pe; set_solver|]. rewrite (Pf t y Hf Hy) in Hx. by injection Hx as <-.
    + rewrite (Po t Hf) in Hx. exact (Ts t x Hx).
Qed.
End agree.
