(* ===== verification/Sched.v ===== *)
(** * The scheduler: [kernel/sched/sched.c], [kernel/platform/amd64/sched.c]

    Per-CPU priority run queues with a bit mask of the queues that are not empty,
    a standby thread ([thread_next]) and the running thread.  A context switch
    releases the old thread's lock and comes back when somebody switches to that
    thread again; what the other threads do in between is the parameter [resume]. *)

From S2P Require Import Prelude Queue Core Dpc Timer.

Section sched.
Context {H : Type} `{TimerHeap H}.
Notation K := (kworld H).
Context (hw_clock : nat → Z).
Context (lower : Z → M K unit).
Context (resume : nat → M K unit).

Definition done_queue_fn : M K unit :=
  old ← port_set_ints false;
  ok ← spinlock_try_lock done_lock;
  if (ok : bool) then
    modify (k_done []);;
    spinlock_release done_lock;;
    port_set_ints old;;
    mret tt
  else mret tt.

Definition sched_init : M K unit :=
  modify (k_done []);;
  SPINLOCK_INIT done_lock;;
  SPINLOCK_INIT sched_lock;;
  upd_sched (λ s, set_queues (replicate PRIORITY_COUNT []) (run_mask s) s);;
  s ← gets ksched;
  dpc_init (preemption_dpc s) preemption_dpc_fn;;
  timer_init (preemption_timer s).

(** The kernel stack is the parameter [kstack_base], what [vm_kalloc] returned. *)
Definition sched_init_thread (kstack_base : option Z) (t : nat) (ip : start_fn) (prio : nat) (context1 context2 : option nat) : M K unit :=
  x ← ld Threads t;
  assertM (bool_decide (is_Some kstack_base)) "kstack_base";;
  w ← get;
  st Timers (wait_timer x) (Timer None 0 kTimerUnused false);;
  st Objs (wait_timer x) (ObjHeader 0 None 0 0 0 []);;
  st Threads t (Thread (wait_timer x) (-1) (-1) None (cpu_id (kcpu w)) 30 kThreadStateNull prio (Some (ip, context1, context2)) None);;
  SPINLOCK_INIT (thread_lock t).

Definition check_timer (t : nat) : M K unit :=
  x ← ld Threads t;
  s ← gets ksched;
  if decide (Z.shiftr (run_mask s) (Z.of_nat (priority x)) ≠ 0) then
    timer_uninstall lower (preemption_timer s);;
    timer_set_in hw_clock lower (preemption_timer s) (MS2NS (timeslice x)) (Some (preemption_dpc s));;
    timer_install lower (preemption_timer s) None None
  else timer_uninstall lower (preemption_timer s).

(** [TAILQ_INSERT_TAIL(&sched->run_queues[p], thread, entry)] and the mask bit. *)
Definition runq_insert (p t : nat) : M K unit :=
  s ← gets ksched;
  if decide (p < length (run_queues s))%nat then
    upd_sched (λ s, set_queues (alter (λ q, q ++ [t]) p (run_queues s)) (run_mask s) s);;
    upd_sched (λ s, set_queues (run_queues s) (wrap16 (Z.lor (run_mask s) (Z.shiftl 1 (Z.of_nat p)))) s)
  else fail (OutOfBounds "run_queues").

Fixpoint sched_insert (fuel : nat) (t : nat) : M K unit :=
  match fuel with
  | O => fail OutOfFuel
  | S fuel =>
      h1 ← spinlock_held sched_lock;
      assertM h1 "spinlock_held(&sched->sched_lock)";;
      h2 ← spinlock_held (thread_lock t);
      assertM h2 "spinlock_held(&thread->thread_lock)";;
      level ← irql_current;
      assertM (bool_decide (level >= IRQL_DISPATCH)) "irql_current() >= IRQL_DISPATCH";;
      upd Threads t (set_state kThreadStateReady);;
      c ← gets kcpu;
      compare ← deref "compare" (match thread_next c with Some n => Some n | None => thread_current c end);
      cx ← ld Threads compare;
      x ← ld Threads t;
      if decide (priority x ≤ priority cx)%nat then
        runq_insert (priority x) t;;
        check_timer compare
      else
        upd Threads t (set_state kThreadStateStandby);;
        upd_cpu (set_next (Some t));;
        match thread_next c with
        | Some _ => sched_insert fuel t
        | None => softint_issue IRQL_DISPATCH
        end
  end.

(** The loop of [sched_next], from index [i] down to [prio]. *)
Fixpoint sched_next_from (i prio : nat) : M K (option nat) :=
  match i with
  | O => mret None
  | S i' =>
      if decide (prio < i)%nat then
        s ← gets ksched;
        q ← deref "run_queues" (run_queues s !! i');
        match q with
        | [] => sched_next_from i' prio
        | tp :: _ =>
            upd_sched (λ s, set_queues (alter (Abs.remove tp) i' (run_queues s)) (run_mask s) s);;
            x ← ld Threads tp;
            s ← gets ksched;
            q' ← deref "run_queues" (run_queues s !! i');
            whenM (bool_decide (q' = []))
              (upd_sched (λ s, set_queues (run_queues s)
                 (Z.land (run_mask s) (Z.lnot (Z.shiftl 1 (Z.of_nat (priority x))))) s));;
            mret (Some tp)
        end
      else mret None
  end.

Definition sched_next (prio : nat) : M K (option nat) :=
  h ← spinlock_held sched_lock;
  assertM h "spinlock_held(&sched->sched_lock)";;
  sched_next_from PRIORITY_COUNT prio.

Definition sched_reschedule : M K unit :=
  cur ← curthread;
  old ← spinlock_acquire_raise sched_lock;
  current ← deref "current" cur;
  x ← ld Threads current;
  next ← sched_next (priority x);
  whenM (bool_decide (is_Some next)) (upd_cpu (set_next next));;
  spinlock_release_lower lower sched_lock old.

(** [switch_context]: save the callee-saved registers, release the old thread's
    lock, load the new thread's stack. *)
Definition sched_port_switch (old new : nat) : M K unit :=
  spinlock_release (thread_lock old);;
  modify (λ w, k_switches ((old, new) :: switches w) w);;
  resume old.

Definition sched_switch_thread (current t : nat) : M K unit :=
  upd_cpu (set_current (Some t));;
  x ← ld Threads t;
  timer_uninstall lower (wait_timer x);;
  sched_port_switch current t.

Definition sched_preempt : M K unit :=
  spinlock_acquire sched_lock;;
  c ← gets kcpu;
  upd_cpu (set_next None);;
  spinlock_release sched_lock;;
  current ← deref "current" (thread_current c);
  spinlock_acquire (thread_lock current);;
  whenM (bool_decide (current ≠ idle_thread c))
    (spinlock_acquire sched_lock;;
     sched_insert 2 current;;
     spinlock_release sched_lock);;
  next_thread ← deref "next_thread" (thread_next c);
  sched_switch_thread current next_thread.

Definition sched_resume (t : nat) : M K unit :=
  x ← ld Threads t;
  if decide (state x = kThreadStateReady) then mret tt
  else
    ipl ← spinlock_acquire_raise sched_lock;
    spinlock_acquire (thread_lock t);;
    sched_insert 2 t;;
    c ← gets kcpu;
    upd Threads t (set_last_processor (cpu_id c));;
    spinlock_release (thread_lock t);;
    spinlock_release_lower lower sched_lock ipl.

Definition sched_yield_internal (current : nat) : M K unit :=
  spinlock_acquire sched_lock;;
  next ← sched_next 0;
  spinlock_release sched_lock;;
  c ← gets kcpu;
  sched_switch_thread current (default (idle_thread c) next).

Definition sched_yield : M K unit :=
  cur ← curthread;
  current ← deref "current" cur;
  h ← spinlock_held (thread_lock current);
  assertM h "spinlock_held(&current->thread_lock)";;
  sched_yield_internal current.

Definition sched_exit_destroy : M K unit :=
  cur ← curthread;
  irql_raise IRQL_DISPATCH;;
  spinlock_acquire done_lock;;
  current ← deref "current" cur;
  modify (λ w, k_done (done_queue w ++ [current]) w);;
  spinlock_acquire (thread_lock current);;
  spinlock_release done_lock;;
  sched_yield_internal current;;
  fail (AssertFail "yield returned to thread after exit_destroy").

Definition sched_jump_into_idle_thread : M K unit :=
  upd_cpu (λ c, set_current (Some (idle_thread c)) c).
End sched.

(** ** The run queues and their mask *)
Section runq.
Context {H : Type} `{TimerHeap H}.
Notation K := (kworld H).
Record runq_ok (s : scheduler) (ths : gmap nat thread) : Prop := {
  rq_len : length (run_queues s) = PRIORITY_COUNT;
  rq_nodup : ∀ p q, run_queues s !! p = Some q → NoDup q;
  rq_prio : ∀ p q t, run_queues s !! p = Some q → t ∈ q → ∃ x, ths !! t = Some x ∧ priority x = p;
  rq_mask : ∀ p q, run_queues s !! p = Some q → Z.testbit (run_mask s) (Z.of_nat p) = true ↔ q ≠ [];
  rq_range : 0 ≤ run_mask s ∧ ∀ n, 16 ≤ n → Z.testbit (run_mask s) n = false;
}.

Definition queued (s : scheduler) (t : nat) : Prop := ∃ p q, run_queues s !! p = Some q ∧ t ∈ q.

Definition pushed (s : scheduler) (p t : nat) : scheduler :=
  set_queues (alter (λ q, q ++ [t]) p (run_queues s))
    (wrap16 (Z.lor (run_mask s) (Z.shiftl 1 (Z.of_nat p)))) s.
Definition popped (s : scheduler) (p : nat) (q : list nat) : scheduler :=
  set_queues (<[p := q]> (run_queues s))
    (if decide (q = []) then Z.land (run_mask s) (Z.lnot (Z.shiftl 1 (Z.of_nat p))) else run_mask s) s.

Lemma testbit_one p n : 0 ≤ n → Z.testbit (Z.shiftl 1 (Z.of_nat p)) n = bool_decide (n = Z.of_nat p).
Proof.
  intros Hn. rewrite Z.shiftl_1_l Z.pow2_bits_eqb; [lia|]. case_bool_decide as E.
  - subst. apply Z.eqb_refl.
  - apply Z.eqb_neq. lia.
Qed.

Lemma pushed_ok s ths p t x :
  runq_ok s ths → (p < PRIORITY_COUNT)%nat → ths !! t = Some x → priority x = p → ¬ queued s t →
  runq_ok (pushed s p t) ths.
Proof.
  intros [Le Nd Pr Ma [R1 R2]] Hp Hx Ep Hq. unfold PRIORITY_COUNT in *.
  assert (∀ p' q', alter (λ q, q ++ [t]) p (run_queues s) !! p' = Some q' →
    (p' = p ∧ ∃ q, run_queues s !! p = Some q ∧ q' = q ++ [t]) ∨
    (p' ≠ p ∧ run_queues s !! p' = Some q')) as Hcase.
  { intros p' q' Hl. destruct (decide (p = p')) as [<-|Hne].
    - left. rewrite list_lookup_alter_eq in Hl. apply fmap_Some in Hl as (q & ? & ->). eauto.
    - right. by rewrite list_lookup_alter_ne in Hl. }
  split; unfold pushed; cbn [run_queues run_mask set_queues].
  - by rewrite length_alter.
  - intros p' q' [(-> & q & Hl & ->)|[_ Hl]]%Hcase; [|by eapply Nd].
    apply NoDup_snoc; [by eapply Nd|]. intros Ht. apply Hq. by exists p, q.
  - intros p' q' t' [(-> & q & Hl & ->)|[_ Hl]]%Hcase Ht; [|by eapply Pr].
    apply elem_of_app in Ht as [Ht| ->%list_elem_of_singleton]; [by eapply Pr|eauto].
  - intros p' q' Hl. pose proof (lookup_lt_Some _ _ _ Hl) as Hlt. rewrite length_alter Le in Hlt.
    unfold wrap16. rewrite Z.mod_pow2_bits_low; [lia|]. rewrite Z.lor_spec testbit_one; [lia|].
    apply Hcase in Hl as [(-> & q & Hl & ->)|[Hne Hl]].
    + rewrite bool_decide_true // orb_true_r. split; [|done]. by destruct q.
    + rewrite bool_decide_false; [lia|]. rewrite orb_false_r. by apply Ma.
  - unfold wrap16. split; [apply Z.mod_pos_bound; lia|]. intros n Hn. apply Z.mod_pow2_bits_high. lia.
Qed.

Lemma popped_ok s ths p t q :
  runq_ok s ths → run_queues s !! p = Some (t :: q) → runq_ok (popped s p q) ths.
Proof.
  intros [Le Nd Pr Ma [R1 R2]] Hp. pose proof (lookup_lt_Some _ _ _ Hp) as Hlt. unfold PRIORITY_COUNT in *.
  assert (∀ p' q', <[p := q]> (run_queues s) !! p' = Some q' →
    (p' = p ∧ q' = q) ∨ (p' ≠ p ∧ run_queues s !! p' = Some q')) as Hcase.
  { intros p' q' Hl. destruct (decide (p = p')) as [<-|Hne].
    - left. rewrite list_lookup_insert_eq // in Hl. naive_solver.
    - right. by rewrite list_lookup_insert_ne in Hl. }
  pose proof (Nd _ _ Hp) as [_ Ndq]%NoDup_cons.
  assert (∀ n, 0 ≤ n → Z.testbit (Z.land (run_mask s) (Z.lnot (Z.shiftl 1 (Z.of_nat p)))) n =
    Z.testbit (run_mask s) n && negb (bool_decide (n = Z.of_nat p))) as Hland.
  { intros n Hn. by rewrite Z.land_spec Z.lnot_spec // testbit_one. }
  split; unfold popped; cbn [run_queues run_mask set_queues].
  - by rewrite length_insert.
  - intros p' q' [[-> ->]|[_ Hl]]%Hcase; [done|by eapply Nd].
  - intros p' q' t' [[-> ->]|[_ Hl]]%Hcase Ht; [|by eapply Pr]. eapply Pr; [done|by right].
  - intros p' q' [[-> ->]|[Hne Hl]]%Hcase.
    + case_decide as E; [|by rewrite (Ma _ _ Hp)]. rewrite Hland; [lia|].
      rewrite bool_decide_true // andb_false_r. by subst.
    + rewrite -(Ma _ _ Hl). case_decide; [|done]. rewrite Hland; [lia|].
      rewrite bool_decide_false; [lia|]. by rewrite andb_true_r.
  - case_decide; [|done]. split; [apply Z.land_nonneg; by left|]. intros n Hn.
    rewrite Hland; [lia|]. by rewrite R2.
Qed.

(** No thread of priority [p] or higher is ready. *)
Definition empty_from (s : scheduler) (p : nat) : Prop :=
  ∀ p' q, (p ≤ p')%nat → run_queues s !! p' = Some q → q = [].

Lemma mask_shift s ths p : runq_ok s ths → Z.shiftr (run_mask s) (Z.of_nat p) = 0 ↔ empty_from s p.
Proof.
  intros [Le _ _ Ma [R1 R2]]. unfold PRIORITY_COUNT in Le. split.
  - intros Hm p' q Hp Hl. apply dec_stable. intros Hq. apply (Ma p' q Hl) in Hq.
    apply (f_equal (λ z, Z.testbit z (Z.of_nat p' - Z.of_nat p))) in Hm.
    rewrite Z.shiftr_spec in Hm; [lia|]. rewrite Z.bits_0 Z.sub_add in Hm. congruence.
  - intros He. apply Z.bits_inj_0. intros n. destruct (decide (n < 0)); [by rewrite Z.testbit_neg_r|].
    rewrite Z.shiftr_spec; [lia|]. destruct (decide (n + Z.of_nat p < 16)) as [Hlt|]; [|apply R2; lia].
    destruct (lookup_lt_is_Some_2 (run_queues s) (Z.to_nat (n + Z.of_nat p))) as [q Hl]; [lia|].
    apply not_true_iff_false. intros Hb. apply (Ma _ q Hl); [rewrite Z2Nat.id; [lia|done]|].
    eapply He; [|done]. lia.
Qed.

(** ** Choosing the next thread *)
Lemma sched_next_from_spec i prio (w : K) :
  runq_ok (ksched w) (threads w) → (i ≤ PRIORITY_COUNT)%nat →
  wp (sched_next_from i prio) (λ r w', match r with
    | None => w' = w ∧ ∀ p q, (prio ≤ p < i)%nat → run_queues (ksched w) !! p = Some q → q = []
    | Some tp => ∃ p q, (prio ≤ p < i)%nat ∧ run_queues (ksched w) !! p = Some (tp :: q) ∧
        (∀ p' q', (p < p' < i)%nat → run_queues (ksched w) !! p' = Some q' → q' = []) ∧
        w' = k_sched (popped (ksched w) p q) w
    end) w.
Proof.
  intros Hok. pose proof Hok as [Le Nd Pr Ma Ra]. induction i as [|i IH]; intros Hi; cbn [sched_next_from].
  { k_step. split; [done|]. lia. }
  case_decide as Hlt; [|k_step; split; [done|lia]].
  destruct (lookup_lt_is_Some_2 (run_queues (ksched w)) i) as [q Hq]; [lia|].
  repeat k_step. eapply wp_deref_i; [done|]. destruct q as [|tp q].
  - eapply wp_mono; [apply IH; lia|]. intros [t|] w'.
    + intros (p & q & ? & ? & Hhi & ?). exists p, q. split_and!; [lia|lia|done| |done].
      intros p' q' Hp' Hl. destruct (decide (p' = i)) as [->|]; [congruence|]. apply (Hhi p'); [lia|done].
    + intros [-> Hall]. split; [done|]. intros p q Hp Hl.
      destruct (decide (p = i)) as [->|]; [congruence|]. apply (Hall p); [lia|done].
  - destruct (Pr i _ tp Hq) as (x & Hx & Hxp); [left|].
    assert (Abs.remove tp (tp :: q) = q) as Er.
    { pose proof (Nd _ _ Hq) as [? ?]%NoDup_cons. apply (Abs.remove_split tp [] q); set_solver. }
    assert (alter (Abs.remove tp) i (run_queues (ksched w)) = <[i := q]> (run_queues (ksched w))) as Ea.
    { apply list_eq. intros j. destruct (decide (i = j)) as [<-|].
      - rewrite list_lookup_alter_eq Hq list_lookup_insert_eq; [lia|]. cbn [fmap option_fmap option_map]. by rewrite Er.
      - by rewrite list_lookup_alter_ne // list_lookup_insert_ne. }
    repeat k_step. rewrite Ea. eapply wp_deref_i; [k_simpl; apply list_lookup_insert_eq; lia|].
    apply wp_bind_i. rewrite wp_when. unfold popped. case_bool_decide as Eq; repeat k_step;
      exists i, q; (split_and!; [lia|lia|done|intros; lia|]).
    + by rewrite Hxp decide_True.
    + by rewrite decide_False.
Qed.
End runq.

Section timer_steps.
Context {H : Type} `{TimerHeap H}.
Notation K := (kworld H).
Context (lower : Z → M K unit).

(** ** The preemption timer

    At dispatch level, with no software interrupt above it pending, [irql_lower] back
    to dispatch level does nothing; SoftInt.v shows this of the real routine. *)
Definition calm (w : K) : Prop := Z.shiftr (softint_pending (kcpu w)) 2 = 0.
Definition lower_calm : Prop := ∀ w, irql (kcpu w) = IRQL_DISPATCH → calm w →
  lower IRQL_DISPATCH w = Ok (tt, w).

(** What the timer routines leave alone. *)
Record timer_frame (w w' : K) : Prop := {
  tf_sched : ksched w' = ksched w;
  tf_threads : threads w' = threads w;
  tf_locks : locks w' = locks w;
  tf_irql : irql (kcpu w') = irql (kcpu w);
  tf_current : thread_current (kcpu w') = thread_current (kcpu w);
  tf_next : thread_next (kcpu w') = thread_next (kcpu w);
  tf_id : cpu_id (kcpu w') = cpu_id (kcpu w) ∧ idle_thread (kcpu w') = idle_thread (kcpu w);
  tf_switches : switches w' = switches w;
  tf_timers : ∀ i, is_Some (timers w !! i) → is_Some (timers w' !! i);
  tf_objs : ∀ i, is_Some (objs w !! i) → is_Some (objs w' !! i);
}.
#[global] Instance timer_frame_refl : Reflexive timer_frame.
Proof. by intros w. Qed.
#[global] Instance timer_frame_trans : Transitive timer_frame.
Proof.
  intros w1 w2 w3 [? ? ? ? ? ? [? ?] ? ? ?] [? ? ? ? ? ? [? ?] ? ? ?].
  split; [congruence..|split; congruence|congruence|auto|auto].
Qed.

Record timer_ready (w : K) (tp : nat) : Prop := {
  tr_env : timer_env w;
  tr_level : irql (kcpu w) = IRQL_DISPATCH;
  tr_calm : calm w;
  tr_ok : timers_ok w;
  tr_timer : is_Some (timers w !! tp);
  tr_obj : is_Some (objs w !! tp);
  tr_lock : object_lock tp ∉ locks w;
  tr_dpc : is_Some (dpcs w !! preemption_dpc (ksched w));
}.

Lemma calm_lor p : Z.shiftr p 2 = 0 → Z.shiftr (Z.lor p 2) 2 = 0.
Proof. intros E. by rewrite Z.shiftr_lor E. Qed.
Lemma kick_calm (w : K) : calm w → calm (kick w).
Proof.
  unfold calm, kick. destruct (dpcs w !! _) as [x|]; [destruct (enqueued x)|]; try done. apply calm_lor.
Qed.
Lemma kick_dpcs (w : K) d : is_Some (dpcs w !! d) → is_Some (dpcs (kick w) !! d).
Proof.
  unfold kick. destruct (dpcs w !! timer_update (kcpu w)) as [x|]; [destruct (enqueued x)|]; try done.
  unfold enqueued_world. k_simpl. rewrite lookup_insert_is_Some'. auto.
Qed.
Ltac frame_tac := split; try done; k_simpl; intros; rewrite ?lookup_insert_is_Some'; auto.
Lemma kick_frame (w : K) : timer_frame w (kick w).
Proof. unfold kick. destruct (dpcs w !! timer_update (kcpu w)) as [x|]; [destruct (enqueued x)|]; by split. Qed.
Lemma kick_ready (w : K) tp : timer_ready w tp → timer_ready (kick w) tp ∧ timer_frame w (kick w).
Proof.
  intros [[E1 E2 E3 E4] Lv Ca [N T S] Ti Ob Lo Dp].
  destruct (kick_eq w) as (Kt & Kh & Ks & Kth & Kl & Ki & Kn & Kc & Ko & Ku & Kid & Kidle).
  split; [|apply kick_frame]. split; rewrite ?Ki ?Kt ?Ko ?Kl ?Ks //.
  - split; rewrite ?Ki ?Kl ?Ku //. by apply kick_dpcs.
  - by apply kick_calm.
  - split; rewrite ?Kt ?Kh //.
  - by apply kick_dpcs.
Qed.

Context `{!TimerHeapLaws H} (Hlower : lower_calm).

Lemma raised_id (w : K) : irql (kcpu w) = IRQL_DISPATCH → raised w = w.
Proof. intros E. unfold raised, set_irql. by rewrite -E. Qed.
Lemma wp_lower_calm (Q : unit → K → Prop) (w w0 : K) :
  irql (kcpu w0) = IRQL_DISPATCH → irql (kcpu w) = IRQL_DISPATCH → calm w → Q tt w →
  wp (lower (irql (kcpu w0))) Q w.
Proof. intros E0 E Hc HQ. rewrite E0 /wp Hlower //. Qed.

Lemma uninstall_step (w : K) tp :
  timer_ready w tp →
  wp (timer_uninstall lower tp) (λ _ w', timer_ready w' tp ∧ timer_frame w w' ∧
    ∃ t, timers w' !! tp = Some t ∧ engine t = false ∧ timer_state t = kTimerCanceled) w.
Proof.
  intros R. pose proof R as [Te Lv Ca Ok [t Ht] [o Hob] Lo Dp].
  eapply (wp_timer_uninstall lower tp t); [done..|].
  pose proof (uninstalled_ok tp t w Ok Ht) as Ok'.
  assert (timer_ready (uninstalled_world tp t w) tp ∧ timer_frame w (uninstalled_world tp t w) ∧
    ∃ t', timers (uninstalled_world tp t w) !! tp = Some t' ∧ engine t' = false ∧
          timer_state t' = kTimerCanceled) as (R' & F' & T').
  { unfold uninstalled_world in *. rewrite raised_id // in Ok' |- *. destruct (engine t) eqn:En.
    - set (w1 := k_timers _ _) in *. destruct (kick_eq w1) as (Kt & Kh & _).
      assert (timers_ok w1) as Ok1 by (destruct Ok' as [A B C]; rewrite ?Kt ?Kh in A, B, C; by split).
      assert (timer_ready w1 tp) as R1.
      { destruct Te. split; try done; unfold w1; k_simpl; eauto. rewrite lookup_insert_eq. eauto. }
      destruct (kick_ready w1 tp R1) as [R2 F2]. split_and!; [done| |].
      + etrans; [|exact F2]. unfold w1. frame_tac.
      + rewrite Kt. unfold w1. k_simpl. rewrite lookup_insert_eq. by eexists.
    - destruct Te. split_and!.
      + split; try done; k_simpl; eauto. rewrite lookup_insert_eq. eauto.
      + frame_tac.
      + k_simpl. rewrite lookup_insert_eq. by eexists. }
  apply wp_lower_calm; [done|by destruct R'|by destruct R'|done].
Qed.

Lemma set_step (w : K) tp t dl d :
  timer_ready w tp → timers w !! tp = Some t → engine t = false →
  wp (timer_set lower tp dl d) (λ _ w', timer_ready w' tp ∧ timer_frame w w' ∧
    timers w' !! tp = Some (set_timer d dl t)) w.
Proof.
  intros R Ht He. pose proof R as [[E1 E2 E3 E4] Lv Ca [N T S] Ti Ob Lo Dp].
  assert (timer_state t ≠ kTimerQueued) as Hs by (rewrite -(S tp t Ht); congruence).
  eapply (wp_timer_set lower tp t); [rewrite Lv; done|done..|]. rewrite raised_id //.
  apply wp_lower_calm; [done..|]. split_and!; [|frame_tac|k_simpl; apply lookup_insert_eq].
  split; try done; k_simpl; rewrite ?lookup_insert_is_Some'; auto. split; k_simpl; [done| |].
  - intros t' d'. rewrite T. destruct (decide (tp = t')) as [<-|].
    + rewrite lookup_insert_eq. split; intros (x & Hx & Hxe & _); simplify_eq; cbn in Hxe; congruence.
    + by rewrite lookup_insert_ne.
  - intros t' x. destruct (decide (tp = t')) as [<-|]; [|rewrite lookup_insert_ne //; apply S].
    rewrite lookup_insert_eq. intros [= <-]. apply (S tp t Ht).
Qed.

Lemma install_step (w : K) tp t c1 c2 :
  timer_ready w tp → timers w !! tp = Some t → engine t = false →
  (∀ d, t_dpc t = Some d → is_Some (dpcs w !! d)) →
  wp (timer_install lower tp c1 c2) (λ _ w', timer_ready w' tp ∧ timer_frame w w' ∧
    timers w' !! tp = Some (set_timer_state kTimerQueued (set_engine true t))) w.
Proof.
  intros R Ht He Hdpc. pose proof R as [Te Lv Ca Ok Ti [o Hob] Lo Dp].
  assert (timer_state t ≠ kTimerQueued) as Hs by (rewrite -(tk_state _ Ok tp t Ht); congruence).
  eapply (wp_timer_install lower tp t o); [done..|].
  pose proof (installed_ok tp t o c1 c2 w Ok Ht He) as Ok'. unfold installed_world in *.
  rewrite raised_id // in Ok' |- *. set (w1 := k_heap _ _) in *. destruct (kick_eq w1) as (Kt & Kh & _).
  assert (timers_ok w1) as Ok1 by (destruct Ok' as [A B C]; rewrite ?Kt ?Kh in A, B, C; by split).
  assert (∀ d, is_Some (dpcs w !! d) → is_Some (dpc_contexts t c1 c2 (dpcs w) !! d)) as Hctx.
  { intros d Hd. unfold dpc_contexts. destruct (t_dpc t) as [k|]; [|done]. by rewrite lookup_alter_is_Some. }
  assert (timer_ready w1 tp) as R1.
  { destruct Te. split; try done; unfold w1; k_simpl; rewrite ?lookup_insert_is_Some'; auto.
    split; k_simpl; auto. }
  destruct (kick_ready w1 tp R1) as [R2 F2].
  apply wp_lower_calm; [done|by destruct R2|by destruct R2|]. split_and!; [done|etrans; [|exact F2]; unfold w1; frame_tac|].
  rewrite Kt. unfold w1. k_simpl. apply lookup_insert_eq.
Qed.

Context (hw_clock : nat → Z).

(** [check_timer]: the preemption timer runs exactly when a thread of at least the
    priority of [t] is ready. *)
Lemma check_timer_spec (w : K) t x :
  timer_ready w (preemption_timer (ksched w)) → threads w !! t = Some x →
  wp (check_timer hw_clock lower t) (λ _ w', timer_ready w' (preemption_timer (ksched w)) ∧ timer_frame w w' ∧
    ∃ tm, timers w' !! preemption_timer (ksched w) = Some tm ∧
      if decide (Z.shiftr (run_mask (ksched w)) (Z.of_nat (priority x)) = 0) then
        timer_state tm = kTimerCanceled ∧ engine tm = false
      else ∃ n, tm = Timer (Some (preemption_dpc (ksched w)))
                  (wrap64 (hw_clock n + MS2NS (timeslice x))) kTimerQueued true) w.
Proof.
  intros R Hx. unfold check_timer. repeat k_step. destruct (decide (Z.shiftr _ _ ≠ 0)) as [Hm|Hm].
  - k_step. eapply wp_mono; [by apply uninstall_step|]. intros [] w1 (R1 & F1 & tm & Ht1 & He1 & _).
    k_step. unfold timer_set_in, current_nanos. repeat k_step.
    assert (timer_ready (k_reads (S (reads w1)) w1) (preemption_timer (ksched w))) as R1'.
    { destruct R1 as [[] ? ? [] ? ? ? ?]. by split. }
    eapply wp_mono; [eapply (set_step _ _ tm); done|]. intros [] w2 (R2 & F2 & Ht2).
    eapply wp_mono; [eapply (install_step w2 _ _ None None R2 Ht2); [done|]|].
    { intros d [= <-]. pose proof (tr_dpc _ _ R2) as Hd.
      by rewrite (tf_sched _ _ F2) in Hd; k_simpl in Hd; rewrite (tf_sched _ _ F1) in Hd. }
    intros [] w3 (R3 & F3 & Ht3). split_and!; [done| |].
    + etrans; [exact F1|]. etrans; [|exact F3]. etrans; [|exact F2]. frame_tac.
    + rewrite Ht3. eexists. split; [done|]. rewrite decide_False //. by eexists.
  - eapply wp_mono; [by apply uninstall_step|]. intros [] w1 (R1 & F1 & tm & Ht1 & He1 & Hs1).
    split_and!; [done..|]. exists tm. split; [done|]. rewrite decide_True //. by apply dec_stable.
Qed.

(** ** Making a thread ready *)
Lemma runq_ok_threads s ths t x x' :
  runq_ok s ths → ths !! t = Some x → priority x' = priority x → runq_ok s (<[t := x']> ths).
Proof.
  intros [Le Nd Pr Ma Ra] Ht Ep. split; try done. intros p q t' Hl Hin.
  destruct (Pr p q t' Hl Hin) as (y & Hy & Hyp).
  destruct (decide (t = t')) as [<-|]; [|exists y; by rewrite lookup_insert_ne].
  exists x'. rewrite lookup_insert_eq. naive_solver congruence.
Qed.

Record insert_env (w : K) (t : nat) (x : thread) : Prop := {
  ie_sched_lock : sched_lock ∈ locks w;
  ie_thread_lock : thread_lock t ∈ locks w;
  ie_thread : threads w !! t = Some x;
  ie_prio : (priority x < PRIORITY_COUNT)%nat;
  ie_runq : runq_ok (ksched w) (threads w);
  ie_new : ¬ queued (ksched w) t;
  ie_timer : timer_ready w (preemption_timer (ksched w));
}.

(** The thread the new one is compared with. *)
Definition rival (w : K) : option nat :=
  match thread_next (kcpu w) with Some n => Some n | None => thread_current (kcpu w) end.

(** The assertions and the reads up to the comparison. *)
Definition ready_world (t : nat) (x : thread) (w : K) : K :=
  k_threads (<[t := set_state kThreadStateReady x]> (threads w)) w.

Record inserted (w w' : K) (t : nat) (x : thread) : Prop := {
  in_sched : ksched w' = pushed (ksched w) (priority x) t;
  in_threads : threads w' = <[t := set_state kThreadStateReady x]> (threads w);
  in_runq : runq_ok (ksched w') (threads w');
  in_next : thread_next (kcpu w') = thread_next (kcpu w);
  in_current : thread_current (kcpu w') = thread_current (kcpu w);
  in_locks : locks w' = locks w;
  in_irql : irql (kcpu w') = irql (kcpu w);
  in_timer : timer_ready w' (preemption_timer (ksched w'));
  in_id : cpu_id (kcpu w') = cpu_id (kcpu w) ∧ idle_thread (kcpu w') = idle_thread (kcpu w);
  in_switches : switches w' = switches w;
  in_stores : ∀ i, (is_Some (timers w !! i) → is_Some (timers w' !! i)) ∧
                   (is_Some (objs w !! i) → is_Some (objs w' !! i));
}.

Lemma sched_insert_queues (w : K) fuel t x c y :
  insert_env w t x → rival w = Some c → threads w !! c = Some y → (priority x ≤ priority y)%nat →
  wp (sched_insert hw_clock lower (S fuel) t) (λ _ w', inserted w w' t x) w.
Proof.
  intros [Ls Lt Hx Hp Rq Nw Tr] Hr Hy Hle. pose proof Tr as [Te Lv Ca Ok Ti Ob Lo Dp].
  cbn [sched_insert]. repeat k_step. apply wp_assert_i; [by apply bool_decide_eq_true|].
  repeat k_step. apply wp_assert_i; [by apply bool_decide_eq_true|].
  repeat k_step. apply wp_assert_i; [apply bool_decide_eq_true; lia|]. repeat k_step.
  eapply wp_deref_i; [exact Hr|]. fold (ready_world t x w).
  assert (∃ y', threads (ready_world t x w) !! c = Some y' ∧ priority y' = priority y) as (y' & Hy' & Ey).
  { unfold ready_world. k_simpl. destruct (decide (t = c)) as [->|].
    - rewrite lookup_insert_eq. simplify_eq. by eexists.
    - rewrite lookup_insert_ne //. eauto. }
  k_step. eapply wp_ld; [exact Hy'|]. k_step. eapply wp_ld; [apply lookup_insert_eq|].
  change (priority (set_state kThreadStateReady x)) with (priority x).
  rewrite decide_True; [lia|]. unfold runq_insert. unfold ready_world. repeat k_step.
  rewrite decide_True; [by rewrite (rq_len _ _ Rq)|]. repeat k_step. set (w1 := k_sched _ _).
  assert (runq_ok (ksched w1) (threads w1)) as Rq1.
  { change (ksched w1) with (pushed (ksched w) (priority x) t).
    eapply runq_ok_threads; [by eapply pushed_ok|done|done]. }
  eapply wp_mono; [eapply (check_timer_spec w1 c y'); [|exact Hy']|].
  { destruct Te, Ok. split; done. }
  intros [] w2 (R2 & [F1 F2 F3 F4 F5 F6 F7 F8 F9 F10] & _). split; rewrite ?F1 ?F2 ?F3 ?F4 ?F5 ?F6 //.
  intros i. split; [apply F9|apply F10].
Qed.

(** A thread that beats the running one, with no standby thread yet. *)
Lemma sched_insert_preempts (w : K) fuel t x c y :
  insert_env w t x → thread_next (kcpu w) = None → thread_current (kcpu w) = Some c →
  threads w !! c = Some y → t ≠ c → (priority y < priority x)%nat →
  wp (sched_insert hw_clock lower (S fuel) t) (λ _ w',
    thread_next (kcpu w') = Some t ∧ threads w' = <[t := set_state kThreadStateStandby x]> (threads w) ∧
    Z.testbit (softint_pending (kcpu w')) 1 = true ∧ ksched w' = ksched w ∧ locks w' = locks w ∧
    thread_current (kcpu w') = Some c) w.
Proof.
  intros [Ls Lt Hx Hp Rq Nw Tr] Hn Hc Hy Hne Hlt. pose proof Tr as [Te Lv Ca Ok Ti Ob Lo Dp].
  cbn [sched_insert]. repeat k_step. apply wp_assert_i; [by apply bool_decide_eq_true|].
  repeat k_step. apply wp_assert_i; [by apply bool_decide_eq_true|].
  repeat k_step. apply wp_assert_i; [apply bool_decide_eq_true; lia|]. repeat k_step.
  rewrite Hn. eapply wp_deref_i; [exact Hc|]. repeat k_step.
  change (priority (set_state kThreadStateReady x)) with (priority x).
  rewrite decide_False; [lia|]. repeat k_step. rewrite insert_insert_eq. split_and!; try done.
  rewrite Z.lor_spec. by rewrite orb_true_r.
Qed.

(** A thread that beats the standby thread: the standby thread is forgotten, and the
    new thread ends up both as the standby thread and on its run queue. *)
Lemma sched_insert_displaces (w : K) fuel t x n y :
  insert_env w t x → thread_next (kcpu w) = Some n → threads w !! n = Some y → t ≠ n →
  (priority y < priority x)%nat →
  wp (sched_insert hw_clock lower (S (S fuel)) t) (λ _ w',
    thread_next (kcpu w') = Some t ∧ ksched w' = pushed (ksched w) (priority x) t ∧
    threads w' = <[t := set_state kThreadStateReady x]> (threads w)) w.
Proof.
  intros E Hn Hy Hne Hlt. pose proof E as [Ls Lt Hx Hp Rq Nw Tr]. pose proof Tr as [Te Lv Ca Ok Ti Ob Lo Dp].
  remember (S fuel) as f eqn:Ef. cbn [sched_insert]. repeat k_step.
  apply wp_assert_i; [by apply bool_decide_eq_true|].
  repeat k_step. apply wp_assert_i; [by apply bool_decide_eq_true|].
  repeat k_step. apply wp_assert_i; [apply bool_decide_eq_true; lia|]. repeat k_step.
  rewrite Hn. eapply wp_deref_i; [done|]. repeat k_step.
  change (priority (set_state kThreadStateReady x)) with (priority x).
  rewrite decide_False; [lia|]. repeat k_step. rewrite insert_insert_eq. set (w1 := k_cpu _ _).
  set (x1 := set_state kThreadStateStandby (set_state kThreadStateReady x)). subst f.
  assert (insert_env w1 t x1) as E1.
  { destruct Te, Ok. split; try done; unfold w1; k_simpl; [apply lookup_insert_eq|].
    by eapply runq_ok_threads. }
  eapply wp_mono; [eapply (sched_insert_queues w1 fuel t x1 t x1 E1); [done|apply lookup_insert_eq|done]|].
  intros [] w2 [I1 I2 _ I3 _ _ _ _ _ _ _]. split_and!; [done|done|].
  rewrite I2. unfold w1. k_simpl. by rewrite insert_insert_eq.
Qed.

Lemma timer_ready_other (w : K) tp tp' :
  timer_ready w tp → is_Some (timers w !! tp') → is_Some (objs w !! tp') → object_lock tp' ∉ locks w →
  timer_ready w tp'.
Proof. intros [] ???. by split. Qed.

(** ** Switching threads *)
Context (resume : nat → M K unit).

(** Everything the next thread finds when it starts to run: it is current, nothing is
    on standby, the old thread's lock is free and the switch has happened. *)
Record switched (w w' : K) (old new : nat) : Prop := {
  sw_current : thread_current (kcpu w') = Some new;
  sw_next : thread_next (kcpu w') = thread_next (kcpu w);
  sw_log : switches w' = (old, new) :: switches w;
  sw_locks : locks w' = locks w ∖ {[thread_lock old]};
  sw_sched : ksched w' = ksched w;
  sw_threads : threads w' = threads w;
}.

Lemma sched_switch_thread_spec (w : K) old new x (Q : unit → K → Prop) :
  timer_ready w (wait_timer x) → threads w !! new = Some x →
  (∀ w', switched w w' old new → wp (resume old) Q w') →
  wp (sched_switch_thread lower resume old new) Q w.
Proof.
  intros R Hx HQ. unfold sched_switch_thread. repeat k_step.
  eapply wp_mono; [apply uninstall_step|].
  { destruct R as [[] ? ? [] ? ? ? ?]. by split. }
  intros [] w1 (R1 & [F1 F2 F3 F4 F5 F6 F7 F8 F9 F10] & _). unfold sched_port_switch. repeat k_step.
  apply HQ. split; k_simpl; by rewrite ?F1 ?F2 ?F3 ?F5 ?F6 ?F8.
Qed.

Record thread_ready (w : K) (t : nat) (x : thread) : Prop := {
  th_thread : threads w !! t = Some x;
  th_timer : is_Some (timers w !! wait_timer x);
  th_obj : is_Some (objs w !! wait_timer x);
  th_lock : object_lock (wait_timer x) ∉ locks w;
}.

(** [sched_preempt]: the running thread goes to the tail of its run queue and the
    standby thread runs. *)
Lemma sched_preempt_spec (w : K) cur new x y (Q : unit → K → Prop) :
  thread_current (kcpu w) = Some cur → thread_next (kcpu w) = Some new → cur ≠ new →
  cur ≠ idle_thread (kcpu w) → sched_lock ∉ locks w → thread_lock cur ∉ locks w →
  threads w !! cur = Some x → (priority x < PRIORITY_COUNT)%nat → thread_ready w new y →
  runq_ok (ksched w) (threads w) → ¬ queued (ksched w) cur →
  timer_ready w (preemption_timer (ksched w)) →
  (∀ w', thread_current (kcpu w') = Some new → thread_next (kcpu w') = None →
     switches w' = (cur, new) :: switches w → locks w' = locks w →
     ksched w' = pushed (ksched w) (priority x) cur →
     threads w' = <[cur := set_state kThreadStateReady x]> (threads w) →
     runq_ok (ksched w') (threads w') → wp (resume cur) Q w') →
  wp (sched_preempt hw_clock lower resume) Q w.
Proof.
  intros Hc Hn Hne Hidle Hsl Htl Hx Hp [Hy Yt Yo Yl] Rq Nq Tr HQ. pose proof Tr as [Te Lv Ca Ok Ti Ob Lo Dp].
  unfold sched_preempt. repeat k_step. rewrite release_acquired //. eapply wp_deref_i; [done|].
  repeat k_step. rewrite bool_decide_true //. cbn [whenM]. repeat k_step. set (w1 := k_locks _ _).
  assert (insert_env w1 cur x) as E1.
  { destruct Te, Ok. split; try done; unfold w1; k_simpl; [set_solver..|].
    split; try done; k_simpl; [split; k_simpl; try done; set_solver|set_solver]. }
  eapply wp_mono; [eapply (sched_insert_queues w1 1 cur x cur x E1); [done|done|lia]|].
  intros [] w2 [I1 I2 I3 I4 I5 I6 I7 I8 I9 I10 I11]. repeat k_step. rewrite Hn. eapply wp_deref_i; [done|].
  assert (locks w2 ∖ {[sched_lock]} = {[thread_lock cur]} ∪ locks w) as El.
  { rewrite I6. unfold w1. k_simpl. clear -Hsl. set_solver. }
  rewrite El. eapply (sched_switch_thread_spec _ _ _ y).
  - apply (timer_ready_other _ (preemption_timer (ksched w2))); k_simpl.
    + destruct I8 as [[J1 J2 J3 J4] ? ? [] ? ? J5 ?]. rewrite I6 in J2, J3, J5.
      split; try done; k_simpl; [split; k_simpl; try done|]; clear -J2 J3 J5; unfold w1 in *; k_simpl in J2;
        k_simpl in J3; k_simpl in J5; set_solver.
    + by apply (I11 (wait_timer y)).
    + by apply (I11 (wait_timer y)).
    + clear -Yl. set_solver.
  - k_simpl. rewrite I2. unfold w1. k_simpl. by rewrite lookup_insert_ne.
  - intros w3 [S1 S2 S3 S4 S5 S6]. k_simpl in S2. k_simpl in S3. k_simpl in S4. k_simpl in S5. k_simpl in S6.
    apply HQ; rewrite ?S5 ?S6; [done|by rewrite S2 I4|by rewrite S3 I10| |done|done|done].
    rewrite S4. clear -Htl. set_solver.
Qed.

(** The idle thread is on no run queue: it just gives way. *)
Lemma sched_preempt_idle (w : K) cur new y (Q : unit → K → Prop) :
  thread_current (kcpu w) = Some cur → thread_next (kcpu w) = Some new → cur = idle_thread (kcpu w) →
  sched_lock ∉ locks w → thread_lock cur ∉ locks w → thread_ready w new y →
  timer_ready w (preemption_timer (ksched w)) →
  (∀ w', thread_current (kcpu w') = Some new → thread_next (kcpu w') = None →
     switches w' = (cur, new) :: switches w → locks w' = locks w →
     ksched w' = ksched w → threads w' = threads w → wp (resume cur) Q w') →
  wp (sched_preempt hw_clock lower resume) Q w.
Proof.
  intros Hc Hn Hidle Hsl Htl [Hy Yt Yo Yl] Tr HQ. unfold sched_preempt. repeat k_step. rewrite release_acquired //.
  eapply wp_deref_i; [done|]. repeat k_step. rewrite bool_decide_false; [tauto|]. cbn [whenM]. repeat k_step. rewrite Hn.
  eapply wp_deref_i; [done|]. eapply (sched_switch_thread_spec _ _ _ y).
  - apply (timer_ready_other _ (preemption_timer (ksched w))); k_simpl; [|done|done|clear -Yl; set_solver].
    destruct Tr as [[J1 J2 J3 J4] ? ? [] ? ? J5 ?].
    split; try done; k_simpl; [split; k_simpl; try done|]; clear -J2 J3 J5; set_solver.
  - done.
  - intros w3 [S1 S2 S3 S4 S5 S6]. k_simpl in S2. k_simpl in S3. k_simpl in S4. k_simpl in S5. k_simpl in S6.
    apply HQ; rewrite ?S5 ?S6 //. rewrite S4. clear -Htl. set_solver.
Qed.

(** [sched_yield]: the highest-priority ready thread runs, or the idle thread. *)
Lemma sched_yield_spec (w : K) cur (Q : unit → K → Prop) :
  thread_current (kcpu w) = Some cur → thread_lock cur ∈ locks w → sched_lock ∉ locks w →
  runq_ok (ksched w) (threads w) → timer_ready w (preemption_timer (ksched w)) →
  (∀ t, t = idle_thread (kcpu w) ∨ queued (ksched w) t → ∃ x, thread_ready w t x) →
  (∀ w' new, switched (k_sched (ksched w') w) w' cur new →
     (new = idle_thread (kcpu w) ∧ ksched w' = ksched w ∧ ∀ t, ¬ queued (ksched w) t) ∨
     (∃ p q, run_queues (ksched w) !! p = Some (new :: q) ∧ ksched w' = popped (ksched w) p q ∧
        ∀ p' q', (p < p')%nat → run_queues (ksched w) !! p' = Some q' → q' = []) →
     runq_ok (ksched w') (threads w') → wp (resume cur) Q w') →
  wp (sched_yield lower resume) Q w.
Proof.
  intros Hc Htl Hsl Rq Tr Hth HQ. unfold sched_yield, sched_yield_internal. repeat k_step.
  eapply wp_deref_i; [done|]. repeat k_step. apply wp_assert_i; [by apply bool_decide_eq_true|].
  repeat k_step. unfold sched_next. repeat k_step. apply wp_assert_i; [apply bool_decide_eq_true; set_solver|].
  eapply wp_mono; [by apply sched_next_from_spec|]. k_simpl. intros r w1 Hr. repeat k_step.
  assert (∃ new s', default (idle_thread (kcpu w)) r = new ∧ w1 = k_sched s' (k_locks ({[sched_lock]} ∪ locks w) w) ∧
    ((new = idle_thread (kcpu w) ∧ s' = ksched w ∧ ∀ t, ¬ queued (ksched w) t) ∨
     (∃ p q, run_queues (ksched w) !! p = Some (new :: q) ∧ s' = popped (ksched w) p q ∧
        ∀ p' q', (p < p')%nat → run_queues (ksched w) !! p' = Some q' → q' = [])) ∧
    runq_ok s' (threads w) ∧ (new = idle_thread (kcpu w) ∨ queued (ksched w) new))
    as (new & s' & En & -> & Hcase & Rq' & Hnew).
  { assert (∀ p q', run_queues (ksched w) !! p = Some q' → (p < PRIORITY_COUNT)%nat) as Hlt.
    { intros p q' Hl. rewrite -(rq_len _ _ Rq). by eapply lookup_lt_Some. }
    destruct r as [tp|]; k_simpl in Hr.
    - destruct Hr as (p & q & Hpr & Hq & Hhi & ->). exists tp, (popped (ksched w) p q). split_and!; try done.
      + right. exists p, q. split_and!; try done. intros p' q' Hp' Hl. apply (Hhi p'); [|done].
        split; [done|]. by eapply Hlt.
      + by eapply popped_ok.
      + right. exists p, (tp :: q). split; [done|left].
    - destruct Hr as [-> Hall]. exists (idle_thread (kcpu w)), (ksched w). split_and!; try done; [|by left].
      left. split_and!; try done. intros t (p & q & Hl & Hin).
      rewrite (Hall p q) in Hin; [split; [lia|by eapply Hlt]|done|]. by apply elem_of_nil in Hin. }
  k_simpl. rewrite En. rewrite release_acquired //. destruct (Hth new Hnew) as (x & [Hx Xt Xo Xl]).
  eapply (sched_switch_thread_spec _ _ _ x).
  - apply (timer_ready_other _ (preemption_timer (ksched w))); [|done..].
    destruct Tr as [[] ? ? [] ? ? ? Dp]. split; try done.
    k_simpl. destruct Hcase as [(_ & -> & _)|(p & q & _ & -> & _)]; done.
  - done.
  - intros w' Sw. pose proof Sw as [S1 S2 S3 S4 S5 S6]. k_simpl in S5. k_simpl in S6.
    apply (HQ w' new); rewrite ?S5 ?S6 //.
Qed.
End timer_steps.
