(* ===== verification/Dispatch.v ===== *)
(** * Waiting on objects: [kernel/sched/dispatch.c], [kernel/obj/obj.c],
      [kernel/lib/event.c], [kernel/lib/mutex.c]

    Dispatcher objects, the wait blocks that queue threads on them, events and
    mutexes.  A wait block or timer on the caller's stack is named by an argument. *)

From S2P Require Import Prelude Queue Core Dpc Timer Sched.

Section dispatch.
Context {H : Type} `{TimerHeap H}.
Notation K := (kworld H).
Context (hw_clock : nat → Z).
Context (lower : Z → M K unit).
Context (resume : nat → M K unit).

(** ** Objects *)
Definition OBJ_ACQUIRE (o : nat) : M K Z := spinlock_acquire_raise (object_lock o).
Definition OBJ_ACQUIRE_ELEVATED (o : nat) : M K unit := spinlock_acquire (object_lock o).
Definition OBJ_RELEASE_ELEVATED (o : nat) : M K unit := spinlock_release (object_lock o).
Definition OBJ_RELEASE (o : nat) (ipl : Z) : M K unit := spinlock_release_lower lower (object_lock o) ipl.

Definition obj_retain (o : nat) : M K unit := upd Objs o (λ x, set_refcnt (wrap64 (refcnt x + 1)) x).
(** The result is whether [ops->free] is called; a NULL [ops] is dereferenced then. *)
Definition obj_release (free : nat → nat → M K unit) (o : nat) : M K unit :=
  upd Objs o (λ x, set_refcnt (wrap64 (refcnt x - 1)) x);;
  x ← ld Objs o;
  if decide (refcnt x = 0) then f ← deref "obj->ops" (ops x); free f o else mret tt.

(** A mutex starts with its header, so both have the same identity. *)
Definition obj_is_signaled (o : nat) (t : nat) : M K bool :=
  x ← ld Objs o;
  if decide (o_type x = kObjTypeMutex) then
    if decide (signalcount x = 0) then mret true
    else m ← ld Mutexes o;
         assertM (bool_decide (owner m ≠ Some t)) "mtx->owner != thread";; mret false
  else mret (bool_decide (signalcount x ≠ 0)).

(** ** Leaving a wait

    [sched_unwait] prints the name of the thread, and the formatter reads the string
    without a test for NULL; this is what the other calls of [printk] here cannot come to,
    so they are not part of the definitions.  The names the source gives are short.
    [LOG_LEVEL] is that of the default configuration: warnings and errors are printed. *)
Definition printk_name (x : thread) : M K unit := _ ← deref "cbuf" (thread_name x); mret tt.
Definition sched_unwait (t : nat) (status : Z) : M K unit :=
  x ← ld Threads t;
  whenM (bool_decide (state x = kThreadStateReady ∨ state x = kThreadStateStandby)) (printk_name x);;
  assertM (bool_decide (state x = kThreadStateWaiting)) "thread->state == kThreadStateWaiting";;
  if decide (wait_status x ≠ STATUS_WAITING) then printk_name x
  else
    upd Threads t (set_wait_status status);;
    printk_name x;;
    whenM (bool_decide (0 < wrap64 (wait_count x)))
      (wb ← deref "wait_block_array" (wait_block_array x);
       forM (seq wb (Z.to_nat (wrap64 (wait_count x))))
         (λ b, upd Wblocks b (λ y, set_wb_flags (Z.lor (wb_flags y) kWaitblockUnwaited) y)));;
    sched_resume hw_clock lower t.

Definition wait_timer_exp (ctx1 : option nat) : M K unit :=
  spinlock_acquire sched_lock;;
  t ← deref "thread" ctx1;
  spinlock_acquire (thread_lock t);;
  x ← ld Threads t;
  whenM (bool_decide (state x = kThreadStateWaiting)) (sched_unwait t STATUS_TIMEOUT);;
  spinlock_release (thread_lock t);;
  spinlock_release sched_lock.

Definition dequeue_wb (wb : nat) : M K unit :=
  y ← ld Wblocks wb;
  OBJ_ACQUIRE_ELEVATED (wb_object y);;
  y' ← ld Wblocks wb;
  whenM (bool_decide (Z.land (wb_flags y') kWaitblockDequeued = 0))
    (o ← ld Objs (wb_object y);
     upd Objs (wb_object y) (λ o, set_waiters (waitercount o) (Abs.remove wb (waitblock_list o)) o);;
     (if decide (waitercount o = 0) then fail (AssertFail "underflow")
      else upd Objs (wb_object y) (λ o, set_waiters (waitercount o - 1) (waitblock_list o) o)));;
  OBJ_RELEASE_ELEVATED (wb_object y).

(** The loop over the waiters of an object, first come first served. *)
Fixpoint obj_satisfy_loop (fuel : nat) (hdr : nat) (all : bool) : M K unit :=
  match fuel with
  | O => fail OutOfFuel
  | S fuel =>
      o ← ld Objs hdr;
      match waitblock_list o with
      | [] => mret tt
      | wb :: _ =>
          y ← ld Wblocks wb;
          spinlock_acquire (thread_lock (wb_thread y));;
          x ← ld Threads (wb_thread y);
          assertM (bool_decide (wait_count x ≠ -1)) "thread->wait_count != -1";;
          upd Wblocks wb (λ y, set_wb_flags (Z.lor (wb_flags y) kWaitblockDequeued) y);;
          upd Objs hdr (λ o, set_waiters (waitercount o) (Abs.remove wb (waitblock_list o)) o);;
          upd Objs hdr (λ o, set_waiters (waitercount o - 1) (waitblock_list o) o);;
          y' ← ld Wblocks wb;
          if decide (Z.land (wb_flags y') kWaitblockUnwaited ≠ 0) then
            spinlock_release (thread_lock (wb_thread y));;
            obj_satisfy_loop fuel hdr all
          else
            arr ← deref "wait_block_array" (wait_block_array x);
            sched_unwait (wb_thread y) (STATUS_RANGE_WAIT + (Z.of_nat wb - Z.of_nat arr));;
            spinlock_release (thread_lock (wb_thread y));;
            if all then obj_satisfy_loop fuel hdr all else mret tt
      end
  end.

(** Every turn of the loop removes a wait block, so their number bounds it. *)
Definition obj_satisfy (hdr : nat) (all : bool) (status : Z) : M K unit :=
  h ← spinlock_held (object_lock hdr);
  assertM h "spinlock_held(&hdr->object_lock)";;
  o ← ld Objs hdr;
  obj_satisfy_loop (S (length (waitblock_list o))) hdr all.

(** ** Waiting *)
Definition wait_thread (t : nat) : M K Z :=
  upd Threads t (set_state kThreadStateWaiting);;
  sched_yield lower resume;;
  x ← ld Threads t;
  whenM (bool_decide (0 < wrap64 (wait_count x)))
    (wb ← deref "wait_block_array" (wait_block_array x);
     forM (seq wb (Z.to_nat (wrap64 (wait_count x)))) dequeue_wb);;
  x ← ld Threads t;
  mret (wait_status x).

(** [singlewb] is the wait block on the stack of the caller. *)
Definition sched_wait_single (singlewb hdr : nat) (timeout : Z) : M K Z :=
  cur ← curthread;
  o ← ld Objs hdr;
  assertM (bool_decide (o_type o ≠ 123)) "hdr->type != 123";;
  level ← irql_raise IRQL_DISPATCH;
  t ← deref "thread" cur;
  st Wblocks singlewb (WaitBlock 0 hdr t);;
  upd Threads t (set_wait 1 STATUS_WAITING (Some singlewb));;
  OBJ_ACQUIRE_ELEVATED hdr;;
  o ← ld Objs hdr;
  if decide (signalcount o ≠ 0) then
    whenM (bool_decide (o_type o ≠ kObjTypeEventNotif)) (upd Objs hdr (λ o, set_signal (signalcount o - 1) o));;
    OBJ_RELEASE_ELEVATED hdr;;
    upd Threads t (set_wait_status STATUS_OK);;
    lower level;;
    mret STATUS_OK
  else
    upd Objs hdr (λ o, set_waiters (waitercount o) (waitblock_list o ++ [singlewb]) o);;
    upd Objs hdr (λ o, set_waiters (waitercount o + 1) (waitblock_list o) o);;
    OBJ_RELEASE_ELEVATED hdr;;
    spinlock_acquire (thread_lock t);;
    status ← wait_thread t;
    lower level;;
    mret status.

(** ** Events *)
Definition event_init (e : nat) (notif signaled : bool) : M K unit :=
  obj_init e (if notif then kObjTypeEventNotif else kObjTypeEvent);;
  upd Objs e (set_signal (if signaled then 1 else 0)).

Definition event_reset (e : nat) : M K Z :=
  level ← spinlock_acquire_raise (object_lock e);
  o ← ld Objs e;
  upd Objs e (set_signal 0);;
  spinlock_release_lower lower (object_lock e) level;;
  mret (signalcount o).

Definition event_signal (e : nat) : M K Z :=
  level ← OBJ_ACQUIRE e;
  o ← ld Objs e;
  if decide (signalcount o ≠ 0) then OBJ_RELEASE e level;; mret 1
  else
    (if decide (waitercount o ≠ 0) then
       if decide (o_type o = kObjTypeEventNotif) then
         obj_satisfy e true 0;; upd Objs e (set_signal 1)
       else obj_satisfy e false 0
     else upd Objs e (set_signal 1));;
    OBJ_RELEASE e level;;
    mret 0.

(** ** Mutexes *)
Definition mutex_init (m e : nat) : M K unit :=
  obj_init m 123;;
  event_init e false true;;
  st Mutexes m (Mutex e None).

(** Each turn of the loop uses one unit of fuel; [singlewb] is on its stack. *)
Fixpoint mutex_acquire (fuel singlewb m : nat) (timeout : Z) : M K Z :=
  match fuel with
  | O => fail OutOfFuel
  | S fuel =>
      x ← ld Mutexes m;
      level ← OBJ_ACQUIRE (m_event x);
      o ← ld Objs (m_event x);
      if decide (signalcount o = 1) then
        x ← ld Mutexes m;
        assertM (bool_decide (owner x = None)) "mutex->owner == nullptr";;
        cur ← curthread;
        upd Mutexes m (set_owner cur);;
        upd Objs (m_event x) (set_signal 0);;
        OBJ_RELEASE (m_event x) level;;
        mret STATUS_OK
      else
        OBJ_RELEASE (m_event x) level;;
        status ← sched_wait_single singlewb (m_event x) timeout;
        if decide (status ≠ 0) then mret STATUS_TIMEOUT
        else mutex_acquire fuel singlewb m timeout
  end.

Definition mutex_release (m : nat) : M K unit :=
  x ← ld Mutexes m;
  cur ← curthread;
  assertM (bool_decide (owner x = cur)) "mutex->owner == curthread()";;
  level ← OBJ_ACQUIRE (m_event x);
  upd Mutexes m (set_owner None);;
  OBJ_RELEASE (m_event x) level;;
  event_signal (m_event x);;
  mret tt.

(** ** Sleeping; [timer] is the timer on the caller's stack *)
Definition sched_sleep (timer singlewb : nat) (ns : Z) : M K unit :=
  timer_init timer;;
  timer_set_in hw_clock lower timer ns None;;
  timer_install lower timer None None;;
  o ← ld Objs timer;
  assertM (bool_decide (waitercount o = 0)) "timer.hdr.waitercount == 0";;
  cur ← curthread;
  t ← deref "curthread()" cur;
  x ← ld Threads t;
  assertM (bool_decide (wait_count x = -1)) "curthread()->wait_count == -1";;
  sched_wait_single singlewb timer (-1);;
  mret tt.
End dispatch.

(** ** Events as flags *)
Section events.
Context {H : Type} `{TimerHeap H}.
Notation K := (kworld H).
Context (hw_clock : nat → Z).
Context (lower : Z → M K unit).
Context (resume : nat → M K unit).

(** Lowering the level with no software interrupt pending only sets it. *)
Definition lower_idle : Prop := ∀ l (w : K), 0 ≤ l ≤ irql (kcpu w) → softint_pending (kcpu w) = 0 →
  lower l w = Ok (tt, k_cpu (set_irql l (kcpu w)) w).
Context (Hlower : lower_idle).

Definition flag (b : bool) : Z := if b then 1 else 0.

(** An event nobody waits on, seen from a running thread. *)
Record event_rel (w : K) (e : nat) (notif s : bool) : Prop := {
  er_obj : ∃ n op, objs w !! e = Some (ObjHeader n op (if notif then kObjTypeEventNotif else kObjTypeEvent)
                                         (flag s) 0 []);
  er_lock : object_lock e ∉ locks w;
  er_level : 0 ≤ irql (kcpu w) ≤ IRQL_DISPATCH;
  er_idle : softint_pending (kcpu w) = 0;
  er_thread : ∃ t x, thread_current (kcpu w) = Some t ∧ threads w !! t = Some x;
}.

Inductive event_op := OpSignal | OpReset | OpWait (wb : nat).
Definition run_event (e : nat) (o : event_op) : M K Z :=
  match o with
  | OpSignal => event_signal hw_clock lower e
  | OpReset => event_reset lower e
  | OpWait wb => sched_wait_single lower resume wb e (-1)
  end.
(** The flag: signalling sets it, resetting clears it and tells what it was, a wait
    that finds it set returns at once and clears it unless the event is a
    notification. *)
Definition event_abs (notif s : bool) (o : event_op) : bool * Z :=
  match o with
  | OpSignal => (true, flag s)
  | OpReset => (false, flag s)
  | OpWait _ => (notif, STATUS_OK)
  end.
Definition event_pre (s : bool) (o : event_op) : Prop :=
  match o with OpWait _ => s = true | _ => True end.

(** The state of the CPU outside the event and the current thread. *)
Definition event_frame (w w' : K) : Prop :=
  kcpu w' = kcpu w ∧ locks w' = locks w ∧ ksched w' = ksched w ∧ mutexes w' = mutexes w ∧
  timers w' = timers w.

Lemma event_step (w : K) e notif s o :
  event_rel w e notif s → event_pre s o →
  wp (run_event e o) (λ r w', r = (event_abs notif s o).2 ∧
    event_rel w' e notif (event_abs notif s o).1 ∧ event_frame w w') w.
Proof.
  intros [(n & op & Ho) Hl Hi Hp (t & x & Hc & Hx)] Hpre. unfold event_frame.
  assert (∀ l (w' : K) (Q : unit → K → Prop), 0 ≤ l ≤ irql (kcpu w') → softint_pending (kcpu w') = 0 →
    Q tt (k_cpu (set_irql l (kcpu w')) w') → wp (lower l) Q w') as Hlow.
  { intros l w' Q Hl' Hp' HQ. rewrite /wp Hlower //. }
  unfold IRQL_DISPATCH in *. destruct o as [| |wb]; cbn [run_event event_abs event_pre fst snd] in *.
  - unfold event_signal, OBJ_ACQUIRE, OBJ_RELEASE, spinlock_release_lower. k_step.
    apply wp_acquire_raise; [unfold IRQL_DISPATCH; lia|done|]. repeat k_step. cbn [signalcount waitercount].
    destruct s; cbn [flag].
    + destruct (decide (1 ≠ 0)) as [_|?]; [|lia]. repeat k_step. apply Hlow; [k_simpl; unfold IRQL_DISPATCH; lia|done|].
      repeat k_step. rewrite release_acquired //. split_and!; try done. split; try done; eauto.
    + destruct (decide (0 ≠ 0)) as [?|_]; [lia|]. repeat k_step.
      apply Hlow; [k_simpl; unfold IRQL_DISPATCH; lia|done|]. repeat k_step. rewrite release_acquired //.
      split_and!; try done. split; k_simpl; try done; [|eauto]. eexists _, _. by rewrite lookup_insert_eq.
  - unfold event_reset, spinlock_release_lower. k_step.
    apply wp_acquire_raise; [unfold IRQL_DISPATCH; lia|done|]. repeat k_step.
    apply Hlow; [k_simpl; unfold IRQL_DISPATCH; lia|done|]. repeat k_step. rewrite release_acquired //.
    split_and!; try done. split; k_simpl; try done; [|eauto]. eexists _, _. by rewrite lookup_insert_eq.
  - subst s. unfold sched_wait_single, irql_raise, OBJ_ACQUIRE_ELEVATED, OBJ_RELEASE_ELEVATED. repeat k_step.
    apply wp_assert_i; [apply bool_decide_eq_true; by destruct notif|]. repeat k_step.
    apply wp_assert_i; [apply bool_decide_eq_true; unfold IRQL_DISPATCH; lia|]. repeat k_step.
    eapply wp_deref_i; [done|]. repeat k_step. cbn [signalcount o_type flag].
    destruct (decide (1 ≠ 0)) as [_|?]; [|lia].
    destruct notif; [rewrite bool_decide_false; [tauto|]|rewrite bool_decide_true //]; cbn [whenM];
      repeat k_step; (apply Hlow; [k_simpl; unfold IRQL_DISPATCH; lia|done|]); repeat k_step;
      rewrite release_acquired //; (split_and!; try done); (split; k_simpl; try done).
    + eauto.
    + eexists t, _. split; [done|apply lookup_insert_eq].
    + eexists _, _. by rewrite lookup_insert_eq.
    + eexists t, _. split; [done|apply lookup_insert_eq].
Qed.

Fixpoint run_events (e : nat) (l : list event_op) : M K (list Z) :=
  match l with
  | [] => mret []
  | o :: l' => r ← run_event e o; rs ← run_events e l'; mret (r :: rs)
  end.
Fixpoint events_abs (notif s : bool) (l : list event_op) : bool * list Z :=
  match l with
  | [] => (s, [])
  | o :: l' => let '(s1, r) := event_abs notif s o in
               let '(s2, rs) := events_abs notif s1 l' in (s2, r :: rs)
  end.
Fixpoint events_pre (notif s : bool) (l : list event_op) : Prop :=
  match l with
  | [] => True
  | o :: l' => event_pre s o ∧ events_pre notif (event_abs notif s o).1 l'
  end.

Lemma events_refine (w : K) e notif s l :
  event_rel w e notif s → events_pre notif s l →
  wp (run_events e l) (λ rs w', rs = (events_abs notif s l).2 ∧
    event_rel w' e notif (events_abs notif s l).1 ∧ event_frame w w') w.
Proof.
  revert w s. induction l as [|o l IH]; intros w s Hr Hpre; cbn [run_events events_abs].
  { k_step. by split_and!. }
  destruct Hpre as [Ho Hl]. k_step. eapply wp_mono; [by apply event_step|].
  intros r w1 (-> & Hr1 & F1). k_step. eapply wp_mono; [by eapply IH|].
  intros rs w2 (-> & Hr2 & F2). k_step. destruct (event_abs notif s o) as [s1 r1]. cbn [fst snd] in *.
  destruct (events_abs notif s1 l) as [s2 rs2]. split_and!; [done|done|].
  unfold event_frame in *. naive_solver congruence.
Qed.

(** ** Mutexes: the event is set exactly when there is no owner *)
Definition mutex_rel (w : K) (m : nat) (own : option nat) : Prop :=
  ∃ e, mutexes w !! m = Some (Mutex e own) ∧ event_rel w e false (bool_decide (own = None)).

Lemma wp_lower_idle l (w : K) (Q : unit → K → Prop) :
  0 ≤ l ≤ irql (kcpu w) → softint_pending (kcpu w) = 0 → Q tt (k_cpu (set_irql l (kcpu w)) w) → wp (lower l) Q w.
Proof. intros Hl Hp HQ. rewrite /wp Hlower //. Qed.

Lemma mutex_acquire_free (w : K) fuel wb m t timeout :
  mutex_rel w m None → thread_current (kcpu w) = Some t →
  wp (mutex_acquire lower resume (S fuel) wb m timeout) (λ r w', r = STATUS_OK ∧
    mutex_rel w' m (Some t) ∧ kcpu w' = kcpu w ∧ locks w' = locks w) w.
Proof.
  intros (e & Hm & [(n & op & Ho) Hl Hi Hp Ht]) Hc. rewrite bool_decide_true // in Ho.
  cbn [mutex_acquire]. unfold OBJ_ACQUIRE, OBJ_RELEASE, spinlock_release_lower. repeat k_step. cbn [m_event].
  apply wp_acquire_raise; [lia|done|]. repeat k_step. cbn [signalcount flag].
  destruct (decide (1 = 1)) as [_|?]; [|lia]. repeat k_step.
  apply wp_assert_i; [by apply bool_decide_eq_true|]. repeat k_step. cbn [m_event].
  repeat k_step. apply wp_lower_idle; [k_simpl; lia|done|]. repeat k_step. rewrite release_acquired // Hc.
  split_and!; try done. exists e. k_simpl. split; [by rewrite lookup_insert_eq|].
  rewrite bool_decide_false //. split; k_simpl; try done. eexists _, _. by rewrite lookup_insert_eq.
Qed.

Lemma mutex_release_held (w : K) m t :
  mutex_rel w m (Some t) → thread_current (kcpu w) = Some t →
  wp (mutex_release hw_clock lower m) (λ _ w', mutex_rel w' m None ∧ kcpu w' = kcpu w ∧ locks w' = locks w) w.
Proof.
  intros (e & Hm & Hev) Hc. pose proof Hev as [(n & op & Ho) Hl Hi Hp Ht]. rewrite bool_decide_false // in Ho.
  unfold mutex_release, OBJ_ACQUIRE, OBJ_RELEASE, spinlock_release_lower. repeat k_step.
  apply wp_assert_i; [by apply bool_decide_eq_true|]. cbn [m_event]. repeat k_step.
  apply wp_acquire_raise; [lia|done|]. repeat k_step.
  apply wp_lower_idle; [k_simpl; lia|done|]. k_simpl. rewrite release_acquired //. set (w1 := k_cpu _ _).
  assert (event_rel w1 e false false) as Hev1.
  { split; unfold w1; k_simpl; try done. eauto. }
  repeat k_step. eapply wp_mono; [apply (event_step w1 e false false OpSignal); done|].
  intros r w2 (-> & Hev2 & (F1 & F2 & F3 & F4 & F5)). repeat k_step. split_and!; [|by rewrite F1|by rewrite F2].
  exists e. rewrite F4. unfold w1. k_simpl. split; [by rewrite lookup_insert_eq|]. by rewrite bool_decide_true.
Qed.

End events.

(** ** Where the kernel stops itself *)
Section stops.
Context {H : Type} `{TimerHeap H}.
Notation K := (kworld H).
Context (hw_clock : nat → Z).
Context (lower : Z → M K unit).

Lemma sched_resume_stops (w : K) t x :
  threads w !! t = Some x → state x ≠ kThreadStateReady → irql (kcpu w) ≤ IRQL_DISPATCH →
  sched_lock ∈ locks w ∨ (sched_lock ∉ locks w ∧ thread_lock t ∈ locks w) →
  sched_resume hw_clock lower t w = Panic (Deadlock "deadlock?").
Proof.
  intros Hx Hs Hi Hl. unfold sched_resume. apply bind_ends. k_step. rewrite decide_False //.
  destruct Hl as [Hl|[Hl Ht]].
  - apply bind_panic. unfold spinlock_acquire_raise, irql_raise. apply bind_ends. repeat k_step.
    apply wp_assert_i; [apply bool_decide_eq_true; lia|]. repeat k_step.
    apply bind_panic. unfold spinlock_acquire, mbind, M_bind, get. by rewrite decide_True.
  - apply bind_ends. apply wp_acquire_raise; [done..|]. apply bind_panic.
    unfold spinlock_acquire, mbind, M_bind, get. rewrite decide_True //. k_simpl. set_solver.
Qed.

Lemma forM_seq_one (f : nat → M K unit) b (Q : unit → K → Prop) w :
  wp (f b) (λ _ w', Q tt w') w → wp (forM (seq b 1) f) Q w.
Proof. intros Hw. cbn. apply wp_bind. eapply wp_mono; [exact Hw|]. intros [] w' HQ. by apply wp_ret. Qed.

(** A thread blocked in [sched_wait_single]. *)
Record blocked (w : K) (t : nat) (x : thread) (wb hdr : nat) : Prop := {
  bl_thread : threads w !! t = Some x ∧ state x = kThreadStateWaiting ∧
    wait_status x = STATUS_WAITING ∧ wait_count x = 1 ∧ wait_block_array x = Some wb;
  bl_block : wblocks w !! wb = Some (WaitBlock 0 hdr t);
}.

(** Where [sched_unwait] stops: at the name, or in [sched_resume]. *)
Definition unwait_stop (x : thread) : fault :=
  match thread_name x with None => NullDeref "cbuf" | Some _ => Deadlock "deadlock?" end.
Lemma sched_unwait_stops (w : K) t x wb y status :
  threads w !! t = Some x → state x = kThreadStateWaiting → wait_status x = STATUS_WAITING →
  wait_count x = 1 → wait_block_array x = Some wb → wblocks w !! wb = Some y →
  irql (kcpu w) ≤ IRQL_DISPATCH →
  sched_lock ∈ locks w ∨ (sched_lock ∉ locks w ∧ thread_lock t ∈ locks w) →
  sched_unwait hw_clock lower t status w = Panic (unwait_stop x).
Proof.
  intros Hx Hs Hst Hc Ha Hb Hi Hl. unfold sched_unwait. apply bind_ends. k_step. apply bind_ends.
  rewrite bool_decide_false; [rewrite Hs; by intros [?|?]|]. cbn [whenM]. k_step. apply bind_ends.
  apply wp_assert_i; [by apply bool_decide_eq_true|].
  destruct (decide (wait_status x ≠ STATUS_WAITING)) as [?|_]; [done|].
  apply bind_ends. k_step. unfold printk_name, unwait_stop. destruct (thread_name x) as [nm|] eqn:En; [|done].
  apply bind_ends. k_step. eapply wp_deref_i; [done|]. k_step. rewrite Hc. change (wrap64 1) with 1. rewrite bool_decide_true; [lia|]. cbn [whenM].
  apply bind_ends. k_step. eapply wp_deref_i; [done|]. change (Z.to_nat 1) with 1%nat.
  apply forM_seq_one. k_step. eapply sched_resume_stops; k_simpl; [by rewrite lookup_insert_eq| |done|done].
  cbn. by rewrite Hs.
Qed.

(** Signalling an event somebody waits on: [obj_satisfy] holds the waiter's
    [thread_lock] when [sched_resume] takes it. *)
Lemma event_signal_waiter_stops (w : K) e n op ty k wb l t x :
  objs w !! e = Some (ObjHeader n op ty 0 k (wb :: l)) → k ≠ 0 →
  blocked w t x wb e → irql (kcpu w) ≤ IRQL_DISPATCH →
  object_lock e ∉ locks w → thread_lock t ∉ locks w → sched_lock ∉ locks w →
  event_signal hw_clock lower e w = Panic (unwait_stop x).
Proof.
  intros Ho Hk [(Hx & Hs & Hst & Hc & Ha) Hb] Hi L1 L2 L3. unfold event_signal, OBJ_ACQUIRE.
  apply bind_ends. apply wp_acquire_raise; [done..|]. apply bind_ends. k_step. cbn [signalcount waitercount o_type].
  destruct (decide (0 ≠ 0)) as [?|_]; [done|]. apply bind_panic.
  destruct (decide (k ≠ 0)) as [_|?]; [|done].
  assert (∀ all (w' : K), objs w' = objs w → threads w' = threads w → wblocks w' = wblocks w →
    irql (kcpu w') ≤ IRQL_DISPATCH → object_lock e ∈ locks w' → thread_lock t ∉ locks w' → sched_lock ∉ locks w' →
    obj_satisfy hw_clock lower e all 0 w' = Panic (unwait_stop x)) as Hsat.
  { intros all w' Eo Et Eb Hi' L1' L2' L3'. unfold obj_satisfy. apply bind_ends. repeat k_step.
    apply bind_ends. apply wp_assert_i; [by apply bool_decide_eq_true|].
    rewrite -Eo in Ho. rewrite -Et in Hx. rewrite -Eb in Hb.
    apply bind_ends. k_step. cbn [waitblock_list length obj_satisfy_loop]. apply bind_ends. k_step.
    cbn [waitblock_list]. apply bind_ends. k_step. cbn [wb_thread]. apply bind_ends. k_step.
    apply bind_ends. k_step. apply bind_ends. apply wp_assert_i; [apply bool_decide_eq_true; lia|].
    do 4 (apply bind_ends; k_step). destruct (decide (Z.land _ kWaitblockUnwaited ≠ 0)) as [Hn|_]; [by destruct Hn|].
    apply bind_ends. eapply wp_deref_i; [exact Ha|]. apply bind_panic.
    eapply sched_unwait_stops; k_simpl; try done; [apply lookup_insert_eq|]. set_solver. }
  assert (∀ all, obj_satisfy hw_clock lower e all 0 (k_locks ({[object_lock e]} ∪ locks w)
            (k_cpu (set_irql IRQL_DISPATCH (kcpu w)) w)) = Panic (unwait_stop x)) as Hsat'.
  { intros all. apply Hsat; k_simpl; try done; clear -L2 L3; set_solver. }
  destruct (decide (ty = kObjTypeEventNotif)); [apply bind_panic|]; apply Hsat'.
Qed.

(** The time-out of a wait takes [sched_lock] and calls [sched_resume], which takes it
    again. *)
Lemma wait_timer_exp_stops (w : K) t x wb hdr :
  blocked w t x wb hdr → irql (kcpu w) ≤ IRQL_DISPATCH →
  thread_lock t ∉ locks w → sched_lock ∉ locks w →
  wait_timer_exp hw_clock lower (Some t) w = Panic (unwait_stop x).
Proof.
  intros [(Hx & Hs & Hst & Hc & Ha) Hb] Hi L1 L2. unfold wait_timer_exp.
  apply bind_ends. k_step. apply bind_ends. eapply wp_deref_i; [done|]. do 2 (apply bind_ends; k_step).
  rewrite Hs bool_decide_true //. cbn [whenM]. apply bind_panic.
  eapply sched_unwait_stops; k_simpl; try done. left. set_solver.
Qed.
End stops.
