(* ===== verification/SoftInt.v ===== *)
(** * Software interrupts: [kernel/irq/int.c], [kernel/irq/irql.c]

    Lowering the interrupt level runs the DPCs that became pending above it, and
    switches to the standby thread.  The DPC functions call back into the kernel and
    may lower the level again, so the routines are tied together here, with fuel for
    the nesting. *)

From S2P Require Import Prelude Queue Core Dpc Timer Sched Dispatch.

Section softint.
Context {H : Type} `{TimerHeap H}.
Notation K := (kworld H).
Context (hw_clock : nat → Z).
Context (resume : nat → M K unit).
Context (client : nat → nat → option nat → option nat → M K unit).

(** The functions a DPC can name. *)
Fixpoint dpc_call (lower : Z → M K unit) (fuel : nat) (f : dpc_fn) (d : nat) (c1 c2 : option nat) : M K unit :=
  match f with
  | time_engine_progress_fn =>
      match fuel with
      | O => fail OutOfFuel
      | S fuel' => time_engine_progress hw_clock (obj_satisfy hw_clock lower) (dpc_call lower fuel') fuel
      end
  | preemption_dpc_fn => sched_reschedule lower
  | done_queue_dpc_fn => done_queue_fn
  | wait_timer_exp_fn => wait_timer_exp hw_clock lower c1
  | client_fn n => client n d c1 c2
  end.

Section body.
Context (lower : Z → M K unit) (fuel : nat).

Definition dpc_interrupt : M K unit :=
  softint_ack IRQL_DISPATCH;;
  irql_set IRQL_DISPATCH;;
  port_enable_ints;;
  dpc_run_queue (dpc_call lower fuel) fuel;;
  c ← gets kcpu;
  whenM (bool_decide (is_Some (thread_next c))) (sched_preempt hw_clock lower resume);;
  port_disable_ints.

Fixpoint softint_loop (n : nat) (newirql : Z) : M K unit :=
  match n with
  | O => fail OutOfFuel
  | S n =>
      c ← gets kcpu;
      if decide (Z.land (softint_pending c) (Z.shiftl 0xff newirql) ≠ 0) then
        whenM (bool_decide (Z.land (softint_pending c) (PENDING IRQL_DISPATCH) ≠ 0)) dpc_interrupt;;
        softint_loop n newirql
      else mret tt
  end.

Definition softint_dispatch (newirql : Z) : M K unit :=
  old ← port_set_ints false;
  softint_loop fuel newirql;;
  irql_set newirql;;
  port_set_ints old;;
  mret tt.

Definition irql_lower_body (level : Z) : M K unit :=
  cur ← irql_current;
  assertM (bool_decide (level ≤ cur)) "level <= cur";;
  irql_set level;;
  c ← gets kcpu;
  if decide (Z.shiftr (softint_pending c) level ≠ 0) then softint_dispatch level else mret tt.
End body.

Fixpoint irql_lower (fuel : nat) (level : Z) : M K unit :=
  match fuel with
  | O => fail OutOfFuel
  | S fuel' => irql_lower_body (irql_lower fuel') fuel level
  end.

(** ** Specifications *)

(** The assumption of Sched.v about [lower] holds of [irql_lower]. *)
Lemma irql_lower_calm fuel : lower_calm (irql_lower (S fuel)).
Proof.
  intros w Hi Hc. assert (wp (irql_lower (S fuel) IRQL_DISPATCH) (λ _ w', w' = w) w) as Hwp.
  { cbn [irql_lower]. unfold irql_lower_body. repeat k_step.
    apply wp_assert_i; [apply bool_decide_eq_true; lia|]. repeat k_step.
    rewrite decide_False; [unfold calm, IRQL_DISPATCH in *; tauto|]. k_step. by rewrite -Hi. }
  apply wp_ok in Hwp as ([] & w' & E & ->). done.
Qed.

(** And the one of Dispatch.v: with nothing pending, lowering only sets the level. *)
Lemma irql_lower_idle fuel : lower_idle (irql_lower (S fuel)).
Proof.
  intros l w Hl Hp. assert (wp (irql_lower (S fuel) l) (λ _ w', w' = k_cpu (set_irql l (kcpu w)) w) w) as Hwp.
  { cbn [irql_lower]. unfold irql_lower_body. repeat k_step.
    apply wp_assert_i; [apply bool_decide_eq_true; lia|]. repeat k_step.
    rewrite Hp Z.shiftr_0_l. destruct (decide (0 ≠ 0)) as [?|_]; [done|]. by k_step. }
  apply wp_ok in Hwp as ([] & w' & E & ->). done.
Qed.

(** *** The functions of DPCs

    [time_engine_progress] and the functions it calls for timers: the scheduler's
    [preemption_dpc_fn], [done_queue_fn], and functions of clients, which are assumed to
    leave the data of the kernel's own components alone.  ([wait_timer_exp] is not among
    them: it never returns, see [Dispatch].) *)
Definition client_quiet : Prop := ∀ n d c1 c2 (w : K),
  wp (client n d c1 c2) (λ _ w', kcpu w' = kcpu w ∧ ksched w' = ksched w ∧ locks w' = locks w ∧ dpcs w' = dpcs w ∧
    objs w' = objs w ∧ threads w' = threads w ∧ timers w' = timers w ∧ timerlist w' = timerlist w ∧
    (reads w ≤ reads w')%nat) w.
Definition timer_fn (f : dpc_fn) : Prop := f = preemption_dpc_fn ∨ f = done_queue_dpc_fn ∨ ∃ n, f = client_fn n.
Definition dispatch_fn (f : dpc_fn) : Prop := f = time_engine_progress_fn ∨ timer_fn f.

(** The scheduler's data while the DPCs run on top of thread [cur]: the run queues are
    consistent, the running thread is on none of them, and whoever can be switched to has
    its wait timer. *)
Record sched_inv (cur : nat) (x : thread) (w : K) : Prop := {
  si_current : thread_current (kcpu w) = Some cur;
  si_thread : threads w !! cur = Some x;
  si_runq : runq_ok (ksched w) (threads w);
  si_alone : ¬ queued (ksched w) cur;
  si_others : ∀ t, thread_next (kcpu w) = Some t ∨ queued (ksched w) t → t ≠ cur ∧ ∃ y, threads w !! t = Some y ∧
    is_Some (timers w !! wait_timer y) ∧ is_Some (objs w !! wait_timer y);
  si_timer : is_Some (timers w !! preemption_timer (ksched w));
  si_obj : is_Some (objs w !! preemption_timer (ksched w));
  si_dpc : is_Some (dpcs w !! preemption_dpc (ksched w));
  si_update : is_Some (dpcs w !! timer_update (kcpu w));
}.
Lemma sched_inv_ext cur x (w w' : K) : sched_inv cur x w → thread_current (kcpu w') = thread_current (kcpu w) →
  thread_next (kcpu w') = thread_next (kcpu w) → timer_update (kcpu w') = timer_update (kcpu w) → ksched w' = ksched w → threads w' = threads w → objs w' = objs w →
  (∀ i, is_Some (dpcs w !! i) → is_Some (dpcs w' !! i)) → (∀ i, is_Some (timers w !! i) → is_Some (timers w' !! i)) →
  sched_inv cur x w'.
Proof.
  intros [S1 S2 S3 S4 S5 S6 S7 S8 S9] E1 E2 Eu E3 E4 E5 E6 E7. split; rewrite ?E1 ?E2 ?Eu ?E3 ?E4 ?E5; auto.
  intros t Ht. destruct (S5 t Ht) as (Hne & y & Hy & Hyt & Hyo). split; [done|]. exists y. auto.
Qed.

(** The preemption DPC puts the head of the highest run queue on standby, if that is not
    below the priority of the running thread. *)
Lemma sched_reschedule_spec lower cur x (w : K) : lower_calm lower → sched_inv cur x w → sched_lock ∉ locks w →
  irql (kcpu w) = IRQL_DISPATCH → softint_pending (kcpu w) = 0 →
  wp (sched_reschedule lower) (λ _ w', sched_inv cur x w' ∧ ∃ n s, w' = k_sched s (k_cpu (set_next n (kcpu w)) w)) w.
Proof.
  intros Hlow [S1 S2 S3 S4 S5 S6 S7 S8 S9] Hl Hi Hp. unfold sched_reschedule, spinlock_release_lower. repeat k_step.
  apply wp_acquire_raise; [by rewrite Hi|done|].
  assert (set_irql IRQL_DISPATCH (kcpu w) = kcpu w) as -> by by rewrite -Hi. k_step. eapply wp_deref_i; [exact S1|]. repeat k_step.
  unfold sched_next. repeat k_step. apply wp_assert_i; [apply bool_decide_eq_true; set_solver|].
  eapply wp_mono; [by apply sched_next_from_spec|]. k_simpl. intros [tp|] w1.
  - intros (p & q & Hpr & Hq & Hhi & ->). k_simpl. k_step. rewrite bool_decide_true //. cbn [whenM]. repeat k_step.
    rewrite release_acquired // Hi /wp Hlow //; [by rewrite /calm; k_simpl; rewrite Hp|].
    assert (∀ t, queued (popped (ksched w) p q) t → queued (ksched w) t) as Hsub.
    { intros t (p' & q' & Hl' & Ht). cbn [popped set_queues run_queues] in Hl'. apply list_lookup_insert_Some in Hl' as [(<- & <- & _)|[_ Hl']].
      - exists p, (tp :: q). split; [done|by right].
      - by exists p', q'. }
    split.
    + split; k_simpl; try done; [by apply popped_ok with (t := tp)|by intros ?%Hsub|].
      intros t [[= <-]|Ht]; [|by apply S5; right; apply Hsub]. apply S5. right. exists p, (tp :: q). split; [done|left].
    + by exists (Some tp), (popped (ksched w) p q).
  - intros [-> _]. k_step. rewrite bool_decide_false; [by intros [? ?]|]. cbn [whenM]. repeat k_step.
    rewrite release_acquired // Hi /wp Hlow //; [by rewrite /calm; k_simpl; rewrite Hp|]. split.
    + by split.
    + by exists (thread_next (kcpu w)), (ksched w).
Qed.

Lemma done_queue_fn_spec (w : K) : done_lock ∉ locks w → wp done_queue_fn (λ _ w', w' = k_done [] w) w.
Proof.
  intros Hl. unfold done_queue_fn, spinlock_try_lock. repeat k_step. rewrite decide_False //. repeat k_step.
  rewrite release_acquired //.
Qed.

(** The state in which DPCs run: at dispatch level, no lock held, the heap holding exactly
    the queued timers, fewer than [n], and those ready to expire: nobody waits on them and
    their DPCs, if any, are of the kinds above. *)
Record dispatch_inv (cur : nat) (x : thread) (n : nat) (w : K) : Prop := {
  di_sched : sched_inv cur x w;
  di_level : irql (kcpu w) = IRQL_DISPATCH;
  di_pending : softint_pending (kcpu w) = 0;
  di_locks : locks w = ∅;
  di_timers : timers_ok w;
  di_expiry : Forall (queued_ok timer_fn w) (heap_elems (timerlist w));
  di_size : (length (heap_elems (timerlist w)) < n)%nat;
}.

Section kernel_dpcs.
Context `{!TimerHeapLaws H} (Hclient : client_quiet) (Hclock : clock_monotone hw_clock).
Context (lower : Z → M K unit) (Hlow : lower_calm lower) (cur : nat) (x : thread).

(** What the functions of timers keep, from a CPU [c] on. *)
Definition timer_inv (c : cpudata) (w : K) : Prop :=
  sched_inv cur x w ∧ irql (kcpu w) = IRQL_DISPATCH ∧ softint_pending (kcpu w) = 0 ∧
  ∃ n dl, kcpu w = set_next n (set_next_deadline dl c).
Lemma timer_inv_stable c : engine_stable (timer_inv c).
Proof.
  intros w w' n (Hs & Hi & Hp & n' & dl & E) Ek Es Et Eo Ed Htm. unfold timer_inv. rewrite Ek. split_and!; [|done|done|].
  - eapply sched_inv_ext; [exact Hs|by rewrite Ek..|done|done|done|by rewrite Ed|done].
  - exists n', n. by rewrite E.
Qed.
Lemma timer_fns_behave c fuel : timer_quiet (dpc_call lower fuel) timer_fn (timer_inv c) ∅.
Proof.
  intros f d c1 c2 w HF (Hs & Hi & Hp & n' & dl & E) HL. destruct HF as [->|[->|[k ->]]].
  - assert (dpc_call lower fuel preemption_dpc_fn d c1 c2 = sched_reschedule lower) as -> by by destruct fuel.
    eapply wp_mono; [apply (sched_reschedule_spec lower cur x); [done..|rewrite HL; set_solver|done|done]|].
    intros [] w' (Hs' & n & s & ->). k_simpl. split_and!; try done. split_and!; try done. exists n, dl. k_simpl. by rewrite E.
  - assert (dpc_call lower fuel done_queue_dpc_fn d c1 c2 = done_queue_fn) as -> by by destruct fuel.
    eapply wp_mono; [apply done_queue_fn_spec; rewrite HL; set_solver|]. intros [] w' ->. split_and!; try done.
    split_and!; try done; [|by exists n', dl]. by eapply sched_inv_ext.
  - assert (dpc_call lower fuel (client_fn k) d c1 c2 = client k d c1 c2) as -> by by destruct fuel.
    eapply wp_mono; [apply Hclient|]. intros [] w' (E1 & E2 & E3 & E4 & E5 & E6 & E7 & E8 & E9).
    split_and!; try done; [by rewrite E1|]. unfold timer_inv. rewrite E1. split_and!; try done; [|by exists n', dl].
    eapply sched_inv_ext; [exact Hs|by rewrite E1..|done|done|done|by rewrite E4|by rewrite E7].
Qed.
Lemma queued_ok_ext (w w' : K) y : queued_ok timer_fn w y → timers w' = timers w → objs w' = objs w → locks w' = locks w →
  (∀ k d, dpcs w !! k = Some d → ∃ d', dpcs w' !! k = Some d' ∧ d_function d' = d_function d) → queued_ok timer_fn w' y.
Proof.
  intros (t & o & Q1 & Q2 & Q3 & Q4 & Q5 & Q6) E1 E2 E3 E4. exists t, o. rewrite E1 E2 E3. split_and!; try done.
  intros k Hk. destruct (Q6 k Hk) as (d & f & Hd & Hf & HF). destruct (E4 k d Hd) as (d' & Hd' & E). exists d', f. by rewrite E.
Qed.

(** The DPC functions keep the state DPCs run in. *)
Lemma dispatch_take_stable n : take_stable (dispatch_inv cur x n).
Proof.
  intros d y w Hy [Ds Dl Dp Dk Dt De Dn]. unfold taken_world. split; k_simpl; try done.
  - eapply sched_inv_ext; [exact Ds|done..| |done]. intros i Hi. k_simpl. rewrite lookup_insert_is_Some'. by right.
  - destruct Dt. by split.
  - eapply Forall_impl; [exact De|]. intros z Hz. eapply queued_ok_ext; [exact Hz|done..|]. k_simpl. intros k d' Hd'.
    destruct (decide (d = k)) as [<-|Hne]; [|exists d'; by rewrite lookup_insert_ne].
    exists (set_enqueued false y). rewrite lookup_insert_eq. split; [done|]. by rewrite Hy in Hd'; injection Hd' as <-.
Qed.
Lemma timer_call_behaves fuel n f d c1 c2 w : timer_fn f → dispatch_inv cur x n w →
  wp (dpc_call lower fuel f d c1 c2) (λ _ w', dispatch_inv cur x n w' ∧ dpc_frame w w') w.
Proof.
  intros HF [Ds Dl Dp Dk Dt De Dn].
  assert (timer_inv (kcpu w) w) as Hj by (split_and!; try done; by exists (thread_next (kcpu w)), (next_deadline (kcpu w))).
  eapply wp_mono; [by apply (timer_fns_behave (kcpu w) fuel f d c1 c2 w HF Hj Dk)|].
  intros [] w' (E1 & E2 & E3 & E4 & E5 & E6 & E7 & Hs & Hi & Hp & Hk). split; [|by split_and!].
  split; rewrite ?E2 ?E5 //.
  - destruct Dt. split; by rewrite ?E1 ?E2.
  - eapply Forall_impl; [exact De|]. intros z Hz. eapply queued_ok_ext; [exact Hz|done..|]. intros k y Hy. exists y. by rewrite E4.
Qed.
Lemma engine_call_behaves fuel d c1 c2 w : dispatch_inv cur x (S fuel) w →
  wp (dpc_call lower (S fuel) time_engine_progress_fn d c1 c2)
    (λ _ w', dispatch_inv cur x (S fuel) w' ∧ dpc_frame w w' ∧ ∃ fired, progressed hw_clock w w' fired) w.
Proof.
  intros [Ds Dl Dp Dk Dt De Dn].
  assert (timer_inv (kcpu w) w) as Hj by (split_and!; try done; by exists (thread_next (kcpu w)), (next_deadline (kcpu w))).
  cbn [dpc_call]. eapply wp_mono; [apply (time_engine_progress_spec hw_clock _ _ timer_fn (timer_inv (kcpu w)) ∅)|].
  - apply timer_fns_behave.
  - apply timer_inv_stable.
  - exact Hclock.
  - set_solver.
  - exact Hj.
  - split; [done..|apply Dt|done].
  - exact Dn.
  - intros [] w' ([fired Hf] & [Xl Xk Xn Xq] & (Hs & Hi & Hp & Hk) & Eo & Ed). pose proof (progressed_ok _ _ _ _ Dt Hf) as Dt'.
    split; [|split; [split_and!; try done; by rewrite Xk Dk|by exists fired]].
    split; try done. pose proof (pg_elems _ _ _ _ Hf) as Hpe. rewrite Hpe length_app in Dn. lia.
Qed.
Lemma dpc_call_behaves fuel : well_behaved (dpc_call lower (S fuel)) dispatch_fn (dispatch_inv cur x (S fuel)).
Proof.
  intros f d c1 c2 w [->|HF] Hi.
  - eapply wp_mono; [by apply engine_call_behaves|]. intros [] w' (? & ? & _). done.
  - by apply timer_call_behaves.
Qed.
(** *** Lowering the level *)

(** The CPU as the DPCs find it: at dispatch level, interrupts on, the software
    interrupt acknowledged. *)
Definition dispatch_world (w : K) : K :=
  k_cpu (set_ints true (set_irql IRQL_DISPATCH (set_pending 0 (kcpu w)))) w.

(** The world [w1] after the queue of [w] was run: the DPCs can only have changed the
    standby thread and the next deadline of the CPU's data. *)
Record drained (n : nat) (w w1 : K) : Prop := {
  dr_inv : dispatch_inv cur x n w1;
  dr_queue : dpcq_ok w1;
  dr_cpu : ∃ t dl, kcpu w1 = set_next t (set_next_deadline dl (set_dpcq [] 0 (kcpu (dispatch_world w))));
}.

(** The switch to the standby thread: [cur] is ready at the tail of its run queue, unless it is the
    idle thread, which is on no queue. *)
Record preempted (new : nat) (w w' : K) : Prop := {
  pr_current : thread_current (kcpu w') = Some new;
  pr_next : thread_next (kcpu w') = None;
  pr_switches : switches w' = (cur, new) :: switches w;
  pr_locks : locks w' = locks w;
  pr_sched : if decide (cur = idle_thread (kcpu w)) then ksched w' = ksched w ∧ threads w' = threads w
             else ksched w' = pushed (ksched w) (priority x) cur ∧
                  threads w' = <[cur := set_state kThreadStateReady x]> (threads w);
  pr_runq : runq_ok (ksched w') (threads w');
}.

Lemma sched_preempt_dispatch n new w Q :
  dispatch_inv cur x n w → (priority x < PRIORITY_COUNT)%nat → thread_next (kcpu w) = Some new →
  (∀ w', preempted new w w' → wp (resume cur) Q w') → wp (sched_preempt hw_clock lower resume) Q w.
Proof.
  intros [[S1 S2 S3 S4 S5 S6 S7 S8 S9] Dl Dp Dk Dt De Dn] Hx Hn HQ.
  destruct (S5 new) as (Hne & y & Hy & Hyt & Hyo); [by left|].
  assert (thread_ready w new y) as Hr by (split; try done; rewrite Dk; set_solver).
  assert (timer_ready w (preemption_timer (ksched w))) as Ht.
  { split; try done; [split|unfold calm; by rewrite Dp|]; rewrite ?Dl ?Dk //; set_solver. }
  destruct (decide (cur = idle_thread (kcpu w))) as [Hi|Hi].
  - eapply (sched_preempt_idle lower Hlow hw_clock resume w cur new y); [done|done|done|rewrite Dk; set_solver|rewrite Dk; set_solver|done|done|].
    intros w' E1 E2 E3 E4 E5 E6. apply HQ. split; try done; [by rewrite decide_True|by rewrite E5 E6].
  - eapply (sched_preempt_spec lower Hlow hw_clock resume w cur new x y); [done|done|done|done|rewrite Dk; set_solver|rewrite Dk; set_solver|done..|].
    intros w' E1 E2 E3 E4 E5 E6 E7. apply HQ. split; try done. by rewrite decide_False.
Qed.

Lemma dpc_interrupt_spec fuel w :
  dispatch_inv cur x (S fuel) (dispatch_world w) → (priority x < PRIORITY_COUNT)%nat → dpcq_ok w →
  queue_fns dispatch_fn w → (length (dpcq (kcpu w)) < S fuel)%nat → softint_pending (kcpu w) = 2 →
  ∃ w1, served (dpc_call lower (S fuel)) (dpcq (kcpu w)) (dispatch_world w) w1 ∧ drained (S fuel) w w1 ∧
    ∀ Q, match thread_next (kcpu w1) with
         | None => Q tt (k_cpu (set_ints false (kcpu w1)) w1)
         | Some new => ∀ w2, preempted new w1 w2 → wp (resume cur;; port_disable_ints) Q w2
         end → wp (dpc_interrupt lower (S fuel)) Q w.
Proof.
  intros Hd Hx Hok Hfn Hlen Hp.
  assert (wp (dpc_run_queue (dpc_call lower (S fuel)) (S fuel)) (λ _ w1, served (dpc_call lower (S fuel)) (dpcq (kcpu w)) (dispatch_world w) w1 ∧
    drained (S fuel) w w1) (dispatch_world w)) as Hrun.
  { eapply wp_mono; [eapply (dpc_run_queue_spec _ dispatch_fn (dispatch_inv cur x (S fuel)))|].
    - apply dpc_call_behaves.
    - apply dispatch_take_stable.
    - exact Hd.
    - exact (dpcq_ok_ext w (dispatch_world w) Hok eq_refl eq_refl eq_refl).
    - exact Hfn.
    - rewrite (di_locks _ _ _ _ Hd). set_solver.
    - exact Hlen.
    - intros [] w1 (Hs & Hi & Hk & Hok1 & _). split; [exact Hs|]. by split. }
  apply wp_ok in Hrun as ([] & w1 & E & Hs & Hdr).
  exists w1. split; [exact Hs|]. split; [exact Hdr|]. intros Q HQ.
  unfold dpc_interrupt, port_enable_ints. repeat k_step.
  rewrite Hp. change (Z.land 2 (Z.lnot (PENDING IRQL_DISPATCH))) with 0. fold (dispatch_world w).
  apply wp_ok. exists tt, w1. split; [exact E|]. repeat k_step.
  destruct (thread_next (kcpu w1)) as [new|] eqn:En.
  - rewrite bool_decide_true //. cbn [whenM]. eapply sched_preempt_dispatch; [apply Hdr|done|done|].
    intros w2 H2. specialize (HQ w2 H2). by apply wp_bind in HQ.
  - rewrite bool_decide_false; [by rewrite En; intros [y Hy]|]. cbn [whenM]. apply wp_ret. unfold port_disable_ints, upd_cpu. by apply wp_modify.
Qed.
End kernel_dpcs.
(** What is left of [irql_lower level] when the thread that was preempted in it runs again: the
    rest of the loop of [softint_dispatch], and the interrupt flag as it was found. *)
Definition rest_of_lowering (fuel : nat) (level : Z) (old : bool) : M K unit :=
  port_disable_ints;;
  softint_loop (irql_lower fuel) (S fuel) fuel level;;
  irql_set level;;
  port_set_ints old;;
  mret tt.

(** Lowering from dispatch level, or above it, to below it delivers every pending DPC, in order, and then switches to the thread
    the DPCs put on standby, if any. *)
Lemma irql_lower_delivers `{!TimerHeapLaws H} fuel level cur x (w : K) :
  client_quiet → clock_monotone hw_clock → (1 ≤ fuel)%nat →
  dispatch_inv cur x (S fuel) (dispatch_world w) → (priority x < PRIORITY_COUNT)%nat → dpcq_ok w →
  queue_fns dispatch_fn w → (length (dpcq (kcpu w)) < S fuel)%nat → softint_pending (kcpu w) = 2 →
  0 ≤ level < IRQL_DISPATCH → level ≤ irql (kcpu w) →
  ∃ w1, served (dpc_call (irql_lower fuel) (S fuel)) (dpcq (kcpu w)) (dispatch_world w) w1 ∧ drained cur x (S fuel) w w1 ∧
    match thread_next (kcpu w1) with
    | None => irql_lower (S fuel) level w = Ok (tt, k_cpu (set_ints (ints (kcpu w)) (set_irql level (kcpu w1))) w1)
    | Some new => ∀ Q, (∀ w2, preempted cur x new w1 w2 → wp (resume cur;; rest_of_lowering fuel level (ints (kcpu w))) Q w2) →
        wp (irql_lower (S fuel) level) Q w
    end.
Proof.
  intros Hq Hm Hf Hd Hx Hok Hfn Hlen Hp Hlv Hi. unfold IRQL_DISPATCH in Hlv.
  destruct fuel as [|fuel]; [lia|]. set (low := irql_lower (S fuel)).
  assert (lower_calm low) as Hlow by apply irql_lower_calm.
  destruct (dpc_interrupt_spec Hq Hm low Hlow cur x (S fuel) (k_cpu (set_ints false (set_irql level (kcpu w))) w))
    as (w1 & Hs & [Hi1 Hok1 Hk1] & Hrun); [exact Hd|done|by apply (dpcq_ok_ext w)|exact Hfn|exact Hlen|exact Hp|].
  exists w1. split; [exact Hs|]. split; [by split|].
  assert (level = 0 ∨ level = 1) as Hcase by lia.
  assert (∀ Q, match thread_next (kcpu w1) with
    | None => Q tt (k_cpu (set_ints (ints (kcpu w)) (set_irql level (kcpu w1))) w1)
    | Some new => ∀ w2, preempted cur x new w1 w2 → wp (resume cur;; rest_of_lowering (S fuel) level (ints (kcpu w))) Q w2
    end → wp (irql_lower (S (S fuel)) level) Q w) as Hall.
  { intros Q HQ. cbn [irql_lower]. fold low. unfold irql_lower_body. repeat k_step.
    apply wp_assert_i; [apply bool_decide_eq_true; lia|]. repeat k_step.
    rewrite Hp decide_True; [by destruct Hcase; subst|]. unfold softint_dispatch. repeat k_step.
    cbn [softint_loop]. repeat k_step. rewrite Hp decide_True; [by destruct Hcase; subst|].
    rewrite bool_decide_true //. cbn [whenM]. k_step. apply Hrun. destruct (thread_next (kcpu w1)) as [new|] eqn:En.
    - intros w2 H2. specialize (HQ w2 H2). unfold rest_of_lowering in HQ. apply wp_bind. apply wp_bind in HQ.
      eapply wp_mono; [exact HQ|]. intros [] w3 H3. apply wp_bind in H3. eapply wp_mono; [exact H3|].
      intros [] w4 H4. by apply wp_bind in H4.
    - pose proof (di_pending _ _ _ _ Hi1) as Hp1. k_simpl. cbn [softint_loop]. repeat k_step. rewrite Hp1 Z.land_0_l.
      destruct (decide (0 ≠ 0)) as [?|_]; [done|]. by repeat k_step. }
  destruct (thread_next (kcpu w1)) as [new|] eqn:En; [exact Hall|].
  assert (wp (irql_lower (S (S fuel)) level) (λ _ w', w' = k_cpu (set_ints (ints (kcpu w)) (set_irql level (kcpu w1))) w1) w) as Hwp.
  { by apply Hall. }
  by apply wp_ok in Hwp as ([] & w' & E & ->).
Qed.
End softint.
