(* ===== verification/KernelProps.v ===== *)
(** * The scheduling core: properties

    What the interrupt levels, DPCs, timers, the scheduler and the dispatcher objects
    guarantee together.  The statements are about the routines tied together by
    [irql_lower]; the witnesses run them on a small machine with the list heap. *)

From S2P Require Import Prelude Queue Core Dpc Timer Sched Dispatch SoftInt.

(** ** A small machine

    Thread 0 is the idle thread, threads 1 to 4 have priorities 5, 5, 7 and 9.  Thread
    [t] has the wait timer [10 + t]; the preemption timer is 20 and the timers 21 and
    22 belong to clients.  DPC 30 is the timer DPC, 31 the preemption DPC, 32 and 33
    belong to clients.  Objects 40 and 41 are events, mutex 42 uses event 41. *)
Module Machine.
Definition HP := list (nat * Z).
Definition th (tm : nat) (s : thread_state) (p : nat) : thread := Thread tm (-1) (-1) None 0 30 s p None None.
Definition ob (ty sig : Z) : obj_header := ObjHeader 1 None ty sig 0 [].
Definition tm (d : option nat) (dl : Z) : timer := Timer d dl kTimerUnused false.

Definition cpu0 : cpudata := Cpu IRQL_DISPATCH true 0 [] 0 (Some 1%nat) None 0 0 30 UINT64_MAX.
Definition sched0 : scheduler := Sched (replicate PRIORITY_COUNT []) 0 31 20.
Definition machine : kworld HP := {|
  kcpu := cpu0;
  ksched := sched0;
  locks := ∅;
  dpcs := list_to_map [(30%nat, Dpc (Some time_engine_progress_fn) None None false);
                       (31%nat, Dpc (Some preemption_dpc_fn) None None false);
                       (32%nat, Dpc (Some (client_fn 0)) None None false);
                       (33%nat, Dpc (Some (client_fn 1)) None None false)];
  objs := list_to_map ((λ i, (i, ob kObjTypeTimer 0)) <$> [10; 11; 12; 13; 14; 20; 21; 22]%nat) ∪ list_to_map [(40%nat, ob kObjTypeEvent 0); (41%nat, ob kObjTypeEvent 1)];
  threads := list_to_map [(0%nat, th 10 kThreadStateNull 0); (1%nat, th 11 kThreadStateRunning 5);
                          (2%nat, th 12 kThreadStateNull 5); (3%nat, th 13 kThreadStateNull 7);
                          (4%nat, th 14 kThreadStateNull 9)];
  wblocks := ∅;
  timers := list_to_map ((λ i, (i, tm None 0)) <$> [10; 11; 12; 13; 14; 20; 21; 22]%nat);
  mutexes := {[42%nat := Mutex 41 None]};
  timerlist := [];
  armed := [];
  reads := 0;
  done_queue := [];
  switches := [];
|}.
Definition clock (n : nat) : Z := 100 * Z.of_nat n.
Definition stay (t : nat) : M (kworld HP) unit := mret tt.
(** Client DPCs leave a mark in the log of switches. *)
Definition mark (n d : nat) (c1 c2 : option nat) : M (kworld HP) unit :=
  modify (λ w, k_switches ((n, d) :: switches w) w).

Definition on_cpu (f : cpudata → cpudata) (w : kworld HP) := k_cpu (f (kcpu w)) w.
Definition with_locks (l : list klock) (w : kworld HP) := k_locks (list_to_set l) w.
Definition with_queue (p : nat) (q : list nat) (w : kworld HP) :=
  k_sched (set_queues (<[p := q]> (run_queues (ksched w)))
             (Z.lor (run_mask (ksched w)) (Z.shiftl 1 (Z.of_nat p))) (ksched w)) w.

(** Decision procedures for the invariants, for the concrete worlds. *)
Definition runq_check (s : scheduler) (ths : gmap nat thread) : bool :=
  bool_decide (length (run_queues s) = PRIORITY_COUNT) &&
  bool_decide (0 ≤ run_mask s < 2 ^ 16) &&
  forallb (λ '(p, q), bool_decide (NoDup q) &&
    forallb (λ t, match ths !! t with Some x => bool_decide (priority x = p) | None => false end) q &&
    Bool.eqb (Z.testbit (run_mask s) (Z.of_nat p)) (bool_decide (q ≠ [])))
    (imap (λ p q, (p, q)) (run_queues s)).
Lemma runq_check_ok s ths : runq_check s ths = true → runq_ok s ths.
Proof.
  unfold runq_check. rewrite !andb_true_iff !bool_decide_eq_true. intros [[Hl Hm] Hq].
  rewrite forallb_forall in Hq.
  assert (∀ p q, run_queues s !! p = Some q → NoDup q ∧
    (∀ t, t ∈ q → ∃ x, ths !! t = Some x ∧ priority x = p) ∧
    Z.testbit (run_mask s) (Z.of_nat p) = bool_decide (q ≠ [])) as Hall.
  { intros p q Hp. specialize (Hq (p, q)). rewrite !andb_true_iff bool_decide_eq_true eqb_true_iff in Hq.
    destruct Hq as [[H1 H2] H3].
    - apply list_elem_of_In, list_elem_of_lookup. exists p. by rewrite list_lookup_imap Hp.
    - split_and!; [done| |done]. intros t Ht. rewrite forallb_forall in H2.
      apply list_elem_of_In, H2 in Ht. destruct (ths !! t) as [x|]; [|done].
      exists x. split; [done|]. by eapply bool_decide_eq_true_1. }
  split; [done|..].
  - intros p q Hp. by apply (Hall p q).
  - intros p q t Hp Ht. by apply (Hall p q).
  - intros p q Hp. destruct (Hall p q Hp) as (_ & _ & ->). apply bool_decide_eq_true.
  - split; [lia|]. intros n Hn. destruct (decide (run_mask s = 0)) as [->|]; [apply Z.bits_0|].
    apply Z.bits_above_log2; [lia|]. assert (Z.log2 (run_mask s) < 16); [|lia].
    apply Z.log2_lt_pow2; lia.
Qed.
Lemma timers_ok_idle (w : kworld HP) :
  timerlist w = [] → map_Forall (λ _ x, engine x = false ∧ timer_state x ≠ kTimerQueued) (timers w) → timers_ok w.
Proof.
  intros Hn Hf. split; rewrite ?Hn.
  - constructor.
  - intros t d. split; [by intros ?%elem_of_nil|]. intros (x & Hx & He & _).
    destruct (Hf t x Hx). congruence.
  - intros t x Hx. destruct (Hf t x Hx) as [-> Hs]. done.
Qed.
Definition timer_check (w : kworld HP) (tp : nat) : bool :=
  bool_decide (timerlist w = []) &&
  bool_decide (map_Forall (λ _ x, engine x = false ∧ timer_state x ≠ kTimerQueued) (timers w)) &&
  bool_decide (irql (kcpu w) = IRQL_DISPATCH ∧ dpc_lock ∉ locks w ∧ engine_lock ∉ locks w ∧
               is_Some (dpcs w !! timer_update (kcpu w))) &&
  bool_decide (Z.shiftr (softint_pending (kcpu w)) 2 = 0 ∧ is_Some (timers w !! tp) ∧ is_Some (objs w !! tp) ∧
               object_lock tp ∉ locks w ∧ is_Some (dpcs w !! preemption_dpc (ksched w))).
Lemma timer_check_ok w tp : timer_check w tp = true → timer_ready w tp.
Proof.
  unfold timer_check. rewrite !andb_true_iff !bool_decide_eq_true.
  intros [[[H1 H2] (H3 & H4 & H5 & H6)] (H7 & H8 & H9 & H10 & H11)].
  split; [split; [by rewrite H3|done..]|done|done|by apply timers_ok_idle|done..].
Qed.
(** A world with queued timers. *)
Definition queued_timer (w : kworld HP) (t : nat) (x : timer) : Prop :=
  (engine x = true ↔ (t, deadline x) ∈ timerlist w) ∧ (engine x = true ↔ timer_state x = kTimerQueued).
Lemma timers_ok_check (w : kworld HP) :
  NoDup (timerlist w).*1 → map_Forall (queued_timer w) (timers w) →
  Forall (λ '(t, d), deadline <$> timers w !! t = Some d) (timerlist w) → timers_ok w.
Proof.
  intros Nd Hf Hl. split; [exact Nd| |intros t x Hx; apply (Hf t x Hx)].
  change (heap_elems (timerlist w)) with (timerlist w). intros t d. rewrite Forall_forall in Hl. split.
  - intros Hin. pose proof (Hl _ Hin) as Hd. cbn in Hd. destruct (timers w !! t) as [x|] eqn:Hx; [|done]. injection Hd as <-.
    exists x. destruct (Hf t x Hx) as [He _]. split_and!; [done|by apply He|done].
  - intros (x & Hx & He & <-). destruct (Hf t x Hx) as [Hq _]. by apply Hq.
Qed.
Lemma not_queued_check (s : scheduler) t : bool_decide (Forall (λ q, t ∉ q) (run_queues s)) = true → ¬ queued s t.
Proof.
  rewrite bool_decide_eq_true Forall_forall. intros Hq (p & q & Hp & Ht). eapply Hq; [|done].
  by eapply list_elem_of_lookup_2.
Qed.
End Machine.

Import Machine.

(** ** Deferred procedure calls *)

(** [dpc_enqueue] puts a DPC on the queue once: a DPC that is already queued is
    left alone, another goes to the tail with its contexts, and the dispatch software
    interrupt becomes pending.  The queue invariant, the locks, the level and the
    interrupt flag are preserved. *)
Theorem dpc_enqueue_once {H} d x f c1 c2 (w : kworld H) :
  dpcq_ok w → dpcs w !! d = Some x → d_function x = Some f → dpc_lock ∉ locks w →
  wp (dpc_enqueue d c1 c2) (λ _ w', dpcq_ok w' ∧
    dpcq (kcpu w') = (if decide (d ∈ dpcq (kcpu w)) then dpcq (kcpu w) else dpcq (kcpu w) ++ [d]) ∧
    (d ∉ dpcq (kcpu w) → dispatch_pending (softint_pending (kcpu w')) ∧
       dpcs w' !! d = Some (Dpc (Some f) c1 c2 true)) ∧
    locks w' = locks w ∧ irql (kcpu w') = irql (kcpu w) ∧ ints (kcpu w') = ints (kcpu w)) w.
Proof. apply dpc_enqueue_ok. Qed.

(** The machine with two timers queued, of which 22 is due and calls the preemption DPC, and
    with thread 3 ready, which has a higher priority than the running thread 1. *)
Definition timed_machine : kworld HP :=
  k_heap [(21%nat, 250); (22%nat, 150)]
    (k_timers (<[21%nat := Timer None 250 kTimerQueued true]>
                (<[22%nat := Timer (Some 31%nat) 150 kTimerQueued true]> (timers machine)))
       (k_reads 2 (with_queue 7 [3]%nat machine))).

(** That machine with the timer DPC and a client's queued. *)
Definition queued_machine : kworld HP :=
  k_dpcs (<[30%nat := Dpc (Some time_engine_progress_fn) None None true]>
           (<[32%nat := Dpc (Some (client_fn 0)) None None true]> (dpcs machine)))
    (on_cpu (λ c, set_pending 2 (set_dpcq [30; 32]%nat 2 c)) timed_machine).

Lemma empty_queue_ok : dpcq_ok machine.
Proof.
  split; [constructor| |by intros d ?%elem_of_nil|done].
  assert (map_Forall (λ _ x, enqueued x = false) (dpcs machine)) as Hf by by_eval.
  intros d x Hx. rewrite (Hf d x Hx). split; [done|by intros ?%elem_of_nil].
Qed.
Lemma queued_machine_ok : dpcq_ok queued_machine ∧ queue_fns dispatch_fn queued_machine.
Proof.
  assert (map_Forall (λ d x, (enqueued x = true ↔ d ∈ [30; 32]%nat) ∧
    match d_function x with Some wait_timer_exp_fn => false | _ => true end = true) (dpcs queued_machine)) as Hall by by_eval.
  split; [split|].
  - by_eval.
  - intros d x Hx. by apply (Hall d x Hx).
  - intros d [->|[->|[]%elem_of_nil]%elem_of_cons]%elem_of_cons; by do 2 eexists.
  - done.
  - intros d x f _ Hx Hf. destruct (Hall d x Hx) as [_ Hne]. rewrite Hf in Hne. unfold dispatch_fn, timer_fn.
    destruct f as [| | | |n]; [by left|by right; left|by right; right; left| |by do 3 right; exists n]. done.
Qed.

Lemma dpc_enqueue_once_witness :
  wp (dpc_enqueue 32 (Some 7%nat) None) (λ _ w', dpcq_ok w' ∧ dpcq (kcpu w') = [32%nat]) machine.
Proof.
  eapply wp_mono; [apply (dpc_enqueue_once 32 (Dpc (Some (client_fn 0)) None None false) (client_fn 0))|].
  - exact empty_queue_ok.
  - reflexivity.
  - reflexivity.
  - by_eval.
  - intros r w' (H1 & H2 & _). split; [exact H1|exact H2].
Defined.

(** C2: Lowering the level from dispatch, or above, to below dispatch runs every queued DPC, in the
    order they were queued, each once and with its contexts, at dispatch level with interrupts
    enabled, and leaves the queue empty and nothing pending.  If the DPCs put no thread on standby
    (and none was), the routine then returns with the CPU at the level asked for and the
    interrupt flag as it was.  Otherwise the CPU switches to the standby thread, the running one [cur] going
    to the tail of its run queue (the idle thread to none); when [cur] is resumed it goes on with what is
    left of the lowering.

    The DPCs may be the timer engine, the preemption DPC, the one of the done queue, and functions
    of clients that leave the scheduling core's data alone (the kernel queues no others
    itself).  [wait_timer_exp], the DPC of a wait with a timeout, is not among them: it stops the kernel
    ([wait_timeout_deadlocks]).  [dispatch_inv] says that no lock is held, that the heap and the run queues are
    consistent, and that nobody waits on a queued timer. *)
Theorem irql_lower_runs_dpcs {H} `{TimerHeap H, !TimerHeapLaws H} hw_clock resume client fuel level cur x (w : kworld H) :
  client_quiet client → clock_monotone hw_clock → (1 ≤ fuel)%nat →
  dispatch_inv cur x (S fuel) (dispatch_world w) → (priority x < PRIORITY_COUNT)%nat → dpcq_ok w →
  queue_fns dispatch_fn w → (length (dpcq (kcpu w)) < S fuel)%nat → softint_pending (kcpu w) = 2 →
  0 ≤ level < IRQL_DISPATCH → level ≤ irql (kcpu w) →
  let lower n := irql_lower hw_clock resume client n in
  ∃ w1, served (dpc_call hw_clock client (lower fuel) (S fuel)) (dpcq (kcpu w)) (dispatch_world w) w1 ∧
    drained cur x (S fuel) w w1 ∧
    match thread_next (kcpu w1) with
    | None => lower (S fuel) level w = Ok (tt, k_cpu (set_ints (ints (kcpu w)) (set_irql level (kcpu w1))) w1)
    | Some new => ∀ Q,
        (∀ w2, preempted cur x new w1 w2 →
           wp (resume cur;; rest_of_lowering hw_clock resume client fuel level (ints (kcpu w))) Q w2) →
        wp (lower (S fuel) level) Q w
    end.
Proof. exact (irql_lower_delivers hw_clock resume client fuel level cur x w). Qed.

Lemma mark_quiet : client_quiet mark.
Proof. intros n d c1 c2 w. by apply wp_modify. Qed.
Lemma clock_mono : clock_monotone clock.
Proof. intros m n Hmn. unfold clock. lia. Qed.

Lemma timed_sched (w : kworld HP) : ksched w = ksched timed_machine → threads w = threads machine → timers w = timers timed_machine →
  objs w = objs machine → is_Some (dpcs w !! 30%nat) → is_Some (dpcs w !! 31%nat) → thread_current (kcpu w) = Some 1%nat →
  thread_next (kcpu w) = None → timer_update (kcpu w) = 30%nat → sched_inv 1 (th 11 kThreadStateRunning 5) w.
Proof.
  intros E1 E2 E3 E4 E5 E6 E7 E8 E9. split; rewrite ?E1 ?E2 ?E3 ?E4 ?E7 ?E8 ?E9 //; try by_eval.
  - apply runq_check_ok. by_eval.
  - apply not_queued_check. by_eval.
  - intros t [[=]|(p & q & Hp & Ht)].
    assert (Forall (Forall (λ t, t = 3%nat)) (run_queues (ksched timed_machine))) as Hall by by_eval.
    rewrite Forall_forall in Hall. specialize (Hall q). rewrite Forall_forall in Hall.
    rewrite (Hall (list_elem_of_lookup_2 _ _ _ Hp) t Ht). split; [done|]. eexists. split; [reflexivity|]. split; by_eval.
Qed.
Lemma timed_expiry (w : kworld HP) : timers w = timers timed_machine → objs w = objs machine → locks w = ∅ →
  d_function <$> dpcs w !! 31%nat = Some (Some preemption_dpc_fn) →
  Forall (queued_ok timer_fn w) [(21%nat, 250); (22%nat, 150)].
Proof.
  intros E1 E2 E3 E4. unfold queued_ok. repeat apply Forall_cons_2; [..|constructor]; rewrite E1 E2 E3.
  - eexists _, _. split_and!; [reflexivity..|vm_compute; congruence|set_solver|by intros k [=]].
  - eexists _, _. split_and!; [reflexivity..|vm_compute; congruence|set_solver|]. intros k [= <-].
    destruct (dpcs w !! 31%nat) as [y|]; [|done]. injection E4 as E4. exists y, preemption_dpc_fn. split_and!; [done..|by left].
Qed.
Lemma timed_timers (w : kworld HP) : timers w = timers timed_machine → timerlist w = timerlist timed_machine → timers_ok w.
Proof. intros E1 E2. apply timers_ok_check; unfold queued_timer; rewrite ?E1 ?E2; by_eval. Qed.

Lemma irql_lower_runs_dpcs_witness :
  ∃ w1, served (dpc_call clock mark (irql_lower clock stay mark 3) 4) [30; 32]%nat (dispatch_world queued_machine) w1 ∧
    dpcq (kcpu w1) = [] ∧ softint_pending (kcpu w1) = 0.
Proof.
  destruct (irql_lower_runs_dpcs clock stay mark 3 IRQL_PASSIVE 1 (th 11 kThreadStateRunning 5) queued_machine)
    as (w1 & Hs & [Hi _ (t & dl & E)] & _).
  - exact mark_quiet.
  - exact clock_mono.
  - lia.
  - split; [by apply timed_sched|reflexivity|reflexivity|reflexivity|by apply timed_timers|by apply timed_expiry|].
    vm_compute. lia.
  - vm_compute. lia.
  - exact (proj1 queued_machine_ok).
  - exact (proj2 queued_machine_ok).
  - vm_compute. lia.
  - reflexivity.
  - by_eval.
  - by_eval.
  - exists w1. split; [exact Hs|]. rewrite E. split; reflexivity.
Defined.

(** The client's mark and the switch from thread 1 to thread 3, which the expired timer put on standby. *)
Example irql_lower_order :
  match irql_lower clock stay mark 5 IRQL_PASSIVE queued_machine with
  | Ok (_, w') => switches w' = [(1, 3); (0, 32)]%nat ∧ thread_current (kcpu w') = Some 3%nat ∧ irql (kcpu w') = IRQL_PASSIVE
  | Panic _ => False
  end.
Proof. vm_compute. by split_and!. Qed.

(** [dpc_dequeue] takes a DPC off the queue but leaves it marked as enqueued and
    counted, so the next [dpc_enqueue] of it is lost. *)
Theorem dpc_dequeue_loses_enqueue {H} d x c1 c2 (w : kworld H) :
  dpcq_ok w → dpcs w !! d = Some x → d ∈ dpcq (kcpu w) → dpc_lock ∉ locks w →
  wp (dpc_dequeue d;; dpc_enqueue d c1 c2) (λ _ w', d ∉ dpcq (kcpu w') ∧ dpcs w' = dpcs w ∧
    dpc_count (kcpu w') = dpc_count (kcpu w)) w.
Proof. apply dpc_dequeue_then_enqueue. Qed.

Lemma dpc_dequeue_loses_enqueue_witness :
  wp (dpc_dequeue 32;; dpc_enqueue 32 None None) (λ _ w', 32%nat ∉ dpcq (kcpu w')) queued_machine.
Proof.
  eapply wp_mono; [apply (dpc_dequeue_loses_enqueue 32 (Dpc (Some (client_fn 0)) None None true) None None)|].
  - exact (proj1 queued_machine_ok).
  - reflexivity.
  - by_eval.
  - by_eval.
  - intros r w' (H1 & _). exact H1.
Defined.

(** ** Timers *)

(** C7: Run as the timer DPC with the kernel's own DPC functions, [time_engine_progress] pops
    exactly the timers whose deadline has passed, in the order of their deadlines, marks each as fired and
    off the engine, touches no other timer, and arms the hardware for the earliest one
    left (or disarms it when none is).  It returns within as many turns as there are
    queued timers, plus one, and keeps the state DPCs run in.

    The DPCs of the timers may be the preemption DPC, the one of the done queue, and functions of clients
    that leave the scheduling core's data alone; nobody waits on the timers.  (A timer with a
    waiting thread, or with [wait_timer_exp] as its DPC, stops the kernel when it expires: see
    [event_signal_waiter_deadlocks] and [wait_timeout_deadlocks].) *)
Theorem timers_expire_in_order {H} `{TimerHeap H, !TimerHeapLaws H} hw_clock resume client n fuel cur x (w : kworld H) :
  client_quiet client → clock_monotone hw_clock → dispatch_inv cur x (S fuel) w →
  let lower := irql_lower hw_clock resume client (S n) in
  wp (time_engine_progress hw_clock (obj_satisfy hw_clock lower) (dpc_call hw_clock client lower fuel) (S fuel))
    (λ _ w', (∃ fired, progressed hw_clock w w' fired) ∧ dispatch_inv cur x (S fuel) w' ∧ dpc_frame w w') w.
Proof.
  intros Hq Hm Hi lower. assert (lower_calm lower) as Hlow by apply irql_lower_calm.
  eapply wp_mono; [exact (engine_call_behaves hw_clock resume client Hq Hm lower Hlow cur x fuel 0 None None w Hi)|].
  intros [] w' (? & ? & ?). done.
Qed.

Lemma timers_expire_in_order_witness :
  wp (time_engine_progress clock (obj_satisfy clock (irql_lower clock stay mark 1))
        (dpc_call clock mark (irql_lower clock stay mark 1) 2) 3)
    (λ _ w', ∃ fired, progressed clock timed_machine w' fired) timed_machine.
Proof.
  eapply wp_mono; [apply (timers_expire_in_order clock stay mark 0 2 1 (th 11 kThreadStateRunning 5) timed_machine)|].
  - exact mark_quiet.
  - exact clock_mono.
  - split; [by apply timed_sched|reflexivity|reflexivity|reflexivity|by apply timed_timers|by apply timed_expiry|].
    vm_compute. lia.
  - intros r w' (H1 & _). exact H1.
Defined.

(** Timer 22 is due at the first reading of the clock (200), timer 21 at the second
    (300): both fire, the DPC of 22 puts thread 3 on standby, nothing is left to arm. *)
Example timers_expire_order :
  match time_engine_progress clock (obj_satisfy clock (irql_lower clock stay mark 1))
          (dpc_call clock mark (irql_lower clock stay mark 1) 2) 3 timed_machine with
  | Ok (_, w') => (thread_next (kcpu w'), armed w', timerlist w') = (Some 3%nat, [0], [])
  | Panic _ => False
  end.
Proof. vm_compute. reflexivity. Qed.

(** C31: Re-arming at dispatch level, the way the scheduler does it (uninstall, set,
    install): the timer ends up queued with the new deadline and DPC, the heap holds
    exactly the queued timers, and the scheduler, threads, locks and level are as they
    were. *)
Theorem timer_rearm_keeps_heap {H} `{TimerHeap H, !TimerHeapLaws H} hw_clock resume client fuel tp dl d c1 c2 (w : kworld H) :
  timer_ready w tp → (∀ k, d = Some k → k = preemption_dpc (ksched w)) →
  let lower := irql_lower hw_clock resume client (S fuel) in
  wp (timer_uninstall lower tp;; timer_set lower tp dl d;; timer_install lower tp c1 c2)
    (λ _ w', timers_ok w' ∧ timers w' !! tp = Some (Timer d dl kTimerQueued true) ∧
       (tp, dl) ∈ heap_elems (timerlist w') ∧ timer_frame w w') w.
Proof.
  intros R Hd lower. pose proof (irql_lower_calm hw_clock resume client fuel) as Hl. fold lower in Hl.
  k_step. eapply wp_mono; [by apply uninstall_step|]. intros [] w1 (R1 & F1 & t & Ht & He & _).
  k_step. eapply wp_mono; [by eapply (set_step _ Hl w1 tp t)|]. intros [] w2 (R2 & F2 & Ht2).
  eapply wp_mono; [eapply (install_step _ Hl w2 tp _ c1 c2 R2 Ht2); [done|]|].
  { intros k Hk. cbn in Hk. rewrite (Hd k Hk) -(tf_sched _ _ F1) -(tf_sched _ _ F2). apply (tr_dpc _ _ R2). }
  intros [] w3 (R3 & F3 & Ht3). pose proof (tr_ok _ _ R3) as Ok3. split_and!; [done|done| |].
  - apply (tk_elem _ Ok3). rewrite Ht3. by eexists.
  - etrans; [exact F1|]. by etrans.
Qed.

Lemma timer_rearm_keeps_heap_witness :
  wp (timer_uninstall (irql_lower clock stay mark 3) 21;; timer_set (irql_lower clock stay mark 3) 21 500 None;;
      timer_install (irql_lower clock stay mark 3) 21 None None)
    (λ _ w', timers_ok w' ∧ timers w' !! 21%nat = Some (Timer None 500 kTimerQueued true)) machine.
Proof.
  eapply wp_mono; [apply (timer_rearm_keeps_heap clock stay mark 2 21 500 None None None machine)|].
  - apply timer_check_ok. vm_compute. reflexivity.
  - intros k [=].
  - intros r w' (H1 & H2 & _). split; [exact H1|exact H2].
Defined.

(** [timer_set] of a timer that is still queued never returns: it holds the timer's
    lock when [timer_uninstall] takes it again, for any [irql_lower]. *)
Theorem timer_set_queued_deadlocks {H} `{TimerHeap H} lower tp t dl d (w : kworld H) :
  timer_env w → timers w !! tp = Some t → timer_state t = kTimerQueued → engine t = true →
  object_lock tp ∉ locks w →
  timer_set lower tp dl d w = Panic (Deadlock "deadlock?").
Proof. apply timer_set_queued_stops. Qed.

Lemma timer_set_queued_deadlocks_witness :
  timer_set (irql_lower clock stay mark 3) 21 900 None timed_machine = Panic (Deadlock "deadlock?").
Proof.
  apply (timer_set_queued_deadlocks _ 21 (Timer None 250 kTimerQueued true)).
  - split; [vm_compute; congruence|by_eval|by_eval|by_eval].
  - reflexivity.
  - reflexivity.
  - reflexivity.
  - by_eval.
Defined.

(** ** The scheduler *)

(** [sched_next] takes the head of the highest non-empty run queue at or above the
    given priority, clears the queue's bit in the mask when it becomes empty, and
    changes nothing else; it returns nothing only when all those queues are empty.  The
    run queues and the mask stay consistent. *)
Theorem sched_next_highest {H} `{TimerHeap H} prio (w : kworld H) :
  runq_ok (ksched w) (threads w) → sched_lock ∈ locks w →
  wp (sched_next prio) (λ r w', runq_ok (ksched w') (threads w') ∧ match r with
    | None => w' = w ∧ ∀ p q, (prio ≤ p)%nat → run_queues (ksched w) !! p = Some q → q = []
    | Some t => ∃ p q, (prio ≤ p)%nat ∧ run_queues (ksched w) !! p = Some (t :: q) ∧
        (∀ p' q', (p < p')%nat → run_queues (ksched w) !! p' = Some q' → q' = []) ∧
        w' = k_sched (popped (ksched w) p q) w
    end) w.
Proof.
  intros Rq Hl. unfold sched_next. repeat k_step. apply wp_assert_i; [by apply bool_decide_eq_true|].
  assert (∀ p q, run_queues (ksched w) !! p = Some q → (p < PRIORITY_COUNT)%nat) as Hlt.
  { intros p q Hp. rewrite -(rq_len _ _ Rq). by eapply lookup_lt_Some. }
  eapply wp_mono; [by apply sched_next_from_spec|]. intros [t|] w'.
  - intros (p & q & Hp & Hq & Hhi & ->). split; [by eapply popped_ok|]. exists p, q.
    split_and!; [lia|done| |done]. intros p' q' Hp' Hl'. apply (Hhi p'); [|done]. split; [done|by eapply Hlt].
  - intros [-> Hall]. split; [done|]. split; [done|]. intros p q Hp Hq. apply (Hall p); [|done].
    split; [done|by eapply Hlt].
Qed.

Definition ready_machine : kworld HP := with_queue 7 [3]%nat (with_queue 5 [2]%nat machine).

Lemma sched_next_highest_witness :
  wp (sched_next 0) (λ r w', runq_ok (ksched w') (threads w')) (with_locks [sched_lock] ready_machine).
Proof.
  eapply wp_mono; [apply (sched_next_highest 0 (with_locks [sched_lock] ready_machine))|].
  - apply runq_check_ok. vm_compute. reflexivity.
  - by_eval.
  - intros r w' (H1 & _). exact H1.
Defined.

Example sched_next_run :
  match sched_next 6 (with_locks [sched_lock] ready_machine) with
  | Ok (r, w') => (r, run_mask (ksched w')) = (Some 3%nat, 32)
  | Panic _ => False
  end.
Proof. vm_compute. reflexivity. Qed.

(** C19: Making a thread ready while nothing is on standby.  A thread that does not beat
    the running one goes to the tail of the queue of its priority, with its mask bit
    set; one that beats it becomes the standby thread and the dispatch software
    interrupt is made pending, the queues unchanged.  In both cases the run queues
    stay consistent and no lock changes. *)
Theorem sched_insert_ready {H} `{TimerHeap H, !TimerHeapLaws H} hw_clock resume client n fuel t x c y (w : kworld H) :
  insert_env w t x → thread_next (kcpu w) = None → thread_current (kcpu w) = Some c →
  threads w !! c = Some y → t ≠ c →
  wp (sched_insert hw_clock (irql_lower hw_clock resume client (S n)) (S fuel) t)
    (λ _ w', locks w' = locks w ∧ thread_current (kcpu w') = Some c ∧ runq_ok (ksched w') (threads w') ∧
      if decide (priority x ≤ priority y)%nat then
        thread_next (kcpu w') = None ∧ ksched w' = pushed (ksched w) (priority x) t ∧
        threads w' = <[t := set_state kThreadStateReady x]> (threads w)
      else
        thread_next (kcpu w') = Some t ∧ ksched w' = ksched w ∧
        threads w' = <[t := set_state kThreadStateStandby x]> (threads w) ∧
        dispatch_pending (softint_pending (kcpu w'))) w.
Proof.
  intros E Hn Hc Hy Hne. pose proof (irql_lower_calm hw_clock resume client n) as Hl. case_decide as Hp.
  - eapply wp_mono; [eapply (sched_insert_queues _ Hl hw_clock w fuel t x c y E); [|done..]|].
    { unfold rival. by rewrite Hn. }
    intros [] w' [I1 I2 I3 I4 I5 I6 I7 I8 I9 I10 I11]. rewrite I4 I5 Hn Hc. by split_and!.
  - eapply wp_mono; [eapply (sched_insert_preempts _ hw_clock w fuel t x c y E); [done..|lia]|].
    intros [] w' (J1 & J2 & J3 & J4 & J5 & J6). split_and!; [done|done| |done|done|done|done].
    destruct E. rewrite J4 J2. by eapply runq_ok_threads.
Qed.

Definition locked_machine (t : nat) : kworld HP := with_locks [sched_lock; thread_lock t] machine.
Lemma locked_env t x : threads (locked_machine t) !! t = Some x →
  bool_decide (priority x < PRIORITY_COUNT)%nat = true → insert_env (locked_machine t) t x.
Proof.
  intros Hx Hp%bool_decide_eq_true. split; [set_solver|set_solver|done|done|..].
  - apply runq_check_ok. vm_compute. reflexivity.
  - apply not_queued_check. change (run_queues _) with (replicate PRIORITY_COUNT ([] : list nat)).
    apply bool_decide_eq_true, Forall_replicate. set_solver.
  - apply timer_check_ok. unfold timer_check. rewrite !andb_true_iff.
    split; [split; [split; [vm_compute; reflexivity|vm_compute; reflexivity]|]|]; apply bool_decide_eq_true.
    + split_and!; [done|unfold locked_machine, with_locks; k_simpl; set_solver..|by_eval].
    + split_and!; [done|by_eval|by_eval|unfold locked_machine, with_locks; k_simpl; set_solver|by_eval].
Qed.

Lemma sched_insert_ready_witness :
  wp (sched_insert clock (irql_lower clock stay mark 3) 2 3) (λ _ w', thread_next (kcpu w') = Some 3%nat)
    (locked_machine 3).
Proof.
  eapply wp_mono; [apply (sched_insert_ready clock stay mark 2 1 3 (th 13 kThreadStateNull 7) 1
                            (th 11 kThreadStateRunning 5) (locked_machine 3))|].
  - apply locked_env; reflexivity.
  - reflexivity.
  - reflexivity.
  - reflexivity.
  - lia.
  - intros r w' (_ & _ & _ & H1). exact (proj1 H1).
Defined.

(** A thread that beats the standby thread displaces it for good: the recursive call
    of [sched_insert] passes the new thread again instead of the displaced one, so the
    new thread is both on standby and on its run queue, and the displaced thread, still
    marked standby, is on no queue and no longer next. *)
Theorem sched_insert_forgets_standby {H} `{TimerHeap H, !TimerHeapLaws H} hw_clock resume client k fuel t x n y (w : kworld H) :
  insert_env w t x → thread_next (kcpu w) = Some n → threads w !! n = Some y → t ≠ n →
  (priority y < priority x)%nat → ¬ queued (ksched w) n →
  wp (sched_insert hw_clock (irql_lower hw_clock resume client (S k)) (S (S fuel)) t)
    (λ _ w', thread_next (kcpu w') = Some t ∧ queued (ksched w') t ∧
       ¬ queued (ksched w') n ∧ threads w' !! n = Some y) w.
Proof.
  intros E Hn Hy Hne Hlt Hq.
  eapply wp_mono; [eapply (sched_insert_displaces _ (irql_lower_calm hw_clock resume client k) hw_clock w fuel t x n y); done|].
  intros [] w' (J1 & -> & ->). destruct E as [_ _ _ Hp [Le _ _ _ _] _ _].
  destruct (lookup_lt_is_Some_2 (run_queues (ksched w)) (priority x)) as [q Hl]; [lia|].
  split_and!; [done| | |by rewrite lookup_insert_ne].
  - exists (priority x), (q ++ [t]). cbn [pushed set_queues run_queues]. rewrite list_lookup_alter_eq Hl.
    split; [done|set_solver].
  - intros (p & q' & Hl' & Hin). cbn [pushed set_queues run_queues] in Hl'.
    destruct (decide (priority x = p)) as [<-|].
    + rewrite list_lookup_alter_eq Hl in Hl'. injection Hl' as <-.
      apply elem_of_app in Hin as [Hin|?%list_elem_of_singleton]; [|done]. apply Hq. by exists (priority x), q.
    + rewrite list_lookup_alter_ne // in Hl'. apply Hq. by exists p, q'.
Qed.

Definition standby_machine : kworld HP := on_cpu (set_next (Some 3%nat)) (locked_machine 4).
Lemma standby_env : insert_env standby_machine 4 (th 14 kThreadStateNull 9).
Proof.
  split; [by_eval|by_eval|reflexivity|by_eval|apply runq_check_ok; vm_compute; reflexivity| |].
  - apply not_queued_check. vm_compute. reflexivity.
  - apply timer_check_ok. vm_compute. reflexivity.
Qed.
Lemma sched_insert_forgets_standby_witness :
  wp (sched_insert clock (irql_lower clock stay mark 3) 2 4)
    (λ _ w', thread_next (kcpu w') = Some 4%nat ∧ queued (ksched w') 4 ∧ ¬ queued (ksched w') 3) standby_machine.
Proof.
  eapply wp_mono; [apply (sched_insert_forgets_standby clock stay mark 2 0 4 (th 14 kThreadStateNull 9) 3
                            (th 13 kThreadStateNull 7) standby_machine)|].
  - exact standby_env.
  - reflexivity.
  - reflexivity.
  - lia.
  - vm_compute. lia.
  - apply not_queued_check. vm_compute. reflexivity.
  - intros r w' (H1 & H2 & H3 & _). split_and!; [exact H1|exact H2|exact H3].
Defined.

(** [check_timer] runs the preemption timer, with the thread's time slice, exactly
    when some thread of at least that thread's priority is on a run queue; otherwise
    the timer is cancelled. *)
Theorem preemption_timer_runs_iff_contended {H} `{TimerHeap H, !TimerHeapLaws H} hw_clock resume client k t x (w : kworld H) :
  timer_ready w (preemption_timer (ksched w)) → threads w !! t = Some x → runq_ok (ksched w) (threads w) →
  wp (check_timer hw_clock (irql_lower hw_clock resume client (S k)) t)
    (λ _ w', timers_ok w' ∧ timer_frame w w' ∧ ∃ tm, timers w' !! preemption_timer (ksched w) = Some tm ∧
      (¬ empty_from (ksched w) (priority x) ∧
         (∃ i, tm = Timer (Some (preemption_dpc (ksched w)))
                  (wrap64 (hw_clock i + MS2NS (timeslice x))) kTimerQueued true) ∨
       empty_from (ksched w) (priority x) ∧
         timer_state tm = kTimerCanceled ∧ engine tm = false)) w.
Proof.
  intros R Hx Rq.
  eapply wp_mono; [apply (check_timer_spec _ (irql_lower_calm hw_clock resume client k) hw_clock w t x); done|].
  intros [] w' (R' & F & tm & Htm & Hcase). split_and!; [by destruct R'|done|]. exists tm. split; [done|].
  pose proof (mask_shift _ _ (priority x) Rq). case_decide as Hm; [right|left]; naive_solver.
Qed.

Lemma preemption_timer_runs_iff_contended_witness :
  wp (check_timer clock (irql_lower clock stay mark 3) 1) (λ _ w', timers_ok w') ready_machine.
Proof.
  eapply wp_mono; [apply (preemption_timer_runs_iff_contended clock stay mark 2 1 (th 11 kThreadStateRunning 5) ready_machine)|].
  - apply timer_check_ok. vm_compute. reflexivity.
  - reflexivity.
  - apply runq_check_ok. vm_compute. reflexivity.
  - intros r w' (H1 & _). exact H1.
Defined.

(** C3: [sched_preempt]: the running thread goes, ready, to the tail of the run queue of
    its priority, the standby thread becomes current and the CPU switches to it with no
    lock taken or lost.  [Q] is whatever the switched-out thread finds when it runs
    again: it is established as soon as it holds after [resume] from every world that
    the switch can leave behind. *)
Theorem sched_preempt_switches {H} `{TimerHeap H, !TimerHeapLaws H} hw_clock client k resume cur new x y (w : kworld H)
    (Q : unit → kworld H → Prop) :
  thread_current (kcpu w) = Some cur → thread_next (kcpu w) = Some new → cur ≠ new →
  cur ≠ idle_thread (kcpu w) → sched_lock ∉ locks w → thread_lock cur ∉ locks w →
  threads w !! cur = Some x → (priority x < PRIORITY_COUNT)%nat → thread_ready w new y →
  runq_ok (ksched w) (threads w) → ¬ queued (ksched w) cur →
  timer_ready w (preemption_timer (ksched w)) →
  (∀ w', thread_current (kcpu w') = Some new → thread_next (kcpu w') = None →
     switches w' = (cur, new) :: switches w → locks w' = locks w →
     ksched w' = pushed (ksched w) (priority x) cur →
     threads w' = <[cur := set_state kThreadStateReady x]> (threads w) →
     runq_ok (ksched w') (threads w') → wp (resume cur) Q w') →
  wp (sched_preempt hw_clock (irql_lower hw_clock resume client (S k)) resume) Q w.
Proof. apply (sched_preempt_spec _ (irql_lower_calm hw_clock resume client k)). Qed.

Definition preempt_machine : kworld HP := on_cpu (set_next (Some 3%nat)) machine.
Lemma thread_ready_check w t x : threads w !! t = Some x →
  bool_decide (is_Some (timers w !! wait_timer x) ∧ is_Some (objs w !! wait_timer x) ∧
               object_lock (wait_timer x) ∉ locks w) = true → thread_ready (H := HP) w t x.
Proof. rewrite bool_decide_eq_true. intros Hx (? & ? & ?). by split. Qed.

Lemma sched_preempt_switches_witness :
  wp (sched_preempt clock (irql_lower clock stay mark 3) stay)
    (λ _ w', thread_current (kcpu w') = Some 3%nat ∧ run_queues (ksched w') !! 5%nat = Some [1%nat]) preempt_machine.
Proof.
  apply (sched_preempt_switches clock mark 2 stay 1 3 (th 11 kThreadStateRunning 5) (th 13 kThreadStateNull 7)).
  - reflexivity.
  - reflexivity.
  - lia.
  - vm_compute. lia.
  - by_eval.
  - by_eval.
  - reflexivity.
  - vm_compute. lia.
  - apply thread_ready_check; vm_compute; reflexivity.
  - apply runq_check_ok. vm_compute. reflexivity.
  - apply not_queued_check. vm_compute. reflexivity.
  - apply timer_check_ok. vm_compute. reflexivity.
  - intros w' H1 _ _ _ H2 _ _. apply wp_ret. split; [exact H1|]. rewrite H2. reflexivity.
Defined.

(** C12: [sched_yield] switches to the head of the highest non-empty run queue, or to the
    idle thread when no thread is ready, and takes it off its queue; the run queues and
    their mask stay consistent. *)
Theorem sched_yield_runs_highest {H} `{TimerHeap H, !TimerHeapLaws H} hw_clock client k resume cur (w : kworld H)
    (Q : unit → kworld H → Prop) :
  thread_current (kcpu w) = Some cur → thread_lock cur ∈ locks w → sched_lock ∉ locks w →
  runq_ok (ksched w) (threads w) → timer_ready w (preemption_timer (ksched w)) →
  (∀ t, t = idle_thread (kcpu w) ∨ queued (ksched w) t → ∃ x, thread_ready w t x) →
  (∀ w' new, switched (k_sched (ksched w') w) w' cur new →
     (new = idle_thread (kcpu w) ∧ ksched w' = ksched w ∧ ∀ t, ¬ queued (ksched w) t) ∨
     (∃ p q, run_queues (ksched w) !! p = Some (new :: q) ∧ ksched w' = popped (ksched w) p q ∧
        ∀ p' q', (p < p')%nat → run_queues (ksched w) !! p' = Some q' → q' = []) →
     runq_ok (ksched w') (threads w') → wp (resume cur) Q w') →
  wp (sched_yield (irql_lower hw_clock resume client (S k)) resume) Q w.
Proof. intros. by eapply (sched_yield_spec _ (irql_lower_calm hw_clock resume client k)). Qed.

Definition yield_machine : kworld HP := with_locks [thread_lock 1] ready_machine.
Lemma yield_threads t : t = idle_thread (kcpu yield_machine) ∨ queued (ksched yield_machine) t →
  ∃ x, thread_ready yield_machine t x.
Proof.
  intros Ht. assert (t = 0 ∨ t = 2 ∨ t = 3)%nat as Hc.
  { destruct Ht as [->|(p & q & Hp & Hin)]; [by left|]. right.
    assert (Forall (λ q, Forall (λ t, t = 2 ∨ t = 3)%nat q) (run_queues (ksched yield_machine))) as Hf by by_eval.
    rewrite Forall_forall in Hf. specialize (Hf q (list_elem_of_lookup_2 _ _ _ Hp)).
    rewrite Forall_forall in Hf. by apply Hf. }
  destruct Hc as [->|[->| ->]]; eexists; apply thread_ready_check; vm_compute; reflexivity.
Qed.

Lemma sched_yield_runs_highest_witness :
  wp (sched_yield (irql_lower clock stay mark 3) stay)
    (λ _ w', runq_ok (ksched w') (threads w')) yield_machine.
Proof.
  apply (sched_yield_runs_highest clock mark 2 stay 1).
  - reflexivity.
  - by_eval.
  - by_eval.
  - apply runq_check_ok. vm_compute. reflexivity.
  - apply timer_check_ok. vm_compute. reflexivity.
  - exact yield_threads.
  - intros w' new _ _ H1. apply wp_ret. exact H1.
Defined.

(** ** Dispatcher objects *)

(** C28: An event nobody waits on is a flag.  Any sequence of [event_signal],
    [event_reset] and satisfiable [sched_wait_single] calls returns what the flag
    machine returns (the previous state, or success for a wait) and leaves the event in
    the flag machine's state; a wait clears the flag unless the event is a notification.
    The CPU, the locks, the scheduler, the mutexes and the timers are unchanged. *)
Theorem events_are_flags {H} `{TimerHeap H} hw_clock resume client k e notif s l (w : kworld H) :
  event_rel w e notif s → events_pre notif s l →
  wp (run_events hw_clock (irql_lower hw_clock resume client (S k)) resume e l)
    (λ rs w', rs = (events_abs notif s l).2 ∧ event_rel w' e notif (events_abs notif s l).1 ∧ event_frame w w') w.
Proof. apply (events_refine hw_clock _ resume (irql_lower_idle hw_clock resume client k)). Qed.

Lemma event_machine_ok e s : objs machine !! e = Some (ob kObjTypeEvent (flag s)) → event_rel machine e false s.
Proof.
  intros Ho. split; [rewrite Ho; by do 2 eexists|intros ?%elem_of_empty; done|vm_compute; split; congruence|reflexivity|].
  exists 1%nat, (th 11 kThreadStateRunning 5). split; reflexivity.
Qed.

Lemma events_are_flags_witness :
  wp (run_events clock (irql_lower clock stay mark 3) stay 40 [OpSignal; OpSignal; OpWait 50; OpReset])
    (λ rs w', rs = [0; 1; STATUS_OK; 0]) machine.
Proof.
  eapply wp_mono; [apply (events_are_flags clock stay mark 2 40 false false [OpSignal; OpSignal; OpWait 50; OpReset])|].
  - apply event_machine_ok. reflexivity.
  - by split_and!.
  - intros rs w' (H1 & _). exact H1.
Defined.

(** Taking a free mutex makes the running thread its owner, and the owner's release
    makes it free again with its event set: the event is set exactly when the mutex has
    no owner.  Neither changes the CPU's data or the locks. *)
Theorem mutex_acquire_release {H} `{TimerHeap H} hw_clock resume client k fuel wb m t timeout (w : kworld H) :
  mutex_rel w m None → thread_current (kcpu w) = Some t →
  let lower := irql_lower hw_clock resume client (S k) in
  wp (mutex_acquire lower resume (S fuel) wb m timeout)
    (λ r w1, r = STATUS_OK ∧ mutex_rel w1 m (Some t) ∧ kcpu w1 = kcpu w ∧ locks w1 = locks w ∧
       wp (mutex_release hw_clock lower m)
         (λ _ w2, mutex_rel w2 m None ∧ kcpu w2 = kcpu w ∧ locks w2 = locks w) w1) w.
Proof.
  intros Hm Ht lower. pose proof (irql_lower_idle hw_clock resume client k) as Hl. fold lower in Hl.
  eapply wp_mono; [by eapply mutex_acquire_free|]. intros r w1 (-> & Hm1 & Ek & El). split_and!; [done..|].
  eapply wp_mono; [eapply (mutex_release_held hw_clock _ resume Hl); [done|by rewrite Ek]|].
  intros [] w2 (Hm2 & Ek2 & El2). split_and!; [done|by rewrite Ek2|by rewrite El2].
Qed.

Lemma mutex_acquire_release_witness :
  wp (mutex_acquire (irql_lower clock stay mark 3) stay 1 50 42 (-1))
    (λ r w', r = STATUS_OK ∧ mutex_rel w' 42 (Some 1%nat)) machine.
Proof.
  eapply wp_mono; [apply (mutex_acquire_release clock stay mark 2 0 50 42 1 (-1) machine)|].
  - exists 41%nat. split; [reflexivity|]. apply event_machine_ok. reflexivity.
  - reflexivity.
  - intros r w' (H1 & H2 & _). split; [exact H1|exact H2].
Defined.

(** C32: Signalling an event that a thread waits on never returns: [obj_satisfy] calls
    [sched_unwait], which prints the name of the thread and so reads through a null pointer
    if the thread has none; if it has one, [sched_resume] then takes the thread's lock,
    which [obj_satisfy] holds, and spins until the lock's own check stops the kernel. *)
Theorem event_signal_waiter_deadlocks {H} `{TimerHeap H} hw_clock lower e n op ty k wb l t x (w : kworld H) :
  objs w !! e = Some (ObjHeader n op ty 0 k (wb :: l)) → k ≠ 0 →
  blocked w t x wb e → irql (kcpu w) ≤ IRQL_DISPATCH →
  object_lock e ∉ locks w → thread_lock t ∉ locks w → sched_lock ∉ locks w →
  event_signal hw_clock lower e w =
    Panic (match thread_name x with None => NullDeref "cbuf" | Some _ => Deadlock "deadlock?" end).
Proof. apply event_signal_waiter_stops. Qed.

(** Thread 2 blocked on event 40 with wait block 50. *)
Definition sleeper (name : option string) : thread :=
  Thread 12 1 STATUS_WAITING (Some 50%nat) 0 30 kThreadStateWaiting 5 None name.
Definition blocked_machine (name : option string) : kworld HP :=
  k_wblocks {[50%nat := WaitBlock 0 40 2]}
    (k_objs (<[40%nat := ObjHeader 1 None kObjTypeEvent 0 1 [50%nat]]> (objs machine))
      (k_threads (<[2%nat := sleeper name]> (threads machine))
         machine)).
Lemma blocked_machine_ok name : blocked (blocked_machine name) 2 (sleeper name) 50 40.
Proof. split; [split_and!; reflexivity|reflexivity]. Qed.

Lemma event_signal_waiter_deadlocks_witness :
  event_signal clock (irql_lower clock stay mark 3) 40 (blocked_machine None) = Panic (NullDeref "cbuf") ∧
  event_signal clock (irql_lower clock stay mark 3) 40 (blocked_machine (Some "Particle"%string)) = Panic (Deadlock "deadlock?").
Proof.
  split.
  - apply (event_signal_waiter_deadlocks clock _ 40 1 None kObjTypeEvent 1 50 [] 2 (sleeper None));
      [reflexivity|lia|apply blocked_machine_ok|vm_compute; congruence|by_eval..].
  - apply (event_signal_waiter_deadlocks clock _ 40 1 None kObjTypeEvent 1 50 [] 2 (sleeper (Some "Particle"%string)));
      [reflexivity|lia|apply blocked_machine_ok|vm_compute; congruence|by_eval..].
Defined.

(** The expiry of a wait's time-out never returns: the name of the thread is read, and
    [wait_timer_exp] holds [sched_lock] and the thread's lock when [sched_resume] takes
    both. *)
Theorem wait_timeout_deadlocks {H} `{TimerHeap H} hw_clock lower t x wb hdr (w : kworld H) :
  blocked w t x wb hdr → irql (kcpu w) ≤ IRQL_DISPATCH →
  thread_lock t ∉ locks w → sched_lock ∉ locks w →
  wait_timer_exp hw_clock lower (Some t) w =
    Panic (match thread_name x with None => NullDeref "cbuf" | Some _ => Deadlock "deadlock?" end).
Proof. apply wait_timer_exp_stops. Qed.

Lemma wait_timeout_deadlocks_witness :
  wait_timer_exp clock (irql_lower clock stay mark 3) (Some 2%nat) (blocked_machine (Some "Particle"%string)) = Panic (Deadlock "deadlock?").
Proof.
  apply (wait_timeout_deadlocks clock _ 2 (sleeper (Some "Particle"%string)) 50 40).
  - apply blocked_machine_ok.
  - vm_compute. congruence.
  - by_eval.
  - by_eval.
Defined.
