(* ===== verification/Main.v ===== *)
(** * Threads: [kernel/main.c], [kernel/tests/mutextst.c], the threads of
      [kernel/tests/fireworks.c], [kernel/platform/amd64/sched.S]

    Where a thread begins, the functions threads run, and how [kmain] becomes the idle
    thread and starts the first real one.  A switch to a thread that has not run yet goes
    to [thread_trampoline]; a switch to one that has is the parameter [others], as
    [resume] is for the scheduler. *)

From S2P Require Import Prelude Queue Core Dpc Timer Sched Dispatch SoftInt.

Definition kPriorityMiddle : nat := 5.
Definition kPriorityHigh : nat := 10.
Definition kPriorityHighMax : nat := 15.

(** Objects on the stacks of the functions below, what [kmem_cache_alloc] returned for
    the threads that are spawned, and the stacks [vm_kalloc] gave them. *)
Record objects := Objects {
  kmain_thread : nat;
  main_timer : nat;
  main_timer2 : nat;
  delay_timer : nat;
  main_wb : nat;
  spawned : list (option nat);
  test_mutex : nat;
  test_event : nat;
  test_thread : nat;
  test_timer : nat;
  test_wb : nat;
  test_wb2 : nat;
  kstack : nat → option Z;
}.

(** The steps of [kmain_threaded] in components that keep their own state, what arrives
    until a processor that waits for an interrupt goes on, and the configuration. *)
Record steps (K : Type) := Steps {
  port_wait_nextint : M K unit;
  step_kmem_init : M K unit;
  step_sched_kmem_init : M K unit;
  step_post_kmem : M K unit;
  step_irq_init : M K unit;
  step_timer_cache : M K unit;
  step_acpi_init : M K unit;
  step_post_acpi : M K unit;
  step_start_cores : M K unit;
  step_devkit_init : M K unit;
  step_fireworks_init : M K unit;
  CONFIG_SMP : bool;
  TEST_MODE : bool;
}.
Arguments Steps {K}.
Arguments port_wait_nextint {K}.
Arguments step_kmem_init {K}.
Arguments step_sched_kmem_init {K}.
Arguments step_post_kmem {K}.
Arguments step_irq_init {K}.
Arguments step_timer_cache {K}.
Arguments step_acpi_init {K}.
Arguments step_post_acpi {K}.
Arguments step_start_cores {K}.
Arguments step_devkit_init {K}.
Arguments step_fireworks_init {K}.
Arguments CONFIG_SMP {K}.
Arguments TEST_MODE {K}.

Section main.
Context {H : Type} `{TimerHeap H}.
Notation K := (kworld H).
Context (hw_clock : nat → Z).
Context (ob : objects).
Context (sp : steps K) (fuel : nat).

Section functions.
Context (lower : Z → M K unit) (resume : nat → M K unit).

(** A thread that waits for interrupts for ever. *)
Fixpoint wait_forever (fuel : nat) : M K unit :=
  match fuel with
  | O => fail OutOfFuel
  | S fuel => port_wait_nextint sp;; wait_forever fuel
  end.
(** What would follow [sched_jump_into_idle_thread] in [kmain] if it returned. *)
Fixpoint spin (fuel : nat) : M K unit :=
  match fuel with
  | O => fail OutOfFuel
  | S fuel => port_enable_ints;; port_wait_nextint sp;; spin fuel
  end.
Definition core_spinup : M K unit := lower IRQL_PASSIVE;; spin fuel.
Definition idle_thread_fn : M K unit :=
  on ← gets (λ w, ints (kcpu w));
  assertM on "port_int_state() != 0";;
  wait_forever fuel.
Definition printsmth : M K unit := wait_forever fuel;; sched_exit_destroy lower resume.

Definition kickstart_kmain : M K unit :=
  sched_init_thread (kstack ob (kmain_thread ob)) (kmain_thread ob) kmain_threaded_fn kPriorityHigh None None;;
  sched_resume hw_clock lower (kmain_thread ob);;
  idle_thread_fn.

Definition sched_alloc_thread (thread : option nat) : M K nat :=
  assertM (bool_decide (is_Some thread)) "thread";;
  deref "thread" thread.
(** [SPAWN(s)], and [SpawnParticle] and [SpawnExplodeable], which also name the thread. *)
Definition SPAWN (thread : option nat) (ip : start_fn) (context1 : option nat) (name : option string) : M K unit :=
  t ← sched_alloc_thread thread;
  sched_init_thread (kstack ob t) t ip kPriorityMiddle context1 None;;
  whenM (bool_decide (is_Some name)) (upd Threads t (set_name name));;
  sched_resume hw_clock lower t.
(** The main thread of the fireworks: one more every tenth of a second. *)
Fixpoint spawn_loop (threads : list (option nat)) : M K unit :=
  match threads with
  | [] => fail OutOfFuel
  | t :: threads =>
      SPAWN t T_Explodeable_fn None (Some "Explodeable"%string);;
      sched_sleep hw_clock lower resume (delay_timer ob) (main_wb ob) (MS2NS 100);;
      spawn_loop threads
  end.
Definition PerformFireworksTest (threads : list (option nat)) : M K unit :=
  step_fireworks_init sp;;
  timer_init (main_timer2 ob);;
  cur ← curthread;
  cur ← deref "curthread" cur;
  upd Threads cur (set_name (Some "Fireworks"%string));;
  spawn_loop threads.
Definition nth_spawned (i : nat) : option nat := default None (spawned ob !! i).

(** *** The mutex test *)
Definition t_mutex (mtx : option nat) : M K unit :=
  mtx ← deref "mtx" mtx;
  timer_init (test_timer ob);;
  sched_wait_single lower resume (test_wb ob) mtx 100;;
  timer_set_in hw_clock lower (test_timer ob) (MS2NS 500) None;;
  timer_install lower (test_timer ob) None None;;
  sched_wait_single lower resume (test_wb ob) (test_timer ob) (-1);;
  mutex_release hw_clock lower mtx;;
  sched_exit_destroy lower resume.
Definition mutex_test : M K unit :=
  mutex_init (test_mutex ob) (test_event ob);;
  sched_init_thread (kstack ob (test_thread ob)) (test_thread ob) t_mutex_fn kPriorityHighMax (Some (test_mutex ob)) None;;
  sched_resume hw_clock lower (test_thread ob);;
  sched_wait_single lower resume (test_wb2 ob) (test_mutex ob) 5000;;
  mret tt.

Definition kmain_threaded : M K unit :=
  step_kmem_init sp;;
  step_sched_kmem_init sp;;
  step_post_kmem sp;;
  step_irq_init sp;;
  time_init (step_timer_cache sp);;
  step_acpi_init sp;;
  step_post_acpi sp;;
  whenM (CONFIG_SMP sp) (step_start_cores sp);;
  step_devkit_init sp;;
  whenM (TEST_MODE sp) mutex_test;;
  timer_init (main_timer ob);;
  timer_set_in hw_clock lower (main_timer ob) (MS2NS 500) None;;
  timer_install lower (main_timer ob) None None;;
  SPAWN (nth_spawned 0) printsmth_fn None None;;
  SPAWN (nth_spawned 1) printsmth_fn None None;;
  sched_wait_single lower resume (main_wb ob) (main_timer ob) 5000;;
  SPAWN (nth_spawned 2) printsmth_fn None None;;
  SPAWN (nth_spawned 3) printsmth_fn None None;;
  SPAWN (nth_spawned 4) printsmth_fn None None;;
  PerformFireworksTest (drop 5 (spawned ob));;
  sched_exit_destroy lower resume.

(** The function in [r12] with the arguments in [r13] and [r14]. *)
Definition start_call (client : start_fn → option nat → option nat → M K unit) (f : start_fn) (c1 c2 : option nat) : M K unit :=
  match f with
  | kickstart_kmain_fn => kickstart_kmain
  | idle_thread_fn_fn => idle_thread_fn
  | kmain_threaded_fn => kmain_threaded
  | printsmth_fn => printsmth
  | t_mutex_fn => t_mutex c1
  | f => client f c1 c2
  end.

(** [thread_trampoline]; the registers [r12] to [r14] hold what the context did. *)
Definition TRAMPOLINE_RETURNED := AssertFail "TRAMPOLINE RETURNED".
Definition thread_trampoline (client : start_fn → option nat → option nat → M K unit) (t : nat) : M K unit :=
  x ← ld Threads t;
  lower IRQL_PASSIVE;;
  port_enable_ints;;
  c ← deref "startfn" (start x);
  start_call client c.1.1 c.1.2 c.2;;
  fail TRAMPOLINE_RETURNED.
End functions.

(** ** Switching to threads

    [run n t] is thread [t] from its first instruction; [n] bounds how many threads begin
    inside one another.  [others old] is what happens until [old] runs again when the
    switch goes to a thread that has run before. *)
Context (dpc_client : nat → nat → option nat → option nat → M K unit).
Context (start_client : start_fn → option nat → option nat → M K unit).
Context (others : nat → M K unit).

Definition switch_to (run : nat → M K unit) (old : nat) : M K unit :=
  w ← get;
  match switches w with
  | (_, new) :: past =>
      if decide (new = idle_thread (kcpu w) ∨ new ∈ snd <$> past) then others old else run new
  | [] => others old
  end.
Fixpoint run (n : nat) (t : nat) : M K unit :=
  match n with
  | O => fail OutOfFuel
  | S n =>
      let resume := switch_to (run n) in
      thread_trampoline (irql_lower hw_clock resume dpc_client fuel) resume start_client t
  end.
(** The scheduler's parameters for a thread that runs inside [n] others. *)
Definition resume_at (n : nat) : nat → M K unit := switch_to (run n).
Definition lower_at (n : nat) : Z → M K unit := irql_lower hw_clock (resume_at n) dpc_client fuel.

(** The end of [kmain]. *)
Definition kmain_start (n : nat) : M K unit :=
  c ← gets kcpu;
  sched_init_thread (kstack ob (idle_thread c)) (idle_thread c) kickstart_kmain_fn 0 None None;;
  sched_jump_into_idle_thread;;
  run n (idle_thread c).
(** The end of [port_smp_entry] on another core. *)
Definition smp_start (n : nat) : M K unit :=
  c ← gets kcpu;
  sched_init_thread (kstack ob (idle_thread c)) (idle_thread c) idle_thread_fn_fn 0 None None;;
  sched_jump_into_idle_thread;;
  run n (idle_thread c).

(** ** Control that does not come back

    [enters m body P w]: [m], started in [w], comes to [body] in a world that satisfies
    [P], and nothing follows [body] but the panic of the trampoline. *)
Definition enters {A} (m : M K A) (body : M K unit) (P : K → Prop) (w : K) : Prop :=
  ∃ w', P w' ∧ m w = (body;; fail TRAMPOLINE_RETURNED) w'.
Lemma enters_bind {A B} (m : M K A) (f : A → M K B) body P w :
  wp m (λ a w', enters (f a) body P w') w → enters (m ≫= f) body P w.
Proof. intros (a & w1 & E & w' & HP & Ef)%wp_ok. exists w'. split; [done|]. by rewrite (bind_ok _ _ _ _ _ E). Qed.
Lemma enters_last {A B} (m : M K A) (f : A → M K B) body P w : enters m body P w → enters (m ≫= f) body P w.
Proof.
  intros (w' & HP & E). exists w'. split; [done|]. unfold mbind, M_bind in *. rewrite E.
  by destruct (body w') as [[] |].
Qed.
Lemma enters_trans {A} (m : M K A) body1 P1 body P w : enters m body1 P1 w → (∀ w1, P1 w1 → enters body1 body P w1) → enters m body P w.
Proof.
  intros (w1 & H1 & E1) Hb. destruct (enters_last body1 (λ _, fail (A := A) TRAMPOLINE_RETURNED) body P w1 (Hb w1 H1)) as (w' & HP & E).
  exists w'. split; [done|]. by rewrite E1.
Qed.
Lemma enters_body body (P : K → Prop) w : P w → enters (body;; fail TRAMPOLINE_RETURNED : M K unit) body P w.
Proof. intros HP. by exists w. Qed.

(** ** The first thread *)
(** The CPU as it is when [kmain] has set it up: nothing held, queued or pending. *)
Record quiet_cpu (w : K) : Prop := {
  qc_locks : locks w = ∅;
  qc_level : irql (kcpu w) = IRQL_PASSIVE;
  qc_pending : softint_pending (kcpu w) = 0;
  qc_dpcs : dpcq (kcpu w) = [];
  qc_next : thread_next (kcpu w) = None;
}.
(** The world in which the first instruction of a new thread's function runs. *)
Record started (t old : nat) (x : thread) (w w' : K) : Prop := {
  sd_quiet : quiet_cpu w';
  sd_ints : ints (kcpu w') = true;
  sd_current : thread_current (kcpu w') = Some t;
  sd_thread : threads w' !! t = Some x;
  sd_sched : ksched w' = ksched w;
  sd_switches : switches w' = (old, t) :: switches w;
}.

Context (Hfuel : (1 < fuel)%nat).
Lemma lower_at_idle n : lower_idle (lower_at n).
Proof. unfold lower_at. destruct fuel as [|fu]; [lia|]. apply irql_lower_idle. Qed.
Lemma trampoline_enters n t x f c1 c2 (P : K → Prop) w : threads w !! t = Some x → start x = Some (f, c1, c2) →
  0 ≤ irql (kcpu w) → softint_pending (kcpu w) = 0 →
  P (k_cpu (set_ints true (set_irql IRQL_PASSIVE (kcpu w))) w) →
  enters (run (S n) t) (start_call (lower_at n) (resume_at n) start_client f c1 c2) P w.
Proof.
  intros Hx Hs Hi Hp HP. cbn [run]. unfold thread_trampoline. fold (resume_at n). fold (lower_at n).
  apply enters_bind. k_step. apply enters_bind. rewrite /wp lower_at_idle //. apply enters_bind. unfold port_enable_ints. k_step.
  apply enters_bind. eapply wp_deref_i; [done|]. by apply enters_body.
Qed.

(** A switch to a thread that never ran. *)
Lemma switch_enters lo n old t x f c1 c2 (P : K → Prop) w : lower_idle lo → threads w !! t = Some x → start x = Some (f, c1, c2) →
  (∃ y, timers w !! wait_timer x = Some y ∧ engine y = false) → object_lock (wait_timer x) ∉ locks w →
  irql (kcpu w) = IRQL_DISPATCH → softint_pending (kcpu w) = 0 → t ≠ idle_thread (kcpu w) → t ∉ snd <$> switches w →
  (∀ w', threads w' = threads w → ksched w' = ksched w → objs w' = objs w → mutexes w' = mutexes w → locks w' = locks w ∖ {[thread_lock old]} →
     switches w' = (old, t) :: switches w → kcpu w' = set_ints true (set_irql IRQL_PASSIVE (set_current (Some t) (kcpu w))) → P w') →
  enters (sched_switch_thread lo (resume_at (S n)) old t) (start_call (lower_at n) (resume_at n) start_client f c1 c2) P w.
Proof.
  intros Hlo Hx Hs (y & Hy & He) Hl Hi Hp Hid Hnew HP. unfold sched_switch_thread. apply enters_bind. k_step. apply enters_bind. k_step.
  apply enters_bind. unfold timer_uninstall. repeat k_step. rewrite He. repeat k_step.
  apply wp_acquire_raise; [k_simpl; by rewrite Hi|done|]. unfold spinlock_release_lower. repeat k_step.
  rewrite /wp Hlo //; [k_simpl; rewrite Hi; done|]. unfold sched_port_switch. apply enters_bind. k_step. apply enters_bind. k_step.
  unfold resume_at at 1, switch_to. apply enters_bind. k_step. rewrite decide_False; [intros [?|?]; done|].
  eapply (trampoline_enters n t x f c1 c2); k_simpl; [done|done|by rewrite Hi|done|].
  apply HP; k_simpl; try done.
  all: first [by rewrite Hi|clear -Hl; set_solver].
Qed.
(** Lowering the level with a thread on standby and no deferred calls comes to the switch. *)
Definition dispatching (w : K) : K := k_cpu (set_ints true (set_irql IRQL_DISPATCH (set_pending 0 (kcpu w)))) w.
Lemma lower_preempts resume fu body (P : K → Prop) w : locks w = ∅ → irql (kcpu w) = IRQL_DISPATCH → softint_pending (kcpu w) = 2 →
  dpcq (kcpu w) = [] → is_Some (thread_next (kcpu w)) →
  enters (sched_preempt hw_clock (irql_lower hw_clock resume dpc_client (S fu)) resume) body P (dispatching w) →
  enters (irql_lower hw_clock resume dpc_client (S (S fu)) IRQL_PASSIVE) body P w.
Proof.
  intros Hl Hi Hp Hd Hn HP. change (irql_lower hw_clock resume dpc_client (S (S fu)) IRQL_PASSIVE) with
    (irql_lower_body hw_clock resume dpc_client (irql_lower hw_clock resume dpc_client (S fu)) (S (S fu)) IRQL_PASSIVE).
  unfold irql_lower_body. apply enters_bind. k_step. apply enters_bind. apply wp_assert_i; [by rewrite Hi|]. apply enters_bind. k_step.
  apply enters_bind. k_step. rewrite Hp.
  destruct (decide (Z.shiftr 2 IRQL_PASSIVE ≠ 0)) as [_|[]]; [|done]. unfold softint_dispatch. apply enters_bind. repeat k_step.
  apply enters_last. cbn [softint_loop]. apply enters_bind. k_step. rewrite Hp bool_decide_true //.
  destruct (decide (Z.land 2 (Z.shiftl 0xff IRQL_PASSIVE) ≠ 0)) as [_|[]]; [|done]. cbn [whenM].
  apply enters_last. unfold dpc_interrupt, port_enable_ints. apply enters_bind. repeat k_step. apply enters_bind. repeat k_step.
  apply enters_bind. repeat k_step. apply enters_bind. cbn [dpc_run_queue]. k_step. apply wp_dpc_take_none; [done|k_simpl; rewrite Hl; set_solver|].
  k_step. apply enters_bind. k_step. rewrite bool_decide_true //. cbn [whenM]. apply enters_last.
  rewrite Hp. exact HP.
Qed.

(** [sched_resume] of a thread of higher priority, called by the idle thread. *)
Lemma resume_enters n t x y f c1 c2 (P : K → Prop) w : let idle := idle_thread (kcpu w) in
  quiet_cpu w → thread_current (kcpu w) = Some idle → threads w !! idle = Some y → threads w !! t = Some x →
  start x = Some (f, c1, c2) → state x ≠ kThreadStateReady → (priority y < priority x)%nat →
  (∃ z, timers w !! wait_timer x = Some z ∧ engine z = false) → t ≠ idle → t ∉ snd <$> switches w →
  (∀ w', started t idle (set_last_processor (cpu_id (kcpu w)) (set_state kThreadStateStandby x)) w w' → P w') →
  enters (sched_resume hw_clock (lower_at (S n)) t) (start_call (lower_at n) (resume_at n) start_client f c1 c2) P w.
Proof.
  intros idle [Ql Qi Qp Qd Qn] Hc Hy Hx Hs Hst Hpr Htm Hid Hnew HP. unfold sched_resume. apply enters_bind. k_step. rewrite decide_False //.
  apply enters_bind. apply wp_acquire_raise; [rewrite Qi; done|rewrite Ql; set_solver|]. apply enters_bind.
  apply wp_acquire; [k_simpl; rewrite Ql; set_solver|]. k_simpl.
  apply enters_bind. cbn [sched_insert]. repeat k_step. apply wp_assert_i; [apply bool_decide_eq_true; set_solver|]. repeat k_step.
  apply wp_assert_i; [apply bool_decide_eq_true; set_solver|]. repeat k_step.
  apply wp_assert_i; [done|]. repeat k_step. rewrite Qn. eapply wp_deref_i; [exact Hc|].
  repeat k_step.
  destruct (decide _) as [Hle|_]; [cbn in Hle; lia|]. repeat k_step. rewrite Qp.
  do 3 (apply enters_bind; k_step). unfold spinlock_release_lower. apply enters_bind. k_step. rewrite Qi.
  assert (∃ fu, fuel = S (S fu)) as [fu Efu] by (exists (fuel - 2)%nat; lia).
  assert (lower_at (S n) IRQL_PASSIVE = irql_lower hw_clock (resume_at (S n)) dpc_client (S (S fu)) IRQL_PASSIVE) as -> by by rewrite -Efu.
  apply lower_preempts; k_simpl; [rewrite Ql; set_solver|done|done|done|done|].
  unfold sched_preempt, dispatching. apply enters_bind. apply wp_acquire; [k_simpl; rewrite Ql; set_solver|].
  apply enters_bind. k_step. apply enters_bind. k_step. apply enters_bind. k_step. apply enters_bind. rewrite Hc. eapply wp_deref_i; [done|].
  apply enters_bind. apply wp_acquire; [k_simpl; rewrite Ql; set_solver|]. apply enters_bind. fold idle.
  rewrite bool_decide_false; [tauto|]. cbn [whenM]. k_step. apply enters_bind. eapply wp_deref_i; [done|].
  eapply (switch_enters _ n idle t); k_simpl; [apply irql_lower_idle|by rewrite lookup_insert_eq|exact Hs|exact Htm|rewrite Ql; set_solver|done|done|done|done|].
  k_simpl. intros w' E1 E2 E3 E4 E5 E6 E7. apply HP. split; rewrite ?E7; [split; rewrite ?E7| | | | |]; try done.
  - rewrite E5 Ql. set_solver.
  - rewrite E1. k_simpl. by rewrite lookup_insert_eq.
Qed.

(** A thread as [sched_init_thread] leaves it. *)
Definition new_thread (wt : nat) (id : Z) (ip : start_fn) (prio : nat) (c1 c2 : option nat) : thread :=
  Thread wt (-1) (-1) None id 30 kThreadStateNull prio (Some (ip, c1, c2)) None.
Lemma wp_init_thread base t ip prio c1 c2 x (Q : unit → K → Prop) w : threads w !! t = Some x → is_Some base → locks w = ∅ →
  (∀ w', kcpu w' = kcpu w → ksched w' = ksched w → locks w' = ∅ → switches w' = switches w →
     threads w' = <[t := new_thread (wait_timer x) (cpu_id (kcpu w)) ip prio c1 c2]> (threads w) →
     timers w' = <[wait_timer x := Timer None 0 kTimerUnused false]> (timers w) → Q tt w') →
  wp (sched_init_thread base t ip prio c1 c2) Q w.
Proof.
  intros Hx Hb Hl HQ. unfold sched_init_thread. repeat k_step. apply wp_assert_i; [by apply bool_decide_eq_true|]. repeat k_step.
  unfold SPINLOCK_INIT. k_step. apply HQ; try done. k_simpl. rewrite Hl. set_solver.
Qed.

Lemma kmain_start_spec n w y x : let idle := idle_thread (kcpu w) in let t := kmain_thread ob in
  quiet_cpu w → threads w !! idle = Some y → threads w !! t = Some x → t ≠ idle → t ∉ snd <$> switches w →
  is_Some (kstack ob idle) → is_Some (kstack ob t) →
  enters (kmain_start (S (S n))) (kmain_threaded (lower_at n) (resume_at n))
    (started t idle (set_state kThreadStateStandby (new_thread (wait_timer x) (cpu_id (kcpu w)) kmain_threaded_fn kPriorityHigh None None)) w) w.
Proof.
  intros idle t [Ql Qi Qp Qd Qn] Hy Hx Hid Hnew B1 B2. unfold kmain_start. apply enters_bind. k_step. apply enters_bind. fold idle.
  apply (wp_init_thread _ _ _ _ _ _ y); [done..|]. intros w1 K1 S1 L1 W1 T1 M1. apply enters_bind. unfold sched_jump_into_idle_thread. k_step. rewrite K1. fold idle.
  eapply enters_trans; [apply (trampoline_enters (S n) idle (new_thread (wait_timer y) (cpu_id (kcpu w)) kickstart_kmain_fn 0 None None) kickstart_kmain_fn None None
    (λ w2, threads w2 = threads w1 ∧ ksched w2 = ksched w ∧ locks w2 = ∅ ∧ switches w2 = switches w ∧
       kcpu w2 = set_ints true (set_irql IRQL_PASSIVE (set_current (Some idle) (kcpu w)))))|]; k_simpl.
  { by rewrite T1 lookup_insert_eq. }
  { done. }
  { by rewrite Qi. }
  { done. }
  { by split_and!. }
  intros w2 (T2 & S2 & L2 & W2 & K2). cbn [start_call]. unfold kickstart_kmain. apply enters_bind. fold t.
  apply (wp_init_thread _ _ _ _ _ _ x); [by rewrite T2 T1 lookup_insert_ne|done|done|]. intros w3 K3 S3 L3 W3 T3 M3. apply enters_last.
  assert (idle_thread (kcpu w3) = idle ∧ cpu_id (kcpu w3) = cpu_id (kcpu w)) as [Ei Ec] by by rewrite K3 K2.
  eapply (resume_enters n t _ _ kmain_threaded_fn None None); rewrite ?Ei ?T3 ?W3 ?W2.
  - split; rewrite ?K3 ?K2; done.
  - by rewrite K3 K2.
  - rewrite lookup_insert_ne // T2 T1. apply lookup_insert_eq.
  - apply lookup_insert_eq.
  - done.
  - done.
  - cbn. unfold kPriorityHigh. lia.
  - rewrite M3. eexists. split; [apply lookup_insert_eq|done].
  - done.
  - done.
  - intros w' [D1 D2 D3 D4 D5 D6]. rewrite Ec K2 in D4. split; try done; [by rewrite D5 S3 S2|by rewrite D6 W3 W2].
Qed.

(** Another core becomes its idle thread. *)
Lemma smp_start_spec n w y : let idle := idle_thread (kcpu w) in
  quiet_cpu w → threads w !! idle = Some y → is_Some (kstack ob idle) →
  enters (smp_start (S n)) idle_thread_fn
    (λ w', quiet_cpu w' ∧ ints (kcpu w') = true ∧ thread_current (kcpu w') = Some idle ∧ ksched w' = ksched w ∧ switches w' = switches w) w.
Proof.
  intros idle [Ql Qi Qp Qd Qn] Hy B1. unfold smp_start. apply enters_bind. k_step. apply enters_bind. fold idle.
  apply (wp_init_thread _ _ _ _ _ _ y); [done..|]. intros w1 K1 S1 L1 W1 T1 M1. apply enters_bind. unfold sched_jump_into_idle_thread. k_step. rewrite K1. fold idle.
  change idle_thread_fn with (start_call (lower_at n) (resume_at n) start_client idle_thread_fn_fn None None).
  apply (trampoline_enters n idle (new_thread (wait_timer y) (cpu_id (kcpu w)) idle_thread_fn_fn 0 None None)); k_simpl.
  - by rewrite T1 lookup_insert_eq.
  - done.
  - by rewrite Qi.
  - done.
  - by split_and!.
Qed.

(** [mutex_init] gives the header the type that [sched_wait_single] refuses. *)
Lemma wait_on_mutex_stops lower resume wb m e timeout w : m ≠ e →
  (mutex_init m e;; sched_wait_single (H := H) lower resume wb m timeout) w = Panic (AssertFail "hdr->type != 123").
Proof.
  intros Hne. apply bind_ends. unfold mutex_init, event_init, obj_init, SPINLOCK_INIT. repeat k_step.
  unfold sched_wait_single. apply bind_ends. k_step. apply bind_ends. eapply wp_ld; [k_simpl; rewrite lookup_insert_ne //; rewrite lookup_insert_ne //; apply lookup_insert_eq|].
  reflexivity.
Qed.
End main.
