(* ===== verification/MainProps.v ===== *)
(** * The first threads: properties

    How boot reaches the first real thread, and what the kernel's own tests and
    demonstration come to on a concrete machine. *)

From S2P Require Import Prelude Queue Core Dpc Timer Sched Dispatch SoftInt KernelProps Main.

(** ** From [kmain] to [kmain_threaded] *)
(** C13: The end of [kmain].  On a CPU that [cpudata_setup] has just prepared, [kmain] turns
    itself into the idle thread; that thread creates the thread for [kmain_threaded] and
    makes it ready, and since its priority is higher the dispatch software interrupt
    switches to it at once, through [thread_trampoline].  So control comes to the first
    instruction of [kmain_threaded] with that thread current, at passive level, with
    interrupts on, no lock held, nothing pending and no thread on standby; the run queues
    are as they were, the idle thread not among them; and nothing but a panic follows if
    [kmain_threaded] returns.  This holds whatever the components do later. *)
Theorem kmain_enters_threaded {H} `{TimerHeap H} hw_clock ob sp fuel dpc_client start_client others n y x (w : kworld H) :
  let idle := idle_thread (kcpu w) in let t := kmain_thread ob in
  let resume := resume_at hw_clock ob sp fuel dpc_client start_client others n in
  (1 < fuel)%nat → quiet_cpu w → threads w !! idle = Some y → threads w !! t = Some x → t ≠ idle → t ∉ snd <$> switches w →
  is_Some (kstack ob idle) → is_Some (kstack ob t) →
  enters (kmain_start hw_clock ob sp fuel dpc_client start_client others (S (S n)))
    (kmain_threaded hw_clock ob sp (irql_lower hw_clock resume dpc_client fuel) resume)
    (started t idle (set_state kThreadStateStandby
       (new_thread (wait_timer x) (cpu_id (kcpu w)) kmain_threaded_fn kPriorityHigh None None)) w) w.
Proof. intros idle t resume Hf. exact (kmain_start_spec hw_clock ob sp fuel dpc_client start_client others Hf n w y x). Qed.

(** ** A machine that has just been set up

    Thread 0 is idle, thread 1 will run [kmain_threaded], threads 2 to 6 are spawned and
    thread 7 belongs to the mutex test.  The steps of the other components are empty. *)
Definition boot_objects : objects := Objects 1 21 22 22 50 [Some 2; Some 3; Some 4; Some 5; Some 6]%nat 60 61 7 62 51 52 (λ _, Some 0x10000).
Definition boot_world : kworld Machine.HP :=
  k_cpu (Cpu IRQL_PASSIVE false 0 [] 0 None None 0 0 30 UINT64_MAX)
    (k_threads (list_to_map ((λ i, (i, Machine.th (10 + i) kThreadStateNull 0)) <$> [0; 1; 2; 3; 4; 5; 6; 7]%nat)) Machine.machine).
(** A clock that advances by a millisecond with every reading. *)
Definition ms_clock (n : nat) : Z := 1000000 * Z.of_nat n.
Definition nothing : M (kworld Machine.HP) unit := mret tt.
Definition boot (wait : M (kworld Machine.HP) unit) (TEST : bool) (others : nat → M (kworld Machine.HP) unit) : M (kworld Machine.HP) unit :=
  kmain_start ms_clock boot_objects
    (Steps wait nothing nothing nothing nothing nothing nothing nothing nothing nothing nothing false TEST) 20 Machine.mark (λ _ _ _, nothing) others 8.

Lemma kmain_enters_threaded_witness : ∃ body,
  enters (boot nothing false Machine.stay) body (λ w', thread_current (kcpu w') = Some 1%nat ∧ quiet_cpu w' ∧ ints (kcpu w') = true) boot_world.
Proof.
  eexists.
  destruct (kmain_enters_threaded ms_clock boot_objects
    (Steps nothing nothing nothing nothing nothing nothing nothing nothing nothing nothing nothing false false) 20 Machine.mark (λ _ _ _, nothing) Machine.stay 6 (Machine.th 10 kThreadStateNull 0) (Machine.th 11 kThreadStateNull 0) boot_world)
    as (w' & [D1 D2 D3 _ _ _] & E).
  - lia.
  - by split.
  - reflexivity.
  - reflexivity.
  - vm_compute. lia.
  - vm_compute. by intros ?%elem_of_nil.
  - by eexists.
  - by eexists.
  - exists w'. split; [by split_and!|exact E].
Defined.

(** *** The test of the kernel's own test runner stops it *)
Theorem mutex_cannot_be_waited_for {H} `{TimerHeap H} lower resume wb m e timeout (w : kworld H) : m ≠ e →
  (mutex_init m e;; sched_wait_single lower resume wb m timeout) w = Panic (AssertFail "hdr->type != 123").
Proof. apply wait_on_mutex_stops. Qed.
Example mutex_test_stops : boot nothing true Machine.stay boot_world = Panic (AssertFail "hdr->type != 123").
Proof. vm_compute. reflexivity. Qed.

(** *** The demonstration waits for a timer and never wakes

    [kmain_threaded] waits for its timer, so the first of the spawned threads runs; when
    it has halted long enough the clock interrupt queues the timer DPC, whose expiry finds
    a waiter and prints its name; the thread that runs [kmain_threaded] has none before the
    fireworks start. *)
Definition clock_interrupt : M (kworld Machine.HP) unit :=
  irql_set IRQL_DISPATCH;;
  dpc_enqueue 30 None None;;
  modify (λ w, k_reads (reads w + 1000) w);;
  irql_lower ms_clock Machine.stay Machine.mark 5 IRQL_PASSIVE.
Example demonstration_stops : boot clock_interrupt false Machine.stay boot_world = Panic (NullDeref "cbuf").
Proof. vm_compute. reflexivity. Qed.
