(* ===== verification/Pm.v ===== *)
(** * Physical memory: [kernel/vm/pm.c]

    The page frame allocator: regions of physical memory, the [page_t] of every frame
    and the free list.  A [page_t] is named by a number; the pages of a region have
    consecutive numbers, so that [&region->pages[i]] is [r_pages + i].  Physical memory
    itself is a function from addresses to 64-bit words; it is reached through the
    direct map, so [P2V(p)] is the word at [p]. *)

From S2P Require Import Prelude Queue.

Definition PAGE_SIZE : Z := 0x1000.
Definition PAGE_ALIGN_UP (x : Z) : Z := wrap64 (Z.land (wrap64 (x + PAGE_SIZE - 1)) (Z.lnot (PAGE_SIZE - 1))).
Definition PAGE_ALIGN_DOWN (x : Z) : Z := Z.land x (Z.lnot (PAGE_SIZE - 1)).

Definition kPageUseFree : Z := 1.
Definition kPageUseInternal : Z := 2.
Definition kPageUseVm : Z := 3.
Definition kPageUseWired : Z := 4.

#[local] Set Primitive Projections.

Record page := Page {
  pfn : Z;
  usage : Z;
  order : nat;
}.
Record region := Region {
  r_base : Z;
  r_pagecnt : Z;
  r_pages : nat;
}.

Record mworld := MWorld {
  regionlist : list region;
  buddy_freelist : list (list nat);
  buddy_lock : bool;
  vm_total : Z;
  vm_used : Z;
  pages : gmap nat page;
  phys : Z → Z;
}.
Definition BUDDY_ORDERS : nat := 10.

Definition set_usage (u : Z) (p : page) : page := Page (pfn p) u (order p).
Definition m_regions (l : list region) (w : mworld) :=
  MWorld l (buddy_freelist w) (buddy_lock w) (vm_total w) (vm_used w) (pages w) (phys w).
Definition m_freelist (l : list (list nat)) (w : mworld) :=
  MWorld (regionlist w) l (buddy_lock w) (vm_total w) (vm_used w) (pages w) (phys w).
Definition m_lock (b : bool) (w : mworld) :=
  MWorld (regionlist w) (buddy_freelist w) b (vm_total w) (vm_used w) (pages w) (phys w).
Definition m_stat (t u : Z) (w : mworld) :=
  MWorld (regionlist w) (buddy_freelist w) (buddy_lock w) t u (pages w) (phys w).
Definition m_pages (p : gmap nat page) (w : mworld) :=
  MWorld (regionlist w) (buddy_freelist w) (buddy_lock w) (vm_total w) (vm_used w) p (phys w).
Definition m_phys (f : Z → Z) (w : mworld) :=
  MWorld (regionlist w) (buddy_freelist w) (buddy_lock w) (vm_total w) (vm_used w) (pages w) f.

Definition PG2P (p : page) : Z := wrap64 (Z.shiftl (pfn p) 12).

(** ** Accesses *)
Definition ld_page (i : nat) : M mworld page := w ← get; deref "page" (pages w !! i).
Definition upd_page (i : nat) (f : page → page) : M mworld unit :=
  w ← get; x ← deref "page" (pages w !! i); put (m_pages (<[i := f x]> (pages w)) w).
Definition st_page (i : nat) (x : page) : M mworld unit := modify (λ w, m_pages (<[i := x]> (pages w)) w).
Definition buddy_acquire : M mworld unit :=
  w ← get; if buddy_lock w then fail (Deadlock "deadlock?") else put (m_lock true w).
Definition buddy_release : M mworld unit := modify (m_lock false).
(** [TAILQ_INSERT_TAIL(&buddy_freelist[o], page, queue_entry)]. *)
Definition freelist_insert (o i : nat) : M mworld unit :=
  w ← get;
  if decide (o < length (buddy_freelist w))%nat then put (m_freelist (alter (λ l, l ++ [i]) o (buddy_freelist w)) w)
  else fail (OutOfBounds "buddy_freelist").
Definition freelist_remove (o i : nat) : M mworld unit :=
  modify (λ w, m_freelist (alter (Abs.remove i) o (buddy_freelist w)) w).
Definition freelist_first (o : nat) : M mworld (option nat) :=
  w ← get; l ← deref "buddy_freelist" (buddy_freelist w !! o); mret (head l).

(** ** Operations *)
Definition pm_init : M mworld unit := modify (λ w, m_freelist (replicate BUDDY_ORDERS []) w).

(** [sizeof(region_t)] and [sizeof(page_t)] are both 32 bytes. *)
Definition region_used (length : Z) : Z := PAGE_ALIGN_UP (wrap64 (32 + wrap64 (32 * length) / PAGE_SIZE)).

(** [first] names [region->pages[0]] of the new region. *)
Definition pm_add_region (first : nat) (base length : Z) : M mworld unit :=
  let used := region_used length in
  if decide (wrap64 (length - used) < PAGE_SIZE * 2) then mret tt
  else
    buddy_acquire;;
    let pagecnt := length / PAGE_SIZE in
    modify (λ w, m_regions (regionlist w ++ [Region base pagecnt first]) w);;
    modify (λ w, m_stat (wrap64 (vm_total w + pagecnt)) (vm_used w) w);;
    forM (seq 0 (Z.to_nat pagecnt)) (λ i,
      st_page (first + i) (Page (Z.shiftr (wrap64 (base + Z.of_nat i * PAGE_SIZE)) 12) kPageUseFree 0));;
    forM (seq 0 (Z.to_nat (used / PAGE_SIZE))) (λ i,
      upd_page (first + i) (set_usage kPageUseInternal));;
    forM (seq (Z.to_nat (used / PAGE_SIZE)) (Z.to_nat pagecnt - Z.to_nat (used / PAGE_SIZE))) (λ i,
      x ← ld_page (first + i); freelist_insert (order x) (first + i));;
    modify (λ w, m_stat (vm_total w) (wrap64 (vm_used w + used / PAGE_SIZE)) w);;
    buddy_release.

Definition pm_allocate_n (n use : Z) : M mworld nat :=
  assertM (bool_decide (n = 1)) "n == 1";;
  buddy_acquire;;
  f ← freelist_first 0;
  pg ← match f with Some pg => mret pg | None => fail (AssertFail "pg") end;
  upd_page pg (set_usage use);;
  freelist_remove 0 pg;;
  modify (λ w, m_stat (vm_total w) (wrap64 (vm_used w + n)) w);;
  buddy_release;;
  mret pg.

(** [memset((void * )PG2V(page).addr, 0, PAGE_SIZE)]. *)
Definition zero_page (pa : Z) (f : Z → Z) : Z → Z :=
  λ a, if decide (pa ≤ a < pa + PAGE_SIZE) then 0 else f a.
Definition pm_allocate_n_zeroed (n use : Z) : M mworld nat :=
  pg ← pm_allocate_n n use;
  forM (seq 0 (Z.to_nat n)) (λ i,
    x ← ld_page (pg + i); modify (λ w, m_phys (zero_page (PG2P x) (phys w)) w));;
  mret pg.

Definition pm_free_n (pg : nat) (n : Z) : M mworld unit :=
  assertM (bool_decide (n = 1)) "n == 1";;
  buddy_acquire;;
  forM (seq 0 (Z.to_nat n)) (λ i, upd_page (pg + i) (set_usage kPageUseFree));;
  freelist_insert 0 pg;;
  modify (λ w, m_stat (vm_total w) (wrap64 (vm_used w - n)) w);;
  buddy_release.

Definition pm_allocate (use : Z) : M mworld nat := pm_allocate_n 1 use.
Definition pm_allocate_zeroed (use : Z) : M mworld nat := pm_allocate_n_zeroed 1 use.
Definition pm_free (pg : nat) : M mworld unit := pm_free_n pg 1.

Definition pm_lookup_with_region (paddr : Z) (r : region) : nat :=
  (r_pages r + Z.to_nat (wrap64 (paddr - r_base r) / PAGE_SIZE))%nat.
Fixpoint pm_lookup_region (paddr : Z) (l : list region) : option region :=
  match l with
  | [] => None
  | r :: l' =>
      if decide (paddr >= r_base r ∧ paddr < wrap64 (r_base r + wrap64 (r_pagecnt r * PAGE_SIZE))) then Some r
      else pm_lookup_region paddr l'
  end.
Definition pm_lookup (paddr : Z) : M mworld (option nat) :=
  w ← get;
  match pm_lookup_region paddr (regionlist w) with
  | None => mret None
  | Some r => mret (Some (pm_lookup_with_region paddr r))
  end.

(** ** The invariant *)
Definition region_end (r : region) : Z := r_base r + r_pagecnt r * PAGE_SIZE.
Definition region_wf (r : region) : Prop :=
  0 ≤ r_base r ∧ r_base r mod PAGE_SIZE = 0 ∧ 0 ≤ r_pagecnt r ∧ region_end r < 2 ^ 64.
Definition regions_apart (r1 r2 : region) : Prop := region_end r1 ≤ r_base r2 ∨ region_end r2 ≤ r_base r1.

(** Page [i] is frame [k] of region [r]. *)
Definition frame_of (r : region) (k : nat) (i : nat) (x : page) : Prop :=
  i = (r_pages r + k)%nat ∧ Z.of_nat k < r_pagecnt r ∧ pfn x = r_base r / PAGE_SIZE + Z.of_nat k ∧ order x = 0%nat.

(** [fl] is the free list; exactly the free pages are on it, and the statistics count
    the pages. *)
Record pm_ok (w : mworld) (fl : list nat) : Prop := {
  po_lock : buddy_lock w = false;
  po_list : buddy_freelist w !! 0%nat = Some fl;
  po_nodup : NoDup fl;
  po_free : ∀ i, i ∈ fl ↔ ∃ x, pages w !! i = Some x ∧ usage x = kPageUseFree;
  po_size : Z.of_nat (size (pages w)) < 2 ^ 64;
  po_total : vm_total w = Z.of_nat (size (pages w));
  po_used : vm_used w = Z.of_nat (size (pages w)) - Z.of_nat (length fl);
  po_frame : ∀ i x, pages w !! i = Some x → ∃ r k, r ∈ regionlist w ∧ frame_of r k i x;
  po_wf : Forall region_wf (regionlist w);
  po_apart : ∀ n m r1 r2, regionlist w !! n = Some r1 → regionlist w !! m = Some r2 → n ≠ m → regions_apart r1 r2;
}.

Definition page_addr (r : region) (k : nat) : Z := r_base r + Z.of_nat k * PAGE_SIZE.

Lemma frame_addr r k i x : region_wf r → frame_of r k i x →
  PG2P x = page_addr r k ∧ r_base r ≤ PG2P x < region_end r ∧ PG2P x mod PAGE_SIZE = 0.
Proof.
  intros (Hb & Hm & Hc & He) (-> & Hk & Hp & _). unfold PG2P, page_addr, region_end in *.
  assert (r_base r = PAGE_SIZE * (r_base r / PAGE_SIZE)) as Hd.
  { pose proof (Z.div_mod (r_base r) PAGE_SIZE). unfold PAGE_SIZE in *. lia. }
  rewrite Hp Z.shiftl_mul_pow2 //. change (2 ^ 12) with PAGE_SIZE.
  replace ((r_base r / PAGE_SIZE + Z.of_nat k) * PAGE_SIZE) with (r_base r + Z.of_nat k * PAGE_SIZE) by lia.
  rewrite wrap64_small; [unfold PAGE_SIZE in *; nia|]. split_and!; [done|unfold PAGE_SIZE; lia|unfold PAGE_SIZE in *; nia|].
  rewrite Z.mod_add //.
Qed.

Lemma pm_same_region w fl r1 r2 a : pm_ok w fl → r1 ∈ regionlist w → r2 ∈ regionlist w →
  r_base r1 ≤ a < region_end r1 → r_base r2 ≤ a < region_end r2 → r1 = r2.
Proof.
  intros Hok [n H1]%list_elem_of_lookup [m H2]%list_elem_of_lookup Ha1 Ha2.
  destruct (decide (n = m)) as [<-|Hne]; [congruence|].
  destruct (po_apart _ _ Hok n m r1 r2 H1 H2 Hne); lia.
Qed.

(** Different pages are different frames. *)
Lemma pm_frame_inj w fl i j x y : pm_ok w fl → pages w !! i = Some x → pages w !! j = Some y →
  PG2P x = PG2P y → i = j.
Proof.
  intros Hok Hi Hj E. destruct (po_frame _ _ Hok i x Hi) as (r1 & k1 & R1 & F1).
  destruct (po_frame _ _ Hok j y Hj) as (r2 & k2 & R2 & F2). pose proof (po_wf _ _ Hok) as Wf.
  rewrite Forall_forall in Wf. destruct (frame_addr r1 k1 i x) as (A1 & B1 & _); [by apply Wf|done|].
  destruct (frame_addr r2 k2 j y) as (A2 & B2 & _); [by apply Wf|done|].
  rewrite -E in B2. pose proof (pm_same_region w fl r1 r2 _ Hok R1 R2 B1 B2) as <-.
  destruct F1 as (-> & _), F2 as (-> & _). unfold page_addr, PAGE_SIZE in *. f_equal. lia.
Qed.

Lemma lookup_region_found l r a : (∀ r, r ∈ l → region_wf r) → r ∈ l → r_base r ≤ a < region_end r →
  ∃ r', pm_lookup_region a l = Some r' ∧ r' ∈ l ∧ r_base r' ≤ a < region_end r'.
Proof.
  induction l as [|r0 l IH]; intros Wf Hr Ha; [by apply elem_of_nil in Hr|]. cbn [pm_lookup_region].
  destruct (Wf r0) as (? & ? & ? & ?); [left|].
  assert (wrap64 (r_base r0 + wrap64 (r_pagecnt r0 * PAGE_SIZE)) = region_end r0) as Ew.
  { unfold region_end, PAGE_SIZE in *. rewrite !wrap64_small; lia. }
  rewrite Ew. case_decide as Hd; [exists r0; split_and!; [done|left|lia|lia]|].
  apply elem_of_cons in Hr as [->|Hr]; [lia|].
  destruct IH as (r' & ? & ? & ?); [intros; apply Wf; by right|done|done|].
  exists r'. split_and!; [done|by right|lia|lia].
Qed.

(** [pm_lookup] inverts [PG2P]; any address inside the frame finds its page. *)
Lemma pm_lookup_spec w fl i x off : pm_ok w fl → pages w !! i = Some x → 0 ≤ off < PAGE_SIZE →
  wp (pm_lookup (PG2P x + off)) (λ r w', r = Some i ∧ w' = w) w.
Proof.
  intros Hok Hi Hoff. destruct (po_frame _ _ Hok i x Hi) as (r & k & Hr & F). pose proof (po_wf _ _ Hok) as Wf.
  rewrite Forall_forall in Wf. destruct (frame_addr r k i x (Wf r Hr) F) as (A & B & _).
  assert (r_base r ≤ PG2P x + off < region_end r) as Hin.
  { destruct F as (_ & Hk & _). rewrite A. unfold page_addr, region_end, PAGE_SIZE in *. nia. }
  unfold pm_lookup. wp_run. destruct (lookup_region_found (regionlist w) r (PG2P x + off) Wf Hr Hin) as (r' & E & Hr' & Hin').
  rewrite E. wp_run. split; [|done]. pose proof (pm_same_region w fl r' r _ Hok Hr' Hr Hin' Hin) as ->.
  f_equal. unfold pm_lookup_with_region. destruct F as (-> & Hk & _). rewrite A.
  destruct (Wf r Hr) as (? & _ & ? & ?). unfold page_addr, region_end, PAGE_SIZE in *.
  rewrite wrap64_small; [nia|]. replace (r_base r + Z.of_nat k * 4096 + off - r_base r) with (off + Z.of_nat k * 4096) by lia.
  rewrite Z.div_add // Z.div_small //. lia.
Qed.

(** ** Allocation and release *)
Ltac m_simpl := cbn [regionlist buddy_freelist buddy_lock vm_total vm_used pages phys m_regions m_freelist m_lock
  m_stat m_pages m_phys fst snd].

Definition pm_same (w w' : mworld) : Prop := regionlist w' = regionlist w ∧ phys w' = phys w ∧ vm_total w' = vm_total w.

Lemma pm_count w fl : pm_ok w fl → (length fl ≤ size (pages w))%nat.
Proof.
  intros [_ _ Nd Fr _ _ _ _ _ _]. rewrite -(size_list_to_set (C := gset nat) fl Nd) -size_dom.
  apply subseteq_size. intros i Hi%elem_of_list_to_set. apply Fr in Hi as (x & Hx & _).
  apply elem_of_dom. by exists x.
Qed.

Lemma pm_allocate_spec w fl i use : pm_ok w (i :: fl) → use ≠ kPageUseFree →
  wp (pm_allocate use) (λ pg w', pg = i ∧ pm_ok w' fl ∧ pm_same w w' ∧
    ∃ x, pages w !! i = Some x ∧ pages w' = <[i := set_usage use x]> (pages w)) w.
Proof.
  intros Hok Huse. pose proof (pm_count _ _ Hok) as Hcnt. destruct Hok as [Lk Li Nd Fr Sz To Us Fm Wf Ap].
  apply NoDup_cons in Nd as [Hi Nd].
  destruct (proj1 (Fr i) (list_elem_of_here _ _)) as (x & Hx & Hf).
  unfold pm_allocate, pm_allocate_n, buddy_acquire, buddy_release, freelist_first, freelist_remove, upd_page. wp_run.
  split; [done|]. rewrite Lk. wp_run. m_simpl. eexists. split; [exact Li|]. cbn [head]. wp_run.
  eexists. split; [exact Hx|]. wp_run. m_simpl. split_and!; [done| |done|by exists x].
  assert (Abs.remove i (i :: fl) = fl) as Er by (apply (Abs.remove_split i [] fl); set_solver).
  assert (is_Some (pages w !! i)) as Hs by by rewrite Hx.
  split; m_simpl; rewrite ?(map_size_insert_Some _ _ _ Hs); try done.
  - rewrite list_lookup_alter_eq Li. cbn [fmap option_fmap option_map]. by rewrite Er.
  - intros j. destruct (decide (i = j)) as [<-|Hne].
    + rewrite lookup_insert_eq. split; [done|]. intros (y & [= <-] & Hu). cbn in Hu. done.
    + rewrite lookup_insert_ne // -Fr. set_solver.
  - rewrite Us. cbn [length] in *. rewrite wrap64_small; lia.
  - intros j y. destruct (decide (i = j)) as [<-|Hne]; [|rewrite lookup_insert_ne //; apply Fm].
    rewrite lookup_insert_eq. intros [= <-]. destruct (Fm i x Hx) as (r & k & ? & ?). by exists r, k.
Qed.

(** With no free frame the allocator stops. *)
Lemma pm_allocate_empty w use : pm_ok w [] → pm_allocate use w = Panic (AssertFail "pg").
Proof.
  intros [Lk Li _ _ _ _ _ _ _ _]. unfold pm_allocate, pm_allocate_n, buddy_acquire, freelist_first.
  apply bind_ends. wp_run. split; [done|]. apply bind_ends. wp_run. rewrite Lk. wp_run.
  apply bind_ends. wp_run. m_simpl. exists []. split; [exact Li|]. done.
Qed.

Lemma pm_free_spec w fl i x : pm_ok w fl → pages w !! i = Some x → usage x ≠ kPageUseFree →
  wp (pm_free i) (λ _ w', pm_ok w' (fl ++ [i]) ∧ pm_same w w' ∧
    pages w' = <[i := set_usage kPageUseFree x]> (pages w)) w.
Proof.
  intros Hok Hx Hu. pose proof (pm_count _ _ Hok) as Hcnt. destruct Hok as [Lk Li Nd Fr Sz To Us Fm Wf Ap].
  assert (i ∉ fl) as Hi by (rewrite Fr; naive_solver congruence).
  assert (length fl < size (pages w))%nat as Hlt.
  { rewrite -(size_list_to_set (C := gset nat) fl Nd) -size_dom. apply subset_size. split.
    - intros j Hj%elem_of_list_to_set. apply Fr in Hj as (y & Hy & _). apply elem_of_dom. by exists y.
    - intros Hsub. apply Hi, (elem_of_list_to_set (C := gset nat)), Hsub, elem_of_dom. by exists x. }
  unfold pm_free, pm_free_n, buddy_acquire, buddy_release, freelist_insert, upd_page. wp_run. split; [done|].
  rewrite Lk. wp_run. m_simpl. change (Z.to_nat 1) with 1%nat. cbn [seq forM]. rewrite Nat.add_0_r. wp_run.
  eexists. split; [exact Hx|]. wp_run. m_simpl.
  rewrite decide_True; [by eapply lookup_lt_Some|]. wp_run. m_simpl. split_and!; try done.
  assert (is_Some (pages w !! i)) as Hs by by rewrite Hx.
  split; m_simpl; rewrite ?(map_size_insert_Some _ _ _ Hs); try done.
  - rewrite list_lookup_alter_eq Li. done.
  - by apply NoDup_snoc.
  - intros j. rewrite elem_of_app list_elem_of_singleton. destruct (decide (i = j)) as [<-|Hne].
    + rewrite lookup_insert_eq. split; [by eexists|by right].
    + rewrite lookup_insert_ne // -Fr. naive_solver.
  - rewrite Us length_app. cbn [length]. rewrite wrap64_small; lia.
  - intros j y. destruct (decide (i = j)) as [<-|Hne]; [|rewrite lookup_insert_ne //; apply Fm].
    rewrite lookup_insert_eq. intros [= <-]. destruct (Fm i x Hx) as (r & k & ? & ?). by exists r, k.
Qed.

(** ** Clients: a FIFO of frames *)
Inductive pm_op := PmAlloc (use : Z) | PmFree (k : nat).

(** [held] are the pages the client has, newest first; it frees the [k]th. *)
Fixpoint pm_client (ops : list pm_op) (held : list nat) : M mworld (list nat) :=
  match ops with
  | [] => mret held
  | PmAlloc use :: ops' => pg ← pm_allocate use; pm_client ops' (pg :: held)
  | PmFree k :: ops' =>
      pg ← deref "held" (held !! k); pm_free pg;; pm_client ops' (delete k held)
  end.
Fixpoint fifo_client (ops : list pm_op) (free held : list nat) : option (list nat * list nat) :=
  match ops with
  | [] => Some (free, held)
  | PmAlloc use :: ops' =>
      match free with
      | pg :: free' => if decide (use = kPageUseFree) then None else fifo_client ops' free' (pg :: held)
      | [] => None
      end
  | PmFree k :: ops' =>
      match held !! k with
      | Some pg => fifo_client ops' (free ++ [pg]) (delete k held)
      | None => None
      end
  end.

Definition held_ok (w : mworld) (held : list nat) : Prop :=
  NoDup held ∧ ∀ i, i ∈ held → ∃ x, pages w !! i = Some x ∧ usage x ≠ kPageUseFree.

Lemma held_ok_delete w held k pg : held_ok w held → held !! k = Some pg →
  NoDup (delete k held) ∧ pg ∉ delete k held ∧ (∀ i, i ∈ delete k held → i ∈ held).
Proof.
  intros [Nd _] Hk. rewrite -(take_drop_middle _ _ _ Hk) in Nd. apply NoDup_app in Nd as (N1 & N2 & N3).
  apply NoDup_cons in N3 as [N3 N4]. rewrite delete_take_drop. split_and!.
  - apply NoDup_app. split_and!; [done| |done]. intros i Hi1 Hi2. apply (N2 i Hi1). by right.
  - intros [Hi|Hi]%elem_of_app; [|done]. apply (N2 pg Hi). left.
  - intros i Hi. rewrite -(take_drop_middle _ _ _ Hk). clear -Hi. set_solver.
Qed.

Lemma pm_client_spec ops w fl held fl' held' :
  pm_ok w fl → held_ok w held → fifo_client ops fl held = Some (fl', held') →
  wp (pm_client ops held) (λ r w', r = held' ∧ pm_ok w' fl' ∧ held_ok w' held' ∧ pm_same w w') w.
Proof.
  revert w fl held. induction ops as [|[use|k] ops IH]; intros w fl held Hok Hh; cbn [pm_client fifo_client].
  - intros [= <- <-]. wp_run. by split_and!.
  - destruct fl as [|pg fl]; [done|]. case_decide as Hu; [done|]. intros Hr. wp_run.
    eapply wp_mono; [by apply pm_allocate_spec|]. intros r w1 (-> & Ok1 & (S1 & S2 & S3) & x & Hx & Hp).
    pose proof (proj1 (po_free _ _ Hok pg) (list_elem_of_here _ _)) as (y & Hy & Hyf).
    eapply wp_mono; [eapply (IH w1 fl (pg :: held) Ok1); [|exact Hr]|].
    + destruct Hh as [Nd Hp2]. split.
      * apply NoDup_cons. split; [|done]. intros Hin. destruct (Hp2 pg Hin) as (z & Hz & Hzf). congruence.
      * intros i [->|Hin]%elem_of_cons; rewrite Hp; [rewrite lookup_insert_eq; by eexists|].
        destruct (Hp2 i Hin) as (z & Hz & Hzf). rewrite lookup_insert_ne; [congruence|]. by exists z.
    + intros r w2 (-> & Ok2 & Hh2 & (T1 & T2 & T3)). split_and!; try done. unfold pm_same. by rewrite T1 T2 T3.
  - destruct (held !! k) as [pg|] eqn:Hk; [|done]. intros Hr. wp_run. exists pg. split; [done|]. wp_run.
    destruct (held_ok_delete _ _ _ _ Hh Hk) as (D1 & D2 & D3).
    destruct Hh as [Nd Hp2]. destruct (Hp2 pg (list_elem_of_lookup_2 _ _ _ Hk)) as (x & Hx & Hxf).
    eapply wp_mono; [by eapply pm_free_spec|]. intros r w1 (Ok1 & (S1 & S2 & S3) & Hp).
    eapply wp_mono; [eapply (IH w1 _ _ Ok1); [|exact Hr]|].
    + split; [done|]. intros i Hin. rewrite Hp lookup_insert_ne; [|by apply Hp2, D3]. intros ->. done.
    + intros r2 w2 (-> & Ok2 & Hh2 & (T1 & T2 & T3)). split_and!; try done. unfold pm_same. by rewrite T1 T2 T3.
Qed.

(** ** Adding a region *)
Section add.
Context (w0 : mworld) (fl : list nat) (first : nat) (base length : Z).
Let cnt : Z := length / PAGE_SIZE.
Let used : Z := region_used length.
Let u : nat := Z.to_nat (used / PAGE_SIZE).
Let n : nat := Z.to_nat cnt.

(** The caller's side: the region is page aligned, does not wrap and is apart from the
    others, its pages are not in the store yet, and it is larger than its own header. *)
Record region_new : Prop := {
  rn_ok : pm_ok w0 fl;
  rn_wf : region_wf (Region base cnt first);
  rn_fresh : ∀ k, (k < n)%nat → pages w0 !! (first + k)%nat = None;
  rn_apart : ∀ r, r ∈ regionlist w0 → regions_apart r (Region base cnt first);
  rn_size : Z.of_nat (size (pages w0)) + cnt < 2 ^ 64;
  rn_length : 0 ≤ length < 2 ^ 64;
  rn_fits : used + PAGE_SIZE * 2 ≤ length;
}.

(** The pages of the region while the loops run: the first [i] exist, the first [k] of
    them are internal. *)
Definition new_page (k j : nat) : page :=
  Page (base / PAGE_SIZE + Z.of_nat j) (if decide (j < k)%nat then kPageUseInternal else kPageUseFree) 0.
Record filled (i k : nat) (m : gmap nat page) : Prop := {
  fi_new : ∀ j, (j < i)%nat → m !! (first + j)%nat = Some (new_page k j);
  fi_old : ∀ j, ¬ (first ≤ j < first + i)%nat → m !! j = pages w0 !! j;
  fi_size : size m = (size (pages w0) + i)%nat;
}.

Context (New : region_new).

Lemma used_bound : (u ≤ n)%nat ∧ 0 ≤ used ∧ Z.of_nat u = used / PAGE_SIZE ∧ Z.of_nat n = cnt.
Proof.
  destruct New as [_ _ _ _ _ Hl Hf]. assert (0 ≤ used) as Hu.
  { unfold used, region_used, PAGE_ALIGN_UP. apply wrap64_range. }
  assert (used / PAGE_SIZE ≤ cnt) by (apply Z.div_le_mono; unfold PAGE_SIZE in *; lia).
  assert (0 ≤ used / PAGE_SIZE) by (apply Z.div_pos; unfold PAGE_SIZE; lia).
  unfold u, n. split_and!; lia.
Qed.

Lemma new_pfn j : (j < n)%nat → Z.shiftr (wrap64 (base + Z.of_nat j * PAGE_SIZE)) 12 = base / PAGE_SIZE + Z.of_nat j.
Proof.
  intros Hj. destruct used_bound as (_ & _ & _ & Hn). destruct New as [_ (Hb & Hm & Hc & He) _ _ _ _ _].
  unfold region_end, r_base, r_pagecnt in *. cbn in *. rewrite wrap64_small; [unfold PAGE_SIZE in *; nia|].
  rewrite Z.shiftr_div_pow2 //. change (2 ^ 12) with PAGE_SIZE. by rewrite Z.div_add.
Qed.

Lemma filled_step i m : (i < n)%nat → filled i 0 m →
  filled (S i) 0 (<[(first + i)%nat := Page (Z.shiftr (wrap64 (base + Z.of_nat i * PAGE_SIZE)) 12) kPageUseFree 0]> m).
Proof.
  intros Hi [Hn Ho Hs]. rewrite new_pfn //. split.
  - intros j Hj. destruct (decide (i = j)) as [<-|]; [by rewrite lookup_insert_eq|].
    rewrite lookup_insert_ne; [lia|]. apply Hn. lia.
  - intros j Hj. rewrite lookup_insert_ne; [lia|]. apply Ho. lia.
  - assert (m !! (first + i)%nat = None) as E by (rewrite Ho; [lia|by apply (rn_fresh New)]).
    rewrite map_size_insert_None // Hs. lia.
Qed.
Lemma internal_step i k m : (k < i)%nat → filled i k m →
  filled i (S k) (<[(first + k)%nat := set_usage kPageUseInternal (new_page k k)]> m).
Proof.
  intros Hi [Hn Ho Hs]. split.
  - intros j Hj. destruct (decide (k = j)) as [<-|].
    + rewrite lookup_insert_eq. unfold new_page, set_usage. cbn. rewrite decide_True; [lia|done].
    + rewrite lookup_insert_ne; [lia|]. rewrite Hn // /new_page. by repeat case_decide; try lia.
  - intros j Hj. rewrite lookup_insert_ne; [lia|]. apply Ho. lia.
  - rewrite map_size_insert_Some //. rewrite Hn; [lia|by eexists].
Qed.

Lemma filled_ok m (w : mworld) : filled n u m →
  buddy_freelist w !! 0%nat = Some (fl ++ seq (first + u) (n - u)) → buddy_lock w = false → pages w = m →
  vm_total w = wrap64 (vm_total w0 + cnt) → vm_used w = wrap64 (vm_used w0 + used / PAGE_SIZE) →
  regionlist w = regionlist w0 ++ [Region base cnt first] → pm_ok w (fl ++ seq (first + u) (n - u)).
Proof.
  intros [Hnew Hold Hsz] Hl Hk Hp Ht Hus Hr. destruct used_bound as (B1 & B2 & B3 & B4).
  pose proof New as [Ok Wf Fresh Apart Size _ _]. pose proof (pm_count _ _ Ok) as Hcnt.
  destruct Ok as [_ _ Nd Fr _ To Us Fm Wf0 Ap].
  assert (∀ j, (first ≤ j < first + n)%nat → pages w0 !! j = None) as Hnone.
  { intros j Hj. replace j with (first + (j - first))%nat by lia. apply Fresh. lia. }
  assert (∀ j, j ∈ fl → ¬ (first ≤ j < first + n)%nat) as Hfl.
  { intros j (x & Hx & _)%Fr Hj. rewrite Hnone // in Hx. }
  assert (∀ j x, pages w !! j = Some x → (∃ k, (k < n)%nat ∧ j = (first + k)%nat ∧ x = new_page u k) ∨
    ¬ (first ≤ j < first + n)%nat ∧ pages w0 !! j = Some x) as Hcase.
  { intros j x. rewrite Hp. destruct (decide (first ≤ j < first + n)%nat) as [Hj|Hj].
    - replace j with (first + (j - first))%nat at 1 by lia. rewrite Hnew; [lia|]. intros [= <-].
      left. exists (j - first)%nat. split_and!; [lia|lia|done].
    - rewrite Hold //. by right. }
  split; rewrite ?Hp ?Hsz; try done.
  - apply NoDup_app. split_and!; [done| |apply NoDup_seq]. intros j Hj [? ?]%elem_of_seq. apply (Hfl j Hj). lia.
  - intros j. rewrite elem_of_app elem_of_seq Fr. split.
    + intros [(x & Hx & Hf)|Hj].
      * exists x. rewrite Hold; [intros Hj; rewrite Hnone // in Hx|by split].
      * replace j with (first + (j - first))%nat by lia. rewrite Hnew; [lia|]. eexists. split; [done|].
        unfold new_page. cbn. rewrite decide_False //. lia.
    + intros (x & Hx & Hf). rewrite -Hp in Hx. apply Hcase in Hx as [(k & Hk' & -> & ->)|[_ Hx]]; [|left; by exists x].
      right. unfold new_page in Hf. cbn in Hf. case_decide; [done|lia].
  - lia.
  - rewrite Ht To wrap64_small; lia.
  - rewrite Hus Us length_app length_seq wrap64_small; lia.
  - intros j x Hx. rewrite -Hp in Hx. apply Hcase in Hx as [(k & Hk' & -> & ->)|[_ Hx]].
    + exists (Region base cnt first), k. split; [rewrite Hr; set_solver|]. unfold frame_of, new_page. cbn. split_and!; lia || done.
    + destruct (Fm j x Hx) as (r & k & ? & ?). exists r, k. split; [rewrite Hr; set_solver|done].
  - rewrite Hr. apply Forall_app. split; [done|]. by apply Forall_singleton.
  - rewrite Hr. intros a b r1 r2 Ha Hb Hne.
    apply lookup_app_Some in Ha as [Ha|[La Ha]], Hb as [Hb|[Lb Hb]].
    + by eapply Ap.
    + apply list_lookup_singleton_Some in Hb as [_ <-]. apply Apart. by eapply list_elem_of_lookup_2.
    + apply list_lookup_singleton_Some in Ha as [_ <-].
      destruct (Apart r2 (list_elem_of_lookup_2 _ _ _ Hb)); [by right|by left].
    + apply list_lookup_singleton_Some in Ha as [? _], Hb as [? _]. lia.
Qed.
Lemma pm_add_region_spec :
  wp (pm_add_region first base length) (λ _ w, pm_ok w (fl ++ seq (first + u) (n - u)) ∧ phys w = phys w0 ∧
    regionlist w = regionlist w0 ++ [Region base cnt first] ∧ filled n u (pages w)) w0.
Proof.
  destruct used_bound as (B1 & B2 & B3 & B4). pose proof New as [Ok _ _ _ _ Hl Hf].
  destruct Ok as [Lk Li _ _ _ _ _ _ _ _].
  unfold pm_add_region. fold used. rewrite decide_False; [rewrite wrap64_small; unfold PAGE_SIZE in *; lia|].
  unfold buddy_acquire, buddy_release. wp_run. rewrite Lk. wp_run. m_simpl. fold cnt n u.
  set (w1 := m_stat _ _ _). eapply wp_mono; [apply (wp_forM_seq 0 n _ (λ i w, ∃ m, w = m_pages m w1 ∧ filled i 0 m))|].
  { exists (pages w0). split; [done|]. split; [lia|done|lia]. }
  { intros i w' Hi (m & -> & Hm). unfold st_page. wp_run. m_simpl. eexists. split; [done|]. by apply filled_step; [lia|]. }
  intros [] w2 (m2 & -> & Hm2). cbn [Nat.add] in Hm2. wp_run.
  eapply wp_mono; [apply (wp_forM_seq 0 u _ (λ k w, ∃ m, w = m_pages m w1 ∧ filled n k m))|].
  { by exists m2. }
  { intros i w' Hi (m & -> & Hm). unfold upd_page. wp_run. m_simpl. eexists. split; [apply Hm; lia|]. wp_run. m_simpl.
    eexists. split; [done|]. by apply internal_step; [lia|]. }
  intros [] w3 (m3 & -> & Hm3). cbn [Nat.add] in Hm3. wp_run.
  eapply wp_mono; [apply (wp_forM_seq u (n - u) _ (λ k w, ∃ lists,
    w = m_freelist lists (m_pages m3 w1) ∧ lists !! 0%nat = Some (fl ++ seq (first + u) (k - u))))|].
  { eexists. split; [done|]. m_simpl. by rewrite Nat.sub_diag app_nil_r. }
  { intros i w' Hi (ls & -> & Hls). unfold ld_page, freelist_insert. wp_run. m_simpl.
    eexists. split; [apply Hm3; lia|]. unfold new_page at 1. cbn [order]. wp_run. m_simpl.
    rewrite decide_True; [by eapply lookup_lt_Some|]. wp_run. m_simpl. eexists. split; [done|].
    rewrite list_lookup_alter_eq Hls. cbn [fmap option_fmap option_map]. f_equal. rewrite -app_assoc. f_equal.
    replace (S i - u)%nat with (S (i - u)) by lia. rewrite seq_S. do 2 f_equal. lia. }
  intros [] w4 (ls & -> & Hls). replace (u + (n - u) - u)%nat with (n - u)%nat in Hls by lia. wp_run. m_simpl.
  split_and!; try done. by eapply filled_ok.
Qed.
End add.

(** A region smaller than its own header passes the size check, because the
    subtraction wraps; the loop that marks the header's pages then leaves the array. *)
Lemma pm_add_region_small w first base length :
  0 ≤ length < PAGE_SIZE → buddy_lock w = false → pages w !! first = None →
  pm_add_region first base length w = Panic (NullDeref "page").
Proof.
  intros Hl Lk Hp. unfold pm_add_region. assert (region_used length = PAGE_SIZE) as ->.
  { unfold region_used, PAGE_ALIGN_UP, PAGE_SIZE in *. rewrite (wrap64_small (32 * length)); [lia|].
    assert (0 ≤ 32 * length / 4096 < 32) as Hq by (split; [apply Z.div_pos|apply Z.div_lt_upper_bound]; lia).
    set (q := 32 * length / 4096) in *. rewrite (wrap64_small (32 + q)); [lia|].
    change (4096 - 1) with (2 ^ 12 - 1). rewrite land_lnot_ones // (wrap64_small (_ - 1)); [lia|].
    rewrite -(Z.mod_unique_pos (32 + q + 4096 - 1) (2 ^ 12) 1 (31 + q)); [lia..|].
    rewrite wrap64_small; lia. }
  rewrite decide_False; [unfold wrap64, PAGE_SIZE in *; rewrite -(Z.mod_unique (length - 4096) (2 ^ 64) (-1) (length - 4096 + 2 ^ 64)); lia|].
  unfold buddy_acquire. apply bind_ends. wp_run. rewrite Lk. wp_run.
  rewrite (Z.div_small length PAGE_SIZE) //. do 2 (apply bind_ends; wp_run).
  m_simpl. change (Z.to_nat 0) with 0%nat. cbn [seq forM].
  apply bind_ends. wp_run. change (Z.to_nat (PAGE_SIZE / PAGE_SIZE)) with 1%nat. cbn [seq forM]. rewrite Nat.add_0_r.
  apply bind_panic, bind_panic. unfold upd_page, mbind, M_bind, get, deref. m_simpl. by rewrite Hp.
Qed.
