(* ===== verification/Paging.v ===== *)
(** * Page tables: [kernel/platform/amd64/vm.c], [kernel/boot/map.c]

    The four-level tables live in physical memory (the words of [phys]) and their frames
    come from the page frame allocator.  A pointer to a page table entry is the physical
    address of the entry. *)

From S2P Require Import Prelude Queue Pm.

(** ** Constants *)
Definition ptePresent : Z := 0x1.
Definition pteWrite : Z := 0x2.
Definition pteUser : Z := 0x4.
Definition ptePwt : Z := 0x8.
Definition ptePcd : Z := 0x10.
Definition ptePat : Z := 0x80.
Definition ptePagesize : Z := 0x80.
Definition pteGlobal : Z := 0x100.
Definition pteAddress : Z := 0x000FFFFFFFFFF000.
Definition pteNoExecute : Z := 0x8000000000000000.

Definition pteFlagCreateNew : Z := 1.
Definition pteFlag2MB : Z := 2.
Definition pteFlag1GB : Z := 4.

Definition kVmRead : Z := 1.
Definition kVmWrite : Z := 2.
Definition kVmExecute : Z := 4.
Definition kVmUser : Z := 8.
Definition kVmGlobal : Z := 16.
Definition kVmHuge : Z := 32.
Definition kVmHugeShift : Z := 26.
Definition kVmHuge2MB : Z := Z.lor (Z.shiftl 21 kVmHugeShift) kVmHuge.
Definition kVmHuge1GB : Z := Z.lor (Z.shiftl 30 kVmHugeShift) kVmHuge.
Definition kVmAll : Z := Z.lor kVmRead kVmWrite.

Inductive cachemode := kVmUncached | kVmWriteback | kVmWritethrough | kVmWritecombine.

Definition MiB (o : Z) : Z := wrap64 (2 ^ 20 * o).
Definition GiB (o : Z) : Z := wrap64 (2 ^ 30 * o).

(** What [cpuid] reported. *)
Record cpu_features := Features { gbpages : bool; nx : bool; pge : bool }.

Definition has (x bit : Z) : bool := bool_decide (Z.land x bit ≠ 0).
Definition INDEX (addr level : Z) : Z := Z.land (Z.shiftr addr (12 + 9 * level)) 0x1ff.

Definition ld64 (a : Z) : M mworld Z := gets (λ w, phys w a).
Definition write64 (a v : Z) (f : Z → Z) : Z → Z := λ b, if decide (b = a) then v else f b.
Definition st64 (a v : Z) : M mworld unit := modify (λ w, m_phys (write64 a v (phys w)) w).

Section paging.
Context (g_features : cpu_features).

(** One level of [pte_walk]: the table an entry points to, made on demand. *)
Definition next_table (entry flags : Z) : M mworld (option Z) :=
  e ← ld64 entry;
  if has e ptePresent then mret (Some (Z.land e pteAddress))
  else if negb (has flags pteFlagCreateNew) then mret None
  else
    page ← pm_allocate_zeroed kPageUseVm;
    x ← ld_page page;
    st64 entry (Z.lor (Z.lor (Z.lor (PG2P x) ptePresent) pteUser) pteWrite);;
    mret (Some (PG2P x)).

Definition pte_walk (cr3 vaddr flags : Z) : M mworld (option Z) :=
  pml3 ← next_table (cr3 + 8 * INDEX vaddr 3) flags;
  match pml3 with
  | None => mret None
  | Some pml3 =>
      if has flags pteFlag1GB then mret (Some (pml3 + 8 * INDEX vaddr 2)) else
      pml2 ← next_table (pml3 + 8 * INDEX vaddr 2) flags;
      match pml2 with
      | None => mret None
      | Some pml2 =>
          if has flags pteFlag2MB then mret (Some (pml2 + 8 * INDEX vaddr 1)) else
          pml1 ← next_table (pml2 + 8 * INDEX vaddr 1) flags;
          match pml1 with
          | None => mret None
          | Some pml1 => mret (Some (pml1 + 8 * INDEX vaddr 0))
          end
      end
  end.

Definition vm_port_unmap (cr3 vaddr flags : Z) : M mworld unit :=
  walk_flags ←
    (if has flags kVmHuge then
       let sz := Z.shiftr flags kVmHugeShift in
       if decide (sz = 12) then mret 0
       else if decide (sz = 21) then mret pteFlag2MB
       else if decide (sz = 30) then
         assertM (gbpages g_features) "g_features.gbpages";; mret pteFlag1GB
       else fail (AssertFail "invalid huge page size")
     else mret 0);
  pte ← pte_walk cr3 vaddr walk_flags;
  match pte with
  | None => mret tt
  | Some pte => e ← ld64 pte; st64 pte (Z.land e (Z.lnot (Z.lor ptePresent pteAddress)))
  end.

Definition cache_bits (cache : cachemode) : Z :=
  match cache with
  | kVmWritecombine => Z.lor (Z.lor ptePat ptePwt) ptePwt
  | kVmWritethrough => ptePwt
  | kVmWriteback => 0
  | kVmUncached => Z.lor ptePcd ptePwt
  end.
Definition when_bit (b : bool) (x : Z) : Z := if b then x else 0.

(** The entry [vm_port_map] writes; [huge] is [ptePagesize] or nothing. *)
Definition make_entry (huge paddr : Z) (cache : cachemode) (flags : Z) : Z :=
  let e := Z.lor huge (PAGE_ALIGN_DOWN paddr) in
  let e := Z.lor e (when_bit (has flags kVmUser) pteUser) in
  let e := Z.lor e (when_bit (has flags kVmWrite) pteWrite) in
  let e := Z.lor e (when_bit (has flags kVmRead) ptePresent) in
  let e := Z.lor e (when_bit (pge g_features && has flags kVmGlobal) pteGlobal) in
  let e := Z.lor e (when_bit (nx g_features && negb (has flags kVmExecute)) pteNoExecute) in
  Z.lor e (cache_bits cache).

(** The part after the huge-page cases. *)
Definition map_entry (cr3 paddr vaddr : Z) (cache : cachemode) (flags walk_flags huge : Z) : M mworld unit :=
  pte ← pte_walk cr3 vaddr walk_flags;
  pte ← deref "pte" pte;
  st64 pte (make_entry huge paddr cache flags).

(** The emulation of 1 GiB pages calls [vm_port_map] once more, for 2 MiB pages. *)
Fixpoint vm_port_map_rec (fuel : nat) (cr3 paddr vaddr : Z) (cache : cachemode) (flags : Z) : M mworld unit :=
  match fuel with
  | O => fail OutOfFuel
  | S fuel =>
      if has flags kVmHuge then
        let sz := Z.shiftr flags kVmHugeShift in
        if decide (sz = 21) then
          assertM (bool_decide (paddr mod MiB 2 = 0)) "(paddr.addr % MiB(2)) == 0";;
          map_entry cr3 paddr vaddr cache flags (Z.lor pteFlagCreateNew pteFlag2MB) ptePagesize
        else if decide (sz = 30) then
          assertM (bool_decide (paddr mod GiB 1 = 0)) "(paddr.addr % GiB(1)) == 0";;
          if gbpages g_features then
            map_entry cr3 paddr vaddr cache flags (Z.lor pteFlagCreateNew pteFlag1GB) ptePagesize
          else
            forM (seq 0 512) (λ i,
              vm_port_map_rec fuel cr3 (wrap64 (paddr + MiB 2 * Z.of_nat i)) (wrap64 (vaddr + MiB 2 * Z.of_nat i))
                cache (Z.lor (Z.land flags (Z.lnot kVmHuge1GB)) kVmHuge2MB))
        else fail (AssertFail "invalid huge page size")
      else map_entry cr3 paddr vaddr cache flags pteFlagCreateNew 0
  end.
Definition vm_port_map := vm_port_map_rec 2.

Definition vm_port_translate_paddr (cr3 vaddr : Z) : M mworld Z :=
  pte ← pte_walk cr3 vaddr 0;
  match pte with
  | None => mret (2 ^ 64 - 1)
  | Some pte => e ← ld64 pte; mret (Z.land e pteAddress)
  end.
Definition vm_port_translate (cr3 vaddr : Z) : M mworld (option nat) :=
  paddr ← vm_port_translate_paddr cr3 vaddr;
  if decide (paddr = 2 ^ 64 - 1) then mret None else pm_lookup paddr.

(** The new [cr3]. *)
Definition vm_port_init_map : M mworld Z :=
  page ← pm_allocate_zeroed kPageUseVm;
  x ← ld_page page;
  mret (PG2P x).

(** ** The direct map ([CONFIG_HHDM_HUGEPAGES] is [hugepages]) *)
Section hhdm.
Context (hugepages : bool) (hhdm kcr3 : Z) (cache : cachemode).
Definition map_hhdm (base flags : Z) : M mworld unit :=
  vm_port_map kcr3 base (wrap64 (hhdm + base)) cache flags.

Fixpoint remap_unaligned (fuel : nat) (base end_ : Z) : M mworld Z :=
  match fuel with
  | O => fail OutOfFuel
  | S fuel =>
      if decide (base < end_) then
        if hugepages && bool_decide (base mod MiB 2 = 0) then mret base
        else map_hhdm base (Z.lor kVmGlobal kVmAll);; remap_unaligned fuel (wrap64 (base + PAGE_SIZE)) end_
      else mret base
  end.
Fixpoint remap_huge (fuel : nat) (base end_ : Z) : M mworld Z :=
  match fuel with
  | O => fail OutOfFuel
  | S fuel =>
      if decide (base < end_) then
        if decide (base mod GiB 1 = 0 ∧ wrap64 (base + GiB 1) ≤ end_) then
          map_hhdm base (Z.lor (Z.lor kVmGlobal kVmAll) kVmHuge1GB);; remap_huge fuel (wrap64 (base + GiB 1)) end_
        else if decide (base mod MiB 2 = 0 ∧ wrap64 (base + MiB 2) ≤ end_) then
          map_hhdm base (Z.lor (Z.lor kVmGlobal kVmAll) kVmHuge2MB);; remap_huge fuel (wrap64 (base + MiB 2)) end_
        else
          map_hhdm base (Z.lor kVmGlobal kVmAll);; remap_huge fuel (wrap64 (base + PAGE_SIZE)) end_
      else mret base
  end.
Definition remap_memmap_entry (fuel : nat) (base length : Z) : M mworld unit :=
  let end_ := wrap64 (base + length) in
  base ← remap_unaligned fuel base end_;
  base ← (if hugepages then remap_huge fuel base end_ else mret base);
  assertM (bool_decide (base ≤ end_)) "base <= end".
End hhdm.
End paging.

(** ** The tables as a tree *)
Definition present (e : Z) : bool := has e ptePresent.
Definition huge (e : Z) : bool := has e ptePagesize.
Definition next (f : Z → Z) (t i : Z) : option Z :=
  let e := f (t + 8 * i) in if present e && negb (huge e) then Some (Z.land e pteAddress) else None.
(** The table at the end of a path of indices. *)
Definition tbl (f : Z → Z) (cr3 : Z) (path : list Z) : option Z :=
  foldl (λ o i, o ≫= λ t, next f t i) (Some cr3) path.
Definition index_ok (i : Z) : Prop := 0 ≤ i < 512.

Definition upper (va : Z) : list Z := [INDEX va 3; INDEX va 2; INDEX va 1].
(** The entry that maps the 4 KiB page of [va]. *)
Definition mapping (f : Z → Z) (cr3 va : Z) : option Z :=
  tbl f cr3 (upper va) ≫= λ t, let e := f (t + 8 * INDEX va 0) in if present e then Some e else None.
(** The page the processor finds for a path of four indices: an entry that maps 4 KiB
    ([n = 0]) or a huge page of [512 ^ n] times that size. *)
Definition path4 (va : Z) : list Z := upper va ++ [INDEX va 0].
Definition leaf_at (f : Z → Z) (cr3 : Z) (path : list Z) (n : nat) (e : Z) : Prop :=
  ∃ p i r t, path = p ++ i :: r ∧ tbl f cr3 p = Some t ∧ length r = n ∧ f (t + 8 * i) = e ∧ present e = true ∧
    (n = 0%nat ∨ huge e = true).
Definition path_ok (n : nat) (q : list Z) : Prop := (length q ≤ n)%nat ∧ Forall index_ok q.
Definition same_leaves (cr3 : Z) (f f' : Z → Z) : Prop :=
  ∀ q n e, length q = 4%nat → Forall index_ok q → leaf_at f' cr3 q n e ↔ leaf_at f cr3 q n e.
Definition same_page (va va' : Z) : Prop := upper va = upper va' ∧ INDEX va 0 = INDEX va' 0.
Lemma mapping_same_page f c p va : same_page p va → mapping f c p = mapping f c va.
Proof. intros [E1 E2]. unfold mapping. by rewrite E1 E2. Qed.

(** No huge page is in the way of a walk: the entries met on [path] are tables or not
    present. *)
Definition small_at (f : Z → Z) (t i : Z) : Prop := present (f (t + 8 * i)) = true → huge (f (t + 8 * i)) = false.
Definition clear (f : Z → Z) (cr3 : Z) (path : list Z) : Prop :=
  ∀ p i r t, path = p ++ i :: r → tbl f cr3 p = Some t → small_at f t i.

(** Every table is a frame of its own that the allocator handed out, paths are unique,
    and no huge page covers an address of [zone]. *)
Record pt_zone (zone : Z → Prop) (w : mworld) (fl : list nat) (cr3 : Z) : Prop := {
  pt_pm : pm_ok w fl;
  pt_phys : ∀ r, r ∈ regionlist w → region_end r ≤ 2 ^ 52;
  pt_frame : ∀ p t, (length p ≤ 3)%nat → Forall index_ok p → tbl (phys w) cr3 p = Some t →
    ∃ i x, pages w !! i = Some x ∧ usage x = kPageUseVm ∧ PG2P x = t;
  pt_inj : ∀ p q t, (length p ≤ 3)%nat → (length q ≤ 3)%nat → Forall index_ok p → Forall index_ok q →
    tbl (phys w) cr3 p = Some t → tbl (phys w) cr3 q = Some t → p = q;
  pt_clear : ∀ va, zone va → clear (phys w) cr3 (upper va);
}.
Arguments pt_pm {zone w fl cr3} _.
Arguments pt_phys {zone w fl cr3} _.
Arguments pt_frame {zone w fl cr3} _.
Arguments pt_inj {zone w fl cr3} _.
Arguments pt_clear {zone w fl cr3} _.
(** Page tables without huge pages. *)
Notation pt_ok := (pt_zone (λ _, True)).

Lemma INDEX_ok va l : index_ok (INDEX va l).
Proof. unfold index_ok, INDEX. change 0x1ff with (Z.ones 9). rewrite Z.land_ones //. apply Z.mod_pos_bound. lia. Qed.
Lemma upper_ok va : Forall index_ok (upper va).
Proof. unfold upper. repeat constructor; apply INDEX_ok. Qed.

Lemma tbl_snoc f cr3 p i : tbl f cr3 (p ++ [i]) = tbl f cr3 p ≫= λ t, next f t i.
Proof. unfold tbl. by rewrite foldl_app. Qed.
Lemma tbl_app_none f cr3 p q : tbl f cr3 p = None → tbl f cr3 (p ++ q) = None.
Proof.
  intros E. induction q as [|i q IH] using rev_ind; [by rewrite app_nil_r|]. by rewrite app_assoc tbl_snoc IH.
Qed.

(** Only the entries on a path matter. *)
Lemma tbl_ext f f' cr3 q :
  (∀ p i r t, q = p ++ i :: r → tbl f cr3 p = Some t → f' (t + 8 * i) = f (t + 8 * i)) → tbl f' cr3 q = tbl f cr3 q.
Proof.
  induction q as [|i q IH] using rev_ind; intros Hf; [done|]. rewrite !tbl_snoc IH.
  - intros p j r t Hq. apply (Hf p j (r ++ [i])). by rewrite Hq -app_assoc.
  - destruct (tbl f cr3 q) as [t|] eqn:E; [|done]. cbn. unfold next. by rewrite (Hf q i [] t).
Qed.

(** Leaves: the entry for a path is unique, and a path without a huge page is clear. *)
Lemma tbl_prefix f cr3 p i r t : tbl f cr3 (p ++ i :: r) = Some t →
  ∃ t0, tbl f cr3 p = Some t0 ∧ present (f (t0 + 8 * i)) = true ∧ huge (f (t0 + 8 * i)) = false.
Proof.
  intros Ht. destruct (tbl f cr3 (p ++ [i])) as [a|] eqn:Ea.
  - rewrite tbl_snoc in Ea. destruct (tbl f cr3 p) as [t0|]; [|done]. cbn in Ea. unfold next in Ea. exists t0.
    split; [done|]. by destruct (present _), (huge _).
  - replace (p ++ i :: r) with ((p ++ [i]) ++ r) in Ht by by rewrite -app_assoc. by rewrite tbl_app_none in Ht.
Qed.
Lemma app_cons_cases {A} (p1 p2 r1 r2 : list A) i1 i2 : p1 ++ i1 :: r1 = p2 ++ i2 :: r2 →
  (p1 = p2 ∧ i1 = i2 ∧ r1 = r2) ∨ (∃ s, p2 = p1 ++ i1 :: s) ∨ (∃ s, p1 = p2 ++ i2 :: s).
Proof.
  revert p2. induction p1 as [|x p1 IH]; intros [|y p2] E; injection E as -> E; subst; [by left|right; left; by eexists|right; right; by eexists|].
  destruct (IH _ E) as [(-> & -> & ->)|[[s ->]|[s ->]]]; [by left|right; left; eauto|right; right; eauto].
Qed.
Lemma leaf_at_above f cr3 p i r s n e t : length (p ++ i :: r) = 4%nat → tbl f cr3 p = Some t → f (t + 8 * i) = e →
  n = length r → present e = true → (n = 0%nat ∨ huge e = true) → tbl f cr3 (p ++ i :: s) = None ∨ (3 < length (p ++ i :: s))%nat.
Proof.
  intros L Ht He -> Hp [Hr|Hh].
  - right. rewrite !length_app /= in L |- *. lia.
  - left. destruct (tbl f cr3 (p ++ i :: s)) as [t'|] eqn:E; [|done]. destruct (tbl_prefix _ _ _ _ _ _ E) as (t0 & E0 & _ & H0). congruence.
Qed.
Lemma leaf_at_inj f cr3 q n e n' e' : length q = 4%nat → leaf_at f cr3 q n e → leaf_at f cr3 q n' e' → n = n' ∧ e = e'.
Proof.
  intros L (p & i & r & t & -> & Ht & Ln & He & Hp & Hh) (p' & i' & r' & t' & Eq & Ht' & Ln' & He' & Hp' & Hh').
  pose proof (f_equal length Eq) as EL. rewrite L length_app /= in EL.
  destruct (app_cons_cases _ _ _ _ _ _ Eq) as [(-> & -> & ->)|[[s ->]|[s ->]]].
  - simplify_eq. done.
  - destruct (leaf_at_above f cr3 p i r s n e t L Ht He (eq_sym Ln) Hp Hh) as [H0|H0]; [congruence|]. lia.
  - rewrite Eq in L. destruct (leaf_at_above f cr3 p' i' r' s n' e' t' L Ht' He' (eq_sym Ln') Hp' Hh') as [H0|H0]; [congruence|].
    rewrite -Eq length_app /= in L. lia.
Qed.
Lemma clear_no_huge f cr3 q i : length q = 3%nat → clear f cr3 q ↔ ∀ n e, leaf_at f cr3 (q ++ [i]) n e → n = 0%nat.
Proof.
  intros L. split.
  - intros Hc n e (p & j & r & t & Eq & Ht & Ln & He & Hp & [->|Hh]); [done|]. destruct n as [|n]; [done|exfalso].
    destruct r as [|k r] using rev_ind; [done|]. rewrite app_comm_cons app_assoc in Eq. apply app_inj_tail in Eq as [-> _].
    specialize (Hc p j r t eq_refl Ht). unfold small_at in Hc. rewrite He in Hc. by rewrite Hc in Hh.
  - intros Hl p j r t -> Ht Hp. destruct (huge _) eqn:Hh; [|done]. exfalso.
    assert (length (r ++ [i]) = 0%nat) as E; [|rewrite length_app in E; simpl in E; lia].
    apply (Hl _ (f (t + 8 * j))). exists p, j, (r ++ [i]), t. rewrite -app_assoc. split_and!; auto.
Qed.
Lemma mapping_leaf f cr3 va e : mapping f cr3 va = Some e ↔ leaf_at f cr3 (path4 va) 0 e.
Proof.
  unfold mapping, path4. split.
  - destruct (tbl f cr3 (upper va)) as [t|] eqn:Et; [|done]. cbn. destruct (present _) eqn:Hp; intros [= <-].
    exists (upper va), (INDEX va 0), [], t. split_and!; auto.
  - intros (p & i & r & t & Eq & Ht & Lr & He & Hp & _). destruct r; [|done]. apply app_inj_tail in Eq as [<- <-].
    rewrite Ht. cbn. by rewrite He Hp.
Qed.
Lemma mapping_leaves f f' cr3 va : (∀ e, leaf_at f' cr3 (path4 va) 0 e ↔ leaf_at f cr3 (path4 va) 0 e) →
  mapping f' cr3 va = mapping f cr3 va.
Proof. intros Hs. apply option_eq. intros e. by rewrite !mapping_leaf. Qed.

(** ** Entries *)
Lemma land_pteAddress a : 0 ≤ a < 2 ^ 52 → a mod PAGE_SIZE = 0 → Z.land a pteAddress = a.
Proof.
  intros Ha Hm. apply Z.mod_divide in Hm as [k ->]; [|done].
  change pteAddress with (Z.shiftl (Z.ones 40) 12). change PAGE_SIZE with (2 ^ 12) in *.
  rewrite -Z.shiftl_mul_pow2 // -Z.shiftl_land Z.land_ones // Z.mod_small //. lia.
Qed.
Lemma even_land a : a mod PAGE_SIZE = 0 → Z.land a ptePresent = 0.
Proof.
  intros Hm. apply Z.mod_divide in Hm as [k ->]; [|done]. unfold ptePresent. change 1 with (Z.ones 1).
  rewrite Z.land_ones //. unfold PAGE_SIZE. replace (k * 4096) with (k * 2048 * 2) by lia. apply Z.mod_mul. lia.
Qed.
(** The entry that points to a new table. *)
Definition table_entry (a : Z) : Z := Z.lor (Z.lor (Z.lor a ptePresent) pteUser) pteWrite.
Lemma low_land a k : a mod PAGE_SIZE = 0 → 0 ≤ k < 12 → Z.land a (2 ^ k) = 0.
Proof.
  intros Hm Hk. apply Z.mod_divide in Hm as [q ->]; [|done]. apply Z.bits_inj'. intros n Hn.
  rewrite Z.land_spec Z.bits_0 Z.pow2_bits_eqb; [lia|]. destruct (Z.eqb_spec k n) as [<-|]; [|apply andb_false_r].
  change PAGE_SIZE with (2 ^ 12). rewrite -Z.shiftl_mul_pow2 // Z.shiftl_spec_low //. lia.
Qed.
Lemma table_entry_small a : a mod PAGE_SIZE = 0 → huge (table_entry a) = false.
Proof.
  intros Hm. unfold table_entry, huge, has. apply bool_decide_eq_false. rewrite !Z.land_lor_distr_l.
  change ptePagesize with (2 ^ 7). rewrite low_land //. tauto.
Qed.
Lemma table_entry_next a : 0 ≤ a < 2 ^ 52 → a mod PAGE_SIZE = 0 →
  present (table_entry a) = true ∧ Z.land (table_entry a) pteAddress = a.
Proof.
  intros Ha Hm. unfold table_entry, present, has. rewrite bool_decide_eq_true !Z.land_lor_distr_l.
  split; [rewrite even_land //|]. rewrite land_pteAddress //. change (Z.land ptePresent pteAddress) with 0.
  change (Z.land pteUser pteAddress) with 0. change (Z.land pteWrite pteAddress) with 0. by rewrite !Z.lor_0_r.
Qed.

Lemma has_pow2 x k : 0 ≤ k → has x (2 ^ k) = Z.testbit x k.
Proof.
  intros Hk. unfold has. destruct (Z.testbit x k) eqn:E.
  - apply bool_decide_eq_true. intros H0. apply (f_equal (λ z, Z.testbit z k)) in H0.
    rewrite Z.land_spec Z.pow2_bits_true // E Z.bits_0 in H0. done.
  - apply bool_decide_eq_false. intros H0. apply H0. apply Z.bits_inj'. intros n Hn. rewrite Z.land_spec Z.bits_0 Z.pow2_bits_eqb //.
    destruct (Z.eqb_spec k n) as [<-|]; [by rewrite E|by rewrite andb_false_r].
Qed.
(** The address and presence of the entry [vm_port_map] writes for a 4 KiB page. *)
Lemma land_when b x m : Z.land x m = 0 → Z.land (when_bit b x) m = 0.
Proof. by destruct b. Qed.
Lemma make_entry_addr feat paddr cache flags : 0 ≤ paddr < 2 ^ 52 →
  Z.land (make_entry feat 0 paddr cache flags) pteAddress = PAGE_ALIGN_DOWN paddr.
Proof.
  intros Hp. unfold make_entry. rewrite !Z.land_lor_distr_l !land_when //.
  assert (Z.land (cache_bits cache) pteAddress = 0) as -> by by destruct cache.
  destruct (align_down_spec paddr PAGE_SIZE) as [A B]; [by exists 12|]. unfold align_down in *.
  rewrite (land_pteAddress (PAGE_ALIGN_DOWN paddr)); [unfold PAGE_ALIGN_DOWN; split; [apply Z.land_nonneg; lia|unfold PAGE_SIZE in *; lia]|done|].
  by rewrite Z.land_0_l !Z.lor_0_r Z.lor_0_l.
Qed.
Lemma make_entry_present feat paddr cache flags :
  present (make_entry feat 0 paddr cache flags) = has flags kVmRead.
Proof.
  unfold make_entry, present. unfold has at 1. rewrite !Z.land_lor_distr_l.
  destruct (align_down_spec paddr PAGE_SIZE) as [A _]; [by exists 12|]. unfold align_down in A.
  rewrite (even_land (PAGE_ALIGN_DOWN paddr)) //.
  rewrite (land_when _ pteUser) // (land_when _ pteWrite) // (land_when _ pteGlobal) // (land_when _ pteNoExecute) //.
  assert (Z.land (cache_bits cache) ptePresent = 0) as -> by by destruct cache.
  destruct (has flags kVmRead); done.
Qed.

(** ** Allocating a table *)
Lemma pm_allocate_zeroed_spec w fl i use : pm_ok w (i :: fl) → use ≠ kPageUseFree →
  wp (pm_allocate_zeroed use) (λ pg w', pg = i ∧ pm_ok w' fl ∧ regionlist w' = regionlist w ∧
    ∃ x, pages w !! i = Some x ∧ usage x = kPageUseFree ∧ pages w' = <[i := set_usage use x]> (pages w) ∧
         phys w' = zero_page (PG2P x) (phys w)) w.
Proof.
  intros Hok Hu. destruct (proj1 (po_free _ _ Hok i) (list_elem_of_here _ _)) as (x & Hx & Hf).
  unfold pm_allocate_zeroed, pm_allocate_n_zeroed. apply wp_bind.
  eapply wp_mono; [by apply pm_allocate_spec|]. intros pg w1 (-> & Ok1 & (S1 & S2 & S3) & y & Hy & Hp).
  simplify_eq. change (Z.to_nat 1) with 1%nat. cbn [seq forM]. rewrite Nat.add_0_r. unfold ld_page. wp_run.
  eexists. split; [rewrite Hp; apply lookup_insert_eq|]. wp_run. m_simpl. split_and!; try done.
  - destruct Ok1. by split.
  - exists x. split_and!; try done. by rewrite S2.
Qed.

Section walk.
Context (zone : Z → Prop) (cr3 : Z).

Lemma pt_page w fl p t : pt_zone zone w fl cr3 → (length p ≤ 3)%nat → Forall index_ok p → tbl (phys w) cr3 p = Some t →
  0 ≤ t < 2 ^ 52 ∧ t mod PAGE_SIZE = 0.
Proof.
  intros Ok Hp Hi Ht. destruct (pt_frame Ok p t Hp Hi Ht) as (i & x & Hx & _ & <-).
  pose proof (pt_pm Ok) as Pm. destruct (po_frame _ _ Pm i x Hx) as (r & k & Hr & F).
  pose proof (po_wf _ _ Pm) as Wf. rewrite Forall_forall in Wf. destruct (Wf r Hr) as (Hb & _).
  destruct (frame_addr r k i x (Wf r Hr) F) as (_ & A & B). pose proof (pt_phys Ok r Hr). lia.
Qed.

(** Entries of different tables are different words. *)
Lemma entry_apart t t' i j : t mod PAGE_SIZE = 0 → t' mod PAGE_SIZE = 0 → index_ok i → index_ok j →
  t + 8 * i = t' + 8 * j → t = t' ∧ i = j.
Proof.
  intros Ht Ht' Hi Hj E. unfold index_ok, PAGE_SIZE in *.
  assert (t = t') as <-; [|lia]. apply (multiples_close _ _ 4096); [lia|done|done|lia].
Qed.
Lemma entry_outside t a j : t mod PAGE_SIZE = 0 → a mod PAGE_SIZE = 0 → index_ok j → t ≠ a →
  ¬ (a ≤ t + 8 * j < a + PAGE_SIZE).
Proof.
  intros Ht Ha Hj Hne H. apply Hne. unfold index_ok, PAGE_SIZE in *. apply (multiples_close _ _ 4096); lia.
Qed.
End walk.

(** Hanging the zeroed frame [a] into entry [idx] of the table [t] at path [p]. *)
Section grow.
Context (zone : Z → Prop) (w : mworld) (fl : list nat) (cr3 : Z) (p : list Z) (t idx a : Z) (pg : nat) (x : page).
Context (Ok : pt_zone zone w fl cr3) (Lp : (length p ≤ 2)%nat) (Ip : Forall index_ok p) (Ii : index_ok idx).
Context (Ht : tbl (phys w) cr3 p = Some t) (Hnew : present (phys w (t + 8 * idx)) = false).
Context (Hx : pages w !! pg = Some x) (Hf : usage x = kPageUseFree) (Ha : PG2P x = a).
Let f := phys w.
Let f' := write64 (t + 8 * idx) (table_entry a) (zero_page a f).

Lemma grow_a : 0 ≤ a < 2 ^ 52 ∧ a mod PAGE_SIZE = 0.
Proof.
  pose proof (pt_pm Ok) as Pm. destruct (po_frame _ _ Pm pg x Hx) as (r & k & Hr & F).
  pose proof (po_wf _ _ Pm) as Wf. rewrite Forall_forall in Wf. destruct (Wf r Hr) as (Hb & _).
  destruct (frame_addr r k pg x (Wf r Hr) F) as (_ & A & B). pose proof (pt_phys Ok r Hr). rewrite -Ha. lia.
Qed.
Lemma grow_fresh q t' : (length q ≤ 3)%nat → Forall index_ok q → tbl f cr3 q = Some t' → t' ≠ a.
Proof.
  intros Hq Iq Et ->. destruct (pt_frame Ok q a Hq Iq Et) as (j & y & Hy & Hu & E).
  rewrite -Ha in E. pose proof (pm_frame_inj w fl j pg y x (pt_pm Ok) Hy Hx E) as ->.
  assert (y = x) as -> by congruence. by rewrite Hf in Hu.
Qed.
Lemma grow_other q t' j : (length q ≤ 3)%nat → Forall index_ok q → tbl f cr3 q = Some t' → index_ok j →
  t' ≠ t ∨ j ≠ idx → f' (t' + 8 * j) = f (t' + 8 * j).
Proof.
  intros Hq Iq Et Ij Hne. destruct (pt_page _ cr3 w fl q t' Ok Hq Iq Et) as [_ M1].
  destruct (pt_page _ cr3 w fl p t Ok ltac:(lia) Ip Ht) as [_ M2]. destruct grow_a as [_ M3].
  unfold f', write64, zero_page. rewrite decide_False.
  { intros E. destruct (entry_apart t' t j idx M1 M2 Ij Ii E). tauto. }
  rewrite decide_False //. apply entry_outside; try done. by eapply grow_fresh.
Qed.
Lemma grow_entry : next f' t idx = Some a.
Proof.
  destruct grow_a as [A1 A2]. destruct (table_entry_next a A1 A2) as [E1 E2].
  unfold next, f', write64. rewrite decide_True // E1 table_entry_small //. by rewrite E2.
Qed.
Lemma grow_zero j : index_ok j → f' (a + 8 * j) = 0.
Proof.
  intros Ij. destruct grow_a as [_ M1]. destruct (pt_page _ cr3 w fl p t Ok ltac:(lia) Ip Ht) as [_ M2].
  unfold f', write64, zero_page. rewrite decide_False.
  { intros E. destruct (entry_apart a t j idx M1 M2 Ij Ii E) as [E1 _]. by eapply (grow_fresh p t); [lia|..]. }
  rewrite decide_True //. unfold index_ok, PAGE_SIZE in *. lia.
Qed.
Lemma grow_none r : tbl f cr3 (p ++ idx :: r) = None.
Proof.
  replace (p ++ idx :: r) with ((p ++ [idx]) ++ r) by by rewrite -app_assoc.
  apply tbl_app_none. rewrite tbl_snoc. fold f in Ht. rewrite Ht. cbn. unfold next, f. by rewrite Hnew.
Qed.

(** Paths that do not pass through the new entry are as before. *)
Lemma grow_tbl_other q : (length q ≤ 3)%nat → Forall index_ok q → ¬ (p ++ [idx]) `prefix_of` q →
  tbl f' cr3 q = tbl f cr3 q.
Proof.
  intros Hq Iq Hpre. apply tbl_ext. intros q1 j r t' -> Et. apply Forall_app in Iq as [I1 [I2 I3]%Forall_cons].
  rewrite length_app in Hq. cbn in Hq. apply (grow_other q1 t' j); [lia|done..|].
  destruct (decide (t' = t)) as [->|]; [right|by left]. intros ->.
  pose proof (pt_inj Ok q1 p t ltac:(lia) ltac:(lia) I1 Ip Et Ht) as ->. apply Hpre. exists r. by rewrite -app_assoc.
Qed.
Lemma grow_tbl_path : tbl f' cr3 (p ++ [idx]) = Some a.
Proof.
  rewrite tbl_snoc grow_tbl_other; [lia|done| |fold f in Ht; rewrite Ht; apply grow_entry].
  intros Hpre%prefix_length. rewrite length_app in Hpre. cbn in Hpre. lia.
Qed.
Lemma grow_tbl_below j r : index_ok j → tbl f' cr3 (p ++ [idx] ++ j :: r) = None.
Proof.
  intros Ij. replace (p ++ [idx] ++ j :: r) with (((p ++ [idx]) ++ [j]) ++ r) by by rewrite -!app_assoc.
  apply tbl_app_none. rewrite tbl_snoc grow_tbl_path. cbn. unfold next. by rewrite grow_zero.
Qed.

Lemma grow_cases q t' : (length q ≤ 3)%nat → Forall index_ok q → tbl f' cr3 q = Some t' →
  (q = p ++ [idx] ∧ t' = a) ∨ tbl f cr3 q = Some t'.
Proof.
  intros Hq Iq Et. destruct (decide ((p ++ [idx]) `prefix_of` q)) as [[r ->]|Hpre].
  - left. destruct r as [|j r]; [rewrite app_nil_r grow_tbl_path in Et; rewrite app_nil_r; naive_solver|].
    apply Forall_app in Iq as [_ [Ij _]%Forall_cons]. rewrite -app_assoc grow_tbl_below // in Et.
  - right. by rewrite -grow_tbl_other.
Qed.

(** No page is added or lost. *)
Lemma grow_leaves : same_leaves cr3 f f'.
Proof.
  intros q n e Lq Iq. split; intros (q1 & j & r & t' & -> & Et & Lr & He & Hp & Hh);
    rewrite length_app /= in Lq; apply Forall_app in Iq as [I1 [I2 _]%Forall_cons];
    exists q1, j, r, t'; split_and!; try done.
  - destruct (grow_cases q1 t' ltac:(lia) I1 Et) as [[_ ->]|?]; [|done]. rewrite grow_zero // in He. by subst.
  - destruct (grow_cases q1 t' ltac:(lia) I1 Et) as [[_ ->]|Et0]; [rewrite grow_zero // in He; by subst|].
    rewrite -He. symmetry. apply (grow_other q1); [lia|done..|]. destruct (decide (t' = t)) as [->|]; [right|by left]. intros ->.
    pose proof (pt_inj Ok q1 p t ltac:(lia) ltac:(lia) I1 Ip Et0 Ht) as ->.
    assert (f' (t + 8 * idx) = table_entry a) as E by (unfold f', write64; by rewrite decide_True).
    rewrite E in He. destruct Hh as [->|Hh]; [lia|]. subst e. rewrite table_entry_small // in Hh. apply grow_a.
  - rewrite grow_tbl_other; [lia|done| |done]. intros [s Hs]. subst q1. rewrite -app_assoc /= grow_none in Et. done.
  - rewrite -He. apply (grow_other q1); [lia|done..|]. destruct (decide (t' = t)) as [->|]; [right|by left]. intros ->.
    subst e. by rewrite Hnew in Hp.
Qed.
Lemma grow_tbl q : path_ok 3 q → q ≠ p ++ [idx] → tbl f' cr3 q = tbl f cr3 q.
Proof.
  intros [Lq Iq] Hne. destruct (decide ((p ++ [idx]) `prefix_of` q)) as [[r ->]|Hpre]; [|by apply grow_tbl_other].
  destruct r as [|j r]; [by rewrite app_nil_r in Hne|]. apply Forall_app in Iq as [_ [Ij _]%Forall_cons].
  rewrite -!app_assoc grow_tbl_below //. cbn [app]. by rewrite grow_none.
Qed.

Lemma grow_small q t' j : (length q ≤ 3)%nat → Forall index_ok q → index_ok j → tbl f' cr3 q = Some t' →
  (tbl f cr3 q = Some t' → small_at f t' j) → small_at f' t' j.
Proof.
  intros Lq Iq Ij Et Hs Hp. apply (grow_cases q t' Lq Iq) in Et as [[_ ->]|Et]; [by rewrite grow_zero in Hp|].
  destruct (decide (t' = t ∧ j = idx)) as [[-> ->]|Hne].
  - unfold f', write64. rewrite decide_True //. apply table_entry_small, grow_a.
  - assert (f' (t' + 8 * j) = f (t' + 8 * j)) as E.
    { apply (grow_other q); [done..|]. destruct (decide (t' = t)); [right; tauto|by left]. }
    rewrite E in Hp |- *. by apply (Hs Et).
Qed.
Lemma grow_clear q : (length q ≤ 3)%nat → Forall index_ok q → clear f cr3 q → clear f' cr3 q.
Proof.
  intros Lq Iq Hc q1 j r t' -> Et. apply Forall_app in Iq as [I1 [I2 _]%Forall_cons]. rewrite length_app in Lq.
  apply (grow_small q1); [lia|done..|]. by apply (Hc q1 j r).
Qed.

Lemma grow_ok w' fl' use : pm_ok w' fl' → regionlist w' = regionlist w → use = kPageUseVm →
  pages w' = <[pg := set_usage use x]> (pages w) → phys w' = f' → pt_zone zone w' fl' cr3.
Proof.
  intros Pm' Er Hu Ep Ef. split; rewrite ?Ef; [done|rewrite Er; apply (pt_phys Ok)| | |].
  3:{ intros va Hz. apply grow_clear; [done|apply upper_ok|]. by apply (pt_clear Ok). }
  - intros q t' Hq Iq Et. apply (grow_cases q t' Hq Iq) in Et as [[_ ->]|Et].
    + exists pg, (set_usage use x). rewrite Ep lookup_insert_eq. by split_and!.
    + destruct (pt_frame Ok q t' Hq Iq Et) as (j & y & Hy & Hyu & E). exists j, y.
      rewrite Ep lookup_insert_ne; [|by split_and!]. intros <-. assert (y = x) as -> by congruence. by rewrite Hf in Hyu.
  - intros q1 q2 t' L1 L2 I1 I2 E1 E2. apply (grow_cases q1 t' L1 I1) in E1 as [[-> ->]|E1].
    + apply (grow_cases q2 a L2 I2) in E2 as [[-> _]|E2]; [done|]. by destruct (grow_fresh q2 a).
    + apply (grow_cases q2 t' L2 I2) in E2 as [[-> ->]|E2]; [by destruct (grow_fresh q1 a)|].
      by eapply (pt_inj Ok).
Qed.
End grow.

(** The frames the tables were made of: at most [n], from the front of the free list. *)
Definition took (n : nat) (w : mworld) (fl : list nat) (w' : mworld) (fl' : list nat) : Prop :=
  ∃ used, fl = used ++ fl' ∧ (length used ≤ n)%nat ∧ ∀ i, i ∉ used → pages w' !! i = pages w !! i.
Lemma took_none n w fl w' : pages w' = pages w → took n w fl w' fl.
Proof. intros E. exists []. split_and!; [done|cbn; lia|]. intros i _. by rewrite E. Qed.
Lemma took_trans n1 n2 w1 fl1 w2 fl2 w3 fl3 :
  took n1 w1 fl1 w2 fl2 → took n2 w2 fl2 w3 fl3 → took (n1 + n2) w1 fl1 w3 fl3.
Proof.
  intros (u1 & -> & L1 & P1) (u2 & -> & L2 & P2). exists (u1 ++ u2). rewrite app_assoc. split_and!; [done|rewrite length_app; lia|].
  intros i [H1 H2]%not_elem_of_app. by rewrite P2 // P1.
Qed.

(** ** One level of the walk *)
Section level.
Context (zone : Z → Prop) (cr3 : Z).

Lemma next_table_found w p t idx flags a :
  tbl (phys w) cr3 p = Some t → tbl (phys w) cr3 (p ++ [idx]) = Some a →
  wp (next_table (t + 8 * idx) flags) (λ r w', r = Some a ∧ w' = w) w.
Proof.
  intros Ht Ha. rewrite tbl_snoc Ht in Ha. cbn in Ha. unfold next in Ha. unfold next_table, ld64. wp_run.
  fold (present (phys w (t + 8 * idx))). by destruct (present _), (huge _).
Qed.
Lemma next_table_missing w p t idx flags :
  tbl (phys w) cr3 p = Some t → tbl (phys w) cr3 (p ++ [idx]) = None → small_at (phys w) t idx →
  has flags pteFlagCreateNew = false →
  wp (next_table (t + 8 * idx) flags) (λ r w', r = None ∧ w' = w) w.
Proof.
  intros Ht Ha Hs Hc. rewrite tbl_snoc Ht in Ha. cbn in Ha. unfold next in Ha. unfold next_table, ld64. wp_run.
  unfold small_at in Hs. fold (present (phys w (t + 8 * idx))). destruct (present _); [by rewrite Hs in Ha|]. rewrite Hc. cbn [negb]. by wp_run.
Qed.

(** With [pteFlagCreateNew] a table that is missing is made from the first free frame. *)
Definition missing (f : Z → Z) (q : list Z) : nat := match tbl f cr3 q with Some _ => 0 | None => 1 end.
Record grown (n : nat) (q : list Z) (w : mworld) (fl : list nat) (w' : mworld) (fl' : list nat) : Prop := {
  gr_ok : pt_zone zone w' fl' cr3;
  gr_leaves : same_leaves cr3 (phys w) (phys w');
  gr_tbl : ∀ r, path_ok 3 r → ¬ r `prefix_of` q → tbl (phys w') cr3 r = tbl (phys w) cr3 r;
  gr_len : length fl = (length fl' + n)%nat;
  gr_took : took n w fl w' fl';
}.
Lemma grown_refl q w fl : pt_zone zone w fl cr3 → grown 0 q w fl w fl.
Proof. intros Ok. split; [done|done|done|lia|by apply took_none]. Qed.
Lemma tables_grown_trans n1 n2 q1 q2 w1 fl1 w2 fl2 w3 fl3 : q1 `prefix_of` q2 →
  grown n1 q1 w1 fl1 w2 fl2 → grown n2 q2 w2 fl2 w3 fl3 → grown (n1 + n2) q2 w1 fl1 w3 fl3.
Proof.
  intros Hq [A1 A2 A3 A4 A5] [B1 B2 B3 B4 B5]. split; [done| | |lia|by eapply took_trans].
  - intros q n e Lq Iq. by rewrite B2 // A2.
  - intros r Hr Hne. rewrite B3 // A3 //. intros Hp. apply Hne. by etrans.
Qed.
Lemma clear_leaves f f' q : path_ok 3 q → same_leaves cr3 f f' → clear f cr3 q → clear f' cr3 q.
Proof.
  intros [Lq Iq] Hs Hc p i r t -> Ht Hp. destruct (huge _) eqn:Hh; [exfalso|done].
  rewrite length_app /= in Lq. apply Forall_app in Iq as [I1 [I2 _]%Forall_cons].
  set (pad := replicate (3 - length p) 0). assert (length pad = 3 - length p)%nat as Lp by apply length_replicate.
  assert (length (p ++ i :: pad) = 4%nat) as L4 by (rewrite length_app /= Lp; lia).
  assert (Forall index_ok (p ++ i :: pad)) as I4.
  { apply Forall_app; split; [done|]. apply Forall_cons; split; [done|]. by apply Forall_replicate. }
  destruct (proj1 (Hs (p ++ i :: pad) (length pad) (f' (t + 8 * i)) L4 I4)) as (p' & i' & r' & t' & Eq & Ht' & Lr & He & _).
  { exists p, i, pad, t. split_and!; auto. }
  pose proof (f_equal length Eq) as EL. rewrite !length_app /= in EL.
  apply app_inj_1 in Eq as [<- [= <- _]]; [|lia].
  pose proof (Hc p i r t' eq_refl Ht') as Hsm. unfold small_at in Hsm. rewrite He in Hsm. rewrite Hsm // in Hh.
Qed.
Lemma next_table_create w fl p t idx flags :
  pt_zone zone w fl cr3 → path_ok 2 p → index_ok idx → tbl (phys w) cr3 p = Some t →
  small_at (phys w) t idx → has flags pteFlagCreateNew = true → (missing (phys w) (p ++ [idx]) ≤ length fl)%nat →
  wp (next_table (t + 8 * idx) flags) (λ r w', ∃ a fl', r = Some a ∧
    grown (missing (phys w) (p ++ [idx])) (p ++ [idx]) w fl w' fl' ∧ tbl (phys w') cr3 (p ++ [idx]) = Some a) w.
Proof.
  intros Ok [Lp Ip] Ii Ht Hs Hc Hk. unfold missing in *. destruct (tbl (phys w) cr3 (p ++ [idx])) as [a|] eqn:Ha.
  - eapply wp_mono; [by eapply next_table_found|]. intros r w' [-> ->]. exists a, fl. split_and!; [done|by apply grown_refl|done].
  - assert (present (phys w (t + 8 * idx)) = false) as Hp.
    { rewrite tbl_snoc Ht in Ha. cbn in Ha. unfold next in Ha. unfold small_at in Hs.
      destruct (present _); [|done]. by rewrite Hs in Ha. }
    destruct fl as [|i fl]; [cbn in Hk; lia|]. unfold next_table, ld64. wp_run.
    fold (present (phys w (t + 8 * idx))). rewrite Hp Hc. cbn [negb]. wp_run.
    eapply wp_mono; [apply pm_allocate_zeroed_spec; [apply (pt_pm Ok)|done]|].
    intros r w1 (-> & Pm1 & Er & x & Hx & Hxf & Ep & Ef). unfold ld_page, st64. wp_run.
    eexists. split; [rewrite Ep; apply lookup_insert_eq|]. change (PG2P (set_usage kPageUseVm x)) with (PG2P x).
    fold (table_entry (PG2P x)). wp_run. exists (PG2P x), fl. m_simpl. rewrite Ef.
    split_and!; [done| |by eapply grow_tbl_path]. split; m_simpl; rewrite ?Ef.
    + eapply (grow_ok zone w (i :: fl) cr3 p t idx (PG2P x) i x) with (use := kPageUseVm); try done. destruct Pm1. by split.
    + by eapply grow_leaves.
    + intros q Hq Hne. eapply grow_tbl; try done. by intros ->.
    + cbn. lia.
    + exists [i]. split_and!; [done|cbn; lia|]. intros j Hj. m_simpl. rewrite Ep lookup_insert_ne //. set_solver.
Qed.
(** The same after some tables of the path were made. *)
Lemma next_table_grown n w0 fl0 w fl p t idx flags :
  grown n p w0 fl0 w fl → path_ok 2 p → index_ok idx → tbl (phys w) cr3 p = Some t → clear (phys w0) cr3 (p ++ [idx]) →
  has flags pteFlagCreateNew = true → (n + missing (phys w0) (p ++ [idx]) ≤ length fl0)%nat →
  wp (next_table (t + 8 * idx) flags) (λ r w', ∃ a fl', r = Some a ∧
    grown (n + missing (phys w0) (p ++ [idx])) (p ++ [idx]) w0 fl0 w' fl' ∧ tbl (phys w') cr3 (p ++ [idx]) = Some a) w.
Proof.
  intros G Hp Hi Ht Hcl Hc Hk. pose proof Hp as [Lp Ip].
  assert (path_ok 3 (p ++ [idx])) as Hpi.
  { split; [rewrite length_app /=; lia|]. apply Forall_app; split; [done|]. by constructor. }
  assert (missing (phys w) (p ++ [idx]) = missing (phys w0) (p ++ [idx])) as Em.
  { unfold missing. rewrite (gr_tbl _ _ _ _ _ _ G) //. intros Hpre%prefix_length. rewrite length_app /= in Hpre. lia. }
  rewrite -Em. pose proof (gr_len _ _ _ _ _ _ G). eapply wp_mono; [apply next_table_create; try done|].
  - by destruct G.
  - apply (clear_leaves _ _ _ Hpi (gr_leaves _ _ _ _ _ _ G) Hcl p idx []); done.
  - lia.
  - intros r w' (a & fl' & -> & G' & Ha). exists a, fl'. split_and!; [done| |done]. eapply tables_grown_trans; [|done|done]. by exists [idx].
Qed.
End level.

(** ** Walking and mapping 4 KiB pages *)
Section map.
Context (zone : Z → Prop) (feat : cpu_features) (cr3 : Z).

Ltac index_tac := first [apply INDEX_ok | split; cbn [app length]; [lia|repeat (apply Forall_cons; split; [apply INDEX_ok|]); by apply Forall_nil]].
Notation missing := (missing cr3).
(** Frames the tables on a path take. *)
Definition lacking (f : Z → Z) (q : list Z) : nat := sum_list_with (λ k, missing f (take k q)) (seq 1 (length q)).
Lemma clear_take f q k : clear f cr3 q → clear f cr3 (take k q).
Proof. intros Hc p i r t E. apply (Hc p i (r ++ drop k q)). rewrite -{1}(take_drop k q) E. by rewrite -app_assoc. Qed.

(** The walk makes the tables on its way; [n] is the level it stops at. *)
Definition walk_flag (n : nat) : Z := match n with 0%nat => 0 | 1%nat => pteFlag2MB | _ => pteFlag1GB end.
Definition walk_path (n : nat) (va : Z) : list Z := take (3 - n) (upper va).
Lemma walk_path_0 va : walk_path 0 va = upper va.
Proof. done. Qed.
Lemma walk_path_ok n va : path_ok 3 (walk_path n va).
Proof. split; [rewrite length_take; cbn; lia|]. apply Forall_take, upper_ok. Qed.
Lemma pte_walk_create n w fl va :
  pt_zone zone w fl cr3 → (n ≤ 2)%nat → clear (phys w) cr3 (walk_path n va) → (lacking (phys w) (walk_path n va) ≤ length fl)%nat →
  wp (pte_walk cr3 va (Z.lor pteFlagCreateNew (walk_flag n))) (λ r w', ∃ t fl', r = Some (t + 8 * INDEX va (Z.of_nat n)) ∧
    grown zone cr3 (lacking (phys w) (walk_path n va)) (walk_path n va) w fl w' fl' ∧
    tbl (phys w') cr3 (walk_path n va) = Some t) w.
Proof.
  intros Ok Hn Hc Hl. assert (∀ k, (k ≤ 3 - n)%nat → clear (phys w) cr3 (take k (upper va))) as Hct.
  { intros k Hk. replace (take k (upper va)) with (take k (walk_path n va)); [by apply clear_take|].
    unfold walk_path. rewrite take_take. f_equal. lia. }
  unfold pte_walk. apply wp_bind.
  assert (has (Z.lor pteFlagCreateNew (walk_flag n)) pteFlagCreateNew = true) as Hcr by by destruct n as [|[|]].
  assert (has (Z.lor pteFlagCreateNew (walk_flag n)) pteFlag1GB = bool_decide (n = 2)%nat) as H1 by by destruct n as [|[|[|]]]; [..|lia].
  assert (has (Z.lor pteFlagCreateNew (walk_flag n)) pteFlag2MB = bool_decide (n = 1)%nat) as H2 by by destruct n as [|[|[|]]]; [..|lia].
  rewrite H1 H2. unfold walk_path in *. unfold lacking in *.
  eapply wp_mono; [apply (next_table_grown zone cr3 0 w fl w fl [] cr3 (INDEX va 3)); try done; [by apply grown_refl|index_tac|index_tac|apply (Hct 1%nat); lia|]|].
  { destruct n as [|[|[|]]]; [..|lia]; cbn in *; lia. }
  intros r w1 (t3 & fl1 & -> & G1 & T1). destruct (decide (n = 2)%nat) as [->|N2].
  { rewrite bool_decide_true //. apply wp_ret. exists t3, fl1. split_and!; try done. cbn in *. by rewrite Nat.add_0_r. }
  rewrite bool_decide_false //. apply wp_bind.
  eapply wp_mono; [apply (next_table_grown zone cr3 _ w fl w1 fl1 _ t3 (INDEX va 2) _ G1); try done; [index_tac|index_tac|apply (Hct 2%nat); lia|]|].
  { destruct n as [|[|[|]]]; [..|lia|lia]; cbn in *; lia. }
  intros r w2 (t2 & fl2 & -> & G2 & T2). destruct (decide (n = 1)%nat) as [->|N1].
  { rewrite bool_decide_true //. apply wp_ret. exists t2, fl2. split_and!; try done. cbn in *. by rewrite Nat.add_0_r. }
  rewrite bool_decide_false //. destruct n as [|[|[|]]]; [|lia..]. apply wp_bind.
  eapply wp_mono; [apply (next_table_grown zone cr3 _ w fl w2 fl2 _ t2 (INDEX va 1) _ G2); try done; [index_tac|index_tac|]|].
  { cbn in *; lia. }
  intros r w3 (t1 & fl3 & -> & G3 & T3). apply wp_ret. exists t1, fl3. split_and!; try done. cbn in *.
  by rewrite Nat.add_0_r Nat.add_assoc.
Qed.

(** Without it, the walk ends where a table is missing. *)
Lemma pte_walk_lookup w va flags :
  clear (phys w) cr3 (upper va) → has flags pteFlagCreateNew = false → has flags pteFlag1GB = false → has flags pteFlag2MB = false →
  wp (pte_walk cr3 va flags) (λ r w', w' = w ∧
    r = (λ t, t + 8 * INDEX va 0) <$> tbl (phys w) cr3 (upper va)) w.
Proof.
  intros Hcl Hc H1 H2. unfold pte_walk. rewrite H1 H2. apply wp_bind. unfold upper in *.
  change [INDEX va 3; INDEX va 2; INDEX va 1] with ([INDEX va 3; INDEX va 2] ++ [INDEX va 1]).
  destruct (tbl (phys w) cr3 [INDEX va 3]) as [t3|] eqn:T3.
  2:{ eapply wp_mono; [apply (next_table_missing cr3 w [] cr3); try done; by apply (Hcl [] _ [INDEX va 2; INDEX va 1])|]. intros r w' [-> ->]. apply wp_ret.
      rewrite (tbl_app_none _ _ [INDEX va 3]); done. }
  eapply wp_mono; [by apply (next_table_found cr3 w [] cr3 _ _ t3)|]. intros r w' [-> ->]. apply wp_bind.
  destruct (tbl (phys w) cr3 [INDEX va 3; INDEX va 2]) as [t2|] eqn:T2.
  2:{ eapply wp_mono; [apply (next_table_missing cr3 w [INDEX va 3] t3); try done; by apply (Hcl [INDEX va 3] _ [INDEX va 1])|]. intros r w' [-> ->]. apply wp_ret.
      rewrite tbl_app_none; done. }
  eapply wp_mono; [by apply (next_table_found cr3 w [INDEX va 3] t3 _ _ t2)|]. intros r w' [-> ->]. apply wp_bind.
  destruct (tbl (phys w) cr3 ([INDEX va 3; INDEX va 2] ++ [INDEX va 1])) as [t1|] eqn:T1.
  2:{ eapply wp_mono; [apply (next_table_missing cr3 w [INDEX va 3; INDEX va 2] t2); try done; by apply (Hcl [INDEX va 3; INDEX va 2] _ [])|]. intros r w' [-> ->].
      by apply wp_ret. }
  eapply wp_mono; [by apply (next_table_found cr3 w [INDEX va 3; INDEX va 2] t2 _ _ t1)|]. intros r w' [-> ->].
  by apply wp_ret.
Qed.

(** Writing a leaf entry, at the last level or where no table hangs, changes what lies
    under it and nothing else. *)
Definition leaf_ok (f : Z → Z) (q : list Z) (idx e : Z) : Prop :=
  length q = 3%nat ∨ (tbl f cr3 (q ++ [idx]) = None ∧ huge e = true).
Section leaf_write.
Context (w : mworld) (fl : list nat) (q : list Z) (t idx e : Z) (Ok : pt_zone zone w fl cr3) (Hq : path_ok 3 q).
Context (Hi : index_ok idx) (Ht : tbl (phys w) cr3 q = Some t) (Hl : leaf_ok (phys w) q idx e).
Let f := write64 (t + 8 * idx) e (phys w).
Lemma write_other r t' j : path_ok 3 r → index_ok j → tbl (phys w) cr3 r = Some t' → r ≠ q ∨ j ≠ idx →
  f (t' + 8 * j) = phys w (t' + 8 * j).
Proof.
  intros [Lr Ir] Ij Et Hne. destruct Hq as [Lq Iq]. unfold f, write64. rewrite decide_False //. intros E.
  destruct (pt_page _ cr3 w fl r t' Ok Lr Ir Et) as [_ Mt']. destruct (pt_page _ cr3 w fl q t Ok Lq Iq Ht) as [_ Mt].
  destruct (entry_apart t' t j idx Mt' Mt Ij Hi E) as [-> ->].
  destruct Hne as [Hne|]; [|done]. apply Hne. by apply (pt_inj Ok r q t).
Qed.
Lemma write_here : f (t + 8 * idx) = e.
Proof. unfold f, write64. by rewrite decide_True. Qed.
Lemma write_tbl_other r : path_ok 3 r → ¬ (q ++ [idx]) `prefix_of` r → tbl f cr3 r = tbl (phys w) cr3 r.
Proof.
  intros [Lr Ir] Hpre. apply tbl_ext. intros p i s t' -> Et. apply Forall_app in Ir as [I1 [I2 _]%Forall_cons].
  rewrite length_app /= in Lr. apply (write_other p); [split; [lia|done]|done..|].
  destruct (decide (p = q)) as [->|]; [right|by left]. intros ->. apply Hpre. exists s. by rewrite -app_assoc.
Qed.
Lemma write_tbl r : path_ok 3 r → tbl f cr3 r = tbl (phys w) cr3 r.
Proof.
  intros Hr. destruct (decide ((q ++ [idx]) `prefix_of` r)) as [[s ->]|]; [|by apply write_tbl_other].
  destruct Hr as [Lr Ir]. rewrite !length_app /= in Lr. destruct Hl as [|[Hn Hh]]; [lia|].
  rewrite (tbl_app_none (phys w)) //. apply tbl_app_none. rewrite tbl_snoc write_tbl_other; [done| |].
  { intros Hpre%prefix_length. rewrite length_app /= in Hpre. lia. }
  rewrite Ht. cbn. unfold next. rewrite write_here Hh. by destruct (present e).
Qed.
Lemma write_leaves r n e' : length r = 4%nat → Forall index_ok r →
  leaf_at f cr3 r n e' ↔ if decide ((q ++ [idx]) `prefix_of` r) then n = (3 - length q)%nat ∧ e' = e ∧ present e = true
                         else leaf_at (phys w) cr3 r n e'.
Proof.
  intros Lr Ir. destruct Hq as [Lq Iq]. case_decide as Hpre.
  - destruct Hpre as [s ->]. rewrite -app_assoc /= in Lr Ir |- *. rewrite length_app /= in Lr.
    assert (present e = true → leaf_at f cr3 (q ++ idx :: s) (3 - length q) e) as Hleaf.
    { intros Hp. exists q, idx, s, t. split_and!; [done|by rewrite write_tbl|lia|apply write_here|done|].
      destruct Hl as [|[_ ?]]; [left; lia|by right]. }
    split; [|by intros (-> & -> & ?); apply Hleaf].
    intros (p & i & r & t' & Eq & Et & Ln & He & Hp & Hh). pose proof (f_equal length Eq) as EL. rewrite !length_app /= in EL.
    apply Forall_app in Ir as [Iq0 [_ Is]%Forall_cons].
    destruct (app_cons_cases _ _ _ _ _ _ Eq) as [(<- & <- & <-)|[[r' ->]|[r' E']]].
    + rewrite write_tbl // Ht in Et. injection Et as <-. rewrite write_here in He. subst e'. split_and!; [lia|done|done].
    + exfalso. rewrite length_app /= in EL. destruct Hl as [|[Hn Hh']]; [lia|].
      assert (path_ok 3 (q ++ idx :: r')) as Hok.
      { split; [rewrite length_app /=; lia|]. rewrite -app_assoc /= in Eq. apply app_inv_head in Eq as [= ->].
        apply Forall_app; split; [done|]. apply Forall_cons; split; [done|]. by apply Forall_app in Is as [? _]. }
      rewrite write_tbl // in Et. replace (q ++ idx :: r') with ((q ++ [idx]) ++ r') in Et by by rewrite -app_assoc.
      by rewrite tbl_app_none in Et.
    + exfalso. pose proof Ht as Ht0. rewrite E' in Ht0. destruct (tbl_prefix _ _ _ _ _ _ Ht0) as (t0 & E0 & P0 & H0).
      assert (path_ok 3 p) as Hok.
      { rewrite E' length_app /= in Lq. rewrite E' in Iq. apply Forall_app in Iq as [? _]. split; [lia|done]. }
      rewrite write_tbl // E0 in Et. injection Et as <-. rewrite E' length_app /= in EL.
      assert (index_ok i) by (rewrite E' in Iq; by apply Forall_app in Iq as [_ [? _]%Forall_cons]).
      assert (p ≠ q) by (intros ->; apply (f_equal length) in E'; rewrite length_app /= in E'; lia).
      rewrite (write_other p) in He; [done|done|done|by left|]. subst e'.
      destruct Hh as [->|Hh]; [|congruence]. rewrite E' length_app /= in Lq. lia.
  - split; intros (p & i & s & t' & -> & Et & Ln & He & Hp & Hh); rewrite length_app /= in Lr;
      apply Forall_app in Ir as [I1 [I2 _]%Forall_cons]; assert (path_ok 3 p) as Hok by (split; [lia|done]);
      exists p, i, s, t'; rewrite write_tbl // in Et |- *; split_and!; try done; rewrite -He;
      (symmetry + idtac); apply (write_other p); try done; (destruct (decide (p = q)) as [->|]; [right|by left]);
      intros ->; apply Hpre; exists s; by rewrite -app_assoc.
Qed.
Lemma write_ok (zone' : Z → Prop) : (∀ va, zone' va → zone va ∧ (length q = 3%nat ∨ ¬ (q ++ [idx]) `prefix_of` upper va)) →
  pt_zone zone' (m_phys f w) fl cr3.
Proof.
  intros Hz. destruct Ok as [Pm Ph Fr Inj Cl]. split; m_simpl; [destruct Pm; by split|done| | |].
  - intros p t' Lp Ip. rewrite write_tbl; [by split|]. by apply Fr.
  - intros p r t' Lp Lr Ip Ir. rewrite !write_tbl; [by split|by split|]. by apply Inj.
  - intros va [Hva Hn]%Hz. apply (clear_no_huge f cr3 (upper va) (INDEX va 0) eq_refl). fold (path4 va). intros n e' Hleaf.
    apply write_leaves in Hleaf; [|done|apply Forall_app; split; [apply upper_ok|repeat constructor; apply INDEX_ok]].
    case_decide as Hpre.
    + destruct Hleaf as (-> & _). destruct Hn as [->|Hn]; [done|]. destruct (decide (length q = 3%nat)) as [->|L3]; [done|].
      exfalso. apply Hn. destruct Hpre as [s Hs]. unfold path4 in Hs. destruct s as [|k s _] using rev_ind.
      * apply (f_equal length) in Hs. rewrite app_nil_r !length_app /= in Hs. lia.
      * exists s. rewrite app_assoc in Hs. by apply app_inj_tail in Hs as [-> _].
    + by apply (proj1 (clear_no_huge (phys w) cr3 (upper va) (INDEX va 0) eq_refl) (Cl va Hva) n e').
Qed.
End leaf_write.

(** [map_entry] at level [n]: the pages under the new entry, and no others, change. *)
Definition leaf_path (n : nat) (va : Z) : list Z := walk_path n va ++ [INDEX va (Z.of_nat n)].
Lemma leaf_path_0 va : leaf_path 0 va = path4 va.
Proof. done. Qed.
Lemma leaf_path_length n va : (n ≤ 2)%nat → length (leaf_path n va) = (4 - n)%nat.
Proof. intros Hn. unfold leaf_path, walk_path. rewrite length_app length_take /=. lia. Qed.
Lemma path4_ok va : length (path4 va) = 4%nat ∧ Forall index_ok (path4 va).
Proof. split; [done|]. apply Forall_app; split; [apply upper_ok|]. repeat constructor; apply INDEX_ok. Qed.
Lemma leaf_path_prefix n va : (n ≤ 2)%nat → leaf_path n va `prefix_of` path4 va.
Proof. intros Hn. destruct n as [|[|[|]]]; [..|lia]; by eexists. Qed.

Lemma map_entry_spec (zone' : Z → Prop) n w fl paddr va cache flags hg :
  let e := make_entry feat hg paddr cache flags in
  pt_zone zone w fl cr3 → (n ≤ 2)%nat → clear (phys w) cr3 (walk_path n va) → (lacking (phys w) (walk_path n va) ≤ length fl)%nat →
  n = 0%nat ∨ (tbl (phys w) cr3 (leaf_path n va) = None ∧ huge e = true) →
  (∀ va', zone' va' → zone va' ∧ (n = 0%nat ∨ ¬ leaf_path n va `prefix_of` upper va')) →
  wp (map_entry feat cr3 paddr va cache flags (Z.lor pteFlagCreateNew (walk_flag n)) hg) (λ _ w', ∃ fl', pt_zone zone' w' fl' cr3 ∧
    length fl = (length fl' + lacking (phys w) (walk_path n va))%nat ∧ took (lacking (phys w) (walk_path n va)) w fl w' fl' ∧
    (∃ t, tbl (phys w') cr3 (walk_path n va) = Some t ∧ phys w' (t + 8 * INDEX va (Z.of_nat n)) = e) ∧
    (∀ r, path_ok 3 r → ¬ r `prefix_of` walk_path n va → tbl (phys w') cr3 r = tbl (phys w) cr3 r) ∧
    (∀ r k e', length r = 4%nat → Forall index_ok r → leaf_at (phys w') cr3 r k e' ↔
       if decide (leaf_path n va `prefix_of` r) then k = n ∧ e' = e ∧ present e = true else leaf_at (phys w) cr3 r k e')) w.
Proof.
  intros e Ok Hn Hc Hl Hleaf Hz. unfold map_entry. apply wp_bind. eapply wp_mono; [by apply pte_walk_create|].
  intros r w1 (t & fl1 & -> & G & T1). unfold st64. wp_run. eexists. split; [done|]. wp_run. fold e.
  pose proof (walk_path_ok n va) as Hq. pose proof (INDEX_ok va (Z.of_nat n)) as Hi. pose proof (gr_ok _ _ _ _ _ _ _ _ G) as Ok1.
  assert (length (walk_path n va) = 3 - n)%nat as Lw by (unfold walk_path; rewrite length_take /=; lia).
  assert (leaf_ok (phys w1) (walk_path n va) (INDEX va (Z.of_nat n)) e) as Hlo.
  { destruct Hleaf as [->|[Hno Hh]]; [by left|]. destruct (decide (n = 0)%nat) as [->|]; [by left|]. right. split; [|done].
    rewrite (gr_tbl _ _ _ _ _ _ _ _ G); [| |done].
    - split; [rewrite length_app /= Lw; lia|]. apply Forall_app; split; [apply Hq|by constructor].
    - intros Hpre%prefix_length. rewrite length_app /= in Hpre. lia. }
  exists fl1. m_simpl. split_and!.
  - apply (write_ok w1 fl1 (walk_path n va) t _ e Ok1 Hq Hi T1 Hlo). intros va' [Hva [->|Hno]]%Hz; [by split; [|left]|].
    split; [done|by right].
  - apply G.
  - apply (gr_took _ _ _ _ _ _ _ _ G).
  - exists t. rewrite (write_tbl w1 fl1 _ t _ e Ok1 Hq Hi T1 Hlo) //. split; [done|apply write_here].
  - intros r Hr Hne. rewrite (write_tbl w1 fl1 _ t _ e Ok1 Hq Hi T1 Hlo) //. by apply G.
  - intros r k e' Lr Ir. rewrite (write_leaves w1 fl1 _ t _ e Ok1 Hq Hi T1 Hlo) // Lw.
    replace (3 - (3 - n))%nat with n by lia. unfold leaf_path. case_decide; [done|]. by apply (gr_leaves _ _ _ _ _ _ _ _ G).
Qed.

Lemma lacking_le f q : (lacking f q ≤ length q)%nat.
Proof.
  unfold lacking. assert (∀ l, sum_list_with (λ k, missing f (take k q)) l ≤ length l)%nat as H.
  { intros l. induction l as [|k l IH]; cbn; [lia|]. assert (missing f (take k q) ≤ 1)%nat; [|lia].
    unfold Paging.missing. destruct (tbl _ _ _); lia. }
  etrans; [apply H|]. by rewrite length_seq.
Qed.
Lemma prefix_same_length {A} (l1 l2 : list A) : length l1 = length l2 → l1 `prefix_of` l2 → l1 = l2.
Proof. intros L [s ->]. rewrite length_app in L. destruct s; [by rewrite app_nil_r|simpl in L; lia]. Qed.
Lemma vm_port_map_spec w fl paddr va cache flags :
  pt_zone zone w fl cr3 → zone va → (3 ≤ length fl)%nat → has flags kVmHuge = false →
  let e := make_entry feat 0 paddr cache flags in
  wp (vm_port_map feat cr3 paddr va cache flags) (λ _ w', ∃ fl', pt_zone zone w' fl' cr3 ∧
    mapping (phys w') cr3 va = (if present e then Some e else None) ∧
    (∃ t, tbl (phys w') cr3 (upper va) = Some t ∧ phys w' (t + 8 * INDEX va 0) = e) ∧
    (∀ va', ¬ same_page va va' → mapping (phys w') cr3 va' = mapping (phys w) cr3 va') ∧
    took 3 w fl w' fl') w.
Proof.
  intros Ok Hva Hl Hh e. unfold vm_port_map. cbn [vm_port_map_rec]. rewrite Hh. change pteFlagCreateNew with (Z.lor pteFlagCreateNew (walk_flag 0)).
  pose proof (lacking_le (phys w) (upper va)) as Hla. change (length (upper va)) with 3%nat in Hla.
  eapply wp_mono; [apply (map_entry_spec zone 0 w fl paddr va cache flags 0 Ok); [lia|by apply (pt_clear Ok)| |by left|]|].
  { rewrite walk_path_0. lia. }
  { intros va' Hz. split; [done|by left]. }
  intros [] w' (fl' & Ok' & L' & U' & T' & _ & Hleaf). fold e in T', Hleaf. exists fl'. rewrite walk_path_0 in L', U', T'. rewrite leaf_path_0 in Hleaf. destruct (path4_ok va) as [L4 I4].
  split_and!; [done| |done| |destruct U' as (u & E1 & E2 & E3); exists u; split_and!; [done|lia|done]].
  - apply option_eq. intros e'. rewrite mapping_leaf (Hleaf _ 0%nat e' L4 I4) decide_True; [by exists []; rewrite app_nil_r|].
    clear. destruct (present e); naive_solver.
  - intros va' Hne. apply mapping_leaves. intros e'. destruct (path4_ok va') as [L4' I4'].
    rewrite (Hleaf _ 0%nat e' L4' I4') decide_False; [|done].
    intros E%prefix_same_length; [|done]. apply Hne. unfold path4 in E. apply app_inj_tail in E as [E1 E2]. by split.
Qed.

(** Tables appear on the path of the page only. *)
Lemma vm_port_map_tables w fl paddr va cache flags :
  pt_zone zone w fl cr3 → zone va → (3 ≤ length fl)%nat → has flags kVmHuge = false →
  wp (vm_port_map feat cr3 paddr va cache flags) (λ _ w', ∀ r, path_ok 3 r → ¬ r `prefix_of` upper va →
    tbl (phys w') cr3 r = tbl (phys w) cr3 r) w.
Proof.
  intros Ok Hva Hl Hh. unfold vm_port_map. cbn [vm_port_map_rec]. rewrite Hh. change pteFlagCreateNew with (Z.lor pteFlagCreateNew (walk_flag 0)).
  pose proof (lacking_le (phys w) (upper va)) as Hla. change (length (upper va)) with 3%nat in Hla.
  eapply wp_mono; [apply (map_entry_spec zone 0 w fl paddr va cache flags 0 Ok); [lia|by apply (pt_clear Ok)| |by left|]|].
  - rewrite walk_path_0. lia.
  - intros va' Hz. split; [done|by left].
  - intros [] w' (fl' & _ & _ & _ & _ & T & _). exact T.
Qed.

Lemma vm_port_translate_spec w va : clear (phys w) cr3 (upper va) →
  wp (vm_port_translate_paddr cr3 va) (λ r w', w' = w ∧
    r = match tbl (phys w) cr3 (upper va) with
        | Some t => Z.land (phys w (t + 8 * INDEX va 0)) pteAddress
        | None => 2 ^ 64 - 1
        end) w.
Proof.
  intros Hc. unfold vm_port_translate_paddr. apply wp_bind. eapply wp_mono; [by apply pte_walk_lookup|].
  intros r w' [-> ->]. destruct (tbl (phys w) cr3 (upper va)) as [t|]; cbn; unfold ld64; by wp_run.
Qed.

(** Writing a last-level entry that maps nothing. *)
Lemma vm_port_unmap_spec w fl va :
  pt_zone zone w fl cr3 → zone va →
  wp (vm_port_unmap feat cr3 va 0) (λ _ w', pt_zone zone w' fl cr3 ∧ mapping (phys w') cr3 va = None ∧
    (∀ t, tbl (phys w) cr3 (upper va) = Some t → tbl (phys w') cr3 (upper va) = Some t ∧
       phys w' (t + 8 * INDEX va 0) =
       Z.land (phys w (t + 8 * INDEX va 0)) (Z.lnot (Z.lor ptePresent pteAddress))) ∧
    ∀ va', ¬ same_page va va' → mapping (phys w') cr3 va' = mapping (phys w) cr3 va') w.
Proof.
  intros Ok Hva. unfold vm_port_unmap. change (has 0 kVmHuge) with false. apply wp_bind, wp_ret, wp_bind.
  eapply wp_mono; [apply pte_walk_lookup; [by apply (pt_clear Ok)|done..]|]. intros r w' [-> ->].
  destruct (tbl (phys w) cr3 (upper va)) as [t|] eqn:Et; cbn [fmap option_fmap option_map]; unfold ld64, st64; wp_run.
  2:{ split_and!; try done. unfold mapping. by rewrite Et. }
  set (e := Z.land _ (Z.lnot _)). assert (present e = false) as He.
  { unfold present, has, e. apply bool_decide_eq_false. rewrite -Z.land_assoc.
    change (Z.land (Z.lnot (Z.lor ptePresent pteAddress)) ptePresent) with 0. rewrite Z.land_0_r. tauto. }
  assert (path_ok 3 (upper va)) as Hq by (split; [done|apply upper_ok]). pose proof (INDEX_ok va 0) as Hi.
  assert (leaf_ok (phys w) (upper va) (INDEX va 0) e) as Hlo by by left.
  destruct (path4_ok va) as [L4 I4]. split_and!; m_simpl.
  - apply (write_ok w fl _ t _ e Ok Hq Hi Et Hlo). intros va' Hz. split; [done|by left].
  - apply eq_None_not_Some. intros [e' H'%mapping_leaf]. apply (write_leaves w fl _ t _ e Ok Hq Hi Et Hlo) in H'; [|done..].
    rewrite decide_True in H'; [by exists []; rewrite app_nil_r|]. destruct H' as (_ & _ & ?). congruence.
  - intros t' [= <-]. rewrite (write_tbl w fl _ t _ e Ok Hq Hi Et Hlo) //. split; [done|apply write_here].
  - intros va' Hne. apply mapping_leaves. intros e'. destruct (path4_ok va') as [L4' I4'].
    rewrite (write_leaves w fl _ t _ e Ok Hq Hi Et Hlo); [done|done|]. rewrite decide_False; [|done].
    intros E%prefix_same_length; [|done]. apply Hne. unfold path4 in E. apply app_inj_tail in E as [E1 E2]. by split.
Qed.

(** A new map has an empty root table. *)
Lemma vm_port_init_map_spec w fl i :
  pm_ok w (i :: fl) → (∀ r, r ∈ regionlist w → region_end r ≤ 2 ^ 52) →
  wp vm_port_init_map (λ c w', pt_zone zone w' fl c ∧ (∀ q, q ≠ [] → Forall index_ok q → tbl (phys w') c q = None) ∧
    (∀ r n e, Forall index_ok r → ¬ leaf_at (phys w') c r n e) ∧ ∀ va, mapping (phys w') c va = None) w.
Proof.
  intros Ok Hr. unfold vm_port_init_map. apply wp_bind.
  eapply wp_mono; [by apply pm_allocate_zeroed_spec|]. intros r w1 (-> & Ok1 & Er & x & Hx & Hf & Ep & Ef).
  unfold ld_page. wp_run. eexists. split; [rewrite Ep; apply lookup_insert_eq|]. wp_run.
  change (PG2P (set_usage kPageUseVm x)) with (PG2P x).
  assert (∀ q, q ≠ [] → Forall index_ok q → tbl (phys w1) (PG2P x) q = None) as Hn.
  { intros [|j q]; [done|]. intros _ [Ij _]%Forall_cons. change (j :: q) with ([j] ++ q). apply tbl_app_none.
    cbn. unfold next. rewrite Ef /zero_page decide_True; [unfold index_ok, PAGE_SIZE in *; lia|done]. }
  assert (∀ j, index_ok j → phys w1 (PG2P x + 8 * j) = 0) as Hz.
  { intros j Hj. rewrite Ef /zero_page decide_True //. unfold index_ok, PAGE_SIZE in *. lia. }
  assert (∀ r n e, Forall index_ok r → ¬ leaf_at (phys w1) (PG2P x) r n e) as Hleaf.
  { intros r n e Ir (p & j & s & t & -> & Et & _ & He & Hp & _). apply Forall_app in Ir as [I1 [I2 _]%Forall_cons].
    destruct p as [|k p]; [|by rewrite Hn in Et]. injection Et as <-. rewrite Hz // in He. by subst. }
  split_and!; [|done|done|].
  - split; [done|by rewrite Er| | |].
    + intros p t _ Ip Ht. destruct p as [|j p]; [|by rewrite Hn in Ht]. injection Ht as <-.
      exists i, (set_usage kPageUseVm x). rewrite Ep lookup_insert_eq. by split_and!.
    + intros p q t _ _ Ip Iq Hp Hq. destruct p as [|j p]; [|by rewrite Hn in Hp].
      destruct q as [|k q]; [done|by rewrite Hn in Hq].
    + intros va _. apply (clear_no_huge _ _ (upper va) (INDEX va 0) eq_refl). intros n e He. by apply Hleaf in He; [|apply path4_ok].
  - intros va. unfold mapping. rewrite Hn //. apply upper_ok.
Qed.
End map.
