(* ===== verification/MemProps.v ===== *)
(** * Physical memory and page tables: properties *)

From S2P Require Import Prelude Queue Pm Paging.

(** ** A small memory: sixteen frames at 1 MiB, one of them for the region's header *)
Definition mem0 : mworld := MWorld [] (replicate BUDDY_ORDERS []) false 0 0 ∅ (λ _, 0).
Definition mem1 : mworld := state_of (pm_add_region 0 0x100000 0x10000) mem0.
Definition mem2 : mworld := state_of vm_port_init_map mem1.
Definition feat : cpu_features := Features false true true.

Lemma mem0_ok : pm_ok mem0 [].
Proof.
  split; try done.
  - apply NoDup_nil_2.
  - intros i. split; [by intros ?%elem_of_nil|]. intros (x & Hx & _). by rewrite lookup_empty in Hx.
Qed.
Lemma mem0_new : region_new mem0 [] 0 0x100000 0x10000.
Proof.
  split.
  - exact mem0_ok.
  - unfold region_wf. split_and!; vm_compute; congruence.
  - intros k _. apply lookup_empty.
  - by intros r ?%elem_of_nil.
  - vm_compute. congruence.
  - split; vm_compute; congruence.
  - vm_compute. congruence.
Qed.

(** ** The page frame allocator *)

(** C33: Adding a region makes exactly its pages known: those that hold the region's own
    [page_t] array are internal, the others go to the tail of the free list in address
    order; each page knows its frame number, and the statistics, the other pages and the
    allocator's invariant are kept. *)
Theorem pm_add_region_correct w fl first base length :
  region_new w fl first base length →
  let u := Z.to_nat (region_used length / PAGE_SIZE) in
  let n := Z.to_nat (length / PAGE_SIZE) in
  wp (pm_add_region first base length) (λ _ w',
    pm_ok w' (fl ++ seq (first + u) (n - u)) ∧ phys w' = phys w ∧
    regionlist w' = regionlist w ++ [Region base (length / PAGE_SIZE) first] ∧
    filled w first base n u (pages w')) w.
Proof. intros New. by apply pm_add_region_spec. Qed.

Lemma pm_add_region_correct_witness :
  wp (pm_add_region 0 0x100000 0x10000) (λ _ w', pm_ok w' (seq 1 15)) mem0.
Proof.
  eapply wp_mono; [apply (pm_add_region_correct mem0 [] 0 0x100000 0x10000 mem0_new)|].
  intros r w' (H1 & _). exact H1.
Defined.

Lemma mem1_ok : pm_ok mem1 (seq 1 15) ∧ (∀ r, r ∈ regionlist mem1 → region_end r ≤ 2 ^ 52).
Proof.
  pose proof (pm_add_region_spec mem0 [] 0 0x100000 0x10000 mem0_new) as Hwp.
  apply wp_state_of in Hwp as (_ & H1 & _ & H2 & _). split; [exact H1|]. intros r.
  change (regionlist mem1) with (regionlist (state_of (pm_add_region 0 0x100000 0x10000) mem0)). rewrite H2.
  intros ->%list_elem_of_singleton. vm_compute. congruence.
Qed.

(** C27: Every client run of [pm_allocate] and [pm_free] behaves like a first-in first-out
    queue of frames: it returns the pages the queue returns, never hands out a page that
    is held, keeps the invariant (so the pages held are distinct frames and the counters
    are exact) and touches neither memory nor the regions. *)
Theorem pm_refines_fifo ops w fl held fl' held' :
  pm_ok w fl → held_ok w held → fifo_client ops fl held = Some (fl', held') →
  wp (pm_client ops held) (λ r w', r = held' ∧ pm_ok w' fl' ∧ held_ok w' held' ∧ pm_same w w') w.
Proof. apply pm_client_spec. Qed.

Lemma pm_refines_fifo_witness :
  wp (pm_client [PmAlloc kPageUseVm; PmAlloc kPageUseWired; PmFree 1; PmAlloc kPageUseVm] [])
    (λ r w', r = [3; 2]%nat ∧ pm_ok w' (seq 4 12 ++ [1%nat])) mem1.
Proof.
  eapply wp_mono; [apply (pm_refines_fifo _ mem1 (seq 1 15) [] (seq 4 12 ++ [1%nat]) [3; 2]%nat)|].
  - exact (proj1 mem1_ok).
  - split; [apply NoDup_nil_2|by intros i ?%elem_of_nil].
  - vm_compute. reflexivity.
  - intros r w' (H1 & H2 & _). split; [exact H1|exact H2].
Defined.

(** [pm_lookup] inverts [PG2P]: any address inside a page's frame finds that page. *)
Theorem pm_lookup_inverts_PG2P w fl i x off :
  pm_ok w fl → pages w !! i = Some x → 0 ≤ off < PAGE_SIZE →
  wp (pm_lookup (PG2P x + off)) (λ r w', r = Some i ∧ w' = w) w.
Proof. apply pm_lookup_spec. Qed.

Lemma pm_lookup_inverts_PG2P_witness :
  wp (pm_lookup 0x105123) (λ r w', r = Some 5%nat) mem1.
Proof.
  eapply wp_mono; [apply (pm_lookup_inverts_PG2P mem1 (seq 1 15) 5 (Page 0x105 kPageUseFree 0) 0x123)|].
  - exact (proj1 mem1_ok).
  - vm_compute. reflexivity.
  - split; vm_compute; congruence.
  - intros r w' (H1 & _). exact H1.
Defined.

(** A region smaller than a page passes the size check of [pm_add_region], because
    the subtraction wraps around, and the routine then writes outside its page array. *)
Theorem pm_add_region_small_overruns w first base length :
  0 ≤ length < PAGE_SIZE → buddy_lock w = false → pages w !! first = None →
  pm_add_region first base length w = Panic (NullDeref "page").
Proof. apply pm_add_region_small. Qed.

Lemma pm_add_region_small_overruns_witness : pm_add_region 0 0x100000 0x400 mem0 = Panic (NullDeref "page").
Proof.
  apply pm_add_region_small_overruns.
  - split; vm_compute; congruence.
  - reflexivity.
  - reflexivity.
Defined.

(** ** Page tables *)

(** C8: Mapping a 4 KiB page: afterwards the page's entry is the one built from the
    arguments (present exactly when [kVmRead] is given), translating any address gives
    the entry's frame, every other page's mapping is what it was, and the tables still
    form a tree of frames of their own.  Three free frames suffice. *)
Theorem vm_port_map_translates zone feat cr3 w fl paddr va cache flags :
  pt_zone zone w fl cr3 → zone va → (3 ≤ length fl)%nat → has flags kVmHuge = false → 0 ≤ paddr < 2 ^ 52 →
  wp (vm_port_map feat cr3 paddr va cache flags) (λ _ w', (∃ fl', pt_zone zone w' fl' cr3) ∧
    mapping (phys w') cr3 va =
      (if has flags kVmRead then Some (make_entry feat 0 paddr cache flags) else None) ∧
    wp (vm_port_translate_paddr cr3 va) (λ r w'', r = PAGE_ALIGN_DOWN paddr ∧ w'' = w') w' ∧
    ∀ va', ¬ same_page va va' → mapping (phys w') cr3 va' = mapping (phys w) cr3 va') w.
Proof.
  intros Ok Hz Hl Hh Hp. eapply wp_mono; [by eapply (vm_port_map_spec zone)|].
  intros [] w' (fl' & Ok' & M & (t & T & E) & F & _). rewrite make_entry_present in M.
  split_and!; [by exists fl'|done| |done].
  eapply wp_mono; [apply vm_port_translate_spec; by apply (pt_clear Ok')|]. intros r w'' [-> ->]. rewrite T E. by rewrite make_entry_addr.
Qed.

Lemma mem2_ok : pt_ok mem2 (seq 2 14) 0x101000.
Proof.
  destruct mem1_ok as [H1 H2]. change (seq 1 15) with (1%nat :: seq 2 14) in H1.
  apply (wp_state_eq vm_port_init_map (λ c w', pt_ok w' (seq 2 14) c) mem1); [vm_compute; reflexivity|].
  eapply wp_mono; [apply (vm_port_init_map_spec (λ _, True) mem1 (seq 2 14) 1 H1 H2)|]. intros c w' [H _]. exact H.
Qed.

Lemma vm_port_map_translates_witness :
  wp (vm_port_map feat 0x101000 0x7000 0xffffe00000001000 kVmWriteback kVmAll)
    (λ _ w', wp (vm_port_translate_paddr 0x101000 0xffffe00000001000) (λ r _, r = 0x7000) w') mem2.
Proof.
  eapply wp_mono; [apply (vm_port_map_translates (λ _, True) feat 0x101000 mem2 (seq 2 14) 0x7000 0xffffe00000001000 kVmWriteback kVmAll)|].
  - exact mem2_ok.
  - done.
  - cbn. lia.
  - vm_compute. reflexivity.
  - split; vm_compute; congruence.
  - intros r w' (_ & _ & H1 & _). eapply wp_mono; [exact H1|]. intros r' w'' [H2 _]. exact H2.
Defined.

(** Unmapping a 4 KiB page removes its mapping and no other.  The translation of the
    page is then 0 when its table exists, not the -1 that stands for "not mapped". *)
Theorem vm_port_unmap_translates_to_zero zone feat cr3 w fl va :
  pt_zone zone w fl cr3 → zone va → is_Some (mapping (phys w) cr3 va) →
  wp (vm_port_unmap feat cr3 va 0) (λ _ w', pt_zone zone w' fl cr3 ∧ mapping (phys w') cr3 va = None ∧
    (∀ va', ¬ same_page va va' → mapping (phys w') cr3 va' = mapping (phys w) cr3 va') ∧
    wp (vm_port_translate_paddr cr3 va) (λ r _, r = 0) w') w.
Proof.
  intros Ok Hz [e He]. eapply wp_mono; [by apply (vm_port_unmap_spec zone)|]. intros [] w' (Ok' & M & T & F).
  split_and!; [done|done|done|]. eapply wp_mono; [apply vm_port_translate_spec; by apply (pt_clear Ok')|]. intros r w'' [_ ->].
  unfold mapping in He. destruct (tbl (phys w) cr3 (upper va)) as [t|] eqn:Et; [|done].
  destruct (T t eq_refl) as [-> ->]. rewrite -Z.land_assoc.
  change (Z.land (Z.lnot (Z.lor ptePresent pteAddress)) pteAddress) with 0. apply Z.land_0_r.
Qed.

Definition mem3 : mworld := state_of (vm_port_map feat 0x101000 0x7000 0xffffe00000001000 kVmWriteback kVmAll) mem2.
Lemma mem3_ok : ∃ fl, pt_ok mem3 fl 0x101000 ∧ is_Some (mapping (phys mem3) 0x101000 0xffffe00000001000).
Proof.
  pose proof (vm_port_map_spec _ feat 0x101000 mem2 (seq 2 14) 0x7000 0xffffe00000001000 kVmWriteback kVmAll mem2_ok
    I ltac:(cbn; lia) ltac:(vm_compute; reflexivity)) as (_ & fl & H1 & H2 & _)%wp_state_of.
  exists fl. split; [exact H1|]. unfold mem3. rewrite H2. vm_compute. eauto.
Qed.

Lemma vm_port_unmap_translates_to_zero_witness :
  wp (vm_port_unmap feat 0x101000 0xffffe00000001000 0)
    (λ _ w', wp (vm_port_translate_paddr 0x101000 0xffffe00000001000) (λ r _, r = 0) w') mem3.
Proof.
  destruct mem3_ok as (fl & H1 & H2).
  eapply wp_mono; [apply (vm_port_unmap_translates_to_zero (λ _, True) feat 0x101000 mem3 fl 0xffffe00000001000)|].
  - exact H1.
  - done.
  - exact H2.
  - intros r w' (_ & _ & _ & H3). exact H3.
Defined.

(** A write-combining huge page is mapped write-through: bit 7, the PAT bit of a
    4 KiB entry, is the page-size bit of a huge one and is set already. *)
Theorem huge_writecombine_is_writethrough feat paddr flags :
  make_entry feat ptePagesize paddr kVmWritecombine flags = make_entry feat ptePagesize paddr kVmWritethrough flags.
Proof.
  unfold make_entry. set (u := when_bit _ pteUser). generalize u. clear u. intros u. cbn [cache_bits].
  set (a := Z.lor _ (when_bit (nx feat && _) _)).
  assert (Z.lor a ptePat = a) as E.
  { unfold a. apply Z.bits_inj'. intros k Hk. rewrite !Z.lor_spec.
    destruct (decide (k = 7)) as [->|Hk7]; [by rewrite ?orb_true_r|].
    assert (Z.testbit ptePat k = false) as ->; [|by rewrite orb_false_r].
    unfold ptePat. change 0x80 with (2 ^ 7). apply Z.pow2_bits_false. lia. }
  by rewrite !Z.lor_assoc E -Z.lor_assoc Z.lor_diag.
Qed.
