(* ===== verification/Str.v ===== *)
(** * Bytes and strings: [kernel/lib/string.c]

    The portable string routines, on a memory of bytes.  A pointer is an address; the
    loops over a length recurse on it, the loops that run to a terminating zero take
    fuel, of which the length of the string is enough. *)

From S2P Require Import Prelude.

Definition bmem : Type := Z → Z.
Definition ldb (a : Z) : M bmem Z := gets (λ m, m a).
Definition write8 (a v : Z) (m : bmem) : bmem := λ b, if decide (b = a) then wrap8 v else m b.
Definition stb (a v : Z) : M bmem unit := modify (write8 a v).
Definition off (p : Z) (i : nat) : Z := p + Z.of_nat i.

(** ** Routines over a length *)
Definition memset (p c : Z) (n : nat) : M bmem Z :=
  forM (seq 0 n) (λ i, stb (off p i) c);; mret p.

Definition memcpy (dest src : Z) (n : nat) : M bmem Z :=
  forM (seq 0 n) (λ i, b ← ldb (off src i); stb (off dest i) b);; mret dest.

Fixpoint memcmp_loop (s1 s2 : Z) (n : nat) : M bmem Z :=
  match n with
  | O => mret 0
  | S n =>
      a ← ldb s1;
      b ← ldb s2;
      if decide (a ≠ b) then mret (if decide (a < b) then -1 else 1)
      else memcmp_loop (s1 + 1) (s2 + 1) n
  end.
Definition memcmp (s1 s2 : Z) (n : nat) : M bmem Z := memcmp_loop s1 s2 n.

(** The second loop counts down from [n]. *)
Fixpoint copy_down (dest src : Z) (i : nat) : M bmem unit :=
  match i with
  | O => mret tt
  | S i => b ← ldb (off src i); stb (off dest i) b;; copy_down dest src i
  end.
Definition memmove (dest src : Z) (n : nat) : M bmem Z :=
  (if decide (src > dest) then
     forM (seq 0 n) (λ i, b ← ldb (off src i); stb (off dest i) b)
   else if decide (src < dest) then copy_down dest src n
   else mret tt);;
  mret dest.

(** [while (n--) _s[n] = 0]. *)
Fixpoint bzero (s : Z) (n : nat) : M bmem unit :=
  match n with
  | O => mret tt
  | S n => stb (off s n) 0;; bzero s n
  end.

(** [while ( *src && len--)]: the length is only tested while the source goes on. *)
Fixpoint strncpy_loop (dest src : Z) (len : nat) : M bmem unit :=
  b ← ldb src;
  if decide (b ≠ 0) then
    match len with
    | O => mret tt
    | S len => stb dest b;; strncpy_loop (dest + 1) (src + 1) len
    end
  else mret tt.
Definition strncpy (dest src : Z) (len : nat) : M bmem Z :=
  strncpy_loop dest src len;; mret dest.

Fixpoint strncmp (s1 s2 : Z) (n : nat) : M bmem Z :=
  match n with
  | O => mret 0
  | S n' =>
      a ← ldb s1;
      b ← ldb s2;
      if decide (a ≠ 0 ∧ a = b) then strncmp (s1 + 1) (s2 + 1) n'
      else mret (a - b)
  end.

(** ** Routines that run to the terminating zero *)
Fixpoint strcmp (fuel : nat) (s1 s2 : Z) : M bmem Z :=
  match fuel with
  | O => fail OutOfFuel
  | S fuel =>
      a ← ldb s1;
      b ← ldb s2;
      if decide (a ≠ 0 ∧ a = b) then strcmp fuel (s1 + 1) (s2 + 1)
      else mret (a - b)
  end.

Fixpoint strcpy_loop (fuel : nat) (dest src : Z) : M bmem unit :=
  match fuel with
  | O => fail OutOfFuel
  | S fuel =>
      b ← ldb src;
      if decide (b ≠ 0) then stb dest b;; strcpy_loop fuel (dest + 1) (src + 1)
      else stb dest 0
  end.
Definition strcpy (fuel : nat) (dest src : Z) : M bmem Z :=
  if decide (dest = 0) then mret 0 else strcpy_loop fuel dest src;; mret dest.

Fixpoint strlen_loop (fuel : nat) (str : Z) (len : nat) : M bmem Z :=
  match fuel with
  | O => fail OutOfFuel
  | S fuel =>
      b ← ldb (off str len);
      if decide (b ≠ 0) then strlen_loop fuel str (S len) else mret (Z.of_nat len)
  end.
Definition strlen (fuel : nat) (str : Z) : M bmem Z := strlen_loop fuel str 0.

(** ** Memory as bytes *)
Definition byte_ok (m : bmem) : Prop := ∀ a, 0 ≤ m a < 256.
Lemma wrap8_byte m a : byte_ok m → wrap8 (m a) = m a.
Proof. intros Hb. apply Z.mod_small, Hb. Qed.
Lemma write8_ok m a v : byte_ok m → byte_ok (write8 a v m).
Proof. intros Hb b. unfold write8. case_decide; [apply Z.mod_pos_bound; lia|apply Hb]. Qed.

(** [n] bytes at [dest] replaced by those [f] gives. *)
Definition patch (dest : Z) (n : nat) (f : Z → Z) (m : bmem) : bmem :=
  λ a, if decide (dest ≤ a < dest + Z.of_nat n) then f (a - dest) else m a.

Section loops.
Context (m0 : bmem) (Hb : byte_ok m0).

(** Copying upwards reads each byte before it can be overwritten when the destination
    is below the source; copying downwards when it is above. *)
Lemma copy_up_spec dest src n : dest < src →
  wp (forM (seq 0 n) (λ i, b ← ldb (off src i); stb (off dest i) b))
    (λ _ m, ∀ a, m a = patch dest n (λ k, m0 (src + k)) m0 a) m0.
Proof.
  intros Hlt. apply (wp_forM_seq 0 n _ (λ i m, ∀ a, m a = patch dest i (λ k, m0 (src + k)) m0 a)).
  { intros a. unfold patch. rewrite decide_False //. lia. }
  intros i m Hi Hm. unfold ldb, stb. wp_run. intros a. unfold write8, patch, off in *.
  rewrite (Hm (src + Z.of_nat i)). rewrite (decide_False (P := dest ≤ src + Z.of_nat i < _)); [lia|].
  case_decide as Ha.
  - subst a. rewrite decide_True; [lia|]. rewrite wrap8_byte //. f_equal. lia.
  - rewrite Hm. destruct (decide (dest ≤ a < dest + Z.of_nat i)) as [H1|H1].
    + rewrite decide_True //. lia.
    + rewrite decide_False //. lia.
Qed.

Lemma copy_down_spec dest src n m : src < dest →
  (∀ a, a < dest + Z.of_nat n → m a = m0 a) →
  wp (copy_down dest src n) (λ _ m', ∀ a, m' a = patch dest n (λ k, m0 (src + k)) m a) m.
Proof.
  intros Hlt. revert m. induction n as [|n IH]; intros m Hm; cbn [copy_down].
  { wp_run. intros a. unfold patch. rewrite decide_False //. lia. }
  unfold ldb, stb. apply wp_bind, wp_gets, wp_bind, wp_modify. eapply wp_mono; [apply IH|].
  - intros a Ha. unfold write8, off. rewrite decide_False; [lia|]. apply Hm. lia.
  - intros [] m' H' a. rewrite H'. unfold patch, write8, off.
    destruct (decide (dest ≤ a < dest + Z.of_nat n)) as [H1|H1]; [rewrite decide_True //; lia|].
    case_decide as Ha.
    + subst a. rewrite decide_True; [lia|]. rewrite (Hm (src + Z.of_nat n)); [lia|].
      rewrite wrap8_byte //. f_equal. lia.
    + rewrite decide_False //. lia.
Qed.

Lemma memmove_spec dest src n :
  wp (memmove dest src n) (λ r m, r = dest ∧ ∀ a, m a = patch dest n (λ k, m0 (src + k)) m0 a) m0.
Proof.
  unfold memmove. apply wp_bind. destruct (decide (src > dest)) as [Hgt|Hgt].
  - eapply wp_mono; [apply copy_up_spec; lia|]. intros [] m Hm. by apply wp_ret.
  - destruct (decide (src < dest)) as [Hlt|Hlt].
    + eapply wp_mono; [by apply copy_down_spec|]. intros [] m Hm. by apply wp_ret.
    + wp_run. split; [done|]. intros a. unfold patch. assert (src = dest) as -> by lia.
      case_decide; [|done]. f_equal. lia.
Qed.

(** Buffers that do not overlap can be copied with [memcpy]. *)
Lemma memcpy_spec dest src n : dest + Z.of_nat n ≤ src ∨ src + Z.of_nat n ≤ dest →
  wp (memcpy dest src n) (λ r m, r = dest ∧ ∀ a, m a = patch dest n (λ k, m0 (src + k)) m0 a) m0.
Proof.
  intros Hd. unfold memcpy. apply wp_bind.
  eapply wp_mono; [apply (wp_forM_seq 0 n _ (λ i m, ∀ a, m a = patch dest i (λ k, m0 (src + k)) m0 a))|].
  - intros a. unfold patch. rewrite decide_False //. lia.
  - intros i m Hi Hm. unfold ldb, stb. wp_run. intros a. unfold write8, patch, off in *.
    rewrite (Hm (src + Z.of_nat i)). rewrite (decide_False (P := dest ≤ src + Z.of_nat i < _)); [lia|].
    case_decide as Ha.
    + subst a. rewrite decide_True; [lia|]. rewrite wrap8_byte //. f_equal. lia.
    + rewrite Hm. destruct (decide (dest ≤ a < dest + Z.of_nat i)) as [H1|H1];
        [rewrite decide_True //; lia|rewrite decide_False //; lia].
  - intros [] m Hm. by apply wp_ret.
Qed.
End loops.

Lemma memset_spec m0 p c n :
  wp (memset p c n) (λ r m, r = p ∧ ∀ a, m a = patch p n (λ _, wrap8 c) m0 a) m0.
Proof.
  unfold memset. apply wp_bind.
  eapply wp_mono; [apply (wp_forM_seq 0 n _ (λ i m, ∀ a, m a = patch p i (λ _, wrap8 c) m0 a))|].
  - intros a. unfold patch. rewrite decide_False //. lia.
  - intros i m Hi Hm. unfold stb. wp_run. intros a. unfold write8, off. case_decide as Ha.
    + subst a. unfold patch. rewrite decide_True //. lia.
    + rewrite Hm. unfold patch. destruct (decide (p ≤ a < p + Z.of_nat i)) as [H1|H1];
        [rewrite decide_True //; lia|rewrite decide_False //; lia].
  - intros [] m Hm. by apply wp_ret.
Qed.

Lemma bzero_spec m0 s n :
  wp (bzero s n) (λ _ m, ∀ a, m a = patch s n (λ _, 0) m0 a) m0.
Proof.
  revert m0. induction n as [|n IH]; intros m0; cbn [bzero].
  { wp_run. intros a. unfold patch. rewrite decide_False //. lia. }
  unfold stb. wp_run. eapply wp_mono; [apply IH|]. intros [] m Hm a. rewrite Hm. unfold patch, write8, off.
  destruct (decide (s ≤ a < s + Z.of_nat n)); [rewrite decide_True //; lia|]. case_decide as Ha.
  - subst a. rewrite decide_True //. lia.
  - rewrite decide_False //. lia.
Qed.

(** ** C strings *)
(** The string [s] (bytes other than zero) starts at [p]. *)
Fixpoint cstr (m : bmem) (p : Z) (s : list Z) : Prop :=
  match s with
  | [] => m p = 0
  | c :: s' => m p = c ∧ c ≠ 0 ∧ cstr m (p + 1) s'
  end.

Lemma cstr_ext m m' p s : cstr m p s → (∀ a, p ≤ a ≤ p + Z.of_nat (length s) → m' a = m a) → cstr m' p s.
Proof.
  revert p. induction s as [|c s IH]; intros p; simpl; intros Hs Hm; [rewrite Hm //; lia|].
  destruct Hs as (Hc & Hn & Hs). split_and!; [rewrite Hm //; lia|done|]. apply IH; [done|].
  intros a Ha. apply Hm. lia.
Qed.

Lemma strlen_spec m p s fuel : cstr m p s → (length s < fuel)%nat →
  wp (strlen fuel p) (λ r m', r = Z.of_nat (length s) ∧ m' = m) m.
Proof.
  unfold strlen. intros Hs Hf.
  assert (∀ k t, cstr m (off p k) t → (length t < fuel - k)%nat → (k ≤ fuel)%nat →
    wp (strlen_loop (fuel - k) p k) (λ r m', r = Z.of_nat (k + length t) ∧ m' = m) m) as H.
  { intros k t. revert k. induction t as [|c t IH]; intros k Hc Hl Hk; simpl in *;
      destruct (fuel - k)%nat as [|f] eqn:Ef; try lia; cbn [strlen_loop]; apply wp_bind, wp_gets.
    - rewrite Hc. destruct (decide (0 ≠ 0)); [done|]. wp_run. split; [f_equal; lia|done].
    - destruct Hc as (-> & Hn & Hc). rewrite decide_True //.
      replace f with (fuel - S k)%nat by lia. eapply wp_mono; [apply IH; [|lia|lia]|].
      + replace (off p (S k)) with (off p k + 1) by (unfold off; lia). done.
      + intros r m' [-> ->]. split; [f_equal; lia|done]. }
  specialize (H 0%nat s). rewrite Nat.sub_0_r in H. apply H; [|done|lia]. unfold off. by rewrite Z.add_0_r.
Qed.

(** The value [strcmp] computes, and that it orders strings. *)
Fixpoint str_diff (s1 s2 : list Z) : Z :=
  match s1, s2 with
  | [], [] => 0
  | [], b :: _ => - b
  | a :: _, [] => a
  | a :: s1', b :: s2' => if decide (a = b) then str_diff s1' s2' else a - b
  end.
Lemma strcmp_spec m p1 p2 s1 s2 fuel : cstr m p1 s1 → cstr m p2 s2 → (length s1 < fuel)%nat →
  wp (strcmp fuel p1 p2) (λ r m', r = str_diff s1 s2 ∧ m' = m) m.
Proof.
  revert p1 p2 s2 fuel. induction s1 as [|a s1 IH]; intros p1 p2 s2 fuel H1 H2 Hl;
    (destruct fuel as [|fuel]; [simpl in Hl; lia|]); cbn [strcmp]; apply wp_bind, wp_gets, wp_bind, wp_gets; simpl in H1.
  - rewrite H1. destruct (decide _) as [[? _]|_]; [done|]. wp_run. split; [|done]. destruct s2 as [|b s2]; simpl in *; [by rewrite H2|].
    destruct H2 as (-> & _). simpl. lia.
  - destruct H1 as (-> & Hn & H1). destruct s2 as [|b s2]; simpl in H2.
    + rewrite H2. destruct (decide _) as [[? ?]|_]; [done|]. wp_run. split; [simpl; lia|done].
    + destruct H2 as (-> & Hn2 & H2). simpl. case_decide as Hd.
      * destruct Hd as [_ ->]. rewrite decide_True //. apply IH; [done|done|simpl in Hl; lia].
      * rewrite decide_False; [tauto|]. by wp_run.
Qed.
Lemma str_diff_eq m p1 p2 s1 s2 : byte_ok m → cstr m p1 s1 → cstr m p2 s2 → str_diff s1 s2 = 0 ↔ s1 = s2.
Proof.
  intros Hb. revert p1 p2 s2. induction s1 as [|a s1 IH]; intros p1 p2 [|b s2] H1 H2; simpl in *; [done|..].
  - split; [lia|done].
  - split; [lia|done].
  - destruct H1 as (_ & _ & H1), H2 as (_ & _ & H2). case_decide as Hd.
    + subst b. rewrite (IH _ _ _ H1 H2). naive_solver.
    + split; [lia|naive_solver].
Qed.

Lemma strcpy_spec m dest src s fuel : byte_ok m → cstr m src s → (length s < fuel)%nat → dest ≠ 0 →
  (dest + Z.of_nat (length s) < src ∨ src + Z.of_nat (length s) < dest) →
  wp (strcpy fuel dest src) (λ r m', r = dest ∧ cstr m' dest s ∧
    ∀ a, ¬ (dest ≤ a ≤ dest + Z.of_nat (length s)) → m' a = m a) m.
Proof.
  intros Hb Hs Hf Hd Ho. unfold strcpy. rewrite decide_False //. apply wp_bind.
  enough (wp (strcpy_loop fuel dest src) (λ _ m', cstr m' dest s ∧
    ∀ a, ¬ (dest ≤ a ≤ dest + Z.of_nat (length s)) → m' a = m a) m) as H.
  { eapply wp_mono; [exact H|]. intros [] m' [? ?]. by apply wp_ret. }
  clear Hd. revert m dest src fuel Hb Hs Hf Ho.
  induction s as [|c s IH]; intros m dest src fuel Hb Hs Hf Ho; simpl in Hs, Hf, Ho; (destruct fuel as [|fuel]; [lia|]);
    cbn [strcpy_loop]; apply wp_bind, wp_gets; unfold stb.
  - rewrite Hs. destruct (decide (0 ≠ 0)); [done|]. apply wp_modify. simpl. unfold write8. split; [by rewrite decide_True|].
    intros a Ha. rewrite decide_False //. simpl in Ha. lia.
  - destruct Hs as (<- & Hn & Hs). rewrite decide_True //. wp_run.
    assert (wrap8 (m src) = m src) as Ew by by apply wrap8_byte.
    eapply wp_mono; [apply (IH _ (dest + 1) (src + 1)); [by apply write8_ok| |lia|lia]|].
    + eapply cstr_ext; [exact Hs|]. intros a Ha. unfold write8. rewrite decide_False //. lia.
    + intros [] m' [Hc Hout]. simpl. split.
      * split_and!; [|done|done]. rewrite Hout; [lia|]. unfold write8. rewrite decide_True //.
      * intros a Ha. rewrite Hout; [lia|]. unfold write8. rewrite decide_False //. lia.
Qed.

(** [strncpy] copies exactly [len] bytes of a longer source: it does not terminate the copy. *)
Lemma strncpy_spec m dest src len : byte_ok m →
  (∀ i, 0 ≤ i < Z.of_nat len → m (src + i) ≠ 0) →
  (dest + Z.of_nat len ≤ src ∨ src + Z.of_nat len ≤ dest) →
  wp (strncpy dest src len) (λ r m', r = dest ∧ ∀ a, m' a = patch dest len (λ k, m (src + k)) m a) m.
Proof.
  intros Hb Hn Ho. unfold strncpy. apply wp_bind.
  enough (wp (strncpy_loop dest src len) (λ _ m', ∀ a, m' a = patch dest len (λ k, m (src + k)) m a) m) as H.
  { eapply wp_mono; [exact H|]. intros [] m' Hm. by apply wp_ret. }
  revert m dest src Hb Hn Ho. induction len as [|len IH]; intros m dest src Hb Hn Ho; cbn [strncpy_loop];
    apply wp_bind, wp_gets.
  - destruct (decide (m src ≠ 0)); apply wp_ret; intros a; unfold patch; rewrite decide_False //; lia.
  - rewrite decide_True; [by rewrite -(Z.add_0_r src); apply Hn; lia|]. apply wp_bind, wp_modify.
    eapply wp_mono; [apply IH; [by apply write8_ok| |lia]|].
    + intros i Hi. unfold write8. rewrite decide_False; [lia|]. rewrite -Z.add_assoc. apply Hn. lia.
    + intros [] m' Hm a. rewrite Hm. unfold patch, write8.
      destruct (decide (dest + 1 ≤ a < dest + 1 + Z.of_nat len)) as [H1|H1].
      * rewrite decide_False; [lia|]. rewrite decide_True; [lia|]. f_equal. lia.
      * case_decide as Ha; [|rewrite decide_False //; lia]. subst a. rewrite decide_True; [lia|].
        rewrite wrap8_byte //. f_equal. lia.
Qed.

(** Comparison of two ranges: zero exactly when they agree. *)
Lemma memcmp_spec m s1 s2 n :
  wp (memcmp s1 s2 n) (λ r m', m' = m ∧ (r = 0 ↔ ∀ i, 0 ≤ i < Z.of_nat n → m (s1 + i) = m (s2 + i))) m.
Proof.
  unfold memcmp. revert s1 s2. induction n as [|n IH]; intros s1 s2; cbn [memcmp_loop].
  { apply wp_ret. split; [done|]. split; [intros _ i ?; lia|done]. }
  apply wp_bind, wp_gets, wp_bind, wp_gets. destruct (decide (m s1 ≠ m s2)) as [Hne|He].
  - apply wp_ret. split; [done|]. split.
    + by case_decide.
    + intros H. specialize (H 0). rewrite !Z.add_0_r in H. exfalso. apply Hne, H. lia.
  - eapply wp_mono; [apply IH|]. intros r m' [-> Hr]. split; [done|]. rewrite Hr. split.
    + intros H i Hi. destruct (decide (i = 0)) as [->|]; [rewrite !Z.add_0_r; by destruct (decide (m s1 = m s2))|].
      replace (s1 + i) with (s1 + 1 + (i - 1)) by lia. replace (s2 + i) with (s2 + 1 + (i - 1)) by lia. apply H. lia.
    + intros H i Hi. rewrite -!Z.add_assoc. apply H. lia.
Qed.

(** The text [t] lies at [p]. *)
Definition text_at (m : bmem) (p : Z) (t : list Z) : Prop :=
  ∀ i c, t !! i = Some c → m (p + Z.of_nat i) = c.
Lemma text_at_app m p t1 t2 :
  text_at m p (t1 ++ t2) ↔ text_at m p t1 ∧ text_at m (p + Z.of_nat (length t1)) t2.
Proof.
  split.
  - intros H. split; intros i c Hi.
    + apply H. by rewrite lookup_app_l //; eapply lookup_lt_Some.
    + rewrite -Z.add_assoc -Nat2Z.inj_add. apply H. rewrite lookup_app_r; [lia|]. by rewrite Nat.add_comm Nat.add_sub.
  - intros [H1 H2] i c [Hi|[Hl Hi]]%lookup_app_Some; [by apply H1|].
    specialize (H2 _ _ Hi). by replace (p + Z.of_nat (length t1) + Z.of_nat (i - length t1))
      with (p + Z.of_nat i) in H2 by lia.
Qed.
Lemma text_at_cons m p c t : text_at m p (c :: t) ↔ m p = c ∧ text_at m (p + 1) t.
Proof.
  rewrite (text_at_app m p [c] t). simpl. split; intros [H1 H2]; (split; [|done]).
  - rewrite -(H1 0%nat c) //. f_equal. lia.
  - intros [|i] c' Hi; simplify_eq/=. f_equal. lia.
Qed.
Lemma text_at_ext m m' p t : text_at m p t →
  (∀ a, p ≤ a < p + Z.of_nat (length t) → m' a = m a) → text_at m' p t.
Proof. intros H He i c Hi. rewrite He; [apply lookup_lt_Some in Hi; lia|by apply H]. Qed.
Lemma cstr_text m p s : cstr m p s ↔ text_at m p (s ++ [0]) ∧ Forall (λ c, c ≠ 0) s.
Proof.
  revert p. induction s as [|c s IH]; intros p; simpl.
  - rewrite text_at_cons. split; [|naive_solver]. intros H. split; [|done]. split; [done|]. intros ??. by rewrite lookup_nil.
  - rewrite text_at_cons Forall_cons IH. naive_solver.
Qed.
