(* ===== verification/Symbols.v ===== *)
(** * Kernel symbols: [kernel/lib/symbols.c]

    The list of kernel symbols, the parser of the map that [nm] writes, and the lookups;
    the stack walk of a panic, which uses them, is in [Messages].  Names are C strings in byte memory, built
    with the routines of [Str]; the blocks come from [kmalloc], of which the file uses
    only the contract below. *)

From S2P Require Import Prelude Str.

Record symbol_t := Symbol { symname : Z; sbase : Z }.
#[global] Instance symbol_eq_dec : EqDecision symbol_t.
Proof. solve_decision. Defined.

(** [symbol_list] and [symbol_offset], the byte memory, and the state [H] of the
    allocator. *)
Record symw (H : Type) := SymW {
  smem : bmem;
  symbol_list : list symbol_t;
  symbol_offset : Z;
  heap : H;
}.
Arguments SymW {H} _ _ _ _.
Arguments smem {H} _ _.
Arguments symbol_list {H} _.
Arguments symbol_offset {H} _.
Arguments heap {H} _.

(** ** What [kmalloc] promises

    [room s] bytes are left and a request of [n] takes [cost n] of them; [unused s a] says
    that no block holds the address [a].  The block returned was unused, is used from now
    on, and nothing that was in use is written. *)
Class KMalloc (H : Type) := {
  kmalloc : Z → M (symw H) Z;
  cost : Z → Z;
  room : symw H → Z;
  unused : symw H → Z → Prop;
}.
Definition block_from {H} `{KMalloc H} (n : Z) (s : symw H) (p : Z) (s' : symw H) : Prop :=
  0 < p ∧ p + n < 2 ^ 64 ∧ byte_ok (smem s') ∧
  (∀ a, p ≤ a < p + n → unused s a ∧ ¬ unused s' a) ∧
  (∀ a, unused s' a → unused s a) ∧
  (∀ a, ¬ unused s a → smem s' a = smem s a) ∧
  symbol_list s' = symbol_list s ∧ symbol_offset s' = symbol_offset s ∧
  room s' = room s - cost n.
Class KMallocOk (H : Type) `{KMalloc H} := {
  cost_nonneg n : 0 ≤ cost n;
  kmalloc_ok n s : 0 < n → cost n ≤ room s → byte_ok (smem s) → wp (kmalloc n) (block_from n s) s;
  unused_mem s m' l o a : unused (SymW m' l o (heap s)) a ↔ unused s a;
  room_mem s m' l o : room (SymW m' l o (heap s)) = room s;
}.

Section symbols.
Context {H : Type} `{KMalloc H}.
Implicit Types s : symw H.

(** A routine on the bytes alone. *)
Definition on_mem {A} (f : M bmem A) : M (symw H) A := λ s,
  match f (smem s) with
  | Ok (a, m) => Ok (a, SymW m (symbol_list s) (symbol_offset s) (heap s))
  | Panic e => Panic e
  end.

Definition symbols_init (offset : Z) : M (symw H) unit :=
  modify (λ s, SymW (smem s) (symbol_list s) offset (heap s)).
Definition symbols_offset : M (symw H) Z := gets symbol_offset.

Definition SYMBOL_SIZE : Z := 32.
(** The block's fields are the entry put on the list. *)
Definition symbols_insert (name address : Z) : M (symw H) unit :=
  symbol ← kmalloc SYMBOL_SIZE;
  on_mem (memset symbol 0 (Z.to_nat SYMBOL_SIZE));;
  modify (λ s, SymW (smem s) (symbol_list s ++ [Symbol name address]) (symbol_offset s) (heap s)).

(** [TAILQ_FOREACH] with the best match so far. *)
Fixpoint lookup_address_loop (address : Z) (l : list symbol_t) (best : option symbol_t) : option symbol_t :=
  match l with
  | [] => best
  | symbol :: l =>
      if decide (address > sbase symbol) then lookup_address_loop address l (Some symbol)
      else if decide (sbase symbol > address) then best
      else lookup_address_loop address l best
  end.
Definition symbols_lookup_address (address : Z) : M (symw H) (option symbol_t) :=
  gets (λ s, lookup_address_loop (wrap64 (address - symbol_offset s)) (symbol_list s) None).

Fixpoint lookup_name_loop (fuel : nat) (name : Z) (l : list symbol_t) : M (symw H) (option symbol_t) :=
  match l with
  | [] => mret None
  | symbol :: l =>
      r ← on_mem (strcmp fuel name (symname symbol));
      if decide (r = 0) then mret (Some symbol) else lookup_name_loop fuel name l
  end.
Definition symbols_lookup_name (fuel : nat) (name : Z) : M (symw H) (option symbol_t) :=
  l ← gets symbol_list;
  lookup_name_loop fuel name l.

Definition hex2int (c : Z) : Z :=
  if decide (48 ≤ c ∧ c ≤ 57) then c - 48
  else if decide (97 ≤ c ∧ c ≤ 102) then c - 97 + 10
  else 0.

(** [i] runs down from [len] while [j] runs up; shifting by 64 or more is undefined. *)
Fixpoint strtoaddr_loop (n : nat) (str i j addr : Z) : M bmem Z :=
  match n with
  | O => mret addr
  | S n =>
      c ← ldb (str + (i - 1));
      if decide (64 ≤ 4 * j) then fail (Undefined "1UL << 4 * j")
      else strtoaddr_loop n str (i - 1) (j + 1) (wrap64 (addr + hex2int c * Z.shiftl 1 (4 * j)))
  end.
Definition strtoaddr (str len : Z) : M bmem Z := strtoaddr_loop (Z.to_nat len) str len 0 0.

(** [(size_t)-1]. *)
Definition MINUS1 : Z := 2 ^ 64 - 1.

(** The end of a line: the name and the address are cut out and inserted. *)
Definition parse_line (line_start line_pos type_start name_start : Z) : M (symw H) unit :=
  let name_len := wrap64 (line_pos - name_start) in
  name ← kmalloc (wrap64 (name_len + 1));
  on_mem (stb (wrap64 (name + name_len)) 0);;
  on_mem (strncpy name (wrap64 (line_start + name_start)) (Z.to_nat name_len));;
  let addr_len := wrap64 (type_start - 1) in
  addr_str ← kmalloc (wrap64 (addr_len + 1));
  on_mem (stb (wrap64 (addr_str + addr_len)) 0);;
  on_mem (strncpy addr_str line_start (Z.to_nat addr_len));;
  addr ← on_mem (strtoaddr addr_str addr_len);
  symbols_insert name addr.

(** [n] is [size - pos]; the result is [symbol_cnt]. *)
Fixpoint parse_map_loop (n : nat) (buf pos line_start line_pos type_start name_start symbol_cnt : Z)
    : M (symw H) Z :=
  match n with
  | O => mret symbol_cnt
  | S n =>
      c ← on_mem (ldb (buf + pos));
      if decide (c = 10) then
        parse_line line_start line_pos type_start name_start;;
        parse_map_loop n buf (pos + 1) (buf + pos + 1) 0 MINUS1 MINUS1 (symbol_cnt + 1)
      else
        c' ← on_mem (ldb (line_start + line_pos));
        let '(type_start, name_start) :=
          if decide (c' = 32) then
            if decide (type_start = MINUS1) then (line_pos + 1, name_start)
            else (type_start, line_pos + 1)
          else (type_start, name_start) in
        parse_map_loop n buf (pos + 1) line_start (line_pos + 1) type_start name_start symbol_cnt
  end.
Definition symbols_parse_map (buf size : Z) : M (symw H) Z :=
  parse_map_loop (Z.to_nat size) buf 0 buf 0 MINUS1 MINUS1 0.

(** ** The modules of the boot loader, [consume_modules] of [limine-generic/entry.c]

    [symbols_str] is the address of the literal the command lines are compared with. *)
Record limine_file := LimineFile { f_address : Z; f_size : Z; f_cmdline : Z }.
Definition consume_modules (fuel : nat) (symbols_str : Z) (modules : list limine_file) : M (symw H) unit :=
  forM modules (λ module,
    r ← on_mem (strcmp fuel symbols_str (f_cmdline module));
    if decide (r = 0) then _ ← symbols_parse_map (f_address module) (f_size module); mret tt else mret tt).

End symbols.

(** ** An allocator that keeps the promise: the bump arena of [symbols.c]

    [heap] is [bump_pos]; the arena is 64 pages from [ARENA]. *)
Definition ARENA : Z := 2 ^ 32.
Definition ARENA_SIZE : Z := 4096 * 64.
Definition bump_alloc (size : Z) : M (symw N) Z :=
  let size := align_up size 8 in
  s ← get;
  let bump_pos := Z.of_N (heap s) in
  if decide (bump_pos + size ≤ ARENA_SIZE) then
    put (SymW (smem s) (symbol_list s) (symbol_offset s) (Z.to_N (bump_pos + size)));;
    mret (ARENA + bump_pos)
  else fail (OutOfBounds "bump_arena").
#[global] Instance bump_kmalloc : KMalloc N := {|
  kmalloc := bump_alloc;
  cost n := Z.max 0 (align_up n 8);
  room s := ARENA_SIZE - Z.of_N (heap s);
  unused s a := ARENA + Z.of_N (heap s) ≤ a < ARENA + ARENA_SIZE;
|}.
#[global] Instance bump_kmalloc_ok : KMallocOk N.
Proof.
  split; [simpl; lia| |done|done]. intros n s Hn Hc Hb. simpl in *.
  destruct (align_up_spec n 8 ltac:(by exists 3)) as [_ Hu]. unfold bump_alloc, block_from.
  apply wp_bind, wp_get. simpl. unfold ARENA_SIZE in *. rewrite decide_True; [lia|].
  apply wp_bind, wp_put, wp_ret. simpl. unfold ARENA, ARENA_SIZE in *. split_and!; try done; try lia; intros; lia.
Qed.

(** ** Hexadecimal digits, as [nm] prints them *)
Definition digit (d : Z) : Z := if decide (d < 10) then 48 + d else 87 + d.
Definition digit_ok (d : Z) : Prop := 0 ≤ d < 16.
(** The number with digits [ds], the most significant first. *)
Definition hex_value (ds : list Z) : Z := foldl (λ v d, 16 * v + d) 0 ds.

Lemma hex2int_digit d : digit_ok d → hex2int (digit d) = d.
Proof. unfold digit_ok, hex2int, digit. intros Hd. repeat case_decide; lia. Qed.
Lemma hex_value_snoc ds d : hex_value (ds ++ [d]) = 16 * hex_value ds + d.
Proof. unfold hex_value. by rewrite foldl_snoc. Qed.
Lemma hex_value_bound ds : Forall digit_ok ds → 0 ≤ hex_value ds < 16 ^ Z.of_nat (length ds).
Proof.
  induction ds as [|d ds IH] using rev_ind; [done|]. intros [Hds Hd]%Forall_app. apply Forall_cons_1 in Hd as [Hd _].
  rewrite hex_value_snoc length_app Nat2Z.inj_add Z.pow_add_r; [lia|lia|]. specialize (IH Hds). unfold digit_ok in Hd.
  change (16 ^ Z.of_nat (length [d])) with 16. nia.
Qed.

(** The digits [pre] still to be read, those of [post] already summed up. *)
Lemma strtoaddr_loop_spec m str pre : ∀ post, text_at m str (digit <$> pre) → Forall digit_ok (pre ++ post) →
  (length (pre ++ post) ≤ 16)%nat →
  wp (strtoaddr_loop (length pre) str (Z.of_nat (length pre)) (Z.of_nat (length post)) (hex_value post))
    (λ r m', r = hex_value (pre ++ post) ∧ m' = m) m.
Proof.
  induction pre as [|d pre IH] using rev_ind; intros post Ht Hf Hl; [by apply wp_ret|].
  rewrite length_app /= Nat.add_1_r. cbn [strtoaddr_loop]. apply wp_bind, wp_gets.
  rewrite fmap_app text_at_app in Ht. destruct Ht as [Ht Hd]. rewrite length_fmap in Hd.
  apply text_at_cons in Hd as [Hd _].
  rewrite !length_app /= in Hl. rewrite decide_False; [lia|].
  replace (str + (Z.of_nat (S (length pre)) - 1)) with (str + Z.of_nat (length pre)) by lia. rewrite Hd.
  rewrite -app_assoc in Hf. assert (Hf' := Hf). apply Forall_app in Hf' as [_ Hf']. apply Forall_cons in Hf' as [Hdo Hp].
  rewrite hex2int_digit //.
  assert (wrap64 (hex_value post + d * Z.shiftl 1 (4 * Z.of_nat (length post))) = hex_value (d :: post)) as ->.
  { rewrite Z.shiftl_1_l. replace (2 ^ (4 * Z.of_nat (length post))) with (16 ^ Z.of_nat (length post))
      by (rewrite (Z.pow_mul_r 2 4); lia || done).
    assert (hex_value (d :: post) = hex_value post + d * 16 ^ Z.of_nat (length post)) as E.
    { clear. induction post as [|c post IH] using rev_ind; [cbn; lia|].
      change (d :: post ++ [c]) with ((d :: post) ++ [c]). rewrite !hex_value_snoc IH length_app Nat2Z.inj_add Z.pow_add_r; [lia|lia|].
      change (16 ^ Z.of_nat (length [c])) with 16. lia. }
    rewrite -E. apply wrap64_small. pose proof (hex_value_bound (d :: post)) as B. specialize (B ltac:(by constructor)).
    enough (16 ^ Z.of_nat (length (d :: post)) ≤ 2 ^ 64) by lia.
    change (2 ^ 64) with (16 ^ 16). apply Z.pow_le_mono_r; [lia|]. simpl. lia. }
  replace (Z.of_nat (S (length pre)) - 1) with (Z.of_nat (length pre)) by lia.
  replace (Z.of_nat (length post) + 1) with (Z.of_nat (length (d :: post))) by (simpl; lia).
  rewrite -app_assoc. apply (IH (d :: post)); [done|done|]. rewrite length_app /=. lia.
Qed.

(** ** Running on the bytes *)
Section proofs.
Context {H : Type} `{KMallocOk H}.
Implicit Types s : symw H.

Lemma wp_on_mem {A} (f : M bmem A) Q s :
  wp f (λ a m, Q a (SymW m (symbol_list s) (symbol_offset s) (heap s))) (smem s) → wp (on_mem f) Q s.
Proof. rewrite /wp /on_mem. by destruct (f (smem s)) as [[a m]|]. Qed.


(** ** What the parser leaves alone

    Memory in use keeps its contents and stays in use. *)
Definition keeps s s' : Prop :=
  byte_ok (smem s') ∧ (∀ a, unused s' a → unused s a) ∧
  (∀ a, ¬ unused s a → smem s' a = smem s a) ∧ symbol_offset s' = symbol_offset s.
Definition used_at s (p n : Z) : Prop := ∀ a, p ≤ a < p + n → ¬ unused s a.

Lemma keeps_trans s1 s2 s3 : keeps s1 s2 → keeps s2 s3 → keeps s1 s3.
Proof.
  intros (B1 & U1 & M1 & O1) (B2 & U2 & M2 & O2). split_and!; [done|naive_solver| |congruence].
  intros a Ha. rewrite M2; [|by apply M1]. naive_solver.
Qed.
Lemma keeps_used s s' p n : keeps s s' → used_at s p n → used_at s' p n.
Proof. intros (_ & U & _) Hu a Ha Hn. by eapply Hu, U. Qed.
Lemma keeps_text s s' p t : keeps s s' → used_at s p (Z.of_nat (length t)) →
  text_at (smem s) p t → text_at (smem s') p t.
Proof. intros (_ & _ & Hm & _) Hu Ht. eapply text_at_ext; [done|]. intros a Ha. by apply Hm, Hu. Qed.
Lemma keeps_cstr s s' p t : keeps s s' → used_at s p (Z.of_nat (length t) + 1) →
  cstr (smem s) p t → cstr (smem s') p t.
Proof. intros (_ & _ & Hm & _) Hu Ht. eapply cstr_ext; [done|]. intros a Ha. apply Hm, Hu. lia. Qed.

(** A text copied into a block of its own, terminated: both halves of [parse_line]. *)
Lemma cut_spec {B} src t (k : Z → M (symw H) B) Q s : byte_ok (smem s) →
  Forall (λ c, c ≠ 0) t → text_at (smem s) src t → used_at s src (Z.of_nat (length t)) →
  Z.of_nat (length t) + 1 < 2 ^ 64 → cost (Z.of_nat (length t) + 1) ≤ room s →
  (∀ p s', keeps s s' → symbol_list s' = symbol_list s → cstr (smem s') p t →
     used_at s' p (Z.of_nat (length t) + 1) → room s' = room s - cost (Z.of_nat (length t) + 1) → wp (k p) Q s') →
  wp (p ← kmalloc (wrap64 (Z.of_nat (length t) + 1));
      on_mem (stb (wrap64 (p + Z.of_nat (length t))) 0);;
      on_mem (strncpy p src (length t));; k p) Q s.
Proof.
  intros Hb Hz Ht Hu Hl Hc Hk. apply wp_bind. rewrite wrap64_small; [lia|].
  eapply wp_mono; [apply kmalloc_ok; [lia|done|done]|].
  intros p s1 (Hp & Hw & Hb1 & Hblk & Hun & Hm & El & Eo & Er).
  assert (∀ a, src ≤ a < src + Z.of_nat (length t) → a < p ∨ p + Z.of_nat (length t) < a) as Hd.
  { intros a Ha. destruct (decide (a < p)); [by left|]. destruct (decide (p + Z.of_nat (length t) < a)); [by right|].
    exfalso. apply (Hu a Ha), Hblk. lia. }
  apply wp_bind, wp_on_mem, wp_modify, wp_bind, wp_on_mem. rewrite wrap64_small; [lia|]. simpl.
  set (m1 := write8 _ _ _).
  assert (text_at m1 src t) as Ht1.
  { eapply text_at_ext; [exact Ht|]. intros a Ha. unfold m1, write8. rewrite decide_False; [specialize (Hd a Ha); lia|].
    by apply Hm, Hu. }
  eapply wp_mono; [apply strncpy_spec; [by apply write8_ok| |]|].
  - intros i Hi. destruct (lookup_lt_is_Some_2 t (Z.to_nat i)) as [c Hci]; [lia|].
    rewrite -(Z2Nat.id i); [lia|]. rewrite (Ht1 _ _ Hci). by eapply Forall_lookup in Hz.
  - destruct (decide (length t = 0)%nat); [lia|]. pose proof (Hd src ltac:(lia)). pose proof (Hd (src + Z.of_nat (length t) - 1) ltac:(lia)).
    destruct (decide (src + Z.of_nat (length t) ≤ p)); [by right|]. left.
    destruct (decide (p + Z.of_nat (length t) ≤ src)); [done|]. specialize (Hd p). lia.
  - intros r m2 [-> Hm2]. apply Hk; simpl.
    + split_and!; simpl; [| | |done].
      * intros a. rewrite Hm2. unfold patch. case_decide; apply write8_ok, Hb1.
      * intros a Ha. by apply Hun, (unused_mem s1 m2 (symbol_list s1) (symbol_offset s1)).
      * intros a Ha. rewrite Hm2. unfold patch. rewrite decide_False; [intros Hin; apply Ha, Hblk; lia|].
        unfold m1, write8. rewrite decide_False; [intros ->; apply Ha, Hblk; lia|]. by apply Hm.
    + done.
    + apply cstr_text. split; [|done]. apply text_at_app. split.
      * intros i c Hi. pose proof (lookup_lt_Some _ _ _ Hi). rewrite Hm2. unfold patch. rewrite decide_True; [lia|].
        rewrite Z.add_simpl_l. by apply Ht1.
      * apply text_at_cons. split; [|intros ??; by rewrite lookup_nil]. rewrite Hm2. unfold patch.
        rewrite decide_False; [lia|]. unfold m1, write8. by rewrite decide_True.
    + intros a Ha Hna. apply (unused_mem s1 m2 (symbol_list s1) (symbol_offset s1)) in Hna.
      by apply (Hblk a).
    + by rewrite (room_mem s1).
Qed.

Lemma symbols_insert_spec name address s : byte_ok (smem s) → cost SYMBOL_SIZE ≤ room s →
  wp (symbols_insert name address) (λ _ s', keeps s s' ∧
    symbol_list s' = symbol_list s ++ [Symbol name address] ∧ room s' = room s - cost SYMBOL_SIZE) s.
Proof.
  intros Hb Hc. unfold symbols_insert. apply wp_bind. eapply wp_mono; [by apply kmalloc_ok|].
  intros p s1 (Hp & Hw & Hb1 & Hblk & Hun & Hm & El & Eo & Er).
  apply wp_bind, wp_on_mem. eapply wp_mono; [apply memset_spec|]. intros _ m [_ Hm2]. apply wp_modify. simpl.
  split_and!; [|by rewrite El|by rewrite (room_mem s1)]. split_and!; simpl; [| | |done].
  - intros a. rewrite Hm2. unfold patch. case_decide; [done|apply Hb1].
  - intros a Ha. by apply Hun, (unused_mem s1 m (symbol_list s1 ++ [Symbol name address]) (symbol_offset s1)).
  - intros a Ha. rewrite Hm2. unfold patch. rewrite decide_False; [intros Hin; apply Ha, Hblk; simpl in Hin; lia|].
    by apply Hm.
Qed.

(** ** Lines of the map *)
Record mapline := MapLine { ml_digits : list Z; ml_type : Z; ml_name : list Z }.
Implicit Types l : mapline.
(** What [nm] prints for it, without the newline. *)
Definition line_text l : list Z := (digit <$> ml_digits l) ++ [32; ml_type l; 32] ++ ml_name l.
Definition line_ok l : Prop :=
  Forall digit_ok (ml_digits l) ∧ (0 < length (ml_digits l) ≤ 16)%nat ∧ ml_type l ≠ 10 ∧ ml_type l ≠ 32 ∧
  Forall (λ c, c ≠ 0 ∧ c ≠ 10 ∧ c ≠ 32) (ml_name l).
Definition line_cost l : Z :=
  cost (Z.of_nat (length (ml_name l)) + 1) + cost (Z.of_nat (length (ml_digits l)) + 1) + cost SYMBOL_SIZE.
Lemma line_cost_nonneg l : 0 ≤ line_cost l.
Proof.
  unfold line_cost. pose proof (cost_nonneg (Z.of_nat (length (ml_name l)) + 1)).
  pose proof (cost_nonneg (Z.of_nat (length (ml_digits l)) + 1)). pose proof (cost_nonneg SYMBOL_SIZE). lia.
Qed.
(** The symbol [y] stands for the line [l]. *)
Definition stands_for s (y : symbol_t) l : Prop :=
  sbase y = hex_value (ml_digits l) ∧ cstr (smem s) (symname y) (ml_name l) ∧
  used_at s (symname y) (Z.of_nat (length (ml_name l)) + 1).

Lemma stands_for_keeps s s' y l : keeps s s' → stands_for s y l → stands_for s' y l.
Proof. intros Hk (E & Hc & Hu). split_and!; [done|by eapply keeps_cstr|by eapply keeps_used]. Qed.
Lemma digit_printed ds : Forall digit_ok ds → Forall (λ c, 48 ≤ c < 103) (digit <$> ds).
Proof. intros Hd. apply Forall_fmap. eapply Forall_impl; [exact Hd|]. unfold digit_ok, digit. intros d ?. simpl. case_decide; lia. Qed.
Lemma line_text_length l :
  Z.of_nat (length (line_text l)) = Z.of_nat (length (ml_digits l)) + 3 + Z.of_nat (length (ml_name l)).
Proof. unfold line_text. rewrite !length_app length_fmap. simpl. lia. Qed.

Lemma parse_line_spec l ls s : byte_ok (smem s) → line_ok l → text_at (smem s) ls (line_text l) →
  used_at s ls (Z.of_nat (length (line_text l))) → 0 ≤ ls → ls + Z.of_nat (length (line_text l)) < 2 ^ 64 →
  line_cost l ≤ room s →
  wp (parse_line ls (Z.of_nat (length (line_text l))) (Z.of_nat (length (ml_digits l)) + 1)
        (Z.of_nat (length (ml_digits l)) + 3))
    (λ _ s', keeps s s' ∧ room s' = room s - line_cost l ∧
       ∃ y, symbol_list s' = symbol_list s ++ [y] ∧ stands_for s' y l) s.
Proof.
  intros Hb (Hds & Hln & Ht1 & Ht2 & Hnm) Ht Hu Hls Hlt Hc.
  pose proof (line_text_length l) as El. unfold parse_line, line_cost in *.
  pose proof (cost_nonneg (Z.of_nat (length (ml_name l)) + 1)). pose proof (cost_nonneg (Z.of_nat (length (ml_digits l)) + 1)).
  pose proof (cost_nonneg SYMBOL_SIZE).
  unfold line_text in Ht. apply text_at_app in Ht as [Htd Ht]. apply text_at_app in Ht as [_ Htn].
  rewrite length_fmap -Z.add_assoc in Htn. simpl in Htn.
  replace (wrap64 (Z.of_nat (length (line_text l)) - (Z.of_nat (length (ml_digits l)) + 3)))
    with (Z.of_nat (length (ml_name l))) by (rewrite wrap64_small; lia).
  rewrite Nat2Z.id. rewrite (wrap64_small (ls + _)); [lia|].
  apply cut_spec; [done| |done| |lia|lia|].
  { eapply Forall_impl; [exact Hnm|]. naive_solver. }
  { intros a Ha. apply Hu. lia. }
  intros p s1 K1 L1 C1 U1 R1.
  replace (wrap64 (Z.of_nat (length (ml_digits l)) + 1 - 1)) with (Z.of_nat (length (digit <$> ml_digits l)))
    by (rewrite length_fmap wrap64_small; lia).
  rewrite Nat2Z.id. apply cut_spec.
  { apply K1. }
  { eapply Forall_impl; [by apply digit_printed|]. simpl. lia. }
  { eapply keeps_text; [done| |done]. intros a Ha. apply Hu. rewrite length_fmap in Ha. lia. }
  { eapply keeps_used; [done|]. intros a Ha. apply Hu. rewrite length_fmap in Ha. lia. }
  { rewrite length_fmap. lia. }
  { rewrite length_fmap. lia. }
  intros q s2 K2 L2 C2 U2 R2. apply wp_bind, wp_on_mem.
  apply cstr_text in C2 as [Td _]. apply text_at_app in Td as [Td _].
  unfold strtoaddr. rewrite Nat2Z.id length_fmap.
  eapply wp_mono; [apply (strtoaddr_loop_spec _ q (ml_digits l) []); rewrite ?app_nil_r; [done|done|lia]|].
  intros r m [-> ->]. rewrite app_nil_r.
  rewrite length_fmap in R2.
  assert (K : keeps s s2) by by eapply keeps_trans.
  assert (SymW (smem s2) (symbol_list s2) (symbol_offset s2) (heap s2) = s2) as -> by by destruct s2.
  eapply wp_mono; [apply symbols_insert_spec; [apply K|lia]|].
  intros [] s3 (K3 & L3 & R3). split_and!; [by eapply keeps_trans|lia|].
  eexists; split; [rewrite L3 L2 L1; reflexivity|]. apply (stands_for_keeps s1); [by eapply keeps_trans|].
  done.
Qed.

(** ** Scanning up to the newline *)
Fixpoint scan (t : list Z) (line_pos type_start name_start : Z) : Z * Z :=
  match t with
  | [] => (type_start, name_start)
  | c :: t =>
      let '(ty, nm) := if decide (c = 32) then
          if decide (type_start = MINUS1) then (line_pos + 1, name_start) else (type_start, line_pos + 1)
        else (type_start, name_start) in
      scan t (line_pos + 1) ty nm
  end.
Lemma parse_map_scan buf t n : ∀ pos ls k ty nm cnt s, text_at (smem s) (buf + pos) t → Forall (λ c, c ≠ 10) t →
  ls + k = buf + pos →
  parse_map_loop (length t + n) buf pos ls k ty nm cnt s =
  parse_map_loop n buf (pos + Z.of_nat (length t)) ls (k + Z.of_nat (length t))
    (scan t k ty nm).1 (scan t k ty nm).2 cnt s.
Proof.
  induction t as [|c t IH]; intros pos ls k ty nm cnt s Ht Hn E; simpl; [by rewrite !Z.add_0_r|].
  apply text_at_cons in Ht as [Hc Ht]. apply Forall_cons in Hn as [Hc' Hn].
  unfold mbind, M_bind, on_mem, ldb, gets. rewrite Hc. rewrite decide_False //. simpl. rewrite E Hc.
  destruct (if decide (c = 32) then _ else _) as [ty' nm'] eqn:Et. destruct s. simpl.
  rewrite IH; [by rewrite -Z.add_assoc in Ht|done|lia|]. f_equal; lia.
Qed.
Lemma scan_nospace t : ∀ k ty nm, Forall (λ c, c ≠ 32) t → scan t k ty nm = (ty, nm).
Proof. induction t as [|c t IH]; intros k ty nm; [done|]. intros [Hc Ht]%Forall_cons. simpl. rewrite decide_False //. by apply IH. Qed.
Lemma scan_app t1 t2 : ∀ k ty nm,
  scan (t1 ++ t2) k ty nm = scan t2 (k + Z.of_nat (length t1)) (scan t1 k ty nm).1 (scan t1 k ty nm).2.
Proof.
  induction t1 as [|c t1 IH]; intros k ty nm; simpl; [by rewrite Z.add_0_r|].
  destruct (if decide (c = 32) then _ else _) as [ty' nm']. rewrite IH. f_equal. lia.
Qed.
Lemma scan_line l : line_ok l →
  scan (line_text l) 0 MINUS1 MINUS1 = (Z.of_nat (length (ml_digits l)) + 1, Z.of_nat (length (ml_digits l)) + 3).
Proof.
  intros (Hds & Hln & Ht1 & Ht2 & Hnm). unfold line_text. rewrite scan_app (scan_nospace (digit <$> _)).
  { eapply Forall_impl; [by apply digit_printed|]. simpl. lia. }
  rewrite length_fmap. simpl. rewrite (decide_False (P := ml_type l = 32)) // decide_False; [unfold MINUS1; lia|].
  rewrite scan_nospace; [eapply Forall_impl; [done|]; naive_solver|]. f_equal; lia.
Qed.

(** ** The whole map *)
Definition map_text (ls : list mapline) : list Z := ls ≫= λ l, line_text l ++ [10].
Lemma symbols_parse_map_loop buf lines : ∀ pos cnt s, byte_ok (smem s) → Forall line_ok lines →
  text_at (smem s) (buf + pos) (map_text lines) → used_at s (buf + pos) (Z.of_nat (length (map_text lines))) →
  0 ≤ buf + pos → buf + pos + Z.of_nat (length (map_text lines)) < 2 ^ 64 → sumZ line_cost lines ≤ room s →
  wp (parse_map_loop (length (map_text lines)) buf pos (buf + pos) 0 MINUS1 MINUS1 cnt)
    (λ r s', r = cnt + Z.of_nat (length lines) ∧ keeps s s' ∧
       room s' = room s - sumZ line_cost lines ∧
       ∃ ys, symbol_list s' = symbol_list s ++ ys ∧ Forall2 (stands_for s') ys lines) s.
Proof.
  induction lines as [|l lines IH]; intros pos cnt s Hb Hok Ht Hu Hp Hlt Hc.
  { simpl. apply wp_ret. split_and!; [simpl; lia|by split_and!|lia|]. exists []. by rewrite app_nil_r. }
  apply Forall_cons in Hok as [Hl Hok]. simpl in Hc. change (map_text (l :: lines)) with ((line_text l ++ [10]) ++ map_text lines) in *.
  rewrite -app_assoc in Ht, Hu, Hlt |- *. rewrite (length_app (line_text l)) in Hu, Hlt |- *. simpl in Hu, Hlt |- *.
  assert (Forall (λ c, c ≠ 10) (line_text l)) as Hnl.
  { destruct Hl as (Hds & Hln & Ht1 & Ht2 & Hnm). unfold line_text. apply Forall_app. split.
    - eapply Forall_impl; [by apply digit_printed|]. simpl. lia.
    - simpl. repeat (constructor; [done|]). eapply Forall_impl; [done|]. naive_solver. }
  apply text_at_app in Ht as [Htl Ht]. apply text_at_cons in Ht as [Hn Ht].
  eapply wp_run_eq; [apply parse_map_scan; [done|done|lia]|]. rewrite (scan_line l) // !Z.add_0_l.
  cbn [fst snd parse_map_loop]. apply wp_bind, wp_on_mem, wp_gets. rewrite Z.add_assoc Hn. destruct (decide (10 = 10)) as [_|]; [|done].
  assert (SymW (smem s) (symbol_list s) (symbol_offset s) (heap s) = s) as -> by by destruct s.
  assert (0 ≤ sumZ line_cost lines) as Hs.
  { apply sumZ_nonneg. intros x _. apply line_cost_nonneg. }
  apply wp_bind. eapply wp_mono; [apply parse_line_spec; [done|done|done| |done|lia|lia]|].
  { intros a Ha. apply Hu. lia. }
  intros [] s1 (K1 & R1 & y & L1 & Y1).
  set (pos' := pos + Z.of_nat (length (line_text l)) + 1).
  replace (buf + pos + Z.of_nat (length (line_text l)) + 1) with (buf + pos') in Ht |- * by (unfold pos'; lia).
  assert (used_at s (buf + pos') (Z.of_nat (length (map_text lines)))) as Hu'.
  { intros a Ha. apply Hu. unfold pos' in Ha. lia. }
  eapply wp_mono; [apply (IH pos' (cnt + 1) s1); [apply K1|done|by eapply keeps_text|by eapply keeps_used|unfold pos'; lia|unfold pos'; lia|lia]|].
  intros r s2 (-> & K2 & R2 & ys & L2 & Y2). split_and!; [lia|by eapply keeps_trans|cbn [sumZ]; lia|].
  exists (y :: ys). rewrite L2 L1 -app_assoc. split; [done|]. constructor; [|done]. by eapply stands_for_keeps.
Qed.

(** ** The modules *)
Definition symbols_name : list Z := [115; 121; 109; 98; 111; 108; 115].
(** A module with its command line and, when that says so, the lines of its map. *)
Record loaded := Loaded { ld_file : limine_file; ld_cmdline : list Z; ld_lines : list mapline }.
Definition is_map (d : loaded) : Prop := ld_cmdline d = symbols_name.
#[local] Instance is_map_dec d : Decision (is_map d).
Proof. unfold is_map. apply _. Defined.
Definition loaded_ok s (d : loaded) : Prop :=
  cstr (smem s) (f_cmdline (ld_file d)) (ld_cmdline d) ∧
  used_at s (f_cmdline (ld_file d)) (Z.of_nat (length (ld_cmdline d)) + 1) ∧
  (is_map d → let buf := f_address (ld_file d) in let t := map_text (ld_lines d) in
    Forall line_ok (ld_lines d) ∧ text_at (smem s) buf t ∧ used_at s buf (Z.of_nat (length t)) ∧
    0 ≤ buf ∧ buf + Z.of_nat (length t) < 2 ^ 64 ∧ f_size (ld_file d) = Z.of_nat (length t)).
Lemma loaded_keeps s s' d : keeps s s' → loaded_ok s d → loaded_ok s' d.
Proof.
  intros K (Hc & Hu & Hm). split_and!; [by eapply keeps_cstr|by eapply keeps_used|]. intros Hi.
  destruct (Hm Hi) as (? & Ht & Hu2 & ? & ? & ?). split_and!; try done; [by eapply keeps_text|by eapply keeps_used].
Qed.
(** The lines of all the maps, in the order of the modules. *)
Definition all_lines (ds : list loaded) : list mapline := ds ≫= λ d, if decide (is_map d) then ld_lines d else [].
Lemma consume_modules_spec fuel p ds : ∀ s, byte_ok (smem s) → cstr (smem s) p symbols_name → used_at s p 8 → (7 < fuel)%nat →
  Forall (loaded_ok s) ds → sumZ line_cost (all_lines ds) ≤ room s →
  wp (consume_modules fuel p (ld_file <$> ds)) (λ _ s', keeps s s' ∧
    ∃ ys, symbol_list s' = symbol_list s ++ ys ∧ Forall2 (stands_for s') ys (all_lines ds)) s.
Proof.
  unfold consume_modules. induction ds as [|d ds IH]; intros s Hb Hp Hu Hf Hd Hc.
  { apply wp_ret. split; [by split_and!|]. exists []. by rewrite app_nil_r. }
  apply Forall_cons in Hd as [Hd Hds]. pose proof Hd as (Hc1 & Hu1 & Hm1). rewrite fmap_cons. cbn [forM].
  change (all_lines (d :: ds)) with ((if decide (is_map d) then ld_lines d else []) ++ all_lines ds) in *. rewrite sumZ_app in Hc.
  assert (SymW (smem s) (symbol_list s) (symbol_offset s) (heap s) = s) as Es by by destruct s.
  apply wp_bind, wp_bind, wp_on_mem. eapply wp_mono; [by apply (strcmp_spec _ _ _ symbols_name (ld_cmdline d)); [..|cbn; lia]|].
  intros r m [-> ->]. rewrite Es. pose proof (str_diff_eq _ _ _ _ _ Hb Hp Hc1) as E.
  assert (0 ≤ sumZ line_cost (all_lines ds)) as Hn by (apply sumZ_nonneg; intros x _; apply line_cost_nonneg).
  destruct (decide (is_map d)) as [Hi|Hi].
  - rewrite decide_True; [by apply E|]. destruct (Hm1 Hi) as (Hl & Ht & Hu2 & B1 & B2 & Esz).
    apply wp_bind. unfold symbols_parse_map. rewrite Esz Nat2Z.id.
    pose proof (symbols_parse_map_loop (f_address (ld_file d)) (ld_lines d) 0 0 s) as Hloop. rewrite !Z.add_0_r in Hloop.
    eapply wp_mono; [by apply Hloop; [..|lia]|]. intros r s1 (_ & K1 & R1 & ys1 & L1 & Y1). apply wp_ret.
    eapply wp_mono; [apply (IH s1); [apply K1|by eapply keeps_cstr|by eapply keeps_used|done|
      eapply Forall_impl; [exact Hds|]; intros; by eapply loaded_keeps|lia]|].
    intros [] s2 (K2 & ys2 & L2 & Y2). split; [by eapply keeps_trans|]. exists (ys1 ++ ys2). rewrite L2 L1 -app_assoc. split; [done|].
    apply Forall2_app; [|done]. eapply Forall2_impl; [exact Y1|]. intros y l. by apply stands_for_keeps.
  - rewrite decide_False; [intros Hz; apply Hi; symmetry; by apply E|]. apply wp_ret.
    eapply wp_mono; [apply (IH s); try done; cbn in Hc; lia|]. intros [] s2 (K2 & ys2 & L2 & Y2). split; [done|]. by exists ys2.
Qed.
End proofs.

(** ** Looking symbols up *)
(** The list the map gives is sorted by address ([nm -n]). *)
Definition sorted_symbols (l : list symbol_t) : Prop :=
  ∀ i j x y, (i < j)%nat → l !! i = Some x → l !! j = Some y → sbase x < sbase y.
Lemma sorted_symbols_tail x l : sorted_symbols (x :: l) → sorted_symbols l ∧ ∀ y, y ∈ l → sbase x < sbase y.
Proof.
  intros Hs. split.
  - intros i j a b Hij Ha Hb. by apply (Hs (S i) (S j) a b); [lia|..].
  - intros y [i Hi]%list_elem_of_lookup. by apply (Hs 0%nat (S i) x y); [lia|..].
Qed.
(** The best match is the last symbol strictly below the address. *)
Lemma lookup_address_spec address l : sorted_symbols l → ∀ best,
  match lookup_address_loop address l best with
  | Some y => (y ∈ l ∧ sbase y < address ∧ ∀ z, z ∈ l → sbase z < address → sbase z ≤ sbase y) ∨
      (best = Some y ∧ ∀ z, z ∈ l → address ≤ sbase z)
  | None => best = None ∧ ∀ z, z ∈ l → address ≤ sbase z
  end.
Proof.
  induction l as [|x l IH]; intros Hs best; simpl; [destruct best; [right|]; (split; [done|set_solver])|].
  apply sorted_symbols_tail in Hs as [Hs Hx]. specialize (IH Hs). case_decide as H1.
  - specialize (IH (Some x)). destruct (lookup_address_loop address l (Some x)) as [y|]; [|by destruct IH].
    left. destruct IH as [(Hy & Hlt & Hmax)|[[= ->] Hmin]].
    + split_and!; [by right|done|]. intros z [->|Hz]%elem_of_cons Hza; [|by apply Hmax]. specialize (Hx _ Hy). lia.
    + split_and!; [by left|lia|]. intros z [->|Hz]%elem_of_cons Hza; [lia|]. specialize (Hmin _ Hz). lia.
  - case_decide as H2.
    + assert (∀ z, z ∈ x :: l → address ≤ sbase z) as Hall.
      { intros z [->|Hz]%elem_of_cons; [lia|]. specialize (Hx _ Hz). lia. }
      destruct best; [by right|done].
    + assert (∀ z, z ∈ l → address ≤ sbase z) as Hall by (intros z Hz; specialize (Hx _ Hz); lia).
      specialize (IH best). destruct (lookup_address_loop address l best) as [y|].
      * destruct IH as [(Hy & Hlt & _)|[-> _]]; [specialize (Hall _ Hy); lia|right]. split; [done|].
        intros z [->|Hz]%elem_of_cons; [lia|by apply Hall].
      * destruct IH as [-> _]. split; [done|]. intros z [->|Hz]%elem_of_cons; [lia|by apply Hall].
Qed.

Section lookup_name.
Context {H : Type} `{KMalloc H}.
Implicit Types s : symw H.
(** The first symbol of that name. *)
Lemma lookup_name_loop_spec fuel name nm s l names : byte_ok (smem s) → cstr (smem s) name nm → (length nm < fuel)%nat →
  Forall2 (λ y n, cstr (smem s) (symname y) n) l names →
  wp (lookup_name_loop fuel name l) (λ r s', s' = s ∧
    r = (list_find (λ yn, yn.2 = nm) (zip l names) ≫= λ iyn, Some iyn.2.1)) s.
Proof.
  intros Hb Hn Hf Hl. induction Hl as [|y n l names Hy Hl IH]; cbn [lookup_name_loop]; [by apply wp_ret|].
  apply wp_bind, wp_on_mem. eapply wp_mono; [by apply (strcmp_spec _ _ _ nm n)|]. intros r m [-> ->]. simpl.
  pose proof (str_diff_eq _ _ _ _ _ Hb Hn Hy) as E.
  assert (SymW (smem s) (symbol_list s) (symbol_offset s) (heap s) = s) as -> by by destruct s.
  destruct (decide (str_diff nm n = 0)) as [Hz|Hz].
  - apply wp_ret. split; [done|]. apply E in Hz as ->. by rewrite decide_True.
  - rewrite decide_False; [intros Hq; apply Hz, E; done|]. eapply wp_mono; [apply IH|]. intros r s' [-> ->]. split; [done|].
    by destruct (list_find _ _) as [[? ?]|].
Qed.
End lookup_name.
