(* ===== verification/Log.v ===== *)
(** * The kernel log: [kernel/lib/log.c]

    A ring of 1024 messages written by [printk] and drained to the consoles.  The text a
    message is formatted to is an argument here; [Printk.v] has the formatting.  Locks are
    those of one CPU: a lock that is held stays held. *)

From S2P Require Import Prelude.

Definition text : Type := list Z.
Definition MSG_BUF_SIZE : Z := 512.
Definition MSGS_SIZE : Z := 1024.

(** [messages] by index; a message is the [msg_sz] bytes of its [buf]. *)
Record logbuffer_t := LogBuffer {
  messages : Z → text;
  head : Z;
  tail : Z;
  lseq : Z;
}.

Definition logbuffer_init : M logbuffer_t unit := put (LogBuffer (λ _, []) 0 0 0).

(** [size] is the length claimed for the text; the bytes copied are the first [size] of it. *)
Definition logbuffer_write (str : text) (size : Z) : M logbuffer_t unit :=
  lb ← get;
  let next_head := Z.land (head lb + 1) (MSGS_SIZE - 1) in
  if decide (next_head = tail lb) then mret tt else
  put (LogBuffer (messages lb) next_head (tail lb) (lseq lb));;
  assertM (bool_decide (size < MSG_BUF_SIZE)) "size < MSG_BUF_SIZE";;
  modify (λ l, LogBuffer (λ i, if decide (i = head lb) then take (Z.to_nat size) str else messages l i)
                 (head l) (tail l) (lseq l)).

Definition logbuffer_read : M logbuffer_t (option text) :=
  lb ← get;
  if decide (tail lb = head lb) then mret None else
  put (LogBuffer (messages lb) (head lb) (Z.land (tail lb + 1) (MSGS_SIZE - 1)) (lseq lb));;
  mret (Some (messages lb (tail lb))).

(** ** Consoles and locks *)
Inductive llock := print_lock | console_list_lock | console_lock (c : nat).
#[global] Instance llock_eq_dec : EqDecision llock.
Proof. solve_decision. Defined.
#[global] Instance llock_countable : Countable llock.
Proof.
  refine (inj_countable' (λ l, match l with print_lock => None | console_list_lock => Some None
                                | console_lock c => Some (Some c) end)
    (λ o, match o with None => print_lock | Some None => console_list_lock
          | Some (Some c) => console_lock c end) _). by intros [].
Defined.

(** [c_write] says that the console has a [write] function; [c_out] is what it was given. *)
Record console_t := Console { c_write : bool; c_out : list text }.
Record logw := LogW {
  g_lb : logbuffer_t;
  l_ints : bool;
  l_locks : gset llock;
  console_list : list nat;
  consoles : gmap nat console_t;
}.
Definition l_set_lb lb w := LogW lb (l_ints w) (l_locks w) (console_list w) (consoles w).
Definition l_set_ints i w := LogW (g_lb w) i (l_locks w) (console_list w) (consoles w).
Definition l_set_locks l w := LogW (g_lb w) (l_ints w) l (console_list w) (consoles w).
Definition l_set_list l w := LogW (g_lb w) (l_ints w) (l_locks w) l (consoles w).
Definition l_set_consoles c w := LogW (g_lb w) (l_ints w) (l_locks w) (console_list w) c.

Definition on_lb {A} (f : M logbuffer_t A) : M logw A := λ w,
  match f (g_lb w) with Ok (a, lb) => Ok (a, l_set_lb lb w) | Panic e => Panic e end.

Definition l_port_set_ints (b : bool) : M logw bool :=
  old ← gets l_ints; modify (l_set_ints b);; mret old.
Definition l_acquire (l : llock) : M logw unit :=
  w ← get;
  if decide (l ∈ l_locks w) then fail (Deadlock "deadlock?")
  else put (l_set_locks ({[l]} ∪ l_locks w) w).
Definition l_release (l : llock) : M logw unit := modify (λ w, l_set_locks (l_locks w ∖ {[l]}) w).
Definition l_acquire_intr (l : llock) : M logw bool :=
  old ← l_port_set_ints false; l_acquire l;; mret old.
Definition l_release_intr (l : llock) (old : bool) : M logw unit :=
  l_release l;; l_port_set_ints old;; mret tt.
Definition l_try_lock_intr (l : llock) : M logw (option bool) :=
  old ← l_port_set_ints false;
  w ← get;
  if decide (l ∈ l_locks w) then l_port_set_ints old;; mret None
  else put (l_set_locks ({[l]} ∪ l_locks w) w);; mret (Some old).

Definition printk_init : M logw unit := on_lb logbuffer_init.

Definition console_write (c : nat) (buf : text) : M logw unit :=
  w ← get;
  elm ← deref "elm" (consoles w !! c);
  put (l_set_consoles (<[c := Console (c_write elm) (c_out elm ++ [buf])]> (consoles w)) w).

Definition printk_consoles_write (buf : text) : M logw unit :=
  old ← l_try_lock_intr console_list_lock;
  match old with
  | None => mret tt
  | Some old =>
      l ← gets console_list;
      forM l (λ c,
        elm ← gets (λ w, consoles w !! c);
        elm ← deref "elm" elm;
        if c_write elm then
          l_acquire (console_lock c);;
          console_write c buf;;
          l_release (console_lock c)
        else mret tt);;
      l_release_intr console_list_lock old
  end.

(** [while ((msg = logbuffer_read(lb)) != nullptr)]. *)
Fixpoint printk_buffer_write (fuel : nat) : M logw unit :=
  match fuel with
  | O => fail OutOfFuel
  | S fuel =>
      msg ← on_lb logbuffer_read;
      match msg with
      | None => mret tt
      | Some m => printk_consoles_write m;; printk_buffer_write fuel
      end
  end.

(** ** [printk]

    [lvl] is the first character of the format and [rest] the text of what follows it
    (of the whole format when [lvl] is no level); [LOG_LEVEL] is the configured level. *)
Definition colour (n : Z) (name : text) : text :=
  [91; 32; 27; 91; 51; n; 109] ++ name ++ [27; 91; 48; 109; 93; 32].
Definition log_prefix (lvl : Z) : text :=
  if decide (lvl = 1) then colour 53 [83; 80; 65; 77; 32; 32]
  else if decide (lvl = 2) then colour 53 [68; 69; 66; 85; 71; 32]
  else if decide (lvl = 3) then colour 54 [84; 82; 65; 67; 69; 32]
  else if decide (lvl = 4) then colour 50 [73; 78; 70; 79; 32; 32]
  else if decide (lvl = 5) then colour 51 [87; 65; 82; 78; 32; 32]
  else if decide (lvl = 6) then colour 49 [69; 82; 82; 79; 82; 32]
  else if decide (lvl = 7) then colour 49 [80; 65; 78; 73; 67; 32]
  else [].

Arguments printk_buffer_write : simpl never.

(** Enough turns for the loop: the ring holds fewer messages. *)
Definition DRAIN_FUEL : nat := 1024.
Definition printk (LOG_LEVEL lvl : Z) (rest : text) : M logw unit :=
  if decide (1 ≤ lvl ∧ lvl ≤ 6 ∧ lvl < LOG_LEVEL) then mret tt else
  let size := Z.of_nat (length (log_prefix lvl)) in
  oldstate ← l_acquire_intr print_lock;
  (* [npf_vsnprintf] returns the length of the whole text, an [int], and stores what fits *)
  let buf := take (Z.to_nat (MSG_BUF_SIZE - 1)) (log_prefix lvl ++ rest) in
  on_lb (logbuffer_write buf (wrap64 (size + sint32 (Z.of_nat (length rest)))));;
  printk_buffer_write DRAIN_FUEL;;
  l_release_intr print_lock oldstate.

Definition console_add (c : nat) : M logw unit :=
  old ← l_acquire_intr console_list_lock;
  modify (λ w, l_set_locks (l_locks w ∖ {[console_lock c]}) w);;
  modify (λ w, l_set_list (console_list w ++ [c]) w);;
  l_release_intr console_list_lock old.

Definition console_remove (c : nat) : M logw unit :=
  old ← l_acquire_intr console_list_lock;
  l_acquire (console_lock c);;
  w ← get;
  (if decide (c ∈ console_list w) then put (l_set_list (filter (λ x, x ≠ c) (console_list w)) w)
   else fail (Undefined "TAILQ_REMOVE of an element that is not on the list"));;
  l_release_intr console_list_lock old.

(** ** The ring as a queue *)
Definition lb_ok (lb : logbuffer_t) : Prop := 0 ≤ head lb < MSGS_SIZE ∧ 0 ≤ tail lb < MSGS_SIZE.
Definition pending (lb : logbuffer_t) : nat := Z.to_nat ((head lb - tail lb) mod MSGS_SIZE).
Definition ring (f : Z → text) (t : Z) (n : nat) : list text :=
  (λ i, f ((t + Z.of_nat i) mod MSGS_SIZE)) <$> seq 0 n.
Definition queued (lb : logbuffer_t) : list text := ring (messages lb) (tail lb) (pending lb).
(** A ring with one slot kept empty. *)
Definition CAPACITY : nat := 1023.

Lemma next_index i : 0 ≤ i → Z.land (i + 1) (MSGS_SIZE - 1) = (i + 1) mod MSGS_SIZE.
Proof. intros Hi. change (MSGS_SIZE - 1) with (Z.ones 10). by rewrite Z.land_ones. Qed.
Lemma ring_S_r f t n : ring f t (S n) = ring f t n ++ [f ((t + Z.of_nat n) mod MSGS_SIZE)].
Proof. unfold ring. by rewrite seq_S fmap_app. Qed.
Lemma ring_S_l f t n : ring f t (S n) = f (t mod MSGS_SIZE) :: ring f ((t + 1) mod MSGS_SIZE) n.
Proof.
  unfold ring. change (seq 0 (S n)) with (0%nat :: seq 1 n). rewrite fmap_cons Z.add_0_r -fmap_S_seq. f_equal.
  rewrite -list_fmap_compose. apply list_fmap_ext. intros i x _. simpl. f_equal. rewrite Zplus_mod_idemp_l. f_equal. lia.
Qed.
Lemma ring_ext f g t n : (∀ i, (i < n)%nat → g ((t + Z.of_nat i) mod MSGS_SIZE) = f ((t + Z.of_nat i) mod MSGS_SIZE)) →
  ring g t n = ring f t n.
Proof. intros He. unfold ring. apply list_fmap_ext. intros k i Hi. apply He. apply lookup_seq in Hi as [-> ?]. lia. Qed.
Lemma queued_length lb : length (queued lb) = pending lb.
Proof. unfold queued, ring. by rewrite length_fmap length_seq. Qed.
Lemma pending_lt lb : (pending lb ≤ CAPACITY)%nat.
Proof. unfold pending, MSGS_SIZE, CAPACITY. pose proof (Z.mod_pos_bound (head lb - tail lb) 1024). lia. Qed.

(** Going around the ring. *)
Lemma mod_wrap x : 0 ≤ x < 2 * MSGS_SIZE → x mod MSGS_SIZE = if decide (x < MSGS_SIZE) then x else x - MSGS_SIZE.
Proof.
  unfold MSGS_SIZE. intros Hx. case_decide; [by rewrite Z.mod_small; lia|].
  rewrite -(Z.mod_small (x - 1024) 1024); [lia|]. rewrite -(Z_mod_plus_full (x - 1024) 1). f_equal. lia.
Qed.
Lemma pending_eq lb : lb_ok lb → Z.of_nat (pending lb) =
  if decide (tail lb ≤ head lb) then head lb - tail lb else head lb - tail lb + MSGS_SIZE.
Proof.
  unfold lb_ok, pending, MSGS_SIZE. intros [Hh Ht]. rewrite Z2Nat.id; [apply Z.mod_pos_bound; lia|].
  case_decide; [apply Z.mod_small; lia|]. rewrite -(Z_mod_plus_full _ 1). apply Z.mod_small. lia.
Qed.

Lemma logbuffer_write_spec lb str : lb_ok lb → Z.of_nat (length str) < MSG_BUF_SIZE →
  wp (logbuffer_write str (Z.of_nat (length str))) (λ _ lb', lb_ok lb' ∧
    queued lb' = if decide (length (queued lb) < CAPACITY)%nat then queued lb ++ [str] else queued lb) lb.
Proof.
  intros Hok Hl. assert (H := Hok). destruct H as [Hh Ht]. unfold logbuffer_write. apply wp_bind, wp_get.
  rewrite next_index; [lia|]. rewrite queued_length.
  pose proof (pending_eq lb Hok) as Ep. pose proof (mod_wrap (head lb + 1) ltac:(unfold MSGS_SIZE in *; lia)) as En.
  unfold MSGS_SIZE, CAPACITY in *.
  destruct (decide ((head lb + 1) mod 1024 = tail lb)) as [Hf|Hf].
  - apply wp_ret. split; [done|]. rewrite decide_False //. repeat case_decide; lia.
  - apply wp_bind, wp_put, wp_bind, wp_assert. split; [by apply bool_decide_eq_true|].
    rewrite Nat2Z.id take_ge //. apply wp_modify. simpl.
    set (lb' := LogBuffer _ _ _ _). assert (lb_ok lb') as Hok'.
    { split; simpl; [apply Z.mod_pos_bound; unfold MSGS_SIZE; lia|done]. }
    split; [done|]. rewrite decide_True; [repeat case_decide; lia|].
    pose proof (pending_eq lb' Hok') as Ep'. unfold MSGS_SIZE in *. simpl in Ep'.
    assert (pending lb' = S (pending lb)) as Es by (repeat case_decide; lia).
    unfold queued. rewrite Es ring_S_r. simpl. f_equal.
    + apply ring_ext. intros i Hi. rewrite decide_False //. unfold MSGS_SIZE.
      intros Hx. rewrite (mod_wrap (tail lb + Z.of_nat i)) in Hx; unfold MSGS_SIZE in *; repeat case_decide; lia.
    + rewrite decide_True //. rewrite mod_wrap; unfold MSGS_SIZE; repeat case_decide; lia.
Qed.

Lemma logbuffer_read_spec lb : lb_ok lb →
  wp logbuffer_read (λ r lb', lb_ok lb' ∧ r = hd_error (queued lb) ∧ queued lb' = tl (queued lb)) lb.
Proof.
  intros Hok. assert (H := Hok). destruct H as [Hh Ht]. unfold logbuffer_read. apply wp_bind, wp_get.
  pose proof (pending_eq lb Hok) as Ep.
  destruct (decide (tail lb = head lb)) as [He|He].
  - apply wp_ret. split; [done|]. unfold queued.
    assert (pending lb = 0)%nat as -> by (repeat case_decide; unfold MSGS_SIZE in *; lia). done.
  - apply wp_bind, wp_put, wp_ret. rewrite next_index; [lia|]. set (lb' := LogBuffer _ _ _ _).
    pose proof (mod_wrap (tail lb + 1) ltac:(unfold MSGS_SIZE in *; lia)) as En.
    assert (lb_ok lb') as Hok' by (split; simpl; [done|apply Z.mod_pos_bound; unfold MSGS_SIZE; lia]).
    pose proof (pending_eq lb' Hok') as Ep'. simpl in Ep'. unfold MSGS_SIZE in *.
    assert (pending lb = S (pending lb')) as Es by (repeat case_decide; lia).
    split; [done|]. unfold queued. rewrite Es ring_S_l. simpl. split; [|done]. rewrite Z.mod_small //.
Qed.

(** ** A bounded first-in first-out queue, and runs of the two operations *)
Inductive log_op := LWrite (str : text) | LRead.
Definition log_step (o : log_op) : M logbuffer_t (option text) :=
  match o with
  | LWrite str => logbuffer_write str (Z.of_nat (length str));; mret None
  | LRead => logbuffer_read
  end.
Fixpoint log_run (os : list log_op) : M logbuffer_t (list (option text)) :=
  match os with
  | [] => mret []
  | o :: os => r ← log_step o; rs ← log_run os; mret (r :: rs)
  end.
(** A full queue drops what is written. *)
Definition fifo_step (q : list text) (o : log_op) : option text * list text :=
  match o with
  | LWrite str => (None, if decide (length q < CAPACITY)%nat then q ++ [str] else q)
  | LRead => (hd_error q, tl q)
  end.
Fixpoint fifo_run (q : list text) (os : list log_op) : list (option text) :=
  match os with
  | [] => []
  | o :: os => (fifo_step q o).1 :: fifo_run (fifo_step q o).2 os
  end.
Definition op_fits (o : log_op) : Prop :=
  match o with LWrite str => Z.of_nat (length str) < MSG_BUF_SIZE | LRead => True end.

Lemma log_step_refines lb o : lb_ok lb → op_fits o →
  wp (log_step o) (λ r lb', lb_ok lb' ∧ (r, queued lb') = fifo_step (queued lb) o) lb.
Proof.
  intros Hok Ho. destruct o as [str|]; simpl.
  - apply wp_bind. eapply wp_mono; [by apply logbuffer_write_spec|]. intros [] lb' [? E]. apply wp_ret. by rewrite E.
  - eapply wp_mono; [by apply logbuffer_read_spec|]. intros r lb' (? & -> & E). by rewrite E.
Qed.
Lemma log_run_refines os : Forall op_fits os → ∀ lb, lb_ok lb →
  wp (log_run os) (λ rs _, rs = fifo_run (queued lb) os) lb.
Proof.
  induction 1 as [|o os Ho Hos IH]; intros lb Hok; simpl; [by apply wp_ret|].
  apply wp_bind. eapply wp_mono; [by apply log_step_refines|]. intros r lb' [Hok' E].
  apply wp_bind. eapply wp_mono; [by apply IH|]. intros rs lb'' ->. apply wp_ret.
  by rewrite -E.
Qed.

(** ** Delivery to the consoles *)
Lemma wp_on_lb {A} (f : M logbuffer_t A) Q w : wp f (λ a lb, Q a (l_set_lb lb w)) (g_lb w) → wp (on_lb f) Q w.
Proof. rewrite /wp /on_lb. by destruct (f (g_lb w)) as [[a lb]|]. Qed.
Definition emit (buf : text) (c : console_t) : console_t :=
  if c_write c then Console true (c_out c ++ [buf]) else c.
Definition deliver (l : list nat) (buf : text) (cs : gmap nat console_t) : gmap nat console_t :=
  foldl (λ cs c, alter (emit buf) c cs) cs l.

Lemma locks_back {L : gset llock} l : l ∉ L → ({[l]} ∪ L) ∖ {[l]} = L.
Proof. intros Hl. set_solver. Qed.
Lemma deliver_dom l buf cs c : is_Some (deliver l buf cs !! c) ↔ is_Some (cs !! c).
Proof.
  revert cs. induction l as [|x l IH]; intros cs; simpl; [done|]. rewrite IH.
  by rewrite lookup_alter_is_Some.
Qed.

Section delivery.
Context (l0 : list nat) (L0 : gset llock).
(** Who may print: the console locks are free and the consoles exist. *)
Definition consoles_free (w : logw) : Prop :=
  console_list w = l0 ∧ l_locks w = L0 ∧ console_list_lock ∉ L0 ∧
  (∀ c, c ∈ l0 → console_lock c ∉ L0 ∧ is_Some (consoles w !! c)).

Lemma consoles_loop buf l w : l_locks w = {[console_list_lock]} ∪ L0 →
  (∀ c, c ∈ l → console_lock c ∉ L0 ∧ is_Some (consoles w !! c)) →
  wp (forM l (λ c,
        elm ← gets (λ w, consoles w !! c);
        elm ← deref "elm" elm;
        if c_write elm then
          l_acquire (console_lock c);; console_write c buf;; l_release (console_lock c)
        else mret tt)) (λ _ w', w' = l_set_consoles (deliver l buf (consoles w)) w) w.
Proof.
  revert w. induction l as [|c l IH]; intros w HL Hl; simpl.
  { apply wp_ret. by destruct w. }
  destruct (Hl c ltac:(left)) as [Hc [elm He]].
  assert (alter (emit buf) c (consoles w) = <[c := emit buf elm]> (consoles w)) as Ea.
  { apply map_eq. intros i. destruct (decide (i = c)) as [->|]; simplify_map_eq; done. }
  apply wp_bind. apply (wp_mono _ (λ _ w', w' = l_set_consoles (alter (emit buf) c (consoles w)) w)).
  - apply wp_bind, wp_gets, wp_bind, wp_deref. exists elm. split; [done|].
    destruct (c_write elm) eqn:Ew.
    + apply wp_bind. unfold l_acquire. apply wp_bind, wp_get. rewrite decide_False; [rewrite HL; set_solver|].
      apply wp_put, wp_bind. unfold console_write. apply wp_bind, wp_get, wp_bind, wp_deref. exists elm. split; [done|].
      apply wp_put, wp_modify. rewrite Ea. unfold emit. rewrite Ew. unfold l_set_consoles, l_set_locks. simpl.
      f_equal. rewrite locks_back //. rewrite HL. set_solver.
    + apply wp_ret. rewrite Ea. unfold emit. rewrite Ew insert_id //. by destruct w.
  - intros [] w1 ->. eapply wp_mono; [apply IH; [done|]|].
    + intros x Hx. destruct (Hl x ltac:(by right)) as [? ?]. split; [done|]. simpl. by rewrite lookup_alter_is_Some.
    + intros [] w' ->. done.
Qed.

Lemma printk_consoles_write_spec buf w : consoles_free w →
  wp (printk_consoles_write buf) (λ _ w', w' = l_set_consoles (deliver l0 buf (consoles w)) w) w.
Proof.
  intros (El & EL & Hcl & Hc). unfold printk_consoles_write, l_try_lock_intr, l_port_set_ints.
  apply wp_bind, wp_bind, wp_bind, wp_gets, wp_bind, wp_modify, wp_ret, wp_bind, wp_get. simpl.
  rewrite decide_False; [by rewrite EL|]. apply wp_bind, wp_put, wp_ret, wp_bind, wp_gets, wp_bind. simpl. rewrite El.
  eapply wp_mono; [apply consoles_loop; [by rewrite /= EL|done]|]. intros [] w' ->.
  unfold l_release_intr, l_release, l_port_set_ints.
  apply wp_bind, wp_modify, wp_bind, wp_bind, wp_gets, wp_bind, wp_modify, wp_ret, wp_ret.
  unfold l_set_ints, l_set_locks, l_set_consoles. simpl. f_equal. rewrite EL locks_back //.
Qed.

Lemma consoles_free_next buf w : consoles_free w → consoles_free (l_set_consoles (deliver l0 buf (consoles w)) w).
Proof. intros (?&?&?&Hc). split_and!; [done..|]. intros c Hi. destruct (Hc c Hi). by rewrite /= deliver_dom. Qed.

(** Draining the ring: every message, oldest first, to every console. *)
Lemma printk_buffer_write_spec fuel : ∀ w, consoles_free w → lb_ok (g_lb w) → (pending (g_lb w) < fuel)%nat →
  wp (printk_buffer_write fuel) (λ _ w', queued (g_lb w') = [] ∧ lb_ok (g_lb w') ∧
    consoles w' = foldl (λ cs b, deliver l0 b cs) (consoles w) (queued (g_lb w)) ∧
    l_ints w' = l_ints w ∧ l_locks w' = l_locks w ∧ console_list w' = console_list w) w.
Proof.
  induction fuel as [|fuel IH]; intros w Hf Hok Hp; [lia|]. cbn [printk_buffer_write]. apply wp_bind, wp_on_lb.
  rewrite -queued_length in Hp. eapply wp_mono; [by apply logbuffer_read_spec|].
  intros r lb' (Hok' & -> & Eq'). destruct (queued (g_lb w)) as [|t ts] eqn:Eq; simpl in *.
  - apply wp_ret. simpl. rewrite Eq'. done.
  - apply wp_bind. eapply wp_mono; [apply printk_consoles_write_spec; exact Hf|]. intros [] w1 ->.
    eapply wp_mono; [apply IH|].
    + apply (consoles_free_next t (l_set_lb lb' w)). exact Hf.
    + done.
    + rewrite -queued_length /= Eq'. lia.
    + intros [] w2 (? & ? & Ec & ? & ? & ?). split_and!; try done. rewrite Ec. simpl. by rewrite Eq'.
Qed.
End delivery.

(** A message that fits reaches every console, after those still in the ring. *)
(** A message of less than 2 GiB is counted right. *)
Lemma printk_size (pre rest : text) : Z.of_nat (length (pre ++ rest)) < 2 ^ 31 →
  wrap64 (Z.of_nat (length pre) + sint32 (Z.of_nat (length rest))) = Z.of_nat (length (pre ++ rest)).
Proof. rewrite length_app. intros H. rewrite sint32_small; [lia|]. rewrite wrap64_small; lia. Qed.
Lemma printk_delivers LOG_LEVEL lvl rest w :
  ¬ (1 ≤ lvl ∧ lvl ≤ 6 ∧ lvl < LOG_LEVEL) →
  Z.of_nat (length (log_prefix lvl ++ rest)) < MSG_BUF_SIZE →
  lb_ok (g_lb w) → print_lock ∉ l_locks w → consoles_free (console_list w) (l_locks w) w →
  wp (printk LOG_LEVEL lvl rest) (λ _ w', queued (g_lb w') = [] ∧ lb_ok (g_lb w') ∧
    consoles w' = foldl (λ cs b, deliver (console_list w) b cs) (consoles w)
      (if decide (length (queued (g_lb w)) < CAPACITY)%nat
       then queued (g_lb w) ++ [log_prefix lvl ++ rest] else queued (g_lb w)) ∧
    l_ints w' = l_ints w ∧ l_locks w' = l_locks w ∧ console_list w' = console_list w) w.
Proof.
  intros Hlvl Hlen Hok Hpl (_ & _ & Hcl & Hc). unfold printk. rewrite decide_False //.
  unfold l_acquire_intr, l_acquire, l_port_set_ints.
  apply wp_bind, wp_bind, wp_bind, wp_gets, wp_bind, wp_modify, wp_ret, wp_bind, wp_bind, wp_get. simpl.
  rewrite decide_False //. apply wp_put, wp_ret, wp_bind.
  rewrite take_ge; [unfold MSG_BUF_SIZE in *; lia|]. rewrite printk_size; [unfold MSG_BUF_SIZE in *; lia|].
  apply wp_on_lb. eapply wp_mono; [by apply logbuffer_write_spec|]. intros [] lb' [Hok' Eq']. apply wp_bind.
  eapply wp_mono; [apply (printk_buffer_write_spec (console_list w) ({[print_lock]} ∪ l_locks w))|].
  - split_and!; [done|done|set_solver|]. intros c Hi. destruct (Hc c Hi) as [? ?]. split; [set_solver|done].
  - done.
  - simpl. pose proof (pending_lt lb'). unfold CAPACITY, DRAIN_FUEL in *. lia.
  - intros [] w2 (? & ? & Ec & Ei & EL & El). unfold l_release_intr, l_release, l_port_set_ints.
    apply wp_bind, wp_modify, wp_bind, wp_bind, wp_gets, wp_bind, wp_modify, wp_ret, wp_ret. simpl in *.
    split_and!; try done; [by rewrite Ec Eq'|]. rewrite EL. by apply locks_back.
Qed.

(** A message that does not fit stops the kernel, unless the ring is full. *)
Lemma printk_too_long LOG_LEVEL lvl rest w :
  ¬ (1 ≤ lvl ∧ lvl ≤ 6 ∧ lvl < LOG_LEVEL) →
  MSG_BUF_SIZE ≤ Z.of_nat (length (log_prefix lvl ++ rest)) < 2 ^ 31 →
  lb_ok (g_lb w) → (length (queued (g_lb w)) < CAPACITY)%nat → print_lock ∉ l_locks w →
  printk LOG_LEVEL lvl rest w = Panic (AssertFail "size < MSG_BUF_SIZE").
Proof.
  intros Hlvl Hlen Hok Hq Hpl. unfold printk. rewrite decide_False //. apply bind_ends.
  unfold l_acquire_intr, l_acquire, l_port_set_ints.
  apply wp_bind, wp_bind, wp_gets, wp_bind, wp_modify, wp_ret, wp_bind, wp_bind, wp_get. simpl.
  rewrite decide_False //. apply wp_put, wp_ret. apply bind_panic. unfold on_lb, logbuffer_write, mbind, M_bind, get. cbn [g_lb l_set_locks l_set_ints].
  rewrite next_index; [apply Hok|]. rewrite queued_length in Hq. pose proof (pending_eq _ Hok) as Ep.
  destruct Hok as [Hh Ht]. pose proof (mod_wrap (head (g_lb w) + 1) ltac:(unfold MSGS_SIZE in *; lia)) as En.
  rewrite decide_False.
  { unfold MSGS_SIZE, CAPACITY in *. repeat case_decide; lia. }
  unfold put, assertM. rewrite printk_size; [lia|]. rewrite bool_decide_eq_false_2 //. lia.
Qed.
