(* ===== verification/LibProps.v ===== *)
(** * Strings, symbols and the kernel log: properties *)

From S2P Require Import Prelude Str Symbols Log.

(** ** [memmove] *)

(** [memmove] copies correctly whether or not the two areas overlap, in either
    direction: the destination holds the bytes the source held before the call, every
    other byte is what it was, and the destination is returned. *)
Theorem memmove_correct m dest src n : byte_ok m →
  wp (memmove dest src n) (λ r m', r = dest ∧
    ∀ a, m' a = if decide (dest ≤ a < dest + Z.of_nat n) then m (src + (a - dest)) else m a) m.
Proof. intros Hb. by apply memmove_spec. Qed.

(** Two overlapping areas, in both directions. *)
Lemma memmove_correct_witness :
  wp (memmove 12 10 8) (λ r m', m' 13 = 11 ∧ m' 19 = 17) (λ a, a mod 256) ∧
  wp (memmove 10 12 8) (λ r m', m' 10 = 12 ∧ m' 17 = 19) (λ a, a mod 256).
Proof.
  assert (byte_ok (λ a, a mod 256)) as Hb by (intros a; apply Z.mod_pos_bound; lia).
  split; (eapply wp_mono; [exact (memmove_correct _ _ _ _ Hb)|]); intros r m' [_ H]; split; rewrite H; reflexivity.
Defined.

(** ** Kernel symbols *)
Section symbols.
Context {H : Type} `{KMallocOk H}.
Implicit Types s : symw H.

(** Lines in the order of their addresses, as [nm -n] prints them. *)
Definition sorted_lines (ls : list mapline) : Prop :=
  ∀ i j x y, (i < j)%nat → ls !! i = Some x → ls !! j = Some y → hex_value (ml_digits x) < hex_value (ml_digits y).
Lemma sorted_lines_symbols s ys ls : Forall2 (stands_for s) ys ls → sorted_lines ls → sorted_symbols ys.
Proof.
  intros HF Hs i j x y Hij Hx Hy.
  destruct (Forall2_lookup_l _ _ _ _ _ HF Hx) as (a & Ha & E1 & _).
  destruct (Forall2_lookup_l _ _ _ _ _ HF Hy) as (b & Hb & E2 & _). rewrite E1 E2. by eapply Hs.
Qed.

(** What the code does: it finds the last line strictly below [address]. *)
Definition last_below (ls : list mapline) (i : nat) (address : Z) : Prop :=
  ∃ l, ls !! i = Some l ∧ hex_value (ml_digits l) < address ∧
    ∀ l', ls !! S i = Some l' → address ≤ hex_value (ml_digits l').
(** The address lies inside the code of a line: above its address and below the next
    one's.  A line's own address, which [symbol.h] promises to find too, is left out: the
    code answers with the line before ([lookup_of_base]). *)
Definition inside (ls : list mapline) (i : nat) (address : Z) : Prop :=
  ∃ l, ls !! i = Some l ∧ hex_value (ml_digits l) < address ∧
    ∀ l', ls !! S i = Some l' → address < hex_value (ml_digits l').
Lemma inside_below ls i address : inside ls i address → last_below ls i address.
Proof. intros (l & Hl & Hlo & Hhi). exists l. split_and!; [done|done|]. intros l' Hl'. specialize (Hhi l' Hl'). lia. Qed.

Lemma lookup_resolves s ys ls i l address : Forall2 (stands_for s) ys ls → sorted_lines ls →
  ls !! i = Some l → last_below ls i address → ∃ y, ys !! i = Some y ∧ lookup_address_loop address ys None = Some y.
Proof.
  intros HF Hs Hl (l0 & Hl0 & Hlo & Hhi). simplify_eq.
  pose proof (sorted_lines_symbols _ _ _ HF Hs) as Hsy.
  destruct (Forall2_lookup_r _ _ _ _ _ HF Hl) as (y & Hy & Ey & _). exists y. split; [done|].
  pose proof (lookup_address_spec address ys Hsy None) as Hspec.
  destruct (lookup_address_loop address ys None) as [z|].
  - destruct Hspec as [(Hz & Hza & Hmax)|[[=] _]]. f_equal.
    apply list_elem_of_lookup in Hz as [j Hj].
    pose proof (Hmax y (list_elem_of_lookup_2 _ _ _ Hy) ltac:(lia)) as Hyz.
    destruct (Nat.lt_trichotomy i j) as [Hij|[->|Hij]]; [|by simplify_eq|].
    + destruct (lookup_lt_is_Some_2 ls (S i)) as [l' Hl'].
      { apply lookup_lt_Some in Hj. rewrite -(Forall2_length _ _ _ HF). lia. }
      destruct (Forall2_lookup_l _ _ _ _ _ HF Hj) as (lj & Hlj & Ej & _). specialize (Hhi _ Hl').
      destruct (decide (j = S i)) as [->|]; [simplify_eq; lia|].
      assert (hex_value (ml_digits l') < hex_value (ml_digits lj)) by (eapply (Hs (S i) j); [lia|done|done]). lia.
    + specialize (Hsy j i z y Hij Hj Hy). lia.
  - destruct Hspec as [_ Hmin]. specialize (Hmin y (list_elem_of_lookup_2 _ _ _ Hy)). lia.
Qed.

(** The address of a line itself is answered with the line before it. *)
Lemma lookup_of_base s ys ls i l l' : Forall2 (stands_for s) ys ls → sorted_lines ls → ls !! i = Some l → ls !! S i = Some l' →
  ∃ y, ys !! i = Some y ∧ lookup_address_loop (hex_value (ml_digits l')) ys None = Some y.
Proof.
  intros HF Hs Hl Hl'. eapply lookup_resolves; [done|done|done|]. exists l. split_and!; [done|by apply (Hs i (S i)); [lia|..]|].
  intros l2 Hl2. by simplify_eq.
Qed.

(** C23: Parsing the map that [nm] prints gives one symbol per line, in the order of the
    lines, each with the line's address and a C string of the line's name; and looking up
    an address (shifted by the kernel's load offset) that lies strictly between a line's
    address and the next one's finds that line's symbol.  Memory in use is left alone. *)
Theorem symbols_parse_lookup buf lines s : byte_ok (smem s) → Forall line_ok lines → sorted_lines lines →
  text_at (smem s) buf (map_text lines) → used_at s buf (Z.of_nat (length (map_text lines))) →
  0 ≤ buf → buf + Z.of_nat (length (map_text lines)) < 2 ^ 64 → sumZ line_cost lines ≤ room s → symbol_list s = [] →
  wp (symbols_parse_map buf (Z.of_nat (length (map_text lines)))) (λ r s',
    r = Z.of_nat (length lines) ∧ keeps s s' ∧ Forall2 (stands_for s') (symbol_list s') lines ∧
    ∀ i l address, lines !! i = Some l → 0 ≤ address - symbol_offset s < 2 ^ 64 →
      inside lines i (address - symbol_offset s) →
      ∃ y, stands_for s' y l ∧ symbols_lookup_address address s' = Ok (Some y, s')) s.
Proof.
  intros Hb Hok Hs Ht Hu Hp Hlt Hc Hnil. unfold symbols_parse_map. rewrite Nat2Z.id.
  pose proof (symbols_parse_map_loop buf lines 0 0 s) as Hl. rewrite !Z.add_0_r in Hl.
  eapply wp_mono; [by apply Hl|]. intros r s' (-> & K & _ & ys & E & HF). rewrite Hnil app_nil_l in E.
  split_and!; [lia|done|by rewrite E|]. intros i l address Hi Ha Hr.
  destruct (lookup_resolves s' ys lines i l _ HF Hs Hi (inside_below _ _ _ Hr)) as (y & Hy & Ey).
  destruct (Forall2_lookup_l _ _ _ _ _ HF Hy) as (l' & Hl' & Hst). simplify_eq. exists y. split; [done|].
  unfold symbols_lookup_address, gets. rewrite (proj2 (proj2 (proj2 K))) wrap64_small //. by rewrite Ey.
Qed.
End symbols.

(** Three lines of a map at address 4096:
    [ff t a], [100 T ab] and [1f0 t c]. *)
Definition lines0 : list mapline :=
  [MapLine [15; 15] 116 [97]; MapLine [1; 0; 0] 84 [97; 98]; MapLine [1; 15; 0] 116 [99]].
Definition mem_of (p : Z) (t : list Z) : bmem := λ a, if decide (p ≤ a) then default 0 (t !! Z.to_nat (a - p)) else 0.
Lemma mem_of_text p t : text_at (mem_of p t) p t.
Proof.
  intros i c Hi. unfold mem_of. rewrite decide_True; [lia|]. replace (Z.to_nat _) with i by lia. by rewrite Hi.
Qed.
Definition sym0 : symw N := SymW (mem_of 4096 (map_text lines0)) [] 0x1000 0%N.
Lemma sym0_bytes : byte_ok (smem sym0).
Proof.
  intros a. change (smem sym0) with (mem_of 4096 (map_text lines0)). unfold mem_of. case_decide; [|lia].
  destruct (map_text lines0 !! Z.to_nat (a - 4096)) as [c|] eqn:E; cbn [default]; [|lia].
  apply list_elem_of_lookup_2 in E. revert c E. apply (Forall_forall (λ c, 0 ≤ c < 256)). by_eval.
Qed.
Lemma symbols_parse_lookup_witness :
  wp (symbols_parse_map 4096 (Z.of_nat (length (map_text lines0)))) (λ r s', r = 3 ∧
    ∃ y, symbols_lookup_address 0x1142 s' = Ok (Some y, s') ∧ sbase y = 0x100 ∧ cstr (smem s') (symname y) [97; 98]) sym0.
Proof.
  eapply wp_mono; [apply (symbols_parse_lookup 4096 lines0 sym0)|].
  - exact sym0_bytes.
  - unfold lines0, line_ok, digit_ok. by_eval.
  - intros [|[|[|i]]] [|[|[|j]]] x y Hij Hx Hy; try lia; cbv in Hx, Hy; simplify_eq; vm_compute; congruence.
  - apply mem_of_text.
  - change (Z.of_nat (length (map_text lines0))) with 24. intros a Ha Hin. simpl in Hin. unfold ARENA in Hin. lia.
  - lia.
  - vm_compute. congruence.
  - vm_compute. congruence.
  - reflexivity.
  - intros r s' (-> & _ & _ & Hres). split; [reflexivity|].
    destruct (Hres 1%nat (MapLine [1; 0; 0] 84 [97; 98]) 0x1142 eq_refl) as (y & (E & Hc & _) & Hy).
    + split; vm_compute; congruence.
    + eexists. split; [reflexivity|]. split; [vm_compute; congruence|]. intros l' [= <-]. vm_compute. congruence.
    + exists y. split; [exact Hy|]. split; [rewrite E; reflexivity|exact Hc].
Defined.

(** ** The kernel log *)

(** C21: The ring of the kernel log is a bounded first-in first-out queue: any sequence of
    writes (of texts that fit a message buffer) and reads returns what a queue of at most
    1023 messages returns, a write to a full queue being dropped; the indices wrap
    around but never leave the array. *)
Theorem log_ring_refines_fifo os lb : Forall op_fits os → lb_ok lb →
  wp (log_run os) (λ rs _, rs = fifo_run (queued lb) os) lb.
Proof. intros Ho Hl. by apply log_run_refines. Qed.

(** A ring whose indices are about to wrap around. *)
Lemma log_ring_refines_fifo_witness :
  wp (log_run [LWrite [72]; LWrite [105]; LRead; LRead; LRead])
    (λ rs _, rs = [None; None; Some [72]; Some [105]; None]) (LogBuffer (λ _, []) 1023 1023 0).
Proof.
  eapply wp_mono; [apply (log_ring_refines_fifo [LWrite [72]; LWrite [105]; LRead; LRead; LRead])|].
  - by repeat constructor.
  - split; split; vm_compute; congruence.
  - intros rs lb ->. vm_compute. reflexivity.
Defined.

(** C26: [printk] with a level that is not filtered: whatever was pending and then the
    message, prefixed with its level, reach every console that has a [write], in order;
    the ring is empty afterwards, the consoles are otherwise unchanged, and the interrupt
    flag and the locks are as before.  When the ring was full the message is dropped but
    the pending ones are still delivered. *)
Theorem printk_reaches_consoles LOG_LEVEL lvl rest w :
  ~ (1 ≤ lvl ∧ lvl ≤ 6 ∧ lvl < LOG_LEVEL) →
  Z.of_nat (length (log_prefix lvl ++ rest)) < MSG_BUF_SIZE →
  lb_ok (g_lb w) → print_lock ∉ l_locks w → consoles_free (console_list w) (l_locks w) w →
  wp (printk LOG_LEVEL lvl rest) (λ _ w', queued (g_lb w') = [] ∧ lb_ok (g_lb w') ∧
    consoles w' = foldl (λ cs b, deliver (console_list w) b cs) (consoles w)
      (if decide (length (queued (g_lb w)) < CAPACITY)%nat
       then queued (g_lb w) ++ [log_prefix lvl ++ rest] else queued (g_lb w)) ∧
    l_ints w' = l_ints w ∧ l_locks w' = l_locks w ∧ console_list w' = console_list w) w.
Proof. apply printk_delivers. Qed.

(** One pending message, two consoles of which one has no [write]. *)
Definition log0 : logw :=
  LogW (LogBuffer (λ i, if decide (i = 5) then [72; 105] else []) 6 5 0) true ∅ [0; 1]%nat
    {[0%nat := Console true []; 1%nat := Console false []]}.
Lemma printk_reaches_consoles_witness :
  wp (printk 4 0 [79; 75]) (λ _ w', consoles w' !! 0%nat = Some (Console true [[72; 105]; [79; 75]]) ∧
    consoles w' !! 1%nat = Some (Console false [])) log0.
Proof.
  eapply wp_mono; [apply (printk_reaches_consoles 4 0 [79; 75] log0)|].
  - lia.
  - vm_compute. reflexivity.
  - split; split; vm_compute; congruence.
  - set_solver.
  - split; [reflexivity|]. split; [reflexivity|]. split; [set_solver|]. intros c Hc.
    assert (c = 0%nat ∨ c = 1%nat) as Hc' by set_solver. destruct Hc' as [-> | ->]; (split; [set_solver|by eexists]).
  - intros r w' (_ & _ & E & _). rewrite E. split; vm_compute; reflexivity.
Defined.
