(* ===== verification/Irq.v ===== *)
(** * Hardware interrupts: [kernel/irq/irq.c], [kernel/platform/amd64/int.c]

    The 224 vectors that devices can be given, the choice of a vector at a level, and
    the path of an interrupt from the stub to the handlers of the objects on its vector.
    The world is the kernel's of [Core] with the tables of the two files beside it; what
    a device's handler does is a parameter. *)

From S2P Require Import Prelude Core Dpc Timer Sched Dispatch SoftInt.

Definition IRQ_SHAREABLE : Z := 1.
Definition IRQ_FORCE : Z := 2.
Definition IRQ_VECTOR_MAX : Z := 224.
Definition IRQL_VECTOR_COUNT_PER : Z := 16.
(** [((irql) << 4) - 32], converted to [unsigned int]. *)
Definition IRQL_TO_VECTOR (irql : Z) : Z := wrap32 (Z.shiftl irql 4 - 32).

(** [objectcnt] and the objects on [objq]. *)
Record irq_vector_t := IrqVector { v_flags : Z; objectcnt : Z; objq : list nat }.
(** [handler] is the number of a function, or NULL. *)
Record irq_t := Irq { i_vector : option Z; handler : option nat }.
Inductive irq_handler_fn_t := irq_do_dispatch_fn.

(** [eois] counts writes to the EOI register; [unhandled] are the vectors reported so. *)
Record irqw (H : Type) := IrqW {
  ik : kworld H;
  s_vectors : list irq_vector_t;
  irqs : gmap nat irq_t;
  irq_handlers : gmap Z irq_handler_fn_t;
  eois : nat;
  unhandled : list Z;
}.
Arguments IrqW {H} _ _ _ _ _ _.
Arguments ik {H} _.
Arguments s_vectors {H} _.
Arguments irqs {H} _.
Arguments irq_handlers {H} _.
Arguments eois {H} _.
Arguments unhandled {H} _.

Section irq.
Context {H : Type}.
Notation W := (irqw H).
Definition i_set_k k (w : W) : W := IrqW k (s_vectors w) (irqs w) (irq_handlers w) (eois w) (unhandled w).
Definition i_set_vectors v (w : W) : W := IrqW (ik w) v (irqs w) (irq_handlers w) (eois w) (unhandled w).
Definition i_set_irqs x (w : W) : W := IrqW (ik w) (s_vectors w) x (irq_handlers w) (eois w) (unhandled w).
Definition i_set_handlers x (w : W) : W := IrqW (ik w) (s_vectors w) (irqs w) x (eois w) (unhandled w).

(** A routine of the kernel world. *)
Definition on_k {A} (f : M (kworld H) A) : M W A := λ w,
  match f (ik w) with Ok (a, k) => Ok (a, i_set_k k w) | Panic e => Panic e end.

Context (lower : Z → M (kworld H) unit).
(** The handler [f] of the object [o]; [true] is [kIrqAck]. *)
Context (call_handler : nat → nat → M W bool).

(** [&s_vectors[vec]]. *)
Definition vector_at (vec : Z) : M W irq_vector_t :=
  w ← get;
  if decide (0 ≤ vec < IRQ_VECTOR_MAX) then deref "s_vectors" (s_vectors w !! Z.to_nat vec)
  else fail (OutOfBounds "s_vectors").

Definition irq_init : M W unit :=
  modify (i_set_vectors (replicate (Z.to_nat IRQ_VECTOR_MAX) (IrqVector 0 0 []))).

(** [obj->vector = nullptr]; the block comes from the object's slab cache, and [fn] is what
    its [handler] field holds: the caller sets it. *)
Definition irq_allocate_obj (o : nat) (fn : option nat) : M W unit :=
  modify (λ w, i_set_irqs (<[o := Irq None fn]> (irqs w)) w).
Definition irq_free_obj (o : nat) : M W unit := modify (λ w, i_set_irqs (delete o (irqs w)) w).

(** [TAILQ_FOREACH] over the objects: the number of acknowledgements. *)
Fixpoint run_handlers (objs : list nat) (ack_count : Z) : M W Z :=
  match objs with
  | [] => mret ack_count
  | o :: objs =>
      x ← gets (λ w, irqs w !! o);
      x ← deref "obj" x;
      match handler x with
      | Some f =>
          ack ← call_handler f o;
          run_handlers objs (if (ack : bool) then ack_count + 1 else ack_count)
      | None => run_handlers objs ack_count
      end
  end.
Definition report_unhandled (vec : Z) : M W unit :=
  modify (λ w, IrqW (ik w) (s_vectors w) (irqs w) (irq_handlers w) (eois w) (unhandled w ++ [vec])).
Definition irq_do_dispatch (vec : Z) : M W unit :=
  h ← vector_at vec;
  if decide (objectcnt h = 0) then report_unhandled vec else
  ack_count ← run_handlers (objq h) 0;
  if decide (ack_count = 0) then report_unhandled vec else mret tt.

(** [irq_handlers[vec + 32]], an array of 256. *)
Definition port_register_isr (vec : Z) (handler_fn : option irq_handler_fn_t) : M W Z :=
  let i := wrap32 (vec + 32) in
  if decide (256 ≤ i) then fail (OutOfBounds "irq_handlers") else
  w ← get;
  if decide (is_Some (irq_handlers w !! i) ∧ is_Some handler_fn) then mret 1 else
  put (i_set_handlers (partial_alter (λ _, handler_fn) i (irq_handlers w)) w);;
  mret 0.

Definition irq_register_handler (o : nat) (vec flags : Z) : M W Z :=
  h ← vector_at vec;
  modify (λ w, i_set_vectors (<[Z.to_nat vec := IrqVector (if decide (objectcnt h = 0) then flags else v_flags h)
    (wrap64 (objectcnt h + 1)) (objq h ++ [o])]> (s_vectors w)) w);;
  w ← get;
  x ← deref "obj" (irqs w !! o);
  put (i_set_irqs (<[o := Irq (Some vec) (handler x)]> (irqs w)) w);;
  port_register_isr vec (Some irq_do_dispatch_fn).

(** The loop over the vectors of a level, [n] of them from [vec]. *)
Fixpoint search_vector (flags : Z) (n : nat) (vec found : Z) : M W Z :=
  match n with
  | O => mret found
  | S n =>
      h ← vector_at vec;
      if decide (objectcnt h = 0) then mret vec
      else if decide (Z.land (v_flags h) IRQ_SHAREABLE ≠ 0 ∧ Z.land flags IRQ_SHAREABLE ≠ 0) then
        if decide (found ≠ IRQ_VECTOR_MAX) then
          f ← vector_at found;
          search_vector flags n (vec + 1) (if decide (objectcnt f > objectcnt h) then vec else found)
        else search_vector flags n (vec + 1) vec
      else search_vector flags n (vec + 1) found
  end.

Definition irq_initialize_obj_irql (o : nat) (irqlWanted flags : Z) : M W Z :=
  w ← get;
  x ← deref "obj" (irqs w !! o);
  assertM (bool_decide (i_vector x = None)) "obj->vector == nullptr";;
  oldIrql ← on_k (spinlock_acquire_raise irq_lock);
  let search_base := IRQL_TO_VECTOR irqlWanted in
  let bound := wrap32 (search_base + IRQL_VECTOR_COUNT_PER) in
  found ← search_vector flags (Z.to_nat (bound - search_base)) search_base IRQ_VECTOR_MAX;
  if decide (found = IRQ_VECTOR_MAX) then
    on_k (spinlock_release irq_lock;; lower oldIrql);;
    mret 1
  else
    ret ← irq_register_handler o found flags;
    on_k (spinlock_release irq_lock;; lower oldIrql);;
    mret ret.

(** ** The interrupt stub's C half *)
Definition apic_eoi : M W unit :=
  modify (λ w, IrqW (ik w) (s_vectors w) (irqs w) (irq_handlers w) (S (eois w)) (unhandled w)).
Definition handle_irq (number : Z) : M W unit :=
  old ← on_k (irql_raise (Z.shiftr number 4));
  on_k port_enable_ints;;
  apic_eoi;;
  w ← get;
  assertM (bool_decide (is_Some (irq_handlers w !! number))) "irq_handlers[number]";;
  irq_do_dispatch (wrap32 (number - 32));;
  on_k port_disable_ints;;
  on_k (lower old).
End irq.

(** ** The vectors *)
Section specs.
Context {H : Type}.
Notation W := (irqw H).
Implicit Types w : W.

Lemma wp_on_k {A} (f : M (kworld H) A) Q w : wp f (λ a k, Q a (i_set_k k w)) (ik w) → wp (on_k f) Q w.
Proof. rewrite /wp /on_k. by destruct (f (ik w)) as [[a k]|]. Qed.

(** Every vector is there and counts the objects on it. *)
Definition vectors_ok w : Prop :=
  length (s_vectors w) = Z.to_nat IRQ_VECTOR_MAX ∧
  ∀ i h, s_vectors w !! i = Some h → objectcnt h = Z.of_nat (length (objq h)) ∧ objectcnt h < 2 ^ 63.

Lemma vector_at_ok w vec : vectors_ok w → 0 ≤ vec < IRQ_VECTOR_MAX →
  ∃ h, s_vectors w !! Z.to_nat vec = Some h ∧ vector_at vec w = Ok (h, w).
Proof.
  intros [Hl _] Hv. destruct (lookup_lt_is_Some_2 (s_vectors w) (Z.to_nat vec)) as [h Hh]; [unfold IRQ_VECTOR_MAX in *; lia|].
  exists h. split; [done|]. unfold vector_at, mbind, M_bind, get. rewrite decide_True //. by rewrite Hh.
Qed.

(** A vector with objects that one more may share. *)
Definition shareable (flags : Z) (h : irq_vector_t) : Prop :=
  Z.land (v_flags h) IRQ_SHAREABLE ≠ 0 ∧ Z.land flags IRQ_SHAREABLE ≠ 0.

Section search.
Context (flags base : Z) (w : W).
Definition slot (i : nat) : option irq_vector_t := s_vectors w !! Z.to_nat (base + Z.of_nat i).
(** [i] is the least loaded of the shareable slots below [k], the first of them. *)
Definition least_loaded (k i : nat) : Prop :=
  (i < k)%nat ∧ ∃ h, slot i = Some h ∧ shareable flags h ∧
    ∀ j hj, (j < k)%nat → slot j = Some hj → shareable flags hj →
      objectcnt h ≤ objectcnt hj ∧ ((j < i)%nat → objectcnt h < objectcnt hj).
Definition none_free (k : nat) : Prop := ∀ j h, (j < k)%nat → slot j = Some h → objectcnt h ≠ 0.
Definition best_upto (k : nat) (found : Z) : Prop :=
  (found = IRQ_VECTOR_MAX ∧ ∀ j h, (j < k)%nat → slot j = Some h → ¬ shareable flags h) ∨
  ∃ i, found = base + Z.of_nat i ∧ least_loaded k i.
(** What the loop finds among [k] slots: the first free one, else the least loaded
    shareable one, else none. *)
Definition search_result (k : nat) (found : Z) : Prop :=
  (∃ i h, (i < k)%nat ∧ found = base + Z.of_nat i ∧ slot i = Some h ∧ objectcnt h = 0 ∧ none_free i) ∨
  (none_free k ∧ best_upto k found).

Context (Hok : vectors_ok w) (Hbase : 0 ≤ base).

Lemma best_upto_step k h found : slot k = Some h → best_upto k found →
  (¬ shareable flags h → best_upto (S k) found) ∧
  (shareable flags h → found = IRQ_VECTOR_MAX → (∀ j hj, (j < k)%nat → slot j = Some hj → ¬ shareable flags hj) →
     best_upto (S k) (base + Z.of_nat k)).
Proof.
  intros Hk Hb. split.
  - intros Hn. destruct Hb as [[-> Hno]|(i & -> & Hi & hi & Hs & Hsh & Hmin)].
    + left. split; [done|]. intros j hj Hj Hsj. destruct (decide (j = k)) as [->|]; [by simplify_eq|]. apply (Hno j); [lia|done].
    + right. exists i. split; [done|]. split; [lia|]. exists hi. split_and!; [done|done|].
      intros j hj Hj Hsj Hshj. destruct (decide (j = k)) as [->|]; [by simplify_eq|]. apply Hmin; [lia|done|done].
  - intros Hsh -> Hno. right. exists k. split; [done|]. split; [lia|]. exists h. split_and!; [done|done|].
    intros j hj Hj Hsj Hshj. destruct (decide (j = k)) as [->|]; [simplify_eq; lia|].
    exfalso. by apply (Hno j hj); [lia|..].
Qed.

Lemma search_vector_spec n : ∀ k found, base + Z.of_nat (k + n) ≤ IRQ_VECTOR_MAX → none_free k → best_upto k found →
  wp (search_vector flags n (base + Z.of_nat k) found) (λ r w', w' = w ∧ search_result (k + n) r) w.
Proof.
  induction n as [|n IH]; intros k found Hb Hf Hbest; cbn [search_vector].
  { apply wp_ret. split; [done|]. right. by rewrite Nat.add_0_r. }
  destruct (vector_at_ok w (base + Z.of_nat k) Hok) as (h & Hh & Ev); [unfold IRQ_VECTOR_MAX in *; lia|].
  assert (slot k = Some h) as Hsk by done.
  eapply wp_run_eq; [exact (bind_ok _ _ _ _ _ Ev)|].
  destruct (decide (objectcnt h = 0)) as [Hz|Hz].
  { apply wp_ret. split; [done|]. left. exists k, h. split_and!; try done. lia. }
  assert (none_free (S k)) as Hf'.
  { intros j hj Hj Hsj. destruct (decide (j = k)) as [->|]; [by simplify_eq|]. apply (Hf j); [lia|done]. }
  destruct (best_upto_step k h found Hsk Hbest) as [B1 B2].
  replace (base + Z.of_nat k + 1) with (base + Z.of_nat (S k)) by lia.
  rewrite -Nat.add_succ_comm. rewrite -Nat.add_succ_comm in Hb.
  fold (shareable flags h). destruct (decide (shareable flags h)) as [Hsh|Hsh].
  2:{ apply (IH (S k)); [done|done|]. by apply B1. }
  destruct Hbest as [[-> Hno]|(i & -> & Hi & hi & Hs & Hshi & Hmin)].
  { destruct (decide (IRQ_VECTOR_MAX ≠ IRQ_VECTOR_MAX)); [done|]. apply (IH (S k)); [done|done|]. by apply B2. }
  destruct (decide (base + Z.of_nat i ≠ IRQ_VECTOR_MAX)) as [_|Hm]; [|exfalso; apply Hm; lia].
  destruct (vector_at_ok w (base + Z.of_nat i) Hok) as (hi' & Hhi & Ei); [unfold IRQ_VECTOR_MAX in *; lia|].
  unfold slot in Hs. assert (hi' = hi) as -> by congruence.
  eapply wp_run_eq; [exact (bind_ok _ _ _ _ _ Ei)|]. apply (IH (S k)); [done|done|]. right.
  destruct (decide (objectcnt hi > objectcnt h)) as [Hgt|Hgt].
  - exists k. split; [done|]. split; [lia|]. exists h. split_and!; [done|done|]. intros j hj Hj Hsj Hshj.
    destruct (decide (j = k)) as [->|]; [simplify_eq; lia|]. destruct (Hmin j hj); [lia|done|done|]. lia.
  - exists i. split; [done|]. split; [lia|]. exists hi. split_and!; [done|done|]. intros j hj Hj Hsj Hshj.
    destruct (decide (j = k)) as [->|]; [|apply Hmin; [lia|done|done]].
    assert (hj = h) as -> by congruence. lia.
Qed.
End search.

(** Registration on a vector. *)
Definition registered_world (o : nat) (x : irq_t) (vec flags : Z) (h : irq_vector_t) w : W :=
  i_set_handlers (<[vec + 32 := irq_do_dispatch_fn]> (irq_handlers w))
    (i_set_irqs (<[o := Irq (Some vec) (handler x)]> (irqs w))
      (i_set_vectors (<[Z.to_nat vec := IrqVector (if decide (objectcnt h = 0) then flags else v_flags h)
         (objectcnt h + 1) (objq h ++ [o])]> (s_vectors w)) w)).

Lemma irq_register_handler_spec o x vec flags h w : vectors_ok w → irqs w !! o = Some x →
  0 ≤ vec < IRQ_VECTOR_MAX → s_vectors w !! Z.to_nat vec = Some h →
  wp (irq_register_handler o vec flags) (λ r w', w' = registered_world o x vec flags h w ∧
    r = if decide (is_Some (irq_handlers w !! (vec + 32))) then 1 else 0) w.
Proof.
  intros Hok Hx Hv Hh. unfold irq_register_handler. destruct (vector_at_ok w vec Hok Hv) as (h' & Hh' & Ev).
  simplify_eq. eapply wp_run_eq; [exact (bind_ok _ _ _ _ _ Ev)|]. destruct Hok as [_ Hok]. destruct (Hok _ _ Hh) as [Hc Hlt].
  apply wp_bind, wp_modify, wp_bind, wp_get, wp_bind, wp_deref. exists x. split; [done|]. apply wp_bind, wp_put.
  unfold port_register_isr, IRQ_VECTOR_MAX in *. unfold wrap32. rewrite Z.mod_small; [lia|]. rewrite decide_False; [lia|].
  unfold wrap64. rewrite Z.mod_small; [lia|].
  apply wp_bind, wp_get. simpl. destruct (decide (is_Some (irq_handlers w !! (vec + 32)))) as [Hr|Hr].
  - rewrite decide_True; [done|]. apply wp_ret. split; [|done]. unfold registered_world, i_set_handlers, i_set_irqs, i_set_vectors.
    simpl. f_equal. symmetry. apply insert_id. by destruct Hr as [[] Hr].
  - rewrite decide_False; [naive_solver|]. apply wp_bind, wp_put, wp_ret. split; [|done].
    unfold registered_world, i_set_handlers, i_set_irqs, i_set_vectors. simpl. f_equal.
Qed.

Lemma registered_ok o x vec flags h w : vectors_ok w → 0 ≤ vec < IRQ_VECTOR_MAX → s_vectors w !! Z.to_nat vec = Some h →
  objectcnt h + 1 < 2 ^ 63 → vectors_ok (registered_world o x vec flags h w).
Proof.
  intros [Hl Hok] Hv Hh Hc. split; simpl; [by rewrite length_insert|]. intros i h' [(<- & <- & Hi)|[Hne Hi]]%list_lookup_insert_Some.
  - simpl. destruct (Hok _ _ Hh) as [E _]. rewrite length_app /=. lia.
  - by eapply Hok.
Qed.

Context (lower : Z → M (kworld H) unit) (Hlower : lower_idle lower).

(** The level and the lock are as they were before. *)
Lemma unlock_irq (w1 : W) old k : ik w1 = k_locks ({[irq_lock]} ∪ locks k) (k_cpu (set_irql IRQL_DISPATCH (kcpu k)) k) →
  old = irql (kcpu k) → 0 ≤ old ≤ IRQL_DISPATCH → softint_pending (kcpu k) = 0 → irq_lock ∉ locks k →
  wp (on_k (spinlock_release irq_lock;; lower old)) (λ _ w', w' = i_set_k k w1) w1.
Proof.
  intros Ek -> Ho Hp Hl. apply wp_on_k. rewrite Ek. repeat k_step. rewrite /wp Hlower; [k_simpl; lia|done|].
  f_equal. unfold k_cpu, k_locks. k_simpl. rewrite release_acquired //.
Qed.

Lemma irq_initialize_spec o x irqlWanted flags w : vectors_ok w → irqs w !! o = Some x → i_vector x = None →
  2 ≤ irqlWanted ≤ 15 → irq_lock ∉ locks (ik w) → 0 ≤ irql (kcpu (ik w)) ≤ IRQL_DISPATCH →
  softint_pending (kcpu (ik w)) = 0 →
  wp (irq_initialize_obj_irql lower o irqlWanted flags) (λ r w', ∃ found,
    search_result flags (IRQL_TO_VECTOR irqlWanted) w 16 found ∧
    ((found = IRQ_VECTOR_MAX ∧ r = 1 ∧ w' = w) ∨
     (∃ h, s_vectors w !! Z.to_nat found = Some h ∧ w' = registered_world o x found flags h w ∧
        r = if decide (is_Some (irq_handlers w !! (found + 32))) then 1 else 0))) w.
Proof.
  intros Hok Hx Hvn Hi Hl Hirql Hp. unfold irq_initialize_obj_irql.
  apply wp_bind, wp_get, wp_bind, wp_deref. exists x. split; [done|]. apply wp_bind, wp_assert. split; [by apply bool_decide_eq_true|].
  apply wp_bind, wp_on_k. unfold spinlock_acquire_raise, irql_raise. repeat k_step.
  apply wp_assert_i; [apply bool_decide_eq_true; lia|]. repeat k_step.
  set (w1 := i_set_k _ w).
  assert (IRQL_TO_VECTOR irqlWanted = irqlWanted * 16 - 32) as Eb.
  { unfold IRQL_TO_VECTOR, wrap32. rewrite Z.shiftl_mul_pow2; [lia|]. apply Z.mod_small. lia. }
  assert (wrap32 (IRQL_TO_VECTOR irqlWanted + IRQL_VECTOR_COUNT_PER) - IRQL_TO_VECTOR irqlWanted = 16) as ->.
  { unfold IRQL_VECTOR_COUNT_PER, wrap32. rewrite Eb Z.mod_small; lia. }
  change (Z.to_nat 16) with 16%nat.
  pose proof (search_vector_spec flags (IRQL_TO_VECTOR irqlWanted) w1) as Hs.
  specialize (Hs Hok ltac:(lia) 16%nat 0%nat IRQ_VECTOR_MAX). rewrite Z.add_0_r in Hs.
  eapply wp_mono; [apply Hs|].
  - rewrite Eb. unfold IRQ_VECTOR_MAX. lia.
  - intros j h Hj. lia.
  - left. split; [done|]. intros j h Hj. lia.
  - intros found w2 [-> Hres]. destruct (decide (found = IRQ_VECTOR_MAX)) as [->|Hf].
    + apply wp_bind. eapply wp_mono; [apply (unlock_irq w1 _ (ik w)); done|]. intros [] w' ->. apply wp_ret.
      exists IRQ_VECTOR_MAX. split; [exact Hres|]. left. split_and!; [done|done|]. by destruct w.
    + assert (0 ≤ found < IRQ_VECTOR_MAX ∧ is_Some (s_vectors w !! Z.to_nat found)) as [Hr [h Hh]].
      { destruct Hres as [(i & h & Hi' & -> & Hsl & _)|[_ [[? _]|(i & -> & Hi' & h & Hsl & _)]]]; [..|done|];
          (split; [rewrite Eb; unfold IRQ_VECTOR_MAX; lia|eexists; exact Hsl]). }
      apply wp_bind. eapply wp_mono; [apply (irq_register_handler_spec o x found flags h w1); done|].
      intros r w3 [-> ->]. apply wp_bind. eapply wp_mono; [apply (unlock_irq _ _ (ik w)); done|].
      intros [] w' ->. apply wp_ret. exists found. split; [exact Hres|]. right. exists h. split_and!; [done| |done].
      by destruct w.
Qed.

(** ** Delivery *)
Section delivery.
Context (call_handler : nat → nat → M W bool).

(** The handlers of [objs] run one after another; [n] of them acknowledge. *)
Inductive handled : list nat → W → Z → W → Prop :=
| handled_nil w : handled [] w 0 w
| handled_skip o objs x w n w' : irqs w !! o = Some x → handler x = None →
    handled objs w n w' → handled (o :: objs) w n w'
| handled_call o objs x f w (ack : bool) w1 n w' : irqs w !! o = Some x → handler x = Some f →
    call_handler f o w = Ok (ack, w1) → handled objs w1 n w' →
    handled (o :: objs) w (if ack then n + 1 else n) w'.

Lemma run_handlers_spec objs w n w' : handled objs w n w' → ∀ k,
  run_handlers call_handler objs k w = Ok (k + n, w').
Proof.
  induction 1 as [w|o objs x w n w' Hx Hn Hh IH|o objs x f w ack w1 n w' Hx Hf Hc Hh IH]; intros k; cbn [run_handlers].
  - by rewrite Z.add_0_r.
  - unfold mbind, M_bind, gets. rewrite Hx. simpl. by rewrite Hn IH.
  - unfold mbind, M_bind, gets. rewrite Hx. simpl. rewrite Hf Hc IH. f_equal. destruct ack; f_equal; lia.
Qed.

(** The world the handlers start in: at the vector's level, interrupts on, the
    interrupt acknowledged at the controller. *)
Definition handler_world (number : Z) w : W :=
  let k := k_cpu (set_ints true (set_irql (Z.shiftr number 4) (kcpu (ik w)))) (ik w) in
  IrqW k (s_vectors w) (irqs w) (irq_handlers w) (S (eois w)) (unhandled w).
(** A vector nobody acknowledged is reported. *)
Definition reported (n number : Z) (w1 : W) : W :=
  if decide (n = 0) then
    IrqW (ik w1) (s_vectors w1) (irqs w1) (irq_handlers w1) (eois w1) (unhandled w1 ++ [number - 32])
  else w1.

Lemma handle_irq_spec number h w n w1 Q : vectors_ok w → 32 ≤ number < 256 →
  irql (kcpu (ik w)) ≤ Z.shiftr number 4 → is_Some (irq_handlers w !! number) →
  s_vectors w !! Z.to_nat (number - 32) = Some h → objectcnt h ≠ 0 →
  handled (objq h) (handler_world number w) n w1 →
  wp (lower (irql (kcpu (ik w)))) (λ _ k', Q tt (i_set_k k' (reported n number w1)))
    (k_cpu (set_ints false (kcpu (ik w1))) (ik w1)) →
  wp (handle_irq lower call_handler number) Q w.
Proof.
  intros Hok Hnum Hirql Hreg Hh Hcnt Hrun Hlow. unfold handle_irq, irql_raise, port_enable_ints, port_disable_ints.
  apply wp_bind, wp_on_k. repeat k_step. apply wp_assert_i; [apply bool_decide_eq_true; lia|]. repeat k_step.
  apply wp_on_k. repeat k_step. apply wp_bind, wp_get, wp_bind, wp_assert. split; [by apply bool_decide_eq_true|].
  match goal with |- wp _ _ ?x => change x with (handler_world number w) end.
  unfold wrap32. rewrite Z.mod_small; [lia|]. apply wp_bind.
  assert (irq_do_dispatch call_handler (number - 32) (handler_world number w) = Ok (tt,
    reported n number w1)) as Ed.
  { unfold irq_do_dispatch. destruct (vector_at_ok (handler_world number w) (number - 32) Hok) as (h' & Hh' & Ev).
    { unfold IRQ_VECTOR_MAX. lia. }
    assert (h' = h) as -> by (cbn in Hh'; congruence). rewrite (bind_ok _ _ _ _ _ Ev) decide_False //.
    rewrite (bind_ok _ _ _ _ _ (run_handlers_spec _ _ _ _ Hrun 0)) Z.add_0_l. unfold reported. by case_decide. }
  apply wp_ok. eexists tt, _. split; [exact Ed|].
  assert (ik (reported n number w1) = ik w1) as Ek by by (unfold reported; case_decide).
  apply wp_bind, wp_on_k. repeat k_step. apply wp_on_k. cbn [ik i_set_k]. rewrite Ek. by eapply wp_mono; [exact Hlow|intros []].
Qed.
End delivery.
End specs.

(** ** The clock interrupt: [timer_handler] of [kernel/platform/amd64/apic.c] *)
Section clock.
Context {H : Type} `{TimerHeap H}.
Notation W := (irqw H).
Context (hw_clock : nat → Z) (resume : nat → M (kworld H) unit)
  (client : nat → nat → option nat → option nat → M (kworld H) unit) (fuel : nat).

Definition timer_handler : M (kworld H) bool :=
  now ← current_nanos hw_clock;
  c ← gets kcpu;
  whenM (bool_decide (now >= next_deadline c)) (dpc_enqueue (timer_update c) None None);;
  mret true.

(** Lowering to a level that masks whatever is pending only sets the level. *)
Lemma irql_lower_masked l (k : kworld H) : 0 ≤ l ≤ irql (kcpu k) → Z.shiftr (softint_pending (kcpu k)) l = 0 →
  irql_lower hw_clock resume client (S fuel) l k = Ok (tt, k_cpu (set_irql l (kcpu k)) k).
Proof.
  intros Hl Hp. assert (wp (irql_lower hw_clock resume client (S fuel) l) (λ _ w', w' = k_cpu (set_irql l (kcpu k)) k) k) as Hwp.
  { cbn [irql_lower]. unfold irql_lower_body. repeat k_step.
    apply wp_assert_i; [apply bool_decide_eq_true; lia|]. repeat k_step.
    rewrite Hp. destruct (decide (0 ≠ 0)) as [?|_]; [done|]. by k_step. }
  apply wp_ok in Hwp as ([] & w' & E & ->). done.
Qed.

(** The world in which the deadline passed and the timer DPC is queued. *)
Definition ticked (d : nat) (x : dpc) (k : kworld H) : kworld H :=
  enqueued_world d x None None (k_reads (S (reads k)) k).

Lemma timer_handler_spec d x k : timer_update (kcpu k) = d → dpcs k !! d = Some x → enqueued x = false →
  dpc_lock ∉ locks k → next_deadline (kcpu k) ≤ hw_clock (reads k) →
  timer_handler k = Ok (true, ticked d x k).
Proof.
  intros Hd Hx He Hl Hn. assert (wp timer_handler (λ r k', r = true ∧ k' = ticked d x k) k) as Hwp.
  { unfold timer_handler, current_nanos. repeat k_step. rewrite bool_decide_true; [lia|]. cbn [whenM].
    rewrite Hd. eapply wp_dpc_enqueue; [done|done|done|]. by k_step. }
  by apply wp_ok in Hwp as (r & k' & E & -> & ->).
Qed.
(** An interrupt that comes before the deadline is acknowledged and nothing else: neither
    is the timer DPC queued nor the clock armed again. *)
Lemma timer_handler_early k : hw_clock (reads k) < next_deadline (kcpu k) →
  timer_handler k = Ok (true, k_reads (S (reads k)) k).
Proof.
  intros Hn. assert (wp timer_handler (λ r k', r = true ∧ k' = k_reads (S (reads k)) k) k) as Hwp.
  { unfold timer_handler, current_nanos. repeat k_step. rewrite bool_decide_false; [lia|]. by apply wp_ret. }
  by apply wp_ok in Hwp as (r & k' & E & -> & ->).
Qed.
End clock.

Section ticked.
Context {H : Type} `{TimerHeap H}.

(** Ticking keeps what lowering the level needs. *)
Lemma ticked_dispatch cur x n d y (k : kworld H) c : dispatch_inv cur x n (dispatch_world k) → dpcs k !! d = Some y →
  thread_current c = thread_current (kcpu k) → thread_next c = thread_next (kcpu k) →
  timer_update c = timer_update (kcpu k) →
  dispatch_inv cur x n (dispatch_world (k_cpu c (ticked d y k))).
Proof.
  intros [Ds Dl Dp Dk Dt De Dn] Hy E1 E2 E3. split; try done.
  - eapply sched_inv_ext; [exact Ds|by rewrite -?E1 -?E2 -?E3..|done|done|done| |done].
    unfold dispatch_world, ticked, enqueued_world. k_simpl. intros i Hi. rewrite lookup_insert_is_Some'. by right.
  - destruct Dt. by split.
  - eapply Forall_impl; [exact De|]. intros z Hz. eapply queued_ok_ext; [exact Hz|done..|].
    unfold dispatch_world, ticked, enqueued_world. k_simpl. intros i e He. destruct (decide (d = i)) as [<-|Hne].
    + rewrite lookup_insert_eq. eexists. split; [done|]. by simplify_eq.
    + exists e. by rewrite lookup_insert_ne.
Qed.
Lemma ticked_queue d y f (k : kworld H) c : dpcq_ok k → queue_fns dispatch_fn k → dpcs k !! d = Some y → enqueued y = false →
  d_function y = Some f → dispatch_fn f → dpcq c = dpcq (kcpu k) ++ [d] → dpc_count c = wrap64 (dpc_count (kcpu k) + 1) →
  dpcq_ok (k_cpu c (ticked d y k)) ∧ queue_fns dispatch_fn (k_cpu c (ticked d y k)).
Proof.
  intros Hok Hfn Hy He Hf HF Eq Ec. split.
  - eapply (dpcq_ok_ext (ticked d y k)); [|done..]. eapply enqueued_world_ok; [by apply (dpcq_ok_ext k)|done..].
  - intros e z g. unfold ticked, enqueued_world. k_simpl. rewrite Eq. intros Hin Hz Hg.
    destruct (decide (d = e)) as [<-|Hne].
    + rewrite lookup_insert_eq in Hz. injection Hz as <-. cbn in Hg. congruence.
    + rewrite lookup_insert_ne // in Hz. eapply (Hfn e z g); [set_solver|done..].
Qed.
End ticked.
