(* ===== verification/IrqProps.v ===== *)
(** * Hardware interrupts: properties *)

From S2P Require Import Prelude Queue Core Dpc Timer Sched Dispatch SoftInt KernelProps Irq.
Import Machine.

(** ** Interrupt vectors *)

(** A device that asks for a vector at a level gets the first free one of the level's
    sixteen; if none is free and it can share, the shareable one with the fewest objects;
    otherwise nothing changes and the result is 1.  In the first two cases the object is
    appended to the vector's queue and counted, and lock and level are as before.  The
    result is 0 only for a vector that was free: joining a shared one reports 1 although
    the object is registered. *)
Theorem irq_vector_choice {H} `{TimerHeap H} hw_clock resume client fuel o x irqlWanted flags (w : irqw H) :
  vectors_ok w → irqs w !! o = Some x → i_vector x = None → 2 ≤ irqlWanted ≤ 15 →
  irq_lock ∉ locks (ik w) → 0 ≤ irql (kcpu (ik w)) ≤ IRQL_DISPATCH → softint_pending (kcpu (ik w)) = 0 →
  wp (irq_initialize_obj_irql (irql_lower hw_clock resume client (S fuel)) o irqlWanted flags) (λ r w', ∃ found,
    search_result flags (IRQL_TO_VECTOR irqlWanted) w 16 found ∧
    ((found = IRQ_VECTOR_MAX ∧ r = 1 ∧ w' = w) ∨
     (∃ h, s_vectors w !! Z.to_nat found = Some h ∧ w' = registered_world o x found flags h w ∧
        r = if decide (is_Some (irq_handlers w !! (found + 32))) then 1 else 0))) w.
Proof. apply irq_initialize_spec, irql_lower_idle. Qed.

(** Object 0 is to join vector 177, the second of level 13, which object 7 holds. *)
Definition irq_world (k : kworld HP) (v : list irq_vector_t) : irqw HP :=
  IrqW k v {[0%nat := Irq None (Some 0%nat)]} {[208 := irq_do_dispatch_fn]} 0 [].
Definition vectors0 : list irq_vector_t :=
  <[176%nat := IrqVector 0 1 [7%nat]]> (replicate (Z.to_nat IRQ_VECTOR_MAX) (IrqVector 0 0 [])).
Lemma vectors0_ok k : vectors_ok (irq_world k vectors0).
Proof.
  split; [reflexivity|]. intros i h Hi. apply list_lookup_insert_Some in Hi as [(_ & <- & _)|[_ Hi]]; [done|].
  apply lookup_replicate in Hi as [-> _]. done.
Qed.
Lemma irq_vector_choice_witness :
  wp (irq_initialize_obj_irql (irql_lower clock stay mark 1) 0 IRQL_CLOCK IRQ_FORCE) (λ r w', r = 0 ∧
    s_vectors w' !! 177%nat = Some (IrqVector IRQ_FORCE 1 [0%nat])) (irq_world machine vectors0).
Proof.
  eapply wp_mono; [apply (irq_vector_choice clock stay mark 0 0 (Irq None (Some 0%nat)) IRQL_CLOCK IRQ_FORCE)|].
  - apply vectors0_ok.
  - reflexivity.
  - reflexivity.
  - by_eval.
  - by_eval.
  - by_eval.
  - reflexivity.
  - intros r w' (found & Hs & Hr).
    assert (found = 177) as ->.
    { destruct Hs as [(i & h & Hi & -> & Hsl & Hc & Hn)|[Hn _]].
      - change (IRQL_TO_VECTOR IRQL_CLOCK) with 176 in *. destruct i as [|[|i]]; [cbv in Hsl; simplify_eq; done|lia|].
        exfalso. by apply (Hn 1%nat (IrqVector 0 0 []) ltac:(lia)).
      - exfalso. by apply (Hn 1%nat (IrqVector 0 0 []) ltac:(lia)). }
    destruct Hr as [(E & _)|(h & Hh & -> & ->)]; [discriminate E|]. cbv in Hh. injection Hh as <-. by split.
Defined.

(** ** The clock interrupt *)

(** The handlers of a machine in which function 0 is [timer_handler]. *)
Definition clock_handler {H} `{TimerHeap H} (hw_clock : nat → Z) (f o : nat) : M (irqw H) bool :=
  match f with O => on_k (timer_handler hw_clock) | S _ => mret false end.
Lemma lor_2_masked p l : 0 ≤ p < 4 → 2 ≤ l → Z.shiftr (Z.lor p 2) l = 0.
Proof.
  intros Hp Hl. rewrite Z.shiftr_lor. rewrite !Z.shiftr_div_pow2; [lia..|].
  assert (2 ^ 2 ≤ 2 ^ l) by (apply Z.pow_le_mono_r; lia). rewrite !Z.div_small; [lia..|done].
Qed.

(** The kernel's world when the handler of the clock has run and the level is about to be
    lowered: the timer DPC [d] is queued, the level is the vector's, interrupts are off. *)
Definition clock_tick {H} (number : Z) (d : nat) (y : dpc) (k : kworld H) : kworld H :=
  k_cpu (set_ints false (set_irql (Z.shiftr number 4) (kcpu (ticked d y k)))) (ticked d y k).

(** Up to the lowering. *)
Lemma clock_interrupt_lowers {H} `{TimerHeap H} hw_clock lower number h o x d y (w : irqw H) Q :
  vectors_ok w → 32 ≤ number < 256 → irql (kcpu (ik w)) ≤ Z.shiftr number 4 →
  is_Some (irq_handlers w !! number) → s_vectors w !! Z.to_nat (number - 32) = Some h →
  objectcnt h = 1 → objq h = [o] → irqs w !! o = Some x → handler x = Some 0%nat →
  timer_update (kcpu (ik w)) = d → dpcs (ik w) !! d = Some y → enqueued y = false → dpc_lock ∉ locks (ik w) →
  next_deadline (kcpu (ik w)) ≤ hw_clock (reads (ik w)) →
  wp (lower (irql (kcpu (ik w)))) (λ _ k, Q tt (i_set_k k (handler_world number w))) (clock_tick number d y (ik w)) →
  wp (handle_irq lower (clock_handler hw_clock) number) Q w.
Proof.
  intros Hok Hn Hl Hreg Hh Hc Hq Hx Hf Hd Hy He Hlk Hdl HQ.
  set (w1 := i_set_k (ticked d y (ik (handler_world number w))) (handler_world number w)).
  apply (handle_irq_spec lower (clock_handler hw_clock) number h w 1 w1); [done|done|done|done|done|by rewrite Hc| |exact HQ].
  rewrite Hq. apply (handled_call _ o [] x 0 _ true w1 0); [done|done| |constructor].
  cbn [clock_handler]. unfold on_k. rewrite (timer_handler_spec hw_clock d y); done.
Qed.

(** C25: The clock interrupt, end to end: it is acknowledged at the controller, the handler
    registered on its vector runs at the vector's level with interrupts enabled, finds
    the deadline passed and queues the timer DPC with the dispatch interrupt pending.

    If the interrupted level was dispatch or above, the DPC stays queued: the level is back where
    it was, interrupts are off for the return, and no vector is reported as
    unhandled.  If it was below, lowering the level runs the queue, the timer DPC last, and then either returns
    in the same way or switches to the thread the DPCs put on standby; the
    interrupted thread [cur] finishes the interrupt when it is resumed.  (For this case the conditions are
    those of [irql_lower_runs_dpcs] on the state that was interrupted.) *)
Theorem clock_interrupt_queues_timer {H} `{TimerHeap H, !TimerHeapLaws H} hw_clock resume client fuel number h o x d y (w : irqw H) :
  vectors_ok w → 32 ≤ number < 256 → 0 ≤ irql (kcpu (ik w)) ≤ Z.shiftr number 4 →
  is_Some (irq_handlers w !! number) → s_vectors w !! Z.to_nat (number - 32) = Some h →
  objectcnt h = 1 → objq h = [o] → irqs w !! o = Some x → handler x = Some 0%nat →
  timer_update (kcpu (ik w)) = d → dpcs (ik w) !! d = Some y → enqueued y = false → dpc_lock ∉ locks (ik w) →
  next_deadline (kcpu (ik w)) ≤ hw_clock (reads (ik w)) → 0 ≤ softint_pending (kcpu (ik w)) < 4 →
  let lower n := irql_lower hw_clock resume client n in
  let handle := handle_irq (lower (S fuel)) (clock_handler hw_clock) number in
  let old := irql (kcpu (ik w)) in
  (IRQL_DISPATCH ≤ old → wp handle (λ _ w',
     irql (kcpu (ik w')) = old ∧ ints (kcpu (ik w')) = false ∧
     dpcq (kcpu (ik w')) = dpcq (kcpu (ik w)) ++ [d] ∧ dispatch_pending (softint_pending (kcpu (ik w'))) ∧
     locks (ik w') = locks (ik w) ∧ eois w' = S (eois w) ∧ unhandled w' = unhandled w ∧ s_vectors w' = s_vectors w) w) ∧
  (∀ cur th, old < IRQL_DISPATCH → client_quiet client → clock_monotone hw_clock → (1 ≤ fuel)%nat →
     dispatch_inv cur th (S fuel) (dispatch_world (ik w)) → (priority th < PRIORITY_COUNT)%nat → dpcq_ok (ik w) →
     queue_fns dispatch_fn (ik w) → (length (dpcq (kcpu (ik w))) < fuel)%nat →
     d_function y = Some time_engine_progress_fn → softint_pending (kcpu (ik w)) = 0 ∨ softint_pending (kcpu (ik w)) = 2 →
     let k2 := clock_tick number d y (ik w) in
     let back k := i_set_k k (handler_world number w) in
     ∃ k3, served (dpc_call hw_clock client (lower fuel) (S fuel)) (dpcq (kcpu (ik w)) ++ [d]) (dispatch_world k2) k3 ∧
       drained cur th (S fuel) k2 k3 ∧
       match thread_next (kcpu k3) with
       | None => handle w = Ok (tt, back (k_cpu (set_ints false (set_irql old (kcpu k3))) k3))
       | Some new => ∀ Q,
           (∀ k4, preempted cur th new k3 k4 →
              wp (resume cur;; rest_of_lowering hw_clock resume client fuel old false) (λ _ k, Q tt (back k)) k4) →
           wp handle Q w
       end).
Proof.
  intros Hok Hn Hl Hreg Hh Hc Hq Hx Hf Hd Hy He Hlk Hdl Hp lower handle old. pose proof (proj2 Hl) as Hl'. split.
  - intros Ho. eapply (clock_interrupt_lowers hw_clock _ number h o x d y); [done..|].
    apply wp_ok. eexists tt, _. split; [apply irql_lower_masked; [exact Hl| ]|].
    + unfold clock_tick, ticked, enqueued_world. k_simpl. apply lor_2_masked; [done|unfold IRQL_DISPATCH in *; lia].
    + unfold clock_tick, ticked, enqueued_world, handler_world. k_simpl. cbn [ik i_set_k eois unhandled s_vectors]. k_simpl.
      split_and!; try done. unfold dispatch_pending. by rewrite Z.lor_spec orb_true_r.
  - intros cur th Ho Hq' Hm Hfu Hi Hpr Hqok Hqf Hlen Hfn Hpend k2 back.
    destruct (ticked_queue d y time_engine_progress_fn (ik w) (kcpu k2)) as [Hqok2 Hqf2]; [done..|by left|done|done|].
    destruct (irql_lower_delivers hw_clock resume client fuel old cur th k2) as (k3 & Hs & Hdr & Hrun);
      [exact Hq'|exact Hm|exact Hfu| |exact Hpr|exact Hqok2|exact Hqf2| | |unfold old; lia|exact Hl'|].
    + by apply (ticked_dispatch cur th (S fuel) d y (ik w) (kcpu k2)).
    + change (dpcq (kcpu k2)) with (dpcq (kcpu (ik w)) ++ [d]). rewrite length_app /=. lia.
    + change (softint_pending (kcpu k2)) with (Z.lor (softint_pending (kcpu (ik w))) 2). by destruct Hpend as [->| ->].
    + exists k3. split; [exact Hs|]. split; [exact Hdr|].
      assert (∀ Q, wp (lower (S fuel) old) (λ _ k, Q tt (back k)) k2 → wp handle Q w) as Hw.
      { intros Q HQ. eapply (clock_interrupt_lowers hw_clock _ number h o x d y); [done..|exact HQ]. }
      destruct (thread_next (kcpu k3)) as [new|] eqn:En; [by intros Q HQ; apply Hw, Hrun|].
      assert (wp handle (λ _ w', w' = back (k_cpu (set_ints false (set_irql old (kcpu k3))) k3)) w) as Hwp.
      { apply Hw. rewrite /wp /lower Hrun. done. }
      by apply wp_ok in Hwp as ([] & w' & E & ->).
Qed.

(** The clock vector of the machine above, at dispatch level. *)
Definition clock_machine : kworld HP := on_cpu (set_next_deadline 50) (k_reads 1 machine).
Definition vectors1 : list irq_vector_t := <[176%nat := IrqVector IRQ_FORCE 1 [0%nat]]> vectors0.
Lemma vectors1_ok k : vectors_ok (irq_world k vectors1).
Proof.
  split; [reflexivity|]. intros i h Hi. apply list_lookup_insert_Some in Hi as [(_ & <- & _)|[_ Hi]]; [done|].
  by apply (proj2 (vectors0_ok k) i).
Qed.
(** The interrupted machine at passive level, with two timers queued, see [timed_machine]. *)
Definition passive_machine : kworld HP := on_cpu (λ c, set_next_deadline 150 (set_irql IRQL_PASSIVE c)) timed_machine.
Lemma passive_dispatch : dispatch_inv 1 (th 11 kThreadStateRunning 5) 4 (dispatch_world passive_machine).
Proof.
  split; [by apply timed_sched|reflexivity|reflexivity|reflexivity|by apply timed_timers|by apply timed_expiry|].
  vm_compute. lia.
Qed.
Lemma passive_queue : dpcq_ok passive_machine ∧ queue_fns dispatch_fn passive_machine.
Proof.
  split; [|by intros d x f ?%elem_of_nil]. split; [constructor| |by intros d ?%elem_of_nil|done]. intros d x Hx.
  by apply (dq_enq _ empty_queue_ok).
Qed.
Lemma clock_interrupt_queues_timer_witness :
  wp (handle_irq (irql_lower clock stay mark 1) (clock_handler clock) 208)
    (λ _ w', dpcq (kcpu (ik w')) = [30%nat] ∧ irql (kcpu (ik w')) = IRQL_DISPATCH) (irq_world clock_machine vectors1) ∧
  ∃ k3, served (dpc_call clock mark (irql_lower clock stay mark 3) 4) [30%nat]
          (dispatch_world (clock_tick 208 30 (Dpc (Some time_engine_progress_fn) None None false) passive_machine)) k3 ∧
    dpcq (kcpu k3) = [].
Proof.
  set (y := Dpc (Some time_engine_progress_fn) None None false). split.
  - destruct (clock_interrupt_queues_timer clock stay mark 0 208 (IrqVector IRQ_FORCE 1 [0%nat]) 0
      (Irq None (Some 0%nat)) 30 y (irq_world clock_machine vectors1)) as [Hhigh _];
      [apply vectors1_ok|by_eval|by_eval|by_eval|reflexivity..|by_eval|by_eval|by_eval|].
    eapply wp_mono; [apply Hhigh; by_eval|].
    intros r w' (H1 & _ & H2 & _). split; [rewrite H2; reflexivity|rewrite H1; reflexivity].
  - destruct (clock_interrupt_queues_timer clock stay mark 3 208 (IrqVector IRQ_FORCE 1 [0%nat]) 0
      (Irq None (Some 0%nat)) 30 y (irq_world passive_machine vectors1)) as [_ Hlow];
      [apply vectors1_ok|by_eval|by_eval|by_eval|reflexivity..|by_eval|by_eval|by_eval|].
    destruct (Hlow 1%nat (th 11 kThreadStateRunning 5)) as (k3 & Hs & [_ _ (t & dl & E)] & _).
    + by_eval.
    + exact mark_quiet.
    + exact clock_mono.
    + lia.
    + exact passive_dispatch.
    + vm_compute. lia.
    + exact (proj1 passive_queue).
    + exact (proj2 passive_queue).
    + vm_compute. lia.
    + reflexivity.
    + by left.
    + exists k3. split; [exact Hs|]. rewrite E. reflexivity.
Defined.

(** In the second case timer 22 expires and thread 3 runs. *)
Example clock_interrupt_preempts :
  match handle_irq (irql_lower clock stay mark 4) (clock_handler clock) 208 (irq_world passive_machine vectors1) with
  | Ok (_, w') => (switches (ik w'), thread_current (kcpu (ik w')), irql (kcpu (ik w'))) = ([(1, 3)]%nat, Some 3%nat, IRQL_PASSIVE)
  | Panic _ => False
  end.
Proof. vm_compute. reflexivity. Qed.
