(* ===== verification/Slab.v ===== *)
(** * The slab allocator: [kernel/lib/slab.c], [internal/slab_impl.h]

    Caches of equal chunks.  A small cache (chunks of at most 256 bytes) cuts single
    pages, the slab's header in the page's last 48 bytes and the free list through the
    chunks themselves; a large one keeps slab headers and buffer controls in two small
    caches of its own.  Pages come from [vm_kalloc], of which the file uses the contract
    [VmPagesOk]. *)

From S2P Require Import Prelude Pm.

(** ** What the page allocator promises *)
Class VmPages (V : Type) := {
  vm_kalloc : Z → M V Z;
  vm_kfree : Z → Z → M V unit;
  in_use : V → gset Z;
  pages_left : V → Z;
}.
Definition can_alloc {V} `{VmPages V} (v : V) : Prop := 0 < pages_left v.
(** A single page: aligned, not in use before, in use from now on. *)
Class VmPagesOk (V : Type) `{VmPages V} := {
  vm_kalloc_page v : can_alloc v →
    wp (vm_kalloc 1) (λ p v', 0 < p ∧ p + PAGE_SIZE ≤ 2 ^ 64 ∧ p mod PAGE_SIZE = 0 ∧ p ∉ in_use v ∧
      in_use v' = {[p]} ∪ in_use v ∧ pages_left v' = pages_left v - 1) v;
}.

Definition KMEM_MAXPAGES : Z := 8.
Definition KMEM_SMALL_MAX : Z := PAGE_SIZE / 16.
Definition KMEM_ALIGN : Z := 8.
Definition KMEM_SECOND_ALIGN : Z := 16.
(** Sizes of the structures on a 64-bit target. *)
Definition SIZEOF_SLAB : Z := 48.
Definition SIZEOF_LARGE_BUFCTL : Z := 24.
Definition CACHE_PAGES : Z := 1.

(** NULL is 0.  A [kmem_bufctl_t] is its address; [freelist] is the SLIST through them. *)
Record kmem_large_bufctl_t := LargeBufctl { lb_slab : Z; lb_base : Z }.
Record kmem_slab_t := Slab { freelist : list Z; refcnt : Z; parent_cache : Z; s_base : Z }.
(** [buflist_init] says that the SLIST [buflist] ends in NULL: nothing sets it.
    [cp_mutex] says that the mutex is held. *)
Record kmem_cache_t := Cache {
  slabcap : Z; c_align : Z; chunksize : Z; bufsize : Z; slabsize : Z;
  constructor : option nat; destructor : option nat; ctx : Z;
  cp_mutex : bool;
  buflist : list Z; buflist_init : bool;
  slablist : list Z; full_slablist : list Z;
}.

Record slabw (V : Type) := SlabW {
  caches : gmap Z kmem_cache_t;
  slabs : gmap Z kmem_slab_t;
  bufctls : gmap Z kmem_large_bufctl_t;
  slab_cache : Z;
  bufctl_cache : Z;
  vm : V;
}.
Arguments SlabW {V} _ _ _ _ _ _.
Arguments caches {V} _.
Arguments slabs {V} _.
Arguments bufctls {V} _.
Arguments slab_cache {V} _.
Arguments bufctl_cache {V} _.
Arguments vm {V} _.

Definition c_lists (sl fl : list Z) (c : kmem_cache_t) : kmem_cache_t :=
  Cache (slabcap c) (c_align c) (chunksize c) (bufsize c) (slabsize c) (constructor c) (destructor c) (ctx c)
    (cp_mutex c) (buflist c) (buflist_init c) sl fl.
Definition c_mutex (b : bool) (c : kmem_cache_t) : kmem_cache_t :=
  Cache (slabcap c) (c_align c) (chunksize c) (bufsize c) (slabsize c) (constructor c) (destructor c) (ctx c)
    b (buflist c) (buflist_init c) (slablist c) (full_slablist c).
Definition c_buflist (l : list Z) (c : kmem_cache_t) : kmem_cache_t :=
  Cache (slabcap c) (c_align c) (chunksize c) (bufsize c) (slabsize c) (constructor c) (destructor c) (ctx c)
    (cp_mutex c) l (buflist_init c) (slablist c) (full_slablist c).
(** [LIST_REMOVE]: off whichever list it is on. *)
Definition without (x : Z) (l : list Z) : list Z := filter (λ y, y ≠ x) l.
Definition c_unlink (sp : Z) (c : kmem_cache_t) : kmem_cache_t :=
  c_lists (without sp (slablist c)) (without sp (full_slablist c)) c.

Section slab.
Context {V : Type} `{VmPages V}.
Notation W := (slabw V).
(** The constructors and destructors, called with the object and the cache's context. *)
Context (construct : nat → Z → Z → M (slabw V) Z) (destroy : nat → Z → Z → M (slabw V) unit).

Definition w_caches x (w : W) : W := SlabW x (slabs w) (bufctls w) (slab_cache w) (bufctl_cache w) (vm w).
Definition w_slabs x (w : W) : W := SlabW (caches w) x (bufctls w) (slab_cache w) (bufctl_cache w) (vm w).
Definition w_bufctls x (w : W) : W := SlabW (caches w) (slabs w) x (slab_cache w) (bufctl_cache w) (vm w).
Definition on_vm {A} (f : M V A) : M W A := λ w,
  match f (vm w) with
  | Ok (a, v) => Ok (a, SlabW (caches w) (slabs w) (bufctls w) (slab_cache w) (bufctl_cache w) v)
  | Panic e => Panic e
  end.
Definition ld_cache (cp : Z) : M W kmem_cache_t := w ← get; deref "cp" (caches w !! cp).
Definition ld_slab (sp : Z) : M W kmem_slab_t := w ← get; deref "sp" (slabs w !! sp).
Definition ld_bufctl (b : Z) : M W kmem_large_bufctl_t := w ← get; deref "bufctl" (bufctls w !! b).
Definition upd_cache (cp : Z) (f : kmem_cache_t → kmem_cache_t) : M W unit :=
  c ← ld_cache cp; modify (λ w, w_caches (<[cp := f c]> (caches w)) w).
Definition st_slab (sp : Z) (s : kmem_slab_t) : M W unit := modify (λ w, w_slabs (<[sp := s]> (slabs w)) w).

(** The mutex of a cache, seen by one thread: taken twice it never returns. *)
Definition mutex_acquire (cp : Z) : M W unit :=
  c ← ld_cache cp;
  if cp_mutex c then fail (Deadlock "cp->mutex") else upd_cache cp (c_mutex true).
Definition mutex_release (cp : Z) : M W unit := upd_cache cp (c_mutex false).

(** ** Slabs *)
(** The chunks [base + i * chunksize], pushed onto a SLIST one after another. *)
Definition chunk_list (base chunk : Z) (n : nat) : list Z :=
  foldl (λ l i, (base + Z.of_nat i * chunk) :: l) [] (seq 0 n).

Definition small_slab_create (cp : Z) : M W Z :=
  pg ← on_vm (vm_kalloc 1);
  let sp := pg + PAGE_SIZE - SIZEOF_SLAB in
  c ← ld_cache cp;
  st_slab sp (Slab (chunk_list pg (chunksize c) (Z.to_nat (slabcap c))) 0 cp 0);;
  mret sp.

(** [alloc] is [kmem_cache_alloc] itself, on the two caches of headers. *)
Definition large_slab_create (alloc : Z → M W Z) (cp : Z) : M W Z :=
  w ← get;
  sp ← alloc (slab_cache w);
  assertM (bool_decide (sp ≠ 0)) "sp";;
  c ← ld_cache cp;
  base ← on_vm (vm_kalloc (slabsize c));
  st_slab sp (Slab [] 0 cp base);;
  forM (seq 0 (Z.to_nat (slabcap c))) (λ i,
    bp ← alloc (bufctl_cache w);
    modify (λ w, w_bufctls (<[bp := LargeBufctl sp (base + chunksize c * Z.of_nat i)]> (bufctls w)) w);;
    s ← ld_slab sp;
    st_slab sp (Slab (bp :: freelist s) (refcnt s) (parent_cache s) (s_base s)));;
  mret sp.

Definition slab_alloc (sp : Z) : M W Z :=
  s ← ld_slab sp;
  match freelist s with
  | [] => fail (NullDeref "SLIST_REMOVE_HEAD")
  | bufctl :: rest =>
      let s' := Slab rest (wrap64 (refcnt s + 1)) (parent_cache s) (s_base s) in
      st_slab sp s';;
      c ← ld_cache (parent_cache s);
      (if decide (refcnt s' = slabcap c) then
         upd_cache (parent_cache s) (c_unlink sp);;
         upd_cache (parent_cache s) (λ c, c_lists (slablist c) (sp :: full_slablist c) c)
       else mret tt);;
      if decide (s_base s = 0) then mret bufctl
      else
        upd_cache (parent_cache s) (λ c, c_buflist (bufctl :: buflist c) c);;
        b ← ld_bufctl bufctl;
        mret (lb_base b)
  end.

(** [SLIST_REMOVE] follows the list to the element. *)
Definition slist_remove (x : Z) (l : list Z) (ends : bool) : M W (list Z) :=
  if decide (x ∈ l) then mret (without x l)
  else fail (if ends then NullDeref "SLIST_REMOVE" else Undefined "buflist").

Definition slab_free (sp bufctl : Z) : M W unit :=
  assertM (bool_decide (sp ≠ 0)) "sp";;
  assertM (bool_decide (bufctl ≠ 0)) "bufctl";;
  s ← ld_slab sp;
  c ← ld_cache (parent_cache s);
  (if decide (refcnt s = slabcap c) then
     upd_cache (parent_cache s) (c_unlink sp);;
     upd_cache (parent_cache s) (λ c, c_lists (sp :: slablist c) (full_slablist c) c)
   else mret tt);;
  (if decide (s_base s ≠ 0) then
     c ← ld_cache (parent_cache s);
     l ← slist_remove bufctl (buflist c) (buflist_init c);
     upd_cache (parent_cache s) (c_buflist l)
   else mret tt);;
  st_slab sp (Slab (bufctl :: freelist s) (wrap64 (refcnt s - 1)) (parent_cache s) (s_base s)).

(** ** Caches *)
Definition kmem_cache_alloc_body (alloc : Z → M W Z) (cp : Z) : M W Z :=
  mutex_acquire cp;;
  c ← ld_cache cp;
  (match slablist c with
   | [] =>
       slab ← (if decide (chunksize c ≤ KMEM_SMALL_MAX) then small_slab_create cp
               else large_slab_create alloc cp);
       upd_cache cp (λ c, c_lists (slab :: slablist c) (full_slablist c) c)
   | _ :: _ => mret tt
   end);;
  c ← ld_cache cp;
  sp ← deref "LIST_FIRST" (head (slablist c));
  s ← ld_slab sp;
  assertM (bool_decide (refcnt s < slabcap c)) "sp->refcnt < cp->slabcap";;
  obj ← slab_alloc sp;
  (match constructor c with
   | Some f =>
       r ← construct f obj (ctx c);
       assertM (bool_decide (r = 0)) "cp->constructor(obj, cp->ctx) == 0"
   | None => mret tt
   end);;
  mutex_release cp;;
  mret obj.

(** A large cache calls the two small ones, which call nothing: depth two is enough. *)
Fixpoint kmem_cache_alloc (fuel : nat) (cp : Z) : M W Z :=
  match fuel with
  | O => fail OutOfFuel
  | S fuel => kmem_cache_alloc_body (kmem_cache_alloc fuel) cp
  end.

(** [SLIST_FOREACH] over [buflist]: the buffer control whose chunk is [obj]. *)
Fixpoint find_bufctl (l : list Z) (ends : bool) (obj : Z) : M W (option (Z * Z)) :=
  match l with
  | [] => if ends then mret None else fail (Undefined "buflist")
  | elm :: l =>
      b ← ld_bufctl elm;
      if decide (lb_base b = obj) then mret (Some (lb_slab b, elm)) else find_bufctl l ends obj
  end.

Definition kmem_cache_free (cp obj : Z) : M W unit :=
  mutex_acquire cp;;
  c ← ld_cache cp;
  (match destructor c with Some f => destroy f obj (ctx c) | None => mret tt end);;
  (if decide (chunksize c ≤ KMEM_SMALL_MAX) then
     slab_free (align_up (obj + 1) PAGE_SIZE - SIZEOF_SLAB) obj
   else
     r ← find_bufctl (buflist c) (buflist_init c) obj;
     match r with
     | None => fail (AssertFail "sp != NULL")
     | Some (sp, bp) => slab_free sp bp
     end);;
  mutex_release cp.

Definition P2CHECK (x : Z) : bool := bool_decide (Z.land x (x - 1) = 0).

(** The smallest number of pages that holds sixteen chunks. *)
Fixpoint large_pages (n : nat) (pages chunk : Z) : option Z :=
  match n with
  | O => None
  | S n => if decide (pages * PAGE_SIZE / chunk >= 16) then Some pages else large_pages n (pages + 1) chunk
  end.

(** The alignment, the chunk size and the numbers of chunks and of pages of a cache. *)
Definition cache_align (bufsize align : Z) : Z :=
  if decide (align = 0) then
    if decide (align_up bufsize KMEM_ALIGN >= KMEM_SECOND_ALIGN) then KMEM_SECOND_ALIGN else KMEM_ALIGN
  else if decide (align < KMEM_ALIGN) then KMEM_ALIGN else align.
Definition cache_geometry (bufsize align : Z) : option (Z * Z * Z) :=
  let chunk := align_up bufsize align in
  if decide (bufsize ≤ KMEM_SMALL_MAX) then Some (chunk, (PAGE_SIZE - SIZEOF_SLAB) / chunk, 1)
  else (λ pages, (chunk, pages * PAGE_SIZE / chunk, pages)) <$> large_pages (Z.to_nat KMEM_MAXPAGES) 1 chunk.

Definition kmem_cache_create (bufsize align : Z) (ctor dtor : option nat) (ctx : Z) : M W Z :=
  assertM (bool_decide (align = 0) || P2CHECK align) "align == 0 || P2CHECK(align)";;
  assertM (bool_decide (bufsize ≠ 0)) "bufsize != 0";;
  let align := cache_align bufsize align in
  cp ← on_vm (vm_kalloc CACHE_PAGES);
  match cache_geometry bufsize align with
  | None => fail (AssertFail "cp->slabsize != -1")
  | Some (chunk, cap, pages) =>
      modify (λ w, w_caches (<[cp := Cache cap align chunk bufsize pages ctor dtor ctx false [] false [] []]> (caches w)) w);;
      mret cp
  end.

(** [while (!SLIST_EMPTY(&sp->freelist))]. *)
Fixpoint free_bufctls (l : list Z) (sp : Z) : M W unit :=
  match l with
  | [] => mret tt
  | elm :: l =>
      s ← ld_slab sp;
      st_slab sp (Slab l (refcnt s) (parent_cache s) (s_base s));;
      w ← get;
      kmem_cache_free (bufctl_cache w) elm;;
      free_bufctls l sp
  end.
(** [while (!LIST_EMPTY(&cp->slablist))], one turn for each slab on the list. *)
Fixpoint destroy_loop (n : nat) (cp : Z) : M W Z :=
  match n with
  | O => fail OutOfFuel
  | S n =>
      c ← ld_cache cp;
      match slablist c with
      | [] => on_vm (vm_kfree cp CACHE_PAGES);; mret 0
      | sp :: _ =>
          s ← ld_slab sp;
          if decide (refcnt s ≠ 0) then mret (-1) else
          upd_cache cp (c_unlink sp);;
          (if decide (s_base s = 0) then on_vm (vm_kfree (align_down sp PAGE_SIZE) (slabsize c))
           else
             free_bufctls (freelist s) sp;;
             on_vm (vm_kfree (s_base s) (slabsize c));;
             w ← get;
             kmem_cache_free (slab_cache w) sp);;
          destroy_loop n cp
      end
  end.
Definition kmem_cache_destroy (cp : Z) : M W Z :=
  c ← ld_cache cp;
  if decide (full_slablist c ≠ []) then mret (-1)
  else destroy_loop (S (length (slablist c))) cp.

Definition kmem_slab_init : M W unit :=
  a ← kmem_cache_create SIZEOF_SLAB 0 None None 0;
  modify (λ w, SlabW (caches w) (slabs w) (bufctls w) a (bufctl_cache w) (vm w));;
  b ← kmem_cache_create SIZEOF_LARGE_BUFCTL 0 None None 0;
  modify (λ w, SlabW (caches w) (slabs w) (bufctls w) (slab_cache w) b (vm w)).
Definition kmem_slab_cleanup : M W unit :=
  w ← get;
  kmem_cache_destroy (slab_cache w);;
  kmem_cache_destroy (bufctl_cache w);;
  mret tt.
End slab.

(** ** The geometry of a small slab *)
Lemma chunk_list_S base ch n : chunk_list base ch (S n) = (base + Z.of_nat n * ch) :: chunk_list base ch n.
Proof. unfold chunk_list. by rewrite seq_S foldl_app. Qed.
Lemma chunk_list_length base ch n : length (chunk_list base ch n) = n.
Proof. induction n as [|n IH]; [done|]. by rewrite chunk_list_S /= IH. Qed.
Lemma elem_of_chunk_list base ch n o : o ∈ chunk_list base ch n ↔ ∃ i, (i < n)%nat ∧ o = base + Z.of_nat i * ch.
Proof.
  induction n as [|n IH]; [split; [by intros ?%elem_of_nil|intros (i & ? & _); lia]|].
  rewrite chunk_list_S elem_of_cons IH. split.
  - intros [->|(i & Hi & ->)]; [exists n|exists i]; (split; [lia|done]).
  - intros (i & Hi & ->). destruct (decide (i = n)) as [->|]; [by left|right]. exists i. split; [lia|done].
Qed.
Lemma chunk_list_NoDup base ch n : 0 < ch → NoDup (chunk_list base ch n).
Proof.
  intros Hc. induction n as [|n IH]; [apply NoDup_nil_2|]. rewrite chunk_list_S. apply NoDup_cons. split; [|done].
  intros (i & Hi & E)%elem_of_chunk_list. nia.
Qed.
Lemma elem_of_without x y l : y ∈ without x l ↔ y ∈ l ∧ y ≠ x.
Proof. unfold without. rewrite list_elem_of_filter. naive_solver. Qed.
Lemma NoDup_without x l : NoDup l → NoDup (without x l).
Proof. apply NoDup_filter. Qed.

Definition page_of (sp : Z) : Z := sp + SIZEOF_SLAB - PAGE_SIZE.

Section small.
Context {V : Type} `{VmPagesOk V}.
Notation W := (slabw V).
Implicit Types w : W.
Implicit Types c : kmem_cache_t.

(** [o] is one of the chunks of the slab [sp]. *)
Definition is_chunk c (sp o : Z) : Prop :=
  ∃ i, 0 ≤ i < slabcap c ∧ o = page_of sp + i * chunksize c.
Definition geometry_ok c : Prop :=
  0 < chunksize c ≤ KMEM_SMALL_MAX ∧ 0 < slabcap c ∧ slabcap c * chunksize c ≤ PAGE_SIZE - SIZEOF_SLAB.
Definition on_lists c (sp : Z) : Prop := sp ∈ slablist c ∨ sp ∈ full_slablist c.

Record slab_ok w (cp : Z) c (sp : Z) (s : kmem_slab_t) : Prop := {
  sk_parent : parent_cache s = cp;
  sk_small : s_base s = 0;
  sk_page : page_of sp mod PAGE_SIZE = 0 ∧ 0 < page_of sp ∧ page_of sp + PAGE_SIZE ≤ 2 ^ 64;
  sk_used : page_of sp ∈ in_use (vm w);
  sk_nodup : NoDup (freelist s);
  sk_chunks : ∀ b, b ∈ freelist s → is_chunk c sp b;
  sk_refcnt : refcnt s = slabcap c - Z.of_nat (length (freelist s));
}.
(** The cache [cp], whose data is [c], with the objects [live] handed out. *)
Record cache_ok w (cp : Z) c (live : gset Z) : Prop := {
  ck_cache : caches w !! cp = Some c;
  ck_geometry : geometry_ok c;
  ck_nodup : NoDup (slablist c) ∧ NoDup (full_slablist c);
  ck_slabs : ∀ sp, on_lists c sp → ∃ s, slabs w !! sp = Some s ∧ slab_ok w cp c sp s;
  ck_partial : ∀ sp s, sp ∈ slablist c → slabs w !! sp = Some s → freelist s ≠ [];
  ck_full : ∀ sp s, sp ∈ full_slablist c → slabs w !! sp = Some s → freelist s = [];
  ck_live : ∀ o, o ∈ live ↔ ∃ sp s, on_lists c sp ∧ slabs w !! sp = Some s ∧ is_chunk c sp o ∧ o ∉ freelist s;
}.

(** The slab of an object is found by rounding its address up. *)
Lemma chunk_bounds c sp o : geometry_ok c → is_chunk c sp o →
  page_of sp ≤ o ∧ o + chunksize c ≤ sp ∧ sp + SIZEOF_SLAB = page_of sp + PAGE_SIZE.
Proof.
  intros (Hc & Hcap & Hfit) (i & Hi & ->). unfold page_of, SIZEOF_SLAB, PAGE_SIZE in *. nia.
Qed.
Lemma chunk_slab c sp o : geometry_ok c → page_of sp mod PAGE_SIZE = 0 → is_chunk c sp o →
  align_up (o + 1) PAGE_SIZE - SIZEOF_SLAB = sp.
Proof.
  intros Hg Hp Ho. destruct (chunk_bounds c sp o Hg Ho) as (H1 & H2 & H3).
  destruct (align_up_spec (o + 1) PAGE_SIZE ltac:(by exists 12)) as [Ha Hb].
  enough (align_up (o + 1) PAGE_SIZE = page_of sp + PAGE_SIZE) by lia.
  unfold SIZEOF_SLAB in *. destruct Hg as (Hc & _). unfold PAGE_SIZE in *.
  apply (multiples_close _ _ 4096); [lia|done| |lia]. rewrite -(Z_mod_plus_full _ 1) in Hp. by rewrite Z.mul_1_l in Hp.
Qed.
(** So objects of different slabs differ, and an object lies in one slab. *)
Lemma chunk_slab_inj c sp1 sp2 o : geometry_ok c → page_of sp1 mod PAGE_SIZE = 0 → page_of sp2 mod PAGE_SIZE = 0 →
  is_chunk c sp1 o → is_chunk c sp2 o → sp1 = sp2.
Proof. intros Hg H1 H2 Ho1 Ho2. by rewrite -(chunk_slab c sp1 o) // -(chunk_slab c sp2 o). Qed.
Lemma chunks_disjoint c sp1 sp2 o1 o2 : geometry_ok c → page_of sp1 mod PAGE_SIZE = 0 → page_of sp2 mod PAGE_SIZE = 0 →
  is_chunk c sp1 o1 → is_chunk c sp2 o2 → o1 ≠ o2 → o1 + chunksize c ≤ o2 ∨ o2 + chunksize c ≤ o1.
Proof.
  intros Hg H1 H2 Ho1 Ho2 Hne. destruct (decide (sp1 = sp2)) as [->|Hsp].
  - destruct Ho1 as (i & Hi & ->), Ho2 as (j & Hj & ->). destruct Hg as ((Hc & _) & _).
    destruct (Z.lt_trichotomy i j) as [|[->|]]; [left; nia|done|right; nia].
  - destruct (chunk_bounds c sp1 o1 Hg Ho1) as (? & ? & ?), (chunk_bounds c sp2 o2 Hg Ho2) as (? & ? & ?).
    unfold SIZEOF_SLAB, PAGE_SIZE, page_of in *.
    destruct (Z.lt_trichotomy sp1 sp2) as [|[?|]]; [left|done|right].
    + destruct (decide (sp1 + 48 ≤ sp2 + 48 - 4096)); [lia|]. exfalso. apply Hsp.
      enough (sp1 + 48 - 4096 = sp2 + 48 - 4096) by lia. apply (multiples_close _ _ 4096); [lia|done|done|lia].
    + destruct (decide (sp2 + 48 ≤ sp1 + 48 - 4096)); [lia|]. exfalso. apply Hsp.
      enough (sp1 + 48 - 4096 = sp2 + 48 - 4096) by lia. apply (multiples_close _ _ 4096); [lia|done|done|lia].
Qed.

(** ** One chunk out, one chunk in *)
Definition same_geometry c c' : Prop := slabcap c' = slabcap c ∧ chunksize c' = chunksize c.
Definition to_full (sp : Z) c := c_lists (without sp (slablist c)) (sp :: without sp (full_slablist c)) c.
Definition to_partial (sp : Z) c := c_lists (sp :: without sp (slablist c)) (without sp (full_slablist c)) c.
Definition moved (cp sp : Z) c (s : kmem_slab_t) w : W :=
  w_caches (<[cp := c]> (caches w)) (w_slabs (<[sp := s]> (slabs w)) w).

Lemma slab_ok_geometry w w' cp c c' sp s : vm w' = vm w → same_geometry c c' → slab_ok w cp c sp s → slab_ok w' cp c' sp s.
Proof.
  intros Ev [E1 E2] [K1 K2 K3 K4 K5 K6 K7]. split; [done|done|done|by rewrite Ev|done| |by rewrite E1].
  intros b Hb. unfold is_chunk. rewrite E1 E2. by apply K6.
Qed.
Lemma on_lists_to_full sp c x : sp ∈ slablist c → on_lists (to_full sp c) x ↔ on_lists c x.
Proof.
  intros Hs. unfold on_lists, to_full. simpl. rewrite elem_of_cons !elem_of_without.
  destruct (decide (x = sp)) as [->|]; naive_solver.
Qed.
Lemma on_lists_to_partial sp c x : on_lists c sp → on_lists (to_partial sp c) x ↔ on_lists c x.
Proof.
  intros Hs. unfold on_lists, to_partial in *. simpl. rewrite elem_of_cons !elem_of_without.
  destruct (decide (x = sp)) as [->|]; naive_solver.
Qed.

(** A slab of the cache gets the record [s'] and the cache the data [c'], which has the
    same slabs: the parts of the invariant that speak of single slabs. *)
Lemma cache_ok_move w cp c c' live live' sp s' :
  cache_ok w cp c live → same_geometry c c' → (∀ x, on_lists c' x ↔ on_lists c x) → on_lists c sp →
  NoDup (slablist c') → NoDup (full_slablist c') → slab_ok w cp c sp s' →
  (∀ x, x ≠ sp → x ∈ slablist c' → x ∈ slablist c) → (∀ x, x ≠ sp → x ∈ full_slablist c' → x ∈ full_slablist c) →
  (sp ∈ slablist c' → freelist s' ≠ []) → (sp ∈ full_slablist c' → freelist s' = []) →
  (∀ o, o ∈ live' ↔ (is_chunk c sp o ∧ o ∉ freelist s') ∨ (o ∈ live ∧ ¬ is_chunk c sp o)) →
  cache_ok (moved cp sp c' s' w) cp c' live'.
Proof.
  intros [Hc Hg Hn Hs Hp Hf Hl] [E1 E2] Hon Hsp Hn1 Hn2 Hok' Hin1 Hin2 Hp' Hf' Hlive.
  assert (∀ x o, is_chunk c' x o ↔ is_chunk c x o) as Hch by (intros x o; unfold is_chunk; by rewrite E1 E2).
  split; simpl.
  - by rewrite lookup_insert_eq.
  - unfold geometry_ok. rewrite E1 E2. exact Hg.
  - done.
  - intros x Hx%Hon. destruct (decide (x = sp)) as [->|Hne].
    + exists s'. rewrite lookup_insert_eq. split; [done|]. by eapply (slab_ok_geometry w _ cp c).
    + destruct (Hs x Hx) as (s & Hsx & Hok). exists s. rewrite lookup_insert_ne //. split; [done|]. by eapply (slab_ok_geometry w _ cp c).
  - intros x s Hx. destruct (decide (x = sp)) as [->|Hne]; [rewrite lookup_insert_eq; intros [= <-]; by apply Hp'|].
    rewrite lookup_insert_ne //. by apply Hp, Hin1.
  - intros x s Hx. destruct (decide (x = sp)) as [->|Hne]; [rewrite lookup_insert_eq; intros [= <-]; by apply Hf'|].
    rewrite lookup_insert_ne //. by apply Hf, Hin2.
  - intros o. rewrite Hlive Hl. destruct (Hs sp Hsp) as (s0 & Hs0 & Hok0). split.
    + intros [[Ho1 Ho2]|[(x & s & Hx & Hsx & Ho & Hno) Hnc]].
      * exists sp, s'. rewrite Hon Hch lookup_insert_eq. done.
      * exists x, s. rewrite Hon Hch. destruct (decide (x = sp)) as [->|]; [done|]. by rewrite lookup_insert_ne.
    + intros (x & s & Hx%Hon & Hsx & Ho%Hch & Hno). destruct (decide (x = sp)) as [->|Hne].
      * rewrite lookup_insert_eq in Hsx. simplify_eq. by left.
      * right. rewrite lookup_insert_ne // in Hsx. destruct (Hs x Hx) as (s1 & Es1 & Hok1). rewrite Es1 in Hsx. injection Hsx as <-. split; [by exists x, s1|].
        intros Ho'. apply Hne. by eapply chunk_slab_inj; [done|apply Hok1|apply Hok0|..].
Qed.

Lemma cache_ok_take w cp c live sp s o rest : cache_ok w cp c live → sp ∈ slablist c → slabs w !! sp = Some s →
  freelist s = o :: rest →
  let c' := if decide (rest = []) then to_full sp c else c in
  cache_ok (moved cp sp c' (Slab rest (refcnt s + 1) (parent_cache s) (s_base s)) w) cp c' ({[o]} ∪ live) ∧
  o ∉ live ∧ is_chunk c sp o.
Proof.
  intros Hok Hsp Hs Hfree c'. pose proof Hok as [Hc Hg [Hn1 Hn2] Hss Hp Hf Hl].
  destruct (Hss sp) as (s0 & ? & Hsk); [by left|]. simplify_eq. destruct Hsk as [K1 K2 K3 K4 K5 K6 K7].
  rewrite Hfree in K5 K6 K7. apply NoDup_cons in K5 as [Ho K5].
  assert (is_chunk c sp o) as Hoc by (apply K6; left).
  assert (o ∉ live) as Hol.
  { intros (x & sx & Hx & Hsx & Hcx & Hno)%Hl. destruct (Hss x Hx) as (s1 & ? & Hk1). simplify_eq.
    assert (x = sp) as -> by (eapply chunk_slab_inj; [done|apply Hk1|apply K3|done|done]). simplify_eq. rewrite Hfree in Hno. set_solver. }
  split; [|done]. assert (sp ∉ full_slablist c) as Hnf by (intros Hx; specialize (Hf sp s Hx Hs); congruence).
  eapply cache_ok_move; [exact Hok|..].
  - unfold c'. by case_decide.
  - intros x. unfold c'. case_decide; [by apply on_lists_to_full|done].
  - by left.
  - unfold c'. case_decide; [by apply NoDup_without|done].
  - unfold c'. case_decide; [|done]. apply NoDup_cons. split; [rewrite elem_of_without; naive_solver|by apply NoDup_without].
  - split; simpl; try done; [set_solver|]. rewrite K7 /=. lia.
  - intros x Hx. unfold c'. case_decide; [|done]. simpl. rewrite elem_of_without. by intros [? _].
  - intros x Hx. unfold c'. case_decide; [|done]. simpl. rewrite elem_of_cons elem_of_without. naive_solver.
  - unfold c'. simpl. case_decide; [|done]. simpl. rewrite elem_of_without. by intros [_ ?].
  - unfold c'. simpl. by case_decide.
  - intros x. simpl. rewrite elem_of_union elem_of_singleton. split.
    + intros [->|Hx]; [by left|]. assert (Hx' := Hx). apply Hl in Hx' as (y & sy & Hy & Hsy & Hcy & Hno).
      destruct (decide (y = sp)) as [->|Hne].
      * left. simplify_eq. split; [done|]. rewrite Hfree in Hno. set_solver.
      * right. split; [done|]. intros Hxc. apply Hne. destruct (Hss y Hy) as (s1 & ? & Hk1). simplify_eq.
        by eapply chunk_slab_inj; [done|apply Hk1|apply K3|..].
    + intros [[Hxc Hxr]|[Hx _]]; [|by right]. destruct (decide (x = o)) as [->|]; [by left|right].
      apply Hl. exists sp, s. split_and!; [by left|done|done|]. rewrite Hfree. set_solver.
Qed.

Lemma live_slab w cp c live o : cache_ok w cp c live → o ∈ live →
  ∃ sp s, on_lists c sp ∧ slabs w !! sp = Some s ∧ slab_ok w cp c sp s ∧ is_chunk c sp o ∧ o ∉ freelist s ∧
    align_up (o + 1) PAGE_SIZE - SIZEOF_SLAB = sp.
Proof.
  intros [Hc Hg Hn Hss Hp Hf Hl] (sp & s & Hsp & Hs & Hoc & Hno)%Hl. destruct (Hss sp Hsp) as (s1 & Es1 & Hk).
  rewrite Es1 in Hs. injection Hs as <-. exists sp, s1. split_and!; try done. apply (chunk_slab c); [done|apply Hk|done].
Qed.

Lemma cache_ok_put w cp c live sp s o : cache_ok w cp c live → on_lists c sp → slabs w !! sp = Some s →
  is_chunk c sp o → o ∉ freelist s →
  let c' := if decide (freelist s = []) then to_partial sp c else c in
  cache_ok (moved cp sp c' (Slab (o :: freelist s) (refcnt s - 1) (parent_cache s) (s_base s)) w) cp c' (live ∖ {[o]}).
Proof.
  intros Hok Hsp Hs Hoc Hno c'. pose proof Hok as [Hc Hg [Hn1 Hn2] Hss Hp Hf Hl].
  destruct (Hss sp Hsp) as (s0 & E0 & Hsk). rewrite E0 in Hs. injection Hs as <-. destruct Hsk as [K1 K2 K3 K4 K5 K6 K7].
  assert (freelist s0 ≠ [] → sp ∉ full_slablist c) as Hnf by (intros Hne Hx; specialize (Hf sp s0 Hx E0); congruence).
  assert (freelist s0 = [] → sp ∉ slablist c) as Hns by (intros Hne Hx; by specialize (Hp sp s0 Hx E0)).
  eapply cache_ok_move; [exact Hok|..].
  - unfold c'. by case_decide.
  - intros x. unfold c'. case_decide; [by apply on_lists_to_partial|done].
  - done.
  - unfold c'. case_decide; [|done]. apply NoDup_cons. split; [rewrite elem_of_without; naive_solver|by apply NoDup_without].
  - unfold c'. case_decide; [by apply NoDup_without|done].
  - split; simpl; try done; [by apply NoDup_cons|set_solver|]. rewrite K7 /=. lia.
  - intros x Hx. unfold c'. case_decide; [|done]. simpl. rewrite elem_of_cons elem_of_without. naive_solver.
  - intros x Hx. unfold c'. case_decide; [|done]. simpl. rewrite elem_of_without. by intros [? _].
  - done.
  - unfold c'. simpl. case_decide as Hd; simpl; [rewrite elem_of_without; by intros [_ ?]|intros Hx; by destruct (Hnf Hd)].
  - intros x. simpl. rewrite elem_of_difference elem_of_singleton. split.
    + intros [Hx Hxo]. assert (Hx' := Hx). apply Hl in Hx' as (y & sy & Hy & Hsy & Hcy & Hny).
      destruct (decide (y = sp)) as [->|Hne].
      * left. rewrite E0 in Hsy. injection Hsy as <-. split; [done|]. set_solver.
      * right. split; [done|]. intros Hxc. apply Hne. destruct (Hss y Hy) as (s1 & Es1 & Hk1).
        by eapply chunk_slab_inj; [done|apply Hk1|apply K3|..].
    + intros [[Hxc Hxr]|[Hx Hnc]]; [|split; [done|intros ->; done]]. split; [|set_solver].
      apply Hl. exists sp, s0. split_and!; try done. set_solver.
Qed.

(** A fresh page becomes a slab with all its chunks free. *)
Lemma cache_ok_grow w cp c live pg v' : cache_ok w cp c live → slablist c = [] →
  0 < pg → pg + PAGE_SIZE ≤ 2 ^ 64 → pg mod PAGE_SIZE = 0 → pg ∉ in_use (vm w) → in_use v' = {[pg]} ∪ in_use (vm w) →
  let sp := pg + PAGE_SIZE - SIZEOF_SLAB in
  let c' := c_lists [sp] (full_slablist c) c in
  cache_ok (SlabW (<[cp := c']> (caches w))
    (<[sp := Slab (chunk_list pg (chunksize c) (Z.to_nat (slabcap c))) 0 cp 0]> (slabs w))
    (bufctls w) (slab_cache w) (bufctl_cache w) v') cp c' live.
Proof.
  intros [Hc Hg [Hn1 Hn2] Hss Hp Hf Hl] Hnil Hpg Hpw Hpm Hfresh Ev sp c'.
  assert (page_of sp = pg) as Epg by (unfold page_of, sp; lia).
  assert (∀ x, on_lists c x → x ≠ sp) as Hne.
  { intros x Hx ->. destruct (Hss sp Hx) as (s & _ & Hk). apply Hfresh. rewrite -Epg. apply Hk. }
  assert (∀ x, on_lists c' x ↔ x = sp ∨ on_lists c x) as Hon.
  { intros x. unfold on_lists. simpl. rewrite Hnil list_elem_of_singleton. set_solver. }
  destruct Hg as (G1 & G2 & G3). split; simpl.
  - by rewrite lookup_insert_eq.
  - done.
  - split; [apply NoDup_singleton|done].
  - intros x [->|Hx]%Hon.
    + eexists. rewrite lookup_insert_eq. split; [done|]. split; simpl; rewrite ?Epg; try done.
      * rewrite Ev. set_solver.
      * by apply chunk_list_NoDup; lia.
      * intros b (i & Hi & ->)%elem_of_chunk_list. exists (Z.of_nat i). rewrite Epg. split; [simpl; lia|done].
      * rewrite chunk_list_length. lia.
    + destruct (Hss x Hx) as (s & Hs & [K1 K2 K3 K4 K5 K6 K7]). exists s.
      rewrite lookup_insert_ne; [by apply not_eq_sym, Hne|]. split; [done|]. split; simpl; try done. rewrite Ev. set_solver.
  - intros x s ->%list_elem_of_singleton. rewrite lookup_insert_eq. intros [= <-]. simpl.
    intros E%(f_equal length). rewrite chunk_list_length /= in E. lia.
  - intros x s Hx. rewrite lookup_insert_ne; [apply not_eq_sym, Hne; by right|]. by apply Hf.
  - intros o. rewrite Hl. split.
    + intros (x & s & Hx & Hs & Ho & Hno). exists x, s. rewrite lookup_insert_ne; [by apply not_eq_sym, Hne|].
      split_and!; try done. apply Hon. by right.
    + intros (x & s & [->|Hx]%Hon & Hs & Ho & Hno).
      * rewrite lookup_insert_eq in Hs. injection Hs as <-. simpl in Hno. exfalso. apply Hno, elem_of_chunk_list.
        destruct Ho as (i & Hi & ->). exists (Z.to_nat i). simpl in Hi. rewrite Epg Z2Nat.id; [lia|]. split; [lia|done].
      * rewrite lookup_insert_ne in Hs; [by apply not_eq_sym, Hne|]. by exists x, s.
Qed.

(** ** The operations on a small cache *)
Context (construct : nat → Z → Z → M W Z) (destroy : nat → Z → Z → M W unit).
(** Constructors and destructors that touch only the object. *)
Definition hooks_quiet c : Prop :=
  (∀ f o w, constructor c = Some f → construct f o (ctx c) w = Ok (0, w)) ∧
  (∀ f o w, destructor c = Some f → destroy f o (ctx c) w = Ok (tt, w)).
(** What an operation on [cp] may change: the cache, its slabs, pages not in use. *)
Definition slab_frame (cp : Z) c w w' : Prop :=
  (∀ x, x ≠ cp → caches w' !! x = caches w !! x) ∧
  (∀ x, page_of x ∈ in_use (vm w) → ¬ on_lists c x → slabs w' !! x = slabs w !! x) ∧
  in_use (vm w) ⊆ in_use (vm w') ∧
  bufctls w' = bufctls w ∧ slab_cache w' = slab_cache w ∧ bufctl_cache w' = bufctl_cache w.
Definition like c c' : Prop :=
  same_geometry c c' ∧ constructor c' = constructor c ∧ destructor c' = destructor c ∧ ctx c' = ctx c ∧ bufsize c' = bufsize c.

Lemma ld_cache_ok w cp c : caches w !! cp = Some c → ld_cache cp w = Ok (c, w).
Proof. intros Hc. unfold ld_cache, mbind, M_bind, get. by rewrite Hc. Qed.
Lemma ld_slab_ok w sp s : slabs w !! sp = Some s → ld_slab sp w = Ok (s, w).
Proof. intros Hs. unfold ld_slab, mbind, M_bind, get. by rewrite Hs. Qed.
Lemma upd_cache_ok w cp c f : caches w !! cp = Some c → upd_cache cp f w = Ok (tt, w_caches (<[cp := f c]> (caches w)) w).
Proof. intros Hc. unfold upd_cache. by rewrite (bind_ok _ _ _ _ _ (ld_cache_ok _ _ _ Hc)). Qed.
Lemma cache_ok_mutex w cp c live b : cache_ok w cp c live →
  cache_ok (w_caches (<[cp := c_mutex b c]> (caches w)) w) cp (c_mutex b c) live.
Proof.
  intros [Hc Hg Hn Hss Hp Hf Hl]. split; simpl; try done; [by rewrite lookup_insert_eq|].
  intros sp Hsp. destruct (Hss sp Hsp) as (s & Hs & Hk). exists s. split; [done|]. by eapply (slab_ok_geometry w _ cp c).
Qed.
Lemma refcnt_full w cp c sp s : slab_ok w cp c sp s → refcnt s = slabcap c ↔ freelist s = [].
Proof. intros [_ _ _ _ _ _ ->]. destruct (freelist s); simpl; [split; [done|lia]|split; [lia|done]]. Qed.
Lemma slabcap_small c : geometry_ok c → slabcap c ≤ PAGE_SIZE.
Proof. intros ((Hc & _) & H2 & H3). unfold PAGE_SIZE, SIZEOF_SLAB in *. nia. Qed.

Lemma freelist_bound w cp c sp s : geometry_ok c → slab_ok w cp c sp s → 0 ≤ refcnt s ≤ slabcap c.
Proof.
  intros (_ & Hcap & _) [_ _ _ _ K5 K6 K7].
  assert (freelist s ⊆+ chunk_list (page_of sp) (chunksize c) (Z.to_nat (slabcap c))) as Hsub.
  { apply NoDup_submseteq; [done|]. intros b (i & Hi & ->)%K6. apply elem_of_chunk_list. exists (Z.to_nat i).
    rewrite Z2Nat.id; [lia|]. split; [lia|done]. }
  apply submseteq_length in Hsub. rewrite chunk_list_length in Hsub. lia.
Qed.

(** [LIST_REMOVE] and [LIST_INSERT_HEAD] one after the other. *)
Lemma relink_ok w cp c sp f : caches w !! cp = Some c →
  (upd_cache cp (c_unlink sp);; upd_cache cp f) w = Ok (tt, w_caches (<[cp := f (c_unlink sp c)]> (caches w)) w).
Proof.
  intros Hc. rewrite (bind_ok _ _ _ _ _ (upd_cache_ok _ _ _ (c_unlink sp) Hc)).
  rewrite (upd_cache_ok _ cp (c_unlink sp c)); [apply lookup_insert_eq|]. unfold w_caches. simpl. by rewrite insert_insert_eq.
Qed.

Lemma slab_alloc_spec w cp c live sp s o rest : cache_ok w cp c live → sp ∈ slablist c → slabs w !! sp = Some s →
  freelist s = o :: rest →
  let c' := if decide (rest = []) then to_full sp c else c in
  slab_alloc sp w = Ok (o, moved cp sp c' (Slab rest (refcnt s + 1) (parent_cache s) (s_base s)) w).
Proof.
  intros Hok Hsp Hs Hfree c'. pose proof Hok as [Hc Hg _ Hss _ _ _].
  destruct (Hss sp) as (s0 & E0 & Hsk); [by left|]. rewrite Hs in E0. injection E0 as <-.
  pose proof Hsk as [K1 K2 _ _ _ _ K7]. pose proof (slabcap_small c Hg). pose proof (freelist_bound _ _ _ _ _ Hg Hsk).
  rewrite Hfree in K7. simpl in K7. unfold slab_alloc. rewrite (bind_ok _ _ _ _ _ (ld_slab_ok _ _ _ Hs)) Hfree.
  rewrite wrap64_small; [unfold PAGE_SIZE in *; lia|]. cbv zeta. cbn [refcnt]. rewrite K1.
  set (w1 := w_slabs (<[sp := Slab rest (refcnt s + 1) cp (s_base s)]> (slabs w)) w). assert (caches w1 !! cp = Some c) as Hc1 by exact Hc.
  rewrite (bind_ok (st_slab _ _) _ w tt w1) //. rewrite (bind_ok _ _ _ _ _ (ld_cache_ok _ _ _ Hc1)).
  unfold c'. destruct (decide (rest = [])) as [->|Hr].
  - rewrite (decide_True (P := refcnt s + 1 = slabcap c)); [simpl in K7; lia|]. rewrite (bind_ok _ _ _ _ _ (relink_ok _ _ _ sp _ Hc1)).
    by rewrite decide_True.
  - rewrite (decide_False (P := refcnt s + 1 = slabcap c)); [destruct rest; [done|simpl in K7; lia]|].
    rewrite (bind_ok (mret tt) _ w1 tt w1) // decide_True //. unfold mret, M_ret, moved, w_caches, w1, w_slabs. simpl.
    by rewrite (insert_id (caches w)).
Qed.

Lemma slab_free_spec w cp c live sp s o : cache_ok w cp c live → on_lists c sp → slabs w !! sp = Some s →
  0 < sp → 0 < o → 0 < refcnt s →
  let c' := if decide (freelist s = []) then to_partial sp c else c in
  slab_free sp o w = Ok (tt, moved cp sp c' (Slab (o :: freelist s) (refcnt s - 1) (parent_cache s) (s_base s)) w).
Proof.
  intros Hok Hsp Hs Hsp0 Ho0 Hr0 c'. pose proof Hok as [Hc Hg _ Hss _ _ _].
  destruct (Hss sp Hsp) as (s0 & E0 & Hsk). rewrite Hs in E0. injection E0 as <-.
  pose proof Hsk as [K1 K2 _ _ _ _ K7]. pose proof (slabcap_small c Hg). pose proof (freelist_bound _ _ _ _ _ Hg Hsk).
  unfold slab_free. rewrite bool_decide_eq_true_2; [lia|]. rewrite bool_decide_eq_true_2; [lia|].
  rewrite (bind_ok (assertM true "sp") _ w tt w) // (bind_ok (assertM true "bufctl") _ w tt w) //.
  rewrite (bind_ok _ _ _ _ _ (ld_slab_ok _ _ _ Hs)) K1 (bind_ok _ _ _ _ _ (ld_cache_ok _ _ _ Hc)).
  rewrite wrap64_small; [unfold PAGE_SIZE in *; lia|]. unfold c'.
  destruct (decide (freelist s = [])) as [Hf|Hf].
  - rewrite (decide_True (P := refcnt s = slabcap c)); [by apply (refcnt_full _ _ _ _ _ Hsk)|]. rewrite (bind_ok _ _ _ _ _ (relink_ok _ _ _ sp _ Hc)).
    rewrite K2. by destruct (decide (0 ≠ 0)).
  - rewrite (decide_False (P := refcnt s = slabcap c)); [by rewrite (refcnt_full _ _ _ _ _ Hsk)|].
    rewrite (bind_ok (mret tt) _ w tt w) // K2. destruct (decide (0 ≠ 0)) as [?|_]; [done|].
    rewrite (bind_ok (mret tt) _ w tt w) //. unfold st_slab, modify, moved, w_caches, w_slabs. simpl. by rewrite (insert_id (caches w)).
Qed.

Lemma mutex_acquire_ok w cp c : caches w !! cp = Some c → cp_mutex c = false →
  mutex_acquire cp w = Ok (tt, w_caches (<[cp := c_mutex true c]> (caches w)) w).
Proof.
  intros Hc Hm. unfold mutex_acquire. rewrite (bind_ok _ _ _ _ _ (ld_cache_ok _ _ _ Hc)) Hm. by apply upd_cache_ok.
Qed.
Lemma like_refl c : like c c.
Proof. by repeat split. Qed.
Lemma like_trans c1 c2 c3 : like c1 c2 → like c2 c3 → like c1 c3.
Proof. unfold like, same_geometry. naive_solver congruence. Qed.
Lemma slab_frame_trans cp c1 c2 w1 w2 w3 : (∀ x, page_of x ∈ in_use (vm w1) → on_lists c2 x → on_lists c1 x) →
  slab_frame cp c1 w1 w2 → slab_frame cp c2 w2 w3 → slab_frame cp c1 w1 w3.
Proof.
  intros Hl (A1 & A2 & A3 & A4 & A5 & A6) (B1 & B2 & B3 & B4 & B5 & B6). split_and!; try congruence.
  - intros x Hx. by rewrite B1 // A1.
  - intros x Hx Hn. rewrite B2; [by apply A3|by intros ?%Hl|]. by apply A2.
  - set_solver.
Qed.
Lemma slab_frame_refl cp c w : slab_frame cp c w w.
Proof. by split_and!. Qed.

(** A cache without a partial slab gets one. *)
Lemma small_slab_create_spec w cp c live : cache_ok w cp c live → slablist c = [] → can_alloc (vm w) →
  wp (slab ← small_slab_create cp; upd_cache cp (λ c, c_lists (slab :: slablist c) (full_slablist c) c))
    (λ _ w', ∃ c', cache_ok w' cp c' live ∧ like c c' ∧ cp_mutex c' = cp_mutex c ∧ slablist c' ≠ [] ∧
       slab_frame cp c w w' ∧ (∀ x, page_of x ∈ in_use (vm w) → on_lists c' x → on_lists c x) ∧
       pages_left (vm w') = pages_left (vm w) - 1) w.
Proof.
  intros Hok Hnil Hroom. pose proof Hok as [Hc _ _ _ _ _ _]. unfold small_slab_create, on_vm.
  apply wp_bind, wp_bind. pose proof (vm_kalloc_page (vm w) Hroom) as Hp. unfold wp at 1. unfold wp in Hp.
  destruct (vm_kalloc 1 (vm w)) as [[pg v']|]; [|done]. destruct Hp as (P1 & P2 & P3 & P4 & P5 & P6).
  set (w1 := SlabW _ _ _ _ _ v'). assert (caches w1 !! cp = Some c) as Hc1 by exact Hc.
  eapply wp_run_eq; [exact (bind_ok _ _ _ _ _ (ld_cache_ok _ _ _ Hc1))|].
  apply wp_bind, wp_modify, wp_ret. set (sp := pg + PAGE_SIZE - SIZEOF_SLAB). set (w2 := w_slabs _ w1).
  assert (caches w2 !! cp = Some c) as Hc2 by exact Hc. unfold wp. rewrite (upd_cache_ok _ _ _ _ Hc2).
  exists (c_lists [sp] (full_slablist c) c). rewrite Hnil.
  assert (page_of sp = pg) as Epg by (unfold page_of, sp; lia).
  split_and!; [|by repeat split|done|done| | |exact P6].
  - exact (cache_ok_grow w cp c live pg v' Hok Hnil P1 P2 P3 P4 P5).
  - split_and!; [| | |done..].
    + intros x Hx. simpl. by rewrite lookup_insert_ne.
    + intros x Hx Hn. simpl. rewrite lookup_insert_ne //. intros <-. by rewrite Epg in Hx.
    + simpl. rewrite P5. set_solver.
  - intros x Hx. unfold on_lists. simpl. intros [->%list_elem_of_singleton|]; [by rewrite Epg in Hx|by right].
Qed.

(** Allocation: an object that was not handed out, in a slab of the cache. *)
Lemma kmem_cache_alloc_spec fuel w cp c live : cache_ok w cp c live → cp_mutex c = false → hooks_quiet c →
  (slablist c = [] → can_alloc (vm w)) →
  wp (kmem_cache_alloc construct (S fuel) cp) (λ o w', ∃ c' sp,
    cache_ok w' cp c' ({[o]} ∪ live) ∧ cp_mutex c' = false ∧ like c c' ∧ o ∉ live ∧
    is_chunk c' sp o ∧ on_lists c' sp ∧ slab_frame cp c w w' ∧ pages_left (vm w) - 1 ≤ pages_left (vm w')) w.
Proof.
  intros Hok Hm Hh Hroom. cbn [kmem_cache_alloc]. unfold kmem_cache_alloc_body. pose proof Hok as [Hc Hg _ _ _ _ _].
  eapply wp_run_eq; [exact (bind_ok _ _ _ _ _ (mutex_acquire_ok _ _ _ Hc Hm))|].
  set (w1 := w_caches _ w). pose proof (cache_ok_mutex w cp c live true Hok : cache_ok w1 cp (c_mutex true c) live) as Hok1.
  assert (slab_frame cp c w w1) as F1.
  { split_and!; try done. intros x Hx. simpl. by rewrite lookup_insert_ne. }
  eapply wp_run_eq; [exact (bind_ok _ _ _ _ _ (ld_cache_ok _ _ _ (ck_cache _ _ _ _ Hok1)))|].
  apply wp_bind. eapply (wp_mono _ (λ _ w2, ∃ c2, cache_ok w2 cp c2 live ∧ like c c2 ∧ cp_mutex c2 = true ∧
    slablist c2 ≠ [] ∧ slab_frame cp c w w2 ∧ (∀ x, page_of x ∈ in_use (vm w) → on_lists c2 x → on_lists c x) ∧
    pages_left (vm w) - 1 ≤ pages_left (vm w2))).
  { simpl. destruct (slablist c) as [|sp l] eqn:El.
    - rewrite decide_True; [apply Hg|]. eapply wp_mono; [apply (small_slab_create_spec w1 cp (c_mutex true c) live Hok1); [done|by apply Hroom]|].
      intros [] w2 (c2 & Hok2 & Hl2 & Hm2 & Hn2 & F2 & Hon & Hpg). exists c2. split_and!; try done.
      + by eapply slab_frame_trans; [|exact F1|exact F2].
      + rewrite Hpg. simpl. lia.
    - apply wp_ret. exists (c_mutex true c). split_and!; try done; simpl; [by rewrite El|lia]. }
  intros [] w2 (c2 & Hok2 & Hl2 & Hm2 & Hn2 & F2 & Hon & Hpg). pose proof Hok2 as [Hc2 Hg2 _ Hss2 Hp2 _ _].
  eapply wp_run_eq; [exact (bind_ok _ _ _ _ _ (ld_cache_ok _ _ _ Hc2))|].
  destruct (slablist c2) as [|sp l] eqn:El; [done|]. apply wp_bind, wp_ret.
  assert (sp ∈ slablist c2) as Hsp by (rewrite El; left).
  destruct (Hss2 sp) as (s & Hs & Hk); [by left|].
  eapply wp_run_eq; [exact (bind_ok _ _ _ _ _ (ld_slab_ok _ _ _ Hs))|].
  destruct (freelist s) as [|o rest] eqn:Ef; [by destruct (Hp2 sp s ltac:(left) Hs)|].
  apply wp_bind, wp_assert. split.
  { apply bool_decide_eq_true. destruct Hk as [_ _ _ _ _ _ ->]. rewrite Ef. simpl. lia. }
  eapply wp_run_eq; [exact (bind_ok _ _ _ _ _ (slab_alloc_spec w2 cp c2 live sp s o rest Hok2 Hsp Hs Ef))|].
  destruct (cache_ok_take w2 cp c2 live sp s o rest Hok2 Hsp Hs Ef) as (Hok3 & Hol & Hoc).
  set (c3 := if decide (rest = []) then to_full sp c2 else c2) in *. set (w3 := moved cp sp c3 _ w2) in *.
  assert (like c2 c3) as Hl3 by by (unfold c3; case_decide; repeat split).
  assert (slab_frame cp c2 w2 w3) as F3.
  { split_and!; try done; simpl; intros x Hx; [by rewrite lookup_insert_ne|]. intros Hnx. rewrite lookup_insert_ne //. intros <-.
    apply Hnx. by left. }
  apply wp_bind. eapply (wp_mono _ (λ _ w', w' = w3)).
  { destruct Hh as [Hh _]. destruct Hl2 as (_ & E1 & _ & E3 & _). destruct (constructor c2) as [f|] eqn:Ec; [|by apply wp_ret].
    eapply wp_run_eq; [refine (bind_ok _ _ _ _ _ _); rewrite E3; apply Hh; congruence|]. apply wp_assert. by split. }
  intros [] w4 ->. pose proof Hok3 as [Hc3 _ _ _ _ _ _].
  eapply wp_run_eq; [exact (bind_ok _ _ _ _ _ (upd_cache_ok _ _ _ (c_mutex false) Hc3))|]. apply wp_ret.
  exists (c_mutex false c3), sp. split_and!; [by apply cache_ok_mutex|done| |done| | | |exact Hpg].
  - eapply like_trans; [exact Hl2|]. eapply like_trans; [exact Hl3|]. by repeat split.
  - destruct Hl3 as [[E1 E2] _]. unfold is_chunk. simpl. by rewrite E1 E2.
  - change (on_lists (c_mutex false c3) sp) with (on_lists c3 sp). unfold c3. case_decide; [apply on_lists_to_full; [done|]|]; by left.
  - eapply slab_frame_trans; [exact Hon|exact F2|]. destruct F3 as (A1 & A2 & A3 & A4 & A5 & A6). split_and!; try done.
    intros x Hx. simpl. rewrite lookup_insert_ne //. by rewrite lookup_insert_ne.
Qed.

(** Freeing an object that was handed out. *)
Lemma kmem_cache_free_spec w cp c live o : cache_ok w cp c live → cp_mutex c = false → hooks_quiet c → o ∈ live →
  wp (kmem_cache_free destroy cp o) (λ _ w', ∃ c',
    cache_ok w' cp c' (live ∖ {[o]}) ∧ cp_mutex c' = false ∧ like c c' ∧ slab_frame cp c w w' ∧ vm w' = vm w) w.
Proof.
  intros Hok Hm Hh Ho. unfold kmem_cache_free. pose proof Hok as [Hc Hg _ _ _ _ _].
  eapply wp_run_eq; [exact (bind_ok _ _ _ _ _ (mutex_acquire_ok _ _ _ Hc Hm))|].
  set (w1 := w_caches _ w). pose proof (cache_ok_mutex w cp c live true Hok : cache_ok w1 cp (c_mutex true c) live) as Hok1.
  eapply wp_run_eq; [exact (bind_ok _ _ _ _ _ (ld_cache_ok _ _ _ (ck_cache _ _ _ _ Hok1)))|].
  apply wp_bind. eapply (wp_mono _ (λ _ w', w' = w1)).
  { simpl. destruct Hh as [_ Hh]. destruct (destructor c) as [f|]; [|by apply wp_ret]. unfold wp. by rewrite Hh. }
  intros [] w' ->. rewrite decide_True; [apply Hg|].
  destruct (live_slab _ _ _ _ _ Hok1 Ho) as (sp & s & Hsp & Hs & Hk & Hoc & Hno & ->).
  assert (0 < sp ∧ 0 < o) as [Hsp0 Ho0].
  { destruct (chunk_bounds _ _ _ Hg Hoc) as (? & ? & ?). destruct Hk as [_ _ (_ & ? & _) _ _ _ _].
    destruct Hg as ((? & _) & _). simpl in *. lia. }
  assert (0 < refcnt s) as Hr.
  { pose proof (freelist_bound _ _ (c_mutex true c) _ _ Hg Hk). destruct Hk as [_ _ _ _ K5 K6 K7]. simpl in *.
    assert (NoDup (o :: freelist s)) as Hnd by by apply NoDup_cons.
    assert (o :: freelist s ⊆+ chunk_list (page_of sp) (chunksize c) (Z.to_nat (slabcap c))) as Hsub.
    { apply NoDup_submseteq; [done|]. intros b Hb. assert (is_chunk c sp b) as (i & Hi & ->).
      { apply elem_of_cons in Hb as [->|Hb]; [done|by apply K6]. }
      apply elem_of_chunk_list. exists (Z.to_nat i). rewrite Z2Nat.id; [lia|]. split; [lia|done]. }
    apply submseteq_length in Hsub. rewrite chunk_list_length /= in Hsub. lia. }
  eapply wp_run_eq; [exact (bind_ok _ _ _ _ _ (slab_free_spec w1 cp _ live sp s o Hok1 Hsp Hs Hsp0 Ho0 Hr))|].
  pose proof (cache_ok_put w1 cp _ live sp s o Hok1 Hsp Hs Hoc Hno) as Hok2. cbv zeta in Hok2.
  set (c2 := if decide (freelist s = []) then _ else _) in *. set (w2 := moved cp sp c2 _ w1) in *.
  assert (like c c2) as Hl2 by by (unfold c2; case_decide; repeat split).
  unfold mutex_release, wp. rewrite (upd_cache_ok _ _ _ _ (ck_cache _ _ _ _ Hok2)).
  exists (c_mutex false c2). split_and!; [by apply cache_ok_mutex|done|by eapply like_trans; [exact Hl2|]| |done].
  split_and!; [| |done..].
  - intros x Hx. simpl. by rewrite !lookup_insert_ne.
  - intros x Hx Hn. simpl. rewrite lookup_insert_ne //. by intros <-.
Qed.

(** ** A new cache *)
Lemma cache_align_pow2 bufsize align : align = 0 ∨ pow2 align → pow2 (cache_align bufsize align) ∧ KMEM_ALIGN ≤ cache_align bufsize align.
Proof.
  intros Ha. unfold cache_align, KMEM_ALIGN, KMEM_SECOND_ALIGN. repeat case_decide; (split; [|lia]);
    [by exists 4|by exists 3|by exists 3|]. by destruct Ha.
Qed.
(** The geometry [kmem_cache_create] computes for small buffers: aligned chunks that hold
    a buffer and fit before the slab's header. *)
Lemma cache_geometry_small bufsize align : 0 < bufsize ≤ KMEM_SMALL_MAX → pow2 align → KMEM_ALIGN ≤ align ≤ KMEM_SMALL_MAX →
  ∃ chunk cap, cache_geometry bufsize align = Some (chunk, cap, 1) ∧ bufsize ≤ chunk ≤ KMEM_SMALL_MAX ∧
    chunk mod align = 0 ∧ 15 ≤ cap ∧ cap * chunk ≤ PAGE_SIZE - SIZEOF_SLAB < (cap + 1) * chunk.
Proof.
  intros Hb Hp Ha. unfold cache_geometry. rewrite decide_True; [lia|].
  destruct (align_up_spec bufsize align Hp) as [H1 H2]. set (chunk := align_up bufsize align) in *.
  assert (chunk ≤ KMEM_SMALL_MAX) as Hc.
  { destruct Hp as (k & Hk & ->). unfold KMEM_SMALL_MAX, PAGE_SIZE, KMEM_ALIGN in *. change (4096 / 16) with (2 ^ 8) in *.
    assert (k ≤ 8) by (apply (Z.pow_le_mono_r_iff 2); lia).
    assert (2 ^ 8 = 2 ^ (8 - k) * 2 ^ k) as E8 by (rewrite -Z.pow_add_r; [lia..|f_equal; lia]).
    apply Z.mod_divide in H1 as [q Hq]; [|lia]. rewrite Hq E8. rewrite Hq in H2. rewrite E8 in Hb.
    apply Z.mul_le_mono_nonneg_r; [lia|]. enough (q < 2 ^ (8 - k) + 1) by lia. apply (Z.mul_lt_mono_pos_r (2 ^ k)); lia. }
  exists chunk, ((PAGE_SIZE - SIZEOF_SLAB) / chunk). unfold KMEM_SMALL_MAX, PAGE_SIZE, SIZEOF_SLAB in *. change (4096 / 16) with 256 in *.
  change (4096 - 48) with 4048. pose proof (Z.div_mod 4048 chunk ltac:(lia)). pose proof (Z.mod_pos_bound 4048 chunk ltac:(lia)).
  split_and!; try done; try lia; nia.
Qed.

Lemma cache_geometry_ok bufsize align chunk cap pages : 0 < bufsize ≤ KMEM_SMALL_MAX → pow2 align →
  KMEM_ALIGN ≤ align ≤ KMEM_SMALL_MAX → cache_geometry bufsize align = Some (chunk, cap, pages) →
  0 < chunk ≤ KMEM_SMALL_MAX ∧ 0 < cap ∧ cap * chunk ≤ PAGE_SIZE - SIZEOF_SLAB.
Proof.
  intros Hb Hp Ha E. destruct (cache_geometry_small bufsize align Hb Hp Ha) as (chunk' & cap' & E' & H1 & _ & H2 & H3).
  rewrite E' in E. injection E as <- <- _. lia.
Qed.

(** What creating the cache [cp] changes. *)
Definition created (cp : Z) c w w' : Prop :=
  cp ∉ in_use (vm w) ∧ in_use (vm w') = {[cp]} ∪ in_use (vm w) ∧ pages_left (vm w') = pages_left (vm w) - 1 ∧
  slabs w' = slabs w ∧ caches w' = <[cp := c]> (caches w).
Lemma created_cache_ok cp c w w' cp2 c2 live : created cp c w w' → cp2 ∈ in_use (vm w) → cache_ok w cp2 c2 live →
  cache_ok w' cp2 c2 live ∧ cp2 ∈ in_use (vm w').
Proof.
  intros (F & U & _ & S & C) Hin [K1 K2 K3 K4 K5 K6 K7]. split; [|set_solver].
  split; rewrite ?S ?C; try done; [rewrite lookup_insert_ne //; by intros ->|].
  intros sp Hsp. destruct (K4 sp Hsp) as (s & Hs & [A1 A2 A3 A4 A5 A6 A7]). exists s. split; [done|]. split; try done. set_solver.
Qed.

(** A cache just created has no slabs and no objects. *)
Lemma kmem_cache_create_spec bufsize align w : 0 < bufsize ≤ KMEM_SMALL_MAX → align = 0 ∨ (pow2 align ∧ align ≤ KMEM_SMALL_MAX) →
  can_alloc (vm w) →
  wp (kmem_cache_create bufsize align None None 0) (λ cp w', ∃ c,
    cache_ok w' cp c ∅ ∧ cp_mutex c = false ∧ constructor c = None ∧ destructor c = None ∧ bufsize ≤ chunksize c ∧
    created cp c w w') w.
Proof.
  clear construct destroy. intros Hb Ha Hroom. unfold kmem_cache_create, on_vm.
  assert (bool_decide (align = 0) || P2CHECK align = true) as Hcheck.
  { apply orb_true_iff. rewrite !bool_decide_eq_true. destruct Ha as [->|[(k & Hk & ->) _]]; [by left|right].
    replace (2 ^ k - 1) with (Z.ones k) by (rewrite Z.ones_equiv; lia). rewrite Z.land_ones //. by rewrite Z_mod_same_full. }
  apply wp_bind, wp_assert. split; [done|]. apply wp_bind, wp_assert. split; [apply bool_decide_eq_true; lia|]. apply wp_bind.
  pose proof (vm_kalloc_page (vm w) Hroom) as Hp. unfold wp at 1. unfold wp in Hp. change CACHE_PAGES with 1.
  destruct (vm_kalloc 1 (vm w)) as [[cp v']|]; [|done]. destruct Hp as (P1 & P2 & P3 & P4 & P5 & P6).
  set (al := cache_align bufsize align). destruct (cache_align_pow2 bufsize align) as [Hal Hal8]; [naive_solver|].
  assert (al ≤ KMEM_SMALL_MAX) as Halm.
  { unfold al, cache_align, KMEM_ALIGN, KMEM_SECOND_ALIGN. unfold KMEM_SMALL_MAX, PAGE_SIZE in *. change (4096 / 16) with 256 in *.
    repeat case_decide; try lia. }
  destruct (cache_geometry_small bufsize al Hb Hal (conj Hal8 Halm)) as (chunk & cap & Eg & G1 & _ & G3 & G4).
  fold al. rewrite Eg. apply wp_bind, wp_modify, wp_ret. 
  exists (Cache cap al chunk bufsize 1 None None 0 false [] false [] []).
  split; [split|split_and!; simpl; try done; lia]; simpl; try done.
  - by rewrite lookup_insert_eq.
  - unfold geometry_ok. simpl. lia.
  - split; apply NoDup_nil_2.
  - intros sp [?%elem_of_nil|?%elem_of_nil]; done.
  - intros sp s' ?%elem_of_nil; done.
  - intros sp s' ?%elem_of_nil; done.
  - intros o. split; [set_solver|]. intros (sp & s' & [?%elem_of_nil|?%elem_of_nil] & _); done.
Qed.
(** A large one is created when sixteen chunks fit in eight pages. *)
Lemma kmem_cache_create_large bufsize w : KMEM_SMALL_MAX < bufsize → cache_geometry bufsize 16 ≠ None → can_alloc (vm w) →
  wp (kmem_cache_create bufsize 0 None None 0) (λ cp w', ∃ c, created cp c w w') w.
Proof.
  clear construct destroy. intros Hb Hg Hroom. unfold kmem_cache_create, on_vm. unfold KMEM_SMALL_MAX, PAGE_SIZE in Hb. change (4096 / 16) with 256 in Hb.
  apply wp_bind, wp_assert. split; [done|]. apply wp_bind, wp_assert. split; [apply bool_decide_eq_true; lia|]. apply wp_bind.
  pose proof (vm_kalloc_page (vm w) Hroom) as Hp. unfold wp at 1. unfold wp in Hp. change CACHE_PAGES with 1.
  destruct (vm_kalloc 1 (vm w)) as [[cp v']|]; [|done]. destruct Hp as (P1 & P2 & P3 & P4 & P5 & P6).
  assert (cache_align bufsize 0 = 16) as ->.
  { unfold cache_align. destruct (align_up_spec bufsize KMEM_ALIGN ltac:(by exists 3)).
    destruct (decide (0 = 0)) as [_|?]; [|done]. rewrite decide_True //. unfold KMEM_SECOND_ALIGN, KMEM_ALIGN in *. lia. }
  destruct (cache_geometry bufsize 16) as [[[chunk cap] pages]|]; [|done]. apply wp_bind, wp_modify, wp_ret.
  eexists. by split_and!.
Qed.
End small.

(** ** Sixteen chunks in at most eight pages *)
Lemma large_pages_spec n : ∀ pages chunk,
  match large_pages n pages chunk with
  | Some p => pages ≤ p < pages + Z.of_nat n ∧ 16 ≤ p * PAGE_SIZE / chunk ∧
      ∀ q, pages ≤ q < p → q * PAGE_SIZE / chunk < 16
  | None => ∀ q, pages ≤ q < pages + Z.of_nat n → q * PAGE_SIZE / chunk < 16
  end.
Proof.
  induction n as [|n IH]; intros pages chunk; cbn [large_pages]; [intros q ?; lia|].
  case_decide as Hd; [split_and!; [lia|lia|lia|intros; lia]|].
  specialize (IH (pages + 1) chunk). destruct (large_pages n (pages + 1) chunk) as [p|].
  - destruct IH as (H1 & H2 & H3). split_and!; [lia|lia|done|]. intros q Hq. destruct (decide (q = pages)) as [->|]; [lia|]. apply H3. lia.
  - intros q Hq. destruct (decide (q = pages)) as [->|]; [lia|]. apply IH. lia.
Qed.
Lemma cache_geometry_large bufsize align : KMEM_SMALL_MAX < bufsize → pow2 align →
  match cache_geometry bufsize align with
  | Some (chunk, cap, pages) => chunk = align_up bufsize align ∧ chunk ≤ 2048 ∧ 1 ≤ pages ≤ KMEM_MAXPAGES ∧
      16 ≤ cap ∧ cap * chunk ≤ pages * PAGE_SIZE
  | None => 2048 < align_up bufsize align
  end.
Proof.
  intros Hb Hp. unfold cache_geometry. rewrite decide_False; [lia|]. set (chunk := align_up bufsize align).
  assert (0 < chunk) as Hc.
  { pose proof (align_up_spec bufsize align Hp). unfold KMEM_SMALL_MAX, PAGE_SIZE in Hb. change (4096 / 16) with 256 in Hb.
    unfold chunk. lia. }
  pose proof (large_pages_spec (Z.to_nat KMEM_MAXPAGES) 1 chunk) as Hs. change (Z.to_nat KMEM_MAXPAGES) with 8%nat in *.
  unfold KMEM_MAXPAGES, PAGE_SIZE in *. destruct (large_pages 8 1 chunk) as [p|]; simpl.
  - destruct Hs as (H1 & H2 & _). pose proof (Z.mul_div_le (p * 4096) chunk Hc). split_and!; try done; nia.
  - specialize (Hs 8 ltac:(lia)). apply Z.nle_gt. intros Hle. apply Z.lt_nge in Hs. apply Hs. apply Z.div_le_lower_bound; lia.
Qed.

(** ** Pages handed out one after another, for concrete runs *)
Definition page_run (n : nat) : list Z := (λ i, PAGE_SIZE * (1 + Z.of_nat i)) <$> seq 0 n.
#[global] Instance bump_pages : VmPages nat := {|
  vm_kalloc n := (v ← get; put (v + Z.to_nat n)%nat;; mret (PAGE_SIZE * (1 + Z.of_nat v)));
  vm_kfree _ _ := mret tt;
  in_use v := list_to_set (page_run v);
  pages_left v := 1000000 - Z.of_nat v;
|}.
#[global] Instance bump_pages_ok : VmPagesOk nat.
Proof.
  split. intros v Hv. unfold can_alloc in Hv. cbn [pages_left bump_pages] in Hv.
  cbn [vm_kalloc in_use pages_left bump_pages].
  apply wp_bind, wp_get, wp_bind, wp_put, wp_ret. unfold PAGE_SIZE. split_and!.
  - lia.
  - lia.
  - rewrite Z.mul_comm. apply Z_mod_mult.
  - rewrite elem_of_list_to_set. intros (i & E & Hi)%list_elem_of_fmap. apply elem_of_seq in Hi. unfold PAGE_SIZE in E. lia.
  - change (Z.to_nat 1) with 1%nat. rewrite Nat.add_1_r. unfold page_run. rewrite seq_S fmap_app list_to_set_app_L. simpl. set_solver.
  - lia.
Qed.
