(* ===== verification/Kmem.v ===== *)
(** * Kernel memory: [kernel/vm/kmem.c], [kernel/vm/map.c]

    The [kmalloc] family over the slab caches, and the wired memory below them: virtual
    addresses from a vmem arena, a physical frame mapped behind each of their pages. *)

From S2P Require Import Prelude Vmem VmemInv VmemAlloc Pm Paging Slab.

(** ** [kmalloc] *)
Definition kmalloc_sizes : list Z := [8; 16; 32; 64; 128; 160; 256; 512; 640; 768; 1024; 2048].
Definition KMALLOC_MAX : Z := 2048.

(** The cache of the first size class that holds [size]. *)
Fixpoint size_class (sizes cs : list Z) (size : Z) : option Z :=
  match sizes, cs with
  | sz :: sizes, cp :: cs => if decide (size ≤ sz) then Some cp else size_class sizes cs size
  | _, _ => None
  end.

Section kmalloc.
Context {V : Type} `{VmPages V}.
Notation W := (slabw V).
Context (construct : nat → Z → Z → M (slabw V) Z) (destroy : nat → Z → Z → M (slabw V) unit).

(** [kmalloc_caches], in the order of the sizes. *)
Fixpoint create_caches (sizes : list Z) : M W (list Z) :=
  match sizes with
  | [] => mret []
  | sz :: sizes => cp ← kmem_cache_create sz 0 None None 0; cs ← create_caches sizes; mret (cp :: cs)
  end.
Definition kmem_init : M W (list Z) := kmem_slab_init;; create_caches kmalloc_sizes.

(** The depth of the nested cache calls. *)
Definition KMEM_FUEL : nat := 2.
Definition kmalloc (kmalloc_caches : list Z) (size : Z) : M W Z :=
  match size_class kmalloc_sizes kmalloc_caches size with
  | Some cp => kmem_cache_alloc construct KMEM_FUEL cp
  | None => on_vm (vm_kalloc (PAGE_ALIGN_UP size))
  end.
(** [zero] is [memset] of the object. *)
Definition kcalloc (zero : Z → Z → M W unit) (kmalloc_caches : list Z) (count size : Z) : M W Z :=
  if decide (size = 0 ∨ count = 0) then kmalloc kmalloc_caches 0 else
  ptr ← kmalloc kmalloc_caches (wrap64 (count * size));
  zero ptr (wrap64 (count * size));;
  mret ptr.
Definition kfree (kmalloc_caches : list Z) (ptr size : Z) : M W unit :=
  if decide (ptr = 0) then mret tt else
  match size_class kmalloc_sizes kmalloc_caches size with
  | Some cp => kmem_cache_free destroy cp ptr
  | None => on_vm (vm_kfree ptr (PAGE_ALIGN_UP size))
  end.
End kmalloc.

(** ** Wired memory

    The arenas and the page frame allocator side by side.  They meet in
    [vmem_alloc_pages]: a page of boundary tags is a frame off the allocator's free list.
    So an operation on an arena starts from the number of frames that list has, and the
    frames it used up for tags are then taken off the list.  When within the operation that
    happens makes no difference, as nothing else in it reads or writes the page frame
    allocator. *)
Record wired := Wired { wv : vworld; wm : mworld }.
Definition frames_left (m : mworld) : nat := match buddy_freelist m !! 0%nat with Some l => length l | None => 0 end.
Definition shared (w : wired) : vworld := w_pages (next_seg (wv w)) (frames_left (wm w)) (wv w).
Fixpoint take_frames (n : nat) : M mworld unit :=
  match n with O => mret tt | S n => pm_allocate_n 1 kPageUseVm;; take_frames n end.
Definition on_v {A} (f : M vworld A) : M wired A := λ w,
  match f (shared w) with
  | Ok (a, v) =>
      match take_frames (frames_left (wm w) - pm_pages v) (wm w) with
      | Ok (_, m) => Ok (a, Wired v m)
      | Panic e => Panic e
      end
  | Panic e => Panic e
  end.
Definition on_m {A} (f : M mworld A) : M wired A := λ w,
  match f (wm w) with Ok (a, m) => Ok (a, Wired (wv w) m) | Panic e => Panic e end.

Section wired.
Context (feat : cpu_features) (kmap : Z).
Context (call_alloc : nat → option nat → Z → Z → M vworld Z).
Context (call_free : nat → option nat → Z → Z → M vworld unit).

(** [for (i = p; i < p + size; i += PAGE_SIZE)]. *)
Fixpoint wire_loop (fuel : nat) (i stop : Z) : M mworld unit :=
  if decide (i < stop) then
    match fuel with
    | O => fail OutOfFuel
    | S fuel =>
        page ← pm_allocate kPageUseWired;
        x ← ld_page page;
        vm_port_map feat kmap (PG2P x) i kVmWritethrough kVmAll;;
        wire_loop fuel (wrap64 (i + PAGE_SIZE)) stop
    end
  else mret tt.
Definition page_count (size : Z) : nat := Z.to_nat ((size + PAGE_SIZE - 1) / PAGE_SIZE).
Definition allocwired (fuel vmem : nat) (size vmflag : Z) : M wired Z :=
  p ← on_v (vmem_alloc call_alloc fuel vmem size vmflag);
  on_m (wire_loop (page_count size) p (wrap64 (p + size)));;
  mret p.

Fixpoint unwire_loop (fuel : nat) (i stop : Z) : M mworld unit :=
  if decide (i < stop) then
    match fuel with
    | O => fail OutOfFuel
    | S fuel =>
        page ← vm_port_translate kmap i;
        match page with
        | None => fail (AssertFail "page")
        | Some page =>
            vm_port_unmap feat kmap i 0;;
            pm_free page;;
            unwire_loop fuel (wrap64 (i + PAGE_SIZE)) stop
        end
    end
  else mret tt.
Definition freewired (vmem : nat) (ptr size : Z) : M wired unit :=
  on_m (unwire_loop (page_count size) ptr (wrap64 (ptr + size)));;
  on_v (vmem_free call_free vmem ptr size).

(** [vmem_wired] is the arena [wired_arena]. *)
Definition vm_kalloc_pages (fuel wired_arena : nat) (count flags : Z) : M vworld Z :=
  vmem_alloc call_alloc fuel wired_arena (wrap64 (count * PAGE_SIZE)) flags.
Definition vm_kfree_pages (wired_arena : nat) (addr count : Z) : M vworld unit :=
  vmem_free call_free wired_arena addr (wrap64 (count * PAGE_SIZE)).
Definition vm_map_allocate (fuel arena : nat) (length : Z) : M vworld Z :=
  vmem_alloc call_alloc fuel arena length VM_INSTANTFIT.

(** The two arenas of the kernel's address space: [va] and, over it, [wired_arena], whose
    import functions are [allocwired] and [freewired]. *)
Definition MEM_KERNEL_START : Z := 0xffffe00000000000.
Definition MEM_KERNEL_SIZE : Z := 2 ^ 40.
Definition va_kernel_init (va wired_arena allocfn freefn : nat) : M vworld unit :=
  vmem_bootstrap;;
  vmem_init va "kernel-va" MEM_KERNEL_START MEM_KERNEL_SIZE PAGE_SIZE None None None 0 0;;
  vmem_init wired_arena "kernel-wired" 0 0 PAGE_SIZE (Some allocfn) (Some freefn) (Some va) 0 0;;
  mret tt.
End wired.

(** ** The size classes *)
Lemma size_class_spec sizes : ∀ cs size, length cs = length sizes →
  match size_class sizes cs size with
  | Some cp => ∃ i sz, sizes !! i = Some sz ∧ cs !! i = Some cp ∧ size ≤ sz ∧
      ∀ j sz', (j < i)%nat → sizes !! j = Some sz' → sz' < size
  | None => ∀ sz, sz ∈ sizes → sz < size
  end.
Proof.
  induction sizes as [|sz sizes IH]; intros [|cp cs] size Hl; try done; cbn [size_class]; [by intros sz ?%elem_of_nil|].
  case_decide as Hd.
  - exists 0%nat, sz. split_and!; try done. intros j ? ?; lia.
  - specialize (IH cs size ltac:(by injection Hl)). destruct (size_class sizes cs size) as [cp'|].
    + destruct IH as (i & sz' & H1 & H2 & H3 & H4). exists (S i), sz'. split_and!; try done.
      intros [|j] sz2 Hj; cbn; [intros [= <-]; lia|]. apply H4. lia.
    + intros x [->|Hx]%elem_of_cons; [lia|by apply IH].
Qed.

Section kmalloc_spec.
Context {V : Type} `{VmPagesOk V}.
Notation W := (slabw V).
Implicit Types w : W.
Context (construct : nat → Z → Z → M (slabw V) Z) (destroy : nat → Z → Z → M (slabw V) unit).

(** A size class that is served by a small cache. *)
Definition class_ok w (cp sz : Z) (live : gset Z) : Prop :=
  ∃ c, cache_ok w cp c live ∧ cp_mutex c = false ∧ constructor c = None ∧ destructor c = None ∧ sz ≤ chunksize c.
Definition kheap_ok w (cs : list Z) (lives : nat → gset Z) : Prop :=
  NoDup cs ∧ length cs = length kmalloc_sizes ∧
  ∀ i cp sz, cs !! i = Some cp → kmalloc_sizes !! i = Some sz → sz ≤ KMEM_SMALL_MAX → class_ok w cp sz (lives i).
Definition lives_set (i : nat) (l : gset Z) (lives : nat → gset Z) : nat → gset Z :=
  λ j, if decide (j = i) then l else lives j.

Lemma none_quiet c : constructor c = None → destructor c = None → hooks_quiet construct destroy c.
Proof. intros E1 E2. split; intros f o w; congruence. Qed.

(** An operation on one cache leaves the others as they are. *)
Lemma class_ok_frame w w' cp c live cp2 sz2 live2 : cache_ok w cp c live → slab_frame cp c w w' → cp2 ≠ cp →
  class_ok w cp2 sz2 live2 → class_ok w' cp2 sz2 live2.
Proof.
  intros Hok (F1 & F2 & F3 & _) Hne (c2 & [Hc Hg Hn Hs Hp Hf Hl] & R).
  assert (∀ x, on_lists c2 x → slabs w' !! x = slabs w !! x) as Es.
  { intros x Hx. destruct (Hs x Hx) as (s & Hsx & Hk). apply F2; [apply Hk|]. intros Hx'.
    destruct (ck_slabs _ _ _ _ Hok x Hx') as (s' & Hsx' & Hk'). rewrite Hsx in Hsx'. injection Hsx' as <-.
    pose proof (sk_parent _ _ _ _ _ Hk). pose proof (sk_parent _ _ _ _ _ Hk'). congruence. }
  exists c2. split; [|exact R]. split; try done.
  - by rewrite F1.
  - intros x Hx. destruct (Hs x Hx) as (s & Hsx & [K1 K2 K3 K4 K5 K6 K7]). exists s. rewrite Es //. split; [done|]. split; try done. set_solver.
  - intros x s Hx. rewrite Es; [by left|]. by apply Hp.
  - intros x s Hx. rewrite Es; [by right|]. by apply Hf.
  - intros o. rewrite Hl. split; intros (x & s & Hx & Hsx & Ho); exists x, s; (split; [done|]); [rewrite Es //|rewrite Es // in Hsx].
Qed.

Lemma kheap_ok_update w w' cs lives i cp sz c l : kheap_ok w cs lives → cs !! i = Some cp → kmalloc_sizes !! i = Some sz →
  cache_ok w cp c (lives i) → slab_frame cp c w w' → class_ok w' cp sz l → kheap_ok w' cs (lives_set i l lives).
Proof.
  intros (Hn & Hlen & Hall) Hi Hsz Hok Hf Hcl. split_and!; [done|done|]. intros j cp' sz' Hj Hsz' Hle. unfold lives_set.
  case_decide as Hd; [subst j; by simplify_eq|]. eapply class_ok_frame; [exact Hok|exact Hf| |by eapply Hall].
  intros ->. apply Hd. by eapply NoDup_lookup.
Qed.

(** Objects handed out do not overlap, in one class or in two. *)
Lemma kheap_disjoint w cs lives i j cp1 cp2 sz1 sz2 o1 o2 : kheap_ok w cs lives →
  cs !! i = Some cp1 → cs !! j = Some cp2 → kmalloc_sizes !! i = Some sz1 → kmalloc_sizes !! j = Some sz2 →
  sz1 ≤ KMEM_SMALL_MAX → sz2 ≤ KMEM_SMALL_MAX → o1 ∈ lives i → o2 ∈ lives j → (i, o1) ≠ (j, o2) →
  o1 + sz1 ≤ o2 ∨ o2 + sz2 ≤ o1.
Proof.
  clear construct destroy. intros (Hn & _ & Hall) H1 H2 S1 S2 L1 L2 Ho1 Ho2 Hne.
  destruct (Hall i cp1 sz1 H1 S1 L1) as (c1 & K1 & _ & _ & _ & Z1), (Hall j cp2 sz2 H2 S2 L2) as (c2 & K2 & _ & _ & _ & Z2).
  destruct (live_slab _ _ _ _ _ K1 Ho1) as (sp1 & s1 & A1 & A2 & A3 & A4 & _ & _).
  destruct (live_slab _ _ _ _ _ K2 Ho2) as (sp2 & s2 & B1 & B2 & B3 & B4 & _ & _).
  pose proof (ck_geometry _ _ _ _ K1) as G1. pose proof (ck_geometry _ _ _ _ K2) as G2.
  destruct (sk_page _ _ _ _ _ A3) as (P1 & _), (sk_page _ _ _ _ _ B3) as (P2 & _).
  destruct (decide (sp1 = sp2)) as [->|Hsp].
  - assert (cp1 = cp2) as -> by (pose proof (sk_parent _ _ _ _ _ A3); pose proof (sk_parent _ _ _ _ _ B3); congruence).
    assert (i = j) as -> by by eapply NoDup_lookup.
    assert (c1 = c2) as -> by (pose proof (ck_cache _ _ _ _ K1); pose proof (ck_cache _ _ _ _ K2); congruence).
    destruct (chunks_disjoint c2 sp2 sp2 o1 o2); try done; [naive_solver|lia..].
  - destruct (chunk_bounds _ _ _ G1 A4) as (? & ? & ?), (chunk_bounds _ _ _ G2 B4) as (? & ? & ?).
    unfold SIZEOF_SLAB, PAGE_SIZE in *.
    destruct (decide (page_of sp1 + 4096 ≤ page_of sp2)); [left; lia|].
    destruct (decide (page_of sp2 + 4096 ≤ page_of sp1)); [right; lia|].
    exfalso. apply Hsp. enough (page_of sp1 = page_of sp2) by lia. apply (multiples_close _ _ 4096); [lia|done|done|lia].
Qed.

(** A small request is served by its class, with memory of its own. *)
Lemma kmalloc_small_spec w cs lives size : kheap_ok w cs lives → 0 ≤ size ≤ KMEM_SMALL_MAX → can_alloc (vm w) →
  wp (kmalloc construct cs size) (λ o w', ∃ i sz, kmalloc_sizes !! i = Some sz ∧ size ≤ sz ≤ KMEM_SMALL_MAX ∧
    (∀ j sz', (j < i)%nat → kmalloc_sizes !! j = Some sz' → sz' < size) ∧
    o ∉ lives i ∧ kheap_ok w' cs (lives_set i ({[o]} ∪ lives i) lives) ∧ pages_left (vm w) - 1 ≤ pages_left (vm w')) w.
Proof.
  intros Hheap Hsz Hroom. pose proof Hheap as (Hn & Hlen & Hall). unfold kmalloc.
  pose proof (size_class_spec kmalloc_sizes cs size Hlen) as Hc. destruct (size_class kmalloc_sizes cs size) as [cp|].
  2:{ specialize (Hc 256). unfold KMEM_SMALL_MAX, PAGE_SIZE in Hsz. change (4096 / 16) with 256 in Hsz. exfalso.
      enough (256 < size) by lia. apply Hc. do 6 right. left. }
  destruct Hc as (i & sz & Hi & Hcp & Hle & Hmin).
  assert (sz ≤ KMEM_SMALL_MAX) as Hsm.
  { apply Z.nlt_ge. intros Hgt. unfold KMEM_SMALL_MAX, PAGE_SIZE in *. change (4096 / 16) with 256 in *.
    enough (256 < size) by lia. apply (Hmin 6%nat); [|done].
    do 7 (destruct i as [|i]; [cbn in Hi; injection Hi as <-; lia|]). lia. }
  destruct (Hall i cp sz Hcp Hi Hsm) as (c & Hok & Hm & E1 & E2 & Hz).
  eapply wp_mono; [apply (kmem_cache_alloc_spec construct destroy 1 w cp c (lives i) Hok Hm (none_quiet c E1 E2)); done|].
  intros o w' (c' & sp & Hok' & Hm' & (G & E1' & E2' & _) & Hno & _ & _ & Hf & Hpg). exists i, sz. split_and!; try done.
  eapply kheap_ok_update; try done. exists c'. destruct G as [_ G]. split_and!; [done|done|congruence|congruence|]. rewrite G. done.
Qed.

(** Giving it back with a size of the same class. *)
Lemma kfree_small_spec w cs lives i sz o size : kheap_ok w cs lives → kmalloc_sizes !! i = Some sz → size ≤ sz ≤ KMEM_SMALL_MAX →
  (∀ j sz', (j < i)%nat → kmalloc_sizes !! j = Some sz' → sz' < size) → o ∈ lives i → o ≠ 0 →
  wp (kfree destroy cs o size) (λ _ w', kheap_ok w' cs (lives_set i (lives i ∖ {[o]}) lives) ∧ vm w' = vm w) w.
Proof.
  intros Hheap Hi Hle Hmin Ho H0'. pose proof Hheap as (Hn & Hlen & Hall). unfold kfree. rewrite decide_False //.
  pose proof (size_class_spec kmalloc_sizes cs size Hlen) as Hc. destruct (size_class kmalloc_sizes cs size) as [cp|].
  2:{ specialize (Hc sz). exfalso. enough (sz < size) by lia. apply Hc. by eapply list_elem_of_lookup_2. }
  destruct Hc as (i' & sz' & Hi' & Hcp & Hle' & Hmin').
  assert (i' = i) as ->.
  { destruct (Nat.lt_trichotomy i i') as [Hlt|[?|Hlt]]; [specialize (Hmin' _ _ Hlt Hi); lia|done|specialize (Hmin _ _ Hlt Hi'); lia]. }
  simplify_eq. destruct (Hall i cp sz Hcp Hi ltac:(lia)) as (c & Hok & Hm & E1 & E2 & Hz).
  eapply wp_mono; [apply (kmem_cache_free_spec construct destroy w cp c (lives i) o Hok Hm (none_quiet c E1 E2) Ho)|].
  intros [] w' (c' & Hok' & Hm' & (G & E1' & E2' & _) & Hf & Ev). split; [|done].
  eapply kheap_ok_update; try done. exists c'. destruct G as [_ G]. split_and!; [done|done|congruence|congruence|]. rewrite G. done.
Qed.

(** A request above the largest class asks the page allocator for one page per byte. *)
Lemma kmalloc_large_pages w cs size : length cs = length kmalloc_sizes → KMALLOC_MAX < size →
  kmalloc construct cs size w = on_vm (vm_kalloc (PAGE_ALIGN_UP size)) w.
Proof.
  intros Hlen Hsz. unfold kmalloc. pose proof (size_class_spec kmalloc_sizes cs size Hlen) as Hc.
  destruct (size_class kmalloc_sizes cs size) as [cp|]; [|done]. destruct Hc as (i & sz & Hi & _ & Hle & _).
  assert (sz ≤ KMALLOC_MAX); [|lia]. apply list_elem_of_lookup_2 in Hi.
  assert (Forall (λ x, x ≤ KMALLOC_MAX) kmalloc_sizes) as Hall by by apply (bool_decide_unpack _); vm_compute.
  rewrite Forall_forall in Hall. by apply Hall.
Qed.
End kmalloc_spec.

(** ** The heap as [kmem_init] leaves it *)
Section kmem_init.
Context {V : Type} `{VmPagesOk V}.
Notation W := (slabw V).
Implicit Types w : W.

Definition class_at w (cp sz : Z) : Prop := (sz ≤ KMEM_SMALL_MAX → class_ok w cp sz ∅) ∧ cp ∈ in_use (vm w).
Lemma class_at_created cp c w w' cp2 sz : created cp c w w' → class_at w cp2 sz → class_at w' cp2 sz.
Proof.
  intros Hcr [Hc Hin]. split; [|destruct Hcr as (_ & U & _); set_solver].
  intros Hle. destruct (Hc Hle) as (c2 & Hok & R). exists c2. split; [|exact R]. by eapply created_cache_ok.
Qed.
Lemma create_one sz w : 0 < sz → (KMEM_SMALL_MAX < sz → cache_geometry sz 16 ≠ None) → can_alloc (vm w) →
  wp (kmem_cache_create sz 0 None None 0) (λ cp w', ∃ c, created cp c w w' ∧ class_at w' cp sz) w.
Proof.
  intros Hsz Hg Hroom. destruct (decide (sz ≤ KMEM_SMALL_MAX)) as [Hle|Hgt].
  - eapply wp_mono; [apply (kmem_cache_create_spec sz 0 w); [done|by left|done]|].
    intros cp w' (c & Hok & Hm & E1 & E2 & Hz & Hcr). exists c. split; [done|]. split; [|destruct Hcr as (_ & U & _); set_solver].
    intros _. exists c. by split_and!.
  - eapply wp_mono; [apply kmem_cache_create_large; [lia|apply Hg; lia|done]|].
    intros cp w' (c & Hcr). exists c. split; [done|]. split; [lia|]. destruct Hcr as (_ & U & _). set_solver.
Qed.

Lemma create_caches_spec sizes : Forall (λ sz, 0 < sz ∧ (KMEM_SMALL_MAX < sz → cache_geometry sz 16 ≠ None)) sizes →
  ∀ w, Z.of_nat (length sizes) ≤ pages_left (vm w) →
  wp (create_caches sizes) (λ cs w', length cs = length sizes ∧ NoDup cs ∧
    (∀ i cp sz, cs !! i = Some cp → sizes !! i = Some sz → class_at w' cp sz) ∧
    (∀ cp, cp ∈ cs → cp ∉ in_use (vm w)) ∧ (∀ cp2 sz, class_at w cp2 sz → class_at w' cp2 sz) ∧
    pages_left (vm w') = pages_left (vm w) - Z.of_nat (length sizes)) w.
Proof.
  induction 1 as [|sz sizes [Hsz Hg] _ IH]; intros w Hroom; cbn [create_caches].
  { apply wp_ret. split_and!; try done; [apply NoDup_nil_2|by intros cp ?%elem_of_nil|simpl; lia]. }
  simpl in Hroom. apply wp_bind. eapply wp_mono; [apply create_one; [done|done|unfold can_alloc; lia]|].
  intros cp w1 (c & Hcr & Hcl). pose proof Hcr as (F & U & L & _ & _). apply wp_bind.
  eapply wp_mono; [apply IH; rewrite L; lia|]. intros cs w2 (Hlen & Hnd & Hall & Hfresh & Hkeep & Hpg). apply wp_ret.
  split_and!.
  - simpl. by rewrite Hlen.
  - apply NoDup_cons. split; [|done]. intros Hin%Hfresh. apply Hin. rewrite U. set_solver.
  - intros [|i] cp' sz' Hi Hs; simplify_eq/=; [by apply Hkeep|by eapply Hall].
  - intros cp' [->|Hin%Hfresh]%elem_of_cons; [done|]. intros Hin'. apply Hin. rewrite U. set_solver.
  - intros cp2 sz' Hc2. apply Hkeep. by eapply class_at_created.
  - rewrite Hpg L. simpl. lia.
Qed.

Lemma kmalloc_sizes_ok : Forall (λ sz, 0 < sz ∧ (KMEM_SMALL_MAX < sz → cache_geometry sz 16 ≠ None)) kmalloc_sizes.
Proof. repeat constructor; try done; vm_compute; congruence. Qed.

(** Fourteen pages are enough: two caches for the headers and twelve size classes. *)
Lemma kmem_init_spec w : 14 ≤ pages_left (vm w) → wp kmem_init (λ cs w', kheap_ok w' cs (λ _, ∅) ∧ pages_left (vm w') = pages_left (vm w) - 14) w.
Proof.
  intros Hroom. unfold kmem_init, kmem_slab_init. apply wp_bind, wp_bind.
  eapply wp_mono; [apply create_one; [done|done|unfold can_alloc; lia]|]. intros a w1 (c1 & (_ & _ & L1 & _) & _).
  apply wp_bind, wp_modify, wp_bind.
  eapply wp_mono; [apply create_one; [done|done|unfold can_alloc; simpl; lia]|]. intros b w2 (c2 & (_ & _ & L2 & _) & _).
  apply wp_modify. eapply wp_mono; [apply create_caches_spec; [apply kmalloc_sizes_ok|simpl in *; lia]|].
  intros cs w' (Hlen & Hnd & Hall & _ & _ & Hpg). split; [|rewrite Hpg; simpl in *; lia]. split_and!; try done. intros i cp sz Hi Hs Hle. by apply (proj1 (Hall i cp sz Hi Hs)).
Qed.
End kmem_init.

(** ** Wired pages *)
Section wire.
Context (feat : cpu_features) (kmap : Z).

(** The page number behind an address, from the four indices. *)
Lemma INDEX_div va l : 0 ≤ l → INDEX va l = va / 2 ^ (12 + 9 * l) mod 512.
Proof. intros Hl. unfold INDEX. rewrite Z.shiftr_div_pow2; [lia|]. by rewrite (Z.land_ones _ 9). Qed.
Lemma same_page_number va va' : same_page va va' → (va / PAGE_SIZE) mod 2 ^ 36 = (va' / PAGE_SIZE) mod 2 ^ 36.
Proof.
  intros [E E0]. unfold upper in E. injection E as E3 E2 E1.
  assert (∀ v, (v / PAGE_SIZE) mod 2 ^ 36 = INDEX v 0 + 512 * (INDEX v 1 + 512 * (INDEX v 2 + 512 * INDEX v 3))) as Hn.
  { intros v. rewrite !INDEX_div //. set (n := v / PAGE_SIZE).
    assert (∀ k, 0 ≤ k → v / 2 ^ (12 + k) = n / 2 ^ k) as Hd.
    { intros k Hk. unfold n, PAGE_SIZE. change 0x1000 with (2 ^ 12). rewrite Z.div_div; [lia|lia|]. by rewrite -Z.pow_add_r. }
    rewrite !Hd //. change (9 * 0) with 0. change (9 * 1) with 9. change (9 * 2) with 18. change (9 * 3) with 27.
    rewrite Z.div_1_r. change (2 ^ 9) with 512. change (2 ^ 18) with (512 * 512). change (2 ^ 27) with (512 * 512 * 512).
    change (2 ^ 36) with (512 * (512 * (512 * 512))). rewrite -!Z.div_div; try lia.
    rewrite (Z.rem_mul_r n 512); [lia|lia|]. rewrite (Z.rem_mul_r (n / 512) 512); [lia|lia|].
    rewrite (Z.rem_mul_r (n / 512 / 512) 512); [lia|lia|]. done. }
  by rewrite !Hn E0 E1 E2 E3.
Qed.
(** Two pages of a range shorter than the address space of a map are different. *)
Lemma pages_differ p i j : 0 ≤ i < 2 ^ 36 → 0 ≤ j < 2 ^ 36 → i ≠ j → ¬ same_page (p + i * PAGE_SIZE) (p + j * PAGE_SIZE).
Proof.
  intros Hi Hj Hne E%same_page_number. unfold PAGE_SIZE in E. rewrite !Z.div_add in E; [lia..|].
  apply Hne. apply (f_equal (λ x, (x - p / 4096) mod 2 ^ 36)) in E. rewrite !Zminus_mod_idemp_l in E.
  rewrite !Z.add_simpl_l !Z.mod_small in E; [lia|lia|done].
Qed.

(** The addresses of [zone] are not covered by huge pages. *)
Context (zone : Z → Prop).

(** A frame handed out for wired memory is no page table's. *)
Lemma pt_ok_allocate w fl i use : pt_zone zone w (i :: fl) kmap → use ≠ kPageUseFree →
  wp (pm_allocate use) (λ pg w', pg = i ∧ pt_zone zone w' fl kmap ∧ phys w' = phys w ∧
    ∃ x, pages w !! i = Some x ∧ usage x = kPageUseFree ∧ pages w' = <[i := set_usage use x]> (pages w)) w.
Proof.
  intros Ok Hu. pose proof (pt_pm Ok) as Pm. eapply wp_mono; [by apply pm_allocate_spec|].
  intros pg w' (-> & Pm' & (R & P & _) & x & Hx & Ep).
  destruct (proj1 (po_free _ _ Pm i) (list_elem_of_here _ _)) as (x' & Hx' & Hf). rewrite Hx in Hx'. injection Hx' as <-.
  split_and!; try done; [|by exists x].
  split; rewrite ?R ?P; [done|apply (pt_phys Ok)| |apply (pt_inj Ok)|apply (pt_clear Ok)].
  intros q t Hq Iq Et. destruct (pt_frame Ok q t Hq Iq Et) as (j & y & Hy & Hyu & E). exists j, y.
  rewrite Ep lookup_insert_ne; [|by split_and!]. intros <-. assert (y = x) as -> by congruence. by rewrite Hf in Hyu.
Qed.

(** The range [p, p + n pages) is backed by the frames [fs], each wired. *)
Definition backed (w : mworld) (p : Z) (fs : list nat) : Prop :=
  ∀ k i, fs !! k = Some i → ∃ x, pages w !! i = Some x ∧ usage x = kPageUseWired ∧
    mapping (phys w) kmap (p + Z.of_nat k * PAGE_SIZE) = Some (make_entry feat 0 (PG2P x) kVmWritethrough kVmAll).

Lemma wire_loop_spec n : ∀ w fl p, pt_zone zone w fl kmap → (4 * n ≤ length fl)%nat → 0 ≤ p →
  (∀ k, 0 ≤ k < Z.of_nat n → zone (p + k * PAGE_SIZE)) → p + Z.of_nat n * PAGE_SIZE < 2 ^ 64 → Z.of_nat n < 2 ^ 36 → ∀ stop, p + (Z.of_nat n - 1) * PAGE_SIZE < stop ≤ p + Z.of_nat n * PAGE_SIZE →
  wp (wire_loop feat kmap n p stop) (λ _ w', ∃ fl' fs, pt_zone zone w' fl' kmap ∧ length fs = n ∧ NoDup fs ∧
    (∀ i, i ∈ fs → i ∈ fl) ∧ (∀ i, i ∈ fl' → i ∈ fl) ∧ (length fl ≤ length fl' + 4 * n)%nat ∧ backed w' p fs ∧
    (∀ i, i ∉ fl → pages w' !! i = pages w !! i) ∧
    ∀ va, (∀ k, 0 ≤ k < Z.of_nat n → ¬ same_page (p + k * PAGE_SIZE) va) → mapping (phys w') kmap va = mapping (phys w) kmap va) w.
Proof.
  induction n as [|n IH]; intros w fl p Ok Hfl Hp Hz Hend Hn stop Hs; cbn [wire_loop].
  { rewrite decide_False; [lia|]. apply wp_ret. exists fl, []. split_and!; try done; [apply NoDup_nil_2|by intros i ?%elem_of_nil|lia]. }
  rewrite decide_True; [unfold PAGE_SIZE in *; lia|]. destruct fl as [|i fl]; [simpl in Hfl; lia|]. apply wp_bind.
  eapply wp_mono; [by apply pt_ok_allocate|]. intros pg w1 (-> & Ok1 & P1 & x & Hx & Hxf & E1).
  apply wp_bind. unfold ld_page. apply wp_bind, wp_get, wp_deref. eexists. split; [rewrite E1; apply lookup_insert_eq|].
  change (PG2P (set_usage kPageUseWired x)) with (PG2P x). apply wp_bind.
  eapply wp_mono; [apply (vm_port_map_spec zone); [exact Ok1| |simpl in Hfl; lia|done]|].
  { specialize (Hz 0 ltac:(lia)). by rewrite Z.mul_0_l Z.add_0_r in Hz. }
  intros [] w2 (fl2 & Ok2 & M2 & _ & F2 & (used & Efl & Hused & P2)).
  rewrite make_entry_present in M2. change (has kVmAll kVmRead) with true in M2. cbn iota in M2.
  rewrite wrap64_small; [unfold PAGE_SIZE in *; lia|].
  eapply wp_mono; [apply (IH w2 fl2 (p + PAGE_SIZE) Ok2)|].
  - assert (length fl = length used + length fl2)%nat by (rewrite Efl length_app; done). simpl in Hfl. lia.
  - unfold PAGE_SIZE in *. lia.
  - intros k Hk. replace (p + PAGE_SIZE + k * PAGE_SIZE) with (p + (k + 1) * PAGE_SIZE) by lia. apply Hz. lia.
  - unfold PAGE_SIZE in *. lia.
  - lia.
  - unfold PAGE_SIZE in *. lia.
  - intros [] w3 (fl3 & fs & Ok3 & Hlen & Hnd & Hfs & Hfl3 & Hcnt & Hb & Hpg & Hm).
    pose proof (po_nodup _ _ (pt_pm Ok)) as Nd. apply NoDup_cons in Nd as [Hi Nd].
    assert (∀ j, j ∈ fl2 → j ∈ fl) as Hsub by (intros j Hj; rewrite Efl; set_solver).
    assert (i ∉ used) as Hiu by (intros Hu; apply Hi; rewrite Efl; set_solver).
    exists fl3, (i :: fs). split_and!.
    + done.
    + simpl. by rewrite Hlen.
    + apply NoDup_cons. split; [|done]. intros Hin%Hfs%Hsub. done.
    + intros j [->|Hj]%elem_of_cons; [by left|right; by apply Hsub, Hfs].
    + intros j Hj. right. by apply Hsub, Hfl3.
    + rewrite Efl /= length_app. lia.
    + intros [|k] j Hj; simplify_eq/=.
      * exists (set_usage kPageUseWired x). rewrite Hpg; [by intros ?%Hsub|]. rewrite P2 // E1 lookup_insert_eq.
        split_and!; [done|done|]. rewrite Z.add_0_r Hm; [|done]. intros k Hk.
        replace (p + PAGE_SIZE + k * PAGE_SIZE) with (p + (k + 1) * PAGE_SIZE) by lia.
        rewrite -{2}(Z.add_0_r p) -(Z.mul_0_l PAGE_SIZE). apply pages_differ; lia.
      * destruct (Hb k j Hj) as (y & Hy & Hyu & Hym). exists y. split_and!; [done|done|]. rewrite -Hym. f_equal. lia.
    + intros j Hj. rewrite Hpg; [by intros ?%Hsub; apply Hj; right|]. rewrite P2; [intros Hu; apply Hj; right; rewrite Efl; set_solver|].
      rewrite E1 lookup_insert_ne //. intros <-. apply Hj. by left.
    + intros va Hva. rewrite Hm.
      * intros k Hk. replace (p + PAGE_SIZE + k * PAGE_SIZE) with (p + (k + 1) * PAGE_SIZE) by lia. apply Hva. lia.
      * rewrite F2; [|by rewrite P1]. specialize (Hva 0 ltac:(lia)). by rewrite Z.mul_0_l Z.add_0_r in Hva.
Qed.

(** An operation on an arena that needs at most one page of tags takes at most the first
    frame off the free list. *)
Lemma wp_on_v {A} (f : M vworld A) Q w fl : pt_zone zone (wm w) fl kmap → (1 ≤ length fl)%nat →
  (pm_pages (shared w) = length fl → wp f (λ a v, (length fl ≤ pm_pages v + 1)%nat ∧ ∀ m fl',
    pt_zone zone m fl' kmap → phys m = phys (wm w) → (∀ i, i ∈ fl' → i ∈ fl) → (length fl - (length fl - pm_pages v) ≤ length fl')%nat →
    (∀ i, i ∉ fl → pages m !! i = pages (wm w) !! i) → Q a (Wired v m)) (shared w)) → wp (on_v f) Q w.
Proof.
  intros Ok Hfl H. assert (frames_left (wm w) = length fl) as El by by rewrite /frames_left (po_list _ _ (pt_pm Ok)).
  specialize (H El). unfold wp, on_v in *. destruct (f (shared w)) as [[a v]|]; [|done]. destruct H as [Hn H]. rewrite El.
  destruct (length fl - pm_pages v)%nat as [|[|n]] eqn:En; [|destruct fl as [|i fl]; [simpl in Hfl; lia|]|lia].
  - apply (H _ fl); try done. lia.
  - pose proof (pt_ok_allocate (wm w) fl i kPageUseVm Ok ltac:(done)) as Ha. unfold pm_allocate in Ha.
    assert (wp (take_frames 1) (λ _ m, pt_zone zone m fl kmap ∧ phys m = phys (wm w) ∧
      ∀ j, j ∉ i :: fl → pages m !! j = pages (wm w) !! j) (wm w)) as Ht.
    { cbn [take_frames]. apply wp_bind. eapply wp_mono; [exact Ha|]. intros pg m (_ & Ok' & P & x & _ & _ & E).
      apply wp_ret. split_and!; [done..|]. intros j Hj. rewrite E lookup_insert_ne //. intros <-. apply Hj. by left. }
    unfold wp in Ht. destruct (take_frames 1 (wm w)) as [[[] m]|]; [|done]. destruct Ht as (Ok' & P & Hpg).
    apply (H m fl); try done; [by right|simpl; lia].
Qed.
Lemma wp_on_m {A} (f : M mworld A) Q w : wp f (λ a m, Q a (Wired (wv w) m)) (wm w) → wp (on_m f) Q w.
Proof. rewrite /wp /on_m. by destruct (f (wm w)) as [[a m]|]. Qed.

(** With [VM_BOOTSTRAP] the tags there are must do; otherwise a frame is enough. *)
Definition flag_ok (w : wired) (flag : Z) : Prop :=
  has_flag (eff_flag flag) VM_BOOTSTRAP = true → (2 ≤ length (free_segs (wv w)))%nat.
Lemma shared_ready w flag : flag_ok w flag → (1 ≤ pm_pages (shared w))%nat → pool_ready (shared w) flag.
Proof. unfold flag_ok, pool_ready. destruct (has_flag _ _); [auto|]. intros _ H. by right. Qed.
Lemma arena_at_shared w p v ss R : arena_at (wv w) p v ss R → arena_at (shared w) p v ss R.
Proof. intros [A1 A2 A3 [B1 B2 B3 B4 B5] A5]. split; [done..| |done]. by split. Qed.

(** Wired memory: a range the arena had free, and a frame of its own behind every page. *)
Lemma allocwired_spec ca fuel w p v ss R n flag fl :
  arena_at (wv w) p v ss R → flag_ok w flag → (0 < fuel)%nat → quantum v = PAGE_SIZE →
  let size := Z.of_nat n * PAGE_SIZE in
  request_ok v size (eff_align v 0) 0 VMEM_ADDR_MIN VMEM_ADDR_MAX →
  (∀ s, s ∈ ss → type s = SEGMENT_FREE → no_wrap (eff_align v 0) s) →
  (∃ s a, s ∈ ss ∧ type s = SEGMENT_FREE ∧ fits size (eff_align v 0) 0 VMEM_ADDR_MIN VMEM_ADDR_MAX s a) →
  (∀ s va, s ∈ ss → type s = SEGMENT_FREE → base s ≤ va < base s + Vmem.size s → zone va) →
  pt_zone zone (wm w) fl kmap → (4 * n + 1 ≤ length fl)%nat → Z.of_nat n < 2 ^ 36 →
  wp (allocwired feat kmap ca fuel p size flag) (λ r w',
    (∃ fl' fs, pt_zone zone (wm w') fl' kmap ∧ length fs = n ∧ NoDup fs ∧ backed (wm w') r fs ∧
       ∀ va, (∀ k, 0 ≤ k < Z.of_nat n → ¬ same_page (r + k * PAGE_SIZE) va) →
         mapping (phys (wm w')) kmap va = mapping (phys (wm w)) kmap va) ∧
    ∃ pre s post v' ss', ss = pre ++ s :: post ∧ type s = SEGMENT_FREE ∧
      fits size (eff_align v 0) 0 VMEM_ADDR_MIN VMEM_ADDR_MAX s r ∧
      sview <$> ss' = (sview <$> pre) ++ carve (base s) (Vmem.size s) r size ++ (sview <$> post) ∧
      arena_at (wv w') p v' ss' R) w.
Proof.
  intros A Hpool Hf Hq size Hreq Hnw Hfit Hz Ok Hfl Hn. unfold allocwired. apply wp_bind.
  apply (wp_on_v _ _ w fl Ok); [lia|]. intros Hsh.
  eapply wp_mono; [eapply vmem_xalloc_spec; [by apply arena_at_shared|apply shared_ready; [done|lia]|done..]|].
  intros r v1 (pre & s & post & v' & ss' & Ess & Ht & Hr & Hv & A' & _ & _ & _ & Hp1). split; [lia|].
  intros m1 fl1 Ok1 P1 _ Hl1 _.
  pose proof (Hnw s ltac:(rewrite Ess; set_solver) Ht) as (Hb & _ & Hw). rewrite eff_align_0 Hq in Hw.
  pose proof Hr as (R1 & _ & R3 & _ & _). apply wp_bind, wp_on_m. cbn [wm wv].
  assert (page_count size = n) as ->.
  { unfold page_count, size, PAGE_SIZE. replace (Z.of_nat n * 4096 + 4096 - 1) with (4095 + Z.of_nat n * 4096) by lia.
    rewrite Z.div_add; [lia|]. change (4095 / 4096) with 0. lia. }
  rewrite wrap64_small; [unfold size, PAGE_SIZE in *; lia|].
  eapply wp_mono; [apply (wire_loop_spec n m1 fl1 r Ok1)|].
  - lia.
  - lia.
  - intros k Hk. apply (Hz s); [rewrite Ess; set_solver|done|]. unfold size, PAGE_SIZE in *. lia.
  - unfold size, PAGE_SIZE in *. lia.
  - done.
  - unfold size, PAGE_SIZE in *. lia.
  - intros [] m (fl' & fs & Ok' & Hlen & Hnd & _ & _ & _ & Hbk & _ & Hm). rewrite P1 in Hm. apply wp_ret. split; [by exists fl', fs|].
    by exists pre, s, post, v', ss'.
Qed.
End wire.
