(* ===== verification/Wired.v ===== *)
(** * Releasing wired memory: [freewired] of [kernel/vm/kmem.c]

    The loop that unmaps the pages of a range and returns their frames, and that releasing
    undoes [allocwired]. *)

From S2P Require Import Prelude Queue Vmem VmemInv VmemAlloc VmemFree Pm Paging Slab Kmem.

Section unwire.
Context (feat : cpu_features) (kmap : Z) (zone : Z → Prop).

Lemma wp_both {S A} (m : M S A) (P Q : A → S → Prop) s : wp m P s → wp m Q s → wp m (λ a s', P a s' ∧ Q a s') s.
Proof. unfold wp. destruct (m s) as [[]|]; [by split|done]. Qed.

(** A wired frame is no page table's, so it can be returned. *)
Lemma pt_ok_free w fl i x : pt_zone zone w fl kmap → pages w !! i = Some x → usage x = kPageUseWired →
  wp (pm_free i) (λ _ w', pt_zone zone w' (fl ++ [i]) kmap ∧ phys w' = phys w ∧
    pages w' = <[i := set_usage kPageUseFree x]> (pages w)) w.
Proof.
  intros Ok Hx Hu. eapply wp_mono; [by apply (pm_free_spec w fl i x (pt_pm Ok) Hx); rewrite Hu|].
  intros [] w' (Pm' & (R & P & _) & Ep). split_and!; try done.
  split; rewrite ?R ?P; [done|apply (pt_phys Ok)| |apply (pt_inj Ok)|apply (pt_clear Ok)].
  intros q t Hq Iq Et. destruct (pt_frame Ok q t Hq Iq Et) as (j & y & Hy & Hyu & E). exists j, y.
  rewrite Ep lookup_insert_ne; [|by split_and!]. intros <-. assert (y = x) as -> by congruence. by rewrite Hu in Hyu.
Qed.
(** The page behind an address that is mapped to a frame. *)
Lemma translate_frame w fl va i x : pt_zone zone w fl kmap → zone va → pages w !! i = Some x →
  mapping (phys w) kmap va = Some (make_entry feat 0 (PG2P x) kVmWritethrough kVmAll) →
  wp (vm_port_translate kmap va) (λ r w', r = Some i ∧ w' = w) w.
Proof.
  intros Ok Hz Hx Hm. pose proof (pt_pm Ok) as Pm. destruct (po_frame _ _ Pm i x Hx) as (r & k & Hr & F).
  pose proof (po_wf _ _ Pm) as Wf. rewrite Forall_forall in Wf. destruct (frame_addr r k i x (Wf r Hr) F) as (_ & B & Al).
  destruct (Wf r Hr) as (Hb & _). pose proof (pt_phys Ok r Hr) as Hp.
  unfold vm_port_translate. apply wp_bind. eapply wp_mono; [apply vm_port_translate_spec; by apply (pt_clear Ok)|]. intros a w' [-> ->].
  unfold mapping in Hm. destruct (tbl (phys w) kmap (upper va)) as [t|]; [|done]. cbn in Hm.
  destruct (present (phys w (t + 8 * INDEX va 0))); [|done]. injection Hm as ->.
  rewrite make_entry_addr; [lia|]. destruct (align_down_spec (PG2P x) PAGE_SIZE ltac:(by exists 12)) as [D1 D2].
  assert (PAGE_ALIGN_DOWN (PG2P x) = PG2P x) as ->.
  { change (PAGE_ALIGN_DOWN (PG2P x)) with (align_down (PG2P x) PAGE_SIZE). apply (multiples_close _ _ PAGE_SIZE); try done. lia. }
  rewrite decide_False; [lia|]. pose proof (pm_lookup_spec w fl i x 0 Pm Hx ltac:(done)) as Hl. rewrite Z.add_0_r in Hl. exact Hl.
Qed.
Lemma unmap_pages w fl va : pt_zone zone w fl kmap → zone va → wp (vm_port_unmap feat kmap va 0) (λ _ w', pages w' = pages w) w.
Proof.
  intros Ok Hz. unfold vm_port_unmap. change (has 0 kVmHuge) with false. apply wp_bind, wp_ret, wp_bind.
  eapply wp_mono; [apply pte_walk_lookup; [by apply (pt_clear Ok)|done..]|]. intros r w' [-> ->].
  destruct (tbl (phys w) kmap (upper va)) as [t|]; cbn [fmap option_fmap option_map]; unfold ld64, st64; by wp_run.
Qed.

Lemma unwire_loop_spec n : ∀ w fl fs p, pt_zone zone w fl kmap → (∀ k, 0 ≤ k < Z.of_nat n → zone (p + k * PAGE_SIZE)) →
  length fs = n → NoDup fs → backed feat kmap w p fs → 0 ≤ p →
  p + Z.of_nat n * PAGE_SIZE < 2 ^ 64 → Z.of_nat n < 2 ^ 36 →
  wp (unwire_loop feat kmap n p (p + Z.of_nat n * PAGE_SIZE)) (λ _ w', pt_zone zone w' (fl ++ fs) kmap ∧
    (∀ k, 0 ≤ k < Z.of_nat n → mapping (phys w') kmap (p + k * PAGE_SIZE) = None) ∧
    (∀ va, (∀ k, 0 ≤ k < Z.of_nat n → ¬ same_page (p + k * PAGE_SIZE) va) → mapping (phys w') kmap va = mapping (phys w) kmap va) ∧
    (∀ i, i ∉ fs → pages w' !! i = pages w !! i)) w.
Proof.
  induction n as [|n IH]; intros w fl fs p Ok Hz Hlen Hnd Hb Hp He Hn; cbn [unwire_loop].
  { apply nil_length_inv in Hlen as ->. rewrite decide_False; [lia|]. apply wp_ret. rewrite app_nil_r. split_and!; try done. lia. }
  destruct fs as [|i fs]; [done|]. injection Hlen as Hlen. apply NoDup_cons in Hnd as [Hi Hnd].
  rewrite decide_True; [unfold PAGE_SIZE in *; lia|].
  destruct (Hb 0%nat i eq_refl) as (x & Hx & Hu & Hm). rewrite Z.mul_0_l Z.add_0_r in Hm.
  pose proof (Hz 0 ltac:(lia)) as Hz0. rewrite Z.mul_0_l Z.add_0_r in Hz0.
  apply wp_bind. eapply wp_mono; [by eapply translate_frame|]. intros r w' [-> ->]. apply wp_bind.
  eapply wp_mono; [apply wp_both; [by eapply (vm_port_unmap_spec zone)|by eapply unmap_pages]|].
  intros [] w1 ((Ok1 & N1 & _ & F1) & P1). rewrite -P1 in Hx. apply wp_bind.
  eapply wp_mono; [by eapply pt_ok_free|]. intros [] w2 (Ok2 & E2 & P2).
  rewrite wrap64_small; [unfold PAGE_SIZE in *; lia|].
  replace (p + Z.of_nat (S n) * PAGE_SIZE) with (p + PAGE_SIZE + Z.of_nat n * PAGE_SIZE) in * by (unfold PAGE_SIZE in *; lia).
  assert (∀ k, 0 ≤ k < Z.of_nat n → ¬ same_page p (p + PAGE_SIZE + k * PAGE_SIZE)) as Hdiff.
  { intros k Hk. replace (p + PAGE_SIZE + k * PAGE_SIZE) with (p + (k + 1) * PAGE_SIZE) by lia.
    rewrite -{1}(Z.add_0_r p) -(Z.mul_0_l PAGE_SIZE). apply pages_differ; lia. }
  eapply wp_mono; [apply (IH w2 (fl ++ [i]) fs (p + PAGE_SIZE) Ok2); [|done|done| |unfold PAGE_SIZE in *; lia|done|lia]|].
  - intros k Hk. replace (p + PAGE_SIZE + k * PAGE_SIZE) with (p + (k + 1) * PAGE_SIZE) by lia. apply Hz. lia.
  - intros k j Hj. destruct (Hb (S k) j Hj) as (y & Hy & Hyu & Hym). exists y.
    assert (j ≠ i) by (intros ->; by apply Hi, (list_elem_of_lookup_2 _ k)).
    rewrite P2 lookup_insert_ne // P1. split_and!; try done. rewrite E2 F1.
    + apply Hdiff. apply lookup_lt_Some in Hj. lia.
    + rewrite -Hym. f_equal. lia.
  - intros [] w3 (Ok3 & N3 & F3 & P3). rewrite -app_assoc in Ok3. split_and!; [done| | |].
    + intros k Hk. destruct (decide (k = 0)) as [->|Hk0].
      * rewrite Z.mul_0_l Z.add_0_r F3; [|by rewrite E2]. intros k Hk' Hs. apply (Hdiff k Hk'). by destruct Hs; split.
      * replace (p + k * PAGE_SIZE) with (p + PAGE_SIZE + (k - 1) * PAGE_SIZE) by lia. apply N3. lia.
    + intros va Hva. rewrite F3.
      * intros k Hk. replace (p + PAGE_SIZE + k * PAGE_SIZE) with (p + (k + 1) * PAGE_SIZE) by lia. apply Hva. lia.
      * rewrite E2 F1 //. specialize (Hva 0 ltac:(lia)). by rewrite Z.mul_0_l Z.add_0_r in Hva.
    + intros j Hj. apply not_elem_of_cons in Hj as [Hji Hj]. rewrite P3 // P2 lookup_insert_ne // P1 //.
Qed.

(** Releasing what was just allocated. *)
Definition wired_then_free ca cf (fuel p : nat) (size flag : Z) : M wired Z :=
  r ← allocwired feat kmap ca fuel p size flag;
  freewired feat kmap cf p r size;;
  mret r.
Lemma page_count_pages n : page_count (Z.of_nat n * PAGE_SIZE) = n.
Proof.
  unfold page_count, PAGE_SIZE. replace (Z.of_nat n * 4096 + 4096 - 1) with (4095 + Z.of_nat n * 4096) by lia.
  rewrite Z.div_add; [lia|]. change (4095 / 4096) with 0. lia.
Qed.
Lemma wired_roundtrip ca cf fuel w p v ss R n flag fl :
  arena_at (wv w) p v ss R → flag_ok w flag → (0 < fuel)%nat → quantum v = PAGE_SIZE → v_free v = None →
  let size := Z.of_nat n * PAGE_SIZE in
  request_ok v size (eff_align v 0) 0 VMEM_ADDR_MIN VMEM_ADDR_MAX → disjoint_layout ss →
  (∀ s, s ∈ ss → type s = SEGMENT_FREE → no_wrap (eff_align v 0) s) →
  (∃ s a, s ∈ ss ∧ type s = SEGMENT_FREE ∧ fits size (eff_align v 0) 0 VMEM_ADDR_MIN VMEM_ADDR_MAX s a) →
  (∀ s va, s ∈ ss → type s = SEGMENT_FREE → base s ≤ va < base s + Vmem.size s → zone va) →
  pt_zone zone (wm w) fl kmap → (4 * n + 1 ≤ length fl)%nat → Z.of_nat n < 2 ^ 36 →
  wp (wired_then_free ca cf fuel p size flag) (λ r w',
    (∃ v' ss', arena_at (wv w') p v' ss' R ∧ sview <$> ss' = sview <$> ss) ∧
    (∃ fl', pt_zone zone (wm w') fl' kmap ∧ (length fl ≤ length fl' + 3 * n + 1)%nat) ∧
    (∀ k, 0 ≤ k < Z.of_nat n → mapping (phys (wm w')) kmap (r + k * PAGE_SIZE) = None) ∧
    (∀ va, (∀ k, 0 ≤ k < Z.of_nat n → ¬ same_page (r + k * PAGE_SIZE) va) →
      mapping (phys (wm w')) kmap va = mapping (phys (wm w)) kmap va) ∧
    (∀ i, i ∉ fl → pages (wm w') !! i = pages (wm w) !! i)) w.
Proof.
  intros A Hpool Hf Hq Hvf size Hreq Hd Hnw Hfit Hz Ok Hfl Hn.
  pose proof (at_ok _ _ _ _ _ A) as Ao.
  unfold wired_then_free, allocwired. apply wp_bind, wp_bind, (wp_on_v _ _ _ _ w fl Ok); [lia|]. intros Hsh.
  eapply wp_mono; [eapply vmem_xalloc_spec; [by apply arena_at_shared|apply shared_ready; [done|lia]|done..]|].
  intros r v1 (pre & s & post & v' & ss' & Ess & Ht & Hr & Hv & A' & Hc' & _ & _ & Hp1). split; [lia|].
  intros m1 fl1 Ok1 P1 Hsub1 Hl1 Hpg1.
  pose proof (Hnw s ltac:(rewrite Ess; set_solver) Ht) as (Hb & _ & Hw). rewrite eff_align_0 Hq in Hw.
  pose proof Hr as (R1 & _ & R3 & _ & _). apply wp_bind, wp_on_m. cbn [wm wv]. unfold size. rewrite page_count_pages.
  assert (0 ≤ r ∧ r + Z.of_nat n * PAGE_SIZE < 2 ^ 64) as [Hr0 Hr1] by (unfold size, PAGE_SIZE in *; lia).
  assert (∀ k, 0 ≤ k < Z.of_nat n → zone (r + k * PAGE_SIZE)) as Hzr.
  { intros k Hk. apply (Hz s); [rewrite Ess; set_solver|done|]. unfold size, PAGE_SIZE in *. lia. }
  rewrite wrap64_small; [unfold PAGE_SIZE in *; lia|].
  eapply wp_mono; [apply (wire_loop_spec feat kmap zone n m1 fl1 r Ok1 ltac:(lia) Hr0 Hzr Hr1 Hn); unfold PAGE_SIZE; lia|].
  intros [] m (fl' & fs & Ok' & Hlen & Hnd & Hfs & Hsub & Hcnt & Hbk & Hpg & Hm). apply wp_ret, wp_bind.
  unfold freewired. apply wp_bind, wp_on_m. cbn [wm wv]. rewrite page_count_pages wrap64_small; [unfold PAGE_SIZE in *; lia|].
  eapply wp_mono; [by apply (unwire_loop_spec n m fl' fs r)|]. intros [] m2 (Ok2 & N2 & F2 & P2).
  destruct Hreq as [[Rs _] _ _ _]. rewrite P1 in Hm.
  apply (wp_on_v _ _ _ _ (Wired v1 m2) _ Ok2); [rewrite length_app; unfold size, PAGE_SIZE in Rs; lia|]. intros Hsh2. cbn [wm wv] in *. rewrite Ess in Ao, Hd.
  eapply wp_mono; [eapply (xfree_carved cf _ p v v' R _ pre s post ss'); try done;
    [exact (ok_tiled _ _ _ Ao)|exact (ok_coal _ _ _ Ao)|by apply (arena_at_shared (Wired v1 m2))]|].
  intros [] v2 (v2' & ss2 & A2 & V2 & _ & Hp2). split; [lia|]. intros m3 fl3 Ok3 P3 _ Hl3 Hpg3. apply wp_ret. cbn [wm wv].
  rewrite -Ess in V2. rewrite length_app in Hl3, Hsh2. rewrite P3. split_and!; [by exists v2', ss2| |exact N2| |].
  - exists fl3. split; [done|]. lia.
  - intros va Hva. by rewrite F2 // Hm.
  - intros i Hi. assert (i ∉ fl' ++ fs) as Hi' by (rewrite elem_of_app; intros [?%Hsub%Hsub1|?%Hfs%Hsub1]; done).
    rewrite Hpg3 // P2; [intros ?; apply Hi'; set_solver|]. rewrite Hpg; [|by apply Hpg1]. by intros ?%Hsub1.
Qed.
End unwire.
