(* ===== verification/HeapProps.v ===== *)
(** * The slab allocator, the kernel heap and wired memory: properties *)

From S2P Require Import Prelude Vmem VmemInv VmemAlloc VmemFree VmemInit VmemProps Pm Paging MemProps Slab Kmem Wired.

(** ** Clients of the heap *)
Inductive heap_op := HAlloc (size : Z) | HFree (k : nat).

Section client.
Context {V : Type} `{VmPagesOk V}.
Notation W := (slabw V).
Implicit Types w : W.
Context (construct : nat → Z → Z → M W Z) (destroy : nat → Z → Z → M W unit).

(** A client holds blocks, each with the size it asked for, and releases them by that
    size. *)
Fixpoint heap_client (cs : list Z) (ops : list heap_op) (held : list (Z * Z)) : M W (list (Z * Z)) :=
  match ops with
  | [] => mret held
  | HAlloc size :: ops => o ← kmalloc construct cs size; heap_client cs ops ((o, size) :: held)
  | HFree k :: ops =>
      match held !! k with
      | Some (o, size) => kfree destroy cs o size;; heap_client cs ops (delete k held)
      | None => heap_client cs ops held
      end
  end.
Definition heap_small (o : heap_op) : Prop := match o with HAlloc size => 0 ≤ size ≤ KMEM_SMALL_MAX | HFree _ => True end.
Definition heap_allocs (ops : list heap_op) : Z :=
  sumZ (λ o, match o with HAlloc _ => 1 | HFree _ => 0 end) ops.
(** No two blocks of [held] share a byte. *)
Definition held_apart (held : list (Z * Z)) : Prop :=
  ∀ i j o1 n1 o2 n2, i ≠ j → held !! i = Some (o1, n1) → held !! j = Some (o2, n2) → o1 + n1 ≤ o2 ∨ o2 + n2 ≤ o1.

(** A block held, with the size class that serves it. *)
Record hblock := HBlock { h_class : nat; h_ptr : Z; h_size : Z }.
Definition h_view (b : hblock) : Z * Z := (h_ptr b, h_size b).
Definition h_key (b : hblock) : nat * Z := (h_class b, h_ptr b).
Definition block_ok (lives : nat → gset Z) (b : hblock) : Prop :=
  h_ptr b ∈ lives (h_class b) ∧ ∃ sz, kmalloc_sizes !! h_class b = Some sz ∧ h_size b ≤ sz ≤ KMEM_SMALL_MAX ∧
    ∀ j sz', (j < h_class b)%nat → kmalloc_sizes !! j = Some sz' → sz' < h_size b.
Definition blocks_ok (lives : nat → gset Z) (bs : list hblock) : Prop :=
  NoDup (h_key <$> bs) ∧ Forall (block_ok lives) bs.

Lemma kheap_class w cs lives i sz : kheap_ok w cs lives → kmalloc_sizes !! i = Some sz → sz ≤ KMEM_SMALL_MAX →
  ∃ cp, cs !! i = Some cp ∧ class_ok w cp sz (lives i).
Proof.
  intros (_ & Hlen & Hall) Hi Hle. destruct (lookup_lt_is_Some_2 cs i) as [cp Hcp].
  { rewrite Hlen. by eapply lookup_lt_Some. }
  exists cp. split; [done|]. by eapply Hall.
Qed.
Lemma block_pos w cs lives b : kheap_ok w cs lives → block_ok lives b → 0 < h_ptr b.
Proof.
  intros Hh (Ho & sz & Hi & Hle & _). destruct (kheap_class _ _ _ _ _ Hh Hi ltac:(lia)) as (cp & _ & c & Hok & _).
  destruct (live_slab _ _ _ _ _ Hok Ho) as (sp & s & _ & _ & A3 & A4 & _ & _).
  destruct (chunk_bounds _ _ _ (ck_geometry _ _ _ _ Hok) A4) as (? & _). pose proof (sk_page _ _ _ _ _ A3). lia.
Qed.
Lemma blocks_apart w cs lives bs : kheap_ok w cs lives → blocks_ok lives bs → held_apart (h_view <$> bs).
Proof.
  intros Hh [Hnd Hall] i j o1 n1 o2 n2 Hij Hi Hj.
  apply list_lookup_fmap_Some in Hi as (b1 & E1' & E1). apply list_lookup_fmap_Some in Hj as (b2 & E2' & E2).
  injection E1' as -> ->. injection E2' as -> ->.
  pose proof (proj1 (Forall_lookup _ _) Hall i b1 E1) as (Ho1 & sz1 & S1 & L1 & _).
  pose proof (proj1 (Forall_lookup _ _) Hall j b2 E2) as (Ho2 & sz2 & S2 & L2 & _).
  destruct (kheap_class _ _ _ _ _ Hh S1 ltac:(lia)) as (cp1 & C1 & _), (kheap_class _ _ _ _ _ Hh S2 ltac:(lia)) as (cp2 & C2 & _).
  destruct (kheap_disjoint w cs lives (h_class b1) (h_class b2) cp1 cp2 sz1 sz2 (h_ptr b1) (h_ptr b2)) as [?|?]; try done; try lia.
  intros Hk. apply Hij. eapply (NoDup_lookup (h_key <$> bs)); [done| |].
  - by rewrite list_lookup_fmap E1.
  - rewrite list_lookup_fmap E2. simpl. f_equal. symmetry. exact Hk.
Qed.

Lemma blocks_ok_alloc lives bs b : blocks_ok lives bs → h_ptr b ∉ lives (h_class b) →
  block_ok (lives_set (h_class b) ({[h_ptr b]} ∪ lives (h_class b)) lives) b →
  blocks_ok (lives_set (h_class b) ({[h_ptr b]} ∪ lives (h_class b)) lives) (b :: bs).
Proof.
  intros [Hnd Hall] Hno Hb. split.
  - apply NoDup_cons. split; [|done]. intros (b' & Ek & Hin)%list_elem_of_fmap. rewrite Forall_forall in Hall.
    destruct (Hall _ Hin) as [Ho _]. injection Ek as E1 E2. apply Hno. by rewrite E1 E2.
  - constructor; [done|]. eapply Forall_impl; [exact Hall|]. intros x [Ho Hx]. split; [|done].
    unfold lives_set. case_decide as E; [|done]. rewrite -E. set_solver.
Qed.
Lemma blocks_ok_free lives bs k b : blocks_ok lives bs → bs !! k = Some b →
  blocks_ok (lives_set (h_class b) (lives (h_class b) ∖ {[h_ptr b]}) lives) (delete k bs).
Proof.
  intros [Hnd Hall] Hk.
  assert (bs ≡ₚ b :: delete k bs) as Hp by by apply delete_Permutation.
  rewrite Hp fmap_cons NoDup_cons in Hnd. destruct Hnd as [Hno Hnd]. rewrite Hp Forall_cons in Hall. destruct Hall as [_ Hall].
  split; [done|]. rewrite Forall_forall. rewrite Forall_forall in Hall. intros x Hx. destruct (Hall _ Hx) as [Ho Hr].
  split; [|done]. unfold lives_set. case_decide as E; [|done].
  rewrite elem_of_difference elem_of_singleton -E. split; [done|]. intros Ep. apply Hno.
  apply list_elem_of_fmap. exists x. split; [|done]. unfold h_key. by rewrite E Ep.
Qed.

Lemma heap_client_spec cs ops : Forall heap_small ops → ∀ w lives bs, kheap_ok w cs lives → blocks_ok lives bs →
  heap_allocs ops ≤ pages_left (vm w) →
  wp (heap_client cs ops (h_view <$> bs)) (λ held w', ∃ lives' bs', held = h_view <$> bs' ∧
    kheap_ok w' cs lives' ∧ blocks_ok lives' bs') w.
Proof.
  induction 1 as [|op ops Hop _ IH]; intros w lives bs Hh Hb Hroom; cbn [heap_client].
  { apply wp_ret. by exists lives, bs. }
  assert (0 ≤ heap_allocs ops) as Hpos by (apply sumZ_nonneg; intros [] _; lia).
  change (heap_allocs (op :: ops)) with ((match op with HAlloc _ => 1 | HFree _ => 0 end) + heap_allocs ops) in Hroom.
  destruct op as [size|k].
  - apply wp_bind. eapply wp_mono; [apply (kmalloc_small_spec construct destroy w cs lives size Hh Hop); unfold can_alloc; lia|].
    intros o w' (i & sz & Hi & Hle & Hmin & Hno & Hh' & Hpg).
    apply (IH w' _ (HBlock i o size :: bs) Hh'); [|lia]. apply (blocks_ok_alloc lives bs (HBlock i o size)); [done|done|].
    split; [|by exists sz]. simpl. unfold lives_set. rewrite decide_True //. set_solver.
  - rewrite list_lookup_fmap. destruct (bs !! k) as [b|] eqn:Hk; simpl; [|by apply (IH w lives bs)].
    pose proof (proj1 (Forall_lookup _ _) (proj2 Hb) k b Hk) as Hbk. pose proof (block_pos _ _ _ _ Hh Hbk) as Hp.
    destruct Hbk as (Ho & sz & Hi & Hle & Hmin). apply wp_bind.
    eapply wp_mono; [apply (kfree_small_spec construct destroy w cs lives (h_class b) sz (h_ptr b) (h_size b)); try done; lia|].
    intros [] w' [Hh' Ev]. rewrite -list_fmap_delete. apply (IH w' _ _ Hh'); [by apply blocks_ok_free|]. rewrite Ev. lia.
Qed.

(** C5: The kernel heap is memory safe for small blocks, from [kmem_init] on: whatever
    sequence of [kmalloc] (of at most 256 bytes) and [kfree] a client makes, every call
    returns, and at each end of the run the blocks held are non-null and pairwise
    disjoint.  A page for each of the fourteen caches and one per allocation is enough. *)
Theorem kmalloc_blocks_disjoint ops w : Forall heap_small ops → 14 + heap_allocs ops ≤ pages_left (vm w) →
  wp (cs ← kmem_init; heap_client cs ops []) (λ held _, held_apart held ∧ Forall (λ b, 0 < b.1) held) w.
Proof.
  intros Hops Hroom. assert (0 ≤ heap_allocs ops) by (apply sumZ_nonneg; intros [] _; lia). apply wp_bind.
  eapply wp_mono; [apply kmem_init_spec; lia|]. intros cs w1 [Hh Hpg].
  eapply wp_mono; [apply (heap_client_spec cs ops Hops w1 (λ _, ∅) [] Hh); [|lia]|].
  { split; [apply NoDup_nil_2|constructor]. }
  intros held w' (lives & bs & -> & Hh' & Hb). split; [by eapply blocks_apart|].
  apply Forall_fmap. eapply Forall_impl; [exact (proj2 Hb)|]. intros b Hbk. by apply (block_pos _ _ _ _ Hh').
Qed.
End client.

Definition heap0 : slabw nat := SlabW ∅ ∅ ∅ 0 0 0%nat.
Definition ops0 : list heap_op := [HAlloc 10; HAlloc 100; HAlloc 12; HFree 1; HAlloc 64; HFree 7].
Lemma kmalloc_blocks_disjoint_witness :
  wp (cs ← kmem_init; heap_client (λ _ _ _, mret 0) (λ _ _ _, mret tt) cs ops0 [])
    (λ held _, held_apart held ∧ Forall (λ b, 0 < b.1) held) heap0 ∧
  ∃ held w, (cs ← kmem_init; heap_client (λ _ _ _, mret 0) (λ _ _ _, mret tt) cs ops0 []) heap0 = Ok (held, w) ∧
    length held = 3%nat.
Proof.
  split.
  - apply kmalloc_blocks_disjoint.
    + repeat constructor; vm_compute; congruence.
    + vm_compute. congruence.
  - eexists _, _. split; [vm_compute; reflexivity|reflexivity].
Defined.

(** ** Wired memory *)

(** C9: Wired memory composes the three allocators below it, two of which draw on the same
    free frames: when the arena has room and the page frame allocator has four frames per
    page (the page's own and up to three page tables) and one more, for a page of boundary
    tags, [allocwired] returns a range cut out of
    one free segment of the arena, every page of which is mapped to a wired frame of its
    own; mappings outside the range are what they were, the tables still form a tree, and
    the arena's invariant holds again. *)
Theorem allocwired_backs_every_page feat kmap zone ca fuel w p v ss R n flag fl :
  arena_at (wv w) p v ss R → flag_ok w flag → (0 < fuel)%nat → quantum v = PAGE_SIZE →
  let size := Z.of_nat n * PAGE_SIZE in
  request_ok v size (eff_align v 0) 0 VMEM_ADDR_MIN VMEM_ADDR_MAX →
  (∀ s, s ∈ ss → type s = SEGMENT_FREE → no_wrap (eff_align v 0) s) →
  (∃ s a, s ∈ ss ∧ type s = SEGMENT_FREE ∧ fits size (eff_align v 0) 0 VMEM_ADDR_MIN VMEM_ADDR_MAX s a) →
  (∀ s va, s ∈ ss → type s = SEGMENT_FREE → base s ≤ va < base s + Vmem.size s → zone va) →
  pt_zone zone (wm w) fl kmap → (4 * n + 1 ≤ length fl)%nat → Z.of_nat n < 2 ^ 36 →
  wp (allocwired feat kmap ca fuel p size flag) (λ r w',
    (∃ fl' fs, pt_zone zone (wm w') fl' kmap ∧ length fs = n ∧ NoDup fs ∧ backed feat kmap (wm w') r fs ∧
       ∀ va, (∀ k, 0 ≤ k < Z.of_nat n → ¬ same_page (r + k * PAGE_SIZE) va) →
         mapping (phys (wm w')) kmap va = mapping (phys (wm w)) kmap va) ∧
    ∃ pre s post v' ss', ss = pre ++ s :: post ∧ type s = SEGMENT_FREE ∧
      fits size (eff_align v 0) 0 VMEM_ADDR_MIN VMEM_ADDR_MAX s r ∧
      sview <$> ss' = (sview <$> pre) ++ carve (base s) (Vmem.size s) r size ++ (sview <$> post) ∧
      arena_at (wv w') p v' ss' R) w.
Proof. apply allocwired_spec. Qed.

(** Three pages of the arena at 0x10000. *)
Lemma allocwired_backs_every_page_witness :
  wp (allocwired feat 0x101000 no_alloc 1 0 (Z.of_nat 3 * PAGE_SIZE) 0) (λ r w',
    ∃ i x, pages (wm w') !! i = Some x ∧ usage x = kPageUseWired ∧
      mapping (phys (wm w')) 0x101000 (r + 2 * PAGE_SIZE) = Some (make_entry feat 0 (PG2P x) kVmWritethrough kVmAll))
    (Wired demo_world mem2).
Proof.
  destruct demo_ready as (v & ss & A & Hv & Hq & _). destruct (demo_layout v ss Hq Hv) as (_ & Hw & Hfit).
  eapply wp_mono; [apply (allocwired_backs_every_page feat 0x101000 (λ _, True) no_alloc 1 (Wired demo_world mem2) 0 v ss ∅ 3 0 (seq 2 14))|].
  - exact A.
  - done.
  - lia.
  - exact Hq.
  - exact (demo_request v Hq).
  - exact Hw.
  - exact Hfit.
  - done.
  - exact mem2_ok.
  - cbn. lia.
  - cbn. lia.
  - intros r w' ((fl' & fs & _ & Hl & _ & Hb & _) & _).
    destruct (lookup_lt_is_Some_2 fs 2) as [i Hi]; [lia|]. destruct (Hb 2%nat i Hi) as (x & Hx & Hu & Hm).
    exists i, x. split; [exact Hx|]. split; [exact Hu|exact Hm].
Defined.

(** C11: Releasing wired memory undoes allocating it: after [allocwired] and [freewired] of
    the same range the arena has the layout it had, every frame that was handed out is
    free again except for those that have become page tables, at most three per page, and
    the one the arena may have needed for boundary tags, no
    page of the range is mapped, all other addresses are mapped as before, and no frame
    that was in use before was touched. *)
Theorem wired_memory_returns feat kmap zone ca cf fuel w p v ss R n flag fl :
  arena_at (wv w) p v ss R → flag_ok w flag → (0 < fuel)%nat → quantum v = PAGE_SIZE → v_free v = None →
  let size := Z.of_nat n * PAGE_SIZE in
  request_ok v size (eff_align v 0) 0 VMEM_ADDR_MIN VMEM_ADDR_MAX → disjoint_layout ss →
  (∀ s, s ∈ ss → type s = SEGMENT_FREE → no_wrap (eff_align v 0) s) →
  (∃ s a, s ∈ ss ∧ type s = SEGMENT_FREE ∧ fits size (eff_align v 0) 0 VMEM_ADDR_MIN VMEM_ADDR_MAX s a) →
  (∀ s va, s ∈ ss → type s = SEGMENT_FREE → base s ≤ va < base s + Vmem.size s → zone va) →
  pt_zone zone (wm w) fl kmap → (4 * n + 1 ≤ length fl)%nat → Z.of_nat n < 2 ^ 36 →
  wp (wired_then_free feat kmap ca cf fuel p size flag) (λ r w',
    (∃ v' ss', arena_at (wv w') p v' ss' R ∧ sview <$> ss' = sview <$> ss) ∧
    (∃ fl', pt_zone zone (wm w') fl' kmap ∧ (length fl ≤ length fl' + 3 * n + 1)%nat) ∧
    (∀ k, 0 ≤ k < Z.of_nat n → mapping (phys (wm w')) kmap (r + k * PAGE_SIZE) = None) ∧
    (∀ va, (∀ k, 0 ≤ k < Z.of_nat n → ¬ same_page (r + k * PAGE_SIZE) va) →
      mapping (phys (wm w')) kmap va = mapping (phys (wm w)) kmap va) ∧
    (∀ i, i ∉ fl → pages (wm w') !! i = pages (wm w) !! i)) w.
Proof. apply wired_roundtrip. Qed.

Lemma wired_memory_returns_witness :
  wp (wired_then_free feat 0x101000 no_alloc no_free 1 0 (Z.of_nat 3 * PAGE_SIZE) 0) (λ r w',
    (∃ v' ss', arena_at (wv w') 0 v' ss' ∅ ∧ sview <$> ss' = fresh_layout 0x10000 0x10000) ∧
    mapping (phys (wm w')) 0x101000 (r + 2 * PAGE_SIZE) = None) (Wired demo_world mem2).
Proof.
  destruct demo_ready as (v & ss & A & Hv & Hq & _ & Hvf & _). destruct (demo_layout v ss Hq Hv) as (Hd & Hw & Hfit).
  eapply wp_mono; [apply (wired_memory_returns feat 0x101000 (λ _, True) no_alloc no_free 1 (Wired demo_world mem2) 0 v ss ∅ 3 0 (seq 2 14))|].
  - exact A.
  - done.
  - lia.
  - exact Hq.
  - exact Hvf.
  - exact (demo_request v Hq).
  - exact Hd.
  - exact Hw.
  - exact Hfit.
  - done.
  - exact mem2_ok.
  - cbn. lia.
  - cbn. lia.
  - intros r w' ((v' & ss' & A' & Hv') & _ & N & _). split; [|exact (N 2 ltac:(lia))].
    exists v', ss'. split; [exact A'|]. rewrite Hv'. exact Hv.
Defined.
