(* ===== verification/Pci.v ===== *)
(** * Devices and PCI: [kernel/devkit/node.c], [devkit/pci/pci.c], [platform/amd64/pci.c]

    The device tree, access to configuration space in bytes, words and double words over
    the 32-bit access a port provides, the two ports of amd64, and the enumeration of the
    functions present. *)

From S2P Require Import Prelude.

(** ** The device tree *)
(** A name, by what it is formatted from. *)
Inductive node_name := PlainName (s : string) | PciDevName (slot function : Z) | PciBusName (seg n : Z).
Record dev_node_t := DevNode {
  n_refcnt : Z; n_name : node_name; n_parent : option nat; n_children : list nat; childcount : Z;
}.

Record pci_device_t := PciDevice {
  p_seg : Z; p_bus : Z; p_slot : Z; p_function : Z;
  p_vendor : Z; p_device : Z; p_class : Z; p_subclass : Z; p_revision : Z;
}.
Record pci_bus_t := PciBus { b_node : nat; segId : Z; busId : Z }.

(** [pci_info] is the [pci_device_t] around a node; [C] is the state of the port. *)
Record pciw (C : Type) := PciW {
  port : C;
  nodes : gmap nat dev_node_t;
  next_node : nat;
  pci_info : gmap nat pci_device_t;
  bus_cnt : Z;
}.
Arguments PciW {C} _ _ _ _ _.
Arguments port {C} _.
Arguments nodes {C} _.
Arguments next_node {C} _.
Arguments pci_info {C} _.
Arguments bus_cnt {C} _.

(** ** 32-bit access to configuration space *)
Class PciPort (C : Type) := {
  port_pci_read32 : Z → Z → Z → Z → Z → M C Z;
  port_pci_write32 : Z → Z → Z → Z → Z → Z → M C unit;
}.

Section access.
Context {C : Type} `{PciPort C}.

Definition pci_read8 (seg bus slot function offset : Z) : M C Z :=
  v ← port_pci_read32 seg bus slot function offset;
  mret (Z.land (Z.shiftr v (Z.land offset 3 * 8)) 0xff).
Definition pci_read16 (seg bus slot function offset : Z) : M C Z :=
  v ← port_pci_read32 seg bus slot function offset;
  mret (Z.land (Z.shiftr v (Z.land offset 3 * 8)) 0xffff).
Definition pci_read32 (seg bus slot function offset : Z) : M C Z :=
  port_pci_read32 seg bus slot function offset.

(** The old word with [mask] at [bitoffset] replaced. *)
Definition splice (old mask bitoffset value : Z) : Z :=
  wrap32 (Z.lor (Z.land old (Z.lnot (Z.shiftl mask bitoffset))) (Z.shiftl value bitoffset)).
Definition pci_write8 (seg bus slot function offset value : Z) : M C unit :=
  old ← port_pci_read32 seg bus slot function offset;
  port_pci_write32 seg bus slot function offset (splice old 0xff (8 * Z.land offset 3) value).
Definition pci_write16 (seg bus slot function offset value : Z) : M C unit :=
  old ← port_pci_read32 seg bus slot function offset;
  port_pci_write32 seg bus slot function offset (splice old 0xffff (8 * Z.land offset 3) value).
Definition pci_write32 (seg bus slot function offset value : Z) : M C unit :=
  port_pci_write32 seg bus slot function offset value.

(** ** Fields of the header *)
Definition headerType (seg bus slot function : Z) : M C Z :=
  reg ← pci_read32 seg bus slot function 0xC; mret (Z.shiftr (Z.land reg 0x00FF0000) 16).
Definition vendorId (seg bus slot function : Z) : M C Z := pci_read16 seg bus slot function 0.
Definition deviceId (seg bus slot function : Z) : M C Z :=
  v ← pci_read32 seg bus slot function 0; mret (wrap16 (Z.shiftr v 16)).
Definition classCode (seg bus slot function : Z) : M C Z :=
  reg3 ← pci_read32 seg bus slot function 0x8; mret (wrap8 (Z.shiftr reg3 24)).
Definition subClass (seg bus slot function : Z) : M C Z :=
  reg3 ← pci_read32 seg bus slot function 0x8; mret (Z.shiftr (Z.land reg3 0x00FF0000) 16).
Definition revisionId (seg bus slot function : Z) : M C Z := pci_read8 seg bus slot function 0x8.
Definition secondaryBus (seg bus slot function : Z) : M C Z :=
  reg6 ← pci_read16 seg bus slot function 0x18; mret (wrap8 (Z.shiftr reg6 8)).

(** ** Nodes *)
Notation W := (pciw C).
Definition w_nodes x (w : W) : W := PciW (port w) x (next_node w) (pci_info w) (bus_cnt w).
Definition on_port {A} (f : M C A) : M W A := λ w,
  match f (port w) with
  | Ok (a, c) => Ok (a, PciW c (nodes w) (next_node w) (pci_info w) (bus_cnt w))
  | Panic e => Panic e
  end.

(** [kmalloc] of a node and [dev_node_init]. *)
Definition dev_node_create (name : node_name) : M W nat :=
  w ← get;
  put (PciW (port w) (<[next_node w := DevNode 1 name None [] 0]> (nodes w)) (S (next_node w)) (pci_info w) (bus_cnt w));;
  mret (next_node w).
Definition ld_node (n : nat) : M W dev_node_t := w ← get; deref "node" (nodes w !! n).
Definition upd_node (n : nat) (f : dev_node_t → dev_node_t) : M W unit :=
  x ← ld_node n; modify (λ w, w_nodes (<[n := f x]> (nodes w)) w).
Definition node_retain (x : dev_node_t) : dev_node_t :=
  DevNode (wrap64 (n_refcnt x + 1)) (n_name x) (n_parent x) (n_children x) (childcount x).
Definition dev_node_attach (node : nat) (parent : option nat) : M W unit :=
  p ← (match parent with Some p => mret p | None => fail (AssertFail "node && parent") end);
  x ← ld_node node;
  assertM (bool_decide (n_parent x = None)) "node->parent == nullptr";;
  upd_node node node_retain;;
  upd_node p node_retain;;
  upd_node p (λ x, DevNode (n_refcnt x) (n_name x) (n_parent x) (n_children x ++ [node]) (wrap64 (childcount x + 1)));;
  upd_node node (λ x, DevNode (n_refcnt x) (n_name x) (Some p) (n_children x) (childcount x)).

(** The printed tree: the branch drawn before each name.  [siblings] says for each
    ancestor whether another node follows it on its parent's list. *)
Definition has_next (w : W) (n : nat) : bool :=
  match nodes w !! n ≫= n_parent with
  | Some p => match nodes w !! p with
              | Some x => bool_decide (last (n_children x) ≠ Some n)
              | None => false
              end
  | None => false
  end.
Fixpoint print_branches (w : W) (i depth : nat) (ancestor : option nat) : list string :=
  match depth with
  | O => []
  | S depth =>
      let ancestor := ancestor ≫= λ a, nodes w !! a ≫= n_parent in
      let rest := print_branches w (S i) depth ancestor in
      if bool_decide (is_Some ancestor) && from_option (has_next w) false ancestor then "|   " :: rest
      else if decide (i = 0)%nat then rest else "    " :: rest
  end.
Fixpoint dev_print_tree_n (fuel : nat) (w : W) (node depth : nat) : list (list string * node_name) :=
  match fuel, nodes w !! node with
  | S fuel, Some x =>
      let marks := if decide (0 < depth)%nat then
          print_branches w 0 depth (n_parent x) ++ [if has_next w node then "|-- " else "`-- "]
        else [] in
      (marks, n_name x) :: (n_children x ≫= λ c, dev_print_tree_n fuel w c (S depth))
  | _, _ => []
  end.
Definition dev_print_tree (w : W) (node : nat) : list (list string * node_name) :=
  dev_print_tree_n (S (size (nodes w))) w node 0.

(** ** Enumeration *)
Definition pci_dev_common_read (seg bus slot function : Z) : M W pci_device_t :=
  v ← on_port (vendorId seg bus slot function);
  d ← on_port (deviceId seg bus slot function);
  c ← on_port (classCode seg bus slot function);
  s ← on_port (subClass seg bus slot function);
  r ← on_port (revisionId seg bus slot function);
  mret (PciDevice seg bus slot function v d c s r).
Definition set_info (n : nat) (d : pci_device_t) : M W unit :=
  modify (λ w, PciW (port w) (nodes w) (next_node w) (<[n := d]> (pci_info w)) (bus_cnt w)).

Definition pci_create_device (slot function : Z) : M W nat := dev_node_create (PciDevName slot function).
Definition pci_create_bus (seg bus : Z) : M W nat :=
  n ← gets bus_cnt;
  modify (λ w, PciW (port w) (nodes w) (next_node w) (pci_info w) (n + 1));;
  dev_node_create (PciBusName seg n).

Section scan.
(** [check_bus], for the bus behind a bridge. *)
Context (check_bus : pci_bus_t → M W unit).

Definition check_function (bus : pci_bus_t) (slot function : Z) : M W unit :=
  classcode ← on_port (classCode (segId bus) (busId bus) slot function);
  subclass ← on_port (subClass (segId bus) (busId bus) slot function);
  if decide (classcode = 0x6 ∧ subclass = 0x0) then mret tt else
  whenM (bool_decide (classcode = 0x6 ∧ subclass = 0x4)) (
    sec ← on_port (secondaryBus (segId bus) (busId bus) slot function);
    dev ← pci_create_bus 0 sec;
    b ← ld_node (b_node bus);
    dev_node_attach dev (n_parent b);;
    info ← pci_dev_common_read (segId bus) (busId bus) slot function;
    set_info dev info;;
    check_bus (PciBus dev 0 sec));;
  dev ← pci_create_device slot function;
  info ← pci_dev_common_read (segId bus) (busId bus) slot function;
  set_info dev info;;
  dev_node_attach dev (Some (b_node bus)).

Definition check_slot (bus : pci_bus_t) (slot : Z) : M W unit :=
  vendor ← on_port (vendorId (segId bus) (busId bus) slot 0);
  if decide (vendor = 0xFFFF) then mret tt else
  check_function bus slot 0;;
  hdr ← on_port (headerType (segId bus) (busId bus) slot 0);
  if decide (Z.land hdr 0x80 ≠ 0) then
    forM (seq 1 7) (λ f,
      v ← on_port (vendorId (segId bus) (busId bus) slot (Z.of_nat f));
      whenM (bool_decide (v ≠ 0xFFFF)) (check_function bus slot (Z.of_nat f)))
  else mret tt.
End scan.

Fixpoint check_bus (fuel : nat) (bus : pci_bus_t) : M W unit :=
  match fuel with
  | O => fail OutOfFuel
  | S fuel => forM (seq 0 32) (λ slot, check_slot (check_bus fuel) bus (Z.of_nat slot))
  end.

(** [for (function = 0; function < 8; function++)] with its [break]. *)
Fixpoint host_bridges (fuel n : nat) (function : Z) (proot : option nat) : M W unit :=
  match n with
  | O => mret tt
  | S n =>
      v ← on_port (vendorId 0 0 0 function);
      if decide (v = 0xFFFF) then mret tt else
      bus ← pci_create_bus 0 function;
      dev_node_attach bus proot;;
      set_info bus (PciDevice 0 0 0 function 0 0 0 0 0);;
      check_bus fuel (PciBus bus 0 function);;
      host_bridges fuel n (function + 1) proot
  end.
Definition pci_init (fuel : nat) (port_pci_init : M C unit) (proot : option nat) : M W unit :=
  on_port port_pci_init;;
  hdr ← on_port (headerType 0 0 0 0);
  if decide (Z.land hdr 0x80 = 0) then
    bus ← pci_create_bus 0 0;
    dev_node_attach bus proot;;
    set_info bus (PciDevice 0 0 0 0 0 0 0 0 0);;
    check_bus fuel (PciBus bus 0 0)
  else host_bridges fuel 8 0 proot.

(** [port_devkit_init] of amd64 and [devkit_init]. *)
Definition port_devkit_init (fuel : nat) (port_pci_init : M C unit) (dtroot : nat) : M W unit :=
  proot ← dev_node_create (PlainName "AMD64Platform");
  dev_node_attach proot (Some dtroot);;
  pci_init fuel port_pci_init (Some proot).
(** The result is the root and the tree that is printed. *)
Definition devkit_init (fuel : nat) (port_pci_init : M C unit) : M W (nat * list (list string * node_name)) :=
  root ← dev_node_create (PlainName "Root");
  port_devkit_init fuel port_pci_init root;;
  w ← get;
  mret (root, dev_print_tree w root).
End access.

(** ** Configuration through the I/O ports 0xCF8 and 0xCFC

    The host bridge latches the address and gives access to the register it names. *)
Record io_config := IoConfig { config_address : Z; registers : Z → Z }.
Definition legacy_address (bus slot function offset : Z) : Z :=
  Z.lor (Z.lor (Z.lor (Z.lor 0x80000000 (Z.shiftl bus 16)) (Z.shiftl slot 11)) (Z.shiftl function 8))
    (Z.land offset (Z.lnot 3)).
Definition legacy_checks (segment bus slot function offset : Z) : M io_config unit :=
  assertM (bool_decide (segment = 0)) "segment == 0";;
  assertM (bool_decide (bus < 256 ∧ slot < 32 ∧ function < 8 ∧ offset < 256))
    "bus < 256 && slot < 32 && function < 8 && offset < 256";;
  assertM (bool_decide (Z.land offset 3 = 0)) "!(offset & 0b11)".
Definition pci_legacy_read (segment bus slot function offset : Z) : M io_config Z :=
  legacy_checks segment bus slot function offset;;
  modify (λ c, IoConfig (legacy_address bus slot function offset) (registers c));;
  gets (λ c, registers c (config_address c)).
Definition pci_legacy_write (segment bus slot function offset value : Z) : M io_config unit :=
  legacy_checks segment bus slot function offset;;
  modify (λ c, IoConfig (legacy_address bus slot function offset) (registers c));;
  modify (λ c, IoConfig (config_address c)
    (λ a, if decide (a = config_address c) then value else registers c a)).
Definition legacy_port : PciPort io_config := {|
  port_pci_read32 := pci_legacy_read;
  port_pci_write32 := pci_legacy_write;
|}.

(** ** Memory-mapped configuration *)
Record mcfg_allocation := Mcfg { m_address : Z; m_segment : Z; start_bus : Z; end_bus : Z }.
Record mcfg_config := McfgConfig { mcfg_entries : list mcfg_allocation; mmio : Z → Z }.
Definition mcfg_bus (entries : list mcfg_allocation) (segment bus : Z) : option mcfg_allocation :=
  snd <$> list_find (λ e, m_segment e = segment ∧ bus >= start_bus e ∧ bus ≤ end_bus e) entries.
Definition mcfg_offset (e : mcfg_allocation) (bus slot function : Z) : Z :=
  wrap32 (Z.lor (Z.lor (Z.shiftl (bus - start_bus e) 20) (Z.shiftl slot 15)) (Z.shiftl function 12)).
Definition mcfg_address (e : mcfg_allocation) (bus slot function offset : Z) : Z :=
  Z.lor (wrap64 (m_address e + mcfg_offset e bus slot function)) (Z.land offset (Z.lnot 3)).
Definition pci_mcfg_read (segment bus slot function offset : Z) : M mcfg_config Z :=
  c ← get;
  match mcfg_bus (mcfg_entries c) segment bus with
  | None => mret 0xFFFFFFFF
  | Some e => mret (mmio c (mcfg_address e bus slot function offset))
  end.
Definition pci_mcfg_write (segment bus slot function offset value : Z) : M mcfg_config unit :=
  c ← get;
  e ← deref "entry" (mcfg_bus (mcfg_entries c) segment bus);
  let a := mcfg_address e bus slot function offset in
  put (McfgConfig (mcfg_entries c) (λ x, if decide (x = a) then value else mmio c x)).
Definition mcfg_port : PciPort mcfg_config := {|
  port_pci_read32 := pci_mcfg_read;
  port_pci_write32 := pci_mcfg_write;
|}.

(** [MCFG_MAPPING_SIZE] and the pages [port_pci_init] maps for an entry. *)
Definition MCFG_MAPPING_SIZE (buscount : Z) : Z := 4096 * 8 * 32 * buscount.
Definition mcfg_mapsz (e : mcfg_allocation) : Z := MCFG_MAPPING_SIZE (end_bus e - start_bus e).
(** The pages mapped for an entry: physical and virtual address of each; [virt] is what
    [vm_map_allocate] gave for [mapsz] bytes. *)
Definition mcfg_pages (e : mcfg_allocation) (virt : Z) : list (Z * Z) :=
  let poff := m_address e mod 4096 in
  (λ i, (align_down (m_address e) 4096 + Z.of_nat i * 4096, virt + Z.of_nat i * 4096)) <$>
    seq 0 (Z.to_nat (align_up (mcfg_mapsz e + poff) 4096 / 4096)).
Definition mcfg_remap (e : mcfg_allocation) (virt : Z) : mcfg_allocation :=
  Mcfg (virt + m_address e mod 4096) (m_segment e) (start_bus e) (end_bus e).
Definition mcfg_entrycount (length hdr_size rsvd : Z) : Z := wrap64 (length - hdr_size - rsvd) / 16.

(** [port_pci_init]: with an MCFG table its entries are mapped, in order, at the addresses
    [vm_map_allocate] gives; without one the I/O ports are used. *)
Definition port_pci_init (tbl : option (list mcfg_allocation)) (virts : list Z)
    : option (list mcfg_allocation * list (Z * Z)) :=
  (λ es, (zip_with mcfg_remap es virts, concat (zip_with mcfg_pages es virts))) <$> tbl.

(** ** Fields side by side *)
Lemma testbit_above y k n : 0 ≤ y < 2 ^ k → 0 ≤ k ≤ n → Z.testbit y n = false.
Proof.
  intros Hy Hn. apply Z.testbit_false; [lia|]. rewrite Z.div_small //.
  pose proof (Z.pow_le_mono_r 2 k n). lia.
Qed.
Lemma land_shiftl x y k : 0 ≤ k → 0 ≤ y < 2 ^ k → Z.land (Z.shiftl x k) y = 0.
Proof.
  intros Hk Hy. apply Z.bits_inj'. intros n Hn. rewrite Z.land_spec Z.bits_0. destruct (decide (n < k)).
  - by rewrite Z.shiftl_spec_low.
  - rewrite (testbit_above y k n) //; [lia|]. by rewrite andb_false_r.
Qed.
Lemma lor_shiftl x y k : 0 ≤ k → 0 ≤ y < 2 ^ k → Z.lor (Z.shiftl x k) y = x * 2 ^ k + y.
Proof. intros Hk Hy. rewrite -Z.add_nocarry_lor; [by apply land_shiftl|]. by rewrite Z.shiftl_mul_pow2. Qed.
Lemma land_not3 x : Z.land x (Z.lnot 3) = x - x mod 4.
Proof. change 3 with (2 ^ 2 - 1). by rewrite land_lnot_ones. Qed.
Lemma land_3 x : Z.land x 3 = x mod 4.
Proof. by rewrite (Z.land_ones x 2). Qed.

Definition bdf_ok (bus slot function : Z) : Prop := 0 ≤ bus < 256 ∧ 0 ≤ slot < 32 ∧ 0 ≤ function < 8.

Lemma legacy_address_eq bus slot function offset : bdf_ok bus slot function → 0 ≤ offset < 256 →
  legacy_address bus slot function offset =
  2 ^ 31 + bus * 2 ^ 16 + slot * 2 ^ 11 + function * 2 ^ 8 + (offset - offset mod 4).
Proof.
  intros (Hb & Hs & Hf) Ho. unfold legacy_address. rewrite land_not3.
  pose proof (Z.mod_pos_bound offset 4). pose proof (Z.mod_le offset 4).
  set (o := offset - offset mod 4). assert (0 ≤ o < 256) as Ho' by (unfold o; lia).
  rewrite -!Z.lor_assoc (lor_shiftl function o 8); [lia|lia|]. rewrite (lor_shiftl slot _ 11); [lia|lia|].
  rewrite (lor_shiftl bus _ 16); [lia|lia|]. change 0x80000000 with (Z.shiftl 1 31). rewrite lor_shiftl; lia.
Qed.
(** Different functions, or different registers of one, have different addresses. *)
Lemma legacy_address_inj b1 s1 f1 o1 b2 s2 f2 o2 : bdf_ok b1 s1 f1 → bdf_ok b2 s2 f2 →
  0 ≤ o1 < 256 → 0 ≤ o2 < 256 → legacy_address b1 s1 f1 o1 = legacy_address b2 s2 f2 o2 →
  b1 = b2 ∧ s1 = s2 ∧ f1 = f2 ∧ o1 - o1 mod 4 = o2 - o2 mod 4.
Proof.
  intros B1 B2 O1 O2. rewrite !legacy_address_eq //. unfold bdf_ok in *.
  pose proof (Z.mod_pos_bound o1 4). pose proof (Z.mod_pos_bound o2 4). pose proof (Z.mod_le o1 4). pose proof (Z.mod_le o2 4). lia.
Qed.

Lemma mcfg_address_eq e bus slot function offset : m_address e mod 4096 = 0 → 0 ≤ m_address e →
  m_address e + (end_bus e - start_bus e + 1) * 2 ^ 20 ≤ 2 ^ 64 → 0 ≤ start_bus e ≤ bus → bus ≤ end_bus e < 256 →
  bdf_ok bus slot function → 0 ≤ offset < 4096 →
  mcfg_address e bus slot function offset =
  m_address e + (bus - start_bus e) * 2 ^ 20 + slot * 2 ^ 15 + function * 2 ^ 12 + (offset - offset mod 4).
Proof.
  intros Ha H0 Hend Hs He (Hb & Hsl & Hf) Ho. unfold mcfg_address, mcfg_offset. rewrite land_not3.
  pose proof (Z.mod_pos_bound offset 4). pose proof (Z.mod_le offset 4).
  set (o := offset - offset mod 4). assert (0 ≤ o < 4096) as Ho' by (unfold o; lia).
  rewrite -!Z.lor_assoc (Z.shiftl_mul_pow2 function); [lia|]. rewrite (lor_shiftl slot _ 15); [lia|lia|].
  rewrite (lor_shiftl (bus - start_bus e) _ 20); [lia|lia|].
  unfold wrap32. rewrite Z.mod_small; [lia|]. rewrite wrap64_small; [lia|].
  apply Z.mod_divide in Ha as [q Hq]; [|lia].
  replace (m_address e + ((bus - start_bus e) * 2 ^ 20 + (slot * 2 ^ 15 + function * 2 ^ 12)))
    with (Z.shiftl (q + (bus - start_bus e) * 2 ^ 8 + slot * 2 ^ 3 + function) 12) by (rewrite Z.shiftl_mul_pow2; lia).
  rewrite lor_shiftl; [lia|lia|]. lia.
Qed.

(** ** What the byte and word accessors need of a port *)
Definition cfg_addr : Type := Z * Z * Z * Z * Z.
Class PciPortOk (C : Type) `{PciPort C} := {
  cfg : C → cfg_addr → Z;
  cfg_valid : C → cfg_addr → Prop;
  cfg_word c a : cfg_valid c a → 0 ≤ cfg c a < 2 ^ 32;
  port_read_ok c s b sl f o : cfg_valid c (s, b, sl, f, o - o mod 4) →
    wp (port_pci_read32 s b sl f o) (λ v c', v = cfg c (s, b, sl, f, o - o mod 4) ∧
      (∀ a, cfg_valid c a → cfg c' a = cfg c a) ∧ ∀ a, cfg_valid c a → cfg_valid c' a) c;
  port_write_ok c s b sl f o v : cfg_valid c (s, b, sl, f, o - o mod 4) → 0 ≤ v < 2 ^ 32 →
    wp (port_pci_write32 s b sl f o v) (λ _ c',
      (∀ a, cfg_valid c a → cfg c' a = if decide (a = (s, b, sl, f, o - o mod 4)) then v else cfg c a) ∧
      ∀ a, cfg_valid c a → cfg_valid c' a) c;
}.

(** ** Memory-mapped access keeps the promise *)
Definition entry_end (e : mcfg_allocation) : Z := m_address e + (end_bus e - start_bus e + 1) * 2 ^ 20.
Definition entry_ok (e : mcfg_allocation) : Prop :=
  m_address e mod 4096 = 0 ∧ 0 ≤ m_address e ∧ entry_end e ≤ 2 ^ 64 ∧ 0 ≤ start_bus e ∧ end_bus e < 256.
Definition entries_apart (es : list mcfg_allocation) : Prop :=
  ∀ i j e1 e2, es !! i = Some e1 → es !! j = Some e2 → i ≠ j →
    entry_end e1 ≤ m_address e2 ∨ entry_end e2 ≤ m_address e1.
Definition mcfg_valid (c : mcfg_config) (a : cfg_addr) : Prop :=
  let '(s, b, sl, f, o) := a in
  Forall entry_ok (mcfg_entries c) ∧ entries_apart (mcfg_entries c) ∧ (∀ x, 0 ≤ mmio c x < 2 ^ 32) ∧
  bdf_ok b sl f ∧ 0 ≤ o < 4096 ∧ o mod 4 = 0 ∧ is_Some (mcfg_bus (mcfg_entries c) s b).
Definition mcfg_cfg (c : mcfg_config) (a : cfg_addr) : Z :=
  let '(s, b, sl, f, o) := a in
  match mcfg_bus (mcfg_entries c) s b with
  | Some e => mmio c (mcfg_address e b sl f o)
  | None => 0xFFFFFFFF
  end.

Lemma mcfg_bus_Some es s b e : mcfg_bus es s b = Some e → Forall entry_ok es →
  entry_ok e ∧ m_segment e = s ∧ start_bus e ≤ b ≤ end_bus e ∧ ∃ i, es !! i = Some e.
Proof.
  unfold mcfg_bus. intros Hb Hall. destruct (list_find _ es) as [[i e']|] eqn:Hf; simplify_eq/=.
  apply list_find_Some in Hf as (Hi & (Hs & H1 & H2) & _). split_and!; [|done|lia|lia|by exists i].
  rewrite Forall_forall in Hall. apply Hall. by eapply list_elem_of_lookup_2.
Qed.
Lemma mcfg_inj es s1 b1 sl1 f1 o1 s2 b2 sl2 f2 o2 e1 e2 : Forall entry_ok es → entries_apart es →
  mcfg_bus es s1 b1 = Some e1 → mcfg_bus es s2 b2 = Some e2 → bdf_ok b1 sl1 f1 → bdf_ok b2 sl2 f2 →
  0 ≤ o1 < 4096 → 0 ≤ o2 < 4096 → o1 mod 4 = 0 → o2 mod 4 = 0 →
  mcfg_address e1 b1 sl1 f1 o1 = mcfg_address e2 b2 sl2 f2 o2 → (s1, b1, sl1, f1, o1) = (s2, b2, sl2, f2, o2).
Proof.
  intros Hall Hap E1 E2 B1 B2 O1 O2 M1 M2 Heq.
  destruct (mcfg_bus_Some _ _ _ _ E1 Hall) as ((A1 & A2 & A3 & A4 & A5) & S1 & R1 & i & Hi).
  destruct (mcfg_bus_Some _ _ _ _ E2 Hall) as ((C1 & C2 & C3 & C4 & C5) & S2 & R2 & j & Hj).
  unfold entry_end in *. rewrite !mcfg_address_eq // in Heq; try lia. unfold bdf_ok in *.
  destruct (decide (i = j)) as [->|Hne].
  - rewrite Hi in Hj. injection Hj as ->. assert (b1 = b2 ∧ sl1 = sl2 ∧ f1 = f2 ∧ o1 = o2) as (-> & -> & -> & ->) by lia. congruence.
  - exfalso. specialize (Hap i j e1 e2 Hi Hj Hne). unfold entry_end in Hap. lia.
Qed.

#[global] Existing Instance mcfg_port.
Lemma aligned_down o : (o - o mod 4) mod 4 = 0.
Proof. rewrite Zminus_mod_idemp_r Z.sub_diag. done. Qed.
Lemma mcfg_address_aligned e b sl f o : mcfg_address e b sl f (o - o mod 4) = mcfg_address e b sl f o.
Proof. unfold mcfg_address. rewrite !land_not3 aligned_down. f_equal. lia. Qed.
#[global] Instance mcfg_port_ok : PciPortOk mcfg_config.
Proof.
  refine {| cfg := mcfg_cfg; cfg_valid := mcfg_valid |}.
  - intros c [[[[s b] sl] f] o] (_ & _ & Hm & _ & _ & _ & [e He]). simpl. rewrite He. apply Hm.
  - intros c s b sl f o (_ & _ & _ & _ & _ & _ & [e He]). simpl. unfold pci_mcfg_read. apply wp_bind, wp_get. rewrite He.
    apply wp_ret. by rewrite mcfg_address_aligned.
  - intros c s b sl f o v (Hall & Hap & Hm & Hbdf & Ho & Ho4 & [e He]) Hv. simpl. unfold pci_mcfg_write.
    apply wp_bind, wp_get, wp_bind, wp_deref. exists e. split; [done|]. apply wp_put. split.
    + intros [[[[s' b'] sl'] f'] o'] (_ & _ & _ & Hbdf' & Ho' & Ho4' & [e' He']). simpl. rewrite He'.
      rewrite -(mcfg_address_aligned e b sl f o). case_decide as Hd; case_decide as Hd'; try done.
      * exfalso. apply Hd'. by eapply mcfg_inj.
      * exfalso. apply Hd. injection Hd' as -> -> -> -> ->. congruence.
    + intros [[[[s' b'] sl'] f'] o'] (H1 & H2 & H3 & H4). refine (conj H1 (conj H2 (conj _ H4))).
      intros x. simpl. case_decide; [done|apply H3].
Defined.

(** ** Bytes and words *)
Section words.
Context {C : Type} `{PciPortOk C}.

(** The byte, or the 16-bit word, at [k] bits. *)
Lemma splice_bits old n k value : 0 ≤ old < 2 ^ 32 → 0 ≤ n → 0 ≤ k → k + n ≤ 32 → 0 ≤ value < 2 ^ n →
  ∀ i, 0 ≤ i → Z.testbit (splice old (Z.ones n) k value) i =
    if decide (k ≤ i < k + n) then Z.testbit value (i - k) else Z.testbit old i.
Proof.
  intros Ho Hn Hk Hkn Hv i Hi. unfold splice, wrap32. destruct (decide (i < 32)).
  - rewrite Z.mod_pow2_bits_low; [lia|]. rewrite Z.lor_spec Z.land_spec Z.lnot_spec // Z.shiftl_spec // Z.shiftl_spec //.
    case_decide as Hd.
    + rewrite Z.ones_spec_low; [lia|]. by rewrite andb_false_r.
    + destruct (decide (i < k)).
      * rewrite (Z.testbit_neg_r _ (i - k)); [lia|]. rewrite (Z.testbit_neg_r value (i - k)); [lia|]. by rewrite andb_true_r orb_false_r.
      * rewrite Z.ones_spec_high; [lia|]. rewrite (testbit_above value n (i - k)) //; [lia|]. by rewrite andb_true_r orb_false_r.
  - rewrite Z.mod_pow2_bits_high; [lia|]. case_decide; [lia|]. rewrite (testbit_above old 32 i) //. lia.
Qed.
Lemma splice_range old mask k value : 0 ≤ splice old mask k value < 2 ^ 32.
Proof. unfold splice. apply wrap32_range. Qed.
Lemma field_bits v k n i : 0 ≤ k → 0 ≤ n → 0 ≤ i → Z.testbit (Z.land (Z.shiftr v k) (Z.ones n)) i =
  if decide (i < n) then Z.testbit v (i + k) else false.
Proof.
  intros Hk Hn Hi. rewrite Z.land_spec Z.shiftr_spec //. case_decide.
  - rewrite Z.ones_spec_low; [lia|]. by rewrite andb_true_r.
  - rewrite Z.ones_spec_high; [lia|]. by rewrite andb_false_r.
Qed.
(** Reading back the field that was written, and fields beside it. *)
Lemma field_splice old n k value : 0 ≤ old < 2 ^ 32 → 0 ≤ n → 0 ≤ k → k + n ≤ 32 → 0 ≤ value < 2 ^ n →
  Z.land (Z.shiftr (splice old (Z.ones n) k value) k) (Z.ones n) = value.
Proof.
  intros Ho Hn Hk Hkn Hv. apply Z.bits_inj'. intros i Hi. rewrite field_bits //. case_decide.
  - rewrite splice_bits //; [lia|]. rewrite decide_True; [lia|]. f_equal. lia.
  - symmetry. apply (testbit_above value n); lia.
Qed.
Lemma field_splice_other old n k value k' n' : 0 ≤ old < 2 ^ 32 → 0 ≤ n → 0 ≤ k → k + n ≤ 32 → 0 ≤ value < 2 ^ n →
  0 ≤ k' → 0 ≤ n' → k' + n' ≤ k ∨ k + n ≤ k' →
  Z.land (Z.shiftr (splice old (Z.ones n) k value) k') (Z.ones n') = Z.land (Z.shiftr old k') (Z.ones n').
Proof.
  intros Ho Hn Hk Hkn Hv Hk' Hn' Hd. apply Z.bits_inj'. intros i Hi. rewrite !field_bits //. case_decide; [|done].
  rewrite splice_bits //; [lia|]. rewrite decide_False //. lia.
Qed.

(** The byte at an offset of a function's configuration space. *)
Definition cfg_byte (c : C) (s b sl f o : Z) : Z :=
  Z.land (Z.shiftr (cfg c (s, b, sl, f, o - o mod 4)) (o mod 4 * 8)) 0xff.

Lemma pci_read8_spec c s b sl f o : cfg_valid c (s, b, sl, f, o - o mod 4) →
  wp (pci_read8 s b sl f o) (λ v c', v = cfg_byte c s b sl f o ∧ (∀ a, cfg_valid c a → cfg c' a = cfg c a) ∧
    ∀ a, cfg_valid c a → cfg_valid c' a) c.
Proof.
  intros Hv. unfold pci_read8. apply wp_bind. eapply wp_mono; [by apply port_read_ok|]. intros v c' (-> & E & V).
  apply wp_ret. split_and!; try done. unfold cfg_byte. by rewrite land_3.
Qed.
Lemma pci_write8_spec c s b sl f o value : cfg_valid c (s, b, sl, f, o - o mod 4) → 0 ≤ value < 256 →
  wp (pci_write8 s b sl f o value) (λ _ c', cfg_byte c' s b sl f o = value ∧
    (∀ s' b' sl' f' o', cfg_valid c (s', b', sl', f', o' - o' mod 4) → (s', b', sl', f', o') ≠ (s, b, sl, f, o) →
       cfg_byte c' s' b' sl' f' o' = cfg_byte c s' b' sl' f' o') ∧
    ∀ a, cfg_valid c a → cfg_valid c' a) c.
Proof.
  intros Hv Hval. unfold pci_write8. apply wp_bind. eapply wp_mono; [by apply port_read_ok|].
  intros old c1 (-> & E1 & V1). pose proof (cfg_word c _ Hv) as Hw. rewrite land_3.
  pose proof (Z.mod_pos_bound o 4 ltac:(lia)) as Hm.
  eapply wp_mono; [apply port_write_ok; [by apply V1|apply splice_range]|]. intros [] c2 [E2 V2].
  change 0xff with (Z.ones 8) in *. unfold cfg_byte. change 0xff with (Z.ones 8). split_and!.
  - rewrite E2; [by apply V1|]. rewrite decide_True // (Z.mul_comm 8). apply field_splice; lia.
  - intros s' b' sl' f' o' Hv' Hne. rewrite E2; [by apply V1|]. case_decide as Hd; [|by rewrite E1].
    rewrite Hd. pose proof (Z.mod_pos_bound o' 4 ltac:(lia)). rewrite (Z.mul_comm 8). injection Hd as -> -> -> -> Ho.
    apply field_splice_other; try lia. assert (o' mod 4 ≠ o mod 4); [|lia].
    intros Em. apply Hne. do 4 f_equal. lia.
  - intros a Ha. by apply V2, V1.
Qed.
End words.

(** ** The mapping [port_pci_init] makes is one bus short *)
Lemma mcfg_last_bus_outside e virt pa va : entry_ok e → start_bus e ≤ end_bus e →
  0 ≤ virt → virt mod 4096 = 0 → virt + (end_bus e - start_bus e + 1) * 2 ^ 20 ≤ 2 ^ 64 →
  (pa, va) ∈ mcfg_pages e virt →
  let a := mcfg_address (mcfg_remap e virt) (end_bus e) 0 0 0 in ¬ (va ≤ a < va + 4096).
Proof.
  intros (Ha & H0 & Hend & Hs & He) Hle Hv0 Hv4 Hvend (i & E & Hi)%list_elem_of_fmap a. injection E as -> ->.
  apply elem_of_seq in Hi. rewrite Ha Z.add_0_r in Hi.
  assert (mcfg_mapsz e mod 4096 = 0) as Hm0.
  { unfold mcfg_mapsz, MCFG_MAPPING_SIZE. rewrite -!Z.mul_assoc Z.mul_comm. apply Z_mod_mult. }
  rewrite align_up_id // in Hi; [by exists 12|].
  unfold a. rewrite mcfg_address_eq; unfold mcfg_remap, bdf_ok; simpl; rewrite ?Ha ?Z.add_0_r; try lia; try done.
  change (0 mod 4) with 0. unfold mcfg_mapsz, MCFG_MAPPING_SIZE in *.
  assert (4096 * 8 * 32 * (end_bus e - start_bus e) / 4096 = 256 * (end_bus e - start_bus e)) as Ed.
  { replace (4096 * 8 * 32 * (end_bus e - start_bus e)) with (256 * (end_bus e - start_bus e) * 4096) by lia. apply Z.div_mul. lia. }
  rewrite Ed in Hi. lia.
Qed.

(** ** What the enumeration finds *)
Section enumerate.
Context {C : Type} `{PciPortOk C} (c0 : C).
Notation W := (pciw C).
Implicit Types w : W.

(** The configuration space can be read, and reading leaves it as it is. *)
Definition cfg_regs : list Z := [0; 8; 0xC; 0x18].
Definition readable (c : C) : Prop := ∀ b sl f o, bdf_ok b sl f → o ∈ cfg_regs → cfg_valid c (0, b, sl, f, o).
Definition port_same (c : C) : Prop :=
  (∀ a, cfg_valid c0 a → cfg c a = cfg c0 a) ∧ ∀ a, cfg_valid c0 a → cfg_valid c a.
Context (Hread : readable c0).

Definition reg (b sl f o : Z) : Z := cfg c0 (0, b, sl, f, o).
Definition vendor_of b sl f := Z.land (reg b sl f 0) 0xffff.
Definition device_of b sl f := wrap16 (Z.shiftr (reg b sl f 0) 16).
Definition class_of b sl f := wrap8 (Z.shiftr (reg b sl f 8) 24).
Definition subclass_of b sl f := Z.shiftr (Z.land (reg b sl f 8) 0x00FF0000) 16.
Definition revision_of b sl f := Z.land (reg b sl f 8) 0xff.
Definition header_of b sl f := Z.shiftr (Z.land (reg b sl f 0xC) 0x00FF0000) 16.
Definition secondary_of b sl f := wrap8 (Z.shiftr (Z.land (reg b sl f 0x18) 0xffff) 8).
Definition describe b sl f : pci_device_t :=
  PciDevice 0 b sl f (vendor_of b sl f) (device_of b sl f) (class_of b sl f) (subclass_of b sl f) (revision_of b sl f).

(** The functions of a bus, in the order they are found: host bridges are left out, a
    bridge is listed as a bus before what lies behind it and as a device after it. *)
Section reference.
Context (scan_behind : Z → list pci_device_t).
Definition scan_function (b sl f : Z) : list pci_device_t :=
  if decide (class_of b sl f = 0x6 ∧ subclass_of b sl f = 0x0) then []
  else (if decide (class_of b sl f = 0x6 ∧ subclass_of b sl f = 0x4)
        then describe b sl f :: scan_behind (secondary_of b sl f) else []) ++ [describe b sl f].
Definition scan_slot (b sl : Z) : list pci_device_t :=
  if decide (vendor_of b sl 0 = 0xFFFF) then [] else
  scan_function b sl 0 ++
  if decide (Z.land (header_of b sl 0) 0x80 ≠ 0) then
    seq 1 7 ≫= λ f, if decide (vendor_of b sl (Z.of_nat f) = 0xFFFF) then [] else scan_function b sl (Z.of_nat f)
  else [].
End reference.
Fixpoint scan_bus (fuel : nat) (b : Z) : list pci_device_t :=
  match fuel with
  | O => []
  | S fuel => seq 0 32 ≫= λ sl, scan_slot (scan_bus fuel) b (Z.of_nat sl)
  end.

(** Every bridge leads to a bus with a larger number. *)
Definition bridges_increase : Prop := ∀ b sl f, bdf_ok b sl f → class_of b sl f = 0x6 → subclass_of b sl f = 0x4 →
  b < secondary_of b sl f.

(** ** Reading the header *)
Lemma wp_on_port {A} (f : M C A) Q w :
  wp f (λ a c, Q a (PciW c (nodes w) (next_node w) (pci_info w) (bus_cnt w))) (port w) → wp (on_port f) Q w.
Proof. rewrite /wp /on_port. by destruct (f (port w)) as [[a c]|]. Qed.
Definition same_tree w w' : Prop :=
  port_same (port w') ∧ nodes w' = nodes w ∧ next_node w' = next_node w ∧ pci_info w' = pci_info w.
Definition reads {A} (m : M W A) (v : A) : Prop := ∀ w, port_same (port w) → wp m (λ r w', r = v ∧ same_tree w w') w.

Lemma read32_reads {A} b sl f o (g : Z → A) : bdf_ok b sl f → o ∈ cfg_regs →
  reads (on_port (v ← port_pci_read32 0 b sl f o; mret (g v))) (g (reg b sl f o)).
Proof.
  intros Hb Ho w [E V]. assert (o - o mod 4 = o) as Eo by (unfold cfg_regs in Ho; set_unfold in Ho; naive_solver).
  apply wp_on_port, wp_bind. eapply wp_mono; [apply port_read_ok; rewrite Eo; apply V; by apply Hread|].
  intros v c' (-> & E' & V'). apply wp_ret. rewrite Eo. split; [unfold reg; rewrite E //; by apply Hread|].
  split; [split|done].
  - intros a Ha. simpl. rewrite E'; [by apply V|by apply E].
  - intros a Ha. by apply V', V.
Qed.
Lemma reads_bind {A B} (m : M W A) (k : A → M W B) v Q w : reads m v → port_same (port w) →
  (∀ w', same_tree w w' → wp (k v) Q w') → wp (m ≫= k) Q w.
Proof. intros Hm Hp Hk. apply wp_bind. eapply wp_mono; [by apply Hm|]. intros r w' [-> Hs]. by apply Hk. Qed.

Ltac regs_tac := unfold cfg_regs; set_solver.
Lemma vendorId_reads b sl f : bdf_ok b sl f → reads (on_port (vendorId 0 b sl f)) (vendor_of b sl f).
Proof. intros Hb. apply (read32_reads b sl f 0 (λ v, Z.land v 0xffff)); [done|regs_tac]. Qed.
Lemma deviceId_reads b sl f : bdf_ok b sl f → reads (on_port (deviceId 0 b sl f)) (device_of b sl f).
Proof. intros Hb. apply (read32_reads b sl f 0 (λ v, wrap16 (Z.shiftr v 16))); [done|regs_tac]. Qed.
Lemma classCode_reads b sl f : bdf_ok b sl f → reads (on_port (classCode 0 b sl f)) (class_of b sl f).
Proof. intros Hb. apply (read32_reads b sl f 8 (λ v, wrap8 (Z.shiftr v 24))); [done|regs_tac]. Qed.
Lemma subClass_reads b sl f : bdf_ok b sl f → reads (on_port (subClass 0 b sl f)) (subclass_of b sl f).
Proof. intros Hb. apply (read32_reads b sl f 8 (λ v, Z.shiftr (Z.land v 0x00FF0000) 16)); [done|regs_tac]. Qed.
Lemma revisionId_reads b sl f : bdf_ok b sl f → reads (on_port (revisionId 0 b sl f)) (revision_of b sl f).
Proof. intros Hb. apply (read32_reads b sl f 8 (λ v, Z.land v 0xff)); [done|regs_tac]. Qed.
Lemma headerType_reads b sl f : bdf_ok b sl f → reads (on_port (headerType 0 b sl f)) (header_of b sl f).
Proof. intros Hb. apply (read32_reads b sl f 0xC (λ v, Z.shiftr (Z.land v 0x00FF0000) 16)); [done|regs_tac]. Qed.
Lemma secondaryBus_reads b sl f : bdf_ok b sl f → reads (on_port (secondaryBus 0 b sl f)) (secondary_of b sl f).
Proof.
  intros Hb w Hw. unfold secondaryBus, pci_read16. eapply wp_run_eq; [|apply (read32_reads b sl f 0x18
    (λ v, wrap8 (Z.shiftr (Z.land v 0xffff) 8))); [done|regs_tac|exact Hw]].
  unfold on_port, mbind, M_bind. by destruct (port_pci_read32 0 b sl f 24 (port w)) as [[v c]|].
Qed.
Lemma same_tree_trans w1 w2 w3 : same_tree w1 w2 → same_tree w2 w3 → same_tree w1 w3.
Proof. unfold same_tree. naive_solver congruence. Qed.
Lemma common_read_reads b sl f : bdf_ok b sl f → reads (pci_dev_common_read 0 b sl f) (describe b sl f).
Proof.
  intros Hb w Hw. unfold pci_dev_common_read.
  eapply reads_bind; [by apply vendorId_reads|done|]. intros w1 S1. eapply reads_bind; [by apply deviceId_reads|apply S1|]. intros w2 S2.
  eapply reads_bind; [by apply classCode_reads|apply S2|]. intros w3 S3. eapply reads_bind; [by apply subClass_reads|apply S3|]. intros w4 S4.
  eapply reads_bind; [by apply revisionId_reads|apply S4|]. intros w5 S5. apply wp_ret. split; [done|].
  by do 4 (eapply same_tree_trans; [eassumption|]).
Qed.

(** ** The tree as it grows *)
Definition tree_wf w : Prop := ∀ n, is_Some (nodes w !! n) ↔ (n < next_node w)%nat.
Definition attached w (n p : nat) : Prop := ∃ x, nodes w !! n = Some x ∧ n_parent x = Some p ∧ (p < next_node w)%nat.
Record grown w w' (l : list pci_device_t) : Prop := {
  gr_port : port_same (port w');
  gr_wf : tree_wf w';
  gr_next : next_node w' = (next_node w + length l)%nat;
  gr_att : ∀ n p, attached w n p → attached w' n p;
  gr_old : ∀ n, (n < next_node w)%nat → pci_info w' !! n = pci_info w !! n;
  gr_new : ∀ i d, l !! i = Some d → pci_info w' !! (next_node w + i)%nat = Some d;
}.
Lemma grown_nil w w' : tree_wf w → same_tree w w' → grown w w' [].
Proof.
  intros Hwf (Hp & E1 & E2 & E3). split; try done; unfold tree_wf, attached; rewrite ?E1 ?E2 ?E3; try done.
Qed.
Lemma grown_trans w1 w2 w3 l1 l2 : grown w1 w2 l1 → grown w2 w3 l2 → grown w1 w3 (l1 ++ l2).
Proof.
  intros [P1 F1 N1 A1 O1 I1] [P2 F2 N2 A2 O2 I2]. split; try done.
  - rewrite length_app. lia.
  - auto.
  - intros n Hn. rewrite O2; [lia|]. by apply O1.
  - intros i d [Hi|[Hl Hi]]%lookup_app_Some.
    + rewrite O2; [apply lookup_lt_Some in Hi; lia|by apply I1].
    + replace (next_node w1 + i)%nat with (next_node w2 + (i - length l1))%nat by lia. by apply I2.
Qed.

(** A node under construction: whether it has its parent, and its data. *)
Record making w w' (n : nat) (par : bool) (info : option pci_device_t) : Prop := {
  mk_n : n = next_node w;
  mk_next : next_node w' = S n;
  mk_port : port_same (port w');
  mk_wf : tree_wf w';
  mk_node : ∃ x, nodes w' !! n = Some x ∧
    if par then ∃ p, n_parent x = Some p ∧ (p < next_node w)%nat else n_parent x = None;
  mk_att : ∀ m p, attached w m p → attached w' m p;
  mk_old : ∀ m, (m < n)%nat → pci_info w' !! m = pci_info w !! m;
  mk_info : ∀ d, info = Some d → pci_info w' !! n = Some d;
}.
Lemma making_same w w' w'' n par info : making w w' n par info → same_tree w' w'' → making w w'' n par info.
Proof.
  intros [M1 M2 M3 M4 M5 M6 M7 M8] (S1 & S2 & S3 & S4). split; try done; unfold tree_wf, attached in *; rewrite ?S2 ?S3 ?S4; auto.
Qed.
Lemma making_done w w' n d : making w w' n true (Some d) → grown w w' [d].
Proof.
  intros [-> M2 M3 M4 M5 M6 M7 M8]. split; try done; [simpl; lia|]. intros [|i] d' Hi; simplify_eq/=. rewrite Nat.add_0_r. by apply M8.
Qed.
Lemma create_making name w : tree_wf w → port_same (port w) →
  wp (dev_node_create name) (λ n w', making w w' n false None) w.
Proof.
  intros Hwf Hp. unfold dev_node_create. apply wp_bind, wp_get, wp_bind, wp_put, wp_ret. split; simpl; try done.
  - intros n. simpl. destruct (decide (n = next_node w)) as [->|Hne].
    + rewrite lookup_insert_eq. split; [lia|by eexists].
    + rewrite lookup_insert_ne // Hwf. lia.
  - eexists. by rewrite lookup_insert_eq.
  - intros m p (x & Hx & Hpx & Hlt). exists x. simpl. rewrite lookup_insert_ne; [|split_and!; [done|done|lia]].
    intros <-. pose proof (proj1 (Hwf (next_node w)) ltac:(eauto)). lia.
Qed.
Lemma set_info_making w w' n par d : ∀ info, making w w' n par info →
  wp (set_info n d) (λ _ w'', making w w'' n par (Some d)) w'.
Proof.
  intros info [M1 M2 M3 M4 M5 M6 M7 M8]. apply wp_modify. split; simpl; try done.
  - intros m Hm. rewrite lookup_insert_ne; [lia|]. by apply M7.
  - intros d' [= <-]. by rewrite lookup_insert_eq.
Qed.
Lemma upd_node_ok w n x f : nodes w !! n = Some x → upd_node n f w = Ok (tt, w_nodes (<[n := f x]> (nodes w)) w).
Proof. intros Hx. unfold upd_node, ld_node, mbind, M_bind, get. by rewrite Hx. Qed.
(** The nodes after [node] was hung below [p]. *)
Definition hung (node p : nat) (x y : dev_node_t) w : W :=
  w_nodes (<[node := DevNode (wrap64 (n_refcnt x + 1)) (n_name x) (Some p) (n_children x) (childcount x)]>
    (<[p := DevNode (wrap64 (n_refcnt y + 1)) (n_name y) (n_parent y) (n_children y ++ [node]) (wrap64 (childcount y + 1))]> (nodes w))) w.
Lemma dev_node_attach_spec w node p x y : nodes w !! node = Some x → nodes w !! p = Some y → n_parent x = None → p ≠ node →
  wp (dev_node_attach node (Some p)) (λ _ w', w' = hung node p x y w) w.
Proof.
  intros Hx Hy Hn Hne. unfold dev_node_attach. apply wp_bind, wp_ret. apply wp_bind. unfold ld_node. apply wp_bind, wp_get, wp_deref.
  exists x. split; [done|]. apply wp_bind, wp_assert. split; [by apply bool_decide_eq_true|].
  eapply wp_run_eq; [exact (bind_ok _ _ _ _ _ (upd_node_ok _ _ _ node_retain Hx))|].
  set (w1 := w_nodes _ w). assert (nodes w1 !! p = Some y) as H1 by (simpl; by rewrite lookup_insert_ne).
  eapply wp_run_eq; [exact (bind_ok _ _ _ _ _ (upd_node_ok _ _ _ node_retain H1))|].
  set (w2 := w_nodes _ w1). assert (nodes w2 !! p = Some (node_retain y)) as H2 by (simpl; by rewrite lookup_insert_eq).
  eapply wp_run_eq; [refine (bind_ok _ _ _ _ _ (upd_node_ok _ _ _ _ H2))|].
  set (w3 := w_nodes _ w2). assert (nodes w3 !! node = Some (node_retain x)) as H3.
  { simpl. rewrite lookup_insert_ne // lookup_insert_ne // lookup_insert_eq //. }
  unfold wp. rewrite (upd_node_ok _ _ _ _ H3). unfold hung, w_nodes. simpl. f_equal.
  apply map_eq. intros i. destruct (decide (i = node)) as [->|]; [by rewrite !lookup_insert_eq|].
  rewrite !(lookup_insert_ne _ node) //. destruct (decide (i = p)) as [->|]; [by rewrite !lookup_insert_eq|].
  by rewrite !lookup_insert_ne.
Qed.
Lemma attach_making w w' n p info : tree_wf w → making w w' n false info → (p < n)%nat →
  wp (dev_node_attach n (Some p)) (λ _ w'', making w w'' n true info) w'.
Proof.
  intros Hwf [-> M2 M3 M4 (x & Hx & Hxn) M6 M7 M8] Hp. destruct (proj2 (M4 p) ltac:(lia)) as [y Hy].
  eapply wp_mono; [by apply dev_node_attach_spec; [..|lia]|]. intros [] w'' ->.
  assert (∀ i, is_Some (nodes (hung (next_node w) p x y w') !! i) ↔ is_Some (nodes w' !! i)) as Hs.
  { intros i. simpl. rewrite !lookup_insert_is_Some'. split; [|auto]. intros [<-|[<-|?]]; [by rewrite Hx|by rewrite Hy|done]. }
  split; try done.
  - intros i. rewrite Hs. apply M4.
  - eexists. simpl. rewrite lookup_insert_eq. split; [done|]. exists p. split; [done|lia].
  - intros m q Hm. pose proof Hm as (x0 & Hx0 & _ & _).
    destruct (M6 m q Hm) as (z & Hz & Hzq & Hq).
    assert (m ≠ next_node w) as Hne by (intros ->; pose proof (proj1 (Hwf (next_node w)) ltac:(eauto)); lia).
    destruct (decide (m = p)) as [->|].
    + rewrite Hy in Hz. injection Hz as <-. eexists. simpl. rewrite lookup_insert_ne // lookup_insert_eq. done.
    + exists z. simpl. by rewrite !lookup_insert_ne.
Qed.

(** ** The scan *)
Definition ready w (n : nat) : Prop := tree_wf w ∧ port_same (port w) ∧ ∃ p, attached w n p.
Lemma making_ready w w' n info : making w w' n true info → ready w' n.
Proof.
  intros [N1 N2 N3 N4 (y & Hy & q & Hq & Hlt) _ _ _]. split_and!; try done. exists q, y. split_and!; try done. lia.
Qed.
Lemma grown_ready w w' l n : ready w n → grown w w' l → ready w' n.
Proof. intros (_ & _ & p & Ha) [G1 G2 _ G4 _ _]. split_and!; [done|done|]. exists p. by apply G4. Qed.
Lemma same_ready w w' n : ready w n → same_tree w w' → ready w' n.
Proof. intros Hr Hs. eapply grown_ready; [done|]. apply grown_nil; [apply Hr|done]. Qed.

(** The scan of one bus behind a bridge does what [behind] says. *)
Definition scans (cb : pci_bus_t → M W unit) (behind : Z → list pci_device_t) (sec : Z) : Prop :=
  ∀ n w, ready w n → wp (cb (PciBus n 0 sec)) (λ _ w', grown w w' (behind sec)) w.

Lemma bridge_spec cb behind nb b sl f w : bdf_ok b sl f → ready w nb → scans cb behind (secondary_of b sl f) →
  wp (sec ← on_port (secondaryBus 0 b sl f);
      dev ← pci_create_bus 0 sec;
      bn ← ld_node nb;
      dev_node_attach dev (n_parent bn);;
      info ← pci_dev_common_read 0 b sl f;
      set_info dev info;;
      cb (PciBus dev 0 sec))
    (λ _ w', grown w w' (describe b sl f :: behind (secondary_of b sl f))) w.
Proof.
  intros Hb Hr Hcb. eapply reads_bind; [by apply secondaryBus_reads|apply Hr|]. intros w1 S1.
  pose proof (same_ready _ _ _ Hr S1) as Hr1. unfold pci_create_bus. apply wp_bind, wp_bind, wp_gets, wp_bind, wp_modify.
  set (w2 := PciW _ _ _ _ _). assert (same_tree w1 w2) as S2 by (by destruct Hr1 as (_ & ? & _)).
  pose proof (same_ready _ _ _ Hr1 S2) as (Wf2 & Ps2 & p & At2).
  eapply wp_mono; [by apply create_making|]. intros dev w3 M3.
  pose proof (mk_att _ _ _ _ _ M3 _ _ At2) as (x3 & Hx3 & Hp3 & _). apply wp_bind. unfold ld_node. apply wp_bind, wp_get, wp_deref.
  destruct At2 as (x & Hx & Hxp & Hp). pose proof M3 as [E3 _ _ _ _ _ _ _].
  exists x3. split; [done|]. rewrite Hp3. apply wp_bind.
  eapply wp_mono; [apply (attach_making w2 w3 dev p None Wf2 M3); subst dev; done|]. intros [] w4 M4.
  eapply reads_bind; [by apply common_read_reads|apply M4|]. intros w5 S5. pose proof (making_same _ _ _ _ _ _ M4 S5) as M5.
  apply wp_bind. eapply wp_mono; [by eapply set_info_making|]. intros [] w6 M6.
  pose proof (making_done _ _ _ _ M6) as G6. pose proof (making_ready _ _ _ _ M6) as Hr6.
  eapply wp_mono; [by apply Hcb|]. intros [] w7 G7.
  apply (grown_trans w w6 w7 [_]); [|done]. change [describe b sl f] with ([] ++ [] ++ [describe b sl f]).
  eapply grown_trans; [apply grown_nil; [apply Hr|exact S1]|]. eapply grown_trans; [apply grown_nil; [apply Hr1|exact S2]|]. done.
Qed.

Lemma device_spec nb b sl f w : bdf_ok b sl f → ready w nb →
  wp (dev ← pci_create_device sl f;
      info ← pci_dev_common_read 0 b sl f;
      set_info dev info;;
      dev_node_attach dev (Some nb)) (λ _ w', grown w w' [describe b sl f]) w.
Proof.
  intros Hb (Wf & Ps & p & At). apply wp_bind. eapply wp_mono; [by apply create_making|]. intros dev w1 M1.
  eapply reads_bind; [by apply common_read_reads|apply M1|]. intros w2 S2. pose proof (making_same _ _ _ _ _ _ M1 S2) as M2.
  apply wp_bind. eapply wp_mono; [by eapply set_info_making|]. intros [] w3 M3.
  eapply wp_mono; [apply (attach_making w w3 dev nb _ Wf M3)|].
  - destruct At as (x & Hx & _). rewrite (mk_n _ _ _ _ _ M3). apply Wf. by eexists.
  - intros [] w4 M4. by eapply making_done.
Qed.

Section one.
Context (cb : pci_bus_t → M W unit) (behind : Z → list pci_device_t) (nb : nat) (b : Z).
Context (Hcb : ∀ sl f, bdf_ok b sl f → class_of b sl f = 0x6 → subclass_of b sl f = 0x4 → scans cb behind (secondary_of b sl f)).

Lemma check_function_spec sl f w : bdf_ok b sl f → ready w nb →
  wp (check_function cb (PciBus nb 0 b) sl f) (λ _ w', grown w w' (scan_function behind b sl f)) w.
Proof.
  intros Hb Hr. unfold check_function. cbn [segId busId b_node].
  eapply reads_bind; [by apply classCode_reads|apply Hr|]. intros w1 S1. pose proof (same_ready _ _ _ Hr S1) as Hr1.
  eapply reads_bind; [by apply subClass_reads|apply S1|]. intros w2 S2. pose proof (same_ready _ _ _ Hr1 S2) as Hr2.
  assert (grown w w2 []) as G2 by (apply grown_nil; [apply Hr|by eapply same_tree_trans]).
  unfold scan_function. destruct (decide (class_of b sl f = 0x6 ∧ subclass_of b sl f = 0x0)) as [?|Hnh]; [by apply wp_ret|].
  apply wp_bind. eapply (wp_mono _ (λ _ w3, grown w2 w3 (if decide (class_of b sl f = 0x6 ∧ subclass_of b sl f = 0x4)
    then describe b sl f :: behind (secondary_of b sl f) else []))).
  { unfold whenM. case_decide as Hd.
    - rewrite bool_decide_eq_true_2 //. apply bridge_spec; [done|done|]. by apply Hcb; [|apply Hd..].
    - rewrite bool_decide_eq_false_2 //. apply wp_ret. apply grown_nil; [apply Hr2|]. by destruct Hr2 as (_ & ? & _). }
  intros [] w3 G3. eapply wp_mono; [apply device_spec; [done|by eapply grown_ready]|]. intros [] w4 G4.
  exact (grown_trans _ _ _ [] _ G2 (grown_trans _ _ _ _ _ G3 G4)).
Qed.

(** A loop whose turns each grow the tree by a known list. *)
Lemma forM_grown {A} (l : list A) (m : A → M W unit) (r : A → list pci_device_t) w : ready w nb →
  (∀ x w1, x ∈ l → ready w1 nb → wp (m x) (λ _ w2, grown w1 w2 (r x)) w1) →
  wp (forM l m) (λ _ w', grown w w' (l ≫= r)) w.
Proof.
  revert w. induction l as [|x l IH]; intros w Hr Hm; simpl.
  { apply wp_ret. apply grown_nil; [apply Hr|]. by destruct Hr as (_ & ? & _). }
  apply wp_bind. eapply wp_mono; [apply Hm; [left|done]|]. intros [] w1 G1.
  eapply wp_mono; [apply IH; [by eapply grown_ready|intros; apply Hm; [by right|done]]|]. intros [] w2 G2. by eapply grown_trans.
Qed.

Lemma check_slot_spec sl w : 0 ≤ b < 256 → 0 ≤ sl < 32 → ready w nb →
  wp (check_slot cb (PciBus nb 0 b) sl) (λ _ w', grown w w' (scan_slot behind b sl)) w.
Proof.
  intros Hb Hsl Hr. unfold check_slot, scan_slot. cbn [segId busId]. assert (bdf_ok b sl 0) as Hbdf by (unfold bdf_ok; lia).
  eapply reads_bind; [by apply vendorId_reads|apply Hr|]. intros w1 S1. pose proof (same_ready _ _ _ Hr S1) as Hr1.
  assert (grown w w1 []) as G1 by (apply grown_nil; [apply Hr|done]).
  case_decide; [by apply wp_ret|]. apply wp_bind. eapply wp_mono; [by apply check_function_spec|]. intros [] w2 G2.
  pose proof (grown_ready _ _ _ _ Hr1 G2) as Hr2.
  eapply reads_bind; [by apply headerType_reads|apply Hr2|]. intros w3 S3. pose proof (same_ready _ _ _ Hr2 S3) as Hr3.
  assert (grown w2 w3 []) as G3 by (apply grown_nil; [apply Hr2|done]).
  pose proof (grown_trans _ _ _ _ _ (grown_trans _ _ _ [] _ G1 G2) G3) as G. rewrite app_nil_r /= in G.
  case_decide.
  - eapply wp_mono; [apply (forM_grown (seq 1 7) _ (λ f, if decide (vendor_of b sl (Z.of_nat f) = 0xFFFF) then []
      else scan_function behind b sl (Z.of_nat f))); [done|]|].
    + intros f w4 Hf Hr4. apply elem_of_seq in Hf. assert (bdf_ok b sl (Z.of_nat f)) as Hbf by (unfold bdf_ok; lia).
      eapply reads_bind; [by apply vendorId_reads|apply Hr4|]. intros w5 S5. pose proof (same_ready _ _ _ Hr4 S5) as Hr5.
      assert (grown w4 w5 []) as G5 by (apply grown_nil; [apply Hr4|done]). unfold whenM. case_decide as Hd.
      * rewrite bool_decide_eq_false_2; [tauto|]. by apply wp_ret.
      * rewrite bool_decide_eq_true_2 //. eapply wp_mono; [by apply check_function_spec|]. intros [] w6 G6.
        exact (grown_trans _ _ _ [] _ G5 G6).
    + intros [] w7 G7. by eapply grown_trans.
  - apply wp_ret. by rewrite app_nil_r.
Qed.
End one.

(** The scan ends, within as many nested buses as there are numbers above the first, and
    finds what the reference finds. *)
Lemma check_bus_spec fuel : bridges_increase → ∀ nb b w, 0 ≤ b < 256 → 256 - b ≤ Z.of_nat fuel → ready w nb →
  wp (check_bus fuel (PciBus nb 0 b)) (λ _ w', grown w w' (scan_bus fuel b)) w.
Proof.
  intros Hinc. induction fuel as [|fuel IH]; intros nb b w Hb Hf Hr; [lia|]. cbn [check_bus scan_bus].
  apply (forM_grown nb); [done|]. intros sl w1 Hsl Hr1. apply elem_of_seq in Hsl.
  apply check_slot_spec; [|done|lia|done]. intros sl' f' Hbdf Hc Hs n w2 Hr2.
  pose proof (Hinc b sl' f' Hbdf Hc Hs) as Hlt. apply IH; [|lia|done].
  unfold secondary_of, wrap8 in *. split; [lia|]. apply Z.mod_pos_bound. lia.
Qed.
End enumerate.
