(* ===== verification/PciProps.v ===== *)
(** * Devices and PCI: properties *)

From S2P Require Import Prelude Pci.

(** ** Configuration space *)

(** On a port that gives 32-bit access, a byte written to configuration space reads
    back, and every other byte of every function's space reads what it read before: the
    read-modify-write of the double word around the byte spoils none of its neighbours. *)
Theorem pci_write8_read8 {C} `{PciPortOk C} (c : C) s b sl f o value s' b' sl' f' o' :
  cfg_valid c (s, b, sl, f, o - o mod 4) → cfg_valid c (s', b', sl', f', o' - o' mod 4) → 0 ≤ value < 256 →
  wp (before ← pci_read8 s' b' sl' f' o'; pci_write8 s b sl f o value;; after ← pci_read8 s' b' sl' f' o';
      mret (before, after))
    (λ r _, r.2 = if decide ((s', b', sl', f', o') = (s, b, sl, f, o)) then value else r.1) c.
Proof.
  intros V V' Hv. apply wp_bind. eapply wp_mono; [by apply pci_read8_spec|]. intros r0 c1 (-> & E1 & V1).
  apply wp_bind. eapply wp_mono; [apply (pci_write8_spec c1 s b sl f o value (V1 _ V) Hv)|]. intros [] c2 (W1 & W2 & V2).
  apply wp_bind. eapply wp_mono; [apply (pci_read8_spec c2 s' b' sl' f' o'), V2, V1, V'|]. intros r c3 (-> & _).
  apply wp_ret. simpl. case_decide as Hd; [injection Hd as -> -> -> -> ->; exact W1|].
  rewrite W2; [by apply V1|done|]. unfold cfg_byte. by rewrite E1.
Qed.

(** One segment of two buses, memory mapped at 0x40000000, all registers 0x01020304. *)
Definition mcfg0 : mcfg_config := McfgConfig [Mcfg 0x40000000 0 0 1] (λ _, 0x01020304).
Lemma mcfg0_valid b sl f o : 0 ≤ b ≤ 1 → 0 ≤ sl < 32 → 0 ≤ f < 8 → 0 ≤ o < 4096 → o mod 4 = 0 →
  cfg_valid mcfg0 (0, b, sl, f, o).
Proof.
  intros Hb Hsl Hf Ho Hm. simpl. unfold mcfg_valid, bdf_ok. split_and!; try done; try lia.
  - apply Forall_singleton. by_eval.
  - intros i j e1 e2 Hi Hj Hne. apply list_lookup_singleton_Some in Hi as [-> _]. by apply list_lookup_singleton_Some in Hj as [-> _].
  - unfold mcfg_bus. simpl. rewrite decide_True; [simpl; lia|by eexists].
Qed.
Lemma pci_write8_read8_witness :
  wp (before ← pci_read8 0 1 3 2 0x3d; pci_write8 0 1 3 2 0x3c 0xff;; after ← pci_read8 0 1 3 2 0x3d; mret (before, after))
    (λ r _, r.2 = r.1) mcfg0.
Proof.
  eapply wp_mono; [apply (pci_write8_read8 mcfg0 0 1 3 2 0x3c 0xff 0 1 3 2 0x3d)|].
  - apply mcfg0_valid; done.
  - apply mcfg0_valid; done.
  - done.
  - intros r c E. rewrite E. reflexivity.
Defined.

(** ** Enumeration *)
Section devkit.
Context {C : Type} `{PciPortOk C} (c0 : C).
Context (Hread : readable c0) (Hinc : bridges_increase c0).

(** The tree that holds the root and the platform's node. *)
Lemma platform_wf (m : gmap nat dev_node_t) (c : C) x0 x1 : (∀ i, is_Some (m !! i) → (i < 2)%nat) →
  tree_wf (PciW c (<[1%nat := x1]> (<[0%nat := x0]> m)) 2 ∅ 0).
Proof.
  intros Hm n. simpl. rewrite !lookup_insert_is_Some'. split; [|destruct n as [|[|]]; [auto|auto|lia]].
  intros [<-|[<-|Hn]]; [lia|lia|by apply Hm].
Qed.
Lemma host_bus_spec fuel w : 256 ≤ Z.of_nat fuel → tree_wf w → port_same c0 (port w) → (1 < next_node w)%nat →
  wp (bus ← pci_create_bus 0 0;
      dev_node_attach bus (Some 1%nat);;
      set_info bus (PciDevice 0 0 0 0 0 0 0 0 0);;
      check_bus fuel (PciBus bus 0 0)) (λ _ w', grown c0 w w' (PciDevice 0 0 0 0 0 0 0 0 0 :: scan_bus c0 fuel 0)) w.
Proof.
  intros Hf Wf Ps Hn. unfold pci_create_bus. apply wp_bind, wp_bind, wp_gets, wp_bind, wp_modify.
  set (w2 := PciW _ _ _ _ _). assert (same_tree c0 w w2) as S2 by done. assert (tree_wf w2) as Wf2 by exact Wf.
  eapply wp_mono; [by apply (create_making c0)|]. intros dev w3 M3. apply wp_bind.
  eapply wp_mono; [apply (attach_making c0 w2 w3 dev 1 None Wf2 M3); rewrite (mk_n _ _ _ _ _ _ M3); exact Hn|].
  intros [] w4 M4. apply wp_bind. eapply wp_mono; [by eapply set_info_making|]. intros [] w6 M6.
  pose proof (making_done _ _ _ _ _ M6) as G6. pose proof (making_ready _ _ _ _ _ M6) as Hr6.
  eapply wp_mono; [apply (check_bus_spec c0 Hread fuel Hinc dev 0 w6); [lia|lia|done]|]. intros [] w7 G7.
  apply (grown_trans c0 w w6 w7 [_]); [|done]. apply (grown_trans c0 w w2 w6 []); [by apply grown_nil|done].
Qed.

Lemma devkit_init_spec fuel port_pci_init (c : C) : 256 ≤ Z.of_nat fuel → port_pci_init c = Ok (tt, c0) →
  Z.land (header_of c0 0 0 0) 0x80 = 0 →
  wp (devkit_init fuel port_pci_init) (λ _ w', let found := scan_bus c0 fuel 0 in
    tree_wf w' ∧ next_node w' = (3 + length found)%nat ∧
    ∀ i d, found !! i = Some d → pci_info w' !! (3 + i)%nat = Some d) (PciW c ∅ 0 ∅ 0).
Proof.
  intros Hf Hi Hh. unfold devkit_init, port_devkit_init, dev_node_create at 1.
  apply wp_bind, wp_bind, wp_get, wp_bind, wp_put, wp_ret. cbn [port nodes next_node pci_info bus_cnt].
  apply wp_bind, wp_bind. unfold dev_node_create. apply wp_bind, wp_get, wp_bind, wp_put, wp_ret, wp_bind.
  eapply wp_mono; [by apply dev_node_attach_spec|]. intros [] w ->. unfold pci_init.
  apply wp_bind, wp_on_port. apply wp_ok. exists tt, c0. split; [exact Hi|]. set (w1 := PciW c0 _ _ _ _).
  assert (tree_wf w1) as Wf1.
  { apply platform_wf. intros i. rewrite !lookup_insert_is_Some'. intros Hn. simpl in Hn.
    destruct Hn as [<-|[<-|[? ?%lookup_empty_Some]]]; [lia|lia|done]. }
  assert (port_same c0 (port w1)) as Ps1 by done.
  eapply (reads_bind c0); [by apply headerType_reads|done|]. intros w2 S2. rewrite decide_True //.
  pose proof S2 as (Ps2 & En & Ex & Ei). assert (tree_wf w2) as Wf2 by (intros n; rewrite En Ex; apply Wf1).
  eapply wp_mono; [apply host_bus_spec; [done|done|done|rewrite Ex; simpl; lia]|]. intros [] w3 [_ G2 G3 _ _ G6].
  apply wp_bind, wp_get, wp_ret. rewrite Ex in G3, G6. split_and!; [done|rewrite G3; simpl; lia|].
  intros i d Hd. exact (G6 (S i) d Hd).
Qed.

End devkit.

(** C16: [devkit_init] on a machine with a single-function host bridge ends (256 nested
    buses are enough when every bridge leads to a bus with a larger number) and finds
    exactly the functions that a reference scan of configuration space finds, in its
    order: after the root, the platform and the host's bus, one node per entry, with the
    vendor, device, class and revision read from the function's registers. *)
Theorem devkit_enumerates_all {C} `{PciPortOk C} (c0 c : C) port_pci_init :
  readable c0 → bridges_increase c0 → port_pci_init c = Ok (tt, c0) → Z.land (header_of c0 0 0 0) 0x80 = 0 →
  wp (devkit_init 256 port_pci_init) (λ _ w', let found := scan_bus c0 256 0 in
    tree_wf w' ∧ next_node w' = (3 + length found)%nat ∧
    ∀ i d, found !! i = Some d → pci_info w' !! (3 + i)%nat = Some d) (PciW c ∅ 0 ∅ 0).
Proof. intros Hr Hi. apply devkit_init_spec; [done|done|lia]. Qed.

(** A host bridge, a PCI bridge in slot 1 of bus 0 and a network card behind it. *)
Definition registers0 : gmap Z Z := list_to_map
  [(0x40000000, 0x12378086); (0x40000008, 0x06000002); (0x4000000C, 0);
   (0x40008000, 0x00011b36); (0x40008008, 0x06040000); (0x4000800C, 0x00010000); (0x40008018, 0x00010100);
   (0x40100000, 0x100e8086); (0x40100008, 0x02000003); (0x4010000C, 0)].
Definition mcfg1 : mcfg_config := McfgConfig [Mcfg 0x40000000 0 0 255] (λ a, default 0xFFFFFFFF (registers0 !! a)).
Lemma registers0_word a : 0 ≤ mmio mcfg1 a < 2 ^ 32.
Proof.
  simpl. destruct (registers0 !! a) as [v|] eqn:E; simpl; [|lia]. revert a v E.
  apply (map_Forall_to_list (λ _ v, 0 ≤ v < 2 ^ 32)). by_eval.
Qed.
Lemma mcfg1_reg b sl f o : bdf_ok b sl f → 0 ≤ o < 4096 → o mod 4 = 0 →
  cfg_valid mcfg1 (0, b, sl, f, o) ∧
  reg mcfg1 b sl f o = default 0xFFFFFFFF (registers0 !! (0x40000000 + b * 2 ^ 20 + sl * 2 ^ 15 + f * 2 ^ 12 + o)).
Proof.
  intros Hb Ho Hm. pose proof Hb as (Hb' & _ & _).
  assert (mcfg_bus (mcfg_entries mcfg1) 0 b = Some (Mcfg 0x40000000 0 0 255)) as Eb.
  { unfold mcfg_bus. simpl. rewrite decide_True //. simpl. lia. }
  split.
  - simpl. unfold mcfg_valid. split; [apply Forall_singleton; by_eval|]. split.
    { intros i j e1 e2 Hi Hj Hne. apply list_lookup_singleton_Some in Hi as [-> _]. by apply list_lookup_singleton_Some in Hj as [-> _]. }
    split; [exact registers0_word|]. split_and!; try done; try lia.
  - unfold reg. simpl. unfold mcfg_cfg. rewrite Eb mcfg_address_eq; simpl; try done; try lia.
    simpl. rewrite Hm. do 2 f_equal. lia.
Qed.
Lemma mcfg1_bridges : bridges_increase mcfg1.
Proof.
  intros b sl f Hb. unfold class_of, subclass_of, secondary_of.
  rewrite !(proj2 (mcfg1_reg b sl f 8 Hb ltac:(lia) eq_refl)) (proj2 (mcfg1_reg b sl f 0x18 Hb ltac:(lia) eq_refl)).
  destruct (registers0 !! _) as [v|] eqn:E; [|done]. intros Hc Hs.
  assert (map_Forall (λ a v, wrap8 (Z.shiftr v 24) = 6 → Z.shiftr (Z.land v 0x00FF0000) 16 = 4 → a = 0x40008008) registers0) as Hall.
  { apply map_Forall_to_list. by_eval. }
  specialize (Hall _ _ E Hc Hs). destruct Hb as (Hb & Hsl & Hf). assert (b = 0 ∧ sl = 1 ∧ f = 0) as (-> & -> & ->) by lia.
  vm_compute. reflexivity.
Qed.
Lemma devkit_enumerates_all_witness :
  wp (devkit_init 256 (mret tt)) (λ _ w', next_node w' = 6%nat ∧
    pci_info w' !! 4%nat = Some (PciDevice 0 1 0 0 0x8086 0x100e 2 0 3)) (PciW mcfg1 ∅ 0 ∅ 0).
Proof.
  eapply wp_mono; [apply (devkit_enumerates_all mcfg1 mcfg1 (mret tt))|].
  - intros b sl f o Hb Ho. unfold cfg_regs in Ho.
    assert (0 ≤ o < 4096 ∧ o mod 4 = 0) as [Ho1 Ho2] by (set_unfold in Ho; naive_solver lia).
    exact (proj1 (mcfg1_reg b sl f o Hb Ho1 Ho2)).
  - exact mcfg1_bridges.
  - reflexivity.
  - vm_compute. reflexivity.
  - intros r w' H. cbv zeta in H.
    assert (scan_bus mcfg1 256 0 = [PciDevice 0 0 1 0 0x1b36 1 6 4 0; PciDevice 0 1 0 0 0x8086 0x100e 2 0 3;
      PciDevice 0 0 1 0 0x1b36 1 6 4 0]) as E by (vm_compute; reflexivity).
    rewrite E in H. destruct H as (_ & H1 & H2). split; [exact H1|exact (H2 1%nat _ eq_refl)].
Defined.
