(* ===== verification/Boot.v ===== *)
(** * Bringing memory up: [kernel/platform/limine-generic/entry.c], [kernel/main.c]

    The part of [kmain] that builds the kernel's view of memory from the boot loader's
    map: the page frame allocator gets the usable regions, the kernel's sections are
    mapped with their permissions, the direct map covers every entry of the map.  The
    structures the boot loader fills are arguments; the numbers of its memory types are
    parameters. *)

From S2P Require Import Prelude Pm Paging Kmem.

Record memmap_entry := Entry { e_base : Z; e_length : Z; e_type : Z }.

Definition kVmKernelCode : Z := Z.lor kVmRead kVmExecute.
Definition MEM_KERNEL_BASE : Z := 0xFFFFFFFF80000000.

Section boot.
Context (LIMINE_MEMMAP_USABLE LIMINE_MEMMAP_FRAMEBUFFER : Z).
Context (feat : cpu_features) (hugepages : bool) (REAL_HHDM_START : Z).

(** The pages of a region are named by their frame numbers. *)
Definition early_port_add_pmem (entries : list memmap_entry) : M mworld unit :=
  forM entries (λ e,
    whenM (bool_decide (e_type e = LIMINE_MEMMAP_USABLE))
      (pm_add_region (Z.to_nat (e_base e / PAGE_SIZE)) (e_base e) (e_length e))).

(** The loop of [MAP_SECTION]; [fuel] is the number of pages. *)
Fixpoint map_section (kmap paddr vaddr : Z) (fuel : nat) (i end_ flags : Z) : M mworld unit :=
  if decide (i < end_) then
    match fuel with
    | O => fail OutOfFuel
    | S fuel =>
        vm_port_map feat kmap (wrap64 (wrap64 (i - vaddr) + paddr)) i kVmWritethrough flags;;
        map_section kmap paddr vaddr fuel (wrap64 (i + PAGE_SIZE)) end_ flags
    end
  else mret tt.
Definition MAP_SECTION (kmap paddr vaddr start end_ flags : Z) : M mworld unit :=
  let s := PAGE_ALIGN_DOWN start in
  let e := PAGE_ALIGN_UP end_ in
  map_section kmap paddr vaddr (Z.to_nat ((e - s) / PAGE_SIZE)) s e flags.

(** The linker's [addr_text_start], [addr_text_end] and so on.  The result is the offset
    handed to [symbols_init]. *)
Record sections := Sections {
  text_start : Z; text_end : Z; rodata_start : Z; rodata_end : Z; data_start : Z; data_end : Z;
}.
Definition remap_kernel (kmap paddr vaddr : Z) (k : sections) : M mworld Z :=
  let offset := wrap64 (vaddr - MEM_KERNEL_BASE) in
  MAP_SECTION kmap paddr vaddr (text_start k) (text_end k) (Z.lor kVmKernelCode kVmGlobal);;
  MAP_SECTION kmap paddr vaddr (rodata_start k) (rodata_end k) (Z.lor kVmRead kVmGlobal);;
  MAP_SECTION kmap paddr vaddr (data_start k) (data_end k) (Z.lor kVmAll kVmGlobal);;
  mret offset.

(** [fuel] bounds the pages of one entry. *)
Definition early_port_map_memory (fuel : nat) (kmap physical_base virtual_base : Z) (k : sections)
    (entries : list memmap_entry) : M mworld Z :=
  offset ← remap_kernel kmap physical_base virtual_base k;
  forM entries (λ e,
    let base := PAGE_ALIGN_DOWN (e_base e) in
    let length := PAGE_ALIGN_UP (e_length e) in
    let cacheflags := if decide (e_type e = LIMINE_MEMMAP_FRAMEBUFFER) then kVmWritecombine else kVmWriteback in
    remap_memmap_entry feat hugepages REAL_HHDM_START kmap cacheflags fuel base length);;
  mret offset.

Definition early_port_get_rsdp (address : Z) : Z := wrap64 (address - REAL_HHDM_START).

(** The memory part of [kmain]: the root of the kernel's map and the symbol offset. *)
Definition kmain_memory (fuel : nat) (entries : list memmap_entry) (physical_base virtual_base : Z) (k : sections) :
    M mworld (Z * Z) :=
  pm_init;;
  early_port_add_pmem entries;;
  kmap ← vm_port_init_map;
  offset ← early_port_map_memory fuel kmap physical_base virtual_base k entries;
  mret (kmap, offset).

(** ** Physical memory *)
(** The boot loader's promise about usable memory: page aligned, below 2^52, at least as
    large as the allocator's own header for it, and no two entries overlap. *)
Definition entry_usable (e : memmap_entry) : Prop := e_type e = LIMINE_MEMMAP_USABLE.
Definition entry_range_ok (e : memmap_entry) : Prop :=
  0 ≤ e_base e ∧ e_base e mod PAGE_SIZE = 0 ∧ region_used (e_length e) ≤ e_length e ∧ 0 ≤ e_length e ∧
  e_base e + e_length e ≤ 2 ^ 52.
Definition entries_apart (es : list memmap_entry) : Prop :=
  ∀ i j e1 e2, es !! i = Some e1 → es !! j = Some e2 → i ≠ j → entry_usable e1 → entry_usable e2 →
    e_base e1 + e_length e1 ≤ e_base e2 ∨ e_base e2 + e_length e2 ≤ e_base e1.
(** The region an entry becomes, if it is large enough. *)
Definition entry_region (e : memmap_entry) : region :=
  Region (e_base e) (e_length e / PAGE_SIZE) (Z.to_nat (e_base e / PAGE_SIZE)).
Definition entry_taken (e : memmap_entry) : Prop :=
  entry_usable e ∧ region_used (e_length e) + PAGE_SIZE * 2 ≤ e_length e.
#[local] Instance entry_taken_dec e : Decision (entry_taken e) := _.
(** Frames that an entry adds to the free list. *)
Definition entry_frames (e : memmap_entry) : nat :=
  if decide (entry_taken e)
  then (Z.to_nat (e_length e / PAGE_SIZE) - Z.to_nat (region_used (e_length e) / PAGE_SIZE))%nat else 0%nat.
Definition free_frames (es : list memmap_entry) : nat := sum_list (entry_frames <$> es).
Lemma free_frames_snoc es e : free_frames (es ++ [e]) = (free_frames es + entry_frames e)%nat.
Proof. unfold free_frames. rewrite fmap_app sum_list_with_app /=. lia. Qed.

Record pmem_inv (done : list memmap_entry) (w : mworld) (fl : list nat) : Prop := {
  pi_ok : pm_ok w fl;
  pi_regions : ∀ r, r ∈ regionlist w → ∃ i e, done !! i = Some e ∧ entry_taken e ∧ r = entry_region e;
  pi_pages : Z.of_nat (size (pages w)) ≤ sumZ (λ e, e_length e / PAGE_SIZE) done;
  pi_free : length fl = free_frames done;
}.

(** Frames of the region an entry becomes lie inside the entry. *)
Lemma region_end_le e : 0 ≤ e_length e → region_end (entry_region e) ≤ e_base e + e_length e.
Proof.
  intros Hl. unfold region_end, entry_region. simpl. pose proof (Z.mul_div_le (e_length e) PAGE_SIZE ltac:(done)). lia.
Qed.
Lemma page_name_fresh done w fl e k : pmem_inv done w fl → Forall (λ e, entry_usable e → entry_range_ok e) done →
  entry_usable e → entry_range_ok e → (∀ e', e' ∈ done → entry_usable e' →
    e_base e' + e_length e' ≤ e_base e ∨ e_base e + e_length e ≤ e_base e') →
  (k < Z.to_nat (e_length e / PAGE_SIZE))%nat → pages w !! (Z.to_nat (e_base e / PAGE_SIZE) + k)%nat = None.
Proof.
  intros [Ok Hr _ _] Hall Hu (B1 & B2 & _ & B3 & B4) Hap Hk.
  destruct (pages w !! _) as [x|] eqn:Hx; [|done]. exfalso.
  destruct (po_frame _ _ Ok _ _ Hx) as (r & j & Hin & Ei & Hj & _).
  destruct (Hr r Hin) as (i & e' & He' & [Hu' _] & ->). apply list_elem_of_lookup_2 in He'. simpl in Ei, Hj.
  rewrite Forall_forall in Hall. destruct (Hall _ He' Hu') as (B1' & B2' & _ & B3' & B4'). specialize (Hap _ He' Hu').
  pose proof (Z.mul_div_le (e_length e) PAGE_SIZE ltac:(done)). pose proof (Z.mul_div_le (e_length e') PAGE_SIZE ltac:(done)).
  apply Z.mod_divide in B2 as [q Hq]; [|done]. apply Z.mod_divide in B2' as [q' Hq']; [|done].
  rewrite Hq Hq' !Z.div_mul // in Ei. unfold PAGE_SIZE in *. lia.
Qed.
Lemma region_new_entry done w fl e : pmem_inv done w fl → Forall (λ e, entry_usable e → entry_range_ok e) done →
  entry_taken e → entry_range_ok e → (∀ e', e' ∈ done → entry_usable e' →
    e_base e' + e_length e' ≤ e_base e ∨ e_base e + e_length e ≤ e_base e') →
  sumZ (λ e, e_length e / PAGE_SIZE) done + e_length e / PAGE_SIZE < 2 ^ 64 →
  region_new w fl (Z.to_nat (e_base e / PAGE_SIZE)) (e_base e) (e_length e).
Proof.
  intros Inv Hall [Hu Hfit] Hok Hap Hsum. pose proof Inv as [Ok Hr Hp _]. pose proof Hok as (B1 & B2 & B3 & B4 & B5).
  pose proof (region_end_le e B4) as He. unfold region_end, entry_region in He. simpl in He.
  split; [done| | | | |lia|done].
  - unfold region_wf, region_end. simpl. split_and!; [done|done|apply Z.div_pos; [lia|done]|lia].
  - intros k Hk. by eapply page_name_fresh.
  - intros r Hin. destruct (Hr r Hin) as (i & e' & He' & [Hu' _] & ->). apply list_elem_of_lookup_2 in He'.
    rewrite Forall_forall in Hall. destruct (Hall _ He' Hu') as (_ & _ & _ & B4' & _). specialize (Hap _ He' Hu').
    pose proof (region_end_le e' B4'). unfold regions_apart, region_end. simpl. unfold region_end in *. simpl in *. lia.
  - lia.
Qed.

Lemma pmem_inv_skip pre e w fl : pmem_inv pre w fl → 0 ≤ e_length e → ¬ entry_taken e → pmem_inv (pre ++ [e]) w fl.
Proof.
  intros [Ok Hr Hp Hf] Hl Hn. split; [done| | |].
  - intros r Hin. destruct (Hr r Hin) as (i & e' & He' & R). exists i, e'. split; [by apply lookup_app_l_Some|done].
  - rewrite sumZ_app /=. pose proof (Z.div_pos (e_length e) PAGE_SIZE ltac:(lia) ltac:(done)). lia.
  - rewrite free_frames_snoc Hf. unfold entry_frames. rewrite decide_False; [done|lia].
Qed.
Lemma add_entry_step pre e w fl : pmem_inv pre w fl → Forall (λ e, entry_usable e → entry_range_ok e) pre →
  0 ≤ e_length e → (entry_usable e → entry_range_ok e) → (∀ e', e' ∈ pre → entry_usable e' → entry_usable e →
    e_base e' + e_length e' ≤ e_base e ∨ e_base e + e_length e ≤ e_base e') →
  sumZ (λ e, e_length e / PAGE_SIZE) pre + e_length e / PAGE_SIZE < 2 ^ 64 →
  wp (whenM (bool_decide (e_type e = LIMINE_MEMMAP_USABLE))
        (pm_add_region (Z.to_nat (e_base e / PAGE_SIZE)) (e_base e) (e_length e)))
    (λ _ w', (∃ fl', pmem_inv (pre ++ [e]) w' fl') ∧ phys w' = phys w) w.
Proof.
  intros Inv Hall Hl0 Hok Hap Hsum. case_bool_decide as Hu; cbn [whenM].
  2:{ apply wp_ret. split; [|done]. exists fl. apply pmem_inv_skip; [done|done|]. by intros [? _]. }
  specialize (Hok Hu). pose proof Hok as (B1 & B2 & B3 & B4 & B5).
  destruct (decide (entry_taken e)) as [Ht|Ht].
  - assert (region_new w fl (Z.to_nat (e_base e / PAGE_SIZE)) (e_base e) (e_length e)) as New.
    { eapply region_new_entry; try done. intros e' He' Hu'. by apply Hap. }
    eapply wp_mono; [apply (pm_add_region_spec _ _ _ _ _ New)|]. intros [] w' (Ok' & Ep & Er & [_ _ Hsz]). split; [|done].
    eexists. split; [exact Ok'| | |].
    + rewrite Er. intros r [Hin| ->%list_elem_of_singleton]%elem_of_app.
      * destruct (pi_regions _ _ _ Inv r Hin) as (i & e' & He' & R). exists i, e'. split; [by apply lookup_app_l_Some|done].
      * exists (length pre), e. split; [by apply list_lookup_middle|done].
    + rewrite sumZ_app /=. pose proof (pi_pages _ _ _ Inv). pose proof (Z.div_pos (e_length e) PAGE_SIZE ltac:(lia) ltac:(done)). lia.
    + rewrite length_app length_seq (pi_free _ _ _ Inv) free_frames_snoc. unfold entry_frames. by rewrite decide_True.
  - assert (wrap64 (e_length e - region_used (e_length e)) < PAGE_SIZE * 2) as Hs.
    { assert (¬ region_used (e_length e) + PAGE_SIZE * 2 ≤ e_length e) by (intros ?; by apply Ht).
      rewrite wrap64_small; unfold PAGE_SIZE in *; lia. }
    unfold pm_add_region. rewrite decide_True //. apply wp_ret. split; [|done]. exists fl. by apply pmem_inv_skip.
Qed.

Lemma add_pmem_spec es : Forall (λ e, 0 ≤ e_length e ∧ (entry_usable e → entry_range_ok e)) es → entries_apart es →
  sumZ (λ e, e_length e / PAGE_SIZE) es < 2 ^ 64 → ∀ w, pmem_inv [] w [] →
  wp (early_port_add_pmem es) (λ _ w', (∃ fl, pmem_inv es w' fl) ∧ phys w' = phys w) w.
Proof.
  intros Hall Hap Hsum w Inv0. unfold early_port_add_pmem.
  apply (wp_forM es _ (λ pre w', (∃ fl, pmem_inv pre w' fl) ∧ phys w' = phys w)); [split; [by exists []|done]|].
  intros pre e post w1 -> [[fl Inv] Ep]. apply Forall_app in Hall as [Hpre [[Hl Hok] Hpost']%Forall_cons].
  rewrite sumZ_app /= in Hsum. assert (0 ≤ sumZ (λ e, e_length e / PAGE_SIZE) post) as Hpost.
  { apply sumZ_nonneg. intros x Hx. rewrite Forall_forall in Hpost'. apply Z.div_pos; [exact (proj1 (Hpost' x Hx))|done]. }
  eapply wp_mono; [apply (add_entry_step pre e w1 fl Inv)|].
  - eapply Forall_impl; [exact Hpre|]. by intros x [_ Hx].
  - done.
  - done.
  - intros e' He' Hu' Hu. apply list_elem_of_lookup in He' as [i Hi].
    apply (Hap i (length pre) e' e); try done; [by apply lookup_app_l_Some|by apply list_lookup_middle|].
    apply lookup_lt_Some in Hi. lia.
  - lia.
  - intros [] w2 [Hfl Ep2]. split; [done|]. by rewrite Ep2.
Qed.

(** ** The kernel's sections *)
Definition section_entry (paddr vaddr flags p : Z) : Z :=
  make_entry feat 0 (wrap64 (wrap64 (p - vaddr) + paddr)) kVmWritethrough flags.
(** [p] is one of the [n] pages from [s]. *)
Definition covers (s : Z) (n : nat) (p : Z) : Prop := ∃ k, 0 ≤ k < Z.of_nat n ∧ p = s + k * PAGE_SIZE.
Lemma covers_S s n p : covers s (S n) p ↔ p = s ∨ covers (s + PAGE_SIZE) n p.
Proof.
  split.
  - intros (k & Hk & ->). destruct (decide (k = 0)) as [->|]; [left; lia|right]. exists (k - 1). split; lia.
  - intros [->|(k & Hk & ->)]; [exists 0|exists (k + 1)]; split; lia.
Qed.

(** Tables appear on the paths of the pages of [P] only. *)
Definition new_tables (kmap : Z) (f f' : Z → Z) (P : Z → Prop) : Prop :=
  ∀ r, path_ok 3 r → (∀ p, P p → ¬ r `prefix_of` upper p) → tbl f' kmap r = tbl f kmap r.
Lemma map_section_spec kmap paddr vaddr flags n : has flags kVmHuge = false → has flags kVmRead = true →
  Z.of_nat n < 2 ^ 36 → ∀ w fl s, pt_ok w fl kmap → (3 * n ≤ length fl)%nat → 0 ≤ s → s + Z.of_nat n * PAGE_SIZE < 2 ^ 64 →
  wp (map_section kmap paddr vaddr n s (s + Z.of_nat n * PAGE_SIZE) flags) (λ _ w', ∃ fl', pt_ok w' fl' kmap ∧
    (length fl ≤ length fl' + 3 * n)%nat ∧
    (∀ p, covers s n p → mapping (phys w') kmap p = Some (section_entry paddr vaddr flags p)) ∧
    (∀ va, (∀ p, covers s n p → ¬ same_page p va) → mapping (phys w') kmap va = mapping (phys w) kmap va) ∧
    new_tables kmap (phys w) (phys w') (covers s n)) w.
Proof.
  intros Hh Hr. induction n as [|n IH]; intros Hn w fl s Ok Hfl Hs Hend; cbn [map_section].
  { rewrite decide_False; [lia|]. apply wp_ret. exists fl. split_and!; [done|lia| |done|done]. intros p (k & Hk & _). lia. }
  rewrite decide_True; [unfold PAGE_SIZE; lia|]. apply wp_bind.
  eapply wp_mono; [apply wp_and; [apply (vm_port_map_spec (λ _, True) feat kmap w fl)|apply (vm_port_map_tables (λ _, True) feat kmap w fl)];
    [exact Ok|done|lia|exact Hh|exact Ok|done|lia|exact Hh]|].
  intros [] w1 ((fl1 & Ok1 & M1 & _ & F1 & used & Efl & Hused & _) & T1). rewrite make_entry_present Hr in M1.
  assert (length fl = length used + length fl1)%nat as Hlen by by rewrite Efl length_app.
  rewrite wrap64_small; [unfold PAGE_SIZE in *; lia|].
  replace (s + Z.of_nat (S n) * PAGE_SIZE) with ((s + PAGE_SIZE) + Z.of_nat n * PAGE_SIZE) by lia.
  eapply wp_mono; [apply (IH ltac:(lia) w1 fl1 (s + PAGE_SIZE) Ok1); [lia|unfold PAGE_SIZE; lia|lia]|].
  intros [] w2 (fl2 & Ok2 & Hlen2 & M2 & F2 & T2). exists fl2. split_and!; [done|lia| | |].
  - intros p [->|Hp]%covers_S; [|by apply M2]. rewrite F2; [|exact M1]. intros p (k & Hk & ->).
    replace (s + PAGE_SIZE + k * PAGE_SIZE) with (s + (k + 1) * PAGE_SIZE) by lia.
    rewrite -{2}(Z.add_0_r s) -(Z.mul_0_l PAGE_SIZE). apply pages_differ; lia.
  - intros va Hva. rewrite F2; [intros p Hp; apply Hva, covers_S; by right|]. apply F1, Hva, covers_S. by left.
  - intros r Hr' Hno. rewrite T2 //; [intros p Hp; apply Hno, covers_S; by right|]. apply T1; [done|]. apply Hno, covers_S. by left.
Qed.

(** First page and number of pages of a section. *)
Definition sec_pages (start end_ : Z) : nat := Z.to_nat ((PAGE_ALIGN_UP end_ - PAGE_ALIGN_DOWN start) / PAGE_SIZE).
Definition sec_ok (start end_ : Z) : Prop := 0 ≤ start ≤ end_ ∧ end_ ≤ 2 ^ 64 - 2 * PAGE_SIZE.
Lemma page_align_up_spec x : 0 ≤ x ≤ 2 ^ 64 - 2 * PAGE_SIZE → PAGE_ALIGN_UP x mod PAGE_SIZE = 0 ∧ x ≤ PAGE_ALIGN_UP x < x + PAGE_SIZE.
Proof.
  intros Hx. destruct (align_up_spec x PAGE_SIZE ltac:(by exists 12)) as [U1 U2].
  assert (PAGE_ALIGN_UP x = align_up x PAGE_SIZE) as ->; [|done].
  unfold PAGE_ALIGN_UP. rewrite (wrap64_small (x + PAGE_SIZE - 1)); [unfold PAGE_SIZE in *; lia|].
  change (Z.land (x + PAGE_SIZE - 1) (Z.lnot (PAGE_SIZE - 1))) with (align_up x PAGE_SIZE).
  rewrite wrap64_small //. unfold PAGE_SIZE in *. lia.
Qed.
Lemma sec_bounds start end_ : sec_ok start end_ →
  0 ≤ PAGE_ALIGN_DOWN start ≤ start ∧ PAGE_ALIGN_DOWN start mod PAGE_SIZE = 0 ∧ end_ ≤ PAGE_ALIGN_UP end_ < 2 ^ 64 ∧
  PAGE_ALIGN_UP end_ = PAGE_ALIGN_DOWN start + Z.of_nat (sec_pages start end_) * PAGE_SIZE.
Proof.
  intros [Hs He]. destruct (align_down_spec start PAGE_SIZE ltac:(by exists 12)) as [D1 D2].
  destruct (page_align_up_spec end_ ltac:(unfold PAGE_SIZE in *; lia)) as [U1 U2].
  change (align_down start PAGE_SIZE) with (PAGE_ALIGN_DOWN start) in *. unfold sec_pages.
  apply Z.mod_divide in D1 as D1'; [|done]. destruct D1' as [q Hq]. apply Z.mod_divide in U1 as [r Hr]; [|done].
  rewrite Hq Hr -Z.mul_sub_distr_r Z.div_mul //. unfold PAGE_SIZE in *. rewrite Z2Nat.id; [lia|].
  split_and!; try lia. rewrite -Hq. exact D1.
Qed.

Lemma MAP_SECTION_spec kmap paddr vaddr start end_ flags w fl : has flags kVmHuge = false → has flags kVmRead = true →
  sec_ok start end_ → let n := sec_pages start end_ in Z.of_nat n < 2 ^ 36 → pt_ok w fl kmap → (3 * n ≤ length fl)%nat →
  wp (MAP_SECTION kmap paddr vaddr start end_ flags) (λ _ w', ∃ fl', pt_ok w' fl' kmap ∧
    (length fl ≤ length fl' + 3 * n)%nat ∧
    (∀ p, covers (PAGE_ALIGN_DOWN start) n p → mapping (phys w') kmap p = Some (section_entry paddr vaddr flags p)) ∧
    (∀ va, (∀ p, covers (PAGE_ALIGN_DOWN start) n p → ¬ same_page p va) →
       mapping (phys w') kmap va = mapping (phys w) kmap va) ∧
    new_tables kmap (phys w) (phys w') (covers (PAGE_ALIGN_DOWN start) n)) w.
Proof.
  intros Hh Hr Hok n Hn Ok Hfl. destruct (sec_bounds start end_ Hok) as (B1 & B2 & B3 & B4). unfold MAP_SECTION.
  fold (sec_pages start end_). fold n in B4 |- *. rewrite B4.
  apply map_section_spec; try done; [apply B1|]. rewrite -B4. apply B3.
Qed.

(** Pages of different sections differ. *)
Lemma covers_apart s1 n1 s2 n2 p1 p2 : s1 mod PAGE_SIZE = 0 → s2 mod PAGE_SIZE = 0 →
  s1 + Z.of_nat n1 * PAGE_SIZE ≤ s2 → s2 + Z.of_nat n2 * PAGE_SIZE - s1 ≤ 2 ^ 48 →
  covers s1 n1 p1 → covers s2 n2 p2 → ¬ same_page p2 p1 ∧ ¬ same_page p1 p2.
Proof.
  intros M1 M2 Hle Hw (i & Hi & ->) (j & Hj & ->). apply Z.mod_divide in M1 as [q1 ->]; [|done]. apply Z.mod_divide in M2 as [q2 ->]; [|done].
  replace (q2 * PAGE_SIZE + j * PAGE_SIZE) with (q1 * PAGE_SIZE + (q2 - q1 + j) * PAGE_SIZE) by lia.
  unfold PAGE_SIZE in *. split; apply pages_differ; lia.
Qed.

Definition kernel_pages (k : sections) : nat :=
  (sec_pages (text_start k) (text_end k) + sec_pages (rodata_start k) (rodata_end k) + sec_pages (data_start k) (data_end k))%nat.
(** The sections as the linker script lays them out: one after the other, on pages of
    their own, within the reach of the page tables. *)
Record sections_ok (k : sections) : Prop := {
  so_text : sec_ok (text_start k) (text_end k);
  so_rodata : sec_ok (rodata_start k) (rodata_end k);
  so_data : sec_ok (data_start k) (data_end k);
  so_order1 : PAGE_ALIGN_UP (text_end k) ≤ PAGE_ALIGN_DOWN (rodata_start k);
  so_order2 : PAGE_ALIGN_UP (rodata_end k) ≤ PAGE_ALIGN_DOWN (data_start k);
  so_window : PAGE_ALIGN_UP (data_end k) - PAGE_ALIGN_DOWN (text_start k) < 2 ^ 47;
}.
(** The sections with their permissions. *)
Definition section_list (k : sections) : list (Z * Z * Z) :=
  [(text_start k, text_end k, Z.lor kVmKernelCode kVmGlobal); (rodata_start k, rodata_end k, Z.lor kVmRead kVmGlobal);
   (data_start k, data_end k, Z.lor kVmAll kVmGlobal)].
Definition in_section (sec : Z * Z * Z) (p : Z) : Prop :=
  covers (PAGE_ALIGN_DOWN sec.1.1) (sec_pages sec.1.1 sec.1.2) p.
Definition kernel_mapped (kmap paddr vaddr : Z) (k : sections) (f0 f : Z → Z) : Prop :=
  (∀ sec p, sec ∈ section_list k → in_section sec p → mapping f kmap p = Some (section_entry paddr vaddr sec.2 p)) ∧
  (∀ va, (∀ sec p, sec ∈ section_list k → in_section sec p → ¬ same_page p va) → mapping f kmap va = mapping f0 kmap va).

Lemma remap_kernel_spec kmap paddr vaddr k w fl : sections_ok k → pt_ok w fl kmap → (3 * kernel_pages k ≤ length fl)%nat →
  wp (remap_kernel kmap paddr vaddr k) (λ o w', o = wrap64 (vaddr - MEM_KERNEL_BASE) ∧
    (∃ fl', pt_ok w' fl' kmap ∧ (length fl ≤ length fl' + 3 * kernel_pages k)%nat) ∧
    kernel_mapped kmap paddr vaddr k (phys w) (phys w') ∧
    new_tables kmap (phys w) (phys w') (λ p, ∃ sec, sec ∈ section_list k ∧ in_section sec p)) w.
Proof.
  intros [Ht Hr Hd O1 O2 Hw] Ok Hfl. unfold kernel_pages in Hfl.
  destruct (sec_bounds _ _ Ht) as (T1 & T2 & T3 & T4), (sec_bounds _ _ Hr) as (R1 & R2 & R3 & R4), (sec_bounds _ _ Hd) as (D1 & D2 & D3 & D4).
  unfold remap_kernel. apply wp_bind.
  eapply wp_mono; [apply (MAP_SECTION_spec kmap paddr vaddr _ _ _ w fl); [done|done|done| |done|lia]|].
  { unfold PAGE_SIZE in *. lia. }
  intros [] w1 (fl1 & Ok1 & L1 & M1 & F1 & N1). apply wp_bind.
  eapply wp_mono; [apply (MAP_SECTION_spec kmap paddr vaddr _ _ _ w1 fl1); [done|done|done| |done|lia]|].
  { unfold PAGE_SIZE in *. lia. }
  intros [] w2 (fl2 & Ok2 & L2 & M2 & F2 & N2). apply wp_bind.
  eapply wp_mono; [apply (MAP_SECTION_spec kmap paddr vaddr _ _ _ w2 fl2); [done|done|done| |done|lia]|].
  { unfold PAGE_SIZE in *. lia. }
  intros [] w3 (fl3 & Ok3 & L3 & M3 & F3 & N3). apply wp_ret. split; [done|].
  split; [exists fl3; split; [done|unfold kernel_pages; lia]|]. split; [split|].
  - intros sec p [->|[->|[->|?%elem_of_nil]%elem_of_cons]%elem_of_cons]%elem_of_cons Hp; [..|done]; unfold in_section in Hp; simpl in *.
    + rewrite F3; [|rewrite F2; [|by apply M1]]; intros q Hq;
        (refine (proj1 (covers_apart _ _ _ _ p q T2 _ _ _ Hp Hq)); [done|unfold PAGE_SIZE in *; lia..]).
    + rewrite F3; [|by apply M2]. intros q Hq.
      refine (proj1 (covers_apart _ _ _ _ p q R2 D2 _ _ Hp Hq)); unfold PAGE_SIZE in *; lia.
    + by apply M3.
  - intros va Hva. rewrite F3.
    { intros p Hp. apply (Hva (data_start k, data_end k, Z.lor kVmAll kVmGlobal)); [do 2 right; left|exact Hp]. }
    rewrite F2; [intros p Hp; apply (Hva (rodata_start k, rodata_end k, Z.lor kVmRead kVmGlobal)); [right; left|exact Hp]|].
    apply F1. intros p Hp. apply (Hva (text_start k, text_end k, Z.lor kVmKernelCode kVmGlobal)); [left|exact Hp].
  - intros r Hr' Hno. rewrite N3; [done| |].
    { intros p Hp. apply Hno. exists (data_start k, data_end k, Z.lor kVmAll kVmGlobal). split; [do 2 right; left|exact Hp]. }
    rewrite N2; [done| |].
    { intros p Hp. apply Hno. exists (rodata_start k, rodata_end k, Z.lor kVmRead kVmGlobal). split; [right; left|exact Hp]. }
    apply N1; [done|]. intros p Hp. apply Hno. exists (text_start k, text_end k, Z.lor kVmKernelCode kVmGlobal). split; [left|exact Hp].
Qed.

(** ** No page is writable and executable *)
Lemma make_entry_bit paddr flags bit : 0 ≤ bit < 12 → Z.testbit (make_entry feat 0 paddr kVmWritethrough flags) bit =
  (bool_decide (bit = 2) && has flags kVmUser) || (bool_decide (bit = 1) && has flags kVmWrite) ||
  (bool_decide (bit = 0) && has flags kVmRead) || (bool_decide (bit = 8) && (pge feat && has flags kVmGlobal)) ||
  bool_decide (bit = 3).
Proof.
  intros Hb. unfold make_entry. rewrite !Z.lor_spec Z.bits_0 orb_false_l.
  assert (Z.testbit (PAGE_ALIGN_DOWN paddr) bit = false) as ->.
  { unfold PAGE_ALIGN_DOWN. rewrite Z.land_spec Z.lnot_spec; [lia|]. change (PAGE_SIZE - 1) with (Z.ones 12).
    rewrite Z.ones_spec_low; [lia|]. by rewrite andb_false_r. }
  assert (∀ b k, 0 ≤ k → Z.testbit (when_bit b (2 ^ k)) bit = bool_decide (bit = k) && b) as Hw.
  { intros [] k Hk; simpl; [|by rewrite Z.bits_0 andb_false_r]. rewrite Z.pow2_bits_eqb // andb_true_r.
    case_bool_decide as E; [subst; apply Z.eqb_refl|]. apply Z.eqb_neq. congruence. }
  change pteUser with (2 ^ 2). change pteWrite with (2 ^ 1). change ptePresent with (2 ^ 0).
  change pteGlobal with (2 ^ 8). change pteNoExecute with (2 ^ 63). rewrite !Hw //.
  rewrite (bool_decide_eq_false_2 (bit = 63)); [lia|]. change (cache_bits kVmWritethrough) with (when_bit true (2 ^ 3)). rewrite Hw //.
  by rewrite andb_true_r orb_false_l andb_false_l orb_false_r.
Qed.
Lemma make_entry_write paddr flags : has (make_entry feat 0 paddr kVmWritethrough flags) pteWrite = has flags kVmWrite.
Proof. change pteWrite with (2 ^ 1). rewrite has_pow2 // make_entry_bit //. by destruct (has flags kVmWrite). Qed.
Lemma make_entry_noexec paddr flags : nx feat = true → has flags kVmExecute = false →
  has (make_entry feat 0 paddr kVmWritethrough flags) pteNoExecute = true.
Proof.
  intros Hnx Hx. change pteNoExecute with (2 ^ 63). rewrite has_pow2 //. unfold make_entry. rewrite !Z.lor_spec Hnx Hx.
  cbn [andb negb when_bit]. change (Z.testbit pteNoExecute 63) with true. by rewrite orb_true_r orb_true_l.
Qed.

Lemma covers_dec s n va : (∃ p, covers s n p ∧ same_page p va) ∨ (∀ p, covers s n p → ¬ same_page p va).
Proof.
  revert s. induction n as [|n IH]; intros s; [right; intros p (k & Hk & _); lia|].
  assert (same_page s va ∨ ¬ same_page s va) as [Hs|Hs].
  { unfold same_page. destruct (decide (upper s = upper va)); [|by right; intros [? _]].
    destruct (decide (INDEX s 0 = INDEX va 0)); [by left|by right; intros [_ ?]]. }
  - left. exists s. split; [|done]. apply covers_S. by left.
  - destruct (IH (s + PAGE_SIZE)) as [(p & Hp & Hv)|Hn]; [left; exists p; split; [apply covers_S; by right|done]|right].
    intros p [->|Hp]%covers_S; [done|by apply Hn].
Qed.
Lemma sections_dec k va : (∃ sec p, sec ∈ section_list k ∧ in_section sec p ∧ same_page p va) ∨
  (∀ sec p, sec ∈ section_list k → in_section sec p → ¬ same_page p va).
Proof.
  generalize (section_list k). intros l. induction l as [|sec l IH]; [right; by intros sec p ?%elem_of_nil|].
  destruct (covers_dec (PAGE_ALIGN_DOWN sec.1.1) (sec_pages sec.1.1 sec.1.2) va) as [(p & Hp & Hv)|Hn].
  - left. exists sec, p. split_and!; [left|done|done].
  - destruct IH as [(sec' & p & Hs & Hp & Hv)|IH]; [left; exists sec', p; split_and!; [by right|done|done]|right].
    intros sec' p [->|Hs]%elem_of_cons; [apply Hn|by apply IH].
Qed.
Definition wx_apart (f : Z → Z) (kmap : Z) : Prop :=
  ∀ va e, mapping f kmap va = Some e → has e pteWrite = true → has e pteNoExecute = true.
Lemma kernel_mapped_wx kmap paddr vaddr k f0 f : nx feat = true → (∀ va, mapping f0 kmap va = None) →
  kernel_mapped kmap paddr vaddr k f0 f → wx_apart f kmap.
Proof.
  intros Hnx H0 [Hm Hf] va e He Hw.
  destruct (sections_dec k va) as [(sec & p & Hs & Hp & Hv)|Hn].
  - rewrite -(mapping_same_page _ _ _ _ Hv) (Hm _ _ Hs Hp) in He. injection He as <-.
    unfold section_entry in *. rewrite make_entry_write in Hw. apply make_entry_noexec; [done|].
    unfold section_list in Hs. apply elem_of_cons in Hs as [->|[->|[->|?%elem_of_nil]%elem_of_cons]%elem_of_cons]; done.
  - rewrite Hf // H0 in He. done.
Qed.

(** ** From the boot loader's map to the kernel's address space *)
Definition boot_clean (w : mworld) : Prop :=
  regionlist w = [] ∧ pages w = ∅ ∧ buddy_lock w = false ∧ vm_total w = 0 ∧ vm_used w = 0.
Lemma pm_init_inv w : boot_clean w → wp pm_init (λ _ w', pmem_inv [] w' [] ∧ phys w' = phys w) w.
Proof.
  intros (E1 & E2 & E3 & E4 & E5). apply wp_modify. split; [|done]. split; [|by rewrite /= E1; intros r ?%elem_of_nil|by rewrite /= E2|done].
  split; simpl; rewrite ?E1 ?E2 ?E4 ?E5 ?map_size_empty; try done; [apply NoDup_nil_2|].
  intros i. split; [by intros ?%elem_of_nil|]. intros (x & Hx & _). by rewrite lookup_empty in Hx.
Qed.
(** The allocator and the root table: then [F] runs with an empty map. *)
Lemma boot_root_spec {A} entries (F : Z → M mworld A) Q w : boot_clean w →
  Forall (λ e, 0 ≤ e_length e ∧ (entry_usable e → entry_range_ok e)) entries → entries_apart entries →
  sumZ (λ e, e_length e / PAGE_SIZE) entries < 2 ^ 64 → (1 ≤ free_frames entries)%nat →
  (∀ kmap w' fl, pt_ok w' fl kmap → (1 + length fl = free_frames entries)%nat →
     (∀ q, q ≠ [] → Forall index_ok q → tbl (phys w') kmap q = None) → (∀ va, mapping (phys w') kmap va = None) → wp (F kmap) Q w') →
  wp (pm_init;; early_port_add_pmem entries;; kmap ← vm_port_init_map; F kmap) Q w.
Proof.
  intros Hc Hall Hap Hsum Hfr HF. apply wp_bind. eapply wp_mono; [by apply pm_init_inv|]. intros [] w1 [Inv1 _].
  apply wp_bind. eapply wp_mono; [by apply add_pmem_spec|]. intros [] w2 [[fl Inv2] _].
  pose proof (pi_free _ _ _ Inv2) as Hlen. destruct fl as [|i fl]; [simpl in Hlen; lia|]. simpl in Hlen.
  apply wp_bind. eapply wp_mono; [apply (vm_port_init_map_spec (λ _, True) w2 fl i); [apply Inv2|]|].
  { intros r Hr. destruct (pi_regions _ _ _ Inv2 r Hr) as (j & e & He & [Hu _] & ->).
    apply list_elem_of_lookup_2 in He. rewrite Forall_forall in Hall. destruct (Hall _ He) as [_ Hok].
    destruct (Hok Hu) as (_ & _ & _ & H1 & H2). pose proof (region_end_le e H1). lia. }
  intros kmap w3 (Ok3 & Ht & _ & Hnone). apply (HF kmap w3 fl); [done|lia|done|done].
Qed.
Lemma boot_kernel_spec entries pbase vbase k w : boot_clean w →
  Forall (λ e, 0 ≤ e_length e ∧ (entry_usable e → entry_range_ok e)) entries → entries_apart entries →
  sumZ (λ e, e_length e / PAGE_SIZE) entries < 2 ^ 64 → sections_ok k →
  (1 + 3 * kernel_pages k ≤ free_frames entries)%nat →
  wp (pm_init;; early_port_add_pmem entries;; kmap ← vm_port_init_map; remap_kernel kmap pbase vbase k;; mret kmap)
    (λ kmap w', (∃ fl, pt_ok w' fl kmap) ∧
       ∃ f0, (∀ va, mapping f0 kmap va = None) ∧ kernel_mapped kmap pbase vbase k f0 (phys w')) w.
Proof.
  intros Hc Hall Hap Hsum Hk Hfr. apply boot_root_spec; [done..|lia|]. intros kmap w3 fl Ok3 Hlen _ Hnone.
  apply wp_bind. eapply wp_mono; [apply (remap_kernel_spec kmap pbase vbase k w3 fl Hk Ok3); lia|].
  intros o w4 (-> & (fl4 & Hfl & _) & Hm & _). apply wp_ret. split; [by exists fl4|]. by exists (phys w3).
Qed.
End boot.
