(* ===== verification/Direct.v ===== *)
(** * The direct map: [kernel/boot/map.c] with huge pages

    [remap_memmap_entry] maps a range of physical memory at [REAL_HHDM_START] with the
    largest pages that fit: 1 GiB pages, or 2 MiB pages in their place on a processor
    without them, 2 MiB pages and 4 KiB pages at the ends.  The invariant here says which
    pages of the window are mapped, by which entry, and which tables exist for them. *)

From S2P Require Import Prelude Pm Paging Slab Kmem Boot.

(** ** Paths as numbers *)
Definition psize (n : nat) : Z := 2 ^ (12 + 9 * Z.of_nat n).
Definition pre (n : nat) (va : Z) : list Z := take (4 - n) (path4 va).
Definition pnum (n : nat) (va : Z) : Z := (va / psize n) mod 2 ^ (36 - 9 * Z.of_nat n).

Lemma psize_pos n : 0 < psize n.
Proof. unfold psize. lia. Qed.
Lemma psize_S n : psize (S n) = 512 * psize n.
Proof. unfold psize. change 512 with (2 ^ 9). rewrite -Z.pow_add_r; [lia..|]. f_equal. lia. Qed.
Lemma psize_le m n : (m ≤ n)%nat → ∃ k, 0 < k ∧ psize n = k * psize m.
Proof.
  intros H. exists (2 ^ (9 * (Z.of_nat n - Z.of_nat m))). split; [lia|]. unfold psize. rewrite -Z.pow_add_r; [lia..|]. f_equal. lia.
Qed.
Lemma psize_mod m n x : (m ≤ n)%nat → x mod psize n = 0 → x mod psize m = 0.
Proof.
  intros H Hx. destruct (psize_le m n H) as (k & Hk & E). rewrite E in Hx. pose proof (psize_pos m).
  apply Z.mod_divide in Hx as [q ->]; [|lia]. rewrite Z.mul_assoc. apply Z.mod_mul. lia.
Qed.
Lemma INDEX_pnum va n : INDEX va (Z.of_nat n) = (va / psize n) mod 512.
Proof. rewrite INDEX_div; [lia|done]. Qed.
(** The number of a path: its indices are the digits to the base 512. *)
Lemma pnum_step n va : (n ≤ 2)%nat → pnum n va = INDEX va (Z.of_nat n) + 512 * pnum (S n) va.
Proof.
  intros Hn. unfold pnum. rewrite INDEX_pnum psize_S.
  replace (2 ^ (36 - 9 * Z.of_nat n)) with (512 * 2 ^ (36 - 9 * Z.of_nat (S n))).
  2:{ change 512 with (2 ^ 9). rewrite -Z.pow_add_r; [lia..|]. f_equal. lia. }
  rewrite Z.rem_mul_r; [lia..|]. rewrite (Z.mul_comm 512 (psize n)) Z.div_div; [pose proof (psize_pos n); lia|lia|done].
Qed.
Lemma pnum_3 va : pnum 3 va = INDEX va 3.
Proof. rewrite (INDEX_pnum va 3). done. Qed.
Lemma pre_snoc n va : (n ≤ 2)%nat → pre n va = pre (S n) va ++ [INDEX va (Z.of_nat n)].
Proof. by destruct n as [|[|[|]]]; [..|lia]. Qed.
Lemma pnum_nonneg n va : (n ≤ 3)%nat → 0 ≤ pnum n va.
Proof. intros Hn. unfold pnum. apply Z.mod_pos_bound. lia. Qed.
Lemma pre_eq n va va' : (n ≤ 3)%nat → pre n va = pre n va' ↔ pnum n va = pnum n va'.
Proof.
  intros Hn. assert (∃ m, (n + m = 3)%nat) as [m Hm] by (exists (3 - n)%nat; lia). revert n Hn Hm.
  induction m as [|m IH]; intros n Hn Hm.
  - assert (n = 3)%nat as -> by lia. rewrite !pnum_3. change (pre 3 va) with [INDEX va 3]. change (pre 3 va') with [INDEX va' 3].
    split; [by intros [=]|by intros ->].
  - rewrite (pre_snoc n va) ?(pre_snoc n va') ?(pnum_step n va) ?(pnum_step n va'); [lia..|]. pose proof (INDEX_ok va (Z.of_nat n)). pose proof (INDEX_ok va' (Z.of_nat n)).
    unfold index_ok in *. split.
    + intros [E ->]%app_inj_tail. apply (IH (S n)) in E; [|lia..]. by rewrite E.
    + intros E. assert (pnum (S n) va = pnum (S n) va') as E' by lia. f_equal; [by apply (IH (S n)); [lia..|]|]. f_equal. lia.
Qed.

(** ** The window *)
Section direct.
Context (feat : cpu_features) (hhdm kmap : Z).
Definition WINDOW : Z := 2 ^ 46.
Context (Hal : hhdm mod psize 2 = 0) (Hlo : 0 ≤ hhdm) (Hhi : hhdm + WINDOW ≤ 2 ^ 64).

Definition page_in (v : Z) : Prop := hhdm ≤ v < hhdm + WINDOW ∧ v mod psize 0 = 0.
(** Addresses the processor does not confuse with the window's. *)
Definition outside (va : Z) : Prop := ∀ v, page_in v → path4 va ≠ path4 v.

Lemma pre_0 va : pre 0 va = path4 va.
Proof. done. Qed.
Lemma pre_window n v v' : (n ≤ 3)%nat → page_in v → page_in v' → pre n v = pre n v' ↔ v / psize n = v' / psize n.
Proof.
  intros Hn [Hv _] [Hv' _]. rewrite pre_eq //. unfold pnum. split; [|by intros ->]. intros E. pose proof (psize_pos n) as Hp.
  assert (2 * WINDOW ≤ psize n * 2 ^ (36 - 9 * Z.of_nat n)) as Hw.
  { unfold psize, WINDOW. rewrite -Z.pow_add_r; [lia..|]. rewrite -(Z.pow_succ_r 2 46); [lia|]. apply Z.pow_le_mono_r; lia. }
  assert (psize n ≤ WINDOW) as Hkw by (apply Z.pow_le_mono_r; lia).
  assert (2 ^ (36 - 9 * Z.of_nat n) > 0) by lia. set (K := psize n) in *. set (Q := 2 ^ (36 - 9 * Z.of_nat n)) in *.
  pose proof (Z.div_mod (v / K) Q ltac:(lia)) as D1. pose proof (Z.div_mod (v' / K) Q ltac:(lia)) as D2. rewrite E in D1.
  pose proof (Z.div_mod v K ltac:(lia)) as F1. pose proof (Z.div_mod v' K ltac:(lia)) as F2.
  pose proof (Z.mod_pos_bound v K Hp). pose proof (Z.mod_pos_bound v' K Hp).
  assert (v / K / Q = v' / K / Q) as Eq; [|congruence].
  assert (K * Q * (v / K / Q - v' / K / Q) = (v - v mod K) - (v' - v' mod K)) as Ed by nia.
  assert (- (K * Q) - K < K * Q * (v / K / Q - v' / K / Q) < K * Q + K) by lia.
  assert (- 2 < v / K / Q - v' / K / Q < 2) by nia.
  destruct (decide (v / K / Q - v' / K / Q = 1)) as [E1|]; [rewrite E1 in Ed; lia|].
  destruct (decide (v / K / Q - v' / K / Q = -1)) as [E1|]; [rewrite E1 in Ed; lia|]. lia.
Qed.
(** Every path under a block of the window belongs to a page of the block. *)
Lemma block_path n v va : (n ≤ 3)%nat → page_in v → v mod psize n = 0 → v + psize n ≤ hhdm + WINDOW → pre n va = pre n v →
  ∃ v', page_in v' ∧ v' / psize n = v / psize n ∧ path4 v' = path4 va.
Proof.
  intros Hn [Hv _] Hm Hend E. apply pre_eq in E; [|done]. unfold pnum in E. pose proof (psize_pos n) as HK.
  destruct (psize_le 0 n ltac:(lia)) as (m & Hm0 & EK). set (P := psize 0) in *. assert (0 < P) as HP by apply psize_pos.
  set (K := psize n) in *. set (Q := 2 ^ (36 - 9 * Z.of_nat n)) in *. assert (0 < Q) as HQ by (unfold Q; lia).
  apply Z.mod_divide in Hm as [q ->]; [|lia]. rewrite Z.div_mul in E |- *; [lia..|].
  pose proof (Z.div_mod va K ltac:(lia)) as D. pose proof (Z.mod_pos_bound va K HK) as B. set (y := va mod K) in *. set (q' := va / K) in *.
  exists (q * K + y / P * P). pose proof (Z.div_mod y P ltac:(lia)) as Dy. pose proof (Z.mod_pos_bound y P HP) as By.
  assert (0 ≤ y / P * P < K) as Bx by (assert (0 ≤ y / P) by (apply Z.div_pos; lia); split; [apply Z.mul_nonneg_nonneg; lia|lia]). split_and!.
  - split; [lia|]. fold P. rewrite EK. replace (q * (m * P) + y / P * P) with ((q * m + y / P) * P) by lia. apply Z.mod_mul. lia.
  - rewrite Z.div_add_l; [lia|]. rewrite (Z.div_small (y / P * P)) //. lia.
  - rewrite -!pre_0. apply pre_eq; [lia|]. unfold pnum. fold P. change (36 - 9 * Z.of_nat 0) with 36.
    assert (m * Q = 2 ^ 36) as EQ.
    { unfold Q. assert (m = 2 ^ (9 * Z.of_nat n)) as ->.
      { unfold K, P, psize in EK. change (12 + 9 * Z.of_nat 0) with 12 in EK. rewrite (Z.add_comm 12) Z.pow_add_r in EK; [lia..|]. lia. }
      rewrite -Z.pow_add_r; [lia..|]. f_equal. lia. }
    replace (q * K + y / P * P) with ((q * m + y / P) * P) by (rewrite EK; lia). rewrite Z.div_mul; [lia|].
    replace (va / P) with (q' * m + y / P).
    2:{ rewrite D EK. replace (m * P * q' + y) with (q' * m * P + y) by lia. rewrite Z.div_add_l; [lia|done]. }
    pose proof (Z.div_mod q Q ltac:(lia)) as Dq. pose proof (Z.div_mod q' Q ltac:(lia)) as Dq'. rewrite -E in Dq.
    replace (q * m + y / P) with (q' * m + y / P + (q / Q - q' / Q) * 2 ^ 36) by (rewrite -EQ; nia).
    by rewrite Z.mod_add.
Qed.

(** The entry of a page: of the size [n], for the physical address it is mapped to. *)
Definition hg (n : nat) : Z := match n with 0%nat => 0 | _ => ptePagesize end.
Definition DMFLAGS : Z := Z.lor kVmGlobal kVmAll.
Definition dm_entry (n : nat) (v : Z) (c : cachemode) : Z := make_entry feat (hg n) (align_down (v - hhdm) (psize n)) c DMFLAGS.

(** [done]: the pages mapped so far, with their cache mode.  A table exists for a block of
    2 MiB or 1 GiB only where a page has been mapped. *)
Record dm (done : Z → option cachemode) (f : Z → Z) : Prop := {
  dm_leaf : ∀ v, page_in v → match done v with
    | Some c => ∃ n, (n ≤ 2)%nat ∧ leaf_at f kmap (path4 v) n (dm_entry n v c)
    | None => ∀ n e, ¬ leaf_at f kmap (path4 v) n e
    end;
  dm_tbl : ∀ v n, page_in v → (n = 1 ∨ n = 2)%nat → is_Some (tbl f kmap (pre n v)) →
    ∃ v', page_in v' ∧ is_Some (done v') ∧ pre n v' = pre n v;
}.
Lemma dm_ext done done' f : (∀ v, page_in v → done v = done' v) → dm done f → dm done' f.
Proof.
  intros E [L T]. split.
  - intros v Hv. rewrite -E //. by apply L.
  - intros v n Hv Hn Ht. destruct (T v n Hv Hn Ht) as (v' & Hv' & Hd & Ep). exists v'. by rewrite -E.
Qed.

Lemma pre_path n va : ∃ r, path4 va = pre n va ++ r ∧ length r = (4 - length (pre n va))%nat.
Proof. exists (drop (4 - n) (path4 va)). unfold pre. rewrite take_drop. split; [done|]. rewrite length_drop length_take /=. lia. Qed.
Lemma pre_length n va : (n ≤ 4)%nat → length (pre n va) = (4 - n)%nat.
Proof. intros Hn. unfold pre. rewrite length_take /=. lia. Qed.
Lemma pre_ok n va : (1 ≤ n)%nat → path_ok 3 (pre n va).
Proof. intros Hn. split; [unfold pre; rewrite length_take /=; lia|]. apply Forall_take, path4_ok. Qed.
Lemma pre_walk n va : (n ≤ 2)%nat → walk_path n va = pre (S n) va.
Proof. by destruct n as [|[|[|]]]; [..|lia]. Qed.
Lemma pre_leaf n va : (n ≤ 2)%nat → leaf_path n va = pre n va.
Proof. by destruct n as [|[|[|]]]; [..|lia]. Qed.
Lemma pre_prefix n va q : (n ≤ 4)%nat → length q = 4%nat → pre n va `prefix_of` q ↔ take (4 - n) q = pre n va.
Proof.
  intros Hn Lq. split.
  - intros [r ->]. rewrite -(pre_length n va Hn). apply take_app_length.
  - intros <-. apply prefix_take.
Qed.

Lemma dm_clear done f v n : dm done f → page_in v → done v = None → clear f kmap (pre n v).
Proof.
  intros [L _] Hv Hd p i r t E Ht Hp. destruct (huge _) eqn:Hh; [exfalso|done]. specialize (L v Hv). rewrite Hd in L.
  destruct (pre_path n v) as (s & Es & _). apply (L (length (r ++ s)) (f (t + 8 * i))).
  exists p, i, (r ++ s), t. rewrite Es E -app_assoc. split_and!; auto.
Qed.
(** Where a page of the block is mapped and another is not, the block has a table. *)
Lemma dm_table done f u v n : dm done f → (1 ≤ n ≤ 3)%nat → page_in u → page_in v → is_Some (done u) → done v = None →
  pre n u = pre n v → is_Some (tbl f kmap (pre n v)).
Proof.
  intros [L _] Hn Hu Hv [c Hc] Hd E. pose proof (L u Hu) as Lu. rewrite Hc in Lu. specialize (L v Hv). rewrite Hd in L.
  destruct Lu as (k & Hk & p & i & r & t & Ep & Ht & Lr & He & Hp & Hh).
  destruct (pre_path n u) as (s & Es & Ls). destruct (pre_path n v) as (s' & Es' & Ls'). rewrite -E in Ls'.
  rewrite Ep in Es. pose proof (pre_length n u ltac:(lia)) as Lpu. rewrite Lpu in Ls, Ls'. destruct (decide (length (pre n u) ≤ length p)%nat) as [Hle|Hlt].
  - assert (pre n u `prefix_of` p) as [q Hq].
    { exists (drop (4 - n) p). rewrite -{1}(take_drop (4 - n) p). f_equal.
      apply (f_equal (take (4 - n))) in Es. rewrite take_app_le in Es; [lia|]. rewrite Es -Lpu take_app_length //. }
    rewrite -E. rewrite Hq in Ht. destruct (tbl f kmap (pre n u)) eqn:Et; [done|]. by rewrite tbl_app_none in Ht.
  - exfalso. assert (∃ q, pre n u = p ++ i :: q) as [q Hq].
    { assert (length (p ++ i :: r) = 4%nat) as L4 by by rewrite -Ep. rewrite length_app /= in L4.
      exists (take (length (pre n u) - S (length p)) r). apply (f_equal (take (length (pre n u)))) in Es.
      rewrite take_app_length in Es. rewrite -{1}Es take_app. f_equal; [apply take_ge; lia|].
      replace (length (pre n u) - length p)%nat with (S (length (pre n u) - S (length p))) by lia. done. }
    apply (L k (dm_entry k u c)). exists p, i, (q ++ s'), t. split_and!; [|done| |done|done|done].
    + by rewrite Es' -E Hq -app_assoc.
    + rewrite -Lr. rewrite Hq -app_assoc /= in Es. apply app_inv_head in Es as [= ->]. rewrite !length_app. lia.
Qed.
Lemma dm_entry_bits n v c : present (dm_entry n v c) = true ∧ (n ≠ 0%nat → huge (dm_entry n v c) = true).
Proof.
  unfold dm_entry, make_entry, present, huge. change ptePresent with (2 ^ 0). change ptePagesize with (2 ^ 7).
  rewrite !has_pow2 // !Z.lor_spec. change (has DMFLAGS kVmRead) with true. cbn [when_bit].
  change (Z.testbit (2 ^ 0) 0) with true. rewrite !orb_true_r !orb_true_l. split; [done|].
  intros Hn. destruct n as [|n]; [done|]. by change (Z.testbit (hg (S n)) 7) with true.
Qed.
Lemma block_same n v v' : v mod psize n = 0 → v' / psize n = v / psize n ↔ v ≤ v' < v + psize n.
Proof.
  intros Hm. pose proof (psize_pos n) as HK. apply Z.mod_divide in Hm as [q ->]; [|lia]. rewrite Z.div_mul; [lia|].
  pose proof (Z.div_mod v' (psize n) ltac:(lia)) as D. pose proof (Z.mod_pos_bound v' (psize n) HK). split; intros; nia.
Qed.
Lemma dm_entry_block n v v' c : v mod psize n = 0 → v' / psize n = v / psize n → (n ≤ 2)%nat → hhdm ≤ v →
  dm_entry n v' c = make_entry feat (hg n) (v - hhdm) c DMFLAGS.
Proof.
  intros Hm Hb Hn Hv. apply block_same in Hb; [|done]. unfold dm_entry. f_equal. pose proof (psize_pos n) as HK.
  assert ((v - hhdm) mod psize n = 0) as Hm'.
  { pose proof (psize_mod n 2 hhdm Hn Hal) as Hh. rewrite Zminus_mod Hm Hh. apply Z.mod_0_l. lia. }
  assert (pow2 (psize n)) as Hp by (eexists; split; [|done]; lia).
  destruct (align_down_spec (v' - hhdm) (psize n) Hp) as [A1 A2].
  apply (multiples_close _ _ (psize n)); [done|done|done|lia].
Qed.

(** Mapping one block that is not mapped yet, with an entry of its size. *)
Definition mark (done : Z → option cachemode) (s e : Z) (c : cachemode) (v : Z) : option cachemode :=
  if decide (s ≤ v < e) then Some c else done v.
Definition same_outside (f f' : Z → Z) : Prop :=
  ∀ va n e, outside va → leaf_at f' kmap (path4 va) n e ↔ leaf_at f kmap (path4 va) n e.

Lemma dm_step n v c flags w fl done : pt_zone outside w fl kmap → dm done (phys w) → (n ≤ 2)%nat → page_in v →
  v mod psize n = 0 → v + psize n ≤ hhdm + WINDOW → (∀ u, v ≤ u < v + psize n → done u = None) →
  (lacking kmap (phys w) (pre (S n) v) ≤ length fl)%nat → make_entry feat (hg n) (v - hhdm) c flags = make_entry feat (hg n) (v - hhdm) c DMFLAGS →
  wp (map_entry feat kmap (v - hhdm) v c flags (Z.lor pteFlagCreateNew (walk_flag n)) (hg n)) (λ _ w', ∃ fl',
    pt_zone outside w' fl' kmap ∧ length fl = (length fl' + lacking kmap (phys w) (pre (S n) v))%nat ∧
    dm (mark done v (v + psize n) c) (phys w') ∧ same_outside (phys w) (phys w')) w.
Proof.
  intros Ok D Hn Hv Hm Hend Hd Hl Ef. pose proof (psize_pos n) as HK. pose proof Hv as [Hvw Hvp].
  assert (dm_entry n v c = make_entry feat (hg n) (v - hhdm) c DMFLAGS) as Ev by (apply dm_entry_block; [done|done|done|lia]).
  destruct (dm_entry_bits n v c) as [Hpr Hhu]. rewrite Ev -Ef in Hpr, Hhu.
  assert (∀ u, page_in u → pre n u = pre n v ↔ v ≤ u < v + psize n) as Hblk.
  { intros u Hu. rewrite pre_window //; [lia|]. by apply block_same. }
  assert (∀ va, outside va → ¬ pre n v `prefix_of` path4 va) as Hout.
  { intros va Ho Hp. apply pre_prefix in Hp; [|lia|done].
    destruct (block_path n v va ltac:(lia) Hv Hm Hend Hp) as (v' & Hv' & _ & E). by apply (Ho v' Hv'). }
  eapply wp_mono; [apply (map_entry_spec outside feat kmap outside n w fl (v - hhdm) v c flags (hg n) Ok Hn)|].
  - rewrite pre_walk //. eapply dm_clear; [done|done|]. apply Hd. lia.
  - by rewrite pre_walk.
  - destruct (decide (n = 0)%nat) as [->|N0]; [by left|right]. split; [|by apply Hhu]. rewrite pre_leaf //.
    apply eq_None_not_Some. intros Ht. destruct (dm_tbl _ _ D v n Hv ltac:(lia) Ht) as (u & Hu & [c' Hc] & E).
    apply Hblk in E; [|done]. rewrite Hd in Hc; [lia|done].
  - intros va Ho. split; [done|]. destruct (decide (n = 0)%nat) as [->|N0]; [by left|right]. rewrite pre_leaf //. intros Hp.
    apply (Hout va Ho). etrans; [exact Hp|]. by exists [INDEX va 0].
  - rewrite pre_walk // pre_leaf //. intros [] w' (fl' & Ok' & Hlen & _ & _ & Ht & Hleaf). exists fl'. split_and!; [done|done| |].
    + split.
      * intros u Hu. destruct (path4_ok u) as [L4 I4]. unfold mark. specialize (Hleaf (path4 u)).
        assert (pre n v `prefix_of` path4 u ↔ v ≤ u < v + psize n) as Hpre.
        { rewrite pre_prefix; [lia|done|]. rewrite -Hblk //. }
        destruct (decide (v ≤ u < v + psize n)) as [Hin|Hin].
        -- exists n. split; [done|]. apply Hleaf; [done..|]. rewrite decide_True; [by apply Hpre|]. split_and!; [done| |done].
           rewrite Ef. apply dm_entry_block; [done| |done|lia]. by apply block_same.
        -- pose proof (dm_leaf _ _ D u Hu) as Lu. destruct (done u) as [c'|].
           ++ destruct Lu as (k & Hk & Lu). exists k. split; [done|]. apply Hleaf; [done..|]. rewrite decide_False; [by rewrite Hpre|done].
           ++ intros k e He. apply Hleaf in He; [|done..]. rewrite decide_False in He; [by rewrite Hpre|]. by apply (Lu k e).
      * intros u k Hu Hk Hs. destruct (decide (pre k u `prefix_of` pre (S n) v)) as [Hp|Hp].
        -- exists v. split_and!; [done|unfold mark; rewrite decide_True; [lia|done]|].
           destruct Hp as [r Hp]. destruct (pre_path (S n) v) as (r' & Ev' & _).
           assert (pre k u `prefix_of` path4 v) as Hq by (rewrite Ev' Hp -app_assoc; by eexists).
           apply pre_prefix in Hq; [|lia|done]. by rewrite -Hq.
        -- rewrite Ht in Hs; [apply pre_ok; lia|done|]. destruct (dm_tbl _ _ D u k Hu Hk Hs) as (u' & Hu' & Hd' & E).
           exists u'. split_and!; [done| |done]. unfold mark. by case_decide.
    + intros va k e Ho. destruct (path4_ok va) as [L4 I4]. rewrite (Hleaf (path4 va)) // decide_False //. by apply Hout.
Qed.

(** ** Frames for tables

    Going through a range upwards, a table is needed where a block of 2 MiB, 1 GiB or
    512 GiB begins, and for the first page. *)
Definition first_in (m : nat) (v : Z) : Z := if decide (v mod psize m = 0) then 1 else 0.
Definition starts (m : nat) (b e : Z) : Z := (e + psize m - 1) / psize m - (b + psize m - 1) / psize m.
Definition tables (b e : Z) : Z := starts 1 b e + starts 2 b e + starts 3 b e.

Lemma starts_mono m b b' e : b ≤ b' → starts m b' e ≤ starts m b e.
Proof.
  intros Hb. unfold starts. pose proof (psize_pos m) as HK.
  assert ((b + psize m - 1) / psize m ≤ (b' + psize m - 1) / psize m); [apply Z.div_le_mono; lia|lia].
Qed.
Lemma starts_step n m b e : (n < m)%nat → b mod psize n = 0 → starts m b e = starts m (b + psize n) e + first_in m b.
Proof.
  intros Hnm Hb. unfold starts, first_in. pose proof (psize_pos m) as HK. pose proof (psize_pos n) as HP.
  destruct (psize_le n m ltac:(lia)) as (k & Hk & EK). set (K := psize m) in *. set (P := psize n) in *.
  pose proof (Z.div_mod b K ltac:(lia)) as D. pose proof (Z.mod_pos_bound b K HK) as B. set (q := b / K) in *. set (r := b mod K) in *.
  assert (P ≤ K) as HPK by nia. assert (r mod P = 0) as Hr.
  { replace r with (b - K * q) by lia. rewrite EK. replace (b - k * P * q) with (b + (- (k * q)) * P) by lia. by rewrite Z.mod_add; [lia|]. }
  assert (r + P ≤ K) as HrK.
  { apply Z.mod_divide in Hr as [j Hj]; [|lia]. rewrite Hj EK in B |- *. assert (j < k) by nia. nia. }
  replace (b + K - 1) with (q * K + (r + K - 1)) by lia. replace (b + P + K - 1) with (q * K + (r + P + K - 1)) by lia.
  rewrite !Z.div_add_l; [lia..|]. assert (∀ x, K ≤ x < 2 * K → x / K = 1) as H1 by (intros x Hx; symmetry; apply (Z.div_unique x K 1 (x - K)); lia).
  rewrite (H1 (r + P + K - 1)); [lia|]. case_decide as E.
  - rewrite E (Z.div_small (0 + K - 1)); lia.
  - rewrite (H1 (r + K - 1)); [lia|]. lia.
Qed.

Lemma lacking_pre n f v : (n ≤ 2)%nat →
  Z.of_nat (lacking kmap f (pre (S n) v)) ≤ Z.of_nat (missing kmap f (pre 3 v)) +
    (if decide (n ≤ 1)%nat then Z.of_nat (missing kmap f (pre 2 v)) else 0) + (if decide (n = 0)%nat then Z.of_nat (missing kmap f (pre 1 v)) else 0).
Proof. intros Hn. destruct n as [|[|[|]]]; [..|lia]; cbn -[missing Z.of_nat]; repeat case_decide; lia. Qed.
Lemma missing_le f q : (missing kmap f q ≤ 1)%nat.
Proof. unfold missing. destruct (tbl _ _ _); lia. Qed.
Lemma missing_next done f v m : dm done f → (1 ≤ m ≤ 3)%nat → page_in v → page_in (v - psize 0) → is_Some (done (v - psize 0)) →
  done v = None → Z.of_nat (missing kmap f (pre m v)) ≤ first_in m v.
Proof.
  intros D Hm Hv Hu Hd Hn. unfold first_in. case_decide as E; [pose proof (missing_le f (pre m v)); lia|].
  destruct (dm_table done f (v - psize 0) v m D Hm Hu Hv Hd Hn) as [t Ht].
  - apply pre_window; [lia|done|done|]. pose proof (psize_pos m) as HK. pose proof (psize_pos 0) as HP. destruct (psize_le 0 m ltac:(lia)) as (k & Hk & EK).
    pose proof (Z.div_mod v (psize m) ltac:(lia)) as Dv. pose proof (Z.mod_pos_bound v (psize m) HK) as B.
    assert (psize 0 ≤ v mod psize m) as Hge.
    { destruct Hv as [_ Hv]. assert ((v mod psize m) mod psize 0 = 0) as Hr.
      { replace (v mod psize m) with (v + (- (k * (v / psize m))) * psize 0) by lia. by rewrite Z.mod_add; [lia|]. }
      apply Z.mod_divide in Hr as [j Hj]; [|lia]. rewrite Hj in B, E |- *. assert (0 < j) by nia. nia. }
    symmetry. apply (Z.div_unique_pos _ _ _ (v mod psize m - psize 0)); lia.
  - unfold missing. by rewrite Ht.
Qed.

(** ** The loops

    Between two iterations the pages of the range below [b] are mapped, and there are
    frames for the tables the rest of it may need and [X] more. *)
Definition dmI (s e : Z) (c : cachemode) (done : Z → option cachemode) (f0 : Z → Z) (X b : Z) (w : mworld) : Prop :=
  ∃ fl, pt_zone outside w fl kmap ∧ dm (mark done s b c) (phys w) ∧ same_outside f0 (phys w) ∧
    tables b e + (if decide (b = s) then 3 else 0) + X ≤ Z.of_nat (length fl).
(** A range of whole pages of the window, none of them mapped. *)
Record fresh_range (s e : Z) (done : Z → option cachemode) : Prop := {
  fr_lo : hhdm ≤ s; fr_hi : e ≤ hhdm + WINDOW; fr_s : s mod psize 0 = 0; fr_e : e mod psize 0 = 0;
  fr_new : ∀ u, s ≤ u < e → done u = None;
}.

Lemma tables_step n b e : (n ≤ 2)%nat → b mod psize n = 0 →
  tables (b + psize n) e + first_in 3 b + (if decide (n ≤ 1)%nat then first_in 2 b else 0) + (if decide (n = 0)%nat then first_in 1 b else 0) ≤ tables b e.
Proof.
  intros Hn Hb. unfold tables. pose proof (psize_pos n).
  assert (∀ m, (if decide (n < m)%nat then first_in m b else 0) + starts m (b + psize n) e ≤ starts m b e) as H1.
  { intros m. case_decide; [rewrite (starts_step n m b e) //; lia|]. pose proof (starts_mono m b (b + psize n) e ltac:(lia)). lia. }
  pose proof (H1 1%nat) as S1. pose proof (H1 2%nat) as S2. pose proof (H1 3%nat) as S3.
  revert S1 S2 S3. repeat case_decide; lia.
Qed.
Lemma tables_nonneg b e : b ≤ e → 0 ≤ tables b e.
Proof.
  intros H. unfold tables, starts. assert (∀ m, (b + psize m - 1) / psize m ≤ (e + psize m - 1) / psize m) as Hm.
  { intros m. pose proof (psize_pos m). apply Z.div_le_mono; lia. }
  pose proof (Hm 1%nat). pose proof (Hm 2%nat). pose proof (Hm 3%nat). lia.
Qed.
Lemma tables_refl e : tables e e = 0.
Proof. unfold tables, starts. lia. Qed.
Lemma same_outside_trans f f' f'' : same_outside f f' → same_outside f' f'' → same_outside f f''.
Proof. intros H1 H2 va n e Ho. by rewrite (H2 va n e Ho) (H1 va n e Ho). Qed.
Lemma aligned_gap x y P : 0 < P → x mod P = 0 → y mod P = 0 → x < y → x + P ≤ y.
Proof.
  intros HP Hx Hy Hl. apply Z.mod_divide in Hx as [p ->]; [|lia]. apply Z.mod_divide in Hy as [q ->]; [|lia].
  assert (p < q) by (apply (Z.mul_lt_mono_pos_r P); lia). assert ((p + 1) * P ≤ q * P) by (apply Z.mul_le_mono_nonneg_r; lia). lia.
Qed.
Lemma mark_mark done s b b' c v : s ≤ b → b ≤ b' → mark (mark done s b c) b b' c v = mark done s b' c v.
Proof. intros H1 H2. unfold mark. repeat case_decide; done || lia. Qed.

Lemma dm_advance n s e b c flags done f0 X w : 0 ≤ X → fresh_range s e done → dmI s e c done f0 X b w → (n ≤ 2)%nat →
  s ≤ b → b mod psize n = 0 → b + psize n ≤ e → make_entry feat (hg n) (b - hhdm) c flags = make_entry feat (hg n) (b - hhdm) c DMFLAGS →
  wp (map_entry feat kmap (b - hhdm) b c flags (Z.lor pteFlagCreateNew (walk_flag n)) (hg n))
    (λ _, dmI s e c done f0 X (b + psize n)) w.
Proof.
  intros HX [Rlo Rhi Rs Re Rn] (fl & Ok & D & So & Hfl) Hn Hsb Hb Hbe Ef. pose proof (psize_pos n) as HK. pose proof (psize_pos 0) as HP.
  assert (page_in b) as Hpb by (split; [lia|by apply (psize_mod 0 n); [lia|]]).
  assert (∀ u, b ≤ u < b + psize n → mark done s b c u = None) as Hd by (intros u Hu; unfold mark; rewrite decide_False; [lia|apply Rn; lia]).
  assert (Z.of_nat (lacking kmap (phys w) (pre (S n) b)) + tables (b + psize n) e ≤ tables b e + (if decide (b = s) then 3 else 0)) as Hl.
  { pose proof (lacking_pre n (phys w) b Hn) as L1. pose proof (tables_step n b e Hn Hb) as L2.
    pose proof (missing_le (phys w) (pre 1 b)). pose proof (missing_le (phys w) (pre 2 b)). pose proof (missing_le (phys w) (pre 3 b)).
    assert (∀ m, 0 ≤ first_in m b) as Hf by (intros m; unfold first_in; repeat case_decide; lia).
    pose proof (Hf 1%nat). pose proof (Hf 2%nat). pose proof (Hf 3%nat).
    destruct (decide (b = s)) as [->|Hne]; [revert L1 L2; repeat case_decide; lia|].
    assert (s + psize 0 ≤ b) as Hg by (apply aligned_gap; [done|done|apply Hpb|lia]).
    assert (∀ m, (1 ≤ m ≤ 3)%nat → Z.of_nat (missing kmap (phys w) (pre m b)) ≤ first_in m b) as Hm.
    { intros m Hm. apply (missing_next (mark done s b c)); [done|done|done| | |apply Hd; lia].
      - destruct Hpb as [Hpb1 Hpb2]. split; [lia|]. rewrite Zminus_mod Hpb2 Z_mod_same_full. done.
      - unfold mark. rewrite decide_True; [lia|done]. }
    pose proof (Hm 1%nat ltac:(lia)). pose proof (Hm 2%nat ltac:(lia)). pose proof (Hm 3%nat ltac:(lia)). revert L1 L2. repeat case_decide; lia. }
  pose proof (tables_nonneg (b + psize n) e Hbe) as Ht.
  eapply wp_mono; [apply (dm_step n b c flags w fl (mark done s b c) Ok D Hn Hpb Hb); [lia|done|lia|done]|].
  intros [] w' (fl' & Ok' & Hlen & D' & So'). exists fl'. split_and!; [done| |by eapply same_outside_trans|rewrite (decide_False (P := b + psize n = s)); lia].
  eapply dm_ext; [|exact D']. intros u _. apply mark_mark; lia.
Qed.

Section range.
Context (s e : Z) (c : cachemode) (done : Z → option cachemode) (f0 : Z → Z) (X : Z).
Context (HX : 0 ≤ X) (Hs : 0 ≤ s) (Rg : fresh_range (hhdm + s) (hhdm + e) done).
Notation I b := (dmI (hhdm + s) (hhdm + e) c done f0 X (hhdm + b)).

Lemma hhdm_aligned n b : (n ≤ 2)%nat → b mod psize n = 0 → (hhdm + b) mod psize n = 0.
Proof. intros Hn Hb. rewrite Z.add_mod; [pose proof (psize_pos n); lia|]. rewrite (psize_mod n 2 hhdm Hn Hal) Hb. apply Z.mod_0_l. pose proof (psize_pos n). lia. Qed.
Lemma range_end : e ≤ WINDOW.
Proof. pose proof (fr_hi _ _ _ Rg). lia. Qed.
(** A page of any size at [hhdm + b], through the interface of [vm_port_map]. *)
Lemma map_level n b flags w : I b w → (n ≤ 2)%nat → s ≤ b → b mod psize n = 0 → b + psize n ≤ e →
  make_entry feat (hg n) b c flags = make_entry feat (hg n) b c DMFLAGS →
  wp (map_entry feat kmap b (wrap64 (hhdm + b)) c flags (Z.lor pteFlagCreateNew (walk_flag n)) (hg n)) (λ _, I (b + psize n)) w.
Proof.
  intros HI Hn Hsb Hb Hbe Ef. pose proof range_end. pose proof (psize_pos n). rewrite wrap64_small; [unfold WINDOW in *; lia|].
  pose proof (dm_advance n (hhdm + s) (hhdm + e) (hhdm + b) c flags done f0 X w HX Rg HI Hn ltac:(lia) (hhdm_aligned n b Hn Hb) ltac:(lia)) as Hadv.
  rewrite (Z.add_simpl_l hhdm b) in Hadv. rewrite Z.add_assoc. by apply Hadv.
Qed.
Lemma map_4k b w : I b w → s ≤ b → b mod psize 0 = 0 → b + psize 0 ≤ e → wp (map_hhdm feat hhdm kmap c b DMFLAGS) (λ _, I (b + psize 0)) w.
Proof. intros HI Hsb Hb Hbe. apply (map_level 0); [done|lia|done|done|done|done]. Qed.
Lemma map_2m fuel b w : I b w → s ≤ b → b mod psize 1 = 0 → b + psize 1 ≤ e →
  wp (vm_port_map_rec feat (S fuel) kmap b (wrap64 (hhdm + b)) c (Z.lor DMFLAGS kVmHuge2MB)) (λ _, I (b + psize 1)) w.
Proof.
  intros HI Hsb Hb Hbe. cbn [vm_port_map_rec]. change (has (Z.lor DMFLAGS kVmHuge2MB) kVmHuge) with true.
  change (Z.shiftr (Z.lor DMFLAGS kVmHuge2MB) kVmHugeShift) with 21. cbv zeta iota. destruct (decide (21 = 21)) as [_|[]]; [|done].
  apply wp_bind, wp_assert. split; [by apply bool_decide_eq_true|].
  apply (map_level 1); [done|lia|done|done|done|reflexivity].
Qed.
Lemma map_1g b w : I b w → s ≤ b → b mod psize 2 = 0 → b + psize 2 ≤ e →
  wp (map_hhdm feat hhdm kmap c b (Z.lor DMFLAGS kVmHuge1GB)) (λ _, I (b + psize 2)) w.
Proof.
  intros HI Hsb Hb Hbe. pose proof range_end. unfold map_hhdm, vm_port_map. cbn [vm_port_map_rec]. change (has (Z.lor DMFLAGS kVmHuge1GB) kVmHuge) with true.
  change (Z.shiftr (Z.lor DMFLAGS kVmHuge1GB) kVmHugeShift) with 30. cbv zeta iota. destruct (decide (30 = 21)) as [|_]; [done|]. destruct (decide (30 = 30)) as [_|[]]; [|done].
  apply wp_bind, wp_assert. split; [by apply bool_decide_eq_true|].
  destruct (gbpages feat); [apply (map_level 2); [done|lia|done|done|done|reflexivity]|].
  change (Z.lor (Z.land (Z.lor DMFLAGS kVmHuge1GB) (Z.lnot kVmHuge1GB)) kVmHuge2MB) with (Z.lor DMFLAGS kVmHuge2MB).
  eapply wp_mono; [apply (wp_forM_seq 0 512 _ (λ i, I (b + psize 1 * Z.of_nat i)))|].
  - by rewrite Z.mul_0_r Z.add_0_r.
  - intros i w' Hi HI'. change (MiB 2) with (psize 1). change (psize 2) with (512 * psize 1) in Hbe. change (psize 1) with 2097152 in *.
    rewrite (wrap64_small (b + _)); [unfold WINDOW in *; lia|]. rewrite (wrap64_small (hhdm + b)); [unfold WINDOW in *; lia|]. rewrite -Z.add_assoc.
    eapply wp_mono; [apply (map_2m 0 (b + 2097152 * Z.of_nat i) w' HI')|].
    + lia.
    + change 2097152 with (psize 1). rewrite (Z.mul_comm (psize 1)) Z.mod_add; [done|]. by apply (psize_mod 1 2); [lia|].
    + change (psize 1) with 2097152. lia.
    + intros [] w''. replace (b + 2097152 * Z.of_nat i + psize 1) with (b + 2097152 * Z.of_nat (S i)); [done|]. change (psize 1) with 2097152. lia.
  - intros [] w' HI'. by change (psize 2) with (psize 1 * Z.of_nat (0 + 512)).
Qed.

(** The fuel is enough when it exceeds the pages left. *)
Definition fuel_for (fuel : nat) (b : Z) : Prop := e - b < Z.of_nat fuel * psize 0.
Lemma in_range n b : s ≤ b → b + psize n ≤ e → b mod psize 0 = 0 → (b + psize n) mod psize 0 = 0 ∧ wrap64 (b + psize n) = b + psize n ∧ b < b + psize n.
Proof.
  intros H1 H2 H3. pose proof range_end. pose proof (psize_pos n). split_and!; [|apply wrap64_small; unfold WINDOW in *; lia|lia].
  destruct (psize_le 0 n ltac:(lia)) as (k & _ & ->). rewrite Z.mod_add; [done|]. pose proof (psize_pos 0). lia.
Qed.
Lemma range_aligned b : b mod psize 0 = 0 → b < e → b + psize 0 ≤ e.
Proof.
  intros Hb Hl. apply aligned_gap; [apply psize_pos|done| |done]. pose proof (fr_e _ _ _ Rg) as He.
  replace e with (hhdm + e - hhdm) by lia. rewrite Zminus_mod He (psize_mod 0 2 hhdm ltac:(lia) Hal). apply Z.mod_0_l. pose proof (psize_pos 0). lia.
Qed.
Lemma fuel_step fuel n b : fuel_for (S fuel) b → b < b + psize n → fuel_for fuel (b + psize n).
Proof.
  unfold fuel_for. intros H1 _. destruct (psize_le 0 n ltac:(lia)) as (k & Hk & E). pose proof (psize_pos 0). assert (psize 0 ≤ psize n) by nia. lia.
Qed.

Lemma remap_unaligned_spec (hugepages : bool) fuel : ∀ b w, I b w → s ≤ b ≤ e → b mod psize 0 = 0 → fuel_for fuel b →
  wp (remap_unaligned feat hugepages hhdm kmap c fuel b e) (λ b' w', I b' w' ∧ s ≤ b' ≤ e ∧ b' mod psize 0 = 0 ∧ b ≤ b' ∧
    (hugepages = false → b' = e)) w.
Proof.
  induction fuel as [|fuel IH]; intros b w HI Hb Hm Hf; [unfold fuel_for in Hf; lia|]. cbn [remap_unaligned].
  destruct (decide (b < e)) as [Hl|Hl]; [|apply wp_ret; split_and!; try done; lia].
  case_bool_decide as Eb; [destruct hugepages|]; rewrite ?andb_false_r; cbn [andb]; [apply wp_ret; split_and!; done || lia|..];
    destruct (in_range 0 b ltac:(lia) (range_aligned b Hm Hl) Hm) as (M' & Wr & Lt); pose proof (range_aligned b Hm Hl);
    apply wp_bind; (eapply wp_mono; [apply (map_4k b w HI); [lia|done|done]|]); intros [] w' HI'; change PAGE_SIZE with (psize 0); rewrite Wr;
    (eapply wp_mono; [apply (IH _ w' HI'); [lia|done|by apply fuel_step]|]); intros b' w'' (H1 & H2 & H3 & H4 & H5); split_and!; done || lia.
Qed.
Lemma remap_huge_spec fuel : ∀ b w, I b w → s ≤ b ≤ e → b mod psize 0 = 0 → fuel_for fuel b →
  wp (remap_huge feat hhdm kmap c fuel b e) (λ b' w', I b' w' ∧ b' = e) w.
Proof.
  induction fuel as [|fuel IH]; intros b w HI Hb Hm Hf; [unfold fuel_for in Hf; lia|]. cbn [remap_huge].
  destruct (decide (b < e)) as [Hl|Hl]; [|apply wp_ret; assert (b = e) as -> by lia; done].
  assert (∀ n (m : M mworld unit), b + psize n ≤ e → wp m (λ _, I (b + psize n)) w →
    wp (m ;; remap_huge feat hhdm kmap c fuel (wrap64 (b + psize n)) e) (λ b' w', I b' w' ∧ b' = e) w) as Hstep.
  { intros n m Hle Hm'. destruct (in_range n b ltac:(lia) Hle Hm) as (M' & Wr & Lt). apply wp_bind. eapply wp_mono; [exact Hm'|].
    intros [] w' HI'. rewrite Wr. apply IH; [done|lia|done|by apply fuel_step]. }
  pose proof (range_aligned b Hm Hl) as Hle. pose proof range_end.
  assert (∀ n, (n ≤ 2)%nat → wrap64 (b + psize n) = b + psize n) as Wr.
  { intros n Hn. assert (psize n ≤ psize 2) as Hp by (apply Z.pow_le_mono_r; lia). change (psize 2) with (2 ^ 30) in Hp. pose proof (psize_pos n).
    apply wrap64_small. unfold WINDOW in *. lia. }
  change (GiB 1) with (psize 2). change (MiB 2) with (psize 1). change PAGE_SIZE with (psize 0).
  destruct (decide (b mod psize 2 = 0 ∧ wrap64 (b + psize 2) ≤ e)) as [[H1 H2]|_].
  { rewrite Wr in H2; [lia|]. apply (Hstep 2%nat); [done|]. apply map_1g; [done|lia|done|done]. }
  destruct (decide (b mod psize 1 = 0 ∧ wrap64 (b + psize 1) ≤ e)) as [[H1 H2]|_].
  { rewrite Wr in H2; [lia|]. apply (Hstep 1%nat); [done|]. apply (map_2m 1); [done|lia|done|done]. }
  apply (Hstep 0%nat); [done|]. apply map_4k; [done|lia|done|done].
Qed.
Lemma remap_memmap_entry_spec (hugepages : bool) fuel w : I s w → s ≤ e → s mod psize 0 = 0 → fuel_for fuel s →
  wp (remap_memmap_entry feat hugepages hhdm kmap c fuel s (e - s)) (λ _, I e) w.
Proof.
  intros HI Hse Hm Hf. unfold remap_memmap_entry. pose proof range_end. replace (s + (e - s)) with e by lia.
  rewrite (wrap64_small e); [unfold WINDOW in *; lia|]. apply wp_bind.
  eapply wp_mono; [apply (remap_unaligned_spec hugepages fuel s w HI); [lia|done|done]|]. intros b w' (HI' & Hb & Hm' & Hsb & Hno).
  apply wp_bind. destruct hugepages.
  - eapply wp_mono; [apply (remap_huge_spec fuel b w' HI' Hb Hm'); unfold fuel_for in *; lia|]. intros b' w'' [HI'' ->].
    apply wp_assert. split; [apply bool_decide_eq_true; lia|done].
  - apply wp_ret. rewrite Hno // in HI' |- *. apply wp_assert. split; [apply bool_decide_eq_true; lia|done].
Qed.
End range.

(** ** Translation

    What the processor finds at an address: the page of the entry, and the offset in it. *)
Definition translates (f : Z → Z) (va pa : Z) : Prop :=
  ∃ n e, leaf_at f kmap (path4 va) n e ∧ pa = align_down (Z.land e pteAddress) (psize n) + va mod psize n.

Lemma make_entry_huge h pa c flags : make_entry feat h pa c flags = Z.lor h (make_entry feat 0 pa c flags).
Proof. unfold make_entry. by rewrite Z.lor_0_l !Z.lor_assoc. Qed.
Lemma psize_pow2 n : pow2 (psize n).
Proof. eexists. split; [|done]. lia. Qed.
Lemma align_down_mono x n m : (m ≤ n)%nat → align_down x (psize n) mod psize m = 0.
Proof. intros H. apply (psize_mod m n _ H). apply align_down_spec, psize_pow2. Qed.
Lemma dm_entry_addr n v c : (n ≤ 2)%nat → page_in v → Z.land (dm_entry n v c) pteAddress = align_down (v - hhdm) (psize n).
Proof.
  intros Hn [Hv _]. unfold dm_entry. rewrite make_entry_huge Z.land_lor_distr_l.
  replace (Z.land (hg n) pteAddress) with 0 by by destruct n. rewrite Z.lor_0_l.
  destruct (align_down_spec (v - hhdm) (psize n) (psize_pow2 n)) as [_ B].
  assert (0 ≤ align_down (v - hhdm) (psize n)) as Hp by (apply Z.land_nonneg; lia).
  rewrite make_entry_addr; [unfold WINDOW in *; lia|]. change (PAGE_ALIGN_DOWN ?x) with (align_down x (psize 0)).
  pose proof (psize_pos 0) as HP. destruct (align_down_spec (align_down (v - hhdm) (psize n)) (psize 0) (psize_pow2 0)) as [A1 A2].
  apply (multiples_close _ _ (psize 0)); [done|done|apply align_down_mono; lia|lia].
Qed.
(** The page an address of the window lies in. *)
Lemma window_page va : hhdm ≤ va < hhdm + WINDOW → page_in (align_down va (psize 0)) ∧ path4 (align_down va (psize 0)) = path4 va.
Proof.
  intros Hv. destruct (align_down_spec va (psize 0) (psize_pow2 0)) as [A1 A2]. pose proof (psize_pos 0) as HP. split.
  - split; [|done]. split; [|lia]. pose proof (psize_mod 0 2 hhdm ltac:(lia) Hal) as Hm.
    destruct (decide (hhdm ≤ align_down va (psize 0))); [done|]. pose proof (aligned_gap _ hhdm _ HP A1 Hm ltac:(lia)). lia.
  - rewrite -!pre_0. apply pre_eq; [lia|]. unfold pnum. f_equal.
    apply (block_same 0 (align_down va (psize 0)) (align_down va (psize 0))) in A1 as B1. symmetry. by apply block_same.
Qed.
Lemma dm_translates done f va c : dm done f → hhdm ≤ va < hhdm + WINDOW → done (align_down va (psize 0)) = Some c → translates f va (va - hhdm).
Proof.
  intros D Hv Hc. destruct (window_page va Hv) as [Hp Ep]. pose proof (dm_leaf _ _ D _ Hp) as L. rewrite Hc in L.
  destruct L as (n & Hn & L). rewrite Ep in L. exists n, (dm_entry n (align_down va (psize 0)) c). split; [done|].
  rewrite dm_entry_addr //. set (v := align_down va (psize 0)) in *. pose proof (psize_pos n) as HK. pose proof (psize_pos 0) as HP.
  destruct (align_down_spec va (psize 0) (psize_pow2 0)) as [A1 A2]. fold v in A1, A2.
  destruct (align_down_spec (v - hhdm) (psize n) (psize_pow2 n)) as [B1 B2]. set (x := align_down (v - hhdm) (psize n)) in *.
  rewrite align_down_eq; [apply psize_pow2|]. rewrite B1 Z.sub_0_r.
  assert (va - hhdm < x + psize n) as Hlt.
  { assert (v - hhdm + psize 0 ≤ x + psize n); [|lia]. apply aligned_gap; [done| | |lia].
    - rewrite Zminus_mod A1 (psize_mod 0 2 hhdm ltac:(lia) Hal). by apply Z.mod_0_l; lia.
    - destruct (psize_le 0 n ltac:(lia)) as (k & _ & E). rewrite E Z.mod_add; [lia|]. apply align_down_mono. lia. }
  apply Z.mod_divide in B1 as [q Eq]; [|lia]. pose proof (psize_mod n 2 hhdm Hn Hal) as Hm. apply Z.mod_divide in Hm as [p Eh]; [|lia].
  replace (va mod psize n) with (va - hhdm - x); [lia|]. apply (Z.mod_unique_pos va (psize n) (p + q)); lia.
Qed.
Lemma dm_unmapped done f va n e : dm done f → hhdm ≤ va < hhdm + WINDOW → done (align_down va (psize 0)) = None → ¬ leaf_at f kmap (path4 va) n e.
Proof. intros D Hv Hc. destruct (window_page va Hv) as [Hp <-]. pose proof (dm_leaf _ _ D _ Hp) as L. rewrite Hc in L. apply L. Qed.

(** ** The boot loader's map *)
Context (FRAMEBUFFER : Z).
Definition dm_base (e : memmap_entry) : Z := PAGE_ALIGN_DOWN (e_base e).
Definition dm_end (e : memmap_entry) : Z := dm_base e + PAGE_ALIGN_UP (e_length e).
Definition dm_cache (e : memmap_entry) : cachemode := if decide (e_type e = FRAMEBUFFER) then kVmWritecombine else kVmWriteback.
Definition dm_done (es : list memmap_entry) : Z → option cachemode :=
  foldl (λ d e, mark d (hhdm + dm_base e) (hhdm + dm_end e) (dm_cache e)) (λ _, None) es.
(** Frames that are enough for the tables of an entry. *)
Definition dm_frames (e : memmap_entry) : Z := 3 + tables (hhdm + dm_base e) (hhdm + dm_end e).
Definition entry_in_window (e : memmap_entry) : Prop := 0 ≤ e_base e ∧ 0 ≤ e_length e ∧ e_base e + e_length e + PAGE_SIZE ≤ WINDOW.
Definition dm_apart (es : list memmap_entry) : Prop :=
  ∀ i j e1 e2, es !! i = Some e1 → es !! j = Some e2 → i ≠ j → dm_end e1 ≤ dm_base e2 ∨ dm_end e2 ≤ dm_base e1.

Lemma entry_bounds e : entry_in_window e → 0 ≤ dm_base e ≤ dm_end e ∧ dm_end e ≤ WINDOW ∧ dm_base e mod psize 0 = 0 ∧ dm_end e mod psize 0 = 0.
Proof.
  intros (H1 & H2 & H3). unfold dm_end, dm_base. destruct (align_down_spec (e_base e) PAGE_SIZE ltac:(by exists 12)) as [D1 D2].
  change (align_down (e_base e) PAGE_SIZE) with (PAGE_ALIGN_DOWN (e_base e)) in *. change (psize 0) with PAGE_SIZE.
  assert (0 ≤ PAGE_ALIGN_DOWN (e_base e)) by (apply Z.land_nonneg; lia).
  destruct (page_align_up_spec (e_length e) ltac:(unfold WINDOW, PAGE_SIZE in *; lia)) as [U1 U2]. split_and!; [lia|lia|lia|done|].
  rewrite Z.add_mod // D1 U1. done.
Qed.
(** An aligned entry is covered to its last byte.  One whose base is not aligned is covered
    up to [dm_end], which its last bytes may lie behind: base and length are rounded
    separately. *)
Lemma aligned_covered e pa : entry_in_window e → e_base e mod PAGE_SIZE = 0 → e_base e ≤ pa < e_base e + e_length e →
  dm_base e ≤ pa < dm_end e.
Proof.
  intros (H1 & H2 & H3) Ha Hpa. unfold dm_end, dm_base.
  assert (PAGE_ALIGN_DOWN (e_base e) = e_base e) as ->.
  { change (align_down (e_base e) PAGE_SIZE = e_base e). rewrite align_down_eq; [by exists 12|]. lia. }
  destruct (align_up_spec (e_length e) PAGE_SIZE ltac:(by exists 12)) as [_ U].
  unfold PAGE_ALIGN_UP, WINDOW, align_up, PAGE_SIZE in *. rewrite (wrap64_small (e_length e + _ - 1)); [lia|]. rewrite wrap64_small; lia.
Qed.
Lemma dm_done_cover es v : dm_done es v = None ↔ ∀ e, e ∈ es → ¬ hhdm + dm_base e ≤ v < hhdm + dm_end e.
Proof.
  clear Hal Hlo Hhi. unfold dm_done. induction es as [|e es IH] using rev_ind; [split; [by intros _ e ?%elem_of_nil|done]|].
  rewrite foldl_app /= {1}/mark. case_decide as E.
  - split; [done|]. intros Hn. exfalso. apply (Hn e); [set_solver|done].
  - rewrite IH. split; [|set_solver]. intros Hn e' [He| ->%list_elem_of_singleton]%elem_of_app; [by apply Hn|done].
Qed.

Lemma dm_done_some es v c : dm_done es v = Some c → ∃ e, e ∈ es ∧ hhdm + dm_base e ≤ v < hhdm + dm_end e.
Proof.
  clear Hal Hlo Hhi. unfold dm_done. induction es as [|e es IH] using rev_ind; [done|]. rewrite foldl_app /= {1}/mark. case_decide as E.
  - intros _. exists e. split; [set_solver|done].
  - intros (e' & He & Hv)%IH. exists e'. split; [set_solver|done].
Qed.
Lemma map_memory_spec hugepages fuel es w fl : pt_zone outside w fl kmap → dm (λ _, None) (phys w) →
  Forall entry_in_window es → dm_apart es → sumZ dm_frames es ≤ Z.of_nat (length fl) →
  Forall (λ e, dm_end e - dm_base e < Z.of_nat fuel * PAGE_SIZE) es →
  wp (forM es (λ e, remap_memmap_entry feat hugepages hhdm kmap (dm_cache e) fuel (dm_base e) (PAGE_ALIGN_UP (e_length e))))
    (λ _ w', ∃ fl', pt_zone outside w' fl' kmap ∧ dm (dm_done es) (phys w') ∧ same_outside (phys w) (phys w')) w.
Proof.
  intros Ok D Hall Hap Hfr Hfuel.
  eapply wp_mono; [apply (wp_forM es _ (λ pre w', ∃ fl', pt_zone outside w' fl' kmap ∧ dm (dm_done pre) (phys w') ∧
    same_outside (phys w) (phys w') ∧ sumZ dm_frames es - sumZ dm_frames pre ≤ Z.of_nat (length fl')))|].
  - exists fl. split_and!; [done|done|done|simpl; lia].
  - intros pr e po w1 -> (fl1 & Ok1 & D1 & S1 & L1). apply Forall_app in Hall as [_ [He Hpo]%Forall_cons]. apply Forall_app in Hfuel as [_ [Hf _]%Forall_cons].
    destruct (entry_bounds e He) as (B1 & B2 & B3 & B4). rewrite sumZ_app /= in L1. set (X := sumZ dm_frames po) in *.
    assert (0 ≤ X) as HX.
    { apply sumZ_nonneg. intros x Hx. rewrite Forall_forall in Hpo. destruct (entry_bounds x (Hpo x Hx)) as (? & _).
      unfold dm_frames. pose proof (tables_nonneg (hhdm + dm_base x) (hhdm + dm_end x)). lia. }
    pose proof (psize_mod 0 2 hhdm ltac:(lia) Hal) as Hh.
    assert (fresh_range (hhdm + dm_base e) (hhdm + dm_end e) (dm_done pr)) as Rg.
    { split; [lia|lia|by apply (hhdm_aligned 0); [lia|]|by apply (hhdm_aligned 0); [lia|]|]. intros u Hu. apply dm_done_cover. intros e' He' Hu'.
      apply list_elem_of_lookup in He' as [i Hi].
      destruct (Hap i (length pr) e' e); [by apply lookup_app_l_Some|by apply list_lookup_middle|apply lookup_lt_Some in Hi; lia|lia|lia]. }
    replace (PAGE_ALIGN_UP (e_length e)) with (dm_end e - dm_base e) by (unfold dm_end; lia).
    eapply wp_mono; [apply (remap_memmap_entry_spec (dm_base e) (dm_end e) (dm_cache e) (dm_done pr) (phys w) X HX ltac:(lia) Rg)|].
    + exists fl1. split_and!; [done| |done|rewrite decide_True //; unfold dm_frames in L1; lia].
      eapply dm_ext; [|exact D1]. intros v _. unfold mark. rewrite decide_False //. lia.
    + lia.
    + done.
    + done.
    + intros [] w2 (fl2 & Ok2 & D2 & S2 & L2). exists fl2. split_and!; [done| |done|].
      * eapply dm_ext; [|exact D2]. intros v _. unfold dm_done. by rewrite foldl_app.
      * rewrite !sumZ_app /=. rewrite tables_refl in L2. fold X. case_decide; lia.
  - intros [] w' (fl' & Ok' & D' & S' & _). by exists fl'.
Qed.

(** ** Beside the kernel's sections

    The sections lie above the window, in blocks of 1 GiB of their own. *)
Definition above_window (p : Z) : Prop := hhdm + WINDOW ≤ p < hhdm + 2 ^ 48.
Lemma above_apart p v : above_window p → page_in v → pre 2 v ≠ pre 2 p.
Proof.
  intros Hp [Hv _] E. apply pre_eq in E; [|lia]. unfold pnum in E. change (2 ^ (36 - 9 * Z.of_nat 2)) with (2 ^ 18) in E.
  unfold above_window, WINDOW in *. change (psize 2) with (2 ^ 30) in *. apply Z.mod_divide in Hal as [h Eh]; [|lia].
  pose proof (Z.div_mod (v / 2 ^ 30) (2 ^ 18) ltac:(lia)) as D1. pose proof (Z.div_mod (p / 2 ^ 30) (2 ^ 18) ltac:(lia)) as D2. rewrite E in D1.
  pose proof (Z.div_mod v (2 ^ 30) ltac:(lia)) as F1. pose proof (Z.div_mod p (2 ^ 30) ltac:(lia)) as F2.
  pose proof (Z.mod_pos_bound v (2 ^ 30)). pose proof (Z.mod_pos_bound p (2 ^ 30)). lia.
Qed.
Lemma above_prefix p v n r : above_window p → page_in v → (n ≤ 2)%nat → pre n v `prefix_of` r → r `prefix_of` path4 p → False.
Proof.
  intros Hp Hv Hn H1 H2. apply (above_apart p v Hp Hv). assert (pre n v `prefix_of` path4 p) as H by (by etrans).
  apply pre_prefix in H; [|lia|done]. fold (pre n p) in H. unfold pre in *. apply (f_equal (take 2)) in H. rewrite !take_take in H.
  by rewrite Nat.min_l in H; [lia|].
Qed.
Lemma outside_dec va : outside va ∨ ∃ v, page_in v ∧ path4 va = path4 v.
Proof.
  pose proof (psize_mod 0 2 hhdm ltac:(lia) Hal) as Hh. change (psize 0) with (2 ^ 12) in Hh. apply Z.mod_divide in Hh as [h Eh]; [|lia].
  set (d := (va / 2 ^ 12 - h) mod 2 ^ 36). pose proof (Z.mod_pos_bound (va / 2 ^ 12 - h) (2 ^ 36) ltac:(lia)) as Hd. fold d in Hd.
  assert (∀ v, path4 va = path4 v ↔ (va / 2 ^ 12) mod 2 ^ 36 = (v / 2 ^ 12) mod 2 ^ 36) as Hp by (intros v; rewrite -!pre_0 pre_eq //; lia).
  pose proof (Z.div_mod (va / 2 ^ 12 - h) (2 ^ 36) ltac:(lia)) as D. fold d in D.
  destruct (decide (d * 2 ^ 12 < WINDOW)) as [Hlt|Hge].
  - right. exists (hhdm + d * 2 ^ 12). split.
    + split; [lia|]. rewrite Eh -Z.mul_add_distr_r. by apply Z.mod_mul.
    + apply Hp. rewrite Eh -Z.mul_add_distr_r Z.div_mul //. replace (va / 2 ^ 12) with (h + d + (va / 2 ^ 12 - h) / 2 ^ 36 * 2 ^ 36) by lia. by rewrite Z.mod_add.
  - left. intros v [Hv Hm] E%Hp. change (psize 0) with (2 ^ 12) in Hm. apply Z.mod_divide in Hm as [j Ej]; [|lia].
    rewrite Ej Z.div_mul // in E. apply Hge. replace d with (j - h); [lia|]. unfold WINDOW in *. subst d.
    rewrite Zminus_mod E -Zminus_mod Z.mod_small //. lia.
Qed.
Lemma dm_entry_noexec n v c : nx feat = true → has (dm_entry n v c) pteNoExecute = true.
Proof.
  intros Hnx. change pteNoExecute with (2 ^ 63). rewrite has_pow2 //. unfold dm_entry, make_entry. rewrite !Z.lor_spec Hnx.
  change (has DMFLAGS kVmExecute) with false. cbn [andb negb when_bit]. change (Z.testbit pteNoExecute 63) with true. by rewrite orb_true_r orb_true_l.
Qed.

Lemma kernel_dm pbase vbase k f0 w fl : (∀ q, q ≠ [] → Forall index_ok q → tbl f0 kmap q = None) →
  (∀ va, mapping f0 kmap va = None) → pt_ok w fl kmap → kernel_mapped feat kmap pbase vbase k f0 (phys w) →
  new_tables kmap f0 (phys w) (λ p, ∃ sec, sec ∈ section_list k ∧ in_section sec p) →
  (∀ sec p, sec ∈ section_list k → in_section sec p → above_window p) → dm (λ _, None) (phys w).
Proof.
  intros T0 M0 Ok [_ Hm] Hnt Hab. split.
  - intros v Hv n e He. pose proof (proj1 (clear_no_huge (phys w) kmap (upper v) (INDEX v 0) eq_refl) (pt_clear Ok v I) n e He) as ->.
    apply mapping_leaf in He. rewrite Hm in He; [|by rewrite M0 in He]. intros sec p Hs Hp Hsp.
    apply (above_prefix p v 0 (path4 v) (Hab _ _ Hs Hp) Hv ltac:(lia)); [done|]. unfold path4. destruct Hsp as [-> ->]. done.
  - intros v n Hv Hn. rewrite Hnt.
    + apply pre_ok. lia.
    + intros p (sec & Hs & Hp) Hpre. apply (above_prefix p v n (upper p) (Hab _ _ Hs Hp) Hv ltac:(lia) Hpre). by eexists.
    + rewrite T0; [|apply pre_ok; lia|by intros []]. by destruct Hn as [->| ->].
Qed.
End direct.

Lemma pt_zone_mono (zone zone' : Z → Prop) w fl cr3 : (∀ va, zone' va → zone va) → pt_zone zone w fl cr3 → pt_zone zone' w fl cr3.
Proof. intros H [A B C D E]. split; [done..|]. intros va Hz. by apply E, H. Qed.

(** ** The kernel's address space after boot *)
Section address_space.
Context (USABLE FRAMEBUFFER : Z) (feat : cpu_features) (hugepages : bool) (hhdm : Z).

(** What the boot loader's map, the image and the window must satisfy. *)
Record boot_layout (fuel : nat) (entries : list memmap_entry) (k : sections) : Prop := {
  bl_usable : Forall (λ e, entry_usable USABLE e → entry_range_ok e) entries;
  bl_apart : entries_apart USABLE entries;
  bl_window : Forall entry_in_window entries;
  bl_ranges : dm_apart entries;
  bl_sections : sections_ok k;
  bl_hhdm : hhdm mod psize 2 = 0 ∧ 0 ≤ hhdm ∧ 2 ^ 64 ≤ hhdm + 2 ^ 48;
  bl_above : hhdm + WINDOW ≤ PAGE_ALIGN_DOWN (text_start k);
  bl_frames : 1 + 3 * Z.of_nat (kernel_pages k) + sumZ (dm_frames hhdm) entries ≤ Z.of_nat (free_frames USABLE entries);
  bl_pages : sumZ (λ e, e_length e / PAGE_SIZE) entries < 2 ^ 64;
  bl_fuel : Forall (λ e, dm_end e - dm_base e < Z.of_nat fuel * PAGE_SIZE) entries;
}.
(** What [kmain] has built: the direct map over every entry, the sections with their
    permissions, nothing else, and nothing both writable and executable. *)
Record address_space (pbase vbase : Z) (entries : list memmap_entry) (k : sections) (kmap : Z) (f : Z → Z) : Prop := {
  as_direct : ∀ e pa, e ∈ entries → dm_base e ≤ pa < dm_end e → translates kmap f (hhdm + pa) pa;
  as_kernel : ∀ sec p, sec ∈ section_list k → in_section sec p → mapping f kmap p = Some (section_entry feat pbase vbase sec.2 p);
  as_only : ∀ va n x, leaf_at f kmap (path4 va) n x →
    (∃ sec p, sec ∈ section_list k ∧ in_section sec p ∧ same_page p va) ∨
    (∃ e pa, e ∈ entries ∧ dm_base e ≤ pa < dm_end e ∧ path4 va = path4 (hhdm + pa));
  as_wx : nx feat = true → ∀ va n x, leaf_at f kmap (path4 va) n x → has x pteWrite = true → has x pteNoExecute = true;
}.

Lemma section_above fuel entries k : boot_layout fuel entries k →
  ∀ sec p, sec ∈ section_list k → in_section sec p → above_window hhdm p.
Proof.
  intros L sec p Hs Hp. destruct (bl_sections _ _ _ L) as [Ht Hr Hd O1 O2 _]. pose proof (bl_above _ _ _ L) as Ha. destruct (bl_hhdm _ _ _ L) as (_ & _ & Hh).
  destruct (sec_bounds _ _ Ht) as (T1 & T2 & T3 & T4), (sec_bounds _ _ Hr) as (R1 & R2 & R3 & R4), (sec_bounds _ _ Hd) as (D1 & D2 & D3 & D4).
  unfold above_window. unfold section_list in Hs.
  apply elem_of_cons in Hs as [->|[->|[->|?%elem_of_nil]%elem_of_cons]%elem_of_cons]; [..|done]; destruct Hp as (j & Hj & ->); cbn [fst snd] in *; unfold PAGE_SIZE in *; lia.
Qed.
Lemma above_outside p : hhdm mod psize 2 = 0 → above_window hhdm p → outside hhdm p.
Proof. intros Hal Hp v Hv E. apply (above_prefix hhdm Hal p v 0 (path4 v) Hp Hv ltac:(lia)); [done|by rewrite E]. Qed.
Lemma address_space_of pbase vbase entries k kmap f0 w fl f : hhdm mod psize 2 = 0 → 0 ≤ hhdm → Forall entry_in_window entries →
  (∀ sec p, sec ∈ section_list k → in_section sec p → above_window hhdm p) → (∀ va, mapping f0 kmap va = None) →
  pt_ok w fl kmap → kernel_mapped feat kmap pbase vbase k f0 (phys w) →
  dm feat hhdm kmap (dm_done hhdm FRAMEBUFFER entries) f → same_outside hhdm kmap (phys w) f → address_space pbase vbase entries k kmap f.
Proof.
  intros Hal Hlo Hwin Hab M0 Ok Hm D So.
  assert (∀ va n x, outside hhdm va → leaf_at f kmap (path4 va) n x → mapping (phys w) kmap va = Some x) as Hout.
  { intros va n x Ho Hx. apply So in Hx; [|done].
    pose proof (proj1 (clear_no_huge (phys w) kmap (upper va) (INDEX va 0) eq_refl) (pt_clear Ok va I) n x Hx) as ->. by apply mapping_leaf. }
  split.
  - intros e pa He Hpa. rewrite Forall_forall in Hwin. destruct (entry_bounds e (Hwin e He)) as (B1 & B2 & B3 & B4).
    destruct (dm_done hhdm FRAMEBUFFER entries (align_down (hhdm + pa) (psize 0))) as [c|] eqn:Ec.
    + pose proof (dm_translates feat hhdm kmap Hal _ f (hhdm + pa) c D ltac:(lia) Ec) as Ht. by rewrite Z.add_simpl_l in Ht.
    + exfalso. apply (proj1 (dm_done_cover _ _ _ _) Ec e He). destruct (align_down_spec (hhdm + pa) (psize 0) (psize_pow2 0)) as [A1 A2].
      split; [|lia]. pose proof (hhdm_aligned hhdm Hal 0 (dm_base e) ltac:(lia) B3) as Hb.
      destruct (decide (hhdm + dm_base e ≤ align_down (hhdm + pa) (psize 0))); [done|].
      pose proof (aligned_gap _ (hhdm + dm_base e) _ (psize_pos 0) A1 Hb ltac:(lia)). lia.
  - intros sec p Hs Hp. rewrite -(proj1 Hm sec p Hs Hp). apply mapping_leaves. intros x. apply So, above_outside; [done|]. by eapply Hab.
  - intros va n x Hx. destruct (outside_dec hhdm Hal va) as [Ho|(v & Hv & Ev)].
    + left. destruct (sections_dec k va) as [?|Hno]; [done|]. pose proof (Hout va n x Ho Hx) as Hma. rewrite (proj2 Hm va Hno) M0 in Hma. done.
    + right. pose proof (dm_leaf _ _ _ _ _ D v Hv) as Lv. destruct (dm_done _ _ _ v) as [c|] eqn:Ec; [|rewrite Ev in Hx; by apply Lv in Hx].
      apply dm_done_some in Ec as (e & He & Hr). exists e, (v - hhdm). split_and!; [done|lia|lia|]. by replace (hhdm + (v - hhdm)) with v by lia.
  - intros Hnx va n x Hx Hw. destruct (outside_dec hhdm Hal va) as [Ho|(v & Hv & Ev)].
    + by eapply kernel_mapped_wx; [done|exact M0|exact Hm|by eapply Hout|].
    + pose proof (dm_leaf _ _ _ _ _ D v Hv) as Lv. rewrite Ev in Hx. destruct (dm_done _ _ _ v) as [c|] eqn:Ec; [|by apply Lv in Hx].
      destruct Lv as (m & Hm' & Lv). destruct (leaf_at_inj f kmap (path4 v) n x m _ eq_refl Hx Lv) as [_ ->]. by apply dm_entry_noexec.
Qed.
Lemma kmain_memory_spec fuel entries pbase vbase k w : boot_clean w → boot_layout fuel entries k →
  wp (kmain_memory USABLE FRAMEBUFFER feat hugepages hhdm fuel entries pbase vbase k) (λ '(kmap, offset) w',
    offset = wrap64 (vbase - MEM_KERNEL_BASE) ∧ (∃ fl, pt_zone (outside hhdm) w' fl kmap) ∧
    address_space pbase vbase entries k kmap (phys w')) w.
Proof.
  intros Hc L. pose proof (section_above _ _ _ L) as Hab. destruct L as [Hus Hap Hwin Hran Hk (Hal & Hlo & Hhi) Habv Hfr Hpg Hfu].
  assert (0 ≤ sumZ (dm_frames hhdm) entries) as Hpos.
  { apply sumZ_nonneg. intros x Hx. rewrite Forall_forall in Hwin. destruct (entry_bounds x (Hwin x Hx)) as (? & _).
    unfold dm_frames. pose proof (tables_nonneg (hhdm + dm_base x) (hhdm + dm_end x)). lia. }
  assert (hhdm + WINDOW ≤ 2 ^ 64) as Hend by (destruct (sec_bounds _ _ (so_text _ Hk)); unfold sec_ok in *; destruct Hk as [[? ?] _ _ _ _ _]; unfold PAGE_SIZE in *; lia).
  unfold kmain_memory. apply boot_root_spec; [done| |done|done|lia|].
  { apply Forall_forall. intros e He. rewrite Forall_forall in Hus. rewrite Forall_forall in Hwin. split; [apply (Hwin e He)|by apply Hus]. }
  intros kmap w1 fl Ok1 Hlen T0 M0. apply wp_bind. unfold early_port_map_memory. apply wp_bind.
  eapply wp_mono; [apply (remap_kernel_spec feat kmap pbase vbase k w1 fl Hk Ok1); lia|].
  intros o w2 (-> & (fl2 & Ok2 & Hlen2) & Hm & Hnt). apply wp_bind.
  pose proof (kernel_dm feat hhdm kmap Hal pbase vbase k (phys w1) w2 fl2 T0 M0 Ok2 Hm Hnt Hab) as D.
  eapply wp_mono; [apply (map_memory_spec feat hhdm kmap Hal Hlo Hend FRAMEBUFFER hugepages fuel entries w2 fl2)|].
  - by eapply pt_zone_mono; [|exact Ok2].
  - done.
  - done.
  - done.
  - lia.
  - done.
  - intros [] w3 (fl3 & Ok3 & D3 & S3). apply wp_ret, wp_ret. split_and!; [done|by exists fl3|].
    by eapply (address_space_of pbase vbase entries k kmap (phys w1) w2 fl2).
Qed.
End address_space.

(** A 4 KiB page asked for inside a 2 MiB page: the walk takes the huge page for a table,
    and the new entry is stored into the memory the huge page maps. *)
Lemma map_inside_huge feat cr3 w va paddr cache flags t : has flags kVmHuge = false → tbl (phys w) cr3 [INDEX va 3; INDEX va 2] = Some t →
  let h := phys w (t + 8 * INDEX va 1) in present h = true → huge h = true →
  wp (vm_port_map feat cr3 paddr va cache flags) (λ _ w',
    w' = m_phys (write64 (Z.land h pteAddress + 8 * INDEX va 0) (make_entry feat 0 paddr cache flags) (phys w)) w) w.
Proof.
  intros Hf Ht h Hp Hh. destruct (tbl_prefix (phys w) cr3 [INDEX va 3] (INDEX va 2) [] t Ht) as (t2 & E2 & P2 & H2).
  destruct (tbl_prefix (phys w) cr3 [] (INDEX va 3) [] t2 E2) as (t3 & [= <-] & P3 & H3).
  assert (t2 = Z.land (phys w (cr3 + 8 * INDEX va 3)) pteAddress) as ->.
  { cbn in E2. unfold next in E2. rewrite P3 H3 in E2. by injection E2. }
  assert (t = Z.land (phys w (Z.land (phys w (cr3 + 8 * INDEX va 3)) pteAddress + 8 * INDEX va 2)) pteAddress) as ->.
  { cbn in Ht. unfold next at 2 in Ht. rewrite P3 H3 /= in Ht. unfold next in Ht. rewrite P2 H2 in Ht. by injection Ht. }
  assert (∀ a fl Q, present (phys w a) = true → Q (Some (Z.land (phys w a) pteAddress)) w → wp (next_table a fl) Q w) as Hnext.
  { intros a fl Q Pa HQ. unfold next_table, ld64. apply wp_bind, wp_gets. unfold present in Pa. rewrite Pa. by apply wp_ret. }
  unfold vm_port_map. cbn [vm_port_map_rec]. rewrite Hf. unfold map_entry, pte_walk. change (has pteFlagCreateNew pteFlag1GB) with false.
  change (has pteFlagCreateNew pteFlag2MB) with false.
  do 2 apply wp_bind. apply Hnext; [done|]. apply wp_bind, Hnext; [done|]. apply wp_bind, Hnext; [done|].
  apply wp_ret, wp_bind, wp_deref. eexists. split; [done|]. by apply wp_modify.
Qed.
