(* ===== verification/Smp.v ===== *)
(** * Starting the other cores: [port_start_cores], [kernel/lib/cpudata.c]

    The boot processor tells each core where to start, then waits for all of them; the
    cores run concurrently.  A state of the machine is where the boot processor is in
    [port_start_cores], what each core has done, and the table of per-CPU data; a
    schedule says who takes the next step. *)

From S2P Require Import Prelude.

Definition MAX_CORES : nat := 16.

(** ** The table of per-CPU data *)
(** Whose data: the boot processor's, or entry [i] of [ap_data]. *)
Inductive cpu_ref := BspData | ApData (i : nat).
#[global] Instance cpu_ref_eq_dec : EqDecision cpu_ref.
Proof. solve_decision. Defined.
(** [cap] and [g_cpudatalist], whose entries are uninitialised until they are set. *)
Record cpulist := CpuList { cap : nat; g_cpudatalist : list (option cpu_ref); list_lock : bool; l_irqs : bool }.

Definition grow_list (idx : nat) (c : cpulist) : cpulist :=
  if decide (cap c < idx + 1)%nat then
    CpuList (idx + 1) (take (cap c) (g_cpudatalist c) ++ replicate (idx + 1 - cap c) None) (list_lock c) (l_irqs c)
  else c.
Definition cpudata_set (idx : nat) (data : cpu_ref) : M cpulist unit :=
  c ← get;
  let old := l_irqs c in
  if list_lock c then fail (Deadlock "list_lock") else
  put (CpuList (cap c) (g_cpudatalist c) true false);;
  modify (grow_list idx);;
  modify (λ c, CpuList (cap c) (<[idx := Some data]> (g_cpudatalist c)) (list_lock c) (l_irqs c));;
  modify (λ c, CpuList (cap c) (g_cpudatalist c) false old).

Definition cpulist_ok (c : cpulist) : Prop := length (g_cpudatalist c) = cap c ∧ list_lock c = false.
Lemma cpudata_set_spec idx data c : cpulist_ok c →
  wp (cpudata_set idx data) (λ _ c', cpulist_ok c' ∧ g_cpudatalist c' !! idx = Some (Some data) ∧
    (∀ j, j ≠ idx → (j < cap c)%nat → g_cpudatalist c' !! j = g_cpudatalist c !! j) ∧
    (cap c ≤ cap c')%nat ∧ l_irqs c' = l_irqs c) c.
Proof.
  intros [Hl Hk]. unfold cpudata_set. apply wp_bind, wp_get. rewrite Hk.
  apply wp_bind, wp_put, wp_bind, wp_modify, wp_bind, wp_modify, wp_modify. unfold grow_list, cpulist_ok. simpl.
  case_decide as Hd; simpl.
  - assert (length (take (cap c) (g_cpudatalist c) ++ replicate (idx + 1 - cap c) None) = idx + 1)%nat as Hlen.
    { rewrite length_app length_take length_replicate. lia. }
    split_and!; [by rewrite length_insert|done|apply list_lookup_insert_eq; lia| |lia|done].
    intros j Hj Hc. rewrite list_lookup_insert_ne // lookup_app_l; [rewrite length_take; lia|]. by apply lookup_take_lt.
  - split_and!; [by rewrite length_insert|done|apply list_lookup_insert_eq; lia| |lia|done].
    intros j Hj _. by rewrite list_lookup_insert_ne.
Qed.

(** ** The cores *)
(** A core waits in the boot loader, runs [port_smp_entry], or has stored [ready]. *)
Inductive ap_state := Parked | Released | Up.
#[global] Instance ap_state_eq_dec : EqDecision ap_state.
Proof. solve_decision. Defined.
Inductive bsp_pc := Starting (i : nat) | Waiting (i : nat) | Started.

Record smp := Smp { pc : bsp_pc; aps : list ap_state; table : cpulist }.
Inductive actor := Bsp | Ap (i : nat).

Section smp.
(** The local APIC ids of the cores, as the boot loader lists them. *)
Context (cpus : list nat).
Definition ncores : nat := min (length cpus) MAX_CORES.

(** The table after [cpudata_set]; the lock is free on the boot processor. *)
Definition set_table (idx : nat) (data : cpu_ref) (c : cpulist) : cpulist := state_of (cpudata_set idx data) c.
Definition start_core (i : nat) (s : smp) : smp :=
  match cpus !! i with
  | Some 0%nat => Smp (Starting (S i)) (aps s) (set_table 0 BspData (table s))
  | Some lapic_id => Smp (Starting (S i)) (<[i := Released]> (aps s)) (set_table lapic_id (ApData i) (table s))
  | None => s
  end.
Definition core_ready (i : nat) (s : smp) : bool :=
  bool_decide (cpus !! i = Some 0%nat ∨ aps s !! i = Some Up).
Definition bsp_step (s : smp) : smp :=
  match pc s with
  | Starting i => if decide (i < ncores)%nat then start_core i s else Smp (Waiting 0) (aps s) (table s)
  | Waiting i =>
      if decide (i < ncores)%nat then if core_ready i s then Smp (Waiting (S i)) (aps s) (table s) else s
      else Smp Started (aps s) (table s)
  | Started => s
  end.
(** [port_smp_entry] up to its store to [ready]. *)
Definition ap_step (i : nat) (s : smp) : smp :=
  match aps s !! i with
  | Some Released => Smp (pc s) (<[i := Up]> (aps s)) (table s)
  | _ => s
  end.
Definition smp_step (a : actor) (s : smp) : smp :=
  match a with Bsp => bsp_step s | Ap i => ap_step i s end.
Fixpoint smp_run (sched : nat → actor) (n : nat) (s : smp) : smp :=
  match n with O => s | S n => smp_step (sched n) (smp_run sched n s) end.
Definition smp_init : smp := Smp (Starting 0) (replicate (length cpus) Parked) (CpuList 0 [] false true).

(** ** What holds in every state *)
(** How many cores the boot processor has dealt with. *)
Definition begun (p : bsp_pc) : nat := match p with Starting i => i | _ => ncores end.
Definition owner (i : nat) : cpu_ref := if decide (cpus !! i = Some 0%nat) then BspData else ApData i.
Record smp_ok (s : smp) : Prop := {
  sm_aps : length (aps s) = length cpus;
  sm_begun : (begun (pc s) ≤ ncores)%nat;
  sm_wait : match pc s with Waiting i => (i ≤ ncores)%nat ∧ ∀ j, (j < i)%nat → core_ready j s = true
            | Started => ∀ j, (j < ncores)%nat → core_ready j s = true | Starting _ => True end;
  sm_started : ∀ i, (i < begun (pc s))%nat → cpus !! i ≠ Some 0%nat → aps s !! i ≠ Some Parked;
  sm_table : cpulist_ok (table s);
  sm_set : ∀ i id, (i < begun (pc s))%nat → cpus !! i = Some id → g_cpudatalist (table s) !! id = Some (Some (owner i));
}.

Context (Hnd : NoDup cpus).

Lemma smp_init_ok : smp_ok smp_init.
Proof.
  split; simpl; try done; [by rewrite length_replicate|lia|lia|lia].
Qed.
Lemma set_table_spec idx data c : cpulist_ok c → let c' := set_table idx data c in
  cpulist_ok c' ∧ g_cpudatalist c' !! idx = Some (Some data) ∧
  ∀ j x, j ≠ idx → g_cpudatalist c !! j = Some x → g_cpudatalist c' !! j = Some x.
Proof.
  intros Hok. pose proof (cpudata_set_spec idx data c Hok) as (_ & H1 & H2 & H3 & _)%wp_state_of. split_and!; [done|done|].
  intros j x Hj Hx. unfold set_table. rewrite H3 //. apply lookup_lt_Some in Hx. by rewrite (proj1 Hok) in Hx.
Qed.
Lemma ncores_lookup i : (i < ncores)%nat → ∃ id, cpus !! i = Some id.
Proof. intros Hi. unfold ncores in Hi. destruct (lookup_lt_is_Some_2 cpus i) as [id Hid]; [lia|eauto]. Qed.

(** The state after core [i] was started. *)
Lemma start_core_eq i id s : cpus !! i = Some id → start_core i s =
  Smp (Starting (S i)) (if decide (id = 0%nat) then aps s else <[i := Released]> (aps s)) (set_table id (owner i) (table s)).
Proof. intros Hid. unfold start_core, owner. rewrite Hid. by destruct id. Qed.
Lemma start_core_ok i s : (i < ncores)%nat → pc s = Starting i → smp_ok s → smp_ok (start_core i s).
Proof.
  intros Hi Hpc [Ha Hb Hw Hs Ht Hg]. destruct (ncores_lookup i Hi) as [id Hid]. rewrite (start_core_eq i id s Hid).
  rewrite Hpc in Hs, Hg. simpl in Hs, Hg. destruct (set_table_spec id (owner i) (table s) Ht) as (T1 & T2 & T3).
  split; simpl; try done.
  - case_decide; [done|by rewrite length_insert].
  - intros j Hj Hz. destruct (decide (j = i)) as [->|Hne].
    + rewrite decide_False; [congruence|]. rewrite list_lookup_insert_eq; [|done]. rewrite Ha. unfold ncores in Hi. lia.
    + case_decide; [|rewrite list_lookup_insert_ne //]; apply Hs; [lia|done|lia|done].
  - intros j id' Hj Hid'. destruct (decide (j = i)) as [->|Hne]; [by simplify_eq|].
    apply T3; [|apply Hg; [lia|done]]. intros ->. apply Hne. by eapply NoDup_lookup.
Qed.
Lemma ap_step_ok i s : smp_ok s → smp_ok (ap_step i s).
Proof.
  intros [Ha Hb Hw Hs Ht Hg]. unfold ap_step. destruct (aps s !! i) as [[]|] eqn:Ei; try (by split).
  assert (∀ j, core_ready j s = true → core_ready j (Smp (pc s) (<[i := Up]> (aps s)) (table s)) = true) as Hr.
  { intros j. unfold core_ready. rewrite !bool_decide_eq_true. simpl. intros [?|Hj]; [by left|right].
    rewrite list_lookup_insert_ne //. intros <-. congruence. }
  split; simpl; try done; [by rewrite length_insert| |].
  - destruct (pc s); [done|destruct Hw as [? Hw]; split; [done|]|]; auto.
  - intros j Hj Hz. destruct (decide (j = i)) as [->|Hne]; [|rewrite list_lookup_insert_ne //; by apply Hs].
    rewrite list_lookup_insert_eq //. by eapply lookup_lt_Some.
Qed.
Lemma bsp_step_ok s : smp_ok s → smp_ok (bsp_step s).
Proof.
  intros Ok. pose proof Ok as [Ha Hb Hw Hs Ht Hg]. unfold bsp_step. destruct (pc s) as [i|i|] eqn:Hpc; [..|done].
  - case_decide; [by apply start_core_ok|]. assert (i = ncores) as -> by (simpl in Hb; lia).
    simpl in Hs, Hg. split; simpl; try done. split; [lia|]. intros j Hj. lia.
  - destruct Hw as [Hi Hw]. case_decide as Hd.
    + destruct (core_ready i s) eqn:Er; [|done]. split; simpl; try done. split; [lia|]. intros j Hj.
      destruct (decide (j = i)) as [->|]; [exact Er|]. apply Hw. lia.
    + split; simpl; try done. intros j Hj. apply Hw. lia.
Qed.
Lemma smp_step_ok a s : smp_ok s → smp_ok (smp_step a s).
Proof. destruct a; [apply bsp_step_ok|apply ap_step_ok]. Qed.
Lemma smp_run_ok sched n : smp_ok (smp_run sched n smp_init).
Proof. induction n as [|n IH]; simpl; [apply smp_init_ok|by apply smp_step_ok]. Qed.

(** ** Every core comes up *)
Definition bsp_left (p : bsp_pc) : nat :=
  match p with Starting i => (ncores - i) + ncores + 2 | Waiting i => (ncores - i) + 1 | Started => 0 end.
Definition ap_left (a : ap_state) : nat := match a with Parked => 2 | Released => 1 | Up => 0 end.
(** What is left to do; a step either does some of it or changes nothing. *)
Definition smp_left (s : smp) : nat := 3 * bsp_left (pc s) + sum_list_with ap_left (aps s).

Lemma aps_left_insert l i a b : l !! i = Some b →
  (sum_list_with ap_left (<[i := a]> l) + ap_left b = sum_list_with ap_left l + ap_left a)%nat.
Proof.
  revert i. induction l as [|x l IH]; intros [|i] Hi; simplify_eq/=; [lia|]. specialize (IH i Hi). lia.
Qed.
Lemma start_core_left i s : (i < ncores)%nat → pc s = Starting i → smp_ok s → (smp_left (start_core i s) < smp_left s)%nat.
Proof.
  intros Hi Hpc [Ha _ _ _ _ _]. destruct (ncores_lookup i Hi) as [id Hid]. rewrite (start_core_eq i id s Hid).
  unfold smp_left. rewrite Hpc. simpl. case_decide; [lia|]. destruct (lookup_lt_is_Some_2 (aps s) i) as [b Hb].
  { rewrite Ha. unfold ncores in Hi. lia. }
  pose proof (aps_left_insert (aps s) i Released b Hb). simpl in *. lia.
Qed.
Lemma smp_step_left a s : smp_ok s → smp_step a s = s ∨ (smp_left (smp_step a s) < smp_left s)%nat.
Proof.
  intros Ok. destruct a as [|i]; simpl.
  - unfold bsp_step. destruct (pc s) as [i|i|] eqn:Hpc; [..|by left].
    + right. case_decide; [by apply start_core_left|]. unfold smp_left. rewrite Hpc. simpl. lia.
    + case_decide; [destruct (core_ready i s); [|by left]|]; right; unfold smp_left; rewrite Hpc; simpl; lia.
  - unfold ap_step. destruct (aps s !! i) as [[]|] eqn:Ei; [by left| |by left|by left]. right. unfold smp_left. simpl.
    pose proof (aps_left_insert (aps s) i Up _ Ei). simpl in *. lia.
Qed.
(** The boot processor and the cores it starts. *)
Definition takes_part (a : actor) : Prop := match a with Bsp => True | Ap i => (i < ncores)%nat end.
(** One of them can always do something until the boot processor is done. *)
Lemma smp_progress s : smp_ok s → pc s ≠ Started → ∃ a, takes_part a ∧ (smp_left (smp_step a s) < smp_left s)%nat.
Proof.
  intros Ok Hn. destruct (pc s) as [i|i|] eqn:Hpc; [..|done].
  - exists Bsp. split; [done|]. simpl. unfold bsp_step. rewrite Hpc. case_decide; [by apply start_core_left|].
    unfold smp_left. rewrite Hpc. simpl. lia.
  - destruct (decide (i < ncores)%nat) as [Hi|Hi].
    + destruct (core_ready i s) eqn:Er.
      * exists Bsp. split; [done|]. simpl. unfold bsp_step. rewrite Hpc decide_True // Er. unfold smp_left. rewrite Hpc. simpl. lia.
      * exists (Ap i). split; [done|]. simpl. unfold core_ready in Er. apply bool_decide_eq_false in Er.
        destruct (ncores_lookup i Hi) as [id Hid]. destruct (lookup_lt_is_Some_2 (aps s) i) as [b Hb].
        { rewrite (sm_aps _ Ok). unfold ncores in Hi. lia. }
        assert (aps s !! i ≠ Some Parked) as Hp.
        { apply (sm_started _ Ok); [by rewrite Hpc|]. intros Hz. apply Er. by left. }
        unfold ap_step. rewrite Hb. destruct b; [by destruct Hp| |by destruct Er; right].
        unfold smp_left. simpl. pose proof (aps_left_insert (aps s) i Up _ Hb). simpl in *. lia.
    + exists Bsp. split; [done|]. simpl. unfold bsp_step. rewrite Hpc decide_False //. unfold smp_left. rewrite Hpc. simpl. lia.
Qed.

(** Everybody takes a step again and again. *)
Definition fair (sched : nat → actor) : Prop :=
  ∀ a n, takes_part a → ∃ m, (n ≤ m)%nat ∧ sched m = a.

Lemma smp_run_left sched n m : (n ≤ m)%nat → smp_run sched m smp_init = smp_run sched n smp_init ∨
  (smp_left (smp_run sched m smp_init) < smp_left (smp_run sched n smp_init))%nat.
Proof.
  induction 1 as [|m Hm IH]; [by left|]. simpl.
  destruct (smp_step_left (sched m) _ (smp_run_ok sched m)) as [->|Hlt]; [done|right]. destruct IH as [<-|?]; lia.
Qed.
Lemma smp_reaches_started sched : fair sched → ∃ n, pc (smp_run sched n smp_init) = Started.
Proof.
  intros Hfair. enough (∀ k n, (smp_left (smp_run sched n smp_init) ≤ k)%nat → ∃ m, pc (smp_run sched m smp_init) = Started) as H.
  { exact (H _ 0%nat (le_n _)). }
  induction k as [|k IH]; intros n Hk.
  all: destruct (pc (smp_run sched n smp_init)) eqn:Hpc; [..|by exists n].
  all: destruct (smp_progress _ (smp_run_ok sched n)) as (a & Hp & Ha); [by rewrite Hpc|].
  all: try lia.
  all: destruct (Hfair a n Hp) as (m & Hm & Hs).
  all: apply (IH (S m)); simpl; rewrite Hs.
  all: destruct (smp_run_left sched n m Hm) as [->|Hlt]; [lia|].
  all: destruct (smp_step_left a _ (smp_run_ok sched m)) as [->|]; lia.
Qed.
End smp.
