(* ===== verification/BootProps.v ===== *)
(** * Boot: properties *)

From S2P Require Import Prelude Pm Paging Kmem Boot Direct Smp.

(** ** The kernel's address space *)

(** The memory part of boot, from the boot loader's map to the kernel's own address
    space.  Given usable memory that is page aligned and does not overlap, and sections
    on pages of their own, building the page frame allocator and mapping the kernel ends;
    then every page of every section maps to its place in the loaded image with the
    section's permissions, nothing else is mapped, the page tables form a tree of frames
    taken from the allocator, and with the no-execute feature no page is both writable
    and executable.  One frame for the root and three per page are enough. *)
Theorem boot_maps_kernel USABLE feat entries pbase vbase k w : boot_clean w →
  Forall (λ e, 0 ≤ e_length e ∧ (entry_usable USABLE e → entry_range_ok e)) entries → entries_apart USABLE entries →
  sumZ (λ e, e_length e / PAGE_SIZE) entries < 2 ^ 64 → sections_ok k →
  (1 + 3 * kernel_pages k ≤ free_frames USABLE entries)%nat → nx feat = true →
  wp (pm_init;; early_port_add_pmem USABLE entries;; kmap ← vm_port_init_map;
      remap_kernel feat kmap pbase vbase k;; mret kmap) (λ kmap w',
    (∃ fl, pt_ok w' fl kmap) ∧
    (∀ sec p, sec ∈ section_list k → in_section sec p →
       mapping (phys w') kmap p = Some (section_entry feat pbase vbase sec.2 p)) ∧
    (∀ va, (∀ sec p, sec ∈ section_list k → in_section sec p → ¬ same_page p va) → mapping (phys w') kmap va = None) ∧
    wx_apart (phys w') kmap) w.
Proof.
  intros Hc Hall Hap Hsum Hk Hfr Hnx.
  eapply wp_mono; [by apply (boot_kernel_spec USABLE feat entries pbase vbase k w)|].
  intros kmap w' (Hfl & f0 & H0 & Hm). split; [done|]. split; [apply Hm|]. split; [|by eapply kernel_mapped_wx].
  intros va Hva. by rewrite (proj2 Hm va Hva).
Qed.

(** Sixteen usable pages at 1 MiB, the kernel image at 2 MiB with one page per section. *)
Definition entries0 : list memmap_entry := [Entry 0 0x1000 1; Entry 0x100000 0x10000 0].
Definition sections0 : sections :=
  Sections 0xffffffff80000000 0xffffffff80000fff 0xffffffff80001000 0xffffffff80001800 0xffffffff80002010 0xffffffff80002ff8.
Definition boot0 : mworld := MWorld [] [] false 0 0 ∅ (λ _, 0xff).
Lemma sections0_ok : sections_ok sections0.
Proof. split; (split || idtac); vm_compute; intuition congruence. Qed.
Lemma boot_maps_kernel_witness :
  wp (pm_init;; early_port_add_pmem 0 entries0;; kmap ← vm_port_init_map;
      remap_kernel (Features false true true) kmap 0x200000 0xffffffff80000000 sections0;; mret kmap) (λ kmap w',
    mapping (phys w') kmap 0xffffffff80002000 =
      Some (section_entry (Features false true true) 0x200000 0xffffffff80000000 (Z.lor kVmAll kVmGlobal) 0xffffffff80002000) ∧
    wx_apart (phys w') kmap) boot0.
Proof.
  eapply wp_mono; [apply (boot_maps_kernel 0 (Features false true true) entries0 0x200000 0xffffffff80000000 sections0 boot0)|].
  - by_eval.
  - repeat apply Forall_cons_2; [..|constructor]; (split; [done|]); [intros [=]|]. intros _. by_eval.
  - intros [|[|i]] [|[|j]] e1 e2 H1 H2 Hne U1 U2; cbv in H1, H2; simplify_eq; cbv in U1, U2; congruence.
  - vm_compute. reflexivity.
  - exact sections0_ok.
  - vm_compute. lia.
  - reflexivity.
  - intros kmap w' (_ & Hm & _ & Hwx). split; [|exact Hwx].
    apply (Hm (0xffffffff80002010, 0xffffffff80002ff8, Z.lor kVmAll kVmGlobal)); [do 2 right; left|].
    exists 0. split; [vm_compute; intuition congruence|reflexivity].
Defined.

(** C10: The memory part of [kmain], from the boot loader's map to the kernel's own
    address space, with huge pages or without.  Given entries below [2 ^ 46] whose pages
    do not overlap, usable memory that is page aligned, sections on pages of their own
    above the window, and frames for the tables (one for the root, three per page of the
    image, and for an entry three and one per block of 2 MiB, 1 GiB and 512 GiB that begins
    in it), it ends, every loop included; then each byte of each entry whose base is page
    aligned is found by the processor at [REAL_HHDM_START] plus its address, whatever the
    size of the page that maps it, and of an entry that is not aligned the bytes from the
    page of its base up to the rounded length ([dm_end]), which can leave out bytes of its
    last page; each page of the image maps to its place with the permissions of its section;
    nothing else is mapped; with the no-execute feature nothing is both writable and
    executable; and the tables are distinct frames of the allocator, ready for the pages
    the kernel maps later outside the window. *)
Theorem kmain_maps_memory USABLE FRAMEBUFFER feat hugepages hhdm fuel entries pbase vbase k w :
  boot_clean w → boot_layout USABLE hhdm fuel entries k →
  wp (kmain_memory USABLE FRAMEBUFFER feat hugepages hhdm fuel entries pbase vbase k) (λ '(kmap, offset) w',
    offset = wrap64 (vbase - MEM_KERNEL_BASE) ∧ (∃ fl, pt_zone (outside hhdm) w' fl kmap) ∧
    (∀ e pa, e ∈ entries → e_base e mod PAGE_SIZE = 0 → e_base e ≤ pa < e_base e + e_length e →
       translates kmap (phys w') (hhdm + pa) pa) ∧
    address_space feat hhdm pbase vbase entries k kmap (phys w')) w.
Proof.
  intros Hc L. eapply wp_mono; [by apply kmain_memory_spec|]. intros [kmap offset] w' (Ho & Hz & A). split_and!; [done|done| |done].
  intros e pa He Ha Hpa. eapply (as_direct _ _ _ _ _ _ _ _ A); [done|]. apply aligned_covered; [|done|done].
  exact (proj1 (Forall_forall _ _) (bl_window _ _ _ _ _ L) e He).
Qed.

(** A machine with low memory, 15 MiB of usable memory and a reserved range that takes
    pages of all three sizes. *)
Definition entries1 : list memmap_entry := [Entry 0 0x9f000 1; Entry 0x100000 0xf00000 0; Entry 0x40000000 0x40201000 1].
Definition hhdm1 : Z := 0xffff800000000000.
Lemma layout1 : boot_layout 0 hhdm1 (Z.to_nat 300000) entries1 sections0.
Proof.
  split; [repeat apply Forall_cons_2; [..|constructor]; (done || (intros _; by_eval))| | | |exact sections0_ok| | | | |].
  - intros [|[|[|i]]] [|[|[|j]]] e1 e2 H1 H2 Hne U1 U2; cbv in H1, H2; simplify_eq; cbv in U1, U2; congruence.
  - repeat apply Forall_cons_2; [..|constructor]; vm_compute; intuition congruence.
  - intros [|[|[|i]]] [|[|[|j]]] e1 e2 H1 H2 Hne; cbv in H1, H2; simplify_eq; vm_compute; intuition congruence.
  - vm_compute. intuition congruence.
  - vm_compute. intuition congruence.
  - vm_compute. intuition congruence.
  - vm_compute. reflexivity.
  - rewrite Z2Nat.id //. repeat apply Forall_cons_2; [..|constructor]; vm_compute; reflexivity.
Qed.
Lemma kmain_maps_memory_witness :
  wp (kmain_memory 0 7 (Features true true true) true hhdm1 (Z.to_nat 300000) entries1 0x200000 0xffffffff80000000 sections0)
    (λ '(kmap, offset) w', offset = 0 ∧ translates kmap (phys w') 0xffff800055555555 0x55555555 ∧
       translates kmap (phys w') 0xffff800080200123 0x80200123) boot0.
Proof.
  eapply wp_mono; [apply (kmain_maps_memory 0 7 (Features true true true) true hhdm1 (Z.to_nat 300000) entries1 0x200000 0xffffffff80000000 sections0 boot0)|].
  - by_eval.
  - exact layout1.
  - intros [kmap offset] w' (-> & _ & A & _). split; [reflexivity|].
    assert (∀ pa, 0x40000000 ≤ pa < 0x80201000 → translates kmap (phys w') (hhdm1 + pa) pa) as Ht.
    { intros pa Hpa. apply (A (Entry 0x40000000 0x40201000 1) pa); [do 2 right; left|reflexivity|exact Hpa]. }
    split; [exact (Ht 0x55555555 ltac:(lia))|exact (Ht 0x80200123 ltac:(lia))].
Defined.

(** ** The other cores *)

(** C20: [port_start_cores] ends, however the cores' steps interleave, as long as each of
    them keeps running: the boot processor finds every core up, each of the first sixteen
    cores has run its entry up to the store to [ready], and [g_cpudatalist] names under
    each local APIC id the data of that core. *)
Theorem port_start_cores_completes cpus sched : NoDup cpus → fair cpus sched →
  ∃ n, let s := smp_run cpus sched n (smp_init cpus) in
    pc s = Started ∧ ∀ i id, (i < ncores cpus)%nat → cpus !! i = Some id →
      (id ≠ 0%nat → aps s !! i = Some Up) ∧ g_cpudatalist (table s) !! id = Some (Some (owner cpus i)).
Proof.
  intros Hnd Hf. destruct (smp_reaches_started cpus Hnd sched Hf) as [n Hn]. exists n. split; [done|].
  intros i id Hi Hid. destruct (smp_run_ok cpus Hnd sched n) as [_ _ Hw _ _ Hg]. rewrite Hn in Hw, Hg. split; [|by apply Hg].
  intros Hz. specialize (Hw i Hi). unfold core_ready in Hw. apply bool_decide_eq_true in Hw as [Hw|Hw]; [congruence|done].
Qed.

(** Three cores that take turns with the boot processor. *)
Definition turns (n : nat) : actor :=
  match (n mod 4)%nat with O => Bsp | S i => Ap i end.
Lemma turns_fair : fair [0; 2; 1]%nat turns.
Proof.
  intros a n Ha. exists (4 * n + match a with Bsp => 0 | Ap i => S i end)%nat. split; [lia|]. unfold turns.
  rewrite Nat.add_comm Nat.mul_comm Nat.Div0.mod_add. destruct a as [|i]; [done|]. unfold takes_part, ncores in Ha. simpl in Ha.
  by destruct i as [|[|[|i]]]; [..|lia].
Qed.
Lemma port_start_cores_completes_witness :
  ∃ n, let s := smp_run [0; 2; 1]%nat turns n (smp_init [0; 2; 1]%nat) in
    pc s = Started ∧ g_cpudatalist (table s) !! 2%nat = Some (Some (ApData 1)).
Proof.
  destruct (port_start_cores_completes [0; 2; 1]%nat turns) as (n & Hn & Hall).
  - by_eval.
  - exact turns_fair.
  - exists n. split; [exact Hn|]. destruct (Hall 1%nat 2%nat) as [_ H]; [vm_compute; lia|reflexivity|]. exact H.
Defined.
