(* ===== verification/Cpudata.v ===== *)
(** * Setting up the data of a core: [kernel/lib/std.c]

    [cpudata_setup] clears the whole structure, the objects embedded in it included, and
    initialises what a core needs before its timers are set up. *)

From S2P Require Import Prelude Core Dpc Timer Sched.

Section cpudata.
Context {H : Type} `{TimerHeap H}.
Notation K := (kworld H).

(** [memset(cpudata, 0, sizeof(cpudata_t))]: the fields, the scheduler, the timer engine
    and the embedded DPCs, timer and idle thread.  The level and the interrupt flag are
    registers. *)
Definition clear_cpudata (done_queue_dpc : nat) : M K unit :=
  c ← gets kcpu;
  s ← gets ksched;
  upd_cpu (λ c, Cpu (irql c) (ints c) 0 [] 0 None None (idle_thread c) 0 (timer_update c) 0);;
  upd_sched (λ s, Sched (replicate PRIORITY_COUNT []) 0 (preemption_dpc s) (preemption_timer s));;
  st Dpcs done_queue_dpc (Dpc None None None false);;
  st Dpcs (timer_update c) (Dpc None None None false);;
  st Dpcs (preemption_dpc s) (Dpc None None None false);;
  st Timers (preemption_timer s) (Timer None 0 kTimerUnused false);;
  st Objs (preemption_timer s) (ObjHeader 0 None 0 0 0 []);;
  SPINLOCK_INIT sched_lock;;
  SPINLOCK_INIT dpc_lock;;
  SPINLOCK_INIT engine_lock;;
  modify (k_heap heap_init).
(** [next_cpu_id] is what the atomic increment returned. *)
Definition cpudata_setup (next_cpu_id : Z) (done_queue_dpc : nat) : M K unit :=
  clear_cpudata done_queue_dpc;;
  upd_cpu (λ c, Cpu (irql c) (ints c) (softint_pending c) (dpcq c) (dpc_count c) (thread_current c) (thread_next c)
    (idle_thread c) (wrap16 next_cpu_id) (timer_update c) (next_deadline c));;
  upd_cpu (set_pending 0);;
  upd_cpu (λ c, set_dpcq [] (dpc_count c) c);;
  sched_init;;
  upd_cpu (set_next None);;
  upd_cpu (set_current None);;
  dpc_init done_queue_dpc done_queue_dpc_fn;;
  upd_cpu (set_next_deadline UINT64_MAX).

(** The DPCs embedded in the structure are three different objects. *)
Definition embedded (dq : nat) (w : K) : Prop :=
  dq ≠ timer_update (kcpu w) ∧ dq ≠ preemption_dpc (ksched w) ∧ timer_update (kcpu w) ≠ preemption_dpc (ksched w).
Lemma cpudata_setup_spec id dq (w : K) : embedded dq w →
  wp (cpudata_setup id dq) (λ _ w', dpcq (kcpu w') = [] ∧ dpc_count (kcpu w') = 0 ∧ softint_pending (kcpu w') = 0 ∧
    cpu_id (kcpu w') = wrap16 id ∧ run_queues (ksched w') = replicate PRIORITY_COUNT [] ∧ run_mask (ksched w') = 0 ∧
    thread_current (kcpu w') = None ∧ thread_next (kcpu w') = None ∧ next_deadline (kcpu w') = UINT64_MAX ∧
    timer_update (kcpu w') = timer_update (kcpu w) ∧
    dpcs w' !! dq = Some (Dpc (Some done_queue_dpc_fn) None None false) ∧
    dpcs w' !! preemption_dpc (ksched w) = Some (Dpc (Some preemption_dpc_fn) None None false) ∧
    dpcs w' !! timer_update (kcpu w) = Some (Dpc None None None false) ∧
    dpc_lock ∉ locks w' ∧ sched_lock ∉ locks w' ∧ engine_lock ∉ locks w' ∧ done_queue w' = []) w.
Proof.
  intros (N1 & N2 & N3). unfold cpudata_setup, clear_cpudata, sched_init, dpc_init, timer_init, obj_init, SPINLOCK_INIT.
  repeat k_step. split_and!; try done; first [by simplify_map_eq | set_solver].
Qed.

(** Until [time_init] ran on this core, the timer DPC has no function: the first clock
    interrupt that queues it makes the next [dpc_run_queue] call a null pointer. *)
Lemma timer_dpc_null call fuel (w : K) q : dpcq (kcpu w) = timer_update (kcpu w) :: q →
  dpcs w !! timer_update (kcpu w) = Some (Dpc None None None true) → dpc_lock ∉ locks w →
  dpc_run_queue call (S fuel) w = Panic (NullDeref "dpc->function").
Proof.
  intros Hq Hd Hl. cbn [dpc_run_queue]. apply bind_panic. unfold dpc_take.
  assert (wp acquire_dpc_lock (λ _ w', dpcs w' = dpcs w ∧ dpcq (kcpu w') = dpcq (kcpu w)) w) as Hw.
  { unfold acquire_dpc_lock. by repeat k_step. }
  eapply bind_wp; [exact Hw|]. intros b w' [Ed Eq]. apply bind_ends, wp_get. rewrite Eq Hq.
  rewrite -Ed in Hd. apply bind_ends. eapply wp_ld; [exact Hd|]. by apply bind_panic.
Qed.
End cpudata.
