(* ===== verification/Platform.v ===== *)
(** * The amd64 processor and its devices: [kernel/platform/amd64]

    Descriptor tables as the bytes the processor reads, the model-specific and control
    registers a core is brought up with, the local APIC and the HPET as memory-mapped
    registers, and the serial port.  A device register is a value at an offset; what a
    device reads as over time is an argument. *)

From S2P Require Import Prelude Pm Paging.

(** ** Little-endian fields of a packed structure *)
Definition wr8 (o : nat) (v : Z) (l : list Z) : list Z := <[o := wrap8 v]> l.
Fixpoint wr_le (n o : nat) (v : Z) (l : list Z) : list Z :=
  match n with O => l | S n => wr_le n (S o) (Z.shiftr v 8) (wr8 o v l) end.
Fixpoint rd_le (n o : nat) (l : list Z) : Z :=
  match n with O => 0 | S n => nth o l 0 + 2 ^ 8 * rd_le n (S o) l end.

(** What [wr_le] stores and [rd_le] reads back. *)
Fixpoint le_val (n : nat) (v : Z) : Z :=
  match n with O => 0 | S n => wrap8 v + 2 ^ 8 * le_val n (Z.shiftr v 8) end.
Lemma le_val_eq n v : le_val n v = v mod 2 ^ (8 * Z.of_nat n).
Proof.
  revert v. induction n as [|n IH]; intros v; [by rewrite Z.mod_1_r|].
  cbn [le_val]. rewrite IH Z.shiftr_div_pow2 //. unfold wrap8.
  replace (8 * Z.of_nat (S n)) with (8 + 8 * Z.of_nat n) by lia. rewrite Z.pow_add_r; [lia..|].
  rewrite Z.rem_mul_r; lia.
Qed.

(** ** [gdt.c] *)
Module Gdt.
Definition kGdtNull : nat := 0.
Definition kGdtKernelCode : nat := 1.
Definition kGdtKernelData : nat := 2.
Definition kGdtUserData : nat := 3.
Definition kGdtUserCode : nat := 4.
Definition kGdtTss : nat := 5.

(** [gdt_t]: four entries of 8 bytes and the 16 bytes of the TSS descriptor. *)
Definition SIZEOF_GDT : nat := 48.
Definition TSS_OFFSET : nat := 32.
Record gdtw := GdtW { g_gdt : list Z; g_tsslock : bool; task_register : option Z }.
Definition on_gdt (f : list Z → list Z) : M gdtw unit :=
  modify (λ w, GdtW (f (g_gdt w)) (g_tsslock w) (task_register w)).

(** [gdt->entries[index]] is the bytes from [8 * index], also for an index past the end
    of the array. *)
Definition gdt_make_entry (index : nat) (base limit access granularity : Z) : M gdtw unit :=
  let o := (8 * index)%nat in
  on_gdt (wr_le 2 o limit);;
  on_gdt (wr8 (o + 5) access);;
  on_gdt (wr8 (o + 6) granularity);;
  on_gdt (wr_le 2 (o + 2) base);;
  on_gdt (wr8 (o + 4) (Z.shiftr base 16));;
  on_gdt (wr8 (o + 7) (Z.shiftr base 24)).
(** The fields [length], [low], [mid], [access], [flags], [high], [upper], [rsv]. *)
Definition gdt_tss_entry : M gdtw unit :=
  on_gdt (wr_le 2 TSS_OFFSET 104);;
  on_gdt (wr8 (TSS_OFFSET + 5) 0x89);;
  on_gdt (wr8 (TSS_OFFSET + 6) 0);;
  on_gdt (wr_le 4 (TSS_OFFSET + 12) 0);;
  on_gdt (wr_le 2 (TSS_OFFSET + 2) 0);;
  on_gdt (wr8 (TSS_OFFSET + 4) 0);;
  on_gdt (wr8 (TSS_OFFSET + 7) 0);;
  on_gdt (wr_le 4 (TSS_OFFSET + 8) 0).
Definition cpu_gdt_init : M gdtw unit :=
  modify (λ w, GdtW (g_gdt w) false (task_register w));;
  on_gdt (λ _, replicate SIZEOF_GDT 0);;
  gdt_make_entry kGdtNull 0 0 0 0;;
  gdt_make_entry kGdtKernelCode 0 0 0x9a 0x20;;
  gdt_make_entry kGdtKernelData 0 0 0x92 0;;
  gdt_make_entry kGdtUserData 0 0 0xf2 0;;
  gdt_make_entry kGdtUserCode 0 0 0xfa 0x20;;
  gdt_tss_entry.
(** The pseudo-descriptor [lgdt] loads: limit and base. *)
Definition cpu_gdt_load (g_gdt_address : Z) : Z * Z * Z * Z :=
  (Z.of_nat SIZEOF_GDT - 1, g_gdt_address, Z.of_nat kGdtKernelCode * 8, Z.of_nat kGdtKernelData * 8).
Definition cpu_tss_load (tss_addr : Z) : M gdtw unit :=
  w ← get;
  if g_tsslock w then fail (Deadlock "g_tsslock") else
  put (GdtW (g_gdt w) true (task_register w));;
  on_gdt (wr_le 2 (TSS_OFFSET + 2) tss_addr);;
  on_gdt (wr8 (TSS_OFFSET + 4) (Z.shiftr tss_addr 16));;
  on_gdt (wr8 (TSS_OFFSET + 7) (Z.shiftr tss_addr 24));;
  on_gdt (wr_le 4 (TSS_OFFSET + 8) (Z.shiftr tss_addr 32));;
  on_gdt (wr8 (TSS_OFFSET + 6) 0);;
  on_gdt (wr8 (TSS_OFFSET + 5) 0x89);;
  on_gdt (wr_le 4 (TSS_OFFSET + 12) 0);;
  modify (λ w, GdtW (g_gdt w) false (Some (Z.of_nat kGdtTss * 8))).

(** *** What the processor finds *)
(** The base address a descriptor of 16 bytes at [o] holds. *)
Definition system_base (o : nat) (l : list Z) : Z :=
  rd_le 2 (o + 2) l + 2 ^ 16 * nth (o + 4) l 0 + 2 ^ 24 * nth (o + 7) l 0 + 2 ^ 32 * rd_le 4 (o + 8) l.
Definition access (selector : nat) (l : list Z) : Z := nth (8 * selector + 5) l 0.
Definition gdt0 : list Z := g_gdt (state_of cpu_gdt_init (GdtW [] false None)).
Lemma cpu_gdt_init_spec w : cpu_gdt_init w = Ok (tt, GdtW gdt0 false (task_register w)).
Proof. reflexivity. Qed.
(** The descriptor of user code lies where the TSS descriptor is written: the selector
    names a busy system segment, and the TSS selector lies outside the table. *)
Lemma user_code_overwritten : access kGdtKernelCode gdt0 = 0x9a ∧ access kGdtKernelData gdt0 = 0x92 ∧
  access kGdtUserData gdt0 = 0xf2 ∧ access kGdtUserCode gdt0 = 0x89 ∧
  (cpu_gdt_load 0).1.1.1 < Z.of_nat kGdtTss * 8 + 15.
Proof. by vm_compute. Qed.

(** The TSS descriptor holds the address of the TSS. *)
Lemma cpu_tss_load_spec tss_addr : 0 ≤ tss_addr < 2 ^ 64 →
  wp (cpu_tss_load tss_addr) (λ _ w, system_base TSS_OFFSET (g_gdt w) = tss_addr ∧ nth (TSS_OFFSET + 5) (g_gdt w) 0 = 0x89 ∧
    g_tsslock w = false ∧ take 32 (g_gdt w) = take 32 gdt0) (GdtW gdt0 false None).
Proof.
  intros Ht. unfold cpu_tss_load, on_gdt. apply wp_bind, wp_get. cbn [g_tsslock].
  apply wp_bind, wp_put. do 7 apply wp_bind, wp_modify. apply wp_modify. cbn [g_gdt g_tsslock task_register].
  split; [|split_and!; reflexivity].
  transitivity (le_val 8 tss_addr); [|rewrite le_val_eq Z.mod_small //].
  let l := eval vm_compute in gdt0 in change gdt0 with l.
  unfold system_base. cbn -[wrap8 Z.shiftr Z.pow Z.add Z.mul]. rewrite !Z.shiftr_shiftr //.
  change (8 + 8) with 16. change (16 + 8) with 24. change (24 + 8) with 32. lia.
Qed.
End Gdt.

(** ** [int.c]: the interrupt descriptor table *)
Module Idt.
Record idt_entry_t := IdtEntry {
  isr_low : Z; kernel_cs : Z; ist : Z; attributes : Z; isr_mid : Z; isr_high : Z; rsv : Z;
}.
Definition idt_make_entry (isr : Z) : idt_entry_t :=
  IdtEntry (wrap16 isr) (Z.of_nat Gdt.kGdtKernelCode * 8) 0 0x8E (wrap16 (Z.shiftr isr 16)) (wrap32 (Z.shiftr isr 32)) 0.
Definition idt_set_ist (n : Z) (e : idt_entry_t) : idt_entry_t :=
  IdtEntry (isr_low e) (kernel_cs e) n (attributes e) (isr_mid e) (isr_high e) (rsv e).
Definition cpu_idt_init (itable : nat → Z) : list idt_entry_t :=
  let t := (λ i, idt_make_entry (itable i)) <$> seq 0 256 in
  let t := alter (idt_set_ist 1) 2%nat t in
  let t := alter (idt_set_ist 2) 1%nat t in
  let t := alter (idt_set_ist 2) 3%nat t in
  alter (idt_set_ist 3) 8%nat t.
Definition cpu_idt_load (g_idt_address : Z) : Z * Z := (16 * 256 - 1, g_idt_address).

(** The address the processor jumps to. *)
Definition gate_target (e : idt_entry_t) : Z := isr_low e + 2 ^ 16 * isr_mid e + 2 ^ 32 * isr_high e.
Lemma gate_target_make isr : 0 ≤ isr < 2 ^ 64 → gate_target (idt_make_entry isr) = isr.
Proof.
  intros Hi. unfold gate_target, idt_make_entry, wrap16, wrap32. simpl. rewrite !Z.shiftr_div_pow2 //.
  rewrite (Z.mod_small (isr / 2 ^ 32)); [split; [apply Z.div_pos; lia|apply Z.div_lt_upper_bound; lia]|].
  pose proof (Z.div_mod isr (2 ^ 16) ltac:(lia)). pose proof (Z.div_mod (isr / 2 ^ 16) (2 ^ 16) ltac:(lia)).
  rewrite Z.div_div // in H0. change (2 ^ 16 * 2 ^ 16) with (2 ^ 32) in *. lia.
Qed.

(** Every vector's gate leads to its stub, on the kernel's code segment; the four
    vectors that can come at any time have stacks of their own. *)
Definition ist_of (i : nat) : Z :=
  if decide (i = 2%nat) then 1 else if decide (i = 1%nat ∨ i = 3%nat) then 2 else if decide (i = 8%nat) then 3 else 0.
Lemma cpu_idt_init_spec itable i : (i < 256)%nat → 0 ≤ itable i < 2 ^ 64 →
  ∃ e, cpu_idt_init itable !! i = Some e ∧ gate_target e = itable i ∧ kernel_cs e = 8 ∧ attributes e = 0x8E ∧ ist e = ist_of i.
Proof.
  intros Hi Ha. unfold cpu_idt_init.
  assert (((λ i, idt_make_entry (itable i)) <$> seq 0 256) !! i = Some (idt_make_entry (itable i))) as E.
  { rewrite list_lookup_fmap lookup_seq_lt //. }
  exists (idt_set_ist (ist_of i) (idt_make_entry (itable i))). split; [|split_and!; try done; by apply gate_target_make].
  unfold ist_of.
  rewrite !list_lookup_alter E /=.
  repeat case_decide; try lia; by subst.
Qed.
End Idt.

(** ** [asm.h], [cpuid.h] and [entry.c]: registers of a core and how they are set up *)
Module Cpu.
Definition kMsrLapicBase : Z := 0x1B.
Definition kMsrPAT : Z := 0x277.
Definition kMsrEfer : Z := 0xC0000080.
Definition kMsrGsBase : Z := 0xC0000101.

(** A core: its model-specific and control registers, the descriptor tables and the
    selectors it loaded, and the [self] field of each per-CPU structure in memory. *)
Record core := Core_ {
  msr : Z → Z; cr0 : Z; cr4 : Z; gdtr : option (Z * Z * Z * Z); idtr : option (Z * Z); self : Z → Z;
}.
Definition wrmsr (index value : Z) : M core unit :=
  let low := wrap32 value in
  let high := wrap32 (Z.shiftr value 32) in
  modify (λ c, Core_ (λ i, if decide (i = index) then Z.lor (Z.shiftl high 32) low else msr c i)
    (cr0 c) (cr4 c) (gdtr c) (idtr c) (self c)).
Definition rdmsr (index : Z) : M core Z :=
  v ← gets (λ c, msr c index);
  let low := wrap32 v in
  let high := wrap32 (Z.shiftr v 32) in
  mret (Z.lor (Z.shiftl high 32) low).
Definition write_cr0 (v : Z) : M core unit :=
  modify (λ c, Core_ (msr c) v (cr4 c) (gdtr c) (idtr c) (self c)).
Definition write_cr4 (v : Z) : M core unit :=
  modify (λ c, Core_ (msr c) (cr0 c) v (gdtr c) (idtr c) (self c)).

(** The vendor string: [ebx], [edx], [ecx] of leaf 0, byte by byte. *)
Definition reg_bytes (r : Z) : list Z :=
  [Z.land r 0xFF; Z.land (Z.shiftr r 8) 0xFF; Z.land (Z.shiftr r 16) 0xFF; Z.land (Z.shiftr r 24) 0xFF].
Definition cpuid_vendor (b c d : Z) : list Z := reg_bytes b ++ reg_bytes d ++ reg_bytes c ++ [0].

Record cpu_features_t := CpuFeatures { f_gbpages : Z; f_nx : Z; f_pge : Z; f_pat : Z; f_pcid : Z }.
(** [edx] of the extended leaf, and [ecx] and [edx] of leaf 1. *)
Definition bit_of (r n : Z) : Z := Z.land (Z.shiftr r n) 1.
Definition read_features (ext_d c d : Z) : cpu_features_t :=
  CpuFeatures (bit_of ext_d 26) (bit_of ext_d 20) (bit_of d 13) (bit_of d 16) (bit_of c 17).
(** What [kernel/platform/amd64/vm.c] tests. *)
Definition vm_features (f : cpu_features_t) : cpu_features :=
  Features (bool_decide (f_gbpages f ≠ 0)) (bool_decide (f_nx f ≠ 0)) (bool_decide (f_pge f ≠ 0)).

Definition PAT_UC : Z := 0x0.
Definition PAT_WC : Z := 0x1.
Definition PAT_WT : Z := 0x4.
Definition PAT_WP : Z := 0x5.
Definition PAT_WB : Z := 0x6.
Definition PAT_UCMINUS : Z := 0x7.
Definition PA_N (type n : Z) : Z := wrap64 (Z.shiftl type (n * 8)).
Definition port_pat_setup : M core unit :=
  let pat := Z.lor (Z.lor (Z.lor (Z.lor (Z.lor (PA_N PAT_WB 0) (PA_N PAT_WT 1)) (PA_N PAT_UCMINUS 2))
    (PA_N PAT_UC 3)) (PA_N PAT_WP 4)) (PA_N PAT_WC 5) in
  wrmsr kMsrPAT pat.
Definition port_init_cpu (g_features : cpu_features_t) : M core unit :=
  assertM (bool_decide (f_pat g_features = 1)) "g_features.pat == 1";;
  port_pat_setup;;
  cr0 ← gets cr0;
  let cr0 := Z.land cr0 (Z.lnot (Z.shiftl 1 30)) in
  let cr0 := Z.land cr0 (Z.lnot (Z.shiftl 1 29)) in
  let cr0 := Z.lor cr0 (Z.shiftl 1 16) in
  write_cr0 cr0;;
  cr4 ← gets cr4;
  write_cr4 (Z.lor (Z.lor cr4 (Z.shiftl 1 4)) (Z.shiftl 1 7));;
  whenM (bool_decide (f_nx g_features ≠ 0))
    (efer ← rdmsr kMsrEfer; wrmsr kMsrEfer (Z.lor efer (Z.shiftl 1 11))).

Definition cpudata_port_setup (cpudata : Z) : M core unit :=
  modify (λ c, Core_ (msr c) (cr0 c) (cr4 c) (gdtr c) (idtr c)
    (λ a, if decide (a = cpudata) then cpudata else self c a));;
  wrmsr kMsrGsBase cpudata.
(** The word at [gs:0]. *)
Definition port_get_cpudata : M core Z := gets (λ c, self c (msr c kMsrGsBase)).
Definition cpu_tables_load (g_gdt g_idt : Z) : M core unit :=
  modify (λ c, Core_ (msr c) (cr0 c) (cr4 c) (Some (Gdt.cpu_gdt_load g_gdt)) (idtr c) (self c));;
  modify (λ c, Core_ (msr c) (cr0 c) (cr4 c) (gdtr c) (Some (Idt.cpu_idt_load g_idt)) (self c)).
(** The part of [cpudata_setup] that concerns the registers is [cpudata_port_setup]. *)
Definition early_port_cpu_common_init (g_gdt g_idt : Z) (g_features : cpu_features_t) (data : Z) : M core unit :=
  cpu_tables_load g_gdt g_idt;;
  cpudata_port_setup data;;
  port_init_cpu g_features.

(** *** The registers afterwards *)
Lemma split_word v : 0 ≤ v < 2 ^ 64 → Z.lor (Z.shiftl (wrap32 (Z.shiftr v 32)) 32) (wrap32 v) = v.
Proof.
  intros Hv. unfold wrap32. rewrite (Z.mod_small (Z.shiftr v 32)).
  { rewrite Z.shiftr_div_pow2 //. split; [apply Z.div_pos; lia|apply Z.div_lt_upper_bound; lia]. }
  apply Z.bits_inj'. intros n Hn. rewrite Z.lor_spec Z.shiftl_spec //. destruct (decide (n < 32)) as [Hlt|Hge].
  - rewrite Z.testbit_neg_r; [lia|]. by rewrite Z.mod_pow2_bits_low.
  - rewrite Z.shiftr_spec; [lia|]. rewrite Z.mod_pow2_bits_high; [lia|]. rewrite orb_false_r. f_equal. lia.
Qed.
(** A value written to a model-specific register reads back. *)
Lemma wrmsr_rdmsr index v c : 0 ≤ v < 2 ^ 64 →
  wp (wrmsr index v;; rdmsr index) (λ r c', r = v ∧ msr c' index = v ∧ ∀ i, i ≠ index → msr c' i = msr c i) c.
Proof.
  intros Hv. unfold wrmsr, rdmsr. apply wp_bind, wp_modify, wp_bind, wp_gets, wp_ret. cbn [msr].
  rewrite split_word // decide_True // split_word //. split_and!; [done..|]. intros i Hi. by rewrite decide_False.
Qed.

(** The type the page attribute table holds at index [n]. *)
Definition pat_type (c : core) (n : Z) : Z := Z.land (Z.shiftr (msr c kMsrPAT) (n * 8)) 7.
Record core_ready (f : cpu_features_t) (c0 c : core) : Prop := {
  cr_pat : msr c kMsrPAT = 0x010500070406;
  cr_cr0 : ∀ i, 0 ≤ i → Z.testbit (cr0 c) i =
    if decide (i = 16) then true else if decide (i = 29 ∨ i = 30) then false else Z.testbit (cr0 c0) i;
  cr_cr4 : ∀ i, 0 ≤ i → Z.testbit (cr4 c) i = if decide (i = 4 ∨ i = 7) then true else Z.testbit (cr4 c0) i;
  cr_efer : msr c kMsrEfer = if decide (f_nx f = 0) then msr c0 kMsrEfer else Z.lor (msr c0 kMsrEfer) (2 ^ 11);
}.
Lemma testbit_pow2 k i : 0 ≤ k → Z.testbit (Z.shiftl 1 k) i = bool_decide (i = k).
Proof.
  intros Hk. rewrite Z.shiftl_1_l. case_bool_decide as E; [subst; by apply Z.pow2_bits_true|].
  by apply Z.pow2_bits_false.
Qed.
Lemma lor_word x y : 0 ≤ x < 2 ^ 64 → 0 ≤ y < 2 ^ 64 → 0 ≤ Z.lor x y < 2 ^ 64.
Proof.
  intros Hx Hy. split; [by apply Z.lor_nonneg; lia|].
  destruct (decide (Z.lor x y = 0)) as [->|]; [done|].
  assert (0 ≤ Z.lor x y) by (apply Z.lor_nonneg; lia).
  apply Z.log2_lt_pow2; [lia|]. rewrite Z.log2_lor; [lia..|]. apply Z.max_lub_lt.
  - destruct (decide (x = 0)) as [->|]; [done|]. apply Z.log2_lt_pow2; lia.
  - destruct (decide (y = 0)) as [->|]; [done|]. apply Z.log2_lt_pow2; lia.
Qed.
Lemma port_init_cpu_spec f c : f_pat f = 1 → (∀ i, 0 ≤ msr c i < 2 ^ 64) →
  wp (port_init_cpu f) (λ _ c', core_ready f c c' ∧ msr c' kMsrGsBase = msr c kMsrGsBase ∧
    self c' = self c ∧ gdtr c' = gdtr c ∧ idtr c' = idtr c) c.
Proof.
  intros Hp Hm. unfold port_init_cpu. apply wp_bind, wp_assert. split; [by apply bool_decide_eq_true|].
  unfold port_pat_setup, wrmsr, rdmsr, write_cr0, write_cr4. apply wp_bind, wp_modify, wp_bind, wp_gets, wp_bind, wp_modify.
  apply wp_bind, wp_gets, wp_bind, wp_modify. cbn [msr cr0 cr4 gdtr idtr self].
  assert (∀ i, 0 ≤ i → Z.testbit (Z.lor (Z.land (Z.land (cr0 c) (Z.lnot (Z.shiftl 1 30))) (Z.lnot (Z.shiftl 1 29))) (Z.shiftl 1 16)) i =
    if decide (i = 16) then true else if decide (i = 29 ∨ i = 30) then false else Z.testbit (cr0 c) i) as H0.
  { intros i Hi. rewrite Z.lor_spec !Z.land_spec !Z.lnot_spec // !testbit_pow2 //.
    repeat case_bool_decide; repeat case_decide; destruct (Z.testbit (cr0 c) i); simpl; try done; lia. }
  assert (∀ i, 0 ≤ i → Z.testbit (Z.lor (Z.lor (cr4 c) (Z.shiftl 1 4)) (Z.shiftl 1 7)) i =
    if decide (i = 4 ∨ i = 7) then true else Z.testbit (cr4 c) i) as H4.
  { intros i Hi. rewrite !Z.lor_spec !testbit_pow2 //.
    repeat case_bool_decide; repeat case_decide; destruct (Z.testbit (cr4 c) i); simpl; try done; lia. }
  apply wp_when. destruct (decide (f_nx f = 0)) as [E|E].
  - rewrite bool_decide_false; [tauto|]. split_and!; try done. split; cbn [msr cr0 cr4]; try done. by rewrite decide_True.
  - rewrite bool_decide_true //. apply wp_bind, wp_bind, wp_gets, wp_ret, wp_modify. split_and!; try done.
    split; cbn [msr cr0 cr4]; try done.
    destruct (decide (kMsrEfer = kMsrEfer)) as [_|?]; [|done]. destruct (decide (kMsrEfer = kMsrPAT)) as [?|_]; [done|].
    destruct (decide (f_nx f = 0)); [done|]. rewrite (split_word (msr c kMsrEfer)) //.
    change (Z.shiftl 1 11) with (2 ^ 11). apply split_word. by apply lor_word.
Qed.

(** A core that went through [early_port_cpu_common_init] finds its own per-CPU data. *)
Lemma early_port_cpu_common_init_spec g_gdt g_idt f data c : f_pat f = 1 → (∀ i, 0 ≤ msr c i < 2 ^ 64) → 0 ≤ data < 2 ^ 64 →
  wp (early_port_cpu_common_init g_gdt g_idt f data;; port_get_cpudata)
    (λ r c', r = data ∧ core_ready f c c' ∧ gdtr c' = Some (Gdt.cpu_gdt_load g_gdt) ∧ idtr c' = Some (Idt.cpu_idt_load g_idt)) c.
Proof.
  intros Hp Hm Hd. unfold early_port_cpu_common_init, cpu_tables_load, cpudata_port_setup.
  do 3 apply wp_bind. apply wp_modify, wp_modify, wp_bind, wp_bind, wp_modify. unfold wrmsr. apply wp_modify.
  cbn [msr cr0 cr4 gdtr idtr self]. rewrite split_word //.
  eapply wp_mono; [apply port_init_cpu_spec; [done|]|].
  { intros i. cbn [msr]. case_decide; [done|apply Hm]. }
  intros [] c' ([P0 P1 P2 P3] & Hgs & Hself & Hg & Hi). apply wp_gets. rewrite Hself Hgs. cbn [self msr] in *.
  rewrite decide_True // decide_True //.
Qed.

(** *** The memory type a page is accessed with

    An entry for a 4 KiB page selects the type by its bits PWT, PCD and PAT. In the entry
    of a huge page bit 7 is the page size, and the PAT bit is bit 12. *)
Definition pat_index (e : Z) : Z :=
  Z.b2z (Z.testbit e 3) + 2 * Z.b2z (Z.testbit e 4) + 4 * Z.b2z (Z.testbit e 7).
Definition pat_index_huge (e : Z) : Z :=
  Z.b2z (Z.testbit e 3) + 2 * Z.b2z (Z.testbit e 4) + 4 * Z.b2z (Z.testbit e 12).
Definition intended_type (cache : cachemode) : Z :=
  match cache with
  | kVmUncached => PAT_UC | kVmWriteback => PAT_WB | kVmWritethrough => PAT_WT | kVmWritecombine => PAT_WC
  end.
Lemma testbit_when b x i : Z.testbit x i = false → Z.testbit (when_bit b x) i = false.
Proof. destruct b; [done|]. intros _. apply Z.testbit_0_l. Qed.
Lemma make_entry_pat_index feat paddr cache flags :
  pat_index (make_entry feat 0 paddr cache flags) = pat_index (cache_bits cache).
Proof.
  unfold pat_index, make_entry, PAGE_ALIGN_DOWN. rewrite !Z.lor_spec !Z.land_spec !Z.lnot_spec //.
  change (PAGE_SIZE - 1) with (Z.ones 12). rewrite !Z.ones_spec_low; [lia..|]. rewrite !Z.testbit_0_l !andb_false_r.
  by rewrite !testbit_when.
Qed.
Lemma make_entry_pat_index_huge feat paddr cache flags : paddr mod MiB 2 = 0 →
  pat_index_huge (make_entry feat ptePagesize paddr cache flags) = pat_index_huge (cache_bits cache).
Proof.
  intros Hp. assert (Z.testbit paddr 12 = false) as H12.
  { apply Z.div_exact in Hp as ->; [|done]. change (MiB 2) with (2 ^ 21). rewrite Z.mul_comm.
    apply Z.mul_pow2_bits_low. lia. }
  unfold pat_index_huge, make_entry, PAGE_ALIGN_DOWN. rewrite !Z.lor_spec !Z.land_spec !Z.lnot_spec //.
  change (PAGE_SIZE - 1) with (Z.ones 12). rewrite (Z.ones_spec_low 12 3); [lia|]. rewrite (Z.ones_spec_low 12 4); [lia|].
  by rewrite H12 andb_false_l !andb_false_r !testbit_when.
Qed.
End Cpu.
