(* ===== verification/Devices.v ===== *)
(** * The devices of the amd64 port: [kernel/platform/amd64]

    The serial port of [entry.c], the interrupt controllers of [pic.c] and [apic.c], the
    timer of [hpet.c].  A device is the sequence of writes it received and the values its
    registers read as; a register that changes by itself is a function of the number of
    readings. *)

From S2P Require Import Prelude Pm Paging.

(** ** The serial port: [entry.c] *)
Module Serial.
Definition COM1 : Z := 0x3f8.
(** [lsr n] is the [n]-th reading of the line status register. *)
Record ports := Ports { outs : list (Z * Z); lsr_reads : nat }.
Definition outb (port data : Z) : M ports unit := modify (λ p, Ports (outs p ++ [(port, wrap8 data)]) (lsr_reads p)).

Section serial.
Context (lsr : nat → Z).
Definition inb_lsr : M ports Z :=
  n ← gets lsr_reads; modify (λ p, Ports (outs p) (S n));; mret (lsr n).
Fixpoint serial_wait (fuel : nat) : M ports unit :=
  match fuel with
  | O => fail OutOfFuel
  | S fuel => s ← inb_lsr; if decide (Z.land s 0x20 ≠ 0) then mret tt else serial_wait fuel
  end.
Definition serial_putc (fuel : nat) (c : Z) : M ports unit := serial_wait fuel;; outb COM1 c.
Definition serial_write (fuel : nat) (msg : list Z) : M ports unit := forM msg (serial_putc fuel).
Definition serial_init : M ports unit :=
  outb (COM1 + 1) 0x00;;
  outb (COM1 + 3) 0x80;;
  outb (COM1 + 0) 0x03;;
  outb (COM1 + 1) 0x00;;
  outb (COM1 + 3) 0x03;;
  outb (COM1 + 2) 0xC7;;
  outb (COM1 + 4) 0x0B.

(** The transmitter becomes empty within [fuel] readings, whenever one starts to look. *)
Definition transmits (fuel : nat) : Prop := ∀ n, ∃ k, (k < fuel)%nat ∧ Z.land (lsr (n + k)) 0x20 ≠ 0.
Lemma serial_wait_spec fuel p : (∃ k, (k < fuel)%nat ∧ Z.land (lsr (lsr_reads p + k)) 0x20 ≠ 0) →
  wp (serial_wait fuel) (λ _ p', outs p' = outs p) p.
Proof.
  revert p. induction fuel as [|fuel IH]; intros p (k & Hk & Hr); [lia|]. cbn [serial_wait].
  unfold inb_lsr. apply wp_bind, wp_bind, wp_gets, wp_bind, wp_modify, wp_ret. case_decide as Hd; [by apply wp_ret|].
  eapply wp_mono; [apply IH|by intros [] p' ->]. cbn [lsr_reads]. destruct k as [|k].
  - by rewrite Nat.add_0_r in Hr.
  - exists k. split; [lia|]. by rewrite Nat.add_succ_comm.
Qed.
(** Every byte of the message goes out, in order. *)
Lemma serial_write_spec fuel msg p : transmits fuel → Forall (λ c, 0 ≤ c < 256) msg →
  wp (serial_write fuel msg) (λ _ p', outs p' = outs p ++ ((COM1,.) <$> msg)) p.
Proof.
  intros Ht Hm. unfold serial_write.
  eapply wp_mono; [apply (wp_forM msg _ (λ sent p', outs p' = outs p ++ ((COM1,.) <$> sent)))|by intros [] p'].
  - by rewrite app_nil_r.
  - intros sent c todo p' -> Hp. apply wp_bind. eapply wp_mono; [by apply serial_wait_spec, Ht|].
    intros [] p1 E1. apply wp_modify. cbn [outs]. rewrite E1 Hp fmap_app -app_assoc /=.
    apply Forall_app in Hm as [_ [Hc _]%Forall_cons]. by rewrite /wrap8 Z.mod_small.
Qed.
End serial.

(** *** [pic.c] *)
Definition PIC1_DATA : Z := 0x20 + 1.
Definition PIC2_DATA : Z := 0xA0 + 1.
Definition pic_disable : M ports unit := outb PIC1_DATA 0xFF;; outb PIC2_DATA 0xFF.
End Serial.

(** ** The high precision event timer: [hpet.c] *)
Module Hpet.
Definition HPET_REG_GENERAL_CAPABILITY : Z := 0x0.
Definition HPET_REG_GENERAL_CONFIG : Z := 0x10.
Definition HPET_REG_COUNTER_MAIN : Z := 0xF0.
Definition NS2FEMTOS (x : Z) : Z := x * 1000000.

(** The memory of the device by virtual address, the fields of [hpet_t], and whether the
    clock source was registered. *)
Record hpet := Hpet { regs : Z → Z; addr : Z; minimum_clock_ticks : Z; period : Z; registered : bool }.
Definition hpet_write (reg value : Z) : M hpet unit :=
  modify (λ h, Hpet (λ a, if decide (a = addr h + reg) then value else regs h a) (addr h) (minimum_clock_ticks h)
    (period h) (registered h)).
Definition hpet_read (reg : Z) : M hpet Z := gets (λ h, regs h (addr h + reg)).
Definition hpet_counter : M hpet Z := hpet_read HPET_REG_COUNTER_MAIN.
Definition hpet_enable : M hpet unit :=
  v ← hpet_read HPET_REG_GENERAL_CONFIG; hpet_write HPET_REG_GENERAL_CONFIG (Z.lor v (Z.shiftl 1 0)).
Definition hpet_disable : M hpet unit :=
  v ← hpet_read HPET_REG_GENERAL_CONFIG; hpet_write HPET_REG_GENERAL_CONFIG (Z.land v (Z.lnot (Z.shiftl 1 0))).
Definition hpet_current_nanos : M hpet Z :=
  n ← hpet_counter; p ← gets period; mret (wrap64 (n * (p / NS2FEMTOS 1))).

(** The fields of the table [uacpi_table_find_by_signature] finds that are used. *)
Record acpi_hpet := AcpiHpet { address : Z; min_clock_tick : Z }.
(** Allocating and mapping virtual memory are the routines of Kmem.v and Paging.v. *)
Definition hpet_init (vm_map_allocate : Z → M hpet Z) (vm_port_map : Z → Z → cachemode → Z → M hpet unit)
    (table : option acpi_hpet) : M hpet Z :=
  match table with
  | None => mret 1
  | Some table =>
      modify (λ h, Hpet (regs h) 0 0 0 (registered h));;
      va ← vm_map_allocate PAGE_SIZE;
      modify (λ h, Hpet (regs h) va (minimum_clock_ticks h) (period h) (registered h));;
      vm_port_map (PAGE_ALIGN_DOWN (address table)) va kVmUncached (Z.lor kVmRead kVmWrite);;
      modify (λ h, Hpet (regs h) (addr h) (min_clock_tick table) (period h) (registered h));;
      v ← hpet_read HPET_REG_GENERAL_CAPABILITY;
      modify (λ h, Hpet (regs h) (addr h) (minimum_clock_ticks h) (wrap32 (Z.shiftr v 32)) (registered h));;
      hpet_enable;;
      modify (λ h, Hpet (regs h) (addr h) (minimum_clock_ticks h) (period h) true);;
      mret 0
  end.

(** The clock follows the counter and is never ahead of the time the counter stands for;
    it is exact when the period is a whole number of nanoseconds. *)
Lemma hpet_current_nanos_spec h : let c := regs h (addr h + HPET_REG_COUNTER_MAIN) in
  0 ≤ c → 0 ≤ period h → c * period h < 2 ^ 64 →
  wp hpet_current_nanos (λ r h', h' = h ∧ NS2FEMTOS r ≤ c * period h ≤ NS2FEMTOS r + c * (NS2FEMTOS 1 - 1) ∧
    (period h mod NS2FEMTOS 1 = 0 → NS2FEMTOS r = c * period h)) h.
Proof.
  intros c Hc Hp Hb. unfold hpet_current_nanos, hpet_counter, hpet_read, NS2FEMTOS.
  apply wp_bind, wp_gets, wp_bind, wp_gets, wp_ret. fold c. set (p := period h) in *.
  change (1 * 1000000) with 1000000. pose proof (Z.div_mod p 1000000 ltac:(lia)) as D.
  pose proof (Z.mod_pos_bound p 1000000 ltac:(lia)) as B. pose proof (Z.div_pos p 1000000 Hp ltac:(lia)).
  rewrite /wrap64 Z.mod_small; [split; [nia|]|].
  { eapply Z.le_lt_trans; [|exact Hb]. apply Z.mul_le_mono_nonneg_l; [done|]. lia. }
  split_and!; [done|nia|nia|]. intros E. rewrite E in D. nia.
Qed.
(** A counter that runs faster than a gigahertz makes the clock stand still. *)
Lemma hpet_fast_counter_stuck h : 0 ≤ period h < NS2FEMTOS 1 →
  hpet_current_nanos h = Ok (0, h).
Proof.
  intros Hp. unfold hpet_current_nanos, hpet_counter, hpet_read, mbind, M_bind, gets. cbn.
  by rewrite Z.div_small // Z.mul_0_r.
Qed.
(** With the registers mapped at [va], the period is read from the capability register, the
    counter is switched on and the clock source registered. *)
Lemma hpet_init_spec va rs t h :
  wp (hpet_init (λ _, mret va) (λ _ _ _ _, modify (λ h, Hpet rs (addr h) (minimum_clock_ticks h) (period h) (registered h)))
      (Some t)) (λ r h', r = 0 ∧ addr h' = va ∧
    period h' = wrap32 (Z.shiftr (rs (va + HPET_REG_GENERAL_CAPABILITY)) 32) ∧
    minimum_clock_ticks h' = min_clock_tick t ∧ registered h' = true ∧
    Z.testbit (regs h' (va + HPET_REG_GENERAL_CONFIG)) 0 = true ∧
    regs h' (va + HPET_REG_COUNTER_MAIN) = rs (va + HPET_REG_COUNTER_MAIN)) h.
Proof.
  apply wp_bind, wp_modify, wp_bind, wp_ret, wp_bind, wp_modify, wp_bind, wp_modify, wp_bind, wp_modify, wp_bind, wp_gets,
    wp_bind, wp_modify, wp_bind, wp_bind, wp_gets, wp_modify, wp_bind, wp_modify, wp_ret.
  cbn [regs addr period minimum_clock_ticks registered]. split_and!; try done.
  - destruct (decide _) as [_|?]; [|done]. rewrite Z.lor_spec. apply orb_true_r.
  - destruct (decide _) as [E|?]; [|done]. unfold HPET_REG_COUNTER_MAIN, HPET_REG_GENERAL_CONFIG in E. lia.
Qed.
(** Switching the counter off and on again changes no register. *)
Lemma hpet_disable_enable h : Z.testbit (regs h (addr h + HPET_REG_GENERAL_CONFIG)) 0 = true →
  wp (hpet_disable;; hpet_enable) (λ _ h', ∀ a, regs h' a = regs h a) h.
Proof.
  intros Hb. unfold hpet_disable, hpet_enable, hpet_read, hpet_write.
  apply wp_bind, wp_bind, wp_gets, wp_modify, wp_bind, wp_gets, wp_modify. cbn [regs addr]. intros a.
  set (r := addr h + HPET_REG_GENERAL_CONFIG) in *. destruct (decide (a = r)) as [->|]; [|done].
  destruct (decide (r = r)) as [_|?]; [|done].
  apply Z.bits_inj'. intros n Hn. rewrite Z.lor_spec Z.land_spec Z.lnot_spec // Z.shiftl_1_l.
  destruct (decide (n = 0)) as [->|Hne]; [by rewrite Hb|].
  rewrite Z.pow2_bits_false; [lia|]. by rewrite orb_false_r andb_true_r.
Qed.
End Hpet.

(** ** The local interrupt controller: [apic.c] *)
Module Apic.
Definition APIC_REG_ID : Z := 0x20.
Definition APIC_REG_VERSION : Z := 0x30.
Definition APIC_REG_EOI : Z := 0xB0.
Definition APIC_REG_SPURIOUS : Z := 0xF0.
Definition APIC_REG_ICR0 : Z := 0x300.
Definition APIC_REG_ICR1 : Z := 0x310.
Definition APIC_REG_LVT_TIMER : Z := 0x320.
Definition APIC_REG_LVT_THERMAL : Z := 0x330.
Definition APIC_REG_LVT_PERFMON : Z := 0x340.
Definition APIC_REG_LVT_LINT0 : Z := 0x350.
Definition APIC_REG_LVT_LINT1 : Z := 0x360.
Definition APIC_REG_LVT_ERROR : Z := 0x370.
Definition APIC_REG_TIMER_INITIAL : Z := 0x380.
Definition APIC_REG_TIMER_CURRENT : Z := 0x390.
Definition APIC_REG_TIMER_DIVIDE : Z := 0x3E0.

(** The writes the controller received, newest last, and the fields of
    [cpudata_port_t] it determines. *)
Record apic := Apic {
  writes : list (Z * Z); lapic_id : Z; lapic_ticks_per_ms : Z; lapic_calibrated : bool; engine_ready : bool;
}.
Definition set_writes (l : list (Z * Z)) (a : apic) : apic :=
  Apic l (lapic_id a) (lapic_ticks_per_ms a) (lapic_calibrated a) (engine_ready a).

Definition apic_phys_base (lapic_base : Z) : Z := Z.land lapic_base 0xffffffffff000.
Definition apic_write (offset value : Z) : M apic unit :=
  assertM (bool_decide (Z.land offset 15 = 0)) "(offset & 15) == 0";;
  modify (λ a, set_writes (writes a ++ [(offset, wrap32 value)]) a).
(** [v] is what the register reads as. *)
Definition apic_read (offset v : Z) : M apic Z :=
  assertM (bool_decide (Z.land offset 15 = 0)) "(offset & 15) == 0";;
  mret (wrap32 v).
Definition apic_id (v : Z) : M apic Z := x ← apic_read APIC_REG_ID v; mret (wrap8 (Z.shiftr x 24)).
Definition apic_version (v : Z) : M apic Z := x ← apic_read APIC_REG_VERSION v; mret (Z.land x 0xff).
Definition apic_eoi : M apic unit := apic_write APIC_REG_EOI 0.

(** [current] is the counter after the delay of 50 ms. *)
Definition apic_timer_calibrate (time_delay : Z → M apic unit) (current : Z) : M apic unit :=
  let wait_ms := 50 in
  apic_write APIC_REG_TIMER_DIVIDE 3;;
  let start_val := 2 ^ 32 - 1 in
  apic_write APIC_REG_TIMER_INITIAL start_val;;
  time_delay (wait_ms * 1000 * 1000);;
  c ← apic_read APIC_REG_TIMER_CURRENT current;
  let elapsed := wrap32 (start_val - c) in
  apic_write APIC_REG_TIMER_INITIAL 0;;
  modify (λ a, Apic (writes a) (lapic_id a) (elapsed / wait_ms) (lapic_calibrated a) (engine_ready a));;
  modify (λ a, Apic (writes a) (lapic_id a) (lapic_ticks_per_ms a) true (engine_ready a)).
Definition apic_send_ipi (lapic_id vector : Z) : M apic unit :=
  apic_write APIC_REG_ICR1 (wrap32 (Z.shiftl lapic_id 24));;
  apic_write APIC_REG_ICR0 vector.

(** [now] is the reading of the clock source. *)
Definition apic_arm (now deadline : Z) : M apic unit :=
  if decide (deadline = 0) then apic_write APIC_REG_TIMER_INITIAL 0 else
  ticks ←
    (if decide (deadline < now) then mret 1 else
       a ← get;
       let ticks := (deadline - now) * lapic_ticks_per_ms a in
       assertM (bool_decide (ticks < 2 ^ 64)) "!of";;
       let ticks := ticks / 1000000 in
       mret (if decide (ticks = 0) then 1 else ticks));
  apic_write APIC_REG_TIMER_INITIAL ticks.

(** [id] and [current] are what the registers read as, [vector] the vector of the clock. *)
Definition apic_enable (time_delay : Z → M apic unit) (id current vector : Z) : M apic unit :=
  apic_write APIC_REG_LVT_TIMER (2 ^ 16);;
  apic_write APIC_REG_LVT_ERROR (2 ^ 16);;
  apic_write APIC_REG_LVT_LINT0 (2 ^ 16);;
  apic_write APIC_REG_LVT_LINT1 (2 ^ 16);;
  apic_write APIC_REG_LVT_PERFMON (2 ^ 16);;
  apic_write APIC_REG_LVT_THERMAL (2 ^ 16);;
  apic_eoi;;
  apic_write APIC_REG_SPURIOUS (Z.lor (2 ^ 8) 0xFF);;
  i ← apic_id id;
  modify (λ a, Apic (writes a) i (lapic_ticks_per_ms a) (lapic_calibrated a) (engine_ready a));;
  apic_timer_calibrate time_delay current;;
  modify (λ a, Apic (writes a) (lapic_id a) (lapic_ticks_per_ms a) (lapic_calibrated a) true);;
  apic_write APIC_REG_LVT_TIMER (vector + 32);;
  apic_eoi.

(** *** What the hardware is told *)
Lemma wp_apic_write offset v Q a : Z.land offset 15 = 0 →
  Q tt (set_writes (writes a ++ [(offset, wrap32 v)]) a) → wp (apic_write offset v) Q a.
Proof. intros Ho HQ. apply wp_bind, wp_assert. split; [by apply bool_decide_eq_true|]. by apply wp_modify. Qed.

(** The number of ticks [apic_arm] waits for a deadline not yet passed. *)
Definition arm_ticks (tpm now deadline : Z) : Z := Z.max 1 ((deadline - now) * tpm / 1000000).
Lemma apic_arm_spec now deadline a : 0 ≤ now → 0 ≤ deadline → 0 ≤ lapic_ticks_per_ms a →
  (deadline - now) * lapic_ticks_per_ms a < 2 ^ 64 →
  wp (apic_arm now deadline) (λ _ a', a' = set_writes (writes a ++ [(APIC_REG_TIMER_INITIAL,
    if decide (deadline = 0) then 0 else if decide (deadline < now) then 1
    else wrap32 (arm_ticks (lapic_ticks_per_ms a) now deadline))]) a) a.
Proof.
  intros Hn Hd Ht Hb. unfold apic_arm. case_decide as E0; [by apply wp_apic_write|].
  apply wp_bind. case_decide as E1; [apply wp_ret; by apply wp_apic_write|].
  apply wp_bind, wp_get, wp_bind, wp_assert. split; [by apply bool_decide_eq_true|].
  apply wp_ret, wp_apic_write; [done|]. unfold arm_ticks. set (q := _ / 1000000).
  assert (0 ≤ q) by (apply Z.div_pos; [nia|lia]). 
  by assert ((if decide (q = 0) then 1 else q) = Z.max 1 q) as -> by (case_decide; lia).
Qed.
(** The ticks never stand for more time than there is to wait (but for the least of one
    tick), and for less than one tick less. *)
Lemma arm_ticks_bounds tpm now deadline : 0 ≤ tpm → now ≤ deadline → 1000000 ≤ (deadline - now) * tpm →
  arm_ticks tpm now deadline * 1000000 ≤ (deadline - now) * tpm < (arm_ticks tpm now deadline + 1) * 1000000.
Proof.
  intros Ht Hd Hb. unfold arm_ticks. pose proof (Z.div_mod ((deadline - now) * tpm) 1000000 ltac:(lia)).
  pose proof (Z.mod_pos_bound ((deadline - now) * tpm) 1000000 ltac:(lia)). lia.
Qed.

(** A delay that leaves the controller alone. *)
Definition delays (time_delay : Z → M apic unit) : Prop := ∀ ns a, time_delay ns a = Ok (tt, a).
Lemma apic_timer_calibrate_spec time_delay current a : delays time_delay → 0 ≤ current < 2 ^ 32 →
  wp (apic_timer_calibrate time_delay current) (λ _ a', lapic_calibrated a' = true ∧ lapic_id a' = lapic_id a ∧
    lapic_ticks_per_ms a' = (2 ^ 32 - 1 - current) / 50 ∧ 0 ≤ lapic_ticks_per_ms a' < 2 ^ 32 ∧
    engine_ready a' = engine_ready a ∧
    writes a' = writes a ++ [(APIC_REG_TIMER_DIVIDE, 3); (APIC_REG_TIMER_INITIAL, 2 ^ 32 - 1); (APIC_REG_TIMER_INITIAL, 0)]) a.
Proof.
  intros Hd Hc. unfold apic_timer_calibrate. apply wp_bind, wp_apic_write; [done|].
  apply wp_bind, wp_apic_write; [done|]. apply wp_bind. rewrite /wp Hd.
  apply wp_bind, wp_bind, wp_assert. split; [done|]. apply wp_ret, wp_bind, wp_apic_write; [done|].
  apply wp_bind, wp_modify, wp_modify. unfold set_writes. cbn [writes lapic_id lapic_ticks_per_ms lapic_calibrated engine_ready].
  unfold wrap32. rewrite (Z.mod_small current) // (Z.mod_small (2 ^ 32 - 1 - current)); [lia|].
  rewrite -!app_assoc. split_and!; try done; [apply Z.div_pos; lia|apply Z.div_lt_upper_bound; lia].
Qed.
End Apic.

(** ** [sched.c]: the first context of a thread *)
Definition KSTACK_SIZE : Z := PAGE_SIZE * 4.
Record context_t := Context_ { rflags : Z; cs : Z; ss : Z; rsp : Z; r12 : Z; r13 : Z; r14 : Z }.
(** The context, and the word stored at [rsp]. *)
Definition port_initialize_context (thread_trampoline : Z) (user kstack startfn context1 context2 : Z) : context_t * Z :=
  let '(cs, ss) := if decide (user ≠ 0) then (4 * 8, 3 * 8) else (1 * 8, 2 * 8) in
  let sp := wrap64 (kstack + KSTACK_SIZE) in
  let sp := wrap64 (sp - 2 * 8) in
  (Context_ 0x200 cs ss sp startfn context1 context2, thread_trampoline).
