(* ===== verification/PlatformProps.v ===== *)
(** * The amd64 port: what a core and its clock are set up to do

    The claims on Platform.v and Devices.v: the memory types the page tables of Paging.v
    select are the ones the cache modes ask for, and the counts the clock is armed with. *)

From S2P Require Import Prelude Pm Paging Platform Devices.

(** C35: once [port_init_cpu] has run on a core, whatever its registers held, caching is on,
    supervisor writes respect the page tables, and the entries [vm_port_map] writes select in
    the page attribute table the memory type their cache mode names: for a 4 KiB page, of
    any address, features and flags, uncached, write-back, write-through or write-combining;
    for a huge page, whose address [vm_port_map] asserts to be a multiple of 2 MiB, the same
    for the first three, but write-through where write-combining is asked for, since the
    code sets bit 7 and a huge entry has its PAT bit at 12. *)
Theorem cache_modes_take_effect f c : Cpu.f_pat f = 1 → (∀ i, 0 ≤ Cpu.msr c i < 2 ^ 64) →
  wp (Cpu.port_init_cpu f) (λ _ c', Z.testbit (Cpu.cr0 c') 30 = false ∧ Z.testbit (Cpu.cr0 c') 29 = false ∧
    Z.testbit (Cpu.cr0 c') 16 = true ∧
    ∀ paddr cache flags,
      Cpu.pat_type c' (Cpu.pat_index (make_entry (Cpu.vm_features f) 0 paddr cache flags)) = Cpu.intended_type cache ∧
      (paddr mod MiB 2 = 0 →
        Cpu.pat_type c' (Cpu.pat_index_huge (make_entry (Cpu.vm_features f) ptePagesize paddr cache flags)) =
          match cache with kVmWritecombine => Cpu.PAT_WT | _ => Cpu.intended_type cache end)) c.
Proof.
  intros Hp Hm. eapply wp_mono; [by apply Cpu.port_init_cpu_spec|]. intros [] c' ([P0 P1 _ _] & _).
  rewrite !P1 //. split_and!; [done..|]. intros paddr cache flags.
  split; [|intros Ha; rewrite Cpu.make_entry_pat_index_huge //];
    rewrite ?Cpu.make_entry_pat_index /Cpu.pat_type P0; by destruct cache.
Qed.
Definition reset_core : Cpu.core := Cpu.Core_ (λ _, 0) 0x60000011 0 None None (λ _, 0).
Lemma cache_modes_take_effect_witness :
  wp (Cpu.port_init_cpu (Cpu.read_features 0x100000 0 0x10000)) (λ _ c', Cpu.pat_type c'
    (Cpu.pat_index (make_entry (Features false true false) 0 0xfee00000 kVmUncached kVmAll)) = Cpu.PAT_UC) reset_core.
Proof.
  eapply wp_mono; [apply (cache_modes_take_effect (Cpu.read_features 0x100000 0 0x10000) reset_core)|].
  - reflexivity.
  - intros i. simpl. lia.
  - intros [] c' (_ & _ & _ & Hc). exact (proj1 (Hc 0xfee00000 kVmUncached kVmAll)).
Defined.

(** Arming the calibrated clock for a deadline that lies ahead writes one count to the
    timer; as long as the wait is shorter than [2 ^ 32] ticks, the count is the wait in
    ticks rounded down, but at least one: the timer goes off no later than the deadline
    (rounding one tick up excepted) and less than one tick before it, and no product
    overflows. *)
Theorem apic_arm_bounds time_delay current now deadline a : Apic.delays time_delay → 0 ≤ current < 2 ^ 32 →
  0 ≤ now ≤ deadline → 0 < deadline → (deadline - now) * ((2 ^ 32 - 1 - current) / 50) < 2 ^ 32 * 1000000 →
  wp (Apic.apic_timer_calibrate time_delay current;; Apic.apic_arm now deadline) (λ _ a', ∃ ticks,
    last (Apic.writes a') = Some (Apic.APIC_REG_TIMER_INITIAL, ticks) ∧ 1 ≤ ticks < 2 ^ 32 ∧
    let wait := (deadline - now) * Apic.lapic_ticks_per_ms a' in
    wait < (ticks + 1) * 1000000 ∧ (1000000 ≤ wait → ticks * 1000000 ≤ wait) ∧ (wait < 1000000 → ticks = 1)) a.
Proof.
  intros Hd Hc Hn Hz Hb. apply wp_bind. eapply wp_mono; [by apply Apic.apic_timer_calibrate_spec|].
  intros [] a1 (_ & _ & Ht & Hr & _ & _). rewrite -Ht in Hb.
  eapply wp_mono; [apply Apic.apic_arm_spec; lia|]. intros [] a' ->.
  rewrite (decide_False (P := deadline = 0)); [lia|]. rewrite (decide_False (P := deadline < now)); [lia|].
  cbn [Apic.writes Apic.lapic_ticks_per_ms Apic.set_writes]. set (tpm := Apic.lapic_ticks_per_ms a1) in *.
  set (ticks := Apic.arm_ticks tpm now deadline).
  assert (0 ≤ (deadline - now) * tpm) as Hw by nia.
  assert (1 ≤ ticks < 2 ^ 32) as Hk.
  { subst ticks. unfold Apic.arm_ticks. split; [lia|]. apply Z.max_lub_lt; [done|]. by apply Z.div_lt_upper_bound; lia. }
  exists ticks. rewrite last_snoc /wrap32 Z.mod_small; [lia|]. split_and!; [done|lia|lia|..].
  - destruct (decide (1000000 ≤ (deadline - now) * tpm)) as [Hm|Hm].
    + subst ticks. pose proof (Apic.arm_ticks_bounds tpm now deadline). lia.
    + lia.
  - intros Hm. subst ticks. pose proof (Apic.arm_ticks_bounds tpm now deadline). lia.
  - intros Hm. subst ticks. unfold Apic.arm_ticks. rewrite Z.div_small; [lia|done].
Qed.
Lemma apic_arm_bounds_witness :
  wp (Apic.apic_timer_calibrate (λ _, mret tt) (2 ^ 32 - 1 - 50 * 62500);; Apic.apic_arm 1000 31000)
    (λ _ a', last (Apic.writes a') = Some (Apic.APIC_REG_TIMER_INITIAL, 1875)) (Apic.Apic [] 0 0 false false).
Proof.
  assert (Apic.delays (λ _, mret tt)) as Hd by done.
  pose proof (apic_arm_bounds (λ _, mret tt) (2 ^ 32 - 1 - 50 * 62500) 1000 31000 (Apic.Apic [] 0 0 false false)
    Hd ltac:(lia) ltac:(lia) ltac:(lia) ltac:(vm_compute; reflexivity)) as Hb.
  eapply wp_mono; [apply (wp_and _ _ (λ _ a', Apic.lapic_ticks_per_ms a' = 62500) _ Hb); vm_compute; reflexivity|].
  intros [] a' [(ticks & El & Hk & H1 & H2 & _) Et]. rewrite El. rewrite Et in H1, H2. do 2 f_equal. lia.
Defined.
