(* ===== verification/Glue.v ===== *)
(** * What the kernel offers to uACPI: [kernel/devkit/acpi/glue.c]

    The interpreter of ACPI tables is a library outside the repository; these are the
    routines it calls.  Windows onto physical memory compose the arena of addresses and
    the page tables; access to ports, memory and mutexes hands over to routines that are
    arguments here. *)

From S2P Require Import Prelude Pm Paging Vmem VmemInv VmemAlloc Slab Kmem.

(** ** Windows onto physical memory *)
Section map.
Context (feat : cpu_features) (kmap : Z).
Context (call_alloc : nat → option nat → Z → Z → M vworld Z).

(** One turn of the loop; [i * PAGE_SIZE] is a multiplication of [int]s. *)
Definition map_page (addr vaddr : Z) (i : nat) : M mworld unit :=
  let d := Z.of_nat i * PAGE_SIZE in
  if decide (d < 2 ^ 31) then vm_port_map feat kmap (wrap64 (addr + d)) (wrap64 (vaddr + d)) kVmUncached kVmAll
  else fail (Undefined "signed overflow").
Definition uacpi_kernel_map (fuel arena : nat) (addr len : Z) : M wired Z :=
  let offset := addr mod PAGE_SIZE in
  let len := PAGE_ALIGN_UP (wrap64 (len + offset)) in
  let addr := PAGE_ALIGN_DOWN addr in
  vaddr ← on_v (vm_map_allocate call_alloc fuel arena len);
  on_m (forM (seq 0 (Z.to_nat (len / PAGE_SIZE))) (map_page addr vaddr));;
  mret (wrap64 (vaddr + offset)).
Definition uacpi_kernel_unmap (addr len : Z) : M wired unit := mret tt.

Context (zone : Z → Prop).
(** [n] pages from [p] show the [n] frames from [a]. *)
Definition window (w : mworld) (p a : Z) (n : nat) : Prop := ∀ k, 0 ≤ k < Z.of_nat n →
  mapping (phys w) kmap (p + k * PAGE_SIZE) = Some (make_entry feat 0 (a + k * PAGE_SIZE) kVmUncached kVmAll).
Lemma map_pages_spec n w fl p a : pt_zone zone w fl kmap → (∀ k, 0 ≤ k < Z.of_nat n → zone (p + k * PAGE_SIZE)) → (3 * n ≤ length fl)%nat → Z.of_nat n * PAGE_SIZE ≤ 2 ^ 31 →
  0 ≤ p → p + Z.of_nat n * PAGE_SIZE ≤ 2 ^ 64 → 0 ≤ a → a + Z.of_nat n * PAGE_SIZE ≤ 2 ^ 64 →
  wp (forM (seq 0 n) (map_page a p)) (λ _ w', (∃ fl', pt_zone zone w' fl' kmap) ∧ window w' p a n ∧
    ∀ va, (∀ k, 0 ≤ k < Z.of_nat n → ¬ same_page (p + k * PAGE_SIZE) va) →
      mapping (phys w') kmap va = mapping (phys w) kmap va) w.
Proof.
  intros Ok Hz Hfl Hn Hp Hpe Ha Hae. set (I := λ (i : nat) w', (∃ fl', pt_zone zone w' fl' kmap ∧ (3 * (n - i) ≤ length fl')%nat) ∧
    window w' p a i ∧ ∀ va, (∀ k, 0 ≤ k < Z.of_nat i → ¬ same_page (p + k * PAGE_SIZE) va) →
      mapping (phys w') kmap va = mapping (phys w) kmap va).
  eapply wp_mono; [apply (wp_forM_seq 0 n _ I)|].
  - split_and!; [exists fl; split; [done|lia]|intros k Hk; lia|done].
  - intros i w' Hi ((fl' & Ok' & Hl') & Hwin & Hfr). unfold map_page.
    rewrite decide_True; [unfold PAGE_SIZE in *; lia|].
    rewrite !wrap64_small; [unfold PAGE_SIZE in *; lia..|].
    eapply wp_mono; [apply (vm_port_map_spec zone feat kmap w' fl' _ _ _ _ Ok'); [apply Hz; lia|lia|done]|].
    intros [] w2 (fl2 & Ok2 & M2 & _ & F2 & used & Efl & Hused & _).
    rewrite make_entry_present in M2. change (has kVmAll kVmRead) with true in M2. cbn iota in M2.
    assert (length fl' = length used + length fl2)%nat as Hlen by by rewrite Efl length_app.
    split_and!; [exists fl2; split; [done|lia]| |].
    + intros k Hk. destruct (decide (k = Z.of_nat i)) as [->|Hne]; [exact M2|]. rewrite F2; [|by apply Hwin; lia].
      apply pages_differ; unfold PAGE_SIZE in *; lia.
    + intros va Hva. rewrite F2; [apply Hva; lia|]. apply Hfr. intros k Hk. apply Hva. lia.
  - intros [] w' ((fl' & Ok' & _) & Hwin & Hfr). split; [by exists fl'|by split].
Qed.

(** An address of a mapped page and the page's own address use the same entry. *)
Lemma same_page_offset p o : p mod PAGE_SIZE = 0 → 0 ≤ o < PAGE_SIZE → same_page p (p + o).
Proof.
  intros Hp Ho. apply Z.mod_divide in Hp as [q ->]; [|done].
  assert (∀ l, 0 ≤ l → INDEX (q * PAGE_SIZE) l = INDEX (q * PAGE_SIZE + o) l) as H.
  { intros l Hl. rewrite !INDEX_div //.
    assert (∀ v, v / 2 ^ (12 + 9 * l) = v / PAGE_SIZE / 2 ^ (9 * l)) as Hd.
    { intros v. unfold PAGE_SIZE. rewrite Z.pow_add_r; [lia..|]. by rewrite Z.div_div; [|lia|]. }
    by rewrite !Hd (Z.div_add_l q) // (Z.div_mul q) // (Z.div_small o) // Z.add_0_r. }
  split; [|by apply H]. unfold upper. by rewrite !H.
Qed.
(** Byte [j] of the window is byte [j] of physical memory. *)
Definition shows (w : mworld) (r a j : Z) : Prop := ∃ e, mapping (phys w) kmap (r + j) = Some e ∧
  Z.land e pteAddress + (r + j) mod PAGE_SIZE = a + j ∧ has e ptePcd = true.
Lemma window_shows w p a n o j : window w p a n → p mod PAGE_SIZE = 0 → a mod PAGE_SIZE = 0 → 0 ≤ a →
  a + Z.of_nat n * PAGE_SIZE ≤ 2 ^ 52 → 0 ≤ o + j < Z.of_nat n * PAGE_SIZE → shows w (p + o) (a + o) j.
Proof.
  intros Hw Hp Ha Ha0 Hae Hj. set (x := o + j) in *.
  pose proof (Z.div_mod x PAGE_SIZE ltac:(done)) as Dx. pose proof (Z.mod_pos_bound x PAGE_SIZE ltac:(done)) as Bx.
  set (k := x / PAGE_SIZE) in *. set (y := x mod PAGE_SIZE) in *.
  assert (0 ≤ k < Z.of_nat n) as Hk by (unfold PAGE_SIZE in *; lia).
  assert ((p + k * PAGE_SIZE) mod PAGE_SIZE = 0) as Hpk by by rewrite Z.mod_add.
  destruct (align_down_spec (a + k * PAGE_SIZE) PAGE_SIZE ltac:(by exists 12)) as [D1 D2].
  assert (PAGE_ALIGN_DOWN (a + k * PAGE_SIZE) = a + k * PAGE_SIZE) as Ea.
  { change (PAGE_ALIGN_DOWN (a + k * PAGE_SIZE)) with (align_down (a + k * PAGE_SIZE) PAGE_SIZE).
    apply (multiples_close _ _ PAGE_SIZE); [done|done|by rewrite Z.mod_add|lia]. }
  exists (make_entry feat 0 (a + k * PAGE_SIZE) kVmUncached kVmAll).
  replace (p + o + j) with (p + k * PAGE_SIZE + y) by lia. split_and!.
  - rewrite -(mapping_same_page _ _ (p + k * PAGE_SIZE)); [by apply same_page_offset|]. by apply Hw.
  - rewrite make_entry_addr; [unfold PAGE_SIZE in *; lia|]. rewrite Ea -Zplus_mod_idemp_l Hpk Z.add_0_l Z.mod_small //. lia.
  - unfold has, make_entry. rewrite bool_decide_eq_true !Z.land_lor_distr_l. intros [_ H]%Z.lor_eq_0_iff. done.
Qed.

(** The pages a window of [len] bytes at [addr] takes. *)
Definition window_size (addr len : Z) : Z := PAGE_ALIGN_UP (wrap64 (len + addr mod PAGE_SIZE)).
Lemma window_size_bounds addr len : 0 ≤ addr → 0 < len → len + addr mod PAGE_SIZE < 2 ^ 31 - PAGE_SIZE →
  ∃ n, window_size addr len = Z.of_nat n * PAGE_SIZE ∧ len + addr mod PAGE_SIZE ≤ Z.of_nat n * PAGE_SIZE ∧
    Z.of_nat n * PAGE_SIZE < len + addr mod PAGE_SIZE + PAGE_SIZE.
Proof.
  intros Ha Hl Hb. pose proof (Z.mod_pos_bound addr PAGE_SIZE ltac:(done)) as Hm. unfold window_size.
  rewrite wrap64_small; [unfold PAGE_SIZE in *; lia|]. set (x := len + addr mod PAGE_SIZE) in *.
  destruct (align_up_spec x PAGE_SIZE ltac:(by exists 12)) as [U1 U2].
  assert (PAGE_ALIGN_UP x = align_up x PAGE_SIZE) as ->.
  { unfold PAGE_ALIGN_UP. rewrite (wrap64_small (x + PAGE_SIZE - 1)); [unfold PAGE_SIZE in *; lia|].
    rewrite wrap64_small //. unfold align_up in U2. unfold PAGE_SIZE in *. lia. }
  apply Z.mod_divide in U1 as [q Hq]; [|done]. rewrite Hq in U2 |- *. exists (Z.to_nat q).
  rewrite Z2Nat.id; [unfold PAGE_SIZE in *; lia|]. lia.
Qed.

(** A window shows the physical memory that was asked for, byte by byte, uncached; all
    other addresses are mapped as before. *)
Lemma uacpi_kernel_map_spec fuel w p v ss R fl addr len : let size := window_size addr len in
  arena_at (wv w) p v ss R → (0 < fuel)%nat → quantum v = PAGE_SIZE →
  0 ≤ addr → 0 < len → len + addr mod PAGE_SIZE < 2 ^ 31 - PAGE_SIZE → addr + len + PAGE_SIZE ≤ 2 ^ 52 →
  request_ok v size (eff_align v 0) 0 VMEM_ADDR_MIN VMEM_ADDR_MAX →
  (∀ s, s ∈ ss → type s = SEGMENT_FREE → no_wrap (eff_align v 0) s) →
  (∃ s a, s ∈ ss ∧ type s = SEGMENT_FREE ∧ fits size (eff_align v 0) 0 VMEM_ADDR_MIN VMEM_ADDR_MAX s a) →
  (∀ s va, s ∈ ss → type s = SEGMENT_FREE → base s ≤ va < base s + Vmem.size s → zone va) →
  pt_zone zone (wm w) fl kmap → 3 * (size / PAGE_SIZE) + 1 ≤ Z.of_nat (length fl) →
  wp (uacpi_kernel_map fuel p addr len) (λ r w', ∃ base, r = base + addr mod PAGE_SIZE ∧
    (∀ j, 0 ≤ j < len → shows (wm w') r addr j) ∧ (∃ fl', pt_zone zone (wm w') fl' kmap) ∧
    (∀ va, (∀ k, 0 ≤ k < size / PAGE_SIZE → ¬ same_page (base + k * PAGE_SIZE) va) →
      mapping (phys (wm w')) kmap va = mapping (phys (wm w)) kmap va) ∧
    ∃ s, s ∈ ss ∧ type s = SEGMENT_FREE ∧ fits size (eff_align v 0) 0 VMEM_ADDR_MIN VMEM_ADDR_MAX s base ∧
      ∃ v' ss', arena_at (wv w') p v' ss' R) w.
Proof.
  intros size A Hf Hq Ha Hl Hb Hae Hreq Hnw Hfit Hz Ok Hfl.
  destruct (window_size_bounds addr len Ha Hl Hb) as (n & En & B1 & B2). fold size in En.
  pose proof (Z.mod_pos_bound addr PAGE_SIZE ltac:(done)) as Hm.
  assert (PAGE_ALIGN_DOWN addr = addr - addr mod PAGE_SIZE) as Ed by (apply (align_down_eq addr PAGE_SIZE); by exists 12).
  destruct (align_down_spec addr PAGE_SIZE ltac:(by exists 12)) as [D1 D2].
  change (align_down addr PAGE_SIZE) with (PAGE_ALIGN_DOWN addr) in *. set (a := PAGE_ALIGN_DOWN addr) in *.
  assert (0 ≤ a) as Ha0 by (pose proof (Z.mod_le addr PAGE_SIZE Ha ltac:(done)); lia).
  assert (size / PAGE_SIZE = Z.of_nat n) as Ec by (rewrite En Z.div_mul //). rewrite Ec in Hfl.
  unfold uacpi_kernel_map. fold (window_size addr len) size. rewrite Ec Nat2Z.id. apply wp_bind, (wp_on_v _ _ _ _ w fl Ok); [lia|]. intros Hsh.
  eapply wp_mono; [eapply vmem_xalloc_spec; [by apply arena_at_shared|right; lia|done..]|].
  intros r v1 (pre & s & post & v' & ss' & Ess & Ht & Hr & _ & A' & _ & _ & _ & Hp1). split; [lia|].
  intros m1 fl1 Ok1 P1 _ Hl1 _.
  assert (s ∈ ss) as Hs0 by (rewrite Ess; set_solver). pose proof (Hnw s Hs0 Ht) as (Hb0 & _ & Hw).
  pose proof Hr as (R1 & _ & R3 & _ & R5). rewrite eff_align_0 Hq in Hw, R5. rewrite En in R3.
  apply wp_bind, wp_on_m. cbn [wm wv]. fold a.
  eapply wp_mono; [apply (map_pages_spec n m1 fl1 r a Ok1); [|unfold PAGE_SIZE in *; lia..]|].
  { intros k Hk. apply (Hz s _ Hs0 Ht). unfold PAGE_SIZE in *. lia. }
  intros [] m (Ok' & Hwin & Hfr). rewrite P1 in Hfr. apply wp_ret. exists r.
  rewrite wrap64_small; [unfold PAGE_SIZE in *; lia|]. split_and!; [done| |done|done|].
  - intros j Hj. replace addr with (a + addr mod PAGE_SIZE) at 2 by lia. apply (window_shows _ _ _ n); try done; lia.
  - exists s. split_and!; [done|done|done|]. by exists v', ss'.
Qed.
End map.

(** ** Raw access *)
Inductive uacpi_status := UACPI_STATUS_OK | UACPI_STATUS_INVALID_ARGUMENT.
Section raw.
Context {W : Type}.
(** Memory through a window, and the port instructions, by width in bytes. *)
Context (kernel_map : Z → Z → M W Z) (kernel_unmap : Z → Z → M W unit).
Context (load : Z → Z → M W Z) (store : Z → Z → Z → M W unit).
Context (port_in : Z → Z → M W Z) (port_out : Z → Z → Z → M W unit).

(** The value is returned with the status; none is stored for an unknown width. *)
Definition uacpi_kernel_raw_memory_read (address width : Z) : M W (uacpi_status * option Z) :=
  ptr ← kernel_map address width;
  if decide (width = 1 ∨ width = 2 ∨ width = 4 ∨ width = 8) then
    v ← load ptr width; mret (UACPI_STATUS_OK, Some v)
  else kernel_unmap ptr width;; mret (UACPI_STATUS_INVALID_ARGUMENT, None).
Definition uacpi_kernel_raw_memory_write (address width v : Z) : M W uacpi_status :=
  ptr ← kernel_map address width;
  if decide (width = 1 ∨ width = 2 ∨ width = 4 ∨ width = 8) then
    store ptr width (v mod 2 ^ (8 * width));;
    kernel_unmap ptr width;;
    mret UACPI_STATUS_OK
  else kernel_unmap ptr width;; mret UACPI_STATUS_INVALID_ARGUMENT.
(** The port number is 16 bits wide, 32 for [inl]. *)
Definition uacpi_kernel_raw_io_read (addr width : Z) : M W (uacpi_status * option Z) :=
  if decide (width = 1 ∨ width = 2) then v ← port_in (wrap16 addr) width; mret (UACPI_STATUS_OK, Some v)
  else if decide (width = 4) then v ← port_in (wrap32 addr) width; mret (UACPI_STATUS_OK, Some v)
  else mret (UACPI_STATUS_INVALID_ARGUMENT, None).
Definition uacpi_kernel_raw_io_write (addr width v : Z) : M W uacpi_status :=
  if decide (width = 1 ∨ width = 2 ∨ width = 4) then
    port_out (wrap16 addr) width (v mod 2 ^ (8 * width));; mret UACPI_STATUS_OK
  else mret UACPI_STATUS_INVALID_ARGUMENT.
Definition uacpi_kernel_io_map (base len : Z) : uacpi_status * Z := (UACPI_STATUS_OK, base).
Definition uacpi_kernel_io_read (handle offset width : Z) : M W (uacpi_status * option Z) :=
  uacpi_kernel_raw_io_read (wrap64 (handle + offset)) width.
Definition uacpi_kernel_io_write (handle offset width v : Z) : M W uacpi_status :=
  uacpi_kernel_raw_io_write (wrap64 (handle + offset)) width v.

(** ** Time and mutexes *)
Definition kWaitTimeoutInfinite : Z := -1.
Definition uacpi_kernel_get_ticks (current_nanos : M W Z) : M W Z := n ← current_nanos; mret (n / 100).
Definition uacpi_kernel_stall (time_delay : Z → M W unit) (usec : Z) : M W unit := time_delay (usec * 1000).
Definition uacpi_kernel_sleep (sched_sleep : Z → M W unit) (msec : Z) : M W unit :=
  sched_sleep (wrap64 (msec * 1000 * 1000)).
(** [timeout] is a variable of 16 bits. *)
Definition uacpi_kernel_acquire_mutex (mutex_acquire : nat → Z → M W Z) (mutex : nat) (timeout : Z) : M W bool :=
  let timeout := if decide (timeout = 0xFFFF) then wrap16 kWaitTimeoutInfinite else timeout in
  r ← mutex_acquire mutex timeout;
  mret (bool_decide (r = 0)).

(** No request of uACPI waits forever: what is handed on is never the infinite time-out. *)
Lemma acquire_mutex_finite (wait : nat → Z → M W Z) mutex timeout : 0 ≤ timeout ≤ 0xFFFF →
  ∃ t, 0 ≤ t ≤ 0xFFFF ∧ t ≠ kWaitTimeoutInfinite ∧
    uacpi_kernel_acquire_mutex wait mutex timeout = (r ← wait mutex t; mret (bool_decide (r = 0))).
Proof.
  intros Ht. exists timeout. split_and!; [lia|lia|unfold kWaitTimeoutInfinite; lia|].
  unfold uacpi_kernel_acquire_mutex. case_decide as E; [|done]. by rewrite E.
Qed.
End raw.

(** ** Memory, mutexes and spin locks for uACPI *)
Section memory.
Context {V : Type} `{VmPages V}.
Notation W := (slabw V).
Context (construct : nat → Z → Z → M (slabw V) Z) (destroy : nat → Z → Z → M (slabw V) unit) (kmalloc_caches : list Z).
(** [memset], and the initialisation of a mutex and of a spin lock at an address. *)
Context (zero : Z → Z → M W unit) (mutex_init SPINLOCK_INIT : Z → M W unit) (sizeof_mutex sizeof_spinlock : Z).

Definition uacpi_kernel_alloc (size : Z) : M W Z := kmalloc construct kmalloc_caches size.
Definition uacpi_kernel_calloc (count size : Z) : M W Z := kcalloc construct zero kmalloc_caches count size.
Definition uacpi_kernel_free (mem size_hint : Z) : M W unit := kfree destroy kmalloc_caches mem size_hint.
(** Both objects: allocated, then initialised unless there is no memory. *)
Definition uacpi_kernel_create_mutex : M W Z :=
  mutex ← kmalloc construct kmalloc_caches sizeof_mutex;
  if decide (mutex = 0) then mret 0 else mutex_init mutex;; mret mutex.
Definition uacpi_kernel_free_mutex (mutex : Z) : M W unit := kfree destroy kmalloc_caches mutex sizeof_mutex.
Definition uacpi_kernel_create_spinlock : M W Z :=
  lock ← kmalloc construct kmalloc_caches sizeof_spinlock;
  if decide (lock = 0) then mret 0 else SPINLOCK_INIT lock;; mret lock.
Definition uacpi_kernel_free_spinlock (lock : Z) : M W unit := kfree destroy kmalloc_caches lock sizeof_spinlock.

(** A product that leaves 64 bits is not refused: 2^63 objects of two bytes get a block
    of the smallest size class. *)
Lemma calloc_wraps : uacpi_kernel_calloc (2 ^ 63) 2 =
  (ptr ← kmalloc construct kmalloc_caches 0; zero ptr 0;; mret ptr).
Proof. done. Qed.
End memory.
