(* ===== verification/GlueProps.v ===== *)
(** * Windows onto physical memory: the property of [uacpi_kernel_map] *)

From S2P Require Import Prelude Vmem VmemInv VmemAlloc VmemProps Pm Paging MemProps Kmem Glue.

(** C34: When the arena of addresses has room and the page frame allocator has three frames
    per page for page tables and one more for boundary tags of the arena, which come off
    the same free list, [uacpi_kernel_map] returns, for a range of physical memory of any
    alignment, an address [r] inside one free segment of the arena such that byte [j] of
    [r] is byte [j] of the range, through uncached pages; no other address is mapped
    differently than before, and the arena and the tables keep their invariants. *)
Theorem uacpi_window_shows_memory feat kmap zone ca fuel w p v ss R fl addr len : let size := window_size addr len in
  arena_at (wv w) p v ss R → (0 < fuel)%nat → quantum v = PAGE_SIZE →
  0 ≤ addr → 0 < len → len + addr mod PAGE_SIZE < 2 ^ 31 - PAGE_SIZE → addr + len + PAGE_SIZE ≤ 2 ^ 52 →
  request_ok v size (eff_align v 0) 0 VMEM_ADDR_MIN VMEM_ADDR_MAX →
  (∀ s, s ∈ ss → type s = SEGMENT_FREE → no_wrap (eff_align v 0) s) →
  (∃ s a, s ∈ ss ∧ type s = SEGMENT_FREE ∧ fits size (eff_align v 0) 0 VMEM_ADDR_MIN VMEM_ADDR_MAX s a) →
  (∀ s va, s ∈ ss → type s = SEGMENT_FREE → base s ≤ va < base s + Vmem.size s → zone va) →
  pt_zone zone (wm w) fl kmap → 3 * (size / PAGE_SIZE) + 1 ≤ Z.of_nat (length fl) →
  wp (uacpi_kernel_map feat kmap ca fuel p addr len) (λ r w', ∃ base, r = base + addr mod PAGE_SIZE ∧
    (∀ j, 0 ≤ j < len → shows kmap (wm w') r addr j) ∧ (∃ fl', pt_zone zone (wm w') fl' kmap) ∧
    (∀ va, (∀ k, 0 ≤ k < size / PAGE_SIZE → ¬ same_page (base + k * PAGE_SIZE) va) →
      mapping (phys (wm w')) kmap va = mapping (phys (wm w)) kmap va) ∧
    ∃ s, s ∈ ss ∧ type s = SEGMENT_FREE ∧ fits size (eff_align v 0) 0 VMEM_ADDR_MIN VMEM_ADDR_MAX s base ∧
      ∃ v' ss', arena_at (wv w') p v' ss' R) w.
Proof. apply uacpi_kernel_map_spec. Qed.

(** 0x2000 bytes at 0xfed00010 take three pages. *)
Lemma uacpi_window_shows_memory_witness :
  wp (uacpi_kernel_map feat 0x101000 no_alloc 1 0 0xfed00010 0x2000)
    (λ r w', r mod PAGE_SIZE = 0x10 ∧ shows 0x101000 (wm w') r 0xfed00010 0x1fff) (Wired demo_world mem2).
Proof.
  destruct demo_ready as (v & ss & A & Hv & Hq & _). destruct (demo_layout v ss Hq Hv) as (_ & Hw & Hfit).
  eapply wp_mono; [apply (uacpi_window_shows_memory feat 0x101000 (λ _, True) no_alloc 1 (Wired demo_world mem2) 0 v ss ∅ (seq 2 14) 0xfed00010 0x2000)|].
  - exact A.
  - lia.
  - exact Hq.
  - lia.
  - lia.
  - vm_compute. reflexivity.
  - vm_compute. congruence.
  - exact (demo_request v Hq).
  - exact Hw.
  - exact Hfit.
  - done.
  - exact mem2_ok.
  - vm_compute. congruence.
  - intros r w' (base & -> & Hs & _ & _ & s & _ & _ & (_ & _ & _ & _ & Hb) & _). rewrite eff_align_0 Hq in Hb. split.
    + rewrite -Zplus_mod_idemp_l. change PAGE_SIZE with 0x1000 in *. rewrite Hb. reflexivity.
    + apply Hs. lia.
Defined.
