(* ===== verification/Npf.v ===== *)
(** * Formatted output: [kernel/include/nanoprintf.h]

    The formatter as [kernel/lib/log.c] configures it: field widths, precisions, 64-bit
    and binary conversions, no floating point and no write-back.  A C string is the list
    of its [char]s before the terminating zero, as the signed numbers they are on amd64,
    so the empty list stands for a pointer at the zero.  A variable argument of the wrong
    type is undefined and a store past the conversion buffer out of bounds.  The kernel is
    compiled with [-fwrapv]: the count of the characters printed wraps around; that a width,
    a precision or a padding leaves its [int] is an error, and the theorems say when that
    does not happen. *)

From S2P Require Import Prelude.

Definition cstring : Type := list Z.
Definition NANOPRINTF_CONVERSION_BUFFER_SIZE : nat := 23.

(** Characters *)
Definition c_percent : Z := 37.
Definition c_minus : Z := 45.
Definition c_plus : Z := 43.
Definition c_space : Z := 32.
Definition c_hash : Z := 35.
Definition c_star : Z := 42.
Definition c_dot : Z := 46.
Definition c_0 : Z := 48.
Definition c_9 : Z := 57.
Definition c_A : Z := 65.
Definition c_B : Z := 66.
Definition c_X : Z := 88.
Definition c_b : Z := 98.
Definition c_c : Z := 99.
Definition c_d : Z := 100.
Definition c_h : Z := 104.
Definition c_i : Z := 105.
Definition c_j : Z := 106.
Definition c_l : Z := 108.
Definition c_o : Z := 111.
Definition c_p : Z := 112.
Definition c_s : Z := 115.
Definition c_t : Z := 116.
Definition c_u : Z := 117.
Definition c_x : Z := 120.
Definition c_z : Z := 122.

(** ** The parsed specification *)
Inductive spec_opt := NPF_FMT_SPEC_OPT_NONE | NPF_FMT_SPEC_OPT_LITERAL | NPF_FMT_SPEC_OPT_STAR.
#[global] Instance spec_opt_eq_dec : EqDecision spec_opt.
Proof. solve_decision. Defined.
Inductive len_mod :=
| LEN_MOD_NONE | LEN_MOD_SHORT | LEN_MOD_LONG_DOUBLE | LEN_MOD_CHAR | LEN_MOD_LONG
| LEN_MOD_LARGE_LONG_LONG | LEN_MOD_LARGE_INTMAX | LEN_MOD_LARGE_SIZET | LEN_MOD_LARGE_PTRDIFFT.
Inductive conv_spec_t :=
| CONV_NONE | CONV_PERCENT | CONV_CHAR | CONV_STRING | CONV_SIGNED_INT | CONV_BINARY | CONV_OCTAL | CONV_HEX_INT
| CONV_UNSIGNED_INT | CONV_POINTER.
#[global] Instance conv_spec_eq_dec : EqDecision conv_spec_t.
Proof. solve_decision. Defined.

(** [prepend] is 0, a space or a plus; [case_adjust] is ['a' - 'A'] or 0. *)
Record npf_format_spec_t := Spec {
  field_width : Z; field_width_opt : spec_opt; left_justified : bool; leading_zero_pad : bool;
  prec : Z; prec_opt : spec_opt; prepend : Z; alt_form : bool; case_adjust : Z;
  length_modifier : len_mod; conv_spec : conv_spec_t;
}.
Definition spec0 : npf_format_spec_t :=
  Spec 0 NPF_FMT_SPEC_OPT_NONE false false 0 NPF_FMT_SPEC_OPT_NONE 0 false 32 LEN_MOD_NONE CONV_NONE.
Definition set_left (l z : bool) (s : npf_format_spec_t) :=
  Spec (field_width s) (field_width_opt s) l z (prec s) (prec_opt s) (prepend s) (alt_form s) (case_adjust s)
    (length_modifier s) (conv_spec s).
Definition set_prepend (c : Z) (s : npf_format_spec_t) :=
  Spec (field_width s) (field_width_opt s) (left_justified s) (leading_zero_pad s) (prec s) (prec_opt s) c (alt_form s)
    (case_adjust s) (length_modifier s) (conv_spec s).
Definition set_alt (b : bool) (s : npf_format_spec_t) :=
  Spec (field_width s) (field_width_opt s) (left_justified s) (leading_zero_pad s) (prec s) (prec_opt s) (prepend s) b
    (case_adjust s) (length_modifier s) (conv_spec s).
Definition set_width (w : Z) (o : spec_opt) (s : npf_format_spec_t) :=
  Spec w o (left_justified s) (leading_zero_pad s) (prec s) (prec_opt s) (prepend s) (alt_form s) (case_adjust s)
    (length_modifier s) (conv_spec s).
Definition set_prec (p : Z) (o : spec_opt) (s : npf_format_spec_t) :=
  Spec (field_width s) (field_width_opt s) (left_justified s) (leading_zero_pad s) p o (prepend s) (alt_form s)
    (case_adjust s) (length_modifier s) (conv_spec s).
Definition set_length (m : len_mod) (s : npf_format_spec_t) :=
  Spec (field_width s) (field_width_opt s) (left_justified s) (leading_zero_pad s) (prec s) (prec_opt s) (prepend s)
    (alt_form s) (case_adjust s) m (conv_spec s).
Definition set_conv (adj : Z) (c : conv_spec_t) (s : npf_format_spec_t) :=
  Spec (field_width s) (field_width_opt s) (left_justified s) (leading_zero_pad s) (prec s) (prec_opt s) (prepend s)
    (alt_form s) adj (length_modifier s) c.

(** ** [npf_parse_format_spec] *)
(** The loop over the flags. *)
Fixpoint parse_flags (cur : cstring) (s : npf_format_spec_t) : npf_format_spec_t * cstring :=
  match cur with
  | [] => (s, [])
  | c :: cur' =>
      if decide (c = c_minus) then parse_flags cur' (set_left true false s)
      else if decide (c = c_0) then parse_flags cur' (set_left (left_justified s) (negb (left_justified s)) s)
      else if decide (c = c_plus) then parse_flags cur' (set_prepend c_plus s)
      else if decide (c = c_space) then
        parse_flags cur' (if decide (prepend s = 0) then set_prepend c_space s else s)
      else if decide (c = c_hash) then parse_flags cur' (set_alt true s)
      else (s, cur)
  end.
Definition is_digit (c : Z) : bool := bool_decide (c_0 ≤ c ∧ c ≤ c_9).
(** A run of digits added to the number [n], an [int]. *)
Fixpoint parse_digits (cur : cstring) (n : Z) : outcome (Z * cstring) :=
  match cur with
  | c :: cur' =>
      if is_digit c then
        let m := n * 10 + (c - c_0) in
        if decide (m < 2 ^ 31) then parse_digits cur' m else Panic (Undefined "int overflow")
      else Ok (n, cur)
  | [] => Ok (n, [])
  end.
Definition starts (c : Z) (cur : cstring) : bool := match cur with x :: _ => bool_decide (x = c) | [] => false end.

Definition parse_width (s : npf_format_spec_t) (cur : cstring) : outcome (npf_format_spec_t * cstring) :=
  let s := set_width (field_width s) NPF_FMT_SPEC_OPT_NONE s in
  if starts c_star cur then Ok (set_width (field_width s) NPF_FMT_SPEC_OPT_STAR s, tail cur)
  else
    match parse_digits cur 0 with
    | Ok (w, cur') =>
        let o := match cur with c :: _ => if is_digit c then NPF_FMT_SPEC_OPT_LITERAL else NPF_FMT_SPEC_OPT_NONE
                 | [] => NPF_FMT_SPEC_OPT_NONE end in
        Ok (set_width w o s, cur')
    | Panic e => Panic e
    end.
Definition parse_prec (s : npf_format_spec_t) (cur : cstring) : outcome (npf_format_spec_t * cstring) :=
  let s := set_prec 0 NPF_FMT_SPEC_OPT_NONE s in
  if negb (starts c_dot cur) then Ok (s, cur) else
  let cur := tail cur in
  if starts c_star cur then Ok (set_prec (prec s) NPF_FMT_SPEC_OPT_STAR s, tail cur) else
  let '(s, cur) := if starts c_minus cur then (s, tail cur) else (set_prec (prec s) NPF_FMT_SPEC_OPT_LITERAL s, cur) in
  match parse_digits cur (prec s) with
  | Ok (p, cur') => Ok (set_prec p (prec_opt s) s, cur')
  | Panic e => Panic e
  end.
Definition parse_length (s : npf_format_spec_t) (cur : cstring) : npf_format_spec_t * cstring :=
  match cur with
  | [] => (set_length LEN_MOD_NONE s, cur)
  | c :: cur' =>
      if decide (c = c_h) then
        if starts c_h cur' then (set_length LEN_MOD_CHAR s, tail cur') else (set_length LEN_MOD_SHORT s, cur')
      else if decide (c = c_l) then
        if starts c_l cur' then (set_length LEN_MOD_LARGE_LONG_LONG s, tail cur') else (set_length LEN_MOD_LONG s, cur')
      else if decide (c = c_j) then (set_length LEN_MOD_LARGE_INTMAX s, cur')
      else if decide (c = c_z) then (set_length LEN_MOD_LARGE_SIZET s, cur')
      else if decide (c = c_t) then (set_length LEN_MOD_LARGE_PTRDIFFT s, cur')
      else (set_length LEN_MOD_NONE s, cur)
  end.
(** The cases that fall through to ['x'] share [int_conv]. *)
Definition int_conv (adj : Z) (c : conv_spec_t) (s : npf_format_spec_t) : npf_format_spec_t :=
  let s := set_conv adj c s in
  if decide (prec_opt s ≠ NPF_FMT_SPEC_OPT_NONE) then set_left (left_justified s) false s else s.
Definition parse_conv (s : npf_format_spec_t) (cur : cstring) : option (npf_format_spec_t * cstring) :=
  let adj := case_adjust s in
  let no_prec := set_prec (prec s) NPF_FMT_SPEC_OPT_NONE s in
  match cur with
  | [] => None
  | c :: cur' =>
      if decide (c = c_percent) then Some (set_conv adj CONV_PERCENT no_prec, cur')
      else if decide (c = c_c) then Some (set_conv adj CONV_CHAR no_prec, cur')
      else if decide (c = c_s) then Some (set_conv adj CONV_STRING (set_left (left_justified s) false s), cur')
      else if decide (c = c_i ∨ c = c_d) then Some (int_conv adj CONV_SIGNED_INT s, cur')
      else if decide (c = c_o) then Some (int_conv adj CONV_OCTAL s, cur')
      else if decide (c = c_u) then Some (int_conv adj CONV_UNSIGNED_INT s, cur')
      else if decide (c = c_X) then Some (int_conv 0 CONV_HEX_INT s, cur')
      else if decide (c = c_x) then Some (int_conv adj CONV_HEX_INT s, cur')
      else if decide (c = c_p) then Some (set_conv adj CONV_POINTER no_prec, cur')
      else if decide (c = c_B) then Some (set_conv 0 CONV_BINARY s, cur')
      else if decide (c = c_b) then Some (set_conv adj CONV_BINARY s, cur')
      else None
  end.
(** The specification and what follows it in the format, or [None] for the result 0;
    [cur] is what follows the percent sign. *)
Definition npf_parse_format_spec (cur : cstring) : outcome (option (npf_format_spec_t * cstring)) :=
  let '(s, cur) := parse_flags cur spec0 in
  match parse_width s cur with
  | Ok (s, cur) =>
      match parse_prec s cur with
      | Ok (s, cur) => let '(s, cur) := parse_length s cur in Ok (parse_conv s cur)
      | Panic e => Panic e
      end
  | Panic e => Panic e
  end.

(** ** Conversion of numbers *)
(** The character of a digit. *)
Definition digit_char (case_adj d : Z) : Z := (if decide (d < 10) then c_0 else c_A - 10 + case_adj) + d.
(** The [do ... while (val)] loop: the digits, lowest first. *)
Fixpoint npf_utoa_rev (fuel : nat) (val base case_adj : Z) : outcome cstring :=
  match fuel with
  | O => Panic OutOfFuel
  | S fuel =>
      let c := digit_char case_adj (val mod base) in
      let val := val / base in
      if decide (val = 0) then Ok [c]
      else match npf_utoa_rev fuel val base case_adj with Ok l => Ok (c :: l) | Panic e => Panic e end
  end.
(** Enough for the 64 binary digits of a word. *)
Definition UTOA_FUEL : nat := 64.

(** [64 - __builtin_clzll(u)] *)
Definition npf_bin_len (u : Z) : Z := if decide (u = 0) then 1 else Z.log2 u + 1.
Definition npf_max (x y : Z) : Z := if decide (x > y) then x else y.

(** ** Variable arguments

    An argument is what the caller passed: an [int] or [unsigned], a 64-bit integer, or a
    pointer with the string it points at, if it is one. *)
Inductive arg := AInt (v : Z) | ALong (v : Z) | APtr (p : Z) (s : option cstring).
Definition sint (n : Z) (x : Z) : Z := let y := x mod 2 ^ n in if decide (y < 2 ^ (n - 1)) then y else y - 2 ^ n.

(** The arguments still to be read are a state of their own. *)
Definition va_arg : M (list arg) arg :=
  l ← get; match l with a :: l => put l;; mret a | [] => fail (Undefined "va_arg") end.
Definition lift {S A} (x : outcome A) : M S A := λ s, match x with Ok a => Ok (a, s) | Panic e => Panic e end.
Definition va_int : M (list arg) Z := a ← va_arg; match a with AInt v => mret v | _ => fail (Undefined "va_arg(int)") end.
Definition va_long : M (list arg) Z := a ← va_arg; match a with ALong v => mret v | _ => fail (Undefined "va_arg(long)") end.
Definition va_ptr : M (list arg) (Z * option cstring) :=
  a ← va_arg; match a with APtr p s => mret (p, s) | _ => fail (Undefined "va_arg(void *)") end.

(** [NPF_EXTRACT] for the signed and the unsigned conversions. *)
Definition extract_signed (m : len_mod) : M (list arg) Z :=
  match m with
  | LEN_MOD_NONE | LEN_MOD_LONG_DOUBLE => v ← va_int; mret (sint 32 v)
  | LEN_MOD_SHORT => v ← va_int; mret (sint 16 v)
  | LEN_MOD_CHAR => v ← va_int; mret (sint 8 v)
  | _ => v ← va_long; mret (sint 64 v)
  end.
Definition extract_unsigned (m : len_mod) : M (list arg) Z :=
  match m with
  | LEN_MOD_NONE | LEN_MOD_LONG_DOUBLE => v ← va_int; mret (wrap32 v)
  | LEN_MOD_SHORT => v ← va_int; mret (wrap16 v)
  | LEN_MOD_CHAR => v ← va_int; mret (wrap8 v)
  | _ => v ← va_long; mret (wrap64 v)
  end.

(** What the [switch] over the conversion leaves behind: the text in the order of the
    buffer, its length, the sign, the letter of the prefix, whether the value is zero. *)
Record conv := Conv { cbuf : cstring; cbuf_len : Z; sign_c : Z; need_0x : Z; zero : bool; binval : Z; c_fs : npf_format_spec_t }.

(** A store into the conversion buffer. *)
Definition in_cbuf (l : cstring) : M (list arg) cstring :=
  if decide (length l ≤ NANOPRINTF_CONVERSION_BUFFER_SIZE)%nat then mret l else fail (OutOfBounds "cbuf").
Definition utoa (val base adj : Z) : M (list arg) cstring :=
  l ← lift (npf_utoa_rev UTOA_FUEL val base adj); in_cbuf l.

Definition no_digits (fs : npf_format_spec_t) (val : Z) : bool :=
  bool_decide (val = 0 ∧ prec_opt fs ≠ NPF_FMT_SPEC_OPT_NONE ∧ prec fs = 0).
Definition conv_signed (fs : npf_format_spec_t) : M (list arg) conv :=
  val ← extract_signed (length_modifier fs);
  let sign := if decide (val < 0) then c_minus else prepend fs in
  l ← (if no_digits fs val then mret []
       else let uval := wrap64 val in utoa (if decide (val < 0) then wrap64 (0 - uval) else uval) 10 (case_adjust fs));
  mret (Conv l (Z.of_nat (length l)) sign 0 (bool_decide (val = 0)) 0 fs).
Definition conv_unsigned (fs : npf_format_spec_t) : M (list arg) conv :=
  val ← extract_unsigned (length_modifier fs);
  r ←
    (if no_digits fs val then
       mret ([], 0, 0, if decide (conv_spec fs = CONV_OCTAL ∧ alt_form fs = true) then set_prec 1 (prec_opt fs) fs else fs)
     else if decide (conv_spec fs = CONV_BINARY) then mret ([], npf_bin_len val, val, fs)
     else
       let base := if decide (conv_spec fs = CONV_OCTAL) then 8 else if decide (conv_spec fs = CONV_HEX_INT) then 16 else 10 in
       l ← utoa val base (case_adjust fs); mret (l, Z.of_nat (length l), 0, fs));
  let '(l, len, bin, fs) := r in
  r ← (if decide (val ≠ 0 ∧ alt_form fs = true ∧ conv_spec fs = CONV_OCTAL) then
         l ← in_cbuf (l ++ [c_0]); mret (l, len + 1)
       else mret (l, len));
  let '(l, len) := r in
  let need :=
    if decide (val ≠ 0 ∧ alt_form fs = true) then
      if decide (conv_spec fs = CONV_HEX_INT) then c_X + case_adjust fs
      else if decide (conv_spec fs = CONV_BINARY) then c_B + case_adjust fs else 0
    else 0 in
  mret (Conv l len 0 need (bool_decide (val = 0)) bin fs).
(** The length of a string, up to the precision. *)
Definition str_len (fs : npf_format_spec_t) (s : cstring) : Z :=
  if decide (prec_opt fs = NPF_FMT_SPEC_OPT_NONE) then Z.of_nat (length s) else Z.max 0 (Z.min (prec fs) (Z.of_nat (length s))).
Definition convert (fs : npf_format_spec_t) : M (list arg) conv :=
  match conv_spec fs with
  | CONV_PERCENT => mret (Conv [c_percent] 1 0 0 false 0 fs)
  | CONV_CHAR => v ← va_int; mret (Conv [sint 8 v] 1 0 0 false 0 fs)
  | CONV_STRING => p ← va_ptr; s ← deref "cbuf" (p.2); mret (Conv s (str_len fs s) 0 0 false 0 fs)
  | CONV_SIGNED_INT => conv_signed fs
  | CONV_BINARY | CONV_OCTAL | CONV_HEX_INT | CONV_UNSIGNED_INT => conv_unsigned fs
  | CONV_POINTER => p ← va_ptr; l ← utoa (wrap64 (p.1)) 16 32; mret (Conv l (Z.of_nat (length l)) 0 c_x false 0 fs)
  | CONV_NONE => mret (Conv [] 0 0 0 false 0 fs)
  end.

(** The star arguments. *)
Definition star_width (fs : npf_format_spec_t) : M (list arg) npf_format_spec_t :=
  if decide (field_width_opt fs = NPF_FMT_SPEC_OPT_STAR) then
    v ← va_int;
    let w := sint 32 v in
    if decide (w < 0) then
      if decide (w = - 2 ^ 31) then fail (Undefined "int overflow") else
      mret (set_left true (leading_zero_pad fs) (set_width (- w) (field_width_opt fs) fs))
    else mret (set_width w (field_width_opt fs) fs)
  else mret fs.
Definition star_prec (fs : npf_format_spec_t) : M (list arg) npf_format_spec_t :=
  if decide (prec_opt fs = NPF_FMT_SPEC_OPT_STAR) then
    v ← va_int;
    let p := sint 32 v in
    mret (set_prec p (if decide (p < 0) then NPF_FMT_SPEC_OPT_NONE else prec_opt fs) fs)
  else mret fs.

(** All that reads arguments. *)
Definition prepare (fs : npf_format_spec_t) : M (list arg) conv :=
  fs ← star_width fs; fs ← star_prec fs; convert fs.

(** The pad character of the field, or 0. *)
Definition pad_char (k : conv) : Z :=
  let fs := c_fs k in
  if decide (field_width_opt fs = NPF_FMT_SPEC_OPT_NONE) then 0
  else if leading_zero_pad fs then
    if decide (conv_spec fs ≠ CONV_STRING ∧ conv_spec fs ≠ CONV_CHAR ∧ conv_spec fs ≠ CONV_PERCENT) then
      if decide (prec_opt fs ≠ NPF_FMT_SPEC_OPT_NONE ∧ prec fs = 0 ∧ zero k = true) then c_space else c_0
    else 0
  else c_space.
Definition prefix_text (k : conv) : cstring := if decide (need_0x k ≠ 0) then [c_0; need_0x k] else [].
Definition sign_text (c : Z) : cstring := if decide (c ≠ 0) then [c] else [].
(** [while (cbuf_len) ...]: the binary digits, highest first. *)
Fixpoint bin_digits (n : nat) (v : Z) : cstring :=
  match n with O => [] | S n => (c_0 + Z.land (Z.shiftr v (Z.of_nat n)) 1) :: bin_digits n v end.
Definition payload (k : conv) : cstring :=
  if decide (conv_spec (c_fs k) = CONV_BINARY) then bin_digits (Z.to_nat (cbuf_len k)) (binval k)
  else rev (take (Z.to_nat (cbuf_len k)) (cbuf k)).

(** The numbers of zeros and of pad characters, computed in [int]s. *)
Definition prec_pad (k : conv) : Z :=
  if decide (conv_spec (c_fs k) ≠ CONV_STRING) then npf_max 0 (prec (c_fs k) - cbuf_len k) else 0.
Definition field_rest (k : conv) : Z :=
  field_width (c_fs k) - cbuf_len k - (if decide (sign_c k ≠ 0) then 1 else 0) - (if decide (need_0x k ≠ 0) then 2 else 0)
  - prec_pad k.
Definition field_pad (k : conv) : Z := npf_max 0 (field_rest k).
Definition pads_in_range (k : conv) : bool :=
  bool_decide ((conv_spec (c_fs k) ≠ CONV_STRING → - 2 ^ 31 ≤ prec (c_fs k) - cbuf_len k) ∧ - 2 ^ 31 ≤ field_rest k).

(** ** Output

    [pc] is the caller's [npf_putc]; [cnt] is [pc_cnt.n], the number of characters. *)
Section output.
Context {S : Type} (pc : Z → S → S).
Record npf_cnt_putc_ctx := Cnt { ctx : S; cnt : Z; va : list arg }.
Notation OUT := npf_cnt_putc_ctx.

(** [npf_putc_cnt]; [n] is an [int] that wraps around. *)
Definition NPF_PUTC (c : Z) : M OUT unit := modify (λ o, Cnt (pc c (ctx o)) (sint32 (cnt o + 1)) (va o)).
Definition puts (l : cstring) : M OUT unit := forM l NPF_PUTC.
Definition on_va {A} (m : M (list arg) A) : M OUT A := λ o,
  match m (va o) with Ok (a, l) => Ok (a, Cnt (ctx o) (cnt o) l) | Panic e => Panic e end.

(** Padding and payload, in the order of the code. *)
Definition emit_field (k : conv) : M OUT unit :=
  let fs := c_fs k in
  let pad_c := pad_char k in
  if negb (pads_in_range k) then fail (Undefined "int overflow") else
  let prec_pad := prec_pad k in
  let field_pad := field_pad k in
  sign ←
    (if negb (left_justified fs) && bool_decide (pad_c ≠ 0) then
       sign ←
         (if decide (pad_c = c_0) then
            puts (sign_text (sign_c k));; puts (prefix_text k);; mret 0
          else mret (sign_c k));
       puts (replicate (Z.to_nat field_pad) pad_c);;
       (if decide (pad_c ≠ c_0) then puts (prefix_text k) else mret tt);;
       mret sign
     else puts (prefix_text k);; mret (sign_c k));
  (if decide (conv_spec fs = CONV_STRING) then puts (take (Z.to_nat (cbuf_len k)) (cbuf k))
   else
     puts (sign_text sign);;
     puts (replicate (Z.to_nat prec_pad) c_0);;
     puts (payload k));;
  (if left_justified fs && bool_decide (pad_c ≠ 0) then puts (replicate (Z.to_nat field_pad) pad_c) else mret tt).

(** The loop over the format; [fuel] bounds its characters. *)
Fixpoint npf_loop (fuel : nat) (cur : cstring) : M OUT unit :=
  match fuel with
  | Datatypes.O => fail OutOfFuel
  | Datatypes.S fuel =>
      match cur with
      | [] => mret tt
      | c :: cur' =>
          r ← (if decide (c ≠ c_percent) then mret None else lift (npf_parse_format_spec cur'));
          match r with
          | None => NPF_PUTC c;; npf_loop fuel cur'
          | Some (fs, rest) =>
              k ← on_va (prepare fs);
              emit_field k;;
              npf_loop fuel rest
          end
      end
  end.
Definition npf_vpprintf (format : cstring) : M OUT Z :=
  modify (λ o, Cnt (ctx o) 0 (va o));;
  npf_loop (Datatypes.S (length format)) format;;
  gets cnt.
End output.
Arguments Cnt {S} _ _ _.
Arguments ctx {S} _.
Arguments cnt {S} _.
Arguments va {S} _.

(** ** Printing into a buffer *)
Record npf_bufputc_ctx := BufCtx { dst : cstring; blen : Z; bcur : Z }.
Definition npf_bufputc (c : Z) (b : npf_bufputc_ctx) : npf_bufputc_ctx :=
  if decide (bcur b < blen b) then BufCtx (<[Z.to_nat (bcur b) := wrap8 c]> (dst b)) (blen b) (bcur b + 1) else b.
(** [buffer] is the memory the pointer points at, [None] for a null pointer; the result is
    the memory afterwards and the value returned.  The last of the [bufsz] bytes is always
    written, so that a smaller buffer is overrun. *)
Definition npf_vsnprintf (buffer : option cstring) (bufsz : Z) (format : cstring) (vlist : list arg) :
    outcome (option cstring * Z) :=
  match buffer with
  | None =>
      match npf_vpprintf (λ _ b, b) format (Cnt (BufCtx [] bufsz 0) 0 vlist) with
      | Ok (n, _) => Ok (None, n)
      | Panic e => Panic e
      end
  | Some mem =>
      if decide (Z.of_nat (length mem) < bufsz) then Panic (OutOfBounds "buffer") else
      match npf_vpprintf npf_bufputc format (Cnt (BufCtx mem bufsz 0) 0 vlist) with
      | Ok (n, o) =>
          let b := npf_bufputc 0 (ctx o) in
          Ok (Some (if decide (bufsz ≠ 0) then <[Z.to_nat (bufsz - 1) := 0]> (dst b) else dst b), n)
      | Panic e => Panic e
      end
  end.
Definition npf_snprintf := npf_vsnprintf.
Definition npf_pprintf {S} (pc : Z → S → S) (format : cstring) (args : list arg) (pc_ctx : S) : outcome (Z * S) :=
  match npf_vpprintf pc format (Cnt pc_ctx 0 args) with
  | Ok (n, o) => Ok (n, ctx o)
  | Panic e => Panic e
  end.
