(* ===== verification/NpfText.v ===== *)
(** * Formatted output: the text a format and its arguments stand for

    [render] is the text [npf_vpprintf] hands to its [npf_putc], whatever that does with
    it; the digits of a number; which arguments a format needs. *)

From S2P Require Import Prelude Npf.

(** ** Everything is put in order *)
Section puts.
Context {S : Type} (pc : Z → S → S).

(** What printing [l] does to the context. *)
Definition after (l : cstring) (s : S) : S := foldl (λ s c, pc c s) s l.
(** What printing [k] characters does to the count. *)
Fixpoint counted (k : nat) (n : Z) : Z := match k with O => n | Datatypes.S k => counted k (sint32 (n + 1)) end.
Lemma counted_add k1 k2 n : counted (k1 + k2) n = counted k2 (counted k1 n).
Proof. revert n. induction k1 as [|k1 IH]; intros n; [done|]. apply IH. Qed.
Lemma counted_sint32 k n : counted k (sint32 n) = sint32 (n + Z.of_nat k).
Proof.
  revert n. induction k as [|k IH]; intros n; [by rewrite Z.add_0_r|]. cbn [counted]. rewrite sint32_add IH. f_equal. lia.
Qed.
Lemma puts_eq l s n va : puts pc l (Cnt s n va) = Ok (tt, Cnt (after l s) (counted (length l) n) va).
Proof.
  revert s n. induction l as [|c l IH]; intros s n; [done|].
  change (puts pc (c :: l)) with (NPF_PUTC pc c;; puts pc l).
  unfold NPF_PUTC. by rewrite (bind_ok _ _ _ tt (Cnt (pc c s) (sint32 (n + 1)) va)) // IH.
Qed.
Lemma puts_app l1 l2 o : puts pc (l1 ++ l2) o = (puts pc l1;; puts pc l2) o.
Proof.
  destruct o as [s n va]. rewrite puts_eq. erewrite bind_ok; [|apply puts_eq]. by rewrite puts_eq length_app counted_add /after foldl_app.
Qed.
End puts.

(** Both sides print the same characters. *)
Ltac puts_done :=
  repeat (rewrite puts_eq; cbn iota beta); rewrite ?puts_eq; unfold after;
  rewrite ?foldl_app ?length_app ?counted_add; try change (sign_text 0) with (@nil Z); reflexivity.

(** The text of one field. *)
Definition field_text (k : conv) : cstring :=
  let fs := c_fs k in
  let pad := replicate (Z.to_nat (field_pad k)) (pad_char k) in
  let body := if decide (conv_spec fs = CONV_STRING) then take (Z.to_nat (cbuf_len k)) (cbuf k)
              else replicate (Z.to_nat (prec_pad k)) c_0 ++ payload k in
  let sign := if decide (conv_spec fs = CONV_STRING) then [] else sign_text (sign_c k) in
  if left_justified fs then prefix_text k ++ sign ++ body ++ (if decide (pad_char k ≠ 0) then pad else [])
  else if decide (pad_char k = 0) then prefix_text k ++ sign ++ body
  else if decide (pad_char k = c_0) then sign_text (sign_c k) ++ prefix_text k ++ pad ++ body
  else pad ++ prefix_text k ++ sign ++ body.
Lemma emit_puts {S} (pc : Z → S → S) k o : pads_in_range k = true → emit_field pc k o = puts pc (field_text k) o.
Proof.
  intros Hr. destruct o as [s n va]. unfold emit_field, field_text. rewrite Hr. cbn [negb].
  unfold mbind, M_bind, mret, M_ret. set (pad := pad_char k).
  destruct (decide (pad = 0)) as [E0|N0].
  - rewrite bool_decide_false; [tauto|]. rewrite !andb_false_r. destruct (decide (pad ≠ 0)) as [?|_]; [done|].
    destruct (decide (conv_spec (c_fs k) = CONV_STRING)), (left_justified (c_fs k)); puts_done.
  - rewrite bool_decide_true // !andb_true_r. destruct (decide (pad ≠ 0)) as [_|?]; [|done].
    destruct (decide (pad = c_0)) as [E1|N1].
    + destruct (decide (pad ≠ c_0)) as [?|_]; [done|].
      destruct (decide (conv_spec (c_fs k) = CONV_STRING)), (left_justified (c_fs k)); cbn [negb]; puts_done.
    + destruct (decide (pad ≠ c_0)) as [_|?]; [|done].
      destruct (decide (conv_spec (c_fs k) = CONV_STRING)), (left_justified (c_fs k)); cbn [negb]; puts_done.
Qed.

(** ** The text of a format *)
Fixpoint render_loop (fuel : nat) (cur : cstring) (va : list arg) : outcome (cstring * list arg) :=
  match fuel with
  | O => Panic OutOfFuel
  | S fuel =>
      match cur with
      | [] => Ok ([], va)
      | c :: cur' =>
          match (if decide (c ≠ c_percent) then Ok None else npf_parse_format_spec cur') with
          | Panic e => Panic e
          | Ok None => match render_loop fuel cur' va with Ok (l, v) => Ok (c :: l, v) | Panic e => Panic e end
          | Ok (Some (fs, rest)) =>
              match prepare fs va with
              | Panic e => Panic e
              | Ok (k, va) =>
                  if pads_in_range k then
                    match render_loop fuel rest va with Ok (l, v) => Ok (field_text k ++ l, v) | Panic e => Panic e end
                  else Panic (Undefined "int overflow")
              end
          end
      end
  end.
Definition render (format : cstring) (va : list arg) : outcome (cstring * list arg) :=
  render_loop (S (length format)) format va.

Lemma npf_loop_render {S} (pc : Z → S → S) fuel cur s n args :
  npf_loop pc fuel cur (Cnt s n args) =
    match render_loop fuel cur args with
    | Ok (l, v) => Ok (tt, Cnt (after pc l s) (counted (length l) n) v)
    | Panic e => Panic e
    end.
Proof.
  revert cur s n args. induction fuel as [|fuel IH]; intros cur s n args; [done|]. cbn [npf_loop render_loop].
  destruct cur as [|c cur']; [done|].
  destruct (decide (c ≠ c_percent)) as [Hc|Hc].
  - unfold mbind, M_bind, mret, M_ret, NPF_PUTC, modify. cbn [ctx cnt va]. rewrite IH.
    by destruct (render_loop fuel cur' args) as [[l v]|].
  - unfold mbind, M_bind, lift. destruct (npf_parse_format_spec cur') as [[[fs rest]|]|e]; [| |done].
    + unfold on_va. cbn [va ctx cnt].
      destruct (prepare fs args) as [[k args']|e]; [|done].
      destruct (pads_in_range k) eqn:Er; [|unfold emit_field; by rewrite Er].
      rewrite emit_puts // puts_eq IH. destruct (render_loop fuel rest args') as [[l v]|]; [|done].
      by rewrite /after foldl_app length_app counted_add.
    + unfold mret, M_ret, NPF_PUTC, modify. cbn [ctx cnt va]. rewrite IH.
      by destruct (render_loop fuel cur' args) as [[l v]|].
Qed.
Lemma npf_vpprintf_render {S} (pc : Z → S → S) format s n args :
  npf_vpprintf pc format (Cnt s n args) =
    match render format args with
    | Ok (l, v) => Ok (sint32 (Z.of_nat (length l)), Cnt (after pc l s) (sint32 (Z.of_nat (length l))) v)
    | Panic e => Panic e
    end.
Proof.
  unfold npf_vpprintf, mbind, M_bind, modify. cbn [ctx va]. rewrite npf_loop_render. unfold render.
  destruct (render_loop _ format args) as [[l v]|]; [|done]. change 0 with (sint32 0). by rewrite counted_sint32.
Qed.

(** ** Digits *)
(** The number written with the digits [ds], lowest first. *)
Fixpoint value (base : Z) (ds : list Z) : Z :=
  match ds with [] => 0 | d :: ds => d + base * value base ds end.
(** The digits of [v], without leading zeros but at least one. *)
Definition canonical (base v : Z) (ds : list Z) : Prop :=
  ds ≠ [] ∧ Forall (λ d, 0 ≤ d < base) ds ∧ value base ds = v ∧ (ds = [0] ∨ last ds ≠ Some 0).

Lemma value_app base l1 l2 : value base (l1 ++ l2) = value base l1 + base ^ Z.of_nat (length l1) * value base l2.
Proof.
  induction l1 as [|d l1 IH]; cbn [app value length]; [by rewrite Z.mul_1_l|].
  rewrite IH Nat2Z.inj_succ Z.pow_succ_r; lia.
Qed.
Lemma value_nonneg base ds : 1 < base → Forall (λ d, 0 ≤ d < base) ds → 0 ≤ value base ds.
Proof. intros Hb. induction 1; cbn [value]; nia. Qed.

(** A number has at least as many digits as its size needs, and no more. *)
Lemma canonical_length base v ds : 1 < base → canonical base v ds → 0 < v →
  base ^ (Z.of_nat (length ds) - 1) ≤ v.
Proof.
  intros Hb (Hne & Hd & <- & Hl) Hv. destruct (exists_last Hne) as (l & d & ->).
  rewrite value_app. apply Forall_app in Hd as [Hl1 [Hd _]%Forall_cons]. cbn [value] in *.
  pose proof (value_nonneg _ _ Hb Hl1). rewrite length_app. cbn [length].
  replace (Z.of_nat (length l + 1) - 1) with (Z.of_nat (length l)) by lia.
  assert (d ≠ 0) as Hd0.
  { destruct Hl as [E|E]; [|intros ->; by rewrite last_snoc in E].
    intros ->. rewrite E in Hv. cbn in Hv. lia. }
  pose proof (Z.pow_pos_nonneg base (Z.of_nat (length l))). nia.
Qed.

Lemma canonical_zero base ds : 1 < base → canonical base 0 ds → ds = [0].
Proof.
  intros Hb (Hne & Hd & Hval & [->|Hl]); [done|]. exfalso. apply Hl.
  destruct (exists_last Hne) as (l & d & ->). rewrite last_snoc. f_equal. rewrite value_app in Hval.
  apply Forall_app in Hd as [Hl1 [Hd _]%Forall_cons]. cbn [value] in Hval.
  pose proof (value_nonneg base l Hb Hl1). pose proof (Z.pow_pos_nonneg base (Z.of_nat (length l))). nia.
Qed.

Lemma npf_utoa_rev_spec fuel : ∀ v base adj, 1 < base → 0 ≤ v < base ^ Z.of_nat fuel → (0 < fuel)%nat →
  ∃ ds, npf_utoa_rev fuel v base adj = Ok (digit_char adj <$> ds) ∧ canonical base v ds.
Proof.
  induction fuel as [|fuel IH]; intros v base adj Hb Hv Hf; [lia|]. cbn [npf_utoa_rev].
  pose proof (Z.div_mod v base ltac:(lia)) as D. pose proof (Z.mod_pos_bound v base ltac:(lia)) as B.
  destruct (decide (v / base = 0)) as [E|E].
  - exists [v mod base]. split; [done|]. split_and!; [done|by apply Forall_singleton| |].
    + cbn. rewrite E in D. lia.
    + cbn. destruct (decide (v mod base = 0)) as [->|]; [by left|right; congruence].
  - pose proof (Z.div_pos v base ltac:(lia) ltac:(lia)) as Hp.
    rewrite Nat2Z.inj_succ Z.pow_succ_r in Hv; [lia|].
    assert (v / base < base ^ Z.of_nat fuel) as Hlt by (apply Z.div_lt_upper_bound; lia).
    destruct (IH (v / base) base adj Hb) as (ds & -> & Hne & Hd & Hval & Hl); [lia| |].
    { destruct fuel; [|lia]. cbn in Hlt. lia. }
    exists (v mod base :: ds). split; [done|]. split_and!; [done|by constructor| |].
    + cbn [value]. rewrite Hval. lia.
    + right. destruct ds as [|d ds]; [done|]. destruct Hl as [[= -> ->]|Hl]; [cbn in Hval; lia|exact Hl].
Qed.

(** The conversion buffer holds every number in base 8 and above, with an octal prefix. *)
Lemma digits_fit base v ds : 8 ≤ base → 0 ≤ v < 2 ^ 64 → canonical base v ds → (length ds < NANOPRINTF_CONVERSION_BUFFER_SIZE)%nat.
Proof.
  intros Hb Hv Hc. unfold NANOPRINTF_CONVERSION_BUFFER_SIZE. destruct (decide (v = 0)) as [->|Hz].
  - rewrite (canonical_zero base ds); [lia|done|]. cbn. lia.
  - pose proof (canonical_length base v ds ltac:(lia) Hc ltac:(lia)) as Hl.
    destruct (decide (length ds < 23)%nat) as [|Hge]; [done|exfalso].
    assert (8 ^ 22 ≤ base ^ (Z.of_nat (length ds) - 1)) as H8; [|change (8 ^ 22) with (2 ^ 66) in H8; lia].
    etransitivity; [apply (Z.pow_le_mono_l 8 base 22); lia|]. apply Z.pow_le_mono_r; lia.
Qed.
Lemma utoa_spec v base adj args : 8 ≤ base → 0 ≤ v < 2 ^ 64 →
  ∃ ds, utoa v base adj args = Ok (digit_char adj <$> ds, args) ∧ canonical base v ds ∧
    (length ds < NANOPRINTF_CONVERSION_BUFFER_SIZE)%nat.
Proof.
  intros Hb Hv. destruct (npf_utoa_rev_spec UTOA_FUEL v base adj) as (ds & E & Hc); [lia| |unfold UTOA_FUEL; lia|].
  { split; [lia|]. eapply Z.lt_le_trans; [apply Hv|]. apply (Z.pow_le_mono_l 2 base 64). lia. }
  pose proof (digits_fit base v ds Hb Hv Hc) as Hl. exists ds. split_and!; [|done|done].
  unfold utoa, lift, mbind, M_bind. rewrite E. unfold in_cbuf. rewrite length_fmap decide_True //. lia.
Qed.

(** ** Arguments *)
(** What a conversion reads: an [int], a star's [int], a long, a string, a pointer. *)
Inductive kind := KInt | KStar | KLong | KStr | KPtr.
Definition int_kind (m : len_mod) : kind :=
  match m with LEN_MOD_NONE | LEN_MOD_SHORT | LEN_MOD_LONG_DOUBLE | LEN_MOD_CHAR => KInt | _ => KLong end.
Definition conv_kinds (fs : npf_format_spec_t) : list kind :=
  match conv_spec fs with
  | CONV_NONE | CONV_PERCENT => []
  | CONV_CHAR => [KInt]
  | CONV_STRING => [KStr]
  | CONV_POINTER => [KPtr]
  | _ => [int_kind (length_modifier fs)]
  end.
Definition star_kinds (o : spec_opt) : list kind := if decide (o = NPF_FMT_SPEC_OPT_STAR) then [KStar] else [].
Definition spec_kinds (fs : npf_format_spec_t) : list kind :=
  star_kinds (field_width_opt fs) ++ star_kinds (prec_opt fs) ++ conv_kinds fs.
(** Sizes no [int] computation about them can leave. *)
Definition MODEST : Z := 2 ^ 30.
Definition arg_fits (a : arg) (k : kind) : Prop :=
  match k, a with
  | KInt, AInt _ | KLong, ALong _ | KPtr, APtr _ _ => True
  | KStar, AInt v => - MODEST ≤ sint 32 v ≤ MODEST
  | KStr, APtr _ (Some s) => Z.of_nat (length s) ≤ MODEST
  | _, _ => False
  end.
(** The arguments of a format; none if a number in it is too large. *)
Fixpoint kinds_loop (fuel : nat) (cur : cstring) : option (list kind) :=
  match fuel with
  | O => None
  | S fuel =>
      match cur with
      | [] => Some []
      | c :: cur' =>
          match (if decide (c ≠ c_percent) then Ok None else npf_parse_format_spec cur') with
          | Panic _ => None
          | Ok None => kinds_loop fuel cur'
          | Ok (Some (fs, rest)) =>
              if decide (prec fs ≤ MODEST) then ks ← kinds_loop fuel rest; Some (spec_kinds fs ++ ks) else None
          end
      end
  end.
Definition fmt_kinds (format : cstring) : option (list kind) := kinds_loop (S (length format)) format.

Lemma sint_range n x : 1 ≤ n → - 2 ^ (n - 1) ≤ sint n x < 2 ^ (n - 1).
Proof.
  intros Hn. unfold sint. pose proof (Z.mod_pos_bound x (2 ^ n)). assert (2 ^ n = 2 * 2 ^ (n - 1)) as E.
  { rewrite -Z.pow_succ_r; [lia|]. f_equal. lia. }
  pose proof (Z.pow_pos_nonneg 2 (n - 1)). case_decide; lia.
Qed.

(** The value an integer conversion prints. *)
Definition signed_value (m : len_mod) (a : arg) : Z :=
  match a with
  | AInt v => match m with LEN_MOD_SHORT => sint 16 v | LEN_MOD_CHAR => sint 8 v | _ => sint 32 v end
  | ALong v => sint 64 v
  | APtr _ _ => 0
  end.
Definition unsigned_value (m : len_mod) (a : arg) : Z :=
  match a with
  | AInt v => match m with LEN_MOD_SHORT => wrap16 v | LEN_MOD_CHAR => wrap8 v | _ => wrap32 v end
  | ALong v => wrap64 v
  | APtr _ _ => 0
  end.
Lemma extract_signed_spec m a args : arg_fits a (int_kind m) → extract_signed m (a :: args) = Ok (signed_value m a, args).
Proof. by destruct m, a. Qed.
Lemma extract_unsigned_spec m a args : arg_fits a (int_kind m) → extract_unsigned m (a :: args) = Ok (unsigned_value m a, args).
Proof. by destruct m, a. Qed.
Lemma signed_value_range m a : - 2 ^ 63 ≤ signed_value m a < 2 ^ 63.
Proof.
  destruct a as [v|v|p s]; cbn; [|apply (sint_range 64); lia|lia].
  pose proof (sint_range 32 v ltac:(lia)). pose proof (sint_range 16 v ltac:(lia)). pose proof (sint_range 8 v ltac:(lia)).
  destruct m; cbn in *; lia.
Qed.
Lemma unsigned_value_range m a : 0 ≤ unsigned_value m a < 2 ^ 64.
Proof.
  destruct a as [v|v|p s]; cbn; [|apply Z.mod_pos_bound; lia|lia]. unfold wrap32, wrap16, wrap8.
  pose proof (Z.mod_pos_bound v (2 ^ 32) ltac:(lia)). pose proof (Z.mod_pos_bound v (2 ^ 16) ltac:(lia)).
  pose proof (Z.mod_pos_bound v (2 ^ 8) ltac:(lia)). destruct m; lia.
Qed.

(** The digits of a conversion: none when the value and an explicit precision are 0. *)
Definition digits_of (fs : npf_format_spec_t) (base v : Z) (ds : list Z) : Prop :=
  if no_digits fs v then ds = [] else canonical base (Z.abs v) ds.
Lemma conv_signed_spec fs a args : arg_fits a (int_kind (length_modifier fs)) →
  let v := signed_value (length_modifier fs) a in ∃ ds, digits_of fs 10 v ds ∧ (length ds < 23)%nat ∧
    conv_signed fs (a :: args) = Ok (Conv (digit_char (case_adjust fs) <$> ds) (Z.of_nat (length ds))
      (if decide (v < 0) then c_minus else prepend fs) 0 (bool_decide (v = 0)) 0 fs, args).
Proof.
  intros Ha v. unfold conv_signed, digits_of. rewrite (bind_ok _ _ _ _ _ (extract_signed_spec _ _ args Ha)). fold v.
  pose proof (signed_value_range (length_modifier fs) a) as Hr. fold v in Hr.
  destruct (no_digits fs v) eqn:En; [exists []; split_and!; [done|cbn; lia|done]|].
  assert ((if decide (v < 0) then wrap64 (0 - wrap64 v) else wrap64 v) = Z.abs v) as ->.
  { unfold wrap64. case_decide; [|rewrite Z.mod_small; lia]. rewrite Zminus_mod_idemp_r Z.mod_small; lia. }
  destruct (utoa_spec (Z.abs v) 10 (case_adjust fs) args) as (ds & E & Hc & Hl); [lia|lia|].
  exists ds. split_and!; [done|exact Hl|]. rewrite (bind_ok _ _ _ _ _ E) length_fmap. done.
Qed.

Definition base_of (c : conv_spec_t) : Z :=
  match c with CONV_OCTAL => 8 | CONV_HEX_INT => 16 | _ => 10 end.
Definition prefix_letter (fs : npf_format_spec_t) (v : Z) : Z :=
  if decide (v ≠ 0 ∧ alt_form fs = true) then
    match conv_spec fs with CONV_HEX_INT => c_X + case_adjust fs | CONV_BINARY => c_B + case_adjust fs | _ => 0 end
  else 0.
Definition octal_zero (fs : npf_format_spec_t) (v : Z) : cstring :=
  if decide (v ≠ 0 ∧ alt_form fs = true ∧ conv_spec fs = CONV_OCTAL) then [c_0] else [].
(** The precision of 1 an alternative octal zero is printed with. *)
Definition octal_prec (fs : npf_format_spec_t) (v : Z) : npf_format_spec_t :=
  if no_digits fs v then
    if decide (conv_spec fs = CONV_OCTAL ∧ alt_form fs = true) then set_prec 1 (prec_opt fs) fs else fs
  else fs.
Definition plain_unsigned (c : conv_spec_t) : Prop := c = CONV_OCTAL ∨ c = CONV_HEX_INT ∨ c = CONV_UNSIGNED_INT.
Lemma octal_prec_fields fs v : conv_spec (octal_prec fs v) = conv_spec fs ∧ alt_form (octal_prec fs v) = alt_form fs ∧
  case_adjust (octal_prec fs v) = case_adjust fs ∧ field_width (octal_prec fs v) = field_width fs ∧
  field_width_opt (octal_prec fs v) = field_width_opt fs ∧ left_justified (octal_prec fs v) = left_justified fs ∧
  leading_zero_pad (octal_prec fs v) = leading_zero_pad fs ∧ prec_opt (octal_prec fs v) = prec_opt fs.
Proof. unfold octal_prec. destruct (no_digits fs v); [case_decide|]; done. Qed.

Lemma conv_unsigned_spec fs a args : arg_fits a (int_kind (length_modifier fs)) → plain_unsigned (conv_spec fs) →
  let v := unsigned_value (length_modifier fs) a in
  ∃ ds, digits_of fs (base_of (conv_spec fs)) v ds ∧ (length ds < 23)%nat ∧
    let l := (digit_char (case_adjust fs) <$> ds) ++ octal_zero fs v in
    conv_unsigned fs (a :: args) = Ok (Conv l (Z.of_nat (length l)) 0 (prefix_letter fs v) (bool_decide (v = 0)) 0
      (octal_prec fs v), args).
Proof.
  intros Ha Hp v. unfold conv_unsigned, digits_of. rewrite (bind_ok _ _ _ _ _ (extract_unsigned_spec _ _ args Ha)). fold v.
  pose proof (unsigned_value_range (length_modifier fs) a) as Hr. fold v in Hr.
  destruct (octal_prec_fields fs v) as (P1 & P2 & P3 & _). unfold octal_prec in *.
  destruct (no_digits fs v) eqn:En.
  - apply bool_decide_eq_true in En as (Hv & _ & _). exists []. split_and!; [done|cbn; lia|]. cbn [fmap list_fmap app].
    set (fs' := if decide (conv_spec fs = CONV_OCTAL ∧ alt_form fs = true) then set_prec 1 (prec_opt fs) fs else fs) in *.
    unfold octal_zero, prefix_letter. erewrite bind_ok; [|reflexivity]. cbn beta iota.
    repeat match goal with |- context [decide (v ≠ 0 ∧ ?Q)] => destruct (decide (v ≠ 0 ∧ Q)) as [[? _]|_]; [done|] end.
    by erewrite bind_ok; [|reflexivity].
  - assert (conv_spec fs ≠ CONV_BINARY) as Hb by (destruct Hp as [->|[->| ->]]; done). rewrite decide_False //.
    assert ((if decide (conv_spec fs = CONV_OCTAL) then 8 else if decide (conv_spec fs = CONV_HEX_INT) then 16 else 10) =
      base_of (conv_spec fs)) as -> by (destruct Hp as [->|[->| ->]]; done).
    destruct (utoa_spec v (base_of (conv_spec fs)) (case_adjust fs) args) as (ds & E & Hc & Hl);
      [destruct Hp as [->|[->| ->]]; cbn; lia|lia|].
    exists ds. split_and!; [by rewrite Z.abs_eq; [lia|]|exact Hl|].
    erewrite bind_ok; [|rewrite (bind_ok _ _ _ _ _ E); reflexivity]. cbn beta iota.
    assert (prefix_letter fs v = if decide (v ≠ 0 ∧ alt_form fs = true) then
      if decide (conv_spec fs = CONV_HEX_INT) then c_X + case_adjust fs
      else if decide (conv_spec fs = CONV_BINARY) then c_B + case_adjust fs else 0 else 0) as <-.
    { unfold prefix_letter. by destruct Hp as [->|[->| ->]]. }
    unfold octal_zero. case_decide as Ho.
    + erewrite bind_ok; [|unfold in_cbuf; rewrite decide_True; [rewrite length_app length_fmap; cbn [length]; unfold NANOPRINTF_CONVERSION_BUFFER_SIZE in *; lia|]; reflexivity].
      cbn beta iota. rewrite length_app !length_fmap. cbn [length].
      by replace (Z.of_nat (length ds) + 1) with (Z.of_nat (length ds + 1)) by lia.
    + erewrite bind_ok; [|reflexivity]. cbn beta iota. by rewrite app_nil_r !length_fmap.
Qed.
Lemma conv_binary_spec fs a args : arg_fits a (int_kind (length_modifier fs)) → conv_spec fs = CONV_BINARY →
  let v := unsigned_value (length_modifier fs) a in
  conv_unsigned fs (a :: args) = Ok (Conv [] (if no_digits fs v then 0 else npf_bin_len v) 0 (prefix_letter fs v)
    (bool_decide (v = 0)) (if no_digits fs v then 0 else v) fs, args).
Proof.
  intros Ha Hb v. unfold conv_unsigned. rewrite (bind_ok _ _ _ _ _ (extract_unsigned_spec _ _ args Ha)). fold v.
  unfold prefix_letter. destruct (no_digits fs v) eqn:En.
  - destruct (decide (conv_spec fs = CONV_OCTAL ∧ alt_form fs = true)) as [[E _]|_]; [congruence|].
    erewrite bind_ok; [|reflexivity]. cbn beta iota. apply bool_decide_eq_true in En as (Hv & _ & _).
    repeat match goal with |- context [decide (v ≠ 0 ∧ ?Q)] => destruct (decide (v ≠ 0 ∧ Q)) as [[? _]|_]; [done|] end.
    by erewrite bind_ok; [|reflexivity].
  - destruct (decide (conv_spec fs = CONV_BINARY)) as [_|?]; [|done]. erewrite bind_ok; [|reflexivity]. cbn beta iota.
    destruct (decide (v ≠ 0 ∧ alt_form fs = true ∧ conv_spec fs = CONV_OCTAL)) as [(_ & _ & E)|_]; [congruence|].
    erewrite bind_ok; [|reflexivity]. cbn beta iota. by rewrite Hb.
Qed.

(** ** What the parser returns *)
Definition int_conversion (c : conv_spec_t) : Prop := c = CONV_SIGNED_INT ∨ plain_unsigned c.
Record spec_ok (fs : npf_format_spec_t) : Prop := {
  so_width : 0 ≤ field_width fs < 2 ^ 31;
  so_nowidth : field_width_opt fs = NPF_FMT_SPEC_OPT_NONE → field_width fs = 0;
  so_prec : 0 ≤ prec fs < 2 ^ 31;
  so_pad : left_justified fs && leading_zero_pad fs = false;
  so_intpad : int_conversion (conv_spec fs) → prec_opt fs ≠ NPF_FMT_SPEC_OPT_NONE → leading_zero_pad fs = false;
  so_adjust : case_adjust fs = 0 ∨ case_adjust fs = 32;
  so_prepend : prepend fs = 0 ∨ prepend fs = c_space ∨ prepend fs = c_plus;
  so_conv : conv_spec fs ≠ CONV_NONE;
}.

(** What the flags can have set. *)
Record flags_ok (s : npf_format_spec_t) : Prop := {
  fo_width : field_width s = 0;
  fo_pad : left_justified s && leading_zero_pad s = false;
  fo_adjust : case_adjust s = 32;
  fo_prepend : prepend s = 0 ∨ prepend s = c_space ∨ prepend s = c_plus;
}.
Lemma parse_flags_ok cur : ∀ s, flags_ok s → ∀ s' cur', parse_flags cur s = (s', cur') → flags_ok s' ∧ cur' `suffix_of` cur.
Proof.
  induction cur as [|c cur IH]; intros s [F1 F2 F3 F4] s' cur'; cbn [parse_flags]; [intros [= <- <-]; split; [by split|done]|].
  assert (∀ s1, flags_ok s1 → parse_flags cur s1 = (s', cur') → flags_ok s' ∧ cur' `suffix_of` (c :: cur)) as Hn.
  { intros s1 H1 E. destruct (IH s1 H1 s' cur' E) as [? Hs]. split; [done|by apply suffix_cons_r]. }
  repeat case_decide; try (apply Hn; split; cbn; try done; try tauto; by destruct (left_justified s)).
  intros [= <- <-]. split; [by split|done].
Qed.
Lemma parse_digits_ok cur : ∀ n, 0 ≤ n < 2 ^ 31 → ∀ m cur', parse_digits cur n = Ok (m, cur') →
  0 ≤ m < 2 ^ 31 ∧ cur' `suffix_of` cur.
Proof.
  induction cur as [|c cur IH]; intros n Hn m cur'; cbn [parse_digits]; [intros [= <- <-]; done|].
  destruct (is_digit c) eqn:Ed; [|intros [= <- <-]; done]. apply bool_decide_eq_true in Ed. unfold c_0 in *.
  case_decide; [|done]. intros E. destruct (IH (n * 10 + (c - 48)) ltac:(lia) _ _ E). split; [done|by apply suffix_cons_r].
Qed.
Lemma tail_suffix {A} (l : list A) : tail l `suffix_of` l.
Proof. destruct l; [done|]. by apply suffix_cons_r. Qed.

(** After the flags, the width. *)
Definition width_ok (s : npf_format_spec_t) : Prop :=
  0 ≤ field_width s < 2 ^ 31 ∧ (field_width_opt s = NPF_FMT_SPEC_OPT_NONE → field_width s = 0) ∧
  left_justified s && leading_zero_pad s = false ∧ case_adjust s = 32 ∧
  (prepend s = 0 ∨ prepend s = c_space ∨ prepend s = c_plus).
Lemma parse_width_ok s cur s' cur' : flags_ok s → parse_width s cur = Ok (s', cur') → width_ok s' ∧ cur' `suffix_of` cur.
Proof.
  intros [F1 F2 F3 F4]. unfold parse_width. destruct (starts c_star cur).
  - intros [= <- <-]. split; [|apply tail_suffix]. split_and!; cbn; rewrite ?F1; done.
  - destruct (parse_digits cur 0) as [[w cur1]|] eqn:E; [|done]. intros [= <- <-].
    destruct (parse_digits_ok _ 0 ltac:(lia) _ _ E). split; [|done]. split_and!; cbn; try done; try lia.
    destruct cur as [|c cur]; [by injection E|]. cbn in E. destruct (is_digit c); [done|]. by injection E.
Qed.
Lemma parse_prec_ok s cur s' cur' : width_ok s → parse_prec s cur = Ok (s', cur') →
  width_ok s' ∧ 0 ≤ prec s' < 2 ^ 31 ∧ cur' `suffix_of` cur.
Proof.
  intros Hw. unfold parse_prec. destruct (starts c_dot cur); cbn [negb]; [|intros [= <- <-]; split_and!; [exact Hw|cbn; lia..|done]].
  destruct (starts c_star (tail cur)).
  { intros [= <- <-]. split_and!; [exact Hw|cbn; lia..|]. etrans; apply tail_suffix. }
  destruct (starts c_minus (tail cur)).
  all: cbn [prec set_prec]; destruct (parse_digits _ 0) as [[p cur1]|] eqn:E; [|done]; intros [= <- <-].
  all: destruct (parse_digits_ok _ 0 ltac:(lia) _ _ E) as [Hp Hs]; split_and!; [exact Hw|apply Hp..|].
  - etrans; [exact Hs|]. etrans; apply tail_suffix.
  - etrans; [exact Hs|]. apply tail_suffix.
Qed.
Lemma parse_length_fields s cur s' cur' : parse_length s cur = (s', cur') →
  s' = set_length (length_modifier s') s ∧ cur' `suffix_of` cur.
Proof.
  unfold parse_length. destruct cur as [|c cur]; [intros [= <- <-]; done|].
  repeat case_decide; try destruct (starts _ cur); intros [= <- <-]; (split; [done|]); try done; try apply suffix_cons_r; try done;
    apply tail_suffix.
Qed.
Lemma parse_conv_ok s cur s' cur' : width_ok s → 0 ≤ prec s < 2 ^ 31 → parse_conv s cur = Some (s', cur') →
  spec_ok s' ∧ cur' `suffix_of` tail cur ∧ cur ≠ [].
Proof.
  intros (W1 & W2 & W3 & W4 & W5) Hp. unfold parse_conv. destruct cur as [|c cur]; [done|].
  assert (left_justified s && false = false) as Hf by by destruct (left_justified s).
  assert (∀ adj cv, (adj = 0 ∨ adj = 32) → cv ≠ CONV_NONE → spec_ok (int_conv adj cv s)) as Hi.
  { intros adj cv Ha Hc. unfold int_conv. case_decide as Ho; split; cbn in *; try done; tauto. }
  repeat case_decide; intros [= <- <-]; (split; [|done]); try (apply Hi; [rewrite ?W4; tauto|done]).
  all: split; cbn; try done; try tauto; unfold int_conversion, plain_unsigned; intros; naive_solver.
Qed.
Lemma parse_ok cur fs rest : npf_parse_format_spec cur = Ok (Some (fs, rest)) →
  spec_ok fs ∧ (length rest < length cur)%nat.
Proof.
  unfold npf_parse_format_spec. destruct (parse_flags cur spec0) as [s1 c1] eqn:E1.
  destruct (parse_flags_ok cur spec0 ltac:(split; by [|left]) _ _ E1) as [F1 S1].
  destruct (parse_width s1 c1) as [[s2 c2]|] eqn:E2; [|done]. destruct (parse_width_ok _ _ _ _ F1 E2) as [F2 S2].
  destruct (parse_prec s2 c2) as [[s3 c3]|] eqn:E3; [|done]. destruct (parse_prec_ok _ _ _ _ F2 E3) as (F3 & P3 & S3).
  destruct (parse_length s3 c3) as [s4 c4] eqn:E4. destruct (parse_length_fields _ _ _ _ E4) as [F4 S4]. intros [= E5].
  destruct (parse_conv_ok s4 c4 fs rest) as (Hok & S5 & Hne); [rewrite F4; exact F3|rewrite F4; exact P3|done|].
  split; [done|]. apply suffix_length in S1, S2, S3, S4, S5. destruct c4; [done|]. cbn in *. lia.
Qed.

(** ** A format with fitting arguments prints *)
(** A conversion whose numbers stay clear of the limits of [int]. *)
Definition small_conv (k : conv) : Prop :=
  0 ≤ cbuf_len k ≤ MODEST ∧ - MODEST ≤ prec (c_fs k) ≤ MODEST ∧ 0 ≤ field_width (c_fs k).
Lemma small_in_range k : small_conv k → pads_in_range k = true.
Proof.
  unfold small_conv, MODEST. intros (L & P & W). apply bool_decide_eq_true. split; [lia|].
  unfold field_rest, prec_pad, npf_max. repeat case_decide; lia.
Qed.
Lemma npf_bin_len_range v : 0 ≤ v < 2 ^ 64 → 1 ≤ npf_bin_len v ≤ 64.
Proof.
  intros Hv. unfold npf_bin_len. case_decide; [lia|]. pose proof (Z.log2_nonneg v).
  pose proof (proj1 (Z.log2_lt_pow2 v 64 ltac:(lia))). lia.
Qed.

Lemma unsigned_total fs a ex : - MODEST ≤ prec fs ≤ MODEST → 0 ≤ field_width fs →
  arg_fits a (int_kind (length_modifier fs)) → plain_unsigned (conv_spec fs) →
  ∃ k, conv_unsigned fs (a :: ex) = Ok (k, ex) ∧ small_conv k.
Proof.
  intros Hp Hw Ha Hc. destruct (conv_unsigned_spec fs a ex Ha Hc) as (ds & _ & Hl & E). eexists. split; [exact E|].
  destruct (octal_prec_fields fs (unsigned_value (length_modifier fs) a)) as (_ & _ & _ & F & _).
  assert (length (octal_zero fs (unsigned_value (length_modifier fs) a)) ≤ 1)%nat as Ho.
  { unfold octal_zero. by destruct (decide _); cbn [length]; lia. }
  split_and!; cbn [cbuf_len c_fs]; rewrite ?F ?length_app ?length_fmap; unfold MODEST in *; try lia.
  all: unfold octal_prec; destruct (no_digits _ _); [destruct (decide _)|]; cbn [prec set_prec]; lia.
Qed.
Lemma convert_total fs args ex : - MODEST ≤ prec fs ≤ MODEST → 0 ≤ field_width fs → Forall2 arg_fits args (conv_kinds fs) →
  ∃ k, convert fs (args ++ ex) = Ok (k, ex) ∧ small_conv k.
Proof.
  intros Hp Hw Hf. unfold convert, conv_kinds in *.
  destruct (conv_spec fs) eqn:Ec; try (apply Forall2_cons_inv_r in Hf as (a & l & Ha & ->%Forall2_nil_inv_r & ->));
    try (apply Forall2_nil_inv_r in Hf as ->); cbn [app].
  - eexists. split; [done|]. split_and!; cbn; unfold MODEST in *; lia.
  - eexists. split; [done|]. split_and!; cbn; unfold MODEST in *; lia.
  - destruct a; try done. eexists. split; [done|]. split_and!; cbn; unfold MODEST in *; lia.
  - destruct a as [| |p [s|]]; try done. eexists. split; [done|]. cbn in Ha. split_and!; cbn; unfold str_len, MODEST in *; try case_decide; lia.
  - destruct (conv_signed_spec fs a ex Ha) as (ds & _ & Hl & E). eexists. split; [exact E|].
    split_and!; cbn; unfold MODEST in *; lia.
  - rewrite (conv_binary_spec fs a ex Ha Ec). eexists. split; [done|].
    pose proof (npf_bin_len_range _ (unsigned_value_range (length_modifier fs) a)).
    split_and!; cbn -[no_digits]; try (destruct (no_digits _ _)); unfold MODEST in *; lia.
  - by apply unsigned_total; [..|left].
  - by apply unsigned_total; [..|right; left].
  - by apply unsigned_total; [..|right; right].
  - destruct a as [| |p s]; try done. destruct (utoa_spec (wrap64 p) 16 32 ex) as (ds & E & _ & Hl); [lia|apply wrap64_range|].
    eexists. split; [rewrite (bind_ok va_ptr _ _ (p, s) ex) // (bind_ok _ _ _ _ _ E); reflexivity|].
    split_and!; cbn; rewrite ?length_fmap; unfold MODEST, NANOPRINTF_CONVERSION_BUFFER_SIZE in *; lia.
Qed.

Lemma prepare_total fs args ex : spec_ok fs → prec fs ≤ MODEST → Forall2 arg_fits args (spec_kinds fs) →
  ∃ k, prepare fs (args ++ ex) = Ok (k, ex) ∧ small_conv k.
Proof.
  intros Hok Hm Hf. unfold spec_kinds in Hf. apply Forall2_app_inv_r in Hf as (a1 & a23 & F1 & F23 & ->).
  apply Forall2_app_inv_r in F23 as (a2 & a3 & F2 & F3 & ->). rewrite -!app_assoc.
  pose proof (so_prec _ Hok) as Hp. pose proof (so_width _ Hok) as Hw. unfold prepare.
  assert (∃ fs1, star_width fs (a1 ++ a2 ++ a3 ++ ex) = Ok (fs1, a2 ++ a3 ++ ex) ∧ 0 ≤ field_width fs1 ∧ prec fs1 = prec fs ∧
    prec_opt fs1 = prec_opt fs ∧ conv_kinds fs1 = conv_kinds fs) as (fs1 & E1 & W1 & P1 & O1 & K1).
  { unfold star_width, star_kinds in *. destruct (decide (field_width_opt fs = NPF_FMT_SPEC_OPT_STAR)).
    - apply Forall2_cons_inv_r in F1 as (a & l & Ha & ->%Forall2_nil_inv_r & ->). destruct a as [v| |]; try done.
      cbn in Ha. unfold MODEST in Ha. rewrite (bind_ok va_int _ _ v (a2 ++ a3 ++ ex)) //.
      destruct (decide (sint 32 v < 0)).
      + rewrite decide_False; [lia|]. eexists. split; [done|]. cbn. split_and!; try done. lia.
      + eexists. split; [done|]. cbn. split_and!; try done. lia.
    - apply Forall2_nil_inv_r in F1 as ->. exists fs. split_and!; try done. lia. }
  rewrite (bind_ok _ _ _ _ _ E1).
  assert (∃ fs2, star_prec fs1 (a2 ++ a3 ++ ex) = Ok (fs2, a3 ++ ex) ∧ 0 ≤ field_width fs2 ∧ - MODEST ≤ prec fs2 ≤ MODEST ∧
    conv_kinds fs2 = conv_kinds fs) as (fs2 & E2 & W2 & P2 & K2).
  { unfold star_prec, star_kinds in *. rewrite O1. destruct (decide (prec_opt fs = NPF_FMT_SPEC_OPT_STAR)).
    - apply Forall2_cons_inv_r in F2 as (a & l & Ha & ->%Forall2_nil_inv_r & ->). destruct a as [v| |]; try done.
      rewrite (bind_ok va_int _ _ v (a3 ++ ex)) //. eexists. split; [done|]. cbn. split_and!; try done; apply Ha.
    - apply Forall2_nil_inv_r in F2 as ->. exists fs1. unfold MODEST in *. split_and!; try done; lia. }
  rewrite (bind_ok _ _ _ _ _ E2). apply convert_total; try done. by rewrite K2.
Qed.

Lemma render_loop_total fuel : ∀ cur ks args ex, kinds_loop fuel cur = Some ks → Forall2 arg_fits args ks →
  ∃ l, render_loop fuel cur (args ++ ex) = Ok (l, ex).
Proof.
  induction fuel as [|fuel IH]; intros cur ks args ex; cbn [kinds_loop render_loop]; [done|].
  destruct cur as [|c cur]; [intros [= <-] ->%Forall2_nil_inv_r; by eexists|].
  destruct (if decide (c ≠ c_percent) then Ok None else npf_parse_format_spec cur) as [[[fs rest]|]|] eqn:Ep; [| |done].
  - destruct (decide (prec fs ≤ MODEST)) as [Hm|]; [|done].
    destruct (kinds_loop fuel rest) as [ks'|] eqn:Ek; [|done]. intros [= <-] Hf.
    apply Forall2_app_inv_r in Hf as (a1 & a2 & F1 & F2 & ->). destruct (decide (c ≠ c_percent)); [done|].
    apply parse_ok in Ep as [Hok _]. rewrite -app_assoc.
    destruct (prepare_total fs a1 (a2 ++ ex) Hok Hm F1) as (k & -> & Hk). rewrite small_in_range //.
    destruct (IH rest ks' a2 ex Ek F2) as [l ->]. by eexists.
  - intros Hk Hf. destruct (IH cur ks args ex Hk Hf) as [l ->]. by eexists.
Qed.
Lemma render_total format ks args ex : fmt_kinds format = Some ks → Forall2 arg_fits args ks →
  ∃ l, render format (args ++ ex) = Ok (l, ex).
Proof. apply render_loop_total. Qed.

(** ** The loop always ends *)
(** [m] does not run out of fuel, and what it returns satisfies [Q]. *)
Definition ends {S A} (m : M S A) (Q : A → Prop) : Prop :=
  ∀ s, match m s with Ok (a, _) => Q a | Panic e => e ≠ OutOfFuel end.
Lemma ends_bind {S A B} (m : M S A) (f : A → M S B) P Q : ends m P → (∀ a, P a → ends (f a) Q) → ends (m ≫= f) Q.
Proof. intros Hm Hf s. unfold mbind, M_bind. specialize (Hm s). destruct (m s) as [[a s']|e]; [|done]. by apply Hf. Qed.
Lemma ends_ret {S A} (a : A) (Q : A → Prop) : Q a → ends (mret a : M S A) Q.
Proof. by intros Ha s. Qed.
Lemma ends_mono {S A} (m : M S A) (P Q : A → Prop) : ends m P → (∀ a, P a → Q a) → ends m Q.
Proof. intros Hm H s. specialize (Hm s). destruct (m s) as [[a s']|e]; [by apply H|done]. Qed.
Lemma ends_extract_signed m : ends (extract_signed m) (λ v, - 2 ^ 63 ≤ v < 2 ^ 63).
Proof.
  intros [|a args]; [by destruct m|]. pose proof (signed_value_range m a) as Hr.
  destruct m, a; cbn in Hr |- *; done || exact Hr.
Qed.
Lemma ends_extract_unsigned m : ends (extract_unsigned m) (λ v, 0 ≤ v < 2 ^ 64).
Proof.
  intros [|a args]; [by destruct m|]. pose proof (unsigned_value_range m a) as Hr.
  destruct m, a; cbn in Hr |- *; done || exact Hr.
Qed.
Lemma ends_utoa v base adj : 8 ≤ base → 0 ≤ v < 2 ^ 64 → ends (utoa v base adj) (λ _, True).
Proof. intros Hb Hv args. by destruct (utoa_spec v base adj args Hb Hv) as (ds & -> & _). Qed.
Lemma ends_va : ends va_arg (λ _, True) ∧ ends va_int (λ _, True) ∧ ends va_ptr (λ _, True).
Proof. split_and!; intros [|[] l]; done. Qed.
Lemma ends_conv_unsigned fs : ends (conv_unsigned fs) (λ _, True).
Proof.
  eapply ends_bind; [apply ends_extract_unsigned|]. intros v Hv.
  eapply (ends_bind _ _ (λ _, True)).
  - destruct (no_digits fs v); [by apply ends_ret|]. destruct (decide _); [by apply ends_ret|].
    eapply ends_bind; [apply ends_utoa; [repeat destruct (decide _); lia|done]|]. intros l _. by apply ends_ret.
  - intros [[[l len] bin] fs'] _. eapply (ends_bind _ _ (λ _, True)); [|intros [l' len'] _; by apply ends_ret].
    destruct (decide _); [|by apply ends_ret]. eapply (ends_bind _ _ (λ _, True)); [|intros l' _; by apply ends_ret].
    intros args. unfold in_cbuf. by destruct (decide _).
Qed.
Lemma ends_prepare fs : ends (prepare fs) (λ _, True).
Proof.
  destruct ends_va as (_ & Hi & Hp).
  eapply (ends_bind _ _ (λ _, True)); [|intros fs1 _; eapply (ends_bind _ _ (λ _, True)); [|intros fs2 _]].
  - unfold star_width. destruct (decide _); [|by apply ends_ret]. eapply ends_bind; [exact Hi|]. intros v _.
    repeat destruct (decide _); [by intros ?|by apply ends_ret..].
  - unfold star_prec. destruct (decide _); [|by apply ends_ret]. eapply ends_bind; [exact Hi|]. intros v _. by apply ends_ret.
  - unfold convert. destruct (conv_spec fs2); try (by apply ends_ret); try apply ends_conv_unsigned.
    + eapply ends_bind; [exact Hi|]. intros v _. by apply ends_ret.
    + eapply ends_bind; [exact Hp|]. intros [p [s|]] _; [by apply ends_ret|by intros ?].
    + eapply ends_bind; [apply ends_extract_signed|]. intros v Hv. eapply (ends_bind _ _ (λ _, True)); [|intros l _; by apply ends_ret].
      destruct (no_digits fs2 v); [by apply ends_ret|]. apply ends_utoa; [lia|]. destruct (decide _); apply wrap64_range.
    + eapply ends_bind; [exact Hp|]. intros p _. eapply ends_bind; [apply ends_utoa; [lia|apply wrap64_range]|].
      intros l _. by apply ends_ret.
Qed.
Lemma parse_ends cur : npf_parse_format_spec cur ≠ Panic OutOfFuel.
Proof.
  assert (∀ l n, parse_digits l n ≠ Panic OutOfFuel) as Hd.
  { induction l as [|c l IH]; intros n; cbn; [done|]. destruct (is_digit c); [|done]. by case_decide. }
  unfold npf_parse_format_spec. destruct (parse_flags cur spec0) as [s1 c1].
  unfold parse_width. pose proof (Hd c1 0) as H1. destruct (starts c_star c1); [|destruct (parse_digits c1 0) as [[w c2]|e]; [|congruence]].
  all: match goal with |- context [parse_prec ?a ?b] => destruct (parse_prec a b) as [[s3 c3]|e] eqn:E end; [by destruct (parse_length s3 c3)|].
  all: unfold parse_prec in E; revert E; repeat (destruct (starts _ _); cbn [negb]; try done);
    match goal with |- context [parse_digits ?a ?b] => pose proof (Hd a b); destruct (parse_digits a b) as [[]|] end; congruence.
Qed.
Lemma render_loop_ends fuel : ∀ cur args, (length cur < fuel)%nat → render_loop fuel cur args ≠ Panic OutOfFuel.
Proof.
  induction fuel as [|fuel IH]; intros cur args Hl; [lia|]. cbn [render_loop]. destruct cur as [|c cur]; [done|].
  cbn [length] in Hl. pose proof (parse_ends cur) as Hpe.
  destruct (if decide (c ≠ c_percent) then Ok None else npf_parse_format_spec cur) as [[[fs rest]|]|e] eqn:Ep.
  - destruct (decide (c ≠ c_percent)); [done|]. apply parse_ok in Ep as [_ Hlt].
    pose proof (ends_prepare fs args) as He. destruct (prepare fs args) as [[k args']|e]; [|congruence].
    destruct (pads_in_range k); [|done]. pose proof (IH rest args' ltac:(lia)).
    destruct (render_loop fuel rest args') as [[]|]; congruence.
  - pose proof (IH cur args ltac:(lia)). destruct (render_loop fuel cur args) as [[]|]; congruence.
  - destruct (decide (c ≠ c_percent)); congruence.
Qed.
