(* ===== verification/NpfRef.v ===== *)
(** * Formatted output: the reference for integers and buffers

    [number_text] is the layout the C standard prescribes for an integer conversion; the
    text of a format is compared with it.  What [npf_vsnprintf] leaves in a buffer. *)

From S2P Require Import Prelude Str Symbols Npf NpfText.

(** ** The text printed *)
Definition snoc (c : Z) (l : cstring) : cstring := l ++ [c].
Definition printed (format : cstring) (args : list arg) : outcome cstring :=
  match npf_pprintf snoc format args [] with Ok (_, l) => Ok l | Panic e => Panic e end.
Lemma after_snoc l l0 : after snoc l l0 = l0 ++ l.
Proof.
  revert l0. induction l as [|c l IH]; intros l0; [by rewrite app_nil_r|].
  change (after snoc (c :: l) l0) with (after snoc l (l0 ++ [c])). by rewrite IH -app_assoc.
Qed.
Lemma printed_render format args :
  printed format args = match render format args with Ok (l, _) => Ok l | Panic e => Panic e end.
Proof.
  unfold printed, npf_pprintf. rewrite npf_vpprintf_render. destruct (render format args) as [[l v]|]; [|done].
  by rewrite /= after_snoc.
Qed.
(** Any [npf_putc] is given the characters of the text, one after the other. *)
Lemma npf_pprintf_printed {S} (pc : Z → S → S) format args s :
  npf_pprintf pc format args s =
    match printed format args with Ok l => Ok (sint32 (Z.of_nat (length l)), after pc l s) | Panic e => Panic e end.
Proof.
  rewrite printed_render. unfold npf_pprintf. rewrite npf_vpprintf_render. by destruct (render format args) as [[l v]|].
Qed.

(** The step of the loop. *)
Lemma render_cons c cur args : render (c :: cur) args =
  match (if decide (c ≠ c_percent) then Ok None else npf_parse_format_spec cur) with
  | Panic e => Panic e
  | Ok None => match render_loop (S (length cur)) cur args with Ok (l, v) => Ok (c :: l, v) | Panic e => Panic e end
  | Ok (Some (fs, rest)) =>
      match prepare fs args with
      | Panic e => Panic e
      | Ok (k, args) =>
          if pads_in_range k then
            match render_loop (S (length cur)) rest args with Ok (l, v) => Ok (field_text k ++ l, v) | Panic e => Panic e end
          else Panic (Undefined "int overflow")
      end
  end.
Proof. done. Qed.
(** Fuel beyond the number of characters makes no difference. *)
Lemma render_loop_fuel : ∀ f1 f2 cur args, (length cur < f1)%nat → (length cur < f2)%nat →
  render_loop f1 cur args = render_loop f2 cur args.
Proof.
  induction f1 as [|f1 IH]; intros [|f2] cur args H1 H2; try lia. cbn [render_loop]. destruct cur as [|c cur]; [done|].
  cbn [length] in *.
  destruct (if decide (c ≠ c_percent) then Ok None else npf_parse_format_spec cur) as [[[fs rest]|]|e] eqn:Ep; [| |done].
  - destruct (decide (c ≠ c_percent)); [done|]. apply parse_ok in Ep as [_ Hlt].
    destruct (prepare fs args) as [[k args']|e]; [|done]. rewrite (IH f2 rest args'); [lia|lia|done].
  - rewrite (IH f2 cur args); [lia|lia|done].
Qed.
Lemma render_loop_enough f cur args : (length cur < f)%nat → render_loop f cur args = render cur args.
Proof. intros Hf. apply render_loop_fuel; lia. Qed.

(** One conversion, then the rest. *)
Lemma printed_conversion cur fs rest args k args' : npf_parse_format_spec cur = Ok (Some (fs, rest)) →
  prepare fs args = Ok (k, args') → pads_in_range k = true →
  printed (c_percent :: cur) args =
    match printed rest args' with Ok l => Ok (field_text k ++ l) | Panic e => Panic e end.
Proof.
  intros Hp Hk Hr. rewrite !printed_render render_cons.
  destruct (decide (c_percent ≠ c_percent)); [done|]. rewrite Hp Hk Hr.
  apply parse_ok in Hp as [_ Hlt]. rewrite render_loop_enough; [lia|]. by destruct (render rest args') as [[]|].
Qed.
(** Ordinary characters stand for themselves. *)
Lemma printed_plain l args : c_percent ∉ l → printed l args = Ok l.
Proof.
  rewrite printed_render. unfold render. intros Hl.
  assert (∀ fuel args, (length l < fuel)%nat → render_loop fuel l args = Ok (l, args)) as H; [|rewrite H; [lia|done]].
  induction l as [|c l IH]; intros [|fuel] args' Hf; try (cbn in Hf; lia); [done|]. cbn [render_loop].
  apply not_elem_of_cons in Hl as [Hc Hl]. rewrite decide_True //. rewrite IH //. cbn in Hf. lia.
Qed.
Lemma printed_plain_app l1 l2 args : c_percent ∉ l1 →
  printed (l1 ++ l2) args = match printed l2 args with Ok l => Ok (l1 ++ l) | Panic e => Panic e end.
Proof.
  induction l1 as [|c l1 IH]; intros Hl; cbn [app]; [by destruct (printed l2 args)|].
  apply not_elem_of_cons in Hl as [Hc Hl]. specialize (IH Hl). rewrite !printed_render in IH |- *.
  rewrite render_cons decide_True // render_loop_enough; [lia|].
  destruct (render (l1 ++ l2) args) as [[]|]; destruct (render l2 args) as [[]|]; simplify_eq; done.
Qed.

(** ** The layout of integers *)
(** Sign, prefix and digits in a field: blanks after them, zeros before the digits, or
    blanks before them. *)
Definition number_text (fs : npf_format_spec_t) (sign prefix digits : cstring) : cstring :=
  let n := Z.to_nat (field_width fs - Z.of_nat (length (sign ++ prefix ++ digits))) in
  if left_justified fs then sign ++ prefix ++ digits ++ replicate n c_space
  else if leading_zero_pad fs then sign ++ prefix ++ replicate n c_0 ++ digits
  else replicate n c_space ++ sign ++ prefix ++ digits.
(** The digits of the absolute value, with at least as many as the precision asks for. *)
Definition number_digits (fs : npf_format_spec_t) (v : Z) (ds : list Z) : cstring :=
  let d := octal_zero fs v ++ rev (digit_char (case_adjust fs) <$> ds) in
  replicate (Z.to_nat (prec (octal_prec fs v) - Z.of_nat (length d))) c_0 ++ d.
Definition int_value (fs : npf_format_spec_t) (a : arg) : Z :=
  if decide (conv_spec fs = CONV_SIGNED_INT) then signed_value (length_modifier fs) a else unsigned_value (length_modifier fs) a.
Definition number_sign (fs : npf_format_spec_t) (v : Z) : cstring :=
  if decide (conv_spec fs = CONV_SIGNED_INT) then sign_text (if decide (v < 0) then c_minus else prepend fs) else [].
Definition number_prefix (fs : npf_format_spec_t) (v : Z) : cstring :=
  if decide (prefix_letter fs v ≠ 0) then [c_0; prefix_letter fs v] else [].

Lemma npf_max_0 x : Z.to_nat (npf_max 0 x) = Z.to_nat x.
Proof. unfold npf_max. case_decide; lia. Qed.
Lemma length_sign_text c : Z.of_nat (length (sign_text c)) = if decide (c ≠ 0) then 1 else 0.
Proof. unfold sign_text. by case_decide. Qed.
Lemma length_prefix_text k : Z.of_nat (length (prefix_text k)) = if decide (need_0x k ≠ 0) then 2 else 0.
Proof. unfold prefix_text. by case_decide. Qed.

(** A field with a number in it. *)
Lemma field_number k fs : int_conversion (conv_spec fs) → spec_ok fs → c_fs k = fs → 0 ≤ prec fs →
  cbuf_len k = Z.of_nat (length (cbuf k)) → (sign_c k = 0 ∨ need_0x k = 0) →
  field_text k = number_text fs (sign_text (sign_c k)) (prefix_text k)
    (replicate (Z.to_nat (prec fs - Z.of_nat (length (cbuf k)))) c_0 ++ rev (cbuf k)).
Proof.
  intros Hc Hok Ef Hp Hl Hs.
  assert (conv_spec fs ≠ CONV_STRING ∧ conv_spec fs ≠ CONV_CHAR ∧ conv_spec fs ≠ CONV_PERCENT ∧ conv_spec fs ≠ CONV_BINARY)
    as (N1 & N2 & N3 & N4) by (destruct Hc as [->|[->|[->| ->]]]; done).
  assert (payload k = rev (cbuf k)) as Epay.
  { unfold payload. rewrite Ef decide_False // Hl Nat2Z.id take_ge //. }
  set (z := Z.to_nat (prec fs - Z.of_nat (length (cbuf k)))).
  assert (prec_pad k = Z.of_nat z) as Ez.
  { unfold prec_pad. rewrite Ef Hl. destruct (decide (conv_spec fs ≠ CONV_STRING)) as [_|?]; [|done]. unfold npf_max, z. case_decide; lia. }
  set (digits := replicate z c_0 ++ rev (cbuf k)).
  assert (Z.to_nat (field_pad k) = Z.to_nat (field_width fs - Z.of_nat (length (sign_text (sign_c k) ++ prefix_text k ++ digits)))) as Epad.
  { unfold field_pad. rewrite npf_max_0. f_equal. unfold field_rest. rewrite Ez Ef !length_app !Nat2Z.inj_add.
    rewrite length_sign_text length_prefix_text length_replicate length_rev Hl. lia. }
  unfold field_text, number_text. rewrite Ef Ez Nat2Z.id Epad Epay.
  cbv zeta. set (n := Z.to_nat (field_width fs - _)). assert (sign_text (sign_c k) ++ prefix_text k = prefix_text k ++ sign_text (sign_c k)) as Hcomm.
  { destruct Hs as [E|E]; unfold prefix_text, sign_text; rewrite E; [by rewrite app_nil_r|by rewrite app_nil_r]. }
  set (sg := sign_text (sign_c k)) in *. set (pf := prefix_text k) in *.
  destruct (decide (conv_spec fs = CONV_STRING)) as [?|_]; [done|]. fold digits.
  assert (pf ++ sg ++ digits = sg ++ pf ++ digits) as Hsw by (rewrite !app_assoc Hcomm //).
  assert (∀ l, pf ++ sg ++ digits ++ l = sg ++ pf ++ digits ++ l) as Hswl by (intros l; rewrite !app_assoc Hcomm //).
  destruct (decide (field_width_opt fs = NPF_FMT_SPEC_OPT_NONE)) as [Ew|Nw].
  - assert (n = 0%nat) as En. { unfold n. rewrite (so_nowidth _ Hok Ew). lia. }
    assert (pad_char k = 0) as ->. { unfold pad_char. by rewrite Ef decide_True. }
    rewrite En. change (replicate 0 c_space) with (@nil Z). change (replicate 0 c_0) with (@nil Z). rewrite app_nil_r. cbn [app].
    destruct (left_justified fs); [|destruct (leading_zero_pad fs)]; cbn; rewrite ?app_nil_r //.
  - destruct (leading_zero_pad fs) eqn:Elz.
    + pose proof (so_pad _ Hok) as Hpad. rewrite Elz andb_true_r in Hpad. rewrite Hpad.
      assert (prec_opt fs = NPF_FMT_SPEC_OPT_NONE) as Eo.
      { destruct (decide (prec_opt fs = NPF_FMT_SPEC_OPT_NONE)) as [|No]; [done|].
        pose proof (so_intpad _ Hok Hc No) as H. by rewrite Elz in H. }
      assert (pad_char k = c_0) as ->; [|done].
      unfold pad_char. rewrite Ef Elz decide_False // decide_True // decide_False //. tauto.
    + assert (pad_char k = c_space) as ->; [by rewrite /pad_char Ef Elz decide_False|].
      destruct (left_justified fs); [apply Hswl|by rewrite /= Hsw].
Qed.

(** The digits of a conversion exist, whatever the value. *)
Lemma prec_octal_nonneg fs v : 0 ≤ prec fs → 0 ≤ prec (octal_prec fs v).
Proof. intros. unfold octal_prec. destruct (no_digits fs v); [case_decide|]; cbn; lia. Qed.
Lemma spec_ok_octal fs v : spec_ok fs → spec_ok (octal_prec fs v).
Proof.
  intros [W1 W2 P L I A Pr Cv]. unfold octal_prec. destruct (no_digits fs v); [case_decide|]; split; cbn; try done.
Qed.
Lemma number_text_octal fs v : number_text (octal_prec fs v) = number_text fs.
Proof. unfold octal_prec. destruct (no_digits fs v); [|done]. by case_decide. Qed.

(** An integer conversion with the argument for it. *)
Lemma prepare_number fs a args : int_conversion (conv_spec fs) → spec_ok fs → prec fs ≤ MODEST →
  field_width_opt fs ≠ NPF_FMT_SPEC_OPT_STAR → prec_opt fs ≠ NPF_FMT_SPEC_OPT_STAR →
  arg_fits a (int_kind (length_modifier fs)) →
  ∃ k ds, prepare fs (a :: args) = Ok (k, args) ∧ pads_in_range k = true ∧
    digits_of fs (base_of (conv_spec fs)) (int_value fs a) ds ∧
    field_text k = number_text fs (number_sign fs (int_value fs a)) (number_prefix fs (int_value fs a))
      (number_digits fs (int_value fs a) ds).
Proof.
  intros Hc Hok Hm Nw Np Ha. pose proof (so_prec _ Hok) as Hpr. pose proof (so_width _ Hok) as Hw.
  assert (prepare fs (a :: args) = convert fs (a :: args)) as ->.
  { unfold prepare, star_width. destruct (decide _) as [?|_]; [done|]. unfold mbind, M_bind, mret, M_ret, star_prec.
    by destruct (decide _). }
  destruct (decide (conv_spec fs = CONV_SIGNED_INT)) as [Es|Ns].
  - destruct (conv_signed_spec fs a args Ha) as (ds & Hd & Hl & E). eexists _, ds. split_and!.
    + unfold convert. rewrite Es. exact E.
    + apply small_in_range. unfold small_conv, MODEST in *. cbn. lia.
    + unfold int_value. rewrite Es. exact Hd.
    + rewrite (field_number _ fs) //; [lia|cbn; by rewrite length_fmap|by right|].
      assert (int_value fs a = signed_value (length_modifier fs) a) as -> by (unfold int_value; by rewrite Es).
      set (v := signed_value _ _) in *.
      assert (prefix_letter fs v = 0) as Ep by (unfold prefix_letter; rewrite Es; by destruct (decide (v ≠ 0 ∧ alt_form fs = true))).
      assert (octal_zero fs v = []) as Eo by
        (unfold octal_zero; destruct (decide (v ≠ 0 ∧ alt_form fs = true ∧ conv_spec fs = CONV_OCTAL)) as [(_ & _ & ?)|_]; [congruence|done]).
      assert (octal_prec fs v = fs) as Eq.
      { unfold octal_prec. destruct (no_digits fs v); [|done]. destruct (decide (conv_spec fs = CONV_OCTAL ∧ alt_form fs = true)) as [(? & _)|_]; [congruence|done]. }
      unfold number_sign, number_prefix, number_digits. rewrite Es Ep Eo Eq. cbn [sign_c cbuf app]. by rewrite length_rev.
  - assert (plain_unsigned (conv_spec fs)) as Hu by (destruct Hc; done).
    destruct (conv_unsigned_spec fs a args Ha Hu) as (ds & Hd & Hl & E). eexists _, ds. split_and!.
    + assert (convert fs = conv_unsigned fs) as -> by (unfold convert; by destruct Hu as [->|[->| ->]]). exact E.
    + apply small_in_range. destruct (octal_prec_fields fs (unsigned_value (length_modifier fs) a)) as (_ & _ & _ & F & _).
      assert (length (octal_zero fs (unsigned_value (length_modifier fs) a)) ≤ 1)%nat as Ho.
      { unfold octal_zero. by destruct (decide _); cbn [length]; lia. }
      unfold small_conv. cbn [cbuf_len c_fs]. rewrite F length_app length_fmap. unfold MODEST in *. split_and!; try lia.
      all: unfold octal_prec; destruct (no_digits _ _); [destruct (decide _)|]; cbn [prec set_prec]; lia.
    + unfold int_value. rewrite decide_False //.
    + unfold int_value. destruct (decide (conv_spec fs = CONV_SIGNED_INT)) as [?|_]; [done|].
      set (v := unsigned_value _ _) in *.
      rewrite (field_number _ (octal_prec fs v)) //.
      * by destruct (octal_prec_fields fs v) as (-> & _).
      * by apply spec_ok_octal.
      * apply prec_octal_nonneg. lia.
      * by left.
      * rewrite number_text_octal. cbn [sign_c]. unfold number_sign. rewrite decide_False //. f_equal.
        assert (rev (octal_zero fs v) = octal_zero fs v) as Er.
        { unfold octal_zero. by destruct (decide (v ≠ 0 ∧ alt_form fs = true ∧ conv_spec fs = CONV_OCTAL)). }
        unfold number_digits. cbn [cbuf]. rewrite rev_app_distr Er. do 4 f_equal.
        rewrite !length_app length_rev. lia.
Qed.
Lemma printed_number cur fs rest a args : npf_parse_format_spec cur = Ok (Some (fs, rest)) →
  int_conversion (conv_spec fs) → prec fs ≤ MODEST →
  field_width_opt fs ≠ NPF_FMT_SPEC_OPT_STAR → prec_opt fs ≠ NPF_FMT_SPEC_OPT_STAR →
  arg_fits a (int_kind (length_modifier fs)) →
  let v := int_value fs a in
  ∃ ds, digits_of fs (base_of (conv_spec fs)) v ds ∧
    printed (c_percent :: cur) (a :: args) =
      match printed rest args with
      | Ok l => Ok (number_text fs (number_sign fs v) (number_prefix fs v) (number_digits fs v ds) ++ l)
      | Panic e => Panic e
      end.
Proof.
  intros Hp Hc Hm Nw Np Ha v. destruct (parse_ok _ _ _ Hp) as [Hok _].
  destruct (prepare_number fs a args Hc Hok Hm Nw Np Ha) as (k & ds & Hk & Hr & Hd & Ht).
  exists ds. split; [exact Hd|]. by rewrite (printed_conversion cur fs rest _ k args Hp Hk Hr) Ht.
Qed.

(** ** Buffers *)
(** Characters stored one after the other, as long as there is room. *)
Lemma after_bufputc l : ∀ pre post n, (length pre ≤ n)%nat → (n ≤ length (pre ++ post))%nat →
  let t := take (n - length pre) (wrap8 <$> l) in
  after npf_bufputc l (BufCtx (pre ++ post) (Z.of_nat n) (Z.of_nat (length pre))) =
    BufCtx (pre ++ t ++ drop (length t) post) (Z.of_nat n) (Z.of_nat (length pre + length t)).
Proof.
  induction l as [|c l IH]; intros pre post n Hpre Hn t; cbn [fmap list_fmap] in t.
  - unfold t. rewrite take_nil. cbn. by rewrite drop_0 Nat.add_0_r.
  - rewrite length_app in Hn.
    change (after npf_bufputc (c :: l) ?b) with (after npf_bufputc l (npf_bufputc c b)).
    unfold npf_bufputc at 2. cbn [bcur blen dst].
    destruct (decide (Z.of_nat (length pre) < Z.of_nat n)) as [Hlt|Hge].
    + destruct post as [|p post]; [cbn in Hn; lia|]. rewrite Nat2Z.id insert_app_r_alt // Nat.sub_diag /=.
      replace (Z.of_nat (length pre) + 1) with (Z.of_nat (length (pre ++ [wrap8 c]))) by (rewrite length_app; cbn; lia).
      replace (pre ++ wrap8 c :: post) with ((pre ++ [wrap8 c]) ++ post) by by rewrite -app_assoc.
      rewrite IH; [rewrite length_app; cbn; lia|rewrite !length_app; cbn in *; lia|].
      unfold t. rewrite length_app /= Nat.add_1_r. destruct (n - length pre)%nat as [|m] eqn:Em; [lia|].
      replace (n - S (length pre))%nat with m by lia. cbn [take length drop]. rewrite -app_assoc. cbn. f_equal. lia.
    + assert (n = length pre) as -> by lia. rewrite IH; [lia|rewrite length_app; lia|]. unfold t. by rewrite Nat.sub_diag.
Qed.

(** What [npf_vsnprintf] does: as much of the text as fits before a zero. *)
Lemma npf_vsnprintf_spec mem bufsz format args l : printed format args = Ok l → 0 < bufsz ≤ Z.of_nat (length mem) →
  let t := take (Z.to_nat (bufsz - 1)) (wrap8 <$> l) in
  npf_vsnprintf (Some mem) bufsz format args =
    Ok (Some (<[Z.to_nat (bufsz - 1) := 0]> (t ++ 0 :: drop (S (length t)) mem)), sint32 (Z.of_nat (length l))).
Proof.
  intros Hl Hb t. unfold npf_vsnprintf. rewrite decide_False; [lia|].
  pose proof (npf_pprintf_printed npf_bufputc format args (BufCtx mem bufsz 0)) as Hp.
  unfold npf_pprintf in Hp. rewrite Hl in Hp.
  destruct (npf_vpprintf npf_bufputc format _) as [[n o]|]; [|done]. injection Hp as -> Ho. rewrite Ho decide_True; [lia|].
  do 3 f_equal. change (npf_bufputc 0 (after npf_bufputc l ?b)) with (foldl (λ s c, npf_bufputc c s) (after npf_bufputc l b) [0]).
  assert (foldl (λ s c, npf_bufputc c s) (after npf_bufputc l (BufCtx mem bufsz 0)) [0] =
    after npf_bufputc (l ++ [0]) (BufCtx mem bufsz 0)) as -> by (unfold after; by rewrite foldl_app).
  pose proof (after_bufputc (l ++ [0]) [] mem (Z.to_nat bufsz)) as Ha. cbn [app length] in Ha.
  rewrite Z2Nat.id in Ha; [lia|]. rewrite Ha; [lia|lia|]. cbn [dst]. rewrite Nat.sub_0_r.
  rewrite fmap_app. change (wrap8 <$> [0]) with [0].
  destruct (decide (length l < Z.to_nat bufsz)%nat) as [Hs|Hge].
  - unfold t. rewrite !take_ge; [rewrite ?length_app length_fmap /=; lia..|]. rewrite length_app /= Nat.add_1_r -app_assoc. done.
  - rewrite take_app_le; [rewrite length_fmap; lia|].
    assert (length t = Z.to_nat (bufsz - 1)) as Ht by (unfold t; rewrite length_take length_fmap; lia).
    destruct (lookup_lt_is_Some_2 (wrap8 <$> l) (Z.to_nat (bufsz - 1))) as [x Hx]; [rewrite length_fmap; lia|].
    replace (Z.to_nat bufsz) with (S (Z.to_nat (bufsz - 1))) by lia. rewrite (take_S_r _ _ x) // -/t.
    rewrite length_app /= Ht Nat.add_1_r -app_assoc. 
    rewrite !(insert_app_r_alt t) ?Ht //. rewrite Nat.sub_diag. f_equal.
Qed.

(** ** Hexadecimal numbers, read back by [strtoaddr] *)
Lemma digit_char_lower d : digit_char 32 d = digit d.
Proof. unfold digit_char, digit, c_0, c_A. case_decide; lia. Qed.
Lemma fmap_rev {A B} (f : A → B) l : f <$> rev l = rev (f <$> l).
Proof. induction l as [|x l IH]; [done|]. cbn. by rewrite fmap_app IH. Qed.
Lemma hex_value_app l1 l2 : hex_value (l1 ++ l2) = 16 ^ Z.of_nat (length l2) * hex_value l1 + hex_value l2.
Proof.
  induction l2 as [|d l2 IH] using rev_ind; [rewrite app_nil_r; cbn; lia|].
  rewrite app_assoc !hex_value_snoc IH length_app Nat2Z.inj_add Z.pow_add_r; [lia|lia|]. change (16 ^ Z.of_nat (length [d])) with 16. lia.
Qed.
Lemma hex_value_zeros n : hex_value (replicate n 0) = 0.
Proof. induction n as [|n IH]; [done|]. by rewrite replicate_S_end hex_value_snoc IH. Qed.
Lemma hex_value_rev ds : hex_value (rev ds) = value 16 ds.
Proof. induction ds as [|d ds IH]; [done|]. cbn [rev value]. rewrite hex_value_snoc IH. lia. Qed.
Lemma hex_digits v ds : 0 ≤ v < 2 ^ 64 → canonical 16 v ds → (length ds ≤ 16)%nat.
Proof.
  intros Hv Hc. destruct (decide (v = 0)) as [->|Hz].
  - rewrite (canonical_zero 16 ds); [lia|done|]. cbn. lia.
  - pose proof (canonical_length 16 v ds ltac:(lia) Hc ltac:(lia)) as Hl.
    destruct (decide (length ds ≤ 16)%nat) as [|Hge]; [done|exfalso].
    assert (16 ^ 16 ≤ 16 ^ (Z.of_nat (length ds) - 1)) by (apply Z.pow_le_mono_r; lia).
    change (16 ^ 16) with (2 ^ 64) in *. lia.
Qed.

(** The formats [%lx] and [%0nlx], and what they print. *)
Record hex_format (cur : cstring) (fs : npf_format_spec_t) (rest : cstring) : Prop := {
  hf_parse : npf_parse_format_spec cur = Ok (Some (fs, rest));
  hf_conv : conv_spec fs = CONV_HEX_INT;
  hf_long : length_modifier fs = LEN_MOD_LONG;
  hf_case : case_adjust fs = 32;
  hf_alt : alt_form fs = false;
  hf_width : field_width_opt fs ≠ NPF_FMT_SPEC_OPT_STAR ∧ field_width fs ≤ 16;
  hf_zeros : field_width fs = 0 ∨ (leading_zero_pad fs = true ∧ left_justified fs = false);
  hf_prec : prec_opt fs = NPF_FMT_SPEC_OPT_NONE ∧ prec fs = 0;
}.
Lemma printed_hex cur fs rest v args : hex_format cur fs rest →
  ∃ ds, Forall digit_ok ds ∧ (length ds ≤ 16)%nat ∧ field_width fs ≤ Z.of_nat (length ds) ∧ hex_value ds = wrap64 v ∧
    printed (c_percent :: cur) (ALong v :: args) =
      match printed rest args with Ok l => Ok ((digit <$> ds) ++ l) | Panic e => Panic e end.
Proof.
  intros [Hp Hc Hl Hca Hal [Hw1 Hw2] Hz [Ho Hpr]].
  destruct (printed_number cur fs rest (ALong v) args Hp) as (ds & Hd & E).
  { right. right. by left. } { rewrite Hpr. unfold MODEST. lia. } { done. } { by rewrite Ho. } { by rewrite Hl. }
  assert (int_value fs (ALong v) = wrap64 v) as Ev by (unfold int_value; by rewrite Hc).
  rewrite Ev in Hd, E. pose proof (wrap64_range v) as Hr. unfold digits_of in Hd.
  assert (∀ x, no_digits fs x = false) as Hnd by (intros x; apply bool_decide_eq_false; tauto).
  rewrite Hnd Hc Z.abs_eq in Hd; [lia|]. change (base_of CONV_HEX_INT) with 16 in Hd. pose proof (hex_digits _ _ Hr Hd) as Hlen. destruct Hd as (_ & Hd & Hval & _).
  set (n := Z.to_nat (field_width fs - Z.of_nat (length ds))).
  exists (replicate n 0 ++ rev ds). split_and!.
  - apply Forall_app. split; [by apply Forall_replicate|]. by apply Forall_rev.
  - rewrite length_app length_replicate length_rev. lia.
  - rewrite length_app length_replicate length_rev. lia.
  - rewrite hex_value_app hex_value_zeros hex_value_rev. lia.
  - rewrite E. destruct (printed rest args) as [l|]; [|done]. do 2 f_equal.
    assert (number_sign fs (wrap64 v) = []) as -> by (unfold number_sign; by rewrite Hc).
    assert (number_prefix fs (wrap64 v) = []) as ->.
    { unfold number_prefix, prefix_letter. rewrite Hal.
      by destruct (decide (wrap64 v ≠ 0 ∧ false = true)) as [[_ ?]|_]. }
    assert (number_digits fs (wrap64 v) ds = digit <$> rev ds) as ->.
    { unfold number_digits, octal_prec, octal_zero. rewrite Hnd Hpr Hca Hc.
      destruct (decide (wrap64 v ≠ 0 ∧ alt_form fs = true ∧ CONV_HEX_INT = CONV_OCTAL)) as [(_ & _ & ?)|_]; [done|].
      replace (Z.to_nat _) with 0%nat by lia. cbn [replicate app]. rewrite fmap_rev. f_equal. apply list_fmap_ext.
      intros ? d _. apply digit_char_lower. }
    unfold number_text. cbn [app]. rewrite length_fmap length_rev. fold n.
    rewrite fmap_app fmap_replicate. change (digit 0) with c_0. destruct Hz as [Hz|[-> ->]]; [|done].
    assert (n = 0%nat) as -> by (unfold n; lia). cbn. rewrite app_nil_r. by destruct (left_justified fs), (leading_zero_pad fs).
Qed.

Lemma strtoaddr_digits ds m p : Forall digit_ok ds → (length ds ≤ 16)%nat → text_at m p (digit <$> ds) →
  strtoaddr p (Z.of_nat (length ds)) m = Ok (hex_value ds, m).
Proof.
  intros Hd Hl Ht. unfold strtoaddr. rewrite Nat2Z.id.
  pose proof (strtoaddr_loop_spec m p ds [] Ht) as Hs. rewrite app_nil_r in Hs. specialize (Hs Hd Hl).
  unfold wp in Hs. cbn [length hex_value foldl] in Hs.
  destruct (strtoaddr_loop _ _ _ _ _ m) as [[r m']|]; [|done]. by destruct Hs as [-> ->].
Qed.

(** ** How long a text can be *)
Lemma length_number_field k : 0 ≤ cbuf_len k →
  Z.of_nat (length (field_text k)) ≤ Z.max 0 (field_width (c_fs k)) + Z.max 0 (prec (c_fs k)) + cbuf_len k + 3.
Proof.
  intros Hl. assert (Z.of_nat (length (payload k)) ≤ cbuf_len k) as Hp.
  { assert (∀ n v, length (bin_digits n v) = n) as Hb by (induction n; intros v; cbn; auto).
    unfold payload. destruct (decide _); [rewrite Hb|rewrite length_rev length_take]; lia. }
  assert (Z.of_nat (length (take (Z.to_nat (cbuf_len k)) (cbuf k))) ≤ cbuf_len k) as Ht by (rewrite length_take; lia).
  pose proof (length_sign_text (sign_c k)) as Hs. pose proof (length_prefix_text k) as Hx.
  assert (Z.of_nat (Z.to_nat (field_pad k)) + Z.of_nat (Z.to_nat (prec_pad k)) + cbuf_len k ≤
    Z.max 0 (field_width (c_fs k)) + Z.max 0 (prec (c_fs k)) + cbuf_len k) as Hb.
  { unfold field_pad, field_rest, prec_pad, npf_max. repeat case_decide; lia. }
  unfold field_text. cbv zeta.
  repeat (destruct (left_justified _) || destruct (decide (conv_spec _ = _)) || destruct (decide (pad_char _ = _))
    || destruct (decide (pad_char _ ≠ _)));
    rewrite ?length_app ?length_replicate; cbn [length]; repeat case_decide; lia.
Qed.
(** The sums of the bound, kept apart from those of the parser. *)
Definition bound_string (s : cstring) : Z := Z.max 64 (Z.of_nat (length s)).
Definition bound_add (x y : Z) : Z := x + y.
(** The characters a conversion can bring into the field, and the arguments after it; stars
    are not counted. *)
Definition conv_bound (fs : npf_format_spec_t) (args : list arg) : option (Z * list arg) :=
  if decide (field_width_opt fs = NPF_FMT_SPEC_OPT_STAR ∨ prec_opt fs = NPF_FMT_SPEC_OPT_STAR) then None else
  match conv_kinds fs, args with
  | [], _ => Some (1, args)
  | _, APtr _ (Some s) :: args => Some (bound_string s, args)
  | _, _ :: args => Some (64, args)
  | _, [] => None
  end.
Fixpoint bound_loop (fuel : nat) (cur : cstring) (args : list arg) : option Z :=
  match fuel with
  | O => None
  | S fuel =>
      match cur with
      | [] => Some 0
      | c :: cur' =>
          match (if decide (c ≠ c_percent) then Ok None else npf_parse_format_spec cur') with
          | Panic _ => None
          | Ok None => b ← bound_loop fuel cur' args; Some (bound_add 1 b)
          | Ok (Some (fs, rest)) =>
              r ← conv_bound fs args;
              b ← bound_loop fuel rest r.2;
              Some (bound_add (field_width fs + prec fs + 3) (bound_add r.1 b))
          end
      end
  end.
Definition text_bound (format : cstring) (args : list arg) : option Z := bound_loop (S (length format)) format args.
Lemma convert_fits fs a args r : conv_spec fs = CONV_SIGNED_INT ∨ conv_spec fs = CONV_BINARY ∨ plain_unsigned (conv_spec fs) →
  convert fs (a :: args) = Ok r → arg_fits a (int_kind (length_modifier fs)).
Proof.
  intros Hc. unfold convert.
  destruct Hc as [->|[->|[->|[->| ->]]]]; unfold conv_signed, conv_unsigned, mbind, M_bind;
    destruct (length_modifier fs), a; by intros.
Qed.
Lemma unsigned_bound fs a args k args'' b : spec_ok fs → 64 ≤ b → plain_unsigned (conv_spec fs) →
  convert fs (a :: args) = Ok (k, args'') → args'' = args ∧ 0 ≤ cbuf_len k ∧ field_width (c_fs k) = field_width fs ∧
    Z.max 0 (prec (c_fs k)) + cbuf_len k ≤ prec fs + b.
Proof.
  intros Hok Hb Hc Hk. pose proof (so_prec _ Hok) as Hp. pose proof (convert_fits _ _ _ _ (or_intror (or_intror Hc)) Hk) as Ha.
  assert (convert fs = conv_unsigned fs) as Ecv by (unfold convert; by destruct Hc as [->|[->| ->]]). rewrite Ecv in Hk.
  destruct (conv_unsigned_spec fs a args Ha Hc) as (ds & _ & Hl & E). rewrite E in Hk. injection Hk as <- <-.
  destruct (octal_prec_fields fs (unsigned_value (length_modifier fs) a)) as (_ & _ & _ & F & _).
  assert (length (octal_zero fs (unsigned_value (length_modifier fs) a)) ≤ 1)%nat as Ho.
  { unfold octal_zero. by destruct (decide _); cbn [length]; lia. }
  assert (prec (octal_prec fs (unsigned_value (length_modifier fs) a)) ≤ prec fs + 1) as Hq.
  { unfold octal_prec. destruct (no_digits _ _); [destruct (decide _)|]; cbn; lia. }
  cbn [cbuf_len c_fs]. rewrite length_app length_fmap F. split_and!; try done; lia.
Qed.
Lemma conv_bound_spec fs args b args' k args'' : spec_ok fs → conv_bound fs args = Some (b, args') →
  prepare fs args = Ok (k, args'') → args'' = args' ∧ 0 ≤ cbuf_len k ∧ field_width (c_fs k) = field_width fs ∧
    Z.max 0 (prec (c_fs k)) + cbuf_len k ≤ prec fs + b.
Proof.
  intros Hok Hb Hk. pose proof (so_prec _ Hok) as Hp. unfold conv_bound in Hb.
  destruct (decide (field_width_opt fs = NPF_FMT_SPEC_OPT_STAR ∨ prec_opt fs = NPF_FMT_SPEC_OPT_STAR)) as [|Hs]; [done|].
  assert (prepare fs args = convert fs args) as Ep.
  { unfold prepare, star_width. destruct (decide (field_width_opt fs = NPF_FMT_SPEC_OPT_STAR)) as [?|_]; [tauto|].
    unfold mbind, M_bind, mret, M_ret, star_prec. destruct (decide (prec_opt fs = NPF_FMT_SPEC_OPT_STAR)); [tauto|done]. }
  rewrite Ep in Hk. clear Ep. unfold conv_kinds in Hb. destruct args as [|a args].
  { unfold convert, conv_signed, conv_unsigned, mbind, M_bind in Hk. destruct (conv_spec fs); try done;
      injection Hb as <- <-; injection Hk as <- <-; cbn; split_and!; try done; lia. }
  destruct (conv_spec fs) eqn:Ec.
  1-2: unfold convert in Hk; rewrite Ec in Hk; injection Hb as <- <-; injection Hk as <- <-; cbn; split_and!; try done; lia.
  all: assert (args' = args ∧ 64 ≤ b ∧ match a with APtr _ (Some s) => Z.of_nat (length s) ≤ b | _ => True end) as (-> & Hb64 & Hbs)
    by (unfold bound_string in Hb; destruct a as [| |p [s|]]; injection Hb as <- <-; split_and!; lia || done).
  - unfold convert in Hk. rewrite Ec in Hk. destruct a; try done. injection Hk as <- <-. cbn. split_and!; try done; lia.
  - unfold convert in Hk. rewrite Ec in Hk. destruct a as [| |p [s|]]; try done. injection Hk as <- <-. cbn. unfold str_len.
    split_and!; try done; case_decide; lia.
  - pose proof (convert_fits _ _ _ _ (or_introl Ec) Hk) as Ha. unfold convert in Hk. rewrite Ec in Hk.
    destruct (conv_signed_spec fs a args Ha) as (ds & _ & Hl & E). rewrite E in Hk. injection Hk as <- <-. cbn.
    split_and!; try done; lia.
  - pose proof (convert_fits _ _ _ _ (or_intror (or_introl Ec)) Hk) as Ha. unfold convert in Hk. rewrite Ec in Hk.
    rewrite (conv_binary_spec fs a args Ha Ec) in Hk. injection Hk as <- <-.
    pose proof (npf_bin_len_range _ (unsigned_value_range (length_modifier fs) a)). cbn -[no_digits].
    destruct (no_digits _ _); split_and!; try done; lia.
  - apply (unsigned_bound fs a args); try done. by left.
  - apply (unsigned_bound fs a args); try done. by right; left.
  - apply (unsigned_bound fs a args); try done. by right; right.
  - unfold convert in Hk. rewrite Ec in Hk. destruct a as [| |p s]; try done.
    destruct (utoa_spec (wrap64 p) 16 32 args) as (ds & E & _ & Hl); [lia|apply wrap64_range|].
    rewrite (bind_ok va_ptr _ _ (p, s) args) // (bind_ok _ _ _ _ _ E) in Hk. injection Hk as <- <-. cbn.
    rewrite length_fmap. unfold NANOPRINTF_CONVERSION_BUFFER_SIZE in *. split_and!; try done; lia.
Qed.
Lemma bound_loop_spec fuel : ∀ cur args b l v, bound_loop fuel cur args = Some b → render_loop fuel cur args = Ok (l, v) →
  Z.of_nat (length l) ≤ b.
Proof.
  induction fuel as [|fuel IH]; intros cur args b l v; cbn [bound_loop render_loop]; [done|].
  destruct cur as [|c cur]; [intros [= <-] [= <- <-]; done|].
  destruct (if decide (c ≠ c_percent) then Ok None else npf_parse_format_spec cur) as [[[fs rest]|]|] eqn:Ep; [| |done].
  - destruct (decide (c ≠ c_percent)); [done|]. apply parse_ok in Ep as [Hok _].
    destruct (conv_bound fs args) as [[b1 args1]|] eqn:Eb; [|done]. cbn. destruct (bound_loop fuel rest args1) as [b2|] eqn:E2; [|done].
    intros [= <-]. unfold bound_add. destruct (prepare fs args) as [[k args2]|] eqn:Ek; [|done]. destruct (pads_in_range k); [|done].
    destruct (conv_bound_spec fs args b1 args1 k args2 Hok Eb Ek) as (-> & Hl & Hw & Hb).
    destruct (render_loop fuel rest args1) as [[l2 v2]|] eqn:Er; [|done]. intros [= <- <-].
    pose proof (IH _ _ _ _ _ E2 Er). pose proof (length_number_field k Hl). pose proof (so_width _ Hok). rewrite length_app. lia.
  - cbn. destruct (bound_loop fuel cur args) as [b2|] eqn:E2; [|done]. intros [= <-]. unfold bound_add.
    destruct (render_loop fuel cur args) as [[l2 v2]|] eqn:Er; [|done]. intros [= <- <-].
    pose proof (IH _ _ _ _ _ E2 Er). cbn [length]. lia.
Qed.
Lemma text_bound_spec format args b l : text_bound format args = Some b → printed format args = Ok l → Z.of_nat (length l) ≤ b.
Proof.
  rewrite printed_render. unfold text_bound, render. intros Hb.
  destruct (render_loop _ format args) as [[l' v]|] eqn:E; [|done]. intros [= <-]. by eapply bound_loop_spec.
Qed.
