(* ===== verification/Printk.v ===== *)
(** * [printk] with its format: [kernel/lib/log.c] on [kernel/include/nanoprintf.h]

    [printk] of [Log.v] is given the text of a message.  Here the message is a format and
    its arguments, printed into a buffer on the stack of which only the terminating byte
    is initialised, and the two agree. *)

From S2P Require Import Prelude Str Symbols Log Npf NpfText NpfRef.

(** [junk] is what the first [MSG_BUF_SIZE] bytes of [buf] happen to hold. *)
Definition printk_fmt (LOG_LEVEL : Z) (junk : text) (fmt : cstring) (args : list arg) : M logw unit :=
  let buf := junk ++ [0] in
  let lvl := hd 0 fmt in
  if decide (1 ≤ lvl ∧ lvl ≤ 6 ∧ lvl < LOG_LEVEL) then mret tt else
  r ← (if decide (1 ≤ lvl ∧ lvl ≤ 7) then
         r ← lift (npf_snprintf (Some buf) MSG_BUF_SIZE (log_prefix lvl) []);
         mem ← deref "buf" r.1;
         mret (mem, wrap64 r.2, drop 1 fmt)
       else mret (buf, 0, fmt));
  let '(buf, size, fmt) := r in
  oldstate ← l_acquire_intr print_lock;
  r ← lift (npf_vsnprintf (Some (drop (Z.to_nat size) buf)) (MSG_BUF_SIZE - size) fmt args);
  mem ← deref "buf" r.1;
  let buf := take (Z.to_nat size) buf ++ mem in
  let size := wrap64 (size + r.2) in
  on_lb (logbuffer_write buf size);;
  printk_buffer_write DRAIN_FUEL;;
  l_release_intr print_lock oldstate.

(** The part of the format that is printed after the prefix. *)
Definition message_format (fmt : cstring) : cstring := if decide (1 ≤ hd 0 fmt ∧ hd 0 fmt ≤ 7) then drop 1 fmt else fmt.

Lemma log_prefix_level lvl : 1 ≤ lvl ≤ 7 →
  Z.of_nat (length (log_prefix lvl)) < 20 ∧ c_percent ∉ log_prefix lvl ∧ wrap8 <$> log_prefix lvl = log_prefix lvl.
Proof.
  intros H. assert (lvl = 1 ∨ lvl = 2 ∨ lvl = 3 ∨ lvl = 4 ∨ lvl = 5 ∨ lvl = 6 ∨ lvl = 7) as
    [->|[->|[->|[->|[->|[->| ->]]]]]] by lia; (split_and!; [done|apply (bool_decide_eq_false_1 (c_percent ∈ log_prefix _)); by vm_compute|done]).
Qed.
Lemma log_prefix_none lvl : ¬ (1 ≤ lvl ∧ lvl ≤ 7) → log_prefix lvl = [].
Proof. intros H. unfold log_prefix. by rewrite !decide_False; [..|done]; lia. Qed.

(** Only the bytes counted by [size] matter, and only if there are few enough of them. *)
Lemma logbuffer_write_ext s1 s2 size lb : (size < MSG_BUF_SIZE → take (Z.to_nat size) s1 = take (Z.to_nat size) s2) →
  logbuffer_write s1 size lb = logbuffer_write s2 size lb.
Proof.
  intros H. unfold logbuffer_write, mbind, M_bind, get. destruct (decide _); [done|]. unfold put, assertM.
  case_bool_decide as Hs; [|done]. by rewrite (H Hs).
Qed.
(** The second half of the buffer, after [n] bytes of prefix. *)
Lemma message_stored buf prefix n fmt args l : printed fmt args = Ok l → length buf = 513%nat →
  take n buf = prefix → length prefix = n → (n < 20)%nat →
  ∃ mem, npf_vsnprintf (Some (drop n buf)) (MSG_BUF_SIZE - Z.of_nat n) fmt args = Ok (Some mem, sint32 (Z.of_nat (length l))) ∧
    ∀ lb size, (size < MSG_BUF_SIZE → size ≤ Z.of_nat (n + length l)) → logbuffer_write (prefix ++ mem) size lb =
      logbuffer_write (take (Z.to_nat (MSG_BUF_SIZE - 1)) (prefix ++ (wrap8 <$> l))) size lb.
Proof.
  intros Hp Hb Ht Hn Hs. unfold MSG_BUF_SIZE. eexists. split.
  { apply npf_vsnprintf_spec; [exact Hp|]. rewrite length_drop Hb. lia. }
  intros lb size Hle. apply logbuffer_write_ext. unfold MSG_BUF_SIZE in *. intros Hz. specialize (Hle Hz).
  set (t := wrap8 <$> l). assert (length t = length l) as Hl by apply length_fmap.
  rewrite take_take Nat.min_l; [lia|]. rewrite !take_app Hn. f_equal. rewrite take_insert_ge; [lia|].
  rewrite take_app_le; [rewrite length_take; lia|]. rewrite take_take. f_equal. lia.
Qed.

(** The wrapped sum is small only if it is the real one. *)
Lemma counted_size n l : (n < 20)%nat → wrap64 (Z.of_nat n + sint32 (Z.of_nat l)) < MSG_BUF_SIZE →
  wrap64 (Z.of_nat n + sint32 (Z.of_nat l)) ≤ Z.of_nat (n + l).
Proof.
  intros Hn Hs. destruct (decide (Z.of_nat l < 2 ^ 31)) as [Hl|Hl]; [|unfold MSG_BUF_SIZE in Hs; lia].
  rewrite sint32_small; [lia|]. rewrite wrap64_small; lia.
Qed.
(** [printk] with a format is [printk] with the text of the format. *)
Lemma printk_fmt_text LOG_LEVEL junk fmt args l w : length junk = 512%nat →
  printed (message_format fmt) args = Ok l →
  printk_fmt LOG_LEVEL junk fmt args w = printk LOG_LEVEL (hd 0 fmt) (wrap8 <$> l) w.
Proof.
  intros Hj Hp. unfold printk_fmt, printk. set (lvl := hd 0 fmt). destruct (decide (1 ≤ lvl ∧ lvl ≤ 6 ∧ _)); [done|].
  assert (length (junk ++ [0]) = 513%nat) as Hb by (rewrite length_app Hj; done).
  assert (∃ buf, (if decide (1 ≤ lvl ∧ lvl ≤ 7) then
         r ← lift (npf_snprintf (Some (junk ++ [0])) MSG_BUF_SIZE (log_prefix lvl) []);
         mem ← deref "buf" r.1;
         mret (mem, wrap64 r.2, drop 1 fmt)
       else mret (junk ++ [0], 0, fmt)) w = Ok ((buf, Z.of_nat (length (log_prefix lvl)), message_format fmt), w) ∧
     length buf = 513%nat ∧ take (length (log_prefix lvl)) buf = log_prefix lvl ∧ (length (log_prefix lvl) < 20)%nat) as
    (buf & E & Hbl & Ht & Hs).
  { unfold message_format in *. fold lvl in Hp |- *. destruct (decide (1 ≤ lvl ∧ lvl ≤ 7)) as [Hl|Hl].
    - destruct (log_prefix_level lvl Hl) as (Hs & Hpc & Hw). unfold npf_snprintf, lift, mbind, M_bind.
      rewrite (npf_vsnprintf_spec _ _ _ _ (log_prefix lvl)); [by apply printed_plain|unfold MSG_BUF_SIZE; lia|].
      rewrite Hw take_ge; [unfold MSG_BUF_SIZE; lia|]. rewrite sint32_small; [lia|]. eexists. split; [cbn [deref mret M_ret fst snd]; rewrite wrap64_small; [lia|done]|].
      split_and!; [| |lia].
      + rewrite length_insert length_app /= length_drop Hb. lia.
      + rewrite take_insert_ge; [unfold MSG_BUF_SIZE; lia|]. by rewrite take_app_length.
    - rewrite log_prefix_none //. exists (junk ++ [0]). cbn. split_and!; try done. lia. }
  rewrite (bind_ok _ _ _ _ _ E). cbn beta iota. unfold mbind at 1, M_bind at 1. symmetry. unfold mbind at 1, M_bind at 1.
  destruct (l_acquire_intr print_lock w) as [[old w1]|]; [|done]. symmetry.
  destruct (message_stored buf _ _ (message_format fmt) args l Hp Hbl Ht eq_refl Hs) as (mem & Em & Hlb).
  rewrite Nat2Z.id. unfold lift at 1, mbind at 1, M_bind at 1. rewrite Em. cbn [deref fst snd].
  unfold mbind at 1, M_bind at 1. cbn [deref]. rewrite Ht length_fmap.
  unfold mret, M_ret, mbind, M_bind, on_lb. rewrite Hlb //. by apply counted_size.
Qed.
