(* ===== verification/NpfProps.v ===== *)
(** * Properties of formatted output

    The parser, the printer, the buffers and [printk] on top of them. *)

From S2P Require Import Prelude Str Symbols Log Npf NpfText NpfRef Printk.

(** C38: a format specification that is accepted is well formed: width and precision are
    non-negative [int]s, a field without a width has width 0, a left-justified field is
    never zero-padded, nor is an integer with a precision, the sign character and the
    letter case are among those the printer knows; and the specification used up at least
    one character, so that the loop over the format advances. *)
Theorem npf_parse_format_spec_type cur fs rest : npf_parse_format_spec cur = Ok (Some (fs, rest)) →
  spec_ok fs ∧ (length rest < length cur)%nat.
Proof. apply parse_ok. Qed.
(** [-08.3ld!] *)
Lemma npf_parse_format_spec_type_witness :
  ∃ fs, npf_parse_format_spec [45; 48; 56; 46; 51; 108; 100; 33] = Ok (Some (fs, [33])) ∧ spec_ok fs ∧
    field_width fs = 8 ∧ prec fs = 3 ∧ left_justified fs = true ∧ leading_zero_pad fs = false.
Proof.
  eexists. split; [vm_compute; reflexivity|]. split; [|done].
  eapply (npf_parse_format_spec_type [45; 48; 56; 46; 51; 108; 100; 33]). vm_compute. reflexivity.
Defined.


(** The loop over the format ends for every format and all arguments, fitting or
    not: one turn per character is enough, and the digits of a word fit in 64 turns. *)
Lemma npf_vpprintf_terminates {S} (pc : Z → S → S) format o : npf_vpprintf pc format o ≠ Panic OutOfFuel.
Proof.
  destruct o as [s n args]. rewrite npf_vpprintf_render. unfold render.
  pose proof (render_loop_ends (Datatypes.S (length format)) format args ltac:(lia)) as He.
  destruct (render_loop _ format args) as [[l v]|e]; congruence.
Qed.

(** C24: integer conversions without stars print what the reference layout says: the
    digits of the absolute value without leading zeros (none for a zero with an explicit
    precision of 0), zeros up to the precision, the sign or the prefix before them, and
    the padding on the right, between prefix and digits or on the left. *)
Theorem npf_integer_layout cur fs rest a args : npf_parse_format_spec cur = Ok (Some (fs, rest)) →
  int_conversion (conv_spec fs) → prec fs ≤ MODEST →
  field_width_opt fs ≠ NPF_FMT_SPEC_OPT_STAR → prec_opt fs ≠ NPF_FMT_SPEC_OPT_STAR →
  arg_fits a (int_kind (length_modifier fs)) →
  let v := int_value fs a in
  ∃ ds, digits_of fs (base_of (conv_spec fs)) v ds ∧
    printed (c_percent :: cur) (a :: args) =
      match printed rest args with
      | Ok l => Ok (number_text fs (number_sign fs v) (number_prefix fs v) (number_digits fs v ds) ++ l)
      | Panic e => Panic e
      end.
Proof. apply printed_number. Qed.
(** [%+8.3d;] with -7 *)
Lemma npf_integer_layout_witness :
  let fs := Spec 8 NPF_FMT_SPEC_OPT_LITERAL false false 3 NPF_FMT_SPEC_OPT_LITERAL 43 false 32 LEN_MOD_NONE CONV_SIGNED_INT in
  ∃ ds, npf_parse_format_spec [43; 56; 46; 51; 100; 59] = Ok (Some (fs, [59])) ∧ digits_of fs 10 (-7) ds ∧
    printed [37; 43; 56; 46; 51; 100; 59] [AInt (2 ^ 32 - 7)] =
      Ok (number_text fs [45] [] (number_digits fs (-7) ds) ++ [59]).
Proof.
  intros fs. destruct (npf_integer_layout [43; 56; 46; 51; 100; 59] fs [59] (AInt (2 ^ 32 - 7)) []) as (ds & Hd & E);
    [vm_compute; reflexivity|by left|done|done|done|exact I|].
  exists ds. split; [vm_compute; reflexivity|]. split; [exact Hd|]. exact E.
Defined.

(** C36: an address printed by [%lx] or [%0nlx] is read back by the symbol table's
    [strtoaddr], whatever the 64-bit value and wherever the text is stored. *)
Theorem npf_hex_strtoaddr cur fs v : hex_format cur fs [] →
  ∃ t, printed (c_percent :: cur) [ALong v] = Ok t ∧ field_width fs ≤ Z.of_nat (length t) ≤ 16 ∧
    ∀ m p, text_at m p t → strtoaddr p (Z.of_nat (length t)) m = Ok (wrap64 v, m).
Proof.
  intros Hf. destruct (printed_hex cur fs [] v [] Hf) as (ds & Hd & Hl & Hw & Hv & Hp).
  exists (digit <$> ds). rewrite length_fmap. split_and!; [by rewrite Hp /= app_nil_r|lia|lia|]. intros m p Ht. rewrite -Hv. by apply strtoaddr_digits.
Qed.
(** [%016lx] *)
Lemma npf_hex_strtoaddr_witness :
  ∃ t, printed [37; 48; 49; 54; 108; 120] [ALong (2 ^ 64 - 2 ^ 31)] = Ok t ∧ length t = 16%nat ∧
    ∀ m, text_at m 4096 t → strtoaddr 4096 16 m = Ok (2 ^ 64 - 2 ^ 31, m).
Proof.
  destruct (npf_hex_strtoaddr [48; 49; 54; 108; 120]
    (Spec 16 NPF_FMT_SPEC_OPT_LITERAL false true 0 NPF_FMT_SPEC_OPT_NONE 0 false 32 LEN_MOD_LONG CONV_HEX_INT) (2 ^ 64 - 2 ^ 31))
    as (t & Ht & [Hl1 Hl2] & Hm).
  { split; [vm_compute; reflexivity|done..|by right|done]. }
  exists t. split; [exact Ht|]. cbn in Hl1. assert (length t = 16%nat) as El by lia. split; [exact El|].
  intros m Hx. specialize (Hm m 4096 Hx). rewrite El in Hm. exact Hm.
Defined.

(** C37: [npf_vsnprintf] with room for at least one byte never writes past [bufsz] bytes,
    leaves a string that is the text cut off after [bufsz - 1] characters and zero
    terminated, and returns the length of the whole text, wrapped to an [int]: the length
    itself for a text of less than 2 GiB. *)
Theorem npf_vsnprintf_bounds mem bufsz format args l : printed format args = Ok l → 0 < bufsz ≤ Z.of_nat (length mem) →
  ∃ mem' n, npf_vsnprintf (Some mem) bufsz format args = Ok (Some mem', n) ∧
    n = sint32 (Z.of_nat (length l)) ∧ (Z.of_nat (length l) < 2 ^ 31 → n = Z.of_nat (length l)) ∧ length mem' = length mem ∧ drop (Z.to_nat bufsz) mem' = drop (Z.to_nat bufsz) mem ∧
    (take (Z.to_nat (bufsz - 1)) (wrap8 <$> l) ++ [0]) `prefix_of` mem' ∧ mem' !! Z.to_nat (bufsz - 1) = Some 0.
Proof.
  intros Hl Hb. eexists _, _. split; [by apply npf_vsnprintf_spec|]. set (t := take _ _).
  assert (length t ≤ Z.to_nat (bufsz - 1))%nat as Ht by (unfold t; rewrite length_take; lia).
  assert (length (t ++ 0 :: drop (S (length t)) mem) = length mem) as Hlen by (rewrite length_app /= length_drop; lia).
  split_and!.
  - done.
  - intros ?. by rewrite sint32_small; [lia|].
  - by rewrite length_insert.
  - rewrite drop_insert_lt; [lia|]. rewrite drop_app_ge; [lia|].
    replace (Z.to_nat bufsz - length t)%nat with (S (Z.to_nat bufsz - S (length t))) by lia. cbn [drop].
    rewrite drop_drop. f_equal. lia.
  - destruct (decide (length t = Z.to_nat (bufsz - 1))) as [E|N].
    + rewrite -E insert_app_r_alt // Nat.sub_diag. exists (drop (S (length t)) mem). by rewrite -app_assoc.
    + rewrite insert_app_r_alt; [lia|]. destruct (Z.to_nat (bufsz - 1) - length t)%nat as [|i] eqn:Ei; [lia|].
      exists (<[i := 0]> (drop (S (length t)) mem)). by rewrite -app_assoc.
  - apply list_lookup_insert_eq. lia.
Qed.
Lemma npf_vsnprintf_bounds_witness :
  ∃ mem', npf_vsnprintf (Some [9; 9; 9; 9; 9; 9]) 5 [37; 100] [AInt 123456] = Ok (Some mem', 6) ∧ mem' = [49; 50; 51; 52; 0; 9].
Proof.
  edestruct (npf_vsnprintf_bounds [9; 9; 9; 9; 9; 9] 5 [37; 100] [AInt 123456] [49; 50; 51; 52; 53; 54]) as (mem' & n & E & _ & En & _);
    [vm_compute; reflexivity|cbn; lia|].
  specialize (En ltac:(vm_compute; reflexivity)). cbn in En. subst n. exists mem'. split; [exact E|]. revert E. vm_compute. congruence.
Defined.

(** C17: [printk] of a format with fitting arguments is the abstract [printk] of the text
    the format stands for, in every state of the log and whatever the uninitialised buffer
    holds: the prefix and the message share the 512 bytes without overwriting each other,
    filtered levels print nothing, and what is counted, [int]s that wrap around included,
    decides alike whether the message fits or fails as an assertion. *)
Theorem printk_fmt_refines LOG_LEVEL junk fmt ks args extra w : length junk = 512%nat →
  fmt_kinds (message_format fmt) = Some ks → Forall2 arg_fits args ks →
  ∃ l, printed (message_format fmt) (args ++ extra) = Ok l ∧
    printk_fmt LOG_LEVEL junk fmt (args ++ extra) w = printk LOG_LEVEL (hd 0 fmt) (wrap8 <$> l) w.
Proof.
  intros Hj Hk Hf. destruct (render_total _ ks args extra Hk Hf) as [l Hl]. exists l.
  assert (printed (message_format fmt) (args ++ extra) = Ok l) as Hp by by rewrite printed_render Hl.
  split; [done|]. by apply printk_fmt_text.
Qed.
Definition log1 : logw := LogW (LogBuffer (λ _, []) 0 0 0) true ∅ [0]%nat {[0%nat := Console true []]}.
(** Level 5, [cpu %d] *)
Lemma printk_fmt_refines_witness :
  ∃ l, printed [99; 112; 117; 32; 37; 100] ([AInt 3] ++ []) = Ok l ∧
    printk_fmt 4 (replicate 512 170) [5; 99; 112; 117; 32; 37; 100] ([AInt 3] ++ []) log1 = printk 4 5 (wrap8 <$> l) log1 ∧
    l = [99; 112; 117; 32; 51].
Proof.
  edestruct (printk_fmt_refines 4 (replicate 512 170) [5; 99; 112; 117; 32; 37; 100] [KInt] [AInt 3] [] log1) as (l & Hl & E);
    [reflexivity|vm_compute; reflexivity|by repeat constructor|].
  exists l. split; [exact Hl|]. split; [exact E|]. revert Hl. vm_compute. congruence.
Defined.

(** ** Departures from the C standard *)
(** A negative width read from the arguments left-justifies the field, but the flag [0]
    stays in force and the zeros go to the right: [%0*d] prints 42 as 42000. *)
Lemma npf_star_width_zero_pads_right : printed [37; 48; 42; 100] [AInt (-5); AInt 42] = Ok [52; 50; 48; 48; 48].
Proof. by vm_compute. Qed.
(** A negative literal precision is kept: [%.-5d] prints 42 as 00042. *)
Lemma npf_negative_precision_kept : printed [37; 46; 45; 53; 100] [AInt 42] = Ok [48; 48; 48; 52; 50].
Proof. by vm_compute. Qed.
