(* ===== verification/Messages.v ===== *)
(** * What the kernel reports: routines that print

    The reports of [kernel/lib/tinyubsan.c], [kernel/lib/std.c], [kernel/lib/panic.c],
    [kernel/platform/amd64/int.c], [kernel/vm/pm.c], [kernel/devkit/acpi/glue.c],
    [kernel/tests/runner.c] and the boot banner, as the calls of [printk] they make, and
    what such a sequence of calls brings to the consoles. *)

From Stdlib Require Import Ascii.
From S2P Require Import Prelude Str Symbols Log Npf NpfText NpfRef Printk.

(** ** Calls of [printk] *)
(** The characters of a string literal as the source has it. *)
Fixpoint c_lit (s : string) : cstring :=
  match s with
  | EmptyString => []
  | String a s =>
      if decide (a = "\"%char) then
        match s with
        | String b s => (if decide (b = "n"%char) then 10 else Z.of_N (Ascii.N_of_ascii b)) :: c_lit s
        | EmptyString => []
        end
      else Z.of_N (Ascii.N_of_ascii a) :: c_lit s
  end.
Definition SPAM : cstring := [1].
Definition DEBUG : cstring := [2].
Definition TRACE : cstring := [3].
Definition INFO : cstring := [4].
Definition WARN : cstring := [5].
Definition ERR : cstring := [6].
Definition PANIC : cstring := [7].
Record call := Call { c_fmt : cstring; c_args : list arg }.
(** An argument of type [const char *]: the string, at an address of no importance. *)
Definition chars (s : cstring) : arg := APtr 0 (Some s).

Section say.
Context (LOG_LEVEL : Z) (junk : text).
Definition say (l : list call) : M logw unit := forM l (λ c, printk_fmt LOG_LEVEL junk (c_fmt c) (c_args c)).
(** The message a call stands for: none if its level is filtered. *)
Definition output (c : call) : outcome (list text) :=
  let lvl := hd 0 (c_fmt c) in
  if decide (1 ≤ lvl ∧ lvl ≤ 6 ∧ lvl < LOG_LEVEL) then Ok [] else
  match printed (message_format (c_fmt c)) (c_args c) with
  | Ok l =>
      let t := log_prefix lvl ++ (wrap8 <$> l) in
      if decide (Z.of_nat (length t) < MSG_BUF_SIZE) then Ok [t] else Panic (AssertFail "size < MSG_BUF_SIZE")
  | Panic e => Panic e
  end.
Fixpoint outputs (l : list call) : outcome (list text) :=
  match l with
  | [] => Ok []
  | c :: l =>
      match output c with
      | Ok t => match outputs l with Ok ts => Ok (t ++ ts) | Panic e => Panic e end
      | Panic e => Panic e
      end
  end.

(** The log at rest: nothing is pending, nobody prints, and the consoles are there. *)
Definition log_idle (w : logw) : Prop :=
  lb_ok (g_lb w) ∧ queued (g_lb w) = [] ∧ print_lock ∉ l_locks w ∧ consoles_free (console_list w) (l_locks w) w.
Definition delivered (ts : list text) (w w' : logw) : Prop :=
  log_idle w' ∧ consoles w' = foldl (λ cs b, deliver (console_list w) b cs) (consoles w) ts ∧
  l_ints w' = l_ints w ∧ l_locks w' = l_locks w ∧ console_list w' = console_list w.

Lemma deliver_all_dom l ts : ∀ cs c, is_Some (foldl (λ cs b, deliver l b cs) cs ts !! c) ↔ is_Some (cs !! c).
Proof. induction ts as [|t ts IH]; intros cs c; [done|]. cbn [foldl]. by rewrite IH deliver_dom. Qed.
Lemma output_delivered c ts w : length junk = 512%nat → output c = Ok ts → log_idle w →
  wp (printk_fmt LOG_LEVEL junk (c_fmt c) (c_args c)) (λ _ w', delivered ts w w') w.
Proof.
  intros Hj Ho Hw. unfold output in Ho.
  destruct (decide (1 ≤ hd 0 (c_fmt c) ∧ hd 0 (c_fmt c) ≤ 6 ∧ hd 0 (c_fmt c) < LOG_LEVEL)) as [Hf|Hf].
  { injection Ho as <-. unfold printk_fmt. rewrite decide_True //. }
  destruct (printed (message_format (c_fmt c)) (c_args c)) as [l|] eqn:Hp; [|done].
  destruct (decide (Z.of_nat (length (log_prefix (hd 0 (c_fmt c)) ++ (wrap8 <$> l))) < MSG_BUF_SIZE)) as [Hl|]; [|done].
  injection Ho as <-. destruct Hw as (Hok & Hq & Hpl & Hc). unfold wp. rewrite (printk_fmt_text _ _ _ _ l) //.
  pose proof (printk_delivers LOG_LEVEL (hd 0 (c_fmt c)) (wrap8 <$> l) w Hf Hl Hok Hpl Hc) as Hd. unfold wp in Hd.
  destruct (printk _ _ _ w) as [[[] w']|]; [|done]. destruct Hd as (Q & Ok' & Ec & Ei & EL & El).
  rewrite Hq in Ec. destruct (decide (length [] < CAPACITY)%nat) as [_|Hn] in Ec; [|unfold CAPACITY in Hn; cbn in Hn; lia].
  cbn [app] in Ec. split_and!; try done.
  split_and!; try done; [by rewrite EL|]. destruct Hc as (_ & _ & Hcl & Hcc). rewrite El EL. split_and!; try done.
  intros i Hi. destruct (Hcc i Hi). split; [done|]. by rewrite Ec deliver_all_dom.
Qed.
(** A sequence of calls brings its messages to every console, in order. *)
Lemma say_delivers l : ∀ ts w, length junk = 512%nat → outputs l = Ok ts → log_idle w →
  wp (say l) (λ _ w', delivered ts w w') w.
Proof.
  induction l as [|c l IH]; intros ts w Hj Ho Hw; cbn [outputs] in Ho.
  { injection Ho as <-. by apply wp_ret. }
  destruct (output c) as [t1|] eqn:E1; [|done]. destruct (outputs l) as [t2|] eqn:E2; [|done]. injection Ho as <-.
  unfold say. cbn [forM]. apply wp_bind. eapply wp_mono; [by apply output_delivered|].
  intros [] w1 (Hi & Ec & Ei & EL & El). eapply wp_mono; [by apply (IH t2)|].
  intros [] w2 (Hi2 & Ec2 & Ei2 & EL2 & El2). split; [done|]. split; [|split_and!; congruence].
  by rewrite Ec2 El Ec foldl_app.
Qed.
End say.

(** A call whose arguments are the ones its format asks for and whose text is short enough. *)
Definition call_typed (c : call) : Prop :=
  ∃ ks, fmt_kinds (message_format (c_fmt c)) = Some ks ∧ Forall2 arg_fits (c_args c) ks.
Definition call_short (c : call) : Prop :=
  ∃ b, text_bound (message_format (c_fmt c)) (c_args c) = Some b ∧ b < MSG_BUF_SIZE - 20.
Definition call_ok (c : call) : Prop := call_typed c ∧ call_short c.
Lemma log_prefix_short lvl : Z.of_nat (length (log_prefix lvl)) < 20.
Proof.
  destruct (decide (1 ≤ lvl ∧ lvl ≤ 7)) as [H|H]; [by apply log_prefix_level|]. by rewrite log_prefix_none.
Qed.
Lemma outputs_ok LOG_LEVEL l : Forall call_ok l → ∃ ts, outputs LOG_LEVEL l = Ok ts.
Proof.
  induction 1 as [|c l [(ks & Hk & Hf) (b & Hb & Hlen)] _ [ts IH]]; [by eexists|]. cbn [outputs]. rewrite IH. unfold output.
  destruct (decide (1 ≤ hd 0 (c_fmt c) ∧ hd 0 (c_fmt c) ≤ 6 ∧ hd 0 (c_fmt c) < LOG_LEVEL)); [by eexists|].
  destruct (render_total _ ks (c_args c) [] Hk Hf) as [t Ht]. rewrite app_nil_r in Ht.
  assert (printed (message_format (c_fmt c)) (c_args c) = Ok t) as Hp by by rewrite printed_render Ht.
  rewrite Hp. pose proof (text_bound_spec _ _ _ _ Hb Hp). pose proof (log_prefix_short (hd 0 (c_fmt c))).
  destruct (decide _) as [_|Hn]; [by eexists|]. rewrite length_app length_fmap in Hn. lia.
Qed.
Lemma outputs_elem LOG_LEVEL l c t ts : c ∈ l → output LOG_LEVEL c = Ok [t] → outputs LOG_LEVEL l = Ok ts → t ∈ ts.
Proof.
  intros Hc Ho. revert ts. induction Hc as [c l|c c' l Hc IH]; intros ts; cbn [outputs].
  - rewrite Ho. destruct (outputs LOG_LEVEL l); [|done]. intros [= <-]. by left.
  - destruct (output LOG_LEVEL c') as [t1|]; [|done]. destruct (outputs LOG_LEVEL l) as [t2|]; [|done]. intros [= <-].
    apply elem_of_app. right. by apply IH.
Qed.
Lemma delivered_app t1 t2 w w1 w2 : delivered t1 w w1 → delivered t2 w1 w2 → delivered (t1 ++ t2) w w2.
Proof.
  intros (_ & Ec & Ei & EL & El) (Hi2 & Ec2 & Ei2 & EL2 & El2). split; [done|]. split; [|split_and!; congruence].
  by rewrite Ec2 El Ec foldl_app.
Qed.
Lemma outputs_app LOG_LEVEL l1 l2 t1 t2 : outputs LOG_LEVEL l1 = Ok t1 → outputs LOG_LEVEL l2 = Ok t2 →
  outputs LOG_LEVEL (l1 ++ l2) = Ok (t1 ++ t2).
Proof.
  revert t1. induction l1 as [|c l1 IH]; intros t1; cbn [outputs app]; [by intros [= <-]|].
  destruct (output LOG_LEVEL c) as [t|]; [|done]. destruct (outputs LOG_LEVEL l1) as [ts|]; [|done]. intros [= <-] H2.
  by rewrite (IH ts eq_refl H2) app_assoc.
Qed.
Lemma outputs_app_inv LOG_LEVEL l1 l2 ts : outputs LOG_LEVEL (l1 ++ l2) = Ok ts →
  ∃ t1 t2, ts = t1 ++ t2 ∧ outputs LOG_LEVEL l1 = Ok t1 ∧ outputs LOG_LEVEL l2 = Ok t2.
Proof.
  revert ts. induction l1 as [|c l1 IH]; intros ts; cbn [outputs app]; [intros E; by exists [], ts|].
  destruct (output LOG_LEVEL c) as [t|]; [|done]. destruct (outputs LOG_LEVEL (l1 ++ l2)) as [t'|]; [|done]. intros [= <-].
  destruct (IH t' eq_refl) as (t1 & t2 & -> & -> & E2). exists (t ++ t1), t2. by rewrite app_assoc.
Qed.
(** What goes to the consoles past the log. *)
Lemma consoles_write_delivered buf w : log_idle w → wp (printk_consoles_write buf) (λ _ w', delivered [buf] w w') w.
Proof.
  intros (Hok & Hq & Hpl & Hc). eapply wp_mono; [apply (printk_consoles_write_spec (console_list w) (l_locks w) buf w Hc)|]. intros [] w' ->.
  split; [|repeat (split; [reflexivity|]); reflexivity].
  split; [exact Hok|]. split; [exact Hq|]. split; [exact Hpl|]. apply consoles_free_next, Hc.
Qed.
(** Such calls are delivered completely. *)
Lemma say_ok LOG_LEVEL junk l w : Forall call_ok l → length junk = 512%nat → log_idle w →
  ∃ ts, outputs LOG_LEVEL l = Ok ts ∧ wp (say LOG_LEVEL junk l) (λ _ w', delivered ts w w') w.
Proof. intros Hl Hj Hw. destruct (outputs_ok LOG_LEVEL l Hl) as [ts Ht]. exists ts. split; [done|]. by apply say_delivers. Qed.

(** Typed and short, by computation; what is left are the lengths of the strings. *)
Ltac call_fits := split;
  [eexists; split; [vm_compute; reflexivity|]; repeat constructor; cbn; unfold MODEST; try lia
  |eexists; split; [cbv -[bound_add bound_string]; reflexivity|]; unfold bound_add, bound_string, MSG_BUF_SIZE; lia].

(** ** [tinyubsan.c] *)
Module Ubsan.
Record tu_source_location := Location { file : cstring; line : Z; column : Z }.
Definition tu_print_location (message : cstring) (loc : tu_source_location) : list call :=
  [Call (c_lit "tinyubsan: %s at file %s %d:%d\n") [chars message; chars (file loc); AInt (line loc); AInt (column loc)]].
(** The handlers only look at the location. *)
Definition __ubsan_handle_add_overflow := tu_print_location (c_lit "addition overflow").
Definition __ubsan_handle_sub_overflow := tu_print_location (c_lit "subtraction overflow").
Definition __ubsan_handle_mul_overflow := tu_print_location (c_lit "multiplication overflow").
Definition __ubsan_handle_divrem_overflow := tu_print_location (c_lit "division overflow").
Definition __ubsan_handle_negate_overflow := tu_print_location (c_lit "negation overflow").
Definition __ubsan_handle_pointer_overflow := tu_print_location (c_lit "pointer overflow").
Definition __ubsan_handle_shift_out_of_bounds := tu_print_location (c_lit "shift out of bounds").
Definition __ubsan_handle_load_invalid_value := tu_print_location (c_lit "invalid load value").
Definition __ubsan_handle_out_of_bounds := tu_print_location (c_lit "array out of bounds").
Record tu_type_mismatch_v1_data := Mismatch { location : tu_source_location; log_alignment : Z }.
(** [1 << data->log_alignment] is a shift of an [int]; alignments of 2 GiB and more, for
    which it leaves the type, are left out. *)
Definition __ubsan_handle_type_mismatch_v1 (data : tu_type_mismatch_v1_data) (ptr : Z) : outcome (list call) :=
  if decide (ptr = 0) then Ok (tu_print_location (c_lit "use of NULL pointer") (location data))
  else if decide (31 ≤ log_alignment data) then Panic (Undefined "1 << log_alignment")
  else if decide (Z.land ptr (Z.shiftl 1 (log_alignment data) - 1) ≠ 0) then
    Ok (tu_print_location (c_lit "use of misaligned pointer") (location data))
  else Ok (tu_print_location (c_lit "no space for object") (location data)).
Definition __ubsan_handle_vla_bound_not_positive := tu_print_location (c_lit "variable-length argument is negative").
Definition __ubsan_handle_nonnull_return := tu_print_location (c_lit "non-null return is null").
Definition __ubsan_handle_nonnull_arg := tu_print_location (c_lit "non-null argument is null").
Definition __ubsan_handle_builtin_unreachable := tu_print_location (c_lit "unreachable code reached").
Definition __ubsan_handle_invalid_builtin := tu_print_location (c_lit "invalid builtin").
Definition __ubsan_handle_function_type_mismatch := tu_print_location (c_lit "function type mismatch").
Definition __ubsan_handle_nonnull_return_v1 := tu_print_location (c_lit "non-null return").
Definition __ubsan_handle_missing_return := tu_print_location (c_lit "missing return").

Lemma tu_print_location_ok message loc : Z.of_nat (length message) < 40 → Z.of_nat (length (file loc)) < 200 →
  Forall call_ok (tu_print_location message loc).
Proof.
  destruct loc as [f ln col]. cbn [file]. intros Hm Hf. apply Forall_singleton. call_fits.
Qed.
End Ubsan.

(** ** [pm.c], [std.c] and [panic.c] *)
Definition vmstat_dump (total used : Z) : list call :=
  [Call (c_lit "** VMSTAT **\n total: %lu\n used: %lu\n free: %lu\n** VMSTAT END **\n")
     [ALong total; ALong used; ALong (wrap64 (total - used))]].
(** What is printed before [panic("Assertion failure")]. *)
Definition __assert_fail (assertion file : cstring) (line : Z) (function : cstring) : list call :=
  [Call (ERR ++ c_lit "Assertion failure at %s:%d in function %s\nAssertion: %s\n")
     [chars file; AInt line; chars function; chars assertion]].
(** [panic_art], line by line as in the source. *)
Definition panic_art : text := c_lit
  ("\n" ++
   " __  ___  _______ .______      .__   __.  _______  __      \n" ++
   "|  |/  / |   ____||   _  \\     |  \\ |  | |   ____||  |     \n" ++
   "|  '  /  |  |__   |  |_)  |    |   \\|  | |  |__   |  |     \n" ++
   "|    <   |   __|  |      /     |  . `  | |   __|  |  |     \n" ++
   "|  .  \\  |  |____ |  |\\  \\----.|  |\\   | |  |____ |  `----.\n" ++
   "|__|\\__\\ |_______|| _| `._____||__| \\__| |_______||_______|\n" ++
   "                                                           \n" ++
   ".______      ___      .__   __.  __    ______              \n" ++
   "|   _  \\    /   \\     |  \\ |  | |  |  /      |             \n" ++
   "|  |_)  |  /  ^  \\    |   \\|  | |  | |  ,----'             \n" ++
   "|   ___/  /  /_\\  \\   |  . `  | |  | |  |                  \n" ++
   "|  |     /  _____  \\  |  |\\   | |  | |  `----.             \n" ++
   "| _|    /__/     \\__\\ |__| \\__| |__|  \\______|             \n" ++
   "                                                           \n").

(** *** [panic_withstack]

    [names] are the kernel symbols with the memory their names are in, as [Symbols] has
    them, and [word] reads a word of the stack, if there is memory at the address: a load
    elsewhere faults. *)
Section panic.
Context {H : Type} `{KMalloc H} (names : symw H) (word : Z → option Z).
Context (LOG_LEVEL : Z) (junk : text).
(** The C string at an address.  A name as long as a message trips the log's assertion
    whatever follows, so [MSG_BUF_SIZE] characters of it are enough. *)
Fixpoint string_at (fuel : nat) (m : bmem) (p : Z) : cstring :=
  match fuel with
  | O => []
  | S fuel => if decide (m p = 0) then [] else sint 8 (m p) :: string_at fuel m (p + 1)
  end.
Definition name_string (y : symbol_t) : cstring := string_at (Z.to_nat MSG_BUF_SIZE) (smem names) (symname y).
(** The line for a return address. *)
Definition frame_line (rip : Z) : call :=
  match symbols_lookup_address rip names with
  | Ok (Some sym, _) =>
      Call (c_lit " 0x%lx - %s+0x%lx\n")
        [ALong rip; APtr (symname sym) (Some (name_string sym)); ALong (wrap64 (rip - sbase sym - symbol_offset names))]
  | _ => Call (c_lit " 0x%lx\n") [ALong rip]
  end.
Definition load (a : Z) : M logw Z :=
  match word a with Some v => mret v | None => fail (Undefined "page fault") end.
(** The loop over the stack frames, pairs of a saved [rbp] and a return address. *)
Fixpoint stack_walk (fuel : nat) (rbp : Z) : M logw unit :=
  match fuel with
  | O => fail OutOfFuel
  | S fuel =>
      if decide (rbp = 0) then mret tt else
      let rip := wrap64 (rbp + 8) in
      if decide (rip = 0) then mret tt else
      v ← load rip;
      if decide (v = 0) then mret tt else
      say LOG_LEVEL junk [frame_line v];;
      rbp ← load rbp;
      stack_walk fuel rbp
  end.
(** Up to the instruction that halts the processor for good. *)
Definition panic_withstack (fuel : nat) (msg : cstring) (total used stack : Z) : M logw unit :=
  printk_consoles_write panic_art;;
  say LOG_LEVEL junk [Call (PANIC ++ c_lit "%s\n") [chars msg]];;
  say LOG_LEVEL junk (vmstat_dump total used);;
  say LOG_LEVEL junk [Call (c_lit "\nStacktrace:\n") []];;
  stack_walk fuel stack;;
  say LOG_LEVEL junk [Call (c_lit "\n") []];;
  modify (l_set_ints false).
(** [stackguard.c]; [rbp] is the register. *)
Definition STACK_CHK_GUARD : Z := 0x595e9fbd94fda766.
Definition __stack_chk_fail (fuel : nat) (total used rbp : Z) : M logw unit :=
  panic_withstack fuel (c_lit "Stack smashing detected\n") total used rbp.

(** The return addresses of the frames from [rbp] on: the list ends at a null [rbp] or a
    null return address, and all frames before it can be read. *)
Inductive stack_frames : Z → list Z → Prop :=
| frames_null : stack_frames 0 []
| frames_top rbp : wrap64 (rbp + 8) = 0 ∨ word (wrap64 (rbp + 8)) = Some 0 → stack_frames rbp []
| frames_next rbp rip next rips : rbp ≠ 0 → wrap64 (rbp + 8) ≠ 0 → word (wrap64 (rbp + 8)) = Some rip → rip ≠ 0 →
    word rbp = Some next → stack_frames next rips → stack_frames rbp (rip :: rips).
Definition short_name (y : symbol_t) : Prop := Z.of_nat (length (name_string y)) < 300.
(** What is printed for a stack with these return addresses. *)
Definition panic_calls (msg : cstring) (total used : Z) (rips : list Z) : list call :=
  [Call (PANIC ++ c_lit "%s\n") [chars msg]] ++ vmstat_dump total used ++ [Call (c_lit "\nStacktrace:\n") []] ++
  (frame_line <$> rips) ++ [Call (c_lit "\n") []].

Lemma lookup_listed a l : ∀ best y, lookup_address_loop a l best = Some y → best = Some y ∨ y ∈ l.
Proof.
  induction l as [|x l IH]; intros best y; cbn [lookup_address_loop]; [by left|].
  case_decide; [intros [E|Hy]%IH; [right; injection E as ->; left|by right; right]|]. case_decide; [by left|].
  intros [E|Hy]%IH; [by left|by right; right].
Qed.
Lemma frame_line_ok rip : Forall short_name (symbol_list names) → call_ok (frame_line rip).
Proof.
  intros Hs. unfold frame_line, symbols_lookup_address, gets.
  destruct (lookup_address_loop _ _ _) as [y|] eqn:E; [|call_fits].
  destruct (lookup_listed _ _ _ _ E) as [?|Hy]; [done|]. rewrite Forall_forall in Hs. specialize (Hs y Hy).
  unfold short_name in Hs. revert Hs. generalize (name_string y), (symname y), (wrap64 (rip - sbase y - symbol_offset names)).
  intros t p o Hs. call_fits.
Qed.
Lemma panic_calls_ok msg total used rips : Z.of_nat (length msg) < 400 → Forall short_name (symbol_list names) →
  Forall call_ok (panic_calls msg total used rips).
Proof.
  intros Hm Hf. unfold panic_calls, vmstat_dump. apply Forall_app. split; [apply Forall_singleton; call_fits|].
  apply Forall_app. split; [apply Forall_singleton; call_fits|]. apply Forall_app. split; [apply Forall_singleton; call_fits|].
  apply Forall_app. split; [|apply Forall_singleton; call_fits].
  apply Forall_fmap, Forall_true. intros rip. by apply frame_line_ok.
Qed.

Lemma stack_walk_spec rbp rips : stack_frames rbp rips → ∀ fuel ts w, length junk = 512%nat → (length rips < fuel)%nat →
  outputs LOG_LEVEL (frame_line <$> rips) = Ok ts → log_idle w → wp (stack_walk fuel rbp) (λ _ w', delivered ts w w') w.
Proof.
  induction 1 as [|rbp Htop|rbp rip next rips Hb Hr Hw Hv Hn _ IH]; intros [|fuel] ts w Hj Hf Ho Hi; cbn [length] in Hf; try lia;
    cbn [stack_walk].
  - injection Ho as <-. case_decide; [by apply wp_ret|done].
  - injection Ho as <-. case_decide; [by apply wp_ret|]. case_decide; [by apply wp_ret|]. destruct Htop as [?|Hw]; [done|].
    apply wp_bind. unfold load. rewrite Hw. apply wp_ret. case_decide; [by apply wp_ret|done].
  - rewrite decide_False // decide_False //. apply wp_bind. unfold load at 1. rewrite Hw. apply wp_ret. rewrite decide_False //.
    change (frame_line <$> rip :: rips) with ([frame_line rip] ++ (frame_line <$> rips)) in Ho.
    apply outputs_app_inv in Ho as (t1 & t2 & -> & O1 & O2). apply wp_bind. eapply wp_mono; [by apply (say_delivers _ _ _ t1)|].
    intros [] w1 D1. apply wp_bind. unfold load. rewrite Hn. apply wp_ret. eapply wp_mono; [apply (IH _ t2); [done|lia|done|apply D1]|].
    intros [] w2 D2. by eapply delivered_app.
Qed.
Lemma panic_withstack_spec fuel msg total used stack rips ts w : length junk = 512%nat → log_idle w →
  stack_frames stack rips → (length rips < fuel)%nat → outputs LOG_LEVEL (panic_calls msg total used rips) = Ok ts →
  wp (panic_withstack fuel msg total used stack) (λ _ w', ∃ w1, delivered (panic_art :: ts) w w1 ∧ w' = l_set_ints false w1) w.
Proof.
  intros Hj Hi Hs Hf Ho. unfold panic_calls in Ho.
  apply outputs_app_inv in Ho as (t1 & ? & -> & O1 & (t2 & ? & -> & O2 & (t3 & ? & -> & O3 & (t4 & t5 & -> & O4 & O5)%outputs_app_inv)%outputs_app_inv)%outputs_app_inv).
  unfold panic_withstack. apply wp_bind. eapply wp_mono; [by apply consoles_write_delivered|]. intros [] w0 D0.
  apply wp_bind. eapply wp_mono; [apply (say_delivers _ _ _ t1); [done|done|apply D0]|]. intros [] w1 D1.
  apply wp_bind. eapply wp_mono; [apply (say_delivers _ _ _ t2); [done|done|apply D1]|]. intros [] w2 D2.
  apply wp_bind. eapply wp_mono; [apply (say_delivers _ _ _ t3); [done|done|apply D2]|]. intros [] w3 D3.
  apply wp_bind. eapply wp_mono; [apply (stack_walk_spec stack rips Hs fuel t4); [done|done|done|apply D3]|]. intros [] w4 D4.
  apply wp_bind. eapply wp_mono; [apply (say_delivers _ _ _ t5); [done|done|apply D4]|]. intros [] w5 D5.
  apply wp_modify. exists w5. split; [|done]. change (panic_art :: ?l) with ([panic_art] ++ l).
  do 5 (eapply delivered_app; [done|]). done.
Qed.

(** A frame pointer that cannot be read from faults once more, whatever was printed. *)
Lemma stack_walk_faults fuel rbp w : rbp ≠ 0 → wrap64 (rbp + 8) ≠ 0 → word (wrap64 (rbp + 8)) = None →
  stack_walk (S fuel) rbp w = Panic (Undefined "page fault").
Proof.
  intros Hb Hr Hw. cbn [stack_walk]. rewrite decide_False // decide_False //. unfold mbind, M_bind, load. by rewrite Hw.
Qed.
(** A frame that is its own caller is printed over and over. *)
Lemma stack_walk_cycle rbp rip ts : rbp ≠ 0 → wrap64 (rbp + 8) ≠ 0 → word (wrap64 (rbp + 8)) = Some rip → rip ≠ 0 →
  word rbp = Some rbp → length junk = 512%nat → outputs LOG_LEVEL [frame_line rip] = Ok ts →
  ∀ fuel w, log_idle w → stack_walk fuel rbp w = Panic OutOfFuel.
Proof.
  intros Hb Hr Hw Hv Hn Hj Ho. induction fuel as [|fuel IH]; intros w Hi; [done|]. cbn [stack_walk].
  rewrite decide_False // decide_False //. apply bind_ends. unfold load at 1. rewrite Hw. apply wp_ret. rewrite decide_False //.
  apply bind_ends. eapply wp_mono; [by apply (say_delivers _ _ _ ts)|]. intros [] w1 [D1 _]. apply bind_ends. unfold load. rewrite Hn.
  apply wp_ret. by apply IH.
Qed.
End panic.

(** ** [int.c]: the report of a fault *)
Module Fault.
Record frame_t := Frame {
  rax : Z; rbx : Z; rcx : Z; rdx : Z; rsi : Z; rdi : Z; r8 : Z; r9 : Z; r10 : Z; r11 : Z; r12 : Z; r13 : Z; r14 : Z;
  r15 : Z; rbp : Z; rip : Z; cs : Z; rflags : Z; rsp : Z; ss : Z;
}.
(** A line with two registers. *)
Definition reg_line (n1 : string) (v1 : Z) (n2 : string) (v2 : Z) : call :=
  Call (c_lit n1 ++ c_lit "%016lx" ++ c_lit n2 ++ c_lit "%016lx\n") [ALong v1; ALong v2].
Definition cr_line (n : string) (v : Z) : call := Call (c_lit n ++ c_lit "0x%016lx\n") [ALong v].
(** The registers in the order they are printed, two on a line. *)
Definition registers (state : frame_t) : list (string * Z * (string * Z)) :=
  [("rax: ", rax state, ("  rbx: ", rbx state)); ("rcx: ", rcx state, ("  rdx: ", rdx state));
   ("rsi: ", rsi state, ("  rdi: ", rdi state)); ("r8:  ", r8 state, ("  r9:  ", r9 state));
   ("r10: ", r10 state, ("  r11: ", r11 state)); ("r12: ", r12 state, ("  r13: ", r13 state));
   ("r14: ", r14 state, ("  r15: ", r15 state)); ("rbp: ", rbp state, ("  ss:  ", ss state));
   ("rip: ", rip state, ("  cs:  ", cs state)); ("RFL: ", rflags state, ("  rsp: ", rsp state))]%string.
Definition DUMP_STATE (state : frame_t) (cr0 cr2 cr3 cr4 : Z) : list call :=
  ((λ '(n1, v1, (n2, v2)), reg_line n1 v1 n2 v2) <$> registers state) ++
  [Call (c_lit "\ncontrol registers:\n") [];
   cr_line "CR0: " cr0; cr_line "CR2: " cr2; cr_line "CR3: " cr3; cr_line "CR4: " cr4].
Definition flag (error_code bit : Z) (set clear : list call) : list call :=
  if decide (Z.land error_code bit ≠ 0) then set else clear.
Definition word (s : string) : list call := [Call (c_lit s) []].
(** What is printed before the panic, and its message. *)
Definition handle_pf (error_code : Z) : list call * cstring :=
  ([Call (DEBUG ++ c_lit "Page Fault Error Code: 0x%lx\n") [ALong error_code]] ++ word "Information: " ++
   flag error_code 0x1 (word "Present ") (word "Unpresent ") ++
   flag error_code 0x2 (word "Write ") (word "Read ") ++
   flag error_code 0x4 (word "User ") (word "Kernel ") ++
   flag error_code 0x8 (word "ReservedWrite ") [] ++
   flag error_code 0x10 (word "Instructionfetch ") [] ++
   flag error_code 0x20 (word "Protectionkey ") [] ++
   flag error_code 0x40 (word "Shadowstack ") [] ++
   flag error_code 0x80 (word "SGX-Violation ") [] ++
   word "\n", c_lit "page fault not handled\n").
Definition handle_fault (frame : frame_t) (cr0 cr2 cr3 cr4 : Z) (number error_code : Z) : list call * cstring :=
  let head := word "== FAULT ==\n" ++ word "cpu state:\n" ++ DUMP_STATE frame cr0 cr2 cr3 cr4 ++ word "\n" ++
    [Call (c_lit "fault number: %d\n") [AInt number]] in
  if decide (number = 14) then let '(out, msg) := handle_pf error_code in (head ++ out, msg)
  else (head ++ [Call (c_lit "error code: %ld\n") [ALong error_code]], c_lit "unhandleable exception\n").
Section report.
Context {H : Type} `{KMalloc H} (names : symw H) (word : Z → option Z).
Context (LOG_LEVEL : Z) (junk : text).
(** The whole report: both end in [panic_withstack], from the frame of the interrupted
    code. *)
Definition fault_report (fuel : nat) (frame : frame_t) (cr0 cr2 cr3 cr4 number error_code total used : Z) : M logw unit :=
  let '(out, msg) := handle_fault frame cr0 cr2 cr3 cr4 number error_code in
  say LOG_LEVEL junk out;;
  panic_withstack names word LOG_LEVEL junk fuel msg total used (rbp frame).
(** The calls of [printk], before and after the banner. *)
Definition report_calls frame cr0 cr2 cr3 cr4 number error_code total used rips : list call * list call :=
  let '(out, msg) := handle_fault frame cr0 cr2 cr3 cr4 number error_code in (out, panic_calls names msg total used rips).
End report.

Lemma flag_ok e b l1 l2 : Forall call_ok l1 → Forall call_ok l2 → Forall call_ok (flag e b l1 l2).
Proof. intros. unfold flag. by case_decide. Qed.
Lemma handle_pf_ok error_code : Forall call_ok (handle_pf error_code).1.
Proof.
  unfold handle_pf, word. cbn [fst].
  repeat first [apply Forall_nil_2|apply Forall_app; split|apply flag_ok|apply Forall_singleton; call_fits].
Qed.
Lemma DUMP_STATE_ok state cr0 cr2 cr3 cr4 : Forall call_ok (DUMP_STATE state cr0 cr2 cr3 cr4).
Proof.
  unfold DUMP_STATE. apply Forall_app. split; [|repeat (apply Forall_cons_2; [call_fits|]); apply Forall_nil_2].
  apply Forall_fmap. unfold registers. repeat (apply Forall_cons_2; [cbn [compose]; call_fits|]). apply Forall_nil_2.
Qed.
Lemma handle_fault_ok frame cr0 cr2 cr3 cr4 number error_code :
  let '(out, msg) := handle_fault frame cr0 cr2 cr3 cr4 number error_code in Forall call_ok out ∧ Z.of_nat (length msg) < 400.
Proof.
  unfold handle_fault, word. pose proof (handle_pf_ok error_code) as Hp.
  assert (Forall call_ok ([Call (c_lit "== FAULT ==\n") []] ++ [Call (c_lit "cpu state:\n") []] ++ DUMP_STATE frame cr0 cr2 cr3 cr4 ++
    [Call (c_lit "\n") []] ++ [Call (c_lit "fault number: %d\n") [AInt number]])) as Hh.
  { do 2 (apply Forall_app; split; [apply Forall_singleton; call_fits|]). apply Forall_app. split; [apply DUMP_STATE_ok|].
    apply Forall_app. split; apply Forall_singleton; call_fits. }
  case_decide.
  - destruct (handle_pf error_code) as [out msg] eqn:E. split; [by apply Forall_app|]. by injection E as _ <-.
  - split; [|done]. apply Forall_app. split; [done|]. apply Forall_singleton. call_fits.
Qed.

Lemma reg_line_in_report frame cr0 cr2 cr3 cr4 number error_code n1 v1 n2 v2 :
  (n1, v1, (n2, v2)) ∈ registers frame →
  reg_line n1 v1 n2 v2 ∈ (handle_fault frame cr0 cr2 cr3 cr4 number error_code).1.
Proof.
  intros Hin. unfold handle_fault.
  assert (reg_line n1 v1 n2 v2 ∈ DUMP_STATE frame cr0 cr2 cr3 cr4) as Hd.
  { unfold DUMP_STATE. apply elem_of_app. left. apply list_elem_of_fmap. by exists (n1, v1, (n2, v2)). }
  revert Hd. generalize (DUMP_STATE frame cr0 cr2 cr3 cr4). intros D Hd. destruct (handle_pf error_code) as [out msg].
  case_decide; cbv beta iota zeta; cbn [fst]; rewrite !elem_of_app; tauto.
Qed.

(** Sixteen characters that [strtoaddr] reads as [v]. *)
Definition reads_back (t : text) (v : Z) : Prop :=
  length t = 16%nat ∧ Forall (λ c, 48 ≤ c < 103) t ∧ ∀ m p, text_at m p t → strtoaddr p 16 m = Ok (wrap64 v, m).
Lemma printed_016lx rest v args : ∃ t, reads_back t v ∧
  printed (c_lit "%016lx" ++ rest) (ALong v :: args) =
    match printed rest args with Ok l => Ok (t ++ l) | Panic e => Panic e end.
Proof.
  destruct (printed_hex ([48; 49; 54; 108; 120] ++ rest)
    (Spec 16 NPF_FMT_SPEC_OPT_LITERAL false true 0 NPF_FMT_SPEC_OPT_NONE 0 false 32 LEN_MOD_LONG CONV_HEX_INT) rest v args)
    as (ds & Hd & Hl & Hw & Hv & Hp).
  { split; [by vm_compute|done..|by right|done]. }
  cbn in Hw. exists (digit <$> ds). split; [|exact Hp]. assert (length ds = 16%nat) as El by lia.
  split; [by rewrite length_fmap|]. split; [by apply digit_printed|]. intros m p Ht. rewrite -Hv. change 16 with (Z.of_nat 16). rewrite -El. by apply strtoaddr_digits.
Qed.
Lemma registers_names state : Forall (λ '(n1, _, (n2, _)), c_percent ∉ c_lit n1 ∧ c_percent ∉ c_lit n2 ∧
  wrap8 <$> c_lit n1 = c_lit n1 ∧ wrap8 <$> c_lit n2 = c_lit n2 ∧ (length (c_lit n1) = 5 ∧ length (c_lit n2) = 7)%nat ∧
  (n1 ≠ EmptyString ∧ 7 < hd 0 (c_lit n1))) (registers state).
Proof.
  unfold registers. repeat (apply Forall_cons_2; [split_and!; try done; apply (bool_decide_eq_false_1 (_ ∈ _)); by vm_compute|]).
  apply Forall_nil_2.
Qed.
Lemma wrap8_ascii t : Forall (λ c, 48 ≤ c < 103) t → wrap8 <$> t = t.
Proof.
  intros H. rewrite -{2}(list_fmap_id t). apply list_fmap_ext. intros i c Hc. apply Forall_lookup_1 with (i := i) (x := c) in H; [|done].
  unfold wrap8. cbn. apply Z.mod_small. lia.
Qed.
(** The line of two registers. *)
Lemma reg_line_output LOG_LEVEL state n1 v1 n2 v2 : (n1, v1, (n2, v2)) ∈ registers state →
  ∃ t1 t2, reads_back t1 v1 ∧ reads_back t2 v2 ∧
    output LOG_LEVEL (reg_line n1 v1 n2 v2) = Ok [c_lit n1 ++ t1 ++ c_lit n2 ++ t2 ++ [10]].
Proof.
  intros Hin. pose proof (registers_names state) as Hn. rewrite Forall_forall in Hn.
  destruct (Hn _ Hin) as (P1 & P2 & W1 & W2 & [L1 L2] & [_ H1]). clear Hn Hin.
  destruct (printed_016lx (c_lit n2 ++ c_lit "%016lx\n") v1 [ALong v2]) as (t1 & R1 & E1).
  destruct (printed_016lx [10] v2 []) as (t2 & R2 & E2). exists t1, t2. split_and!; [done..|]. unfold output, reg_line. cbn [c_fmt c_args].
  set (fmt := c_lit n1 ++ c_lit "%016lx" ++ c_lit n2 ++ c_lit "%016lx\n").
  assert (7 < hd 0 fmt) as Hh by (unfold fmt; destruct (c_lit n1); done).
  assert (message_format fmt = fmt) as -> by (unfold message_format; rewrite decide_False //; lia).
  rewrite decide_False; [lia|]. rewrite log_prefix_none; [lia|]. cbn [app].
  unfold fmt. rewrite printed_plain_app // E1 printed_plain_app //.
  change (c_lit "%016lx\n") with (c_lit "%016lx" ++ [10]). rewrite E2 printed_plain; [apply (bool_decide_eq_false_1 (_ ∈ _)); by vm_compute|].
  rewrite !fmap_app W1 W2 (wrap8_ascii t1); [apply R1|]. rewrite (wrap8_ascii t2); [apply R2|]. cbn [fmap list_fmap].
  change (wrap8 10) with 10. rewrite decide_True //. rewrite !length_app L1 L2. destruct R1 as [-> _], R2 as [-> _]. done.
Qed.
End Fault.

(** ** [glue.c], [entry.c] of the boot protocol, and the tests *)
Inductive uacpi_log_level := UACPI_LOG_DEBUG | UACPI_LOG_TRACE | UACPI_LOG_INFO | UACPI_LOG_WARN | UACPI_LOG_ERROR | UACPI_LOG_OTHER.
Definition uacpi_kernel_log (lvl : uacpi_log_level) (str : cstring) : list call :=
  match lvl with
  | UACPI_LOG_DEBUG => [Call (DEBUG ++ c_lit "acpi: %s") [chars str]]
  | UACPI_LOG_TRACE => [Call (TRACE ++ c_lit "acpi: %s") [chars str]]
  | UACPI_LOG_INFO => [Call (INFO ++ c_lit "acpi: %s") [chars str]]
  | UACPI_LOG_WARN => [Call (WARN ++ c_lit "acpi: %s") [chars str]]
  | UACPI_LOG_ERROR => [Call (ERR ++ c_lit "acpi: %s") [chars str]]
  | UACPI_LOG_OTHER => [Call (c_lit "[<invalid>] acpi: %s") [chars str]]
  end.
Lemma uacpi_kernel_log_ok lvl str : Z.of_nat (length str) < 450 → Forall call_ok (uacpi_kernel_log lvl str).
Proof. intros Hs. destruct lvl; apply Forall_singleton; call_fits. Qed.

(** [built] is what the compiler pastes into the literal: architecture, date and time. *)
Definition early_port_bootinfo (built name version : cstring) (revision : Z) : list call :=
  [Call (INFO ++ c_lit "Nyy//limine " ++ built ++ c_lit ")\n") [];
   Call (INFO ++ c_lit "booted using %s version %s-%ld\n") [chars name; chars version; ALong revision]].

Module Runner.
Inductive test_status := test_OK | test_SKIP | test_ERR.
#[global] Instance test_status_eq_dec : EqDecision test_status.
Proof. solve_decision. Defined.
Record test_result := Result { status : test_status; err_msg : cstring }.
(** The counters of the file. *)
Record counters := Counters { passed : Z; skipped : Z; errors : Z }.
Definition run_test (n : Z) (i : Z) (test_name : cstring) (r : test_result) (k : counters) : list call * counters :=
  let head := [Call (INFO ++ c_lit "Running test %d/%ld\n") [AInt (i + 1); ALong n]] in
  match status r with
  | test_OK => (head, Counters (passed k + 1) (skipped k) (errors k))
  | test_SKIP => (head, Counters (passed k) (skipped k + 1) (errors k))
  | test_ERR =>
      (head ++ [Call (WARN ++ c_lit "test '%s' failed: %s\n") [chars test_name; chars (err_msg r)]],
       Counters (passed k) (skipped k) (errors k + 1))
  end.
(** The loop over the tests, each with the result its function returned. *)
Fixpoint run_tests (n i : Z) (tests : list (cstring * test_result)) (k : counters) : list call * counters :=
  match tests with
  | [] => ([], k)
  | (name, r) :: tests =>
      let '(c1, k) := run_test n i name r k in
      let '(c2, k) := run_tests n (i + 1) tests k in (c1 ++ c2, k)
  end.
Definition test_runner (tests : list (cstring * test_result)) (k : counters) : list call * counters :=
  let '(c, k) := run_tests (Z.of_nat (length tests)) 0 tests k in
  (c ++ [Call (INFO ++ c_lit "TEST SUMMARY\n") [];
         Call (INFO ++ c_lit "Passed: %d\n") [AInt (passed k)];
         Call (INFO ++ c_lit "Skipped: %d\n") [AInt (skipped k)];
         Call (INFO ++ c_lit "Failed: %d\n") [AInt (errors k)]], k).
(** Every test is counted once, under its result. *)
Definition count (s : test_status) (tests : list (cstring * test_result)) : Z :=
  Z.of_nat (length (filter (λ t, status t.2 = s) tests)).
Lemma count_cons s name r tests : count s ((name, r) :: tests) = (if decide (status r = s) then 1 else 0) + count s tests.
Proof. unfold count. rewrite filter_cons. cbn [snd]. destruct (decide (status r = s)); cbn [length]; lia. Qed.
Lemma run_tests_count n tests : ∀ i k, (run_tests n i tests k).2 =
  Counters (passed k + count test_OK tests) (skipped k + count test_SKIP tests) (errors k + count test_ERR tests).
Proof.
  induction tests as [|[name r] tests IH]; intros i [p s e]; [cbn; unfold count; cbn; f_equal; lia|]. cbn [run_tests].
  destruct (run_test n i name r (Counters p s e)) as [c1 k1] eqn:E1. specialize (IH (i + 1) k1).
  destruct (run_tests n (i + 1) tests k1) as [c2 k2]. cbn [snd] in *. rewrite IH !count_cons.
  assert (k1 = (run_test n i name r (Counters p s e)).2) as -> by by rewrite E1. clear E1 IH. unfold run_test.
  destruct r as [[] m]; cbn [status snd passed skipped errors]; f_equal;
    match goal with |- context [decide (?x = ?y)] => destruct (decide (x = y)); try done; lia end.
Qed.
End Runner.
