(* ===== verification/Fireworks.v ===== *)
(** * The framebuffer demonstration: [kernel/tests/fireworks.c]

    The drawing routines on the bytes of the framebuffer, the generator of random numbers
    and the motion of particles in fixed point.  The kernel is compiled with [-fwrapv]:
    arithmetic on [int] and [int64_t] wraps.  The table of sines is a generated file of
    65536 numbers and an argument here; so is what the scheduler does during a delay. *)

From S2P Require Import Prelude Npf.

Definition BACKGROUND_COLOR : Z := 0x09090F.
Definition int (x : Z) : Z := sint 32 x.
Definition int64 (x : Z) : Z := sint 64 x.

(** ** Drawing *)
(** The memory at [PixBuff] and the geometry; [PixBPP] is in bits. *)
Record screen := Screen { PixBuff : list Z; PixWidth : Z; PixHeight : Z; PixPitch : Z; PixBPP : Z }.
Definition set_buff (l : list Z) (s : screen) : screen := Screen l (PixWidth s) (PixHeight s) (PixPitch s) (PixBPP s).
(** A store of one byte; of several, lowest first. *)
Definition store8 (o v : Z) : M screen unit :=
  s ← get;
  if decide (0 ≤ o < Z.of_nat (length (PixBuff s))) then put (set_buff (<[Z.to_nat o := wrap8 v]> (PixBuff s)) s)
  else fail (OutOfBounds "PixBuff").
Fixpoint store (n : nat) (o v : Z) : M screen unit :=
  match n with O => mret tt | S n => store8 o v;; store n (o + 1) (Z.shiftr v 8) end.
(** What is stored for a colour, by the bytes of a pixel. *)
Definition pixel_value (bytes color : Z) : Z :=
  if decide (bytes = 1) then wrap8 (Z.lor (Z.lor color (Z.shiftr color 8)) (Z.shiftr color 16))
  else if decide (bytes = 2) then wrap16 (Z.lor color (Z.shiftr color 16))
  else color.
Definition known_depth (bytes : Z) : bool := bool_decide (1 ≤ bytes ≤ 4).
Definition PlotPixel (Color X Y : Z) : M screen unit :=
  s ← get;
  if decide (X < 0 ∨ Y < 0 ∨ PixWidth s ≤ X ∨ PixHeight s ≤ Y) then mret tt else
  let Place := int (PixPitch s * Y) + Z.quot (int (X * PixBPP s)) 8 in
  let bytes := Z.quot (PixBPP s) 8 in
  assertM (known_depth bytes) "Oh no!";;
  store (Z.to_nat bytes) Place (pixel_value bytes Color).
(** One row, [Place] moving on by the size of a pixel. *)
Definition fill_row (bytes Color Width : Z) (Place : Z) : M screen unit :=
  forM (seq 0 (Z.to_nat Width)) (λ X, store (Z.to_nat bytes) (Place + Z.of_nat X * bytes) (pixel_value bytes Color)).
Definition FillScreen (Color : Z) : M screen unit :=
  s ← get;
  forM (seq 0 (Z.to_nat (PixHeight s))) (λ Y,
    let bytes := Z.quot (PixBPP s) 8 in
    assertM (known_depth bytes) "Oh no!";;
    fill_row bytes Color (PixWidth s) (int (PixPitch s * Z.of_nat Y))).
(** The fields of the boot loader's framebuffer; the memory behind its address. *)
Definition Init (memory : list Z) (width height pitch bpp : Z) : screen :=
  Screen memory (int width) (int height) (int pitch) (int bpp).

(** ** Random numbers *)
Definition ReadTsc (low high : Z) : Z := Z.lor (wrap64 (Z.shiftl high 32)) low.
Definition RandTscBased (Tsc : Z) : Z := Z.lxor (wrap32 Tsc) (wrap32 (Z.shiftr Tsc 32)).
Definition RAND_INIT : Z := int 0x9521af17.
(** The number and the next state. *)
Definition Rand (g_randGen : Z) : Z * Z :=
  let g := int (g_randGen + int 0xe120fc15) in
  let tmp := wrap64 (wrap64 g * 0x4a39b70d) in
  let m1 := wrap32 (Z.lxor (Z.shiftr tmp 32) tmp) in
  let tmp := wrap64 (m1 * 0x12fad5c9) in
  let m2 := wrap32 (Z.lxor (Z.shiftr tmp 32) tmp) in
  (Z.land m2 0x7FFFFFFF, g).
Definition rand : M Z Z := λ g, Ok (Rand g).
Definition FIXED_POINT : Z := 16.
Definition FP_TO_INT (f : Z) : Z := int (Z.shiftr f FIXED_POINT).
Definition INT_TO_FP (i : Z) : Z := int64 (Z.shiftl i FIXED_POINT).
Definition MUL_FP_FP (a b : Z) : Z := Z.shiftr (int64 (a * b)) FIXED_POINT.
Definition RandFP : M Z Z := r ← rand; mret (Z.rem r (Z.shiftl 1 FIXED_POINT)).
Definition RandFPSign : M Z Z :=
  r ← rand;
  if decide (Z.rem r 2 ≠ 0) then f ← RandFP; mret (int64 (- f)) else RandFP.
Definition GetRandomColor : M Z Z := r ← rand; mret (Z.land (wrap32 (r + 0x808080)) 0xFFFFFF).

(** ** Particles *)
Record FIREWORK_DATA := Firework {
  m_x : Z; m_y : Z; m_color : Z; m_actX : Z; m_actY : Z; m_velX : Z; m_velY : Z; m_explosionRange : Z;
}.
Section motion.
Context (SinTable : Z → Z).
Definition Sin (Angle : Z) : Z := Z.quot (INT_TO_FP (SinTable (Z.rem Angle 65536))) 32768.
Definition Cos (Angle : Z) : Z := Sin (int (Angle + 16384)).

(** [Data.m_velX * Delay / 1000] and the rest of the update after a delay. *)
Definition update_particle (Delay : Z) (d : FIREWORK_DATA) : FIREWORK_DATA :=
  let actX := int64 (m_actX d + Z.quot (int64 (m_velX d * Delay)) 1000) in
  let actY := int64 (m_actY d + Z.quot (int64 (m_velY d * Delay)) 1000) in
  Firework (FP_TO_INT actX) (FP_TO_INT actY) (m_color d) actX actY (m_velX d)
    (int64 (m_velY d + Z.quot (int64 (INT_TO_FP 10 * Delay)) 1000)) (m_explosionRange d).
Definition frame_delay (T : Z) : Z := 16 + (if decide (T ≠ 0) then 1 else 0).
Definition next_T (T : Z) : Z := if decide (T + 1 = 3) then 0 else T + 1.
(** The loop both kinds of particle share; the result has the particle at the end and the
    delays that were slept. *)
Fixpoint particle_loop (fuel : nat) (i T ExpireIn : Z) (d : FIREWORK_DATA) : M screen (FIREWORK_DATA * list Z) :=
  if decide (ExpireIn ≤ i) then mret (d, []) else
  match fuel with
  | O => fail OutOfFuel
  | S fuel =>
      PlotPixel (m_color d) (m_x d) (m_y d);;
      let Delay := frame_delay T in
      PlotPixel BACKGROUND_COLOR (m_x d) (m_y d);;
      r ← particle_loop fuel (i + Delay) (next_T T) ExpireIn (update_particle Delay d);
      mret (r.1, Delay :: r.2)
  end.

(** The particle of [T_Particle] from its parent's data, and how long it lives. *)
Definition init_particle (ParentData : FIREWORK_DATA) : M Z (FIREWORK_DATA * Z) :=
  let ExplosionRange := m_explosionRange ParentData in
  r ← rand;
  let Angle := Z.rem r 65536 in
  f1 ← RandFPSign;
  let velX := int64 (MUL_FP_FP (Cos Angle) f1 * ExplosionRange) in
  f2 ← RandFPSign;
  let velY := int64 (MUL_FP_FP (Sin Angle) f2 * ExplosionRange) in
  r ← rand;
  let ExpireIn := 2000 + Z.rem r 1000 in
  c ← GetRandomColor;
  mret (Firework (m_x ParentData) (m_y ParentData) c (m_actX ParentData) (m_actY ParentData) velX velY 0, ExpireIn).
(** The rocket of [T_Explodeable]. *)
Definition init_explodeable (PixWidth PixHeight : Z) : M Z (FIREWORK_DATA * Z) :=
  let OffsetX := Z.quot (int (PixWidth * 400)) 1024 in
  let x := Z.quot PixWidth 2 in
  let y := int (PixHeight - 1) in
  r ← rand;
  let velY := int64 (- INT_TO_FP (400 + Z.rem r 400)) in
  f ← RandFPSign;
  let velX := int64 (OffsetX * f) in
  c ← GetRandomColor;
  r ← rand;
  let range := Z.rem r 100 + 100 in
  r ← rand;
  mret (Firework x y c (INT_TO_FP x) (INT_TO_FP y) velX velY range, 500 + Z.rem r 500).
(** How many particles it breaks into. *)
Definition PartCount : M Z Z := r ← rand; mret (Z.rem r 30 + 30).
End motion.

(** ** Bytes in a list *)
Definition overwrite (o : nat) (bs l : list Z) : list Z := take o l ++ bs ++ drop (o + length bs) l.
Definition slice (o n : nat) (l : list Z) : list Z := take n (drop o l).
Fixpoint le_bytes (n : nat) (v : Z) : list Z :=
  match n with O => [] | S n => wrap8 v :: le_bytes n (Z.shiftr v 8) end.
Lemma length_le_bytes n : ∀ v, length (le_bytes n v) = n.
Proof. induction n; intros v; cbn; auto. Qed.
Lemma length_splice o bs l : (o + length bs ≤ length l)%nat → length (overwrite o bs l) = length l.
Proof. intros H. unfold overwrite. rewrite !length_app length_take length_drop. lia. Qed.
Lemma splice_nil o l : overwrite o [] l = l.
Proof. unfold overwrite. cbn. by rewrite Nat.add_0_r take_drop. Qed.
Lemma splice_cons o b bs l : (o + S (length bs) ≤ length l)%nat → overwrite (S o) bs (<[o := b]> l) = overwrite o (b :: bs) l.
Proof.
  intros H. unfold overwrite. rewrite (take_S_r _ _ b); [apply list_lookup_insert_eq; lia|].
  rewrite take_insert_ge // drop_insert_lt; [lia|]. rewrite -app_assoc. cbn [length app]. by rewrite Nat.add_succ_r.
Qed.
Lemma slice_splice o bs l : (o + length bs ≤ length l)%nat → slice o (length bs) (overwrite o bs l) = bs.
Proof.
  intros H. unfold slice, overwrite. rewrite drop_app_length'; [rewrite length_take; lia|]. by rewrite take_app_length.
Qed.
Lemma slice_splice_other o bs l o' n : (o + length bs ≤ length l)%nat → (o' + n ≤ o ∨ o + length bs ≤ o')%nat →
  slice o' n (overwrite o bs l) = slice o' n l.
Proof.
  intros H [Hl|Hr]; unfold slice, overwrite; apply list_eq; intros i;
    (destruct (decide (i < n)%nat); [rewrite !lookup_take_lt //|rewrite !lookup_take_ge //; lia]); rewrite !lookup_drop.
  - rewrite lookup_app_l; [rewrite length_take; lia|]. rewrite lookup_take_lt //. lia.
  - rewrite lookup_app_r; [rewrite length_take; lia|]. rewrite length_take lookup_app_r; [lia|]. rewrite lookup_drop. f_equal. lia.
Qed.
(** What was there is back after a second overwrite. *)
Lemma splice_back o bs bs' l : (o + length bs ≤ length l)%nat → length bs' = length bs → slice o (length bs) l = bs' →
  overwrite o bs' (overwrite o bs l) = l.
Proof.
  intros H Hl Hs. set (D := drop (o + length bs) l).
  assert (overwrite o bs l = (take o l ++ bs) ++ D) as E by (unfold overwrite; by rewrite app_assoc).
  assert (length (take o l ++ bs) = (o + length bs)%nat) as El by (rewrite length_app length_take; lia).
  unfold overwrite at 1. rewrite Hl E drop_app_length' // -app_assoc take_app_length'; [rewrite length_take; lia|].
  rewrite -Hs. unfold slice, D. by rewrite -drop_drop !take_drop.
Qed.

Lemma store_spec n : ∀ o v s, (o + n ≤ length (PixBuff s))%nat →
  store n (Z.of_nat o) v s = Ok (tt, set_buff (overwrite o (le_bytes n v) (PixBuff s)) s).
Proof.
  induction n as [|n IH]; intros o v s H; cbn [store le_bytes].
  { rewrite splice_nil. by destruct s. }
  unfold mbind, M_bind, store8, mbind, M_bind, get. destruct (decide (0 ≤ Z.of_nat o < _)) as [_|Hn]; [|lia]. unfold put.
  rewrite Nat2Z.id. replace (Z.of_nat o + 1) with (Z.of_nat (S o)) by lia.
  rewrite IH; [cbn; rewrite length_insert; lia|]. cbn [PixBuff set_buff]. rewrite splice_cons //. rewrite length_le_bytes. lia.
Qed.

(** ** The framebuffer *)
(** Whole bytes per pixel, rows that hold the pixels, memory that holds the rows, and
    offsets that are [int]s. *)
Record screen_ok (s : screen) : Prop := {
  sc_depth : ∃ b, PixBPP s = 8 * b ∧ 1 ≤ b ≤ 4;
  sc_size : 0 ≤ PixWidth s ∧ 0 ≤ PixHeight s;
  sc_row : PixWidth s * Z.quot (PixBPP s) 8 ≤ PixPitch s;
  sc_mem : PixPitch s * PixHeight s ≤ Z.of_nat (length (PixBuff s));
  sc_int : PixPitch s * PixHeight s < 2 ^ 31 ∧ PixWidth s * PixBPP s < 2 ^ 31;
}.
Definition pix_bytes (s : screen) : nat := Z.to_nat (Z.quot (PixBPP s) 8).
Definition offset (s : screen) (X Y : Z) : nat := Z.to_nat (PixPitch s * Y + X * Z.quot (PixBPP s) 8).
Definition on_screen (s : screen) (X Y : Z) : Prop := 0 ≤ X < PixWidth s ∧ 0 ≤ Y < PixHeight s.
#[global] Instance on_screen_dec s X Y : Decision (on_screen s X Y).
Proof. unfold on_screen. apply _. Defined.
Definition plot (Color X Y : Z) (s : screen) : screen :=
  set_buff (overwrite (offset s X Y) (le_bytes (pix_bytes s) (pixel_value (Z.quot (PixBPP s) 8) Color)) (PixBuff s)) s.
Lemma int_small x : 0 ≤ x < 2 ^ 31 → int x = x.
Proof. intros H. unfold int, sint. rewrite Z.mod_small; [lia|]. rewrite decide_True //. cbn. lia. Qed.
Lemma depth_bytes s : screen_ok s → ∃ b, Z.quot (PixBPP s) 8 = b ∧ PixBPP s = 8 * b ∧ 1 ≤ b ≤ 4 ∧ pix_bytes s = Z.to_nat b.
Proof.
  intros [(b & E & Hb) _ _ _ _]. exists b. unfold pix_bytes. rewrite E. by rewrite Z.mul_comm Z.quot_mul.
Qed.
Lemma offset_fits s X Y : screen_ok s → on_screen s X Y → 0 ≤ PixPitch s * Y + X * Z.quot (PixBPP s) 8 ∧
  (offset s X Y + pix_bytes s ≤ length (PixBuff s))%nat.
Proof.
  intros Ok [HX HY]. destruct (depth_bytes s Ok) as (b & Eq & E & Hb & Ep). destruct Ok as [_ _ Hr Hm _].
  unfold offset. rewrite Ep. rewrite Eq in Hr |- *. assert ((X + 1) * b ≤ PixWidth s * b) by (apply Z.mul_le_mono_nonneg_r; lia).
  assert (0 ≤ X * b) by (apply Z.mul_nonneg_nonneg; lia). assert (0 ≤ PixPitch s) by lia.
  assert (PixPitch s * (Y + 1) ≤ PixPitch s * PixHeight s) by (apply Z.mul_le_mono_nonneg_l; lia).
  assert (0 ≤ PixPitch s * Y) by (apply Z.mul_nonneg_nonneg; lia). lia.
Qed.
Lemma offset_ints s X Y : screen_ok s → on_screen s X Y →
  int (PixPitch s * Y) = PixPitch s * Y ∧ Z.quot (int (X * PixBPP s)) 8 = X * Z.quot (PixBPP s) 8 ∧ 0 ≤ PixPitch s * Y.
Proof.
  intros Ok [HX HY]. destruct (depth_bytes s Ok) as (b & Eq & E & Hb & _). destruct Ok as [_ _ Hr _ [Hi1 Hi2]]. rewrite Eq in Hr |- *.
  assert (0 ≤ PixWidth s * b) by (apply Z.mul_nonneg_nonneg; lia).
  assert (PixPitch s * Y ≤ PixPitch s * PixHeight s) by (apply Z.mul_le_mono_nonneg_l; lia).
  assert (0 ≤ PixPitch s * Y) by (apply Z.mul_nonneg_nonneg; lia).
  assert (X * PixBPP s ≤ PixWidth s * PixBPP s) by (apply Z.mul_le_mono_nonneg_r; lia).
  assert (0 ≤ X * PixBPP s) by (apply Z.mul_nonneg_nonneg; lia).
  rewrite !int_small; [lia|lia|]. rewrite E. replace (X * (8 * b)) with (X * b * 8) by lia. by rewrite Z.quot_mul.
Qed.
Lemma PlotPixel_spec Color X Y s : screen_ok s →
  PlotPixel Color X Y s = Ok (tt, if decide (on_screen s X Y) then plot Color X Y s else s).
Proof.
  intros Ok. unfold PlotPixel, mbind, M_bind, get. destruct (decide (on_screen s X Y)) as [On|Off].
  - pose proof On as [HX HY]. rewrite decide_False; [lia|]. destruct (offset_fits s X Y Ok On) as [H0 Hf].
    destruct (offset_ints s X Y Ok On) as (-> & -> & _). destruct (depth_bytes s Ok) as (b & Eq & _ & Hb & _).
    assert (known_depth (Z.quot (PixBPP s) 8) = true) as -> by (apply bool_decide_eq_true; lia). cbn -[store].
    rewrite -(Z2Nat.id (_ + _)) //. by apply store_spec.
  - rewrite decide_True //. unfold on_screen in Off. lia.
Qed.

(** The pixels of a screen. *)
Definition pixel (s : screen) (X Y : Z) : list Z := slice (offset s X Y) (pix_bytes s) (PixBuff s).
Definition color_bytes (s : screen) (c : Z) : list Z := le_bytes (pix_bytes s) (pixel_value (Z.quot (PixBPP s) 8) c).
Definition same_geometry (s s' : screen) : Prop :=
  PixWidth s' = PixWidth s ∧ PixHeight s' = PixHeight s ∧ PixPitch s' = PixPitch s ∧ PixBPP s' = PixBPP s.
Lemma length_color_bytes s c : length (color_bytes s c) = pix_bytes s.
Proof. apply length_le_bytes. Qed.
Lemma plot_ok c X Y s : screen_ok s → on_screen s X Y → screen_ok (plot c X Y s).
Proof.
  intros Ok On. destruct (offset_fits s X Y Ok On) as [_ Hf]. destruct Ok as [H1 H2 H3 H4 H5]. split; try done.
  unfold plot. cbn. rewrite length_splice // length_le_bytes. lia.
Qed.
Lemma plot_same c X Y s : screen_ok s → on_screen s X Y → pixel (plot c X Y s) X Y = color_bytes s c.
Proof.
  intros Ok On. destruct (offset_fits s X Y Ok On) as [_ Hf]. unfold pixel, plot. cbn [PixBuff set_buff].
  change (offset (set_buff _ s) X Y) with (offset s X Y). change (pix_bytes (set_buff _ s)) with (pix_bytes s).
  rewrite -{1}(length_color_bytes s c). apply slice_splice. by rewrite length_le_bytes.
Qed.
Lemma offsets_apart s X Y X' Y' : screen_ok s → on_screen s X Y → on_screen s X' Y' → (X, Y) ≠ (X', Y') →
  (offset s X' Y' + pix_bytes s ≤ offset s X Y ∨ offset s X Y + pix_bytes s ≤ offset s X' Y')%nat.
Proof.
  intros Ok On On' Hne. destruct (offset_fits s X Y Ok On) as [H0 _]. destruct (offset_fits s X' Y' Ok On') as [H0' _].
  destruct On as [HX HY], On' as [HX' HY']. destruct (depth_bytes s Ok) as (b & Eq & _ & Hb & Ep). destruct Ok as [_ _ Hr _ _].
  unfold offset. rewrite Ep. rewrite -> Eq in *.
  assert (∀ x, 0 ≤ x < PixWidth s → 0 ≤ x * b ∧ x * b + b ≤ PixPitch s) as Hx.
  { intros x Hx. assert ((x + 1) * b ≤ PixWidth s * b) by (apply Z.mul_le_mono_nonneg_r; lia). nia. }
  pose proof (Hx X HX). pose proof (Hx X' HX').
  destruct (Z.lt_trichotomy Y Y') as [Hlt|[->|Hlt]].
  - assert (PixPitch s * (Y + 1) ≤ PixPitch s * Y') by (apply Z.mul_le_mono_nonneg_l; lia). lia.
  - assert (X ≠ X') by congruence. assert ((X + 1) * b ≤ X' * b ∨ (X' + 1) * b ≤ X * b) by nia. lia.
  - assert (PixPitch s * (Y' + 1) ≤ PixPitch s * Y) by (apply Z.mul_le_mono_nonneg_l; lia). lia.
Qed.
Lemma plot_other c X Y s X' Y' : screen_ok s → on_screen s X Y → on_screen s X' Y' → (X, Y) ≠ (X', Y') →
  pixel (plot c X Y s) X' Y' = pixel s X' Y'.
Proof.
  intros Ok On On' Hne. unfold pixel, plot. cbn [PixBuff set_buff].
  change (offset (set_buff _ s) X' Y') with (offset s X' Y'). change (pix_bytes (set_buff _ s)) with (pix_bytes s).
  apply slice_splice_other; rewrite length_le_bytes; [by apply offset_fits|by apply offsets_apart].
Qed.

(** ** Filling the screen *)
(** Pixel by pixel, as a reference. *)
Definition fill_reference (Color : Z) : M screen unit :=
  s ← get;
  forM (seq 0 (Z.to_nat (PixHeight s))) (λ Y,
    forM (seq 0 (Z.to_nat (PixWidth s))) (λ X, PlotPixel Color (Z.of_nat X) (Z.of_nat Y))).
Lemma forM_agree {S A} (l : list A) (f g : A → M S unit) (I : S → Prop) : ∀ s, I s →
  (∀ x s', x ∈ l → I s' → f x s' = g x s' ∧ ∃ s'', g x s' = Ok (tt, s'') ∧ I s'') →
  forM l f s = forM l g s ∧ ∃ s'', forM l g s = Ok (tt, s'') ∧ I s''.
Proof.
  induction l as [|x l IH]; intros s Hs H; cbn [forM]; [by eauto|].
  destruct (H x s ltac:(left) Hs) as (Ef & s1 & Eg & H1). unfold mbind, M_bind. rewrite Ef Eg.
  apply IH; [done|]. intros y s' Hy. apply H. by right.
Qed.
Definition like (s s' : screen) : Prop := screen_ok s' ∧ same_geometry s s'.
Lemma like_plot s s' c X Y : like s s' → on_screen s X Y → like s (plot c X Y s').
Proof.
  intros [Ok (G1 & G2 & G3 & G4)] On. assert (on_screen s' X Y) by (unfold on_screen; by rewrite G1 G2).
  split; [by apply plot_ok|done].
Qed.
Lemma FillScreen_reference Color s : screen_ok s → FillScreen Color s = fill_reference Color s.
Proof.
  intros Ok. unfold FillScreen, fill_reference. unfold mbind at 1 3, M_bind at 1 3, get.
  apply (forM_agree _ _ _ (like s)); [by split|]. intros Y s1 HY [Ok1 G1]. apply elem_of_seq in HY.
  destruct (depth_bytes s Ok) as (b & Eq & _ & Hb & Ep).
  assert (known_depth (Z.quot (PixBPP s) 8) = true) as -> by (apply bool_decide_eq_true; lia).
  unfold mbind at 1, M_bind at 1. cbn -[forM fill_row PlotPixel]. unfold fill_row.
  apply (forM_agree _ _ _ (like s)); [by split|]. intros X s2 HX L2. apply elem_of_seq in HX. pose proof L2 as [Ok2 (G2 & G3 & G4 & G5)].
  assert (on_screen s (Z.of_nat X) (Z.of_nat Y)) as On by (unfold on_screen; lia).
  assert (on_screen s2 (Z.of_nat X) (Z.of_nat Y)) as On2 by (unfold on_screen; by rewrite G2 G3).
  rewrite PlotPixel_spec // decide_True //. split; [|eexists; split; [done|by apply like_plot]].
  destruct (offset_ints s _ _ Ok On) as (-> & _). destruct (offset_fits s2 _ _ Ok2 On2) as [H0 Hf].
  rewrite -G4 -G5 -(Z2Nat.id (_ + _)) //. by apply store_spec.
Qed.

(** Every pixel has the colour, afterwards. *)
Definition filled (c : Z) (s : screen) : Prop := ∀ X Y, on_screen s X Y → pixel s X Y = color_bytes s c.
Definition painted (c : Z) (s0 s : screen) (P : Z → Z → Prop) : Prop :=
  like s0 s ∧ ∀ X Y, on_screen s0 X Y → P X Y → pixel s X Y = color_bytes s0 c.
Lemma painted_plot c s0 s (P Q : Z → Z → Prop) X Y : painted c s0 s P → on_screen s0 X Y →
  (∀ X' Y', Q X' Y' → P X' Y' ∨ (X', Y') = (X, Y)) → wp (PlotPixel c X Y) (λ _ s', painted c s0 s' Q) s.
Proof.
  intros [L Hp] On HQ. pose proof L as [Ok (G1 & G2 & G3 & G4)].
  assert (∀ X Y, on_screen s0 X Y → on_screen s X Y) as Hon by (intros ??; unfold on_screen; by rewrite G1 G2).
  unfold wp. rewrite PlotPixel_spec // decide_True; [by apply Hon|]. split; [by apply like_plot|]. intros X' Y' On' HQ'.
  destruct (decide ((X, Y) = (X', Y'))) as [[= -> ->]|Hne].
  - rewrite plot_same //; [by apply Hon|]. unfold color_bytes, pix_bytes. by rewrite G4.
  - rewrite plot_other //; [by apply Hon|by apply Hon|]. apply Hp; [done|]. destruct (HQ _ _ HQ') as [|E]; [done|]. by rewrite E in Hne.
Qed.
Lemma fill_reference_filled c s : screen_ok s → wp (fill_reference c) (λ _ s', like s s' ∧ filled c s') s.
Proof.
  intros Ok. unfold fill_reference. apply wp_bind, wp_get.
  eapply wp_mono; [apply (wp_forM_seq 0 _ _ (λ y s', painted c s s' (λ _ Y, Y < Z.of_nat y)))|].
  - split; [by split|]. intros X Y [_ HY] ?. lia.
  - intros y s1 Hy H1. eapply wp_mono.
    + apply (wp_forM_seq 0 _ _ (λ x s', painted c s s' (λ X Y, Y < Z.of_nat y ∨ (Y = Z.of_nat y ∧ X < Z.of_nat x)))).
      * destruct H1 as [L1 H1]. split; [done|]. intros X Y On [HY|[_ HX]]; [by apply H1|]. destruct On. lia.
      * intros x s2 Hx H2. eapply painted_plot; [exact H2|unfold on_screen; lia|]. intros X Y [HY|[-> HX]]; [left; by left|].
        destruct (decide (X = Z.of_nat x)) as [->|]; [by right|left; right; lia].
    + intros [] s2 [L2 H2]. split; [done|]. intros X Y On HY. apply H2; [done|]. destruct On. lia.
  - intros [] s' [L H]. split; [done|]. intros X Y On. destruct L as [_ (G1 & G2 & G3 & G4)].
    assert (on_screen s X Y) as On0 by (unfold on_screen in *; by rewrite -G1 -G2).
    rewrite H //; [destruct On0; lia|]. unfold color_bytes, pix_bytes. by rewrite G4.
Qed.

(** ** Particles leave no trace *)
(** A pixel drawn on a screen of the background colour and then erased. *)
Lemma plot_erase c X Y s : screen_ok s → filled BACKGROUND_COLOR s →
  (PlotPixel c X Y;; PlotPixel BACKGROUND_COLOR X Y) s = Ok (tt, s).
Proof.
  intros Ok Hb. unfold mbind, M_bind. rewrite PlotPixel_spec //. destruct (decide (on_screen s X Y)) as [On|Off].
  - rewrite PlotPixel_spec; [by apply plot_ok|]. rewrite decide_True //. do 2 f_equal.
    destruct (offset_fits s X Y Ok On) as [_ Hf]. unfold plot at 1. cbn [PixBuff set_buff plot].
    change (offset (plot c X Y s) X Y) with (offset s X Y). change (pix_bytes (plot c X Y s)) with (pix_bytes s).
    change (PixBPP (plot c X Y s)) with (PixBPP s). rewrite splice_back.
    + by rewrite length_le_bytes.
    + by rewrite !length_le_bytes.
    + rewrite length_le_bytes. by apply Hb.
    + by destruct s.
  - by rewrite PlotPixel_spec // decide_False.
Qed.
Definition total (l : list Z) : Z := foldr Z.add 0 l.
Lemma frame_delay_range T : 16 ≤ frame_delay T ≤ 17.
Proof. unfold frame_delay. case_decide; lia. Qed.
Lemma particle_loop_spec fuel : ∀ i T E d s, screen_ok s → filled BACKGROUND_COLOR s → E - i ≤ 16 * Z.of_nat fuel →
  ∃ d' delays, particle_loop fuel i T E d s = Ok ((d', delays), s) ∧ m_color d' = m_color d ∧
    Forall (λ x, x = 16 ∨ x = 17) delays ∧ (i ≤ E → E ≤ i + total delays < E + 17).
Proof.
  induction fuel as [|fuel IH]; intros i T E d s Ok Hb Hf; cbn [particle_loop].
  { rewrite decide_True; [lia|]. exists d, []. split_and!; try done; cbn; lia. }
  destruct (decide (E ≤ i)); [exists d, []; split_and!; try done; cbn; lia|].
  pose proof (frame_delay_range T) as Hd.
  destruct (IH (i + frame_delay T) (next_T T) E (update_particle (frame_delay T) d) s Ok Hb) as (d' & delays & El & Ec & Hds & Ht); [lia|].
  exists d', (frame_delay T :: delays). split_and!.
  - pose proof (plot_erase (m_color d) (m_x d) (m_y d) s Ok Hb) as Hp. unfold mbind, M_bind in Hp |- *.
    destruct (PlotPixel (m_color d) (m_x d) (m_y d) s) as [[[] s1]|]; [|done]. rewrite Hp El. done.
  - done.
  - constructor; [lia|done].
  - intros _. cbn [total foldr]. destruct (decide (i + frame_delay T ≤ E)) as [Hi|Hi]; [fold (total delays); specialize (Ht Hi); lia|].
    assert (delays = []) as ->; [|cbn; lia].
    destruct fuel; cbn [particle_loop] in El; (destruct (decide (E ≤ i + frame_delay T)) as [_|?] in El; [by injection El|lia]).
Qed.

(** ** Random numbers stay in range *)
Lemma Rand_range g : 0 ≤ (Rand g).1 < 2 ^ 31.
Proof.
  unfold Rand. cbn [fst]. change 0x7FFFFFFF with (Z.ones 31). rewrite Z.land_ones //. by apply Z.mod_pos_bound.
Qed.
Lemma wp_rand Q g : (∀ r g', 0 ≤ r < 2 ^ 31 → Q r g') → wp rand Q g.
Proof. intros H. unfold wp, rand. pose proof (Rand_range g) as Hr. destruct (Rand g) as [r g']. by apply H. Qed.
Lemma rem_range r n : 0 ≤ r → 0 < n → 0 ≤ Z.rem r n < n.
Proof. intros. apply Z.rem_bound_pos; lia. Qed.
Lemma int64_small x : - 2 ^ 63 ≤ x < 2 ^ 63 → int64 x = x.
Proof.
  intros H. unfold int64, sint. destruct (decide (0 ≤ x)) as [Hx|Hx].
  - rewrite Z.mod_small; [lia|]. rewrite decide_True //. cbn. lia.
  - rewrite -(Z.mod_add x 1 (2 ^ 64)) // Z.mod_small; [lia|]. rewrite decide_False; [cbn; lia|lia].
Qed.
Lemma wp_RandFP Q g : (∀ f g', 0 ≤ f < 65536 → Q f g') → wp RandFP Q g.
Proof. intros H. apply wp_bind, wp_rand. intros r g' Hr. apply wp_ret, H. apply (rem_range r 65536); lia. Qed.
Lemma wp_RandFPSign Q g : (∀ f g', -65536 < f < 65536 → Q f g') → wp RandFPSign Q g.
Proof.
  intros H. apply wp_bind, wp_rand. intros r g' Hr. destruct (decide (Z.rem r 2 ≠ 0)).
  - apply wp_bind, wp_RandFP. intros f g2 Hf. apply wp_ret, H. rewrite int64_small; lia.
  - apply wp_RandFP. intros f g2 Hf. apply H. lia.
Qed.
(** The lives of particles and of rockets, whatever the state of the generator. *)
Lemma init_particle_life SinTable parent g :
  wp (init_particle SinTable parent) (λ r _, 2000 ≤ r.2 < 3000 ∧ m_x r.1 = m_x parent ∧ m_y r.1 = m_y parent) g.
Proof.
  unfold init_particle. apply wp_bind, wp_rand. intros r1 g1 _. apply wp_bind, wp_RandFPSign. intros f1 g2 _.
  apply wp_bind, wp_RandFPSign. intros f2 g3 _. apply wp_bind, wp_rand. intros r2 g4 H2. apply wp_bind. unfold GetRandomColor.
  apply wp_bind, wp_rand. intros r3 g5 _. apply wp_ret, wp_ret. pose proof (rem_range r2 1000 ltac:(lia) ltac:(lia)). cbn. lia.
Qed.
Lemma init_explodeable_life W H g : 
  wp (init_explodeable W H) (λ r _, 500 ≤ r.2 < 1000 ∧ 100 ≤ m_explosionRange r.1 < 200 ∧ - 800 * 65536 < m_velY r.1 ≤ - 400 * 65536) g.
Proof.
  unfold init_explodeable. apply wp_bind, wp_rand. intros r1 g1 H1. apply wp_bind, wp_RandFPSign. intros f1 g2 _.
  apply wp_bind. unfold GetRandomColor. apply wp_bind, wp_rand. intros r2 g3 _. apply wp_ret.
  apply wp_bind, wp_rand. intros r3 g4 H3. apply wp_bind, wp_rand. intros r4 g5 H4. apply wp_ret.
  pose proof (rem_range r1 400 ltac:(lia) ltac:(lia)). pose proof (rem_range r3 100 ltac:(lia) ltac:(lia)).
  pose proof (rem_range r4 500 ltac:(lia) ltac:(lia)). cbn [fst snd m_explosionRange m_velY].
  unfold INT_TO_FP, FIXED_POINT. rewrite Z.shiftl_mul_pow2 //. change (2 ^ 16) with 65536.
  rewrite !int64_small; lia.
Qed.
