(* ===== verification/ReportProps.v ===== *)
(** * Properties of the kernel's reports and of the framebuffer demonstration *)

From S2P Require Import Prelude Str Symbols Log Npf NpfText NpfRef Printk Messages Fireworks.

(** C22: the report of a fault is complete.  For every saved context whose [rbp] is the head
    of a chain of stack frames that can be read and that ends, and whatever the control
    registers, the fault number, the error code and the symbols (with names of ordinary
    length): each [printk] on the way has arguments of the types its format asks for and a
    text that fits its buffer; so, with the log at rest, no assertion of the log fails, and
    every console gets, in order, the state of the processor, the banner of the panic, its
    message, the memory statistics and one line for every return address of the chain, with
    the symbol the lookup finds for it.  Then interrupts are off and the processor halts,
    the log's locks being free.  For every two registers there is a line with sixteen digits
    that read back as the register's value.  (A frame pointer that cannot be read faults
    again, [stack_walk_faults]; a chain that closes is printed for ever,
    [stack_walk_cycle].) *)
Theorem fault_report_delivered {H} `{KMalloc H} (names : symw H) word LOG_LEVEL junk fuel frame cr0 cr2 cr3 cr4
    number error_code total used rips w :
  Forall (short_name names) (symbol_list names) → length junk = 512%nat → log_idle w →
  stack_frames word (Fault.rbp frame) rips → (length rips < fuel)%nat →
  let '(before, after) := Fault.report_calls names frame cr0 cr2 cr3 cr4 number error_code total used rips in
  ∃ ts1 ts2, outputs LOG_LEVEL before = Ok ts1 ∧ outputs LOG_LEVEL after = Ok ts2 ∧
    wp (Fault.fault_report names word LOG_LEVEL junk fuel frame cr0 cr2 cr3 cr4 number error_code total used)
      (λ _ w', ∃ w1, delivered (ts1 ++ panic_art :: ts2) w w1 ∧ w' = l_set_ints false w1) w ∧
    ∀ n1 v1 n2 v2, (n1, v1, (n2, v2)) ∈ Fault.registers frame →
      ∃ t1 t2, Fault.reads_back t1 v1 ∧ Fault.reads_back t2 v2 ∧ (c_lit n1 ++ t1 ++ c_lit n2 ++ t2 ++ [10]) ∈ ts1.
Proof.
  intros Hf Hj Hw Hs Hl. unfold Fault.report_calls, Fault.fault_report.
  pose proof (Fault.handle_fault_ok frame cr0 cr2 cr3 cr4 number error_code) as Hok.
  pose proof (Fault.reg_line_in_report frame cr0 cr2 cr3 cr4 number error_code) as Hreg.
  destruct (Fault.handle_fault frame cr0 cr2 cr3 cr4 number error_code) as [out msg]. destruct Hok as [Hok Hm].
  destruct (outputs_ok LOG_LEVEL out Hok) as [ts1 O1].
  destruct (outputs_ok LOG_LEVEL (panic_calls names msg total used rips)) as [ts2 O2]; [by apply panic_calls_ok|].
  exists ts1, ts2. split_and!; [done|done| |].
  - apply wp_bind. eapply wp_mono; [by apply (say_delivers _ _ _ ts1)|]. intros [] w1 D1.
    eapply wp_mono; [apply (panic_withstack_spec names word LOG_LEVEL junk fuel msg total used _ rips ts2); [done|apply D1|done..]|].
    intros [] w' (w2 & D2 & ->). exists w2. split; [|done]. by eapply delivered_app.
  - intros n1 v1 n2 v2 Hin.
    destruct (Fault.reg_line_output LOG_LEVEL frame _ _ _ _ Hin) as (t1 & t2 & R1 & R2 & Ho). exists t1, t2. split_and!; [done|done|].
    eapply outputs_elem; [|exact Ho|exact O1]. by apply Hreg.
Qed.
Definition frame1 : Fault.frame_t :=
  Fault.Frame 1 2 3 4 5 6 7 8 9 10 11 12 13 14 4096 (2 ^ 64 - 4096) 8 512 8192 16.
Definition log2 : logw := LogW (LogBuffer (λ _, []) 7 7 0) true ∅ [0]%nat {[0%nat := Console true []]}.
(** Two frames, of which the outer one has no symbol; [kmain] is at 0x1000. *)
Definition names1 : symw N :=
  SymW (λ a, if decide (256 ≤ a < 261) then default 0 ([107; 109; 97; 105; 110] !! Z.to_nat (a - 256)) else 0)
    [Symbol 256 0x1000] 0 0%N.
Definition stack1 (a : Z) : option Z :=
  if decide (a = 4096) then Some 4112 else if decide (a = 4104) then Some 0x1060 else
  if decide (a = 4112) then Some 0 else if decide (a = 4120) then Some 8 else None.
Lemma fault_report_delivered_witness :
  ∃ ts, wp (Fault.fault_report names1 stack1 4 (replicate 512 170) 3 frame1 0 0 0 0 14 2 100 60)
    (λ _ w', ∃ w1, delivered ts log2 w1 ∧ w' = l_set_ints false w1) log2.
Proof.
  destruct (fault_report_delivered names1 stack1 4 (replicate 512 170) 3 frame1 0 0 0 0 14 2 100 60 [0x1060; 8] log2)
    as (ts1 & ts2 & _ & _ & Hw & _).
  - repeat constructor.
  - reflexivity.
  - split; [split; split; vm_compute; congruence|]. split; [vm_compute; reflexivity|]. split; [set_solver|].
    split; [reflexivity|]. split; [reflexivity|]. split; [set_solver|]. intros c Hc. assert (c = 0%nat) as -> by set_solver.
    split; [set_solver|by eexists].
  - apply (frames_next _ _ _ 4112); [done|done|reflexivity|done|reflexivity|].
    apply (frames_next _ _ _ 0); [done|done|reflexivity|done|reflexivity|]. apply frames_null.
  - cbn. lia.
  - exists (ts1 ++ panic_art :: ts2). exact Hw.
Defined.

(** [FillScreen], which walks along each row with a pointer, does what plotting every
    pixel with [PlotPixel] does, on every framebuffer whose rows and memory hold its
    pixels; both stay inside the memory, and every pixel has the colour afterwards. *)
Theorem FillScreen_plots_every_pixel Color s : screen_ok s →
  FillScreen Color s = fill_reference Color s ∧
  wp (FillScreen Color) (λ _ s', screen_ok s' ∧ same_geometry s s' ∧ filled Color s') s.
Proof.
  intros Ok. pose proof (FillScreen_reference Color s Ok) as E. split; [done|].
  pose proof (fill_reference_filled Color s Ok) as Hf. unfold wp in *. rewrite E.
  destruct (fill_reference Color s) as [[[] s']|]; [|done]. by destruct Hf as [[? ?] ?].
Qed.
(** Three pixels of 24 bits and two of padding in each of two rows. *)
Definition screen1 : screen := Screen (replicate 22 0) 3 2 11 24.
Lemma screen1_ok : screen_ok screen1.
Proof. split; try (vm_compute; congruence); [by exists 3|split; vm_compute; congruence..]. Defined.
Lemma FillScreen_plots_every_pixel_witness :
  wp (FillScreen 0x102030) (λ _ s', PixBuff s' =
    [48; 32; 16; 48; 32; 16; 48; 32; 16; 0; 0; 48; 32; 16; 48; 32; 16; 48; 32; 16; 0; 0]) screen1 ∧
  FillScreen 0x102030 screen1 = fill_reference 0x102030 screen1.
Proof. split; [vm_compute; reflexivity|]. exact (proj1 (FillScreen_plots_every_pixel 0x102030 screen1 screen1_ok)). Defined.

(** A particle drawn on a screen of the background colour, wherever it flies, leaves
    the memory of the framebuffer as it was when its loop ends; the loop does end, after
    one turn for every 16 or 17 milliseconds of its life, and oversleeps by at most 16. *)
Theorem particles_leave_no_trace fuel ExpireIn d s : screen_ok s → filled BACKGROUND_COLOR s → 0 ≤ ExpireIn ≤ 16 * Z.of_nat fuel →
  ∃ d' delays, particle_loop fuel 0 0 ExpireIn d s = Ok ((d', delays), s) ∧ m_color d' = m_color d ∧
    Forall (λ x, x = 16 ∨ x = 17) delays ∧ ExpireIn ≤ total delays < ExpireIn + 17.
Proof.
  intros Ok Hb He. destruct (particle_loop_spec fuel 0 0 ExpireIn d s Ok Hb) as (d' & delays & E & Ec & Hd & Ht); [lia|].
  exists d', delays. split_and!; [done|done|done|lia|lia].
Qed.
Definition particle1 : FIREWORK_DATA := Firework 1 1 0xFFFFFF 65536 65536 (30 * 65536) (- (20 * 65536)) 0.
Definition screen2 : screen := Screen [15; 9; 9; 15; 9; 9; 15; 9; 9; 0; 0; 15; 9; 9; 15; 9; 9; 15; 9; 9; 0; 0] 3 2 11 24.
Lemma particles_leave_no_trace_witness :
  ∃ d' delays, particle_loop 188 0 0 2999 particle1 screen2 = Ok ((d', delays), screen2) ∧ 2999 ≤ total delays < 3016.
Proof.
  destruct (particles_leave_no_trace 188 2999 particle1 screen2) as (d' & delays & E & _ & _ & Ht).
  - split; try (vm_compute; congruence); [by exists 3|split; vm_compute; congruence..].
  - intros X Y [HX HY]. cbn in HX, HY.
    assert ((X = 0 ∨ X = 1 ∨ X = 2) ∧ (Y = 0 ∨ Y = 1)) as [[->|[->| ->]] [->| ->]] by lia; reflexivity.
  - lia.
  - exists d', delays. split; [exact E|exact Ht].
Defined.

(** A thread that [sched_init_thread] made has no name; [sched_unwait] prints it. *)
Lemma sched_unwait_prints_null : printed (c_lit "name: %s\n") [APtr 0 None] = Panic (NullDeref "cbuf").
Proof. by vm_compute. Qed.
